(* ===== verification/_CoqProject ===== *)
-Q . S2P
Prelude.v
KList.v
Request.v
Samples.v
Elevator.v
Iosched.v
Settings.v
Sysfs.v
Segments.v
ReqList.v
Softirq.v
Timeout.v
Iopoll.v
Tags.v
Complete.v
BioAdd.v
Noop.v
Dispatch.v
Look.v
Cloned.v
Bounce.v
Barrier.v
Colour.v
BioList.v
Generic.v
Merge.v
Submit.v
Joining.v
RbTree.v
RbInsert.v
RbWalk.v
RbErase.v
RbFoot.v
RbTheorems.v
ElvRb.v
Deadline.v
DeadlineOps.v
DeadlineMerge.v
DeadlineFair.v
DeadlineSysfs.v
Slob.v
SlobAlloc.v
SlobFree.v
SlobCache.v
SlobClient.v
