(* ===== verification/Prelude.v ===== *)
(** * Verification of the block I/O path and the SLOB allocator of the CS411 kernel

    The repository is a Linux 2.6.34.7 tree with a LOOK I/O scheduler
    ([block/look-iosched.c]) and a best-fit SLOB allocator ([mm/slob.c]) added to
    it.  The development models both, and the block layer around the scheduler:
    everything a bio meets between its submission and its completion.  Paths
    below are relative to [src/linux-2.6.34.7].

    ** The program and how its parts meet

    A file system submits a bio for a device.  [generic_make_request] checks it
    and calls the [make_request_fn] of the queue, usually [__make_request].  That
    replaces pages the device cannot reach (bounce buffers) and looks for a
    queued request the bio can join, through the merge hash of the elevator and
    the segment and size limits of the queue; if there is none, it allocates a
    request and adds it to the elevator, which gives it to the I/O scheduler or
    puts it on the dispatch queue.  The driver takes requests from the dispatch
    queue; barriers are replaced by a sequence of flush, write and flush that
    holds the later requests back.  A started request may carry a tag and has a
    timeout.  When the device is done the request is completed through a softirq,
    in parts or as a whole, its bios are ended and its memory is released, which
    may wake a task that waits for a request.

    ** Files

    - [Prelude] (this file): outcomes of C code ([res]: a value, or [BUG],
      [OOPS], [HANG]), the state monad [ST], machine integers and flag words,
      list lemmas, tactics and hint databases.
    - [KList]: [include/linux/list.h] on a heap of nodes, and [is_list], which
      relates a circular list in that heap to a sequence.
    - [Request]: [struct bio], [request], [request_queue] ([include/linux/bio.h],
      [blkdev.h], [elevator.h]) and their accessors.  A [world D] is the table of
      requests, the heap of list nodes, the queue and the data [D] of the
      scheduler; [Samples] has concrete ones.
    - [Elevator]: [block/elevator.c] over an arbitrary [elevator_ops], a record
      of the scheduler's functions.  [Iosched]: the class of schedulers that
      keep the contract, and what the elevator guarantees for all of them;
      [Dispatch]: insertion order, barriers and merge candidates.
    - [Noop], [Look]: [block/noop-iosched.c], [block/look-iosched.c], and that
      they are instances of the class.
    - [RbTree], [RbInsert], [RbWalk], [RbErase], [RbFoot], [RbTheorems]:
      [lib/rbtree.c] on a heap of nodes, related to trees with a hole; [ElvRb]:
      the requests in such a tree by sector ([elv_rb_add] and its kin).
    - [Deadline] (code and representation), [DeadlineOps], [DeadlineMerge],
      [DeadlineFair], [DeadlineSysfs]: [block/deadline-iosched.c], that it is an
      instance of the class, its order of service and its tunables.
    - [Settings], [Sysfs]: [block/blk-settings.c], [block/blk-sysfs.c], with the
      parts of [lib/gcd.c], [lib/lcm.c] and [lib/vsprintf.c] they use.
    - [Segments], [Merge]: [block/blk-merge.c].
    - [ReqList]: allocation of requests and [Complete], [Submit], [Barrier]: their
      completion, their creation from bios and their way to the driver
      ([block/blk-core.c], [block/blk-barrier.c], [block/blk.h]).  [Joining]:
      what [__make_request] does with a bio that continues queued requests, for
      the class of schedulers that leave merging to the elevator; [Colour]:
      which requests a barrier holds back, for the class of schedulers that
      leave the ordered colour of requests alone.
    - [Softirq], [Timeout], [Tags], [Iopoll]: [block/blk-softirq.c],
      [block/blk-timeout.c], [block/blk-tag.c], [block/blk-iopoll.c].
    - [Bounce]: [mm/bounce.c] on a memory of bytes.
    - [BioAdd]: allocating bios and adding pages to them ([fs/bio.c]), discards
      and flushes ([block/blk-barrier.c]).
    - [BioList], [Generic]: the lists of bios of [include/linux/bio.h], and the
      way of a bio from [submit_bio] to a driver, through partitions and stacked
      devices ([block/blk-core.c]).  [Cloned]: requests sent on by stacking
      drivers.
    - [Slob], [SlobAlloc], [SlobFree]: [mm/slob.c] on a memory of 16-bit cells;
      [SlobCache]: its slab caches; [SlobClient]: sequences of calls of a client.

    A definition has the name of the C function it translates.  A function is
    split where the C function drops a lock, or where one of its parts has a
    lemma of its own.

    ** What is shown

    - Schedulers: the service order of LOOK is the one of its specification,
      draining it terminates and sweeps up and then down; the deadline scheduler
      takes the request its specification names, serves a batch in sector order,
      bounds how long reads hold up writes, and keeps both its trees and lists in
      step when requests are merged; the elevator keeps the
      dispatch queue a sweep when its requests are inserted in order, keeps
      barriers behind what came before them, and returns as merge candidate the
      request of the last merge, the first match in its hash or the scheduler's
      choice, whichever comes first; an incompatible request in the hash can
      hide a compatible one behind it.
    - Red-black trees: insertion and removal keep the tree balanced and in order
      and return; the walks follow the order; the trees of requests implement a
      finite map from sectors, with lookups of logarithmic length.
    - Requests: under every interleaving of allocations and releases with a
      fixed limit the counters and marks of the request list agree, and a
      sleeping task gets a request; a bio joins a request only in its place and
      within the limits, and two requests become one when a bio fills the gap
      between them; a new request covers its bio and is queued.
    - Transfers: the scatter list of a request fits in the number of segments
      counted and covers its bytes; completing [n] bytes drops exactly the first
      [n] bytes and ends exactly the bios in them; bounce buffers are invisible;
      adding a page to a bio appends exactly its bytes; the bios of a discard
      cover its sectors without gap or overlap.
    - Ordering: a barrier at the head of a drained queue runs as flush, write and
      flush, as far as its mode has them, one after the other, and is then ended
      with the first error; the colours of the requests are such that those
      added before it are let through and those added after it, the next barrier
      included, are held back.
    - Completion: every completed request is finished exactly once; timeouts are
      reported for exactly the expired requests that have not completed, and
      what the driver answers is done; tags are unique and reusable; a polling
      structure has one owner under every interleaving, and the polling softirq
      leaves nothing behind unnoticed.
    - Limits: settings keep the limits well formed, stacking respects both
      devices, attributes parse what they print.
    - Devices: a bio reaches a driver only within the bounds of its partition and
      disk; submission through stacked devices terminates, without nesting calls.
    - SLOB: allocation and freeing never fault, keep the free lists disjoint,
      ordered and fully coalesced, choose the smallest sufficient block when
      alignment costs nothing, and undo one another; the blocks a client holds do
      not overlap and keep their contents, also while an object waits for RCU;
      [kfree] gives back exactly the units [kmalloc] took, or the page.
    - Some theorems are about inputs on which the code does not do what it means
      to: a request that LOOK serves out of order, an exact fit that SLOB passes
      over, a 16-bit merge limit, a discard that joins a write, a barrier
      completed in parts, tags copied past the end of the new map, a postponed
      timeout, deadline tunables that do not mean what they say, a discard that
      never ends.

    ** Bounds and fuel

    Integers are reduced to the width of the C type where the code computes
    them; the machine has 64-bit longs, 4 KiB pages and [HZ = 250].  Loops over
    linked lists run with fuel one above the size of the heap ([loop_fuel] of
    [KList]), which no list without repetition can exceed, and twice that where
    the body may move nodes to the end of the list ([list_for_each_safe] of
    [Request]); loops over bios and
    vectors are structural or bounded by their number; the loop of Euclid's
    algorithm by the smaller number; a drain by the number of requests; loops
    on a red-black tree by the number of nodes in the heap, more than its depth.  The
    theorems that a function returns show that the fuel is enough, [HANG] is an
    error like the others.

    ** Parameters

    The driver ([request_fn], [prep_rq_fn], [prepare_flush_fn], [rq_timed_out_fn],
    completion callbacks), the memory and page allocators, the CPU that runs, the
    clock and the tasks that sleep are arguments of the definitions that use
    them; what is assumed of them is a hypothesis of the theorem.

    ** Not modelled

    - The CFQ scheduler, and the registration of schedulers and switching
      between them at run time ([elevator_init], [elv_register],
      [elevator_switch]).
    - Block cgroups, io contexts beyond the batching fields, integrity metadata,
      [blk-exec.c], [blk-map.c], cloning and mapping of bios, the bsg and
      ioctl interfaces, disks and partitions ([genhd.c]): separate services
      on top of the path above.
    - Locks and interrupts as such: a function that runs under a lock is one
      step.  Where the order of steps matters (request allocation, softirq
      completion, barriers) the theorems quantify over it.
    - Statistics, tracing, fault injection, cache maintenance and [printk].
    - NUMA in SLOB.
    - The rest of the kernel: page allocator, file systems, drivers, other
      architectures. *)

From stdpp Require Export base gmap list numbers strings.
From Stdlib Require Export ZArith Lia.

Local Open Scope Z_scope.

(** ** Outcomes of kernel code

    [BUG] is a [BUG_ON] that fires, [OOPS] a dereference of a pointer that is
    [NULL], poisoned or dangling, [HANG] a loop that exhausted its fuel. *)
Inductive exn := BUG | OOPS | HANG.

Inductive res (A : Type) : Type :=
| Ok (a : A)
| Err (e : exn).
Arguments Ok {A} a.
Arguments Err {A} e.

#[global] Instance res_ret : MRet res := @Ok.
#[global] Instance res_bind : MBind res :=
  λ A B f m, match m with Ok a => f a | Err e => Err e end.
#[global] Instance res_fmap : FMap res :=
  λ A B f m, match m with Ok a => Ok (f a) | Err e => Err e end.

(** Lookup that faults when the object does not exist. *)
Definition deref {A} (o : option A) : res A :=
  match o with Some a => Ok a | None => Err OOPS end.

(** Error numbers ([include/asm-generic/errno-base.h], [errno.h]). *)
Definition ENOENT : Z := 2.
Definition EIO : Z := 5.
Definition ENXIO : Z := 6.
Definition ENOMEM : Z := 12.
Definition EBUSY : Z := 16.
Definition EINVAL : Z := 22.
Definition EOPNOTSUPP : Z := 95.

(** ** State passing with faults *)
Definition ST (S A : Type) : Type := S → res (A * S).

#[global] Instance st_ret S : MRet (ST S) := λ A a s, Ok (a, s).
#[global] Instance st_bind S : MBind (ST S) :=
  λ A B f m s, match m s with Ok (a, s') => f a s' | Err e => Err e end.

Definition get {S} : ST S S := λ s, Ok (s, s).
Definition put {S} (s' : S) : ST S unit := λ _, Ok (tt, s').
Definition modify {S} (f : S → S) : ST S unit := λ s, Ok (tt, f s).
Definition gets {S A} (f : S → A) : ST S A := λ s, Ok (f s, s).
Definition raise {S A} (e : exn) : ST S A := λ _, Err e.
(** Run a fallible pure computation. *)
Definition lift {S A} (r : res A) : ST S A :=
  λ s, match r with Ok a => Ok (a, s) | Err e => Err e end.
Definition bug_on {S} (b : bool) : ST S unit := if b then raise BUG else mret tt.
Definition when {S} (b : bool) (m : ST S unit) : ST S unit := if b then m else mret tt.

(** Run a computation on a part of the state. *)
Definition zoom {S T A} (prj : S → T) (upd : T → S → S) (m : ST T A) : ST S A :=
  λ s, match m (prj s) with Ok (a, t) => Ok (a, upd t s) | Err e => Err e end.

Section st_laws.
Context {S : Type}.

Lemma st_bind_ok {A B} (m : ST S A) (f : A → ST S B) s a s' :
  m s = Ok (a, s') → (m ≫= f) s = f a s'.
Proof. unfold mbind, st_bind. by intros ->. Qed.

Lemma st_bind_inv {A B} (m : ST S A) (f : A → ST S B) s r :
  (m ≫= f) s = Ok r → ∃ a s', m s = Ok (a, s') ∧ f a s' = Ok r.
Proof. unfold mbind, st_bind. destruct (m s) as [[a s']|] eqn:E; naive_solver. Qed.

Lemma st_bind_assoc {A B C} (m : ST S A) (f : A → ST S B) (g : B → ST S C) s :
  (m ≫= λ x, f x ≫= g) s = ((m ≫= f) ≫= g) s.
Proof. unfold mbind, st_bind. by destruct (m s) as [[]|]. Qed.

Lemma zoom_ok {T A} (prj : S → T) upd (m : ST T A) s a t :
  m (prj s) = Ok (a, t) → zoom prj upd m s = Ok (a, upd t s).
Proof. unfold zoom. by intros ->. Qed.
End st_laws.

(** ** Machine integers *)
Definition u8 (x : Z) : Z := x mod 2 ^ 8.
Definition u16 (x : Z) : Z := x mod 2 ^ 16.
Definition u32 (x : Z) : Z := x mod 2 ^ 32.
Definition u64 (x : Z) : Z := x mod 2 ^ 64.
Definition s16 (x : Z) : Z := (x + 2 ^ 15) mod 2 ^ 16 - 2 ^ 15.
Definition s32 (x : Z) : Z := (x + 2 ^ 31) mod 2 ^ 32 - 2 ^ 31.

Definition s64 (x : Z) : Z := (x + 2 ^ 63) mod 2 ^ 64 - 2 ^ 63.

Lemma u32_id x : 0 ≤ x < 2 ^ 32 → u32 x = x.
Proof. intros. by apply Z.mod_small. Qed.
Lemma u64_id x : 0 ≤ x < 2 ^ 64 → u64 x = x.
Proof. intros. by apply Z.mod_small. Qed.
Lemma s16_id x : - 2 ^ 15 ≤ x < 2 ^ 15 → s16 x = x.
Proof. intros. unfold s16. rewrite Z.mod_small; lia. Qed.
Lemma s32_id x : - 2 ^ 31 ≤ x < 2 ^ 31 → s32 x = x.
Proof. intros. unfold s32. rewrite Z.mod_small; lia. Qed.
Lemma s64_id x : - 2 ^ 63 ≤ x < 2 ^ 63 → s64 x = x.
Proof. intros. unfold s64. rewrite Z.mod_small; lia. Qed.
Lemma u32_range x : 0 ≤ u32 x < 2 ^ 32.
Proof. by apply Z.mod_pos_bound. Qed.
Lemma u64_range x : 0 ≤ u64 x < 2 ^ 64.
Proof. by apply Z.mod_pos_bound. Qed.

(** Truth value of a C integer, and of a bit test [x & m]. *)
Definition tst (x m : Z) : bool := negb (Z.land x m =? 0).

Lemma tst_lor x y m : tst (Z.lor x y) m = tst x m || tst y m.
Proof.
  unfold tst. rewrite Z.land_lor_distr_l, <-negb_andb. f_equal. apply eq_true_iff_eq.
  rewrite andb_true_iff, !Z.eqb_eq, Z.lor_eq_0_iff. tauto.
Qed.
Lemma tst_mask_lor f m n : tst f (Z.lor m n) = tst f m || tst f n.
Proof.
  assert (∀ x y, tst x y = tst y x) as C by (intros; unfold tst; by rewrite Z.land_comm).
  rewrite C, tst_lor. f_equal; apply C.
Qed.

(** [time_after] of [linux/jiffies.h]: [a] is later than [b], up to wrap-around. *)
Definition time_after (a b : Z) : bool := s64 (s64 b - s64 a) <? 0.
Definition time_before (a b : Z) : bool := time_after b a.
Definition time_after_eq (a b : Z) : bool := s64 (s64 a - s64 b) >=? 0.

(** ** Tactics *)

(** Turn boolean integer tests into propositions. *)
Ltac bprop :=
  repeat match goal with
  | H : (_ && _) = true |- _ => apply andb_true_iff in H as [? ?]
  | H : (_ || _) = false |- _ => apply orb_false_iff in H as [? ?]
  | H : negb _ = true |- _ => apply negb_true_iff in H
  | H : negb _ = false |- _ => apply negb_false_iff in H
  | H : (_ =? _) = true |- _ => apply Z.eqb_eq in H
  | H : (_ =? _) = false |- _ => apply Z.eqb_neq in H
  | H : (_ <? _) = true |- _ => apply Z.ltb_lt in H
  | H : (_ <? _) = false |- _ => apply Z.ltb_ge in H
  | H : (_ <=? _) = true |- _ => apply Z.leb_le in H
  | H : (_ <=? _) = false |- _ => apply Z.leb_gt in H
  end.

(** Propositional reasoning about membership in list expressions: only
    membership facts and equations of the context are used. *)
Ltac lelem_clear :=
  repeat match goal with
  | H : ?P |- _ =>
    lazymatch type of P with
    | Prop => lazymatch P with
              | _ ∈ _ => fail
              | ¬ (_ ∈ _) => fail
              | _ = _ => fail
              | _ ≠ _ => fail
              | _ ∧ _ => fail
              | _ ∨ _ => fail
              | _ => clear H
              end
    end
  end.
Ltac lelem :=
  lelem_clear; intros;
  repeat match goal with
  | H : context [ _ ∈ _ :: _ ] |- _ => rewrite elem_of_cons in H
  | H : context [ _ ∈ _ ++ _ ] |- _ => rewrite elem_of_app in H
  | H : context [ _ ∈ [] ] |- _ => rewrite elem_of_nil in H
  | |- context [ _ ∈ _ :: _ ] => rewrite elem_of_cons
  | |- context [ _ ∈ _ ++ _ ] => rewrite elem_of_app
  | |- context [ _ ∈ [] ] => rewrite elem_of_nil
  end; first [tauto | intuition first [congruence | subst; auto; tauto]].

(** Run the next step of a [ST] computation whose outcome is known. *)
Tactic Notation "st_step" uconstr(H) := rewrite (st_bind_ok _ _ _ _ _ H).

(** ** List facts shared by the components *)
Lemma NoDup_middle {A} (l1 : list A) x l2 :
  NoDup (l1 ++ x :: l2) ↔ x ∉ l1 ++ l2 ∧ NoDup (l1 ++ l2).
Proof. rewrite <-(Permutation_middle l1 l2 x). by rewrite NoDup_cons. Qed.

Lemma last_cons_default {A} (a : A) l x : List.last (x :: l) a = List.last l x.
Proof.
  revert x a. induction l as [|y l IH]; intros x a; [done|].
  change (List.last (x :: y :: l) a) with (List.last (y :: l) a).
  rewrite IH. symmetry. apply IH.
Qed.

Lemma last_default_elem {A} (a : A) l : List.last l a ∈ a :: l.
Proof.
  revert a. induction l as [|x l IH]; intros a; [by left|].
  rewrite last_cons_default. right. apply IH.
Qed.

Lemma hd_default_elem {A} (b : A) l : List.hd b l ∈ l ++ [b].
Proof. destruct l; by left. Qed.

Lemma hd_default_ne {A} (b y : A) l : b ≠ y → y ∉ l → List.hd b l ≠ y.
Proof. intros ? Hy. destruct l as [|x l]; [done|]. simpl. intros ->. apply Hy. by left. Qed.

Lemma last_default_ne {A} (a y : A) l : a ≠ y → y ∉ l → List.last l a ≠ y.
Proof.
  intros ? Hy E. pose proof (last_default_elem a l) as Hin. rewrite E in Hin.
  by apply elem_of_cons in Hin as [->|?].
Qed.

Lemma ne_of_elem {A} (x y : A) (l : list A) : x ∉ l → y ∈ l → x ≠ y.
Proof. by intros ?? ->. Qed.

Lemma filter_all {A} (P : A → Prop) `{∀ x, Decision (P x)} (l : list A) :
  (∀ x, x ∈ l → P x) → filter P l = l.
Proof.
  induction l as [|x l IH]; intros Hl; [done|].
  rewrite filter_cons_True by (apply Hl; by left). f_equal. apply IH.
  intros y ?. apply Hl. by right.
Qed.

Lemma last_rev_hd {A} (a : A) l : List.last (rev l) a = List.hd a l.
Proof. destruct l as [|x l]; [done|]. simpl. apply last_last. Qed.

Lemma fmap_rev {A B} (f : A → B) (l : list A) : f <$> rev l = rev (f <$> l).
Proof. induction l as [|x l IH]; [done|]. simpl. by rewrite fmap_app, IH. Qed.
