(* ===== verification/KList.v ===== *)
(** * Circular doubly linked lists ([include/linux/list.h])

    The heap maps the address of every [struct list_head] to its two pointers.
    The operations are the C functions, statement by statement; a dereference
    of a poisoned or unmapped pointer is an [OOPS].  [is_list h hd xs] says that
    the list whose head is at [hd] links exactly the nodes [xs], in this order;
    every operation is shown to act on [xs] as the sequence operation it stands
    for and to leave all disjoint lists alone. *)

From S2P Require Import Prelude.

(** A [struct list_head *].  The two poison values are what [list_del] leaves
    behind ([include/linux/poison.h]). *)
Inductive ptr (A : Type) : Type :=
| Ptr (a : A)
| LIST_POISON1
| LIST_POISON2.
Arguments Ptr {A} a.
Arguments LIST_POISON1 {A}.
Arguments LIST_POISON2 {A}.

#[global] Instance ptr_eq_dec `{EqDecision A} : EqDecision (ptr A).
Proof. solve_decision. Defined.

(** [struct list_head]. *)
Record list_head (A : Type) : Type := ListHead { next : ptr A; prev : ptr A }.
Arguments ListHead {A} _ _.
Arguments next {A} _.
Arguments prev {A} _.

(** How a loop body ends: fall through to the next entry or [break]. *)
Inductive ctl (X : Type) : Type :=
| Continue (x : X)
| Break (x : X).
Arguments Continue {X} x.
Arguments Break {X} x.

Section ops.
Context {A : Type} `{Countable A}.

Definition set_next (n : list_head A) (p : ptr A) : list_head A :=
  ListHead p (prev n).
Definition set_prev (n : list_head A) (p : ptr A) : list_head A :=
  ListHead (next n) p.

(** [p->next], [p->prev] and the assignments to them. *)
Definition get_next (p : ptr A) : ST (gmap A (list_head A)) (ptr A) := λ h,
  match p with
  | Ptr a => match h !! a with Some n => Ok (next n, h) | None => Err OOPS end
  | _ => Err OOPS
  end.
Definition get_prev (p : ptr A) : ST (gmap A (list_head A)) (ptr A) := λ h,
  match p with
  | Ptr a => match h !! a with Some n => Ok (prev n, h) | None => Err OOPS end
  | _ => Err OOPS
  end.
Definition store_next (p v : ptr A) : ST (gmap A (list_head A)) unit := λ h,
  match p with
  | Ptr a => match h !! a with
             | Some n => Ok (tt, <[a := set_next n v]> h)
             | None => Err OOPS end
  | _ => Err OOPS
  end.
Definition store_prev (p v : ptr A) : ST (gmap A (list_head A)) unit := λ h,
  match p with
  | Ptr a => match h !! a with
             | Some n => Ok (tt, <[a := set_prev n v]> h)
             | None => Err OOPS end
  | _ => Err OOPS
  end.

Definition INIT_LIST_HEAD (list : ptr A) : ST (gmap A (list_head A)) unit :=
  store_next list list;;
  store_prev list list.

Definition __list_add (new prev next : ptr A) : ST (gmap A (list_head A)) unit :=
  store_prev next new;;
  store_next new next;;
  store_prev new prev;;
  store_next prev new.

Definition list_add (new head : ptr A) : ST (gmap A (list_head A)) unit :=
  n ← get_next head;
  __list_add new head n.

Definition list_add_tail (new head : ptr A) : ST (gmap A (list_head A)) unit :=
  p ← get_prev head;
  __list_add new p head.

Definition __list_del (prev next : ptr A) : ST (gmap A (list_head A)) unit :=
  store_prev next prev;;
  store_next prev next.

Definition list_del (entry : ptr A) : ST (gmap A (list_head A)) unit :=
  p ← get_prev entry;
  n ← get_next entry;
  __list_del p n;;
  store_next entry LIST_POISON1;;
  store_prev entry LIST_POISON2.

Definition list_replace (old new : ptr A) : ST (gmap A (list_head A)) unit :=
  n ← get_next old;
  store_next new n;;
  n' ← get_next new;
  store_prev n' new;;
  p ← get_prev old;
  store_prev new p;;
  p' ← get_prev new;
  store_next p' new.

Definition list_replace_init (old new : ptr A) : ST (gmap A (list_head A)) unit :=
  list_replace old new;;
  INIT_LIST_HEAD old.

Definition list_del_init (entry : ptr A) : ST (gmap A (list_head A)) unit :=
  p ← get_prev entry;
  n ← get_next entry;
  __list_del p n;;
  INIT_LIST_HEAD entry.

Definition list_move (list head : ptr A) : ST (gmap A (list_head A)) unit :=
  p ← get_prev list;
  n ← get_next list;
  __list_del p n;;
  list_add list head.

Definition list_move_tail (list head : ptr A) : ST (gmap A (list_head A)) unit :=
  p ← get_prev list;
  n ← get_next list;
  __list_del p n;;
  list_add_tail list head.

Definition list_is_last (list head : ptr A) : ST (gmap A (list_head A)) bool :=
  n ← get_next list;
  mret (bool_decide (n = head)).

Definition list_empty (head : ptr A) : ST (gmap A (list_head A)) bool :=
  n ← get_next head;
  mret (bool_decide (n = head)).

Definition list_empty_careful (head : ptr A) : ST (gmap A (list_head A)) bool :=
  n ← get_next head;
  p ← get_prev head;
  mret (bool_decide (n = head) && bool_decide (n = p)).

Definition list_rotate_left (head : ptr A) : ST (gmap A (list_head A)) unit :=
  e ← list_empty head;
  if negb e then
    first ← get_next head;
    list_move_tail first head
  else mret tt.

Definition list_is_singular (head : ptr A) : ST (gmap A (list_head A)) bool :=
  e ← list_empty head;
  if negb e then
    n ← get_next head;
    p ← get_prev head;
    mret (bool_decide (n = p))
  else mret false.

Definition __list_cut_position (list head entry : ptr A) : ST (gmap A (list_head A)) unit :=
  new_first ← get_next entry;
  n ← get_next head;
  store_next list n;;
  n' ← get_next list;
  store_prev n' list;;
  store_prev list entry;;
  store_next entry list;;
  store_next head new_first;;
  store_prev new_first head.

Definition list_cut_position (list head entry : ptr A) : ST (gmap A (list_head A)) unit :=
  e ← list_empty head;
  if (e : bool) then mret tt else
  s ← list_is_singular head;
  n ← get_next head;
  if s && (negb (bool_decide (n = entry)) && negb (bool_decide (head = entry)))
  then mret tt
  else if bool_decide (entry = head) then INIT_LIST_HEAD list
  else __list_cut_position list head entry.

Definition __list_splice (list prev next : ptr A) : ST (gmap A (list_head A)) unit :=
  first ← get_next list;
  last ← get_prev list;
  store_prev first prev;;
  store_next prev first;;
  store_next last next;;
  store_prev next last.

Definition list_splice (list head : ptr A) : ST (gmap A (list_head A)) unit :=
  e ← list_empty list;
  if negb e then n ← get_next head; __list_splice list head n else mret tt.

Definition list_splice_tail (list head : ptr A) : ST (gmap A (list_head A)) unit :=
  e ← list_empty list;
  if negb e then p ← get_prev head; __list_splice list p head else mret tt.

Definition list_splice_init (list head : ptr A) : ST (gmap A (list_head A)) unit :=
  e ← list_empty list;
  if negb e then
    n ← get_next head; __list_splice list head n;; INIT_LIST_HEAD list
  else mret tt.

Definition list_splice_tail_init (list head : ptr A) : ST (gmap A (list_head A)) unit :=
  e ← list_empty list;
  if negb e then
    p ← get_prev head; __list_splice list p head;; INIT_LIST_HEAD list
  else mret tt.

(** [for (pos = start; pos != head; pos = step pos) body].  The body sees the
    entry and an accumulator (the local variables it assigns) and may fault.
    The result is the cursor the loop stops at and the accumulator. *)
Fixpoint list_loop {X} (step : ptr A → ST (gmap A (list_head A)) (ptr A))
    (body : ptr A → X → res (ctl X)) (head : ptr A)
    (fuel : nat) (pos : ptr A) (x : X) : ST (gmap A (list_head A)) (ptr A * X) :=
  match fuel with
  | O => raise HANG
  | S fuel =>
    if bool_decide (pos = head) then mret (pos, x) else
    c ← lift (body pos x);
    match c with
    | Break x' => mret (pos, x')
    | Continue x' =>
      pos' ← step pos;
      list_loop step body head fuel pos' x'
    end
  end.

(** One more iteration than there are nodes in the heap. *)
Definition loop_fuel (h : gmap A (list_head A)) : nat := S (S (size h)).

Definition list_for_each {X} (head : ptr A) (body : ptr A → X → res (ctl X)) (x : X)
    : ST (gmap A (list_head A)) (ptr A * X) :=
  h ← get;
  pos ← get_next head;
  list_loop get_next body head (loop_fuel h) pos x.

Definition list_for_each_prev {X} (head : ptr A) (body : ptr A → X → res (ctl X)) (x : X)
    : ST (gmap A (list_head A)) (ptr A * X) :=
  h ← get;
  pos ← get_prev head;
  list_loop get_prev body head (loop_fuel h) pos x.
End ops.

(** ** The mathematical view of a heap *)
Section view.
Context {A : Type} `{Countable A}.
Implicit Types (h : gmap A (list_head A)) (a b hd : A) (xs ys l : list A).

Definition nxt h a : option (ptr A) := next <$> h !! a.
Definition prv h a : option (ptr A) := prev <$> h !! a.
Definition mapped h a : Prop := is_Some (h !! a).

(** The effect of an assignment to a mapped node. *)
Definition wn a (v : ptr A) h := alter (λ n, set_next n v) a h.
Definition wp a (v : ptr A) h := alter (λ n, set_prev n v) a h.

(** [seg h a xs b]: following [next] from [a] visits [xs] and then reaches [b],
    and the [prev] pointers run back the same way. *)
Fixpoint seg h a xs b : Prop :=
  match xs with
  | [] => nxt h a = Some (Ptr b) ∧ prv h b = Some (Ptr a)
  | x :: xs => (nxt h a = Some (Ptr x) ∧ prv h x = Some (Ptr a)) ∧ seg h x xs b
  end.

Definition is_list h hd xs : Prop := NoDup (hd :: xs) ∧ seg h hd xs hd.

(** [h'] differs from [h] at most in the pointers of the nodes [ns]. *)
Definition frame h h' (ns : list A) : Prop :=
  (∀ a, mapped h a ↔ mapped h' a) ∧ (∀ a, a ∉ ns → h' !! a = h !! a).

#[global] Instance seg_dec h a xs b : Decision (seg h a xs b).
Proof. revert a. induction xs as [|x xs IH]; intros a; simpl; apply _. Defined.
#[global] Instance is_list_dec h hd xs : Decision (is_list h hd xs).
Proof. unfold is_list. apply _. Defined.
#[global] Instance mapped_dec h a : Decision (mapped h a).
Proof. unfold mapped. apply _. Defined.

(** The heap in which [hd] heads a list of [xs] and nothing else. *)
Definition ring_heap hd xs : gmap A (list_head A) :=
  let ns := hd :: xs in
  list_to_map (zip ns (zip_with (λ n p, ListHead (Ptr n) (Ptr p))
    (xs ++ [hd]) (List.last xs hd :: hd :: xs))).

Lemma nxt_mapped h a p : nxt h a = Some p → mapped h a.
Proof. unfold nxt, mapped. destruct (h !! a); naive_solver. Qed.
Lemma prv_mapped h a p : prv h a = Some p → mapped h a.
Proof. unfold prv, mapped. destruct (h !! a); naive_solver. Qed.

Lemma mapped_wn h a v b : mapped (wn a v h) b ↔ mapped h b.
Proof. unfold mapped, wn. rewrite lookup_alter_is_Some. done. Qed.
Lemma mapped_wp h a v b : mapped (wp a v h) b ↔ mapped h b.
Proof. unfold mapped, wp. rewrite lookup_alter_is_Some. done. Qed.

Lemma nxt_wn_eq h a v : mapped h a → nxt (wn a v h) a = Some v.
Proof. intros [n Hn]. unfold nxt, wn. by rewrite lookup_alter_eq, Hn. Qed.
Lemma nxt_wn_ne h a b v : a ≠ b → nxt (wn a v h) b = nxt h b.
Proof. intros ?. unfold nxt, wn. by rewrite lookup_alter_ne. Qed.
Lemma nxt_wp h a b v : nxt (wp a v h) b = nxt h b.
Proof.
  unfold nxt, wp. rewrite lookup_alter. case_decide; [subst|done].
  by destruct (h !! b).
Qed.
Lemma prv_wp_eq h a v : mapped h a → prv (wp a v h) a = Some v.
Proof. intros [n Hn]. unfold prv, wp. by rewrite lookup_alter_eq, Hn. Qed.
Lemma prv_wp_ne h a b v : a ≠ b → prv (wp a v h) b = prv h b.
Proof. intros ?. unfold prv, wp. by rewrite lookup_alter_ne. Qed.
Lemma prv_wn h a b v : prv (wn a v h) b = prv h b.
Proof.
  unfold prv, wn. rewrite lookup_alter. case_decide; [subst|done].
  by destruct (h !! b).
Qed.

Lemma get_next_ok h a p : nxt h a = Some p → get_next (Ptr a) h = Ok (p, h).
Proof. unfold nxt, get_next. destruct (h !! a); naive_solver. Qed.
Lemma get_prev_ok h a p : prv h a = Some p → get_prev (Ptr a) h = Ok (p, h).
Proof. unfold prv, get_prev. destruct (h !! a); naive_solver. Qed.
Lemma store_next_ok h a v :
  mapped h a → store_next (Ptr a) v h = Ok (tt, wn a v h).
Proof.
  intros [n Hn]. unfold store_next, wn. rewrite Hn. do 2 f_equal.
  apply map_eq. intros b. rewrite lookup_insert, lookup_alter.
  case_decide; subst; by rewrite ?Hn.
Qed.
Lemma store_prev_ok h a v :
  mapped h a → store_prev (Ptr a) v h = Ok (tt, wp a v h).
Proof.
  intros [n Hn]. unfold store_prev, wp. rewrite Hn. do 2 f_equal.
  apply map_eq. intros b. rewrite lookup_insert, lookup_alter.
  case_decide; subst; by rewrite ?Hn.
Qed.

(** *** Segments *)
Lemma seg_app h a xs x ys b :
  seg h a (xs ++ x :: ys) b ↔ seg h a xs x ∧ seg h x ys b.
Proof.
  revert a. induction xs as [|y xs IH]; intros a; simpl; [done|].
  rewrite IH. tauto.
Qed.

Lemma seg_frame h h' a xs b :
  seg h a xs b →
  (∀ y, y ∈ a :: xs → nxt h' y = nxt h y) →
  (∀ y, y ∈ xs ++ [b] → prv h' y = prv h y) →
  seg h' a xs b.
Proof.
  revert a. induction xs as [|x xs IH]; simpl; intros a Hs Hn Hp.
  - rewrite Hn, Hp by set_solver. done.
  - destruct Hs as [[? ?] ?]. rewrite Hn, Hp by set_solver.
    split; [done|]. apply IH; set_solver.
Qed.

Lemma seg_head h a xs b : seg h a xs b → nxt h a = Some (Ptr (List.hd b xs)).
Proof. destruct xs; simpl; tauto. Qed.
Lemma seg_last h a xs b : seg h a xs b → prv h b = Some (Ptr (List.last xs a)).
Proof.
  revert a. induction xs as [|x xs IH]; intros a; [simpl; tauto|].
  rewrite last_cons_default. simpl. intros [_ ?]. by apply IH.
Qed.

Lemma seg_split h a l1 l2 b :
  seg h a (l1 ++ l2) b →
  nxt h (List.last l1 a) = Some (Ptr (List.hd b l2)) ∧
  prv h (List.hd b l2) = Some (Ptr (List.last l1 a)).
Proof.
  destruct l2 as [|x l2]; simpl.
  - rewrite app_nil_r. revert a. induction l1 as [|y l1 IH]; intros a; [done|].
    rewrite last_cons_default. intros [_ ?]. by apply IH.
  - rewrite seg_app. intros [Hs _]. revert a Hs.
    induction l1 as [|y l1 IH]; intros a; [done|].
    rewrite last_cons_default. intros [_ ?]. by apply IH.
Qed.

Lemma seg_mapped h a xs b : seg h a xs b → ∀ y, y ∈ a :: xs ++ [b] → mapped h y.
Proof.
  revert a. induction xs as [|x xs IH]; simpl; intros a Hs y Hy.
  - destruct Hs as [?%nxt_mapped ?%prv_mapped]. set_solver.
  - destruct Hs as [[?%nxt_mapped _] ?]. apply elem_of_cons in Hy as [->|Hy]; [done|].
    by eapply IH.
Qed.

Lemma is_list_mapped h hd xs : is_list h hd xs → ∀ y, y ∈ hd :: xs → mapped h y.
Proof. intros [_ Hs] y Hy. eapply seg_mapped; [done|]. set_solver. Qed.

(** *** Frames *)
Lemma frame_refl h ns : frame h h ns.
Proof. done. Qed.
Lemma frame_trans h1 h2 h3 ns : frame h1 h2 ns → frame h2 h3 ns → frame h1 h3 ns.
Proof.
  intros [M1 E1] [M2 E2]. split; [intros; by rewrite M1|].
  intros a ?. by rewrite E2, E1.
Qed.
Lemma frame_weaken h h' ns ns' :
  frame h h' ns → (∀ a, a ∈ ns → a ∈ ns') → frame h h' ns'.
Proof. intros [? E] ?. split; [done|]. intros a ?. apply E. naive_solver. Qed.
Lemma frame_wn h a v ns : a ∈ ns → frame h (wn a v h) ns.
Proof.
  intros ?. split; [intros; by rewrite mapped_wn|]. intros b ?.
  unfold wn. apply lookup_alter_ne. naive_solver.
Qed.
Lemma frame_wp h a v ns : a ∈ ns → frame h (wp a v h) ns.
Proof.
  intros ?. split; [intros; by rewrite mapped_wp|]. intros b ?.
  unfold wp. apply lookup_alter_ne. naive_solver.
Qed.
Lemma frame_mapped h h' ns a : frame h h' ns → mapped h a → mapped h' a.
Proof. intros [M _]. by rewrite M. Qed.

(** A list none of whose nodes is touched is unchanged. *)
Lemma frame_is_list h h' ns hd xs :
  frame h h' ns → is_list h hd xs → (∀ y, y ∈ hd :: xs → y ∉ ns) → is_list h' hd xs.
Proof.
  intros [_ E] [Hnd Hs] Hd. split; [done|].
  eapply seg_frame; [done| |]; intros y Hy; unfold nxt, prv; rewrite E; set_solver.
Qed.

(** The list of a head determines its nodes. *)
Lemma seg_inj h a xs ys b :
  seg h a xs b → seg h a ys b → b ∉ xs → b ∉ ys → xs = ys.
Proof.
  revert a ys. induction xs as [|x xs IH]; intros a [|y ys]; simpl; [done|..].
  - intros [E _] [[E' _] _]. rewrite E in E'. simplify_eq. set_solver.
  - intros [[E _] _] [E' _]. rewrite E in E'. simplify_eq. set_solver.
  - intros [[E _] S1] [[E' _] S2] N1 N2. rewrite E in E'. simplify_eq.
    f_equal. eapply IH; set_solver.
Qed.
Lemma is_list_inj h hd xs ys : is_list h hd xs → is_list h hd ys → xs = ys.
Proof.
  intros [N1 S1] [N2 S2]. apply NoDup_cons in N1 as [? _], N2 as [? _].
  by eapply seg_inj.
Qed.

Lemma is_list_length h hd xs : is_list h hd xs → (length xs < size h)%nat.
Proof.
  intros Hl. rewrite <-(size_dom h (D := gset A)).
  assert (length (hd :: xs) = size (list_to_set (hd :: xs) : gset A)) as E.
  { symmetry. apply size_list_to_set. by destruct Hl. }
  simpl in E. assert (size ({[hd]} ∪ list_to_set xs : gset A) ≤ size (dom h : gset A))%nat; [|lia].
  apply subseteq_size. intros y Hy. apply elem_of_dom.
  eapply is_list_mapped; [done|]. set_solver.
Qed.
End view.

Create HintDb klist.
#[export] Hint Resolve frame_refl frame_wn frame_wp : klist.
#[export] Hint Resolve nxt_mapped prv_mapped frame_mapped : klist.
Create Rewrite HintDb klist_rw.
#[export] Hint Rewrite @nxt_wp @prv_wn : klist_rw.

(** Evaluate pointer reads of a heap built by assignments; the disequalities
    of the nodes involved are in the context. *)
Ltac lmapped :=
  repeat first [rewrite mapped_wn | rewrite mapped_wp];
  assumption.
Ltac lread :=
  repeat first
    [ rewrite nxt_wp | rewrite prv_wn
    | rewrite nxt_wn_ne by first [assumption | by apply not_eq_sym | congruence]
    | rewrite prv_wp_ne by first [assumption | by apply not_eq_sym | congruence]
    | rewrite nxt_wn_eq by lmapped
    | rewrite prv_wp_eq by lmapped ].
(** Run the pointer stores at the head of a computation. *)
Ltac lrun :=
  repeat first
    [ erewrite st_bind_ok;
      [| solve [ apply get_next_ok; lread; eauto
               | apply get_prev_ok; lread; eauto
               | apply store_next_ok; lmapped
               | apply store_prev_ok; lmapped ]]
    | rewrite store_next_ok by lmapped
    | rewrite store_prev_ok by lmapped ].
Ltac lframe :=
  repeat first [ apply frame_refl
               | eapply frame_trans; [|apply frame_wn; lelem]
               | eapply frame_trans; [|apply frame_wp; lelem] ].

(** ** The operations act on lists as sequence operations *)
Section specs.
Context {A : Type} `{Countable A}.
Implicit Types (h : gmap A (list_head A)) (a b hd e : A) (xs ys l : list A).

(** Relinking [a .. p -> n .. b]: the segments on both sides of the edit keep
    their pointers. *)
Lemma seg_left h h' a l1 l2 b e :
  seg h a (l1 ++ l2) b → NoDup (a :: l1 ++ l2) →
  (∀ y, y ≠ List.last l1 a → y ∈ a :: l1 → nxt h' y = nxt h y) →
  (∀ y, y ∈ l1 → prv h' y = prv h y) →
  nxt h' (List.last l1 a) = Some (Ptr e) → prv h' e = Some (Ptr (List.last l1 a)) →
  seg h' a l1 e.
Proof.
  revert a. induction l1 as [|x l1 IH]; intros a Hs Hnd Hn Hp E1 E2; [done|].
  rewrite last_cons_default in E1, E2. setoid_rewrite last_cons_default in Hn.
  destruct Hs as [[Hnx Hpx] Hs]. apply NoDup_cons in Hnd as [Hna Hnd].
  pose proof (last_default_elem x l1) as Hin.
  assert (a ≠ List.last l1 x) by (intros E; rewrite <-E in Hin; apply Hna;
    apply (elem_of_app (x :: l1) l2); by left).
  split; [split; [rewrite Hn|rewrite Hp]; by try left|].
  eapply IH; try done.
  - intros y ? Hy. apply Hn; [done|by right].
  - intros y Hy. apply Hp. by right.
Qed.

Lemma seg_right h h' a l1 l2 b e :
  seg h a (l1 ++ l2) b → NoDup (l1 ++ l2) → b ∉ l2 →
  (∀ y, y ∈ l2 → nxt h' y = nxt h y) →
  (∀ y, y ≠ List.hd b l2 → y ∈ l2 ++ [b] → prv h' y = prv h y) →
  nxt h' e = Some (Ptr (List.hd b l2)) → prv h' (List.hd b l2) = Some (Ptr e) →
  seg h' e l2 b.
Proof.
  intros Hs Hnd Hb Hn Hp E1 E2. destruct l2 as [|x l2]; simpl in *; [done|].
  split; [done|]. apply seg_app in Hs as [_ Hs]. apply NoDup_app in Hnd as (_ & _ & Hnd).
  apply NoDup_cons in Hnd as [Hx _].
  eapply seg_frame; [done|done|]. intros y Hy. apply Hp; [|by right].
  intros ->. apply elem_of_app in Hy as [?|?%list_elem_of_singleton]; [done|].
  subst. apply Hb. by left.
Qed.

Lemma seg_insert h a l1 l2 b e :
  let p := List.last l1 a in let n := List.hd b l2 in
  seg h a (l1 ++ l2) b → NoDup (a :: l1 ++ l2) → b ∉ l1 ++ l2 →
  e ∉ a :: b :: l1 ++ l2 → mapped h e →
  seg (wn p (Ptr e) (wp e (Ptr p) (wn e (Ptr n) (wp n (Ptr e) h)))) a (l1 ++ e :: l2) b.
Proof.
  intros p n Hs Hnd Hb He Hm.
  pose proof (seg_split _ _ _ _ _ Hs) as [Hp%nxt_mapped Hn%prv_mapped].
  fold p in Hp. fold n in Hn.
  apply NoDup_cons in Hnd as [Ha Hnd].
  pose proof (proj1 (NoDup_app _ _) Hnd) as (_ & Hd & _).
  rewrite !not_elem_of_cons, not_elem_of_app in He. destruct He as (He1 & He2 & He3 & He4).
  rewrite not_elem_of_app in Ha, Hb. destruct Ha as [Ha1 Ha2], Hb as [Hb1 Hb2].
  assert (p ≠ e) by (apply last_default_ne; [congruence|done]).
  assert (n ≠ e) by (apply hd_default_ne; [congruence|done]).
  apply seg_app. split.
  - eapply seg_left; [done|apply NoDup_cons; set_solver|..]; fold p; [| |by lread..].
    + intros y Hy Hin. assert (e ≠ y) by set_solver. by lread.
    + intros y Hin. assert (e ≠ y) by by apply (ne_of_elem _ _ l1).
      assert (n ≠ y) by (apply hd_default_ne; [by apply (ne_of_elem _ _ l1)|by apply Hd]).
      by lread.
  - eapply seg_right; [done|done|done|..]; fold n; [| |by lread..].
    + intros y Hin. assert (e ≠ y) by by apply (ne_of_elem _ _ l2).
      assert (p ≠ y); [|by lread].
      apply last_default_ne; [by apply (ne_of_elem _ _ l2)|]. intros Hin'. by apply (Hd y).
    + intros y Hy Hin. assert (e ≠ y) by set_solver. by lread.
Qed.

Lemma seg_remove h a l1 l2 b e :
  let p := List.last l1 a in let n := List.hd b l2 in
  seg h a (l1 ++ e :: l2) b → NoDup (a :: l1 ++ e :: l2) → b ∉ l1 ++ e :: l2 →
  seg (wn p (Ptr n) (wp n (Ptr p) h)) a (l1 ++ l2) b.
Proof.
  intros p n Hs Hnd Hb.
  pose proof (seg_split _ _ _ _ _ Hs) as [Hp%nxt_mapped _]. fold p in Hp.
  assert (mapped h n) as Hn.
  { eapply seg_mapped; [done|]. pose proof (hd_default_elem b l2). fold n in H0. set_solver. }
  apply NoDup_cons in Hnd as [Ha Hnd].
  pose proof (proj1 (NoDup_middle _ _ _) Hnd) as [He Hnd'].
  apply NoDup_app in Hnd' as (Hnd1 & Hd & Hnd2).
  rewrite not_elem_of_app, not_elem_of_cons in Ha, Hb.
  destruct Ha as (Ha1 & Ha2 & Ha3), Hb as (Hb1 & Hb2 & Hb3).
  set (h' := wn p (Ptr n) (wp n (Ptr p) h)).
  assert (seg h' a l1 n) as Hleft.
  { eapply seg_left; [done|apply NoDup_cons; set_solver|..]; fold p; subst h'; [| |by lread..].
    - intros y Hy Hin. by lread.
    - intros y Hin. assert (n ≠ y); [|by lread].
      apply hd_default_ne; [by apply (ne_of_elem _ _ l1)|by apply Hd]. }
  destruct l2 as [|x l2].
  { by rewrite app_nil_r. }
  apply seg_app. split; [done|].
  rewrite cons_middle, app_assoc in Hs.
  apply seg_app in Hs as [_ Hs]. eapply seg_frame; [done|..]; subst h'.
  - intros y Hin. assert (p ≠ y); [|by lread].
    apply last_default_ne; [by apply (ne_of_elem _ _ (x :: l2))|].
    intros Hin'. by apply (Hd y).
  - intros y Hin. assert (n ≠ y); [|by lread].
    apply NoDup_cons in Hnd2 as [? _]. subst n. simpl. clear -H0 Hin Hb3. set_solver.
Qed.
(** A computation on the heap that succeeds, changes only the nodes [ns], and
    establishes [Q]. *)
Definition updates (m : ST (gmap A (list_head A)) unit) h (ns : list A)
    (Q : gmap A (list_head A) → Prop) : Prop :=
  ∃ h', m h = Ok (tt, h') ∧ Q h' ∧ frame h h' ns.

Lemma is_list_head_notin h hd xs : is_list h hd xs → hd ∉ xs.
Proof. intros [?%NoDup_cons _]. tauto. Qed.

Lemma is_list_split h hd l1 l2 :
  is_list h hd (l1 ++ l2) →
  nxt h (List.last l1 hd) = Some (Ptr (List.hd hd l2)) ∧
  prv h (List.hd hd l2) = Some (Ptr (List.last l1 hd)).
Proof. intros [_ ?]. by apply seg_split. Qed.

Lemma is_list_at h hd l1 e l2 :
  is_list h hd (l1 ++ e :: l2) →
  prv h e = Some (Ptr (List.last l1 hd)) ∧ nxt h e = Some (Ptr (List.hd hd l2)).
Proof.
  intros Hl. split; [apply (is_list_split _ _ _ _ Hl)|].
  rewrite cons_middle, app_assoc in Hl.
  apply is_list_split in Hl as [E _]. by rewrite last_last in E.
Qed.

Lemma __list_add_ok h e p n :
  mapped h e → mapped h p → mapped h n →
  __list_add (Ptr e) (Ptr p) (Ptr n) h =
    Ok (tt, wn p (Ptr e) (wp e (Ptr p) (wn e (Ptr n) (wp n (Ptr e) h)))).
Proof. intros. unfold __list_add. by lrun. Qed.

Lemma __list_del_ok h p n :
  mapped h p → mapped h n →
  __list_del (Ptr p) (Ptr n) h = Ok (tt, wn p (Ptr n) (wp n (Ptr p) h)).
Proof. intros. unfold __list_del. by lrun. Qed.

Lemma __list_add_spec h hd l1 l2 e :
  is_list h hd (l1 ++ l2) → e ∉ hd :: l1 ++ l2 → mapped h e →
  updates (__list_add (Ptr e) (Ptr (List.last l1 hd)) (Ptr (List.hd hd l2))) h
    (e :: hd :: l1 ++ l2) (λ h', is_list h' hd (l1 ++ e :: l2)).
Proof.
  intros Hl He Hm. pose proof (is_list_split _ _ _ _ Hl) as [Hp%nxt_mapped Hn%prv_mapped].
  eexists. split; [by apply __list_add_ok|]. pose proof Hl as [Hnd Hs]. split; [split|].
  - rewrite NoDup_cons, NoDup_middle. apply NoDup_cons in Hnd. set_solver.
  - apply seg_insert; try done; [by eapply is_list_head_notin|set_solver].
  - pose proof (last_default_elem hd l1). pose proof (hd_default_elem hd l2).
    lframe.
Qed.

(** [list_add] after the entry at a position, [list_add_tail] before it. *)
Lemma list_add_spec h hd l1 l2 e :
  is_list h hd (l1 ++ l2) → e ∉ hd :: l1 ++ l2 → mapped h e →
  updates (list_add (Ptr e) (Ptr (List.last l1 hd))) h
    (e :: hd :: l1 ++ l2) (λ h', is_list h' hd (l1 ++ e :: l2)).
Proof.
  intros Hl He Hm. destruct (__list_add_spec h hd l1 l2 e) as (h' & E & ?); try done.
  exists h'. split; [|done]. unfold list_add.
  pose proof (is_list_split _ _ _ _ Hl) as [Hn _]. by lrun.
Qed.

Lemma list_add_tail_spec h hd l1 l2 e :
  is_list h hd (l1 ++ l2) → e ∉ hd :: l1 ++ l2 → mapped h e →
  updates (list_add_tail (Ptr e) (Ptr (List.hd hd l2))) h
    (e :: hd :: l1 ++ l2) (λ h', is_list h' hd (l1 ++ e :: l2)).
Proof.
  intros Hl He Hm. destruct (__list_add_spec h hd l1 l2 e) as (h' & E & ?); try done.
  exists h'. split; [|done]. unfold list_add_tail.
  pose proof (is_list_split _ _ _ _ Hl) as [_ Hp]. by lrun.
Qed.

Lemma __list_del_spec h hd l1 e l2 :
  is_list h hd (l1 ++ e :: l2) →
  updates (__list_del (Ptr (List.last l1 hd)) (Ptr (List.hd hd l2))) h
    (hd :: l1 ++ l2) (λ h', is_list h' hd (l1 ++ l2)).
Proof.
  intros Hl. pose proof (last_default_elem hd l1). pose proof (hd_default_elem hd l2).
  eexists. split; [apply __list_del_ok; eapply is_list_mapped; set_solver|].
  pose proof Hl as [Hnd Hs]. split; [split|].
  - rewrite NoDup_cons, NoDup_middle in Hnd. apply NoDup_cons. set_solver.
  - eapply seg_remove; try done. by eapply is_list_head_notin.
  - lframe.
Qed.

Lemma INIT_LIST_HEAD_spec h e :
  mapped h e → updates (INIT_LIST_HEAD (Ptr e)) h [e] (λ h', is_list h' e []).
Proof.
  intros. eexists. split; [unfold INIT_LIST_HEAD; lrun; done|].
  split; [split; [apply NoDup_singleton|split; by lread]|lframe].
Qed.

Lemma updates_seq h m1 m2 ns1 ns2 ns (Q1 Q2 : gmap A (list_head A) → Prop) :
  updates m1 h ns1 Q1 →
  (∀ h', frame h h' ns1 → Q1 h' → updates m2 h' ns2 Q2) →
  (∀ a, a ∈ ns1 → a ∈ ns) → (∀ a, a ∈ ns2 → a ∈ ns) →
  updates (m1;; m2) h ns Q2.
Proof.
  intros (h1 & E1 & HQ1 & F1) H2 N1 N2. destruct (H2 h1 F1 HQ1) as (h2 & E2 & HQ2 & F2).
  exists h2. split; [by rewrite (st_bind_ok _ _ _ _ _ E1)|]. split; [done|].
  eapply frame_trans; eapply frame_weaken; eauto.
Qed.

(** A node linked to itself stays so. *)
Lemma list_del_init_self h e :
  is_list h e [] → updates (list_del_init (Ptr e)) h [e] (λ h', is_list h' e []).
Proof.
  intros Hl. assert (mapped h e) as Hm by (apply (is_list_mapped _ _ _ Hl); by left).
  destruct Hl as [_ [Hn Hp]]. eexists.
  split; [unfold list_del_init, __list_del, INIT_LIST_HEAD; lrun; rewrite <-!st_bind_assoc; lrun; done|].
  split; [split; [apply NoDup_singleton|split; by lread]|lframe].
Qed.

(** [list_del_init] unlinks the entry and leaves it an empty list of its own. *)
Lemma list_del_init_spec h hd l1 e l2 :
  is_list h hd (l1 ++ e :: l2) →
  updates (list_del_init (Ptr e)) h (hd :: l1 ++ e :: l2)
    (λ h', is_list h' hd (l1 ++ l2) ∧ is_list h' e []).
Proof.
  intros Hl. pose proof (is_list_at _ _ _ _ _ Hl) as [Hp Hn].
  assert (mapped h e) as Hm by eauto with klist.
  assert (e ∉ hd :: l1 ++ l2).
  { destruct Hl as [Hnd _]. rewrite NoDup_cons, NoDup_middle in Hnd. set_solver. }
  destruct (updates_seq h (__list_del (Ptr (List.last l1 hd)) (Ptr (List.hd hd l2)))
    (INIT_LIST_HEAD (Ptr e)) (hd :: l1 ++ l2) [e] (hd :: l1 ++ e :: l2)
    (λ h', is_list h' hd (l1 ++ l2))
    (λ h', is_list h' hd (l1 ++ l2) ∧ is_list h' e [])) as (h' & E & ?);
    [by eapply __list_del_spec| |set_solver..|].
  - intros h1 F1 H1. destruct (INIT_LIST_HEAD_spec h1 e) as (h2 & E2 & Q2 & F2).
    { eauto with klist. }
    exists h2. split_and!; try done. eapply frame_is_list; [done..|]. set_solver.
  - exists h'. split; [|done]. unfold list_del_init. by lrun.
Qed.

(** [list_del] unlinks the entry and poisons it. *)
Lemma list_del_spec h hd l1 e l2 :
  is_list h hd (l1 ++ e :: l2) →
  updates (list_del (Ptr e)) h (hd :: l1 ++ e :: l2)
    (λ h', is_list h' hd (l1 ++ l2) ∧
           nxt h' e = Some LIST_POISON1 ∧ prv h' e = Some LIST_POISON2).
Proof.
  intros Hl. pose proof (is_list_at _ _ _ _ _ Hl) as [Hp Hn].
  assert (e ∉ hd :: l1 ++ l2).
  { destruct Hl as [Hnd _]. rewrite NoDup_cons, NoDup_middle in Hnd. set_solver. }
  destruct (__list_del_spec _ _ _ _ _ Hl) as (h1 & E1 & H1 & F1).
  assert (mapped h1 e) by eauto with klist.
  eexists. split; [|split; [split_and!|]].
  - unfold list_del. lrun. rewrite (st_bind_ok _ _ _ _ _ E1). lrun. reflexivity.
  - eapply (frame_is_list h1 _ [e]); [lframe|done|set_solver].
  - by lread.
  - by lread.
  - eapply frame_trans; [eapply frame_weaken; [done|set_solver]|lframe].
Qed.

(** [list_move] within one list: unlink, then relink after another entry. *)
Lemma list_move_spec h hd l1 e l2 k1 k2 :
  is_list h hd (l1 ++ e :: l2) → l1 ++ l2 = k1 ++ k2 →
  updates (list_move (Ptr e) (Ptr (List.last k1 hd))) h (hd :: l1 ++ e :: l2)
    (λ h', is_list h' hd (k1 ++ e :: k2)).
Proof.
  intros Hl Hk. pose proof (is_list_at _ _ _ _ _ Hl) as [Hp Hn].
  assert (e ∉ hd :: l1 ++ l2).
  { destruct Hl as [Hnd _]. rewrite NoDup_cons, NoDup_middle in Hnd. set_solver. }
  destruct (updates_seq h (__list_del (Ptr (List.last l1 hd)) (Ptr (List.hd hd l2)))
    (list_add (Ptr e) (Ptr (List.last k1 hd))) (hd :: l1 ++ l2) (e :: hd :: l1 ++ l2)
    (hd :: l1 ++ e :: l2) (λ h', is_list h' hd (l1 ++ l2))
    (λ h', is_list h' hd (k1 ++ e :: k2))) as (h' & E & ?);
    [by eapply __list_del_spec| |set_solver..|].
  - intros h1 F1 H1. rewrite Hk in *. apply list_add_spec; eauto with klist.
  - exists h'. split; [|done]. unfold list_move. by lrun.
Qed.

Lemma list_move_tail_spec h hd l1 e l2 k1 k2 :
  is_list h hd (l1 ++ e :: l2) → l1 ++ l2 = k1 ++ k2 →
  updates (list_move_tail (Ptr e) (Ptr (List.hd hd k2))) h (hd :: l1 ++ e :: l2)
    (λ h', is_list h' hd (k1 ++ e :: k2)).
Proof.
  intros Hl Hk. pose proof (is_list_at _ _ _ _ _ Hl) as [Hp Hn].
  assert (e ∉ hd :: l1 ++ l2).
  { destruct Hl as [Hnd _]. rewrite NoDup_cons, NoDup_middle in Hnd. set_solver. }
  destruct (updates_seq h (__list_del (Ptr (List.last l1 hd)) (Ptr (List.hd hd l2)))
    (list_add_tail (Ptr e) (Ptr (List.hd hd k2))) (hd :: l1 ++ l2) (e :: hd :: l1 ++ l2)
    (hd :: l1 ++ e :: l2) (λ h', is_list h' hd (l1 ++ l2))
    (λ h', is_list h' hd (k1 ++ e :: k2))) as (h' & E & ?);
    [by eapply __list_del_spec| |set_solver..|].
  - intros h1 F1 H1. rewrite Hk in *. apply list_add_tail_spec; eauto with klist.
  - exists h'. split; [|done]. unfold list_move_tail. by lrun.
Qed.

Lemma list_empty_spec h hd xs :
  is_list h hd xs → list_empty (Ptr hd) h = Ok (bool_decide (xs = []), h).
Proof.
  intros Hl. pose proof (is_list_head_notin _ _ _ Hl) as Hnin.
  destruct Hl as [_ Hs%seg_head]. unfold list_empty. lrun.
  unfold mret, st_ret. do 2 f_equal. apply bool_decide_ext.
  destruct xs as [|x xs]; simpl; [done|]. split; [|done].
  intros [= ->]. destruct Hnin. by left.
Qed.

Lemma list_is_last_spec h hd l1 e l2 :
  is_list h hd (l1 ++ e :: l2) →
  list_is_last (Ptr e) (Ptr hd) h = Ok (bool_decide (l2 = []), h).
Proof.
  intros Hl. pose proof (is_list_head_notin _ _ _ Hl) as Hnin.
  apply is_list_at in Hl as [_ Hn]. unfold list_is_last. lrun.
  unfold mret, st_ret. do 2 f_equal. apply bool_decide_ext.
  destruct l2 as [|x l2]; simpl; [done|]. split; [|done].
  intros [= ->]. set_solver.
Qed.

(** The list rotates to the left by one entry. *)
Lemma list_rotate_left_spec h hd x xs :
  is_list h hd (x :: xs) →
  updates (list_rotate_left (Ptr hd)) h (hd :: x :: xs)
    (λ h', is_list h' hd (xs ++ [x])).
Proof.
  intros Hl.
  destruct (list_move_tail_spec h hd [] x xs xs []) as (h' & E & ?);
    [done|by rewrite app_nil_r|].
  exists h'. split; [|done]. unfold list_rotate_left.
  rewrite (st_bind_ok _ _ _ _ _ (list_empty_spec _ _ _ Hl)). simpl.
  pose proof (is_list_split h hd [] (x :: xs) Hl) as [Hn _]. simpl in Hn. by lrun.
Qed.

(** The inner links of a list, between two of its entries. *)
Lemma is_list_inner h h' hd x xs :
  is_list h hd (x :: xs) →
  (∀ y, y ∈ x :: xs → y ≠ List.last xs x → nxt h' y = nxt h y) →
  (∀ y, y ∈ xs → prv h' y = prv h y) →
  xs = [] ∧ List.last xs x = x ∨
  ∃ ys z, xs = ys ++ [z] ∧ List.last xs x = z ∧ seg h' x ys z.
Proof.
  intros [Hnd [_ Hs]] Hn Hp. destruct xs as [|z ys _] using rev_ind; [by left|right].
  rewrite last_last in *. exists ys, z. split_and!; [done..|].
  apply seg_app in Hs as [Hs _]. eapply seg_frame; [done| |done].
  intros y Hy. apply Hn; [set_solver|]. intros ->.
  rewrite NoDup_cons in Hnd. destruct Hnd as [_ Hnd].
  rewrite app_comm_cons in Hnd. apply NoDup_app in Hnd as (_ & Hd & _).
  by apply (Hd z Hy), list_elem_of_singleton.
Qed.

Lemma __list_splice_spec h L H0 x xs l1 l2 :
  is_list h L (x :: xs) → is_list h H0 (l1 ++ l2) →
  (∀ y, y ∈ L :: x :: xs → y ∉ H0 :: l1 ++ l2) →
  updates (__list_splice (Ptr L) (Ptr (List.last l1 H0)) (Ptr (List.hd H0 l2))) h
    ((x :: xs) ++ H0 :: l1 ++ l2) (λ h', is_list h' H0 (l1 ++ (x :: xs) ++ l2)).
Proof.
  intros HL HH Hdisj.
  pose proof (last_default_elem x xs) as Hzin. pose proof (last_default_elem H0 l1) as Hpin.
  pose proof (hd_default_elem H0 l2) as Hnin.
  assert (mapped h x) by (eapply (is_list_mapped h L); [done|]; right; by left).
  assert (mapped h (List.last xs x)) by (eapply (is_list_mapped h L); [done|]; by right).
  pose proof (is_list_split _ _ _ _ HH) as [Hp%nxt_mapped Hn%prv_mapped].
  pose proof (is_list_split h L [] (x :: xs) HL) as [Hf _].
  pose proof (is_list_split h L (x :: xs) []) as Hlast. rewrite app_nil_r in Hlast.
  destruct (Hlast HL) as [_ Hla]. rewrite last_cons_default in Hla. simpl in Hf, Hla.
  set (p := List.last l1 H0) in *. set (n := List.hd H0 l2) in *. set (z := List.last xs x) in *.
  assert (∀ y w, y ∈ H0 :: l1 ++ l2 → w ∈ x :: xs → y ≠ w) as Hne.
  { intros y w Hy Hw ->. apply (Hdisj w); [by right|done]. }
  assert (p ∈ H0 :: l1 ++ l2) as Hpin' by lelem.
  assert (n ∈ H0 :: l1 ++ l2) as Hnin' by lelem.
  assert (p ≠ z) by by apply Hne.
  assert (n ≠ x) by (apply Hne; [done|by left]).
  eexists. split; [unfold __list_splice; lrun; reflexivity|].
  pose proof HL as [NL SL]. pose proof HH as [NH SH].
  split; [split|lframe].
  { change (H0 :: l1 ++ (x :: xs) ++ l2) with ((H0 :: l1) ++ (x :: xs) ++ l2).
    rewrite (app_assoc (H0 :: l1)), (Permutation_app_comm (H0 :: l1)), <-app_assoc.
    apply NoDup_cons in NL as [_ NL].
    apply NoDup_app. split_and!; [done| |].
    - intros y Hy Hy'. apply (Hne y y); [lelem|done|done].
    - done. }
  set (h' := wp _ _ _).
  assert (∀ y, y ∈ H0 :: l1 ++ l2 → p ≠ y → nxt h' y = nxt h y) as HN.
  { intros y Hy ?. assert (z ≠ y) by by apply not_eq_sym, Hne.
    subst h'. by lread. }
  assert (∀ y, y ∈ H0 :: l1 ++ l2 → n ≠ y → prv h' y = prv h y) as HP.
  { intros y Hy ?. assert (x ≠ y) by (apply not_eq_sym, Hne; [done|by left]).
    subst h'. by lread. }
  assert (seg h' z l2 H0) as Sr.
  { pose proof NH as [Hh0 Hnd12]%NoDup_cons.
    assert (∀ y, y ∈ l2 → p ≠ y) as Hpl2.
    { intros y Hy. apply last_default_ne; [intros ->; lelem|]. intros Hy'.
      apply NoDup_app in Hnd12 as (_ & Hd & _). by apply (Hd y). }
    eapply seg_right; [done|done|lelem|..]; fold n.
    - intros y Hy. apply HN; [lelem|by apply Hpl2].
    - intros y ? Hy. apply HP; [lelem|done].
    - subst h'. by lread.
    - subst h'. by lread. }
  simpl. apply seg_app. split.
  { eapply seg_left; [done|done|..]; fold p.
    - intros y ? Hy. apply HN; [lelem|done].
    - intros y Hy. apply HP; [lelem|].
      apply NoDup_cons in NH as [NH0 NH]. apply hd_default_ne; [intros ->; lelem|].
      apply NoDup_app in NH as (_ & Hd & _). by apply Hd.
    - subst h'. by lread.
    - subst h'. by lread. }
  destruct (is_list_inner h h' L x xs HL) as [[-> _]|(ys & w & -> & Ew & Sw)]; fold z.
  - intros y Hy ?. assert (p ≠ y) by by apply Hne.
    subst h'. by lread.
  - intros y Hy. assert (n ≠ y) by (apply Hne; [done|by right]).
    assert (x ≠ y) by (rewrite !NoDup_cons in NL; intros ->; tauto). subst h'. by lread.
  - done.
  - rewrite <-app_assoc. apply seg_app. split; [done|].
    assert (z = w) as Ez by exact Ew. by rewrite Ez in Sr.
Qed.

(** All four splices: the non-empty list [L] is spliced in after the head of
    the list [H0] or before it, and [L] itself becomes empty in the [_init]
    variants; an empty [L] changes nothing. *)
Lemma list_splice_spec h L H0 x xs ys :
  is_list h L (x :: xs) → is_list h H0 ys → (∀ y, y ∈ L :: x :: xs → y ∉ H0 :: ys) →
  updates (list_splice (Ptr L) (Ptr H0)) h ((x :: xs) ++ H0 :: ys)
    (λ h', is_list h' H0 ((x :: xs) ++ ys)).
Proof.
  intros HL HH Hd. destruct (__list_splice_spec h L H0 x xs [] ys) as (h' & E & ?); try done.
  exists h'. split; [|done]. unfold list_splice.
  st_step (list_empty_spec _ _ _ HL). simpl.
  pose proof (is_list_split h H0 [] ys HH) as [Hn _]. simpl in Hn. by lrun.
Qed.

Lemma list_splice_tail_spec h L H0 x xs ys :
  is_list h L (x :: xs) → is_list h H0 ys → (∀ y, y ∈ L :: x :: xs → y ∉ H0 :: ys) →
  updates (list_splice_tail (Ptr L) (Ptr H0)) h ((x :: xs) ++ H0 :: ys)
    (λ h', is_list h' H0 (ys ++ x :: xs)).
Proof.
  intros HL HH Hd. pose proof (is_list_split h H0 ys []) as Hs.
  destruct (__list_splice_spec h L H0 x xs ys []) as (h' & E & ?);
    rewrite ?app_nil_r in *; try done.
  exists h'. split; [|done]. unfold list_splice_tail.
  st_step (list_empty_spec _ _ _ HL). simpl.
  destruct (Hs HH) as [_ Hp]. simpl in Hp. by lrun.
Qed.

Lemma list_splice_tail_init_spec h L H0 x xs ys :
  is_list h L (x :: xs) → is_list h H0 ys → (∀ y, y ∈ L :: x :: xs → y ∉ H0 :: ys) →
  updates (list_splice_tail_init (Ptr L) (Ptr H0)) h (L :: (x :: xs) ++ H0 :: ys)
    (λ h', is_list h' H0 (ys ++ x :: xs) ∧ is_list h' L []).
Proof.
  intros HL HH Hd. pose proof (is_list_split h H0 ys []) as Hs.
  destruct (__list_splice_spec h L H0 x xs ys []) as (h1 & E & Q1 & F1);
    rewrite ?app_nil_r in *; try done.
  destruct (INIT_LIST_HEAD_spec h1 L) as (h2 & E2 & Q2 & F2).
  { eapply frame_mapped; [done|]. apply (is_list_mapped _ _ _ HL). by left. }
  exists h2. split_and!; [|..|done|].
  - unfold list_splice_tail_init. st_step (list_empty_spec _ _ _ HL). simpl.
    destruct (Hs HH) as [_ Hp]. simpl in Hp. lrun. by st_step E.
  - eapply frame_is_list; [done..|]. intros y Hy ->%list_elem_of_singleton.
    apply (Hd L); [by left|]. apply is_list_head_notin in HL. lelem.
  - eapply frame_trans; eapply frame_weaken; try done; lelem.
Qed.

Lemma list_splice_init_spec h L H0 x xs ys :
  is_list h L (x :: xs) → is_list h H0 ys → (∀ y, y ∈ L :: x :: xs → y ∉ H0 :: ys) →
  updates (list_splice_init (Ptr L) (Ptr H0)) h (L :: (x :: xs) ++ H0 :: ys)
    (λ h', is_list h' H0 ((x :: xs) ++ ys) ∧ is_list h' L []).
Proof.
  intros HL HH Hd.
  destruct (__list_splice_spec h L H0 x xs [] ys) as (h1 & E & Q1 & F1); try done.
  destruct (INIT_LIST_HEAD_spec h1 L) as (h2 & E2 & Q2 & F2).
  { eapply frame_mapped; [done|]. apply (is_list_mapped _ _ _ HL). by left. }
  pose proof (is_list_split h H0 [] ys HH) as [Hn _]. simpl in Hn.
  exists h2. split_and!; [|..|done|].
  - unfold list_splice_init. st_step (list_empty_spec _ _ _ HL). simpl.
    lrun. by st_step E.
  - eapply frame_is_list; [done..|]. intros y Hy ->%list_elem_of_singleton.
    apply (Hd L); [by left|]. apply is_list_head_notin in HL. simpl in Hy. lelem.
  - eapply frame_trans; eapply frame_weaken; try done; simpl; lelem.
Qed.

(** [list_replace] puts [e'] in the place of [e]. *)
Lemma list_replace_spec h hd l1 e l2 e' :
  is_list h hd (l1 ++ e :: l2) → e' ∉ hd :: l1 ++ e :: l2 → mapped h e' →
  updates (list_replace (Ptr e) (Ptr e')) h (e' :: hd :: l1 ++ l2)
    (λ h', is_list h' hd (l1 ++ e' :: l2)).
Proof.
  intros Hl He' Hm. pose proof (is_list_at _ _ _ _ _ Hl) as [Hp Hn].
  pose proof (last_default_elem hd l1) as Hpin. pose proof (hd_default_elem hd l2) as Hnin.
  pose proof Hl as [Hnd Hs].
  set (p := List.last l1 hd) in *. set (n := List.hd hd l2) in *.
  assert (mapped h p) by (apply (is_list_mapped _ _ _ Hl); lelem).
  assert (mapped h n) by (apply (is_list_mapped _ _ _ Hl); lelem).
  assert (e' ≠ p ∧ e' ≠ n ∧ e' ≠ e) as (? & ? & ?).
  { split_and!; apply (ne_of_elem _ _ _ He'); lelem. }
  apply NoDup_cons in Hnd as [Hhd Hnd].
  pose proof (proj1 (NoDup_middle _ _ _) Hnd) as [He Hnd'].
  assert (n ≠ e) by (apply hd_default_ne; [intros ->|]; lelem).
  assert (prv (wp n (Ptr e') (wn e' (Ptr n) h)) e = Some (Ptr p)) by by lread.
  eexists. split; [unfold list_replace; lrun; reflexivity|].
  split; [split|lframe].
  { apply NoDup_cons. split; [lelem|]. apply NoDup_middle. split; [lelem|done]. }
  pose proof (proj1 (NoDup_app _ _) Hnd') as (_ & Hd & _).
  set (h' := wn p _ _).
  assert (∀ y, y ∈ hd :: l1 ++ e :: l2 → p ≠ y → nxt h' y = nxt h y) as HN.
  { intros y Hy ?. assert (e' ≠ y) by (intros ->; done). subst h'. by lread. }
  assert (∀ y, y ∈ hd :: l1 ++ e :: l2 → n ≠ y → prv h' y = prv h y) as HP.
  { intros y Hy ?. assert (e' ≠ y) by (intros ->; done). subst h'. by lread. }
  apply seg_app. split.
  - eapply seg_left; [done|by apply NoDup_cons|..]; fold p; [| |subst h'; by lread..].
    + intros y ? Hy. apply HN; [lelem|done].
    + intros y Hy. apply HP; [lelem|].
      apply hd_default_ne; [intros ->; lelem|by apply Hd].
  - rewrite cons_middle, app_assoc in Hs, Hnd.
    eapply seg_right; [done|done|lelem|..]; fold n; [| |subst h'; by lread..].
    + intros y Hy. apply HN; [lelem|].
      apply last_default_ne; [intros ->; lelem|]. intros Hy'. by apply (Hd y).
    + intros y ? Hy. apply HP; [lelem|done].
Qed.

(** A ring can be entered at any of its nodes. *)
Lemma is_list_rotate h hd x xs : is_list h hd (x :: xs) ↔ is_list h x (xs ++ [hd]).
Proof.
  unfold is_list. rewrite seg_app. cbn [seg].
  assert (NoDup (hd :: x :: xs) ↔ NoDup (x :: xs ++ [hd])) as ->; [|tauto].
  apply NoDup_Permutation_proper. rewrite Permutation_swap. f_equiv. apply Permutation_cons_append.
Qed.

(** Moving a list to a new head. *)
Lemma list_replace_init_spec h hd xs hd' :
  is_list h hd xs → hd' ∉ hd :: xs → mapped h hd' →
  updates (list_replace_init (Ptr hd) (Ptr hd')) h (hd' :: hd :: xs)
    (λ h', is_list h' hd' xs ∧ is_list h' hd []).
Proof.
  intros Hl Hn Hm. eapply (updates_seq _ _ _ (hd' :: hd :: xs) [hd] _ (λ h', is_list h' hd' xs));
    [| |lelem|lelem].
  - destruct xs as [|x xs].
    + pose proof (is_list_mapped _ _ _ Hl hd ltac:(lelem)) as Hmh.
      destruct Hl as [_ [Hx Hy]]. assert (hd' ≠ hd) by lelem.
      assert (mapped (wp hd (Ptr hd') (wn hd' (Ptr hd) h)) hd') by lmapped.
      assert (prv (wp hd (Ptr hd') (wn hd' (Ptr hd) h)) hd = Some (Ptr hd')) by (lread; done).
      eexists. split; [unfold list_replace; lrun; reflexivity|].
      split; [split; [apply NoDup_singleton|]|lframe]. split; lread; done.
    + apply is_list_rotate in Hl.
      destruct (list_replace_spec h x xs hd [] hd') as (h' & E & Hl' & Hf); [done|lelem|done|].
      exists h'. split_and!; [done|by apply is_list_rotate|].
      eapply frame_weaken; [exact Hf|]. rewrite app_nil_r. lelem.
  - intros h' Hf Hl'. destruct (INIT_LIST_HEAD_spec h' hd) as (h2 & E2 & L2 & F2).
    { eapply frame_mapped; [done|]. by apply (is_list_mapped _ _ _ Hl); left. }
    exists h2. split_and!; [done| |done|done].
    eapply frame_is_list; [exact F2|done|]. destruct Hl as [Hnd _]. apply NoDup_cons in Hnd as [? _].
    intros y Hy. lelem.
Qed.

Lemma list_is_singular_spec h hd xs :
  is_list h hd xs →
  list_is_singular (Ptr hd) h = Ok (bool_decide (length xs = 1)%nat, h).
Proof.
  intros Hl. unfold list_is_singular. st_step (list_empty_spec _ _ _ Hl).
  pose proof Hl as [Hnd Hs]. pose proof (seg_head _ _ _ _ Hs) as Hn.
  pose proof (seg_last _ _ _ _ Hs) as Hp.
  destruct xs as [|x xs]; [done|]. rewrite last_cons_default in Hp. simpl in *. lrun.
  unfold mret, st_ret. do 2 f_equal. apply bool_decide_ext.
  destruct xs as [|y xs]; simpl; [done|]. split; [|lia].
  intros [= E]. pose proof (last_default_elem y xs) as Hin.
  change (x = List.last (y :: xs) x) in E. rewrite last_cons_default in E.
  rewrite <-E in Hin. rewrite !NoDup_cons in Hnd. tauto.
Qed.

(** [list_cut_position] moves the initial part of [H0], up to and including
    [e], to [L]. *)
Lemma list_cut_position_spec h L H0 l1 e l2 :
  is_list h H0 (l1 ++ e :: l2) → L ∉ H0 :: l1 ++ e :: l2 → mapped h L →
  updates (list_cut_position (Ptr L) (Ptr H0) (Ptr e)) h (L :: H0 :: l1 ++ e :: l2)
    (λ h', is_list h' L (l1 ++ [e]) ∧ is_list h' H0 l2).
Proof.
  intros Hl HL Hm. pose proof (is_list_at _ _ _ _ _ Hl) as [_ Hn].
  pose proof (hd_default_elem H0 l2) as Hnin.
  pose proof (hd_default_elem e l1) as Hfin.
  assert (nxt h H0 = Some (Ptr (List.hd e l1))) as Hf.
  { destruct Hl as [_ Hs%seg_head]. by destruct l1. }
  pose proof Hl as [Hnd Hs]. apply NoDup_cons in Hnd as [HH Hnd].
  pose proof (proj1 (NoDup_app _ _) Hnd) as (_ & Hd & He%NoDup_cons).
  pose proof (proj1 (NoDup_middle _ _ _) Hnd) as [He' _].
  set (n := List.hd H0 l2) in *. set (f := List.hd e l1) in *.
  assert (∀ y, y ∈ H0 :: l1 ++ e :: l2 → mapped h y) as Hmap by apply (is_list_mapped _ _ _ Hl).
  assert (mapped h n ∧ mapped h f ∧ mapped h e ∧ mapped h H0) as (?&?&?&?).
  { split_and!; apply Hmap; lelem. }
  assert (L ≠ n ∧ L ≠ f ∧ L ≠ e ∧ L ≠ H0) as (?&?&?&?).
  { split_and!; apply (ne_of_elem _ _ _ HL); lelem. }
  assert (H0 ≠ e ∧ H0 ≠ f) as (?&?).
  { split_and!; apply (ne_of_elem _ _ _ HH); lelem. }
  assert (n ≠ f).
  { apply hd_default_ne; [by intros ->; lelem|]. intros Hin. subst f. destruct l1; simpl in *; [lelem|].
    by apply (Hd a); lelem. }
  destruct (__list_cut_position (Ptr L) (Ptr H0) (Ptr e) h) as [[[] h']|] eqn:E;
    (unfold __list_cut_position in E; revert E; lrun); [|done]; intros [= Eh'].
  exists h'. split_and!.
  - unfold list_cut_position. st_step (list_empty_spec _ _ _ Hl).
    rewrite bool_decide_false by (by destruct l1).
    st_step (list_is_singular_spec _ _ _ Hl). lrun.
    assert ((bool_decide (length (l1 ++ e :: l2) = 1)%nat &&
      (negb (bool_decide (Ptr f = Ptr e)) && negb (bool_decide (Ptr H0 = Ptr e)))) = false) as ->.
    { destruct l1; subst f; simpl in *.
      - rewrite (bool_decide_true (Ptr e = Ptr e)) by done. by rewrite andb_false_r.
      - rewrite bool_decide_false; [done|]. rewrite length_app. simpl. lia. }
    rewrite bool_decide_false by congruence.
    unfold __list_cut_position. lrun. by rewrite Eh'.
  - split; [rewrite NoDup_cons; split; [lelem|]|].
    { rewrite cons_middle, app_assoc in Hnd. by apply NoDup_app in Hnd as (? & _). }
    assert (nxt h' L = Some (Ptr f) ∧ prv h' f = Some (Ptr L) ∧
            nxt h' e = Some (Ptr L) ∧ prv h' L = Some (Ptr e)) as (?&?&?&?).
    { subst h'. split_and!; by lread. }
    destruct l1 as [|x l1]; simpl in *; [done|]. split; [done|].
    apply seg_app. split; [|done]. destruct Hs as [_ [Hs _]%seg_app].
    eapply seg_frame; [done|..]; intros y Hy; subst h'.
    + assert (H0 ≠ y ∧ e ≠ y ∧ L ≠ y) as (?&?&?).
      { split_and!; [apply (ne_of_elem _ _ _ HH)|intros <-|apply (ne_of_elem _ _ _ HL)]; lelem. }
      by lread.
    + apply NoDup_cons in Hnd as [? ?].
      assert (L ≠ y ∧ f ≠ y ∧ n ≠ y) as (?&?&?).
      { split_and!; [apply (ne_of_elem _ _ _ HL); lelem|change (x ≠ y); intros ->; lelem|].
        apply hd_default_ne; [intros ->; lelem|]. intros ?.
        apply elem_of_app in Hy as [Hy| ->%list_elem_of_singleton]; [|tauto].
        apply (Hd y); [by right|by right]. }
      by lread.
  - split; [rewrite NoDup_cons; split; [lelem|tauto]|].
    rewrite cons_middle, app_assoc in Hs, Hnd.
    eapply seg_right; [done|done|lelem|..]; fold n; subst h'; [| |by lread..].
    + intros y Hy. assert (H0 ≠ y ∧ e ≠ y ∧ L ≠ y) as (?&?&?).
      { split_and!; [apply (ne_of_elem _ _ _ HH)|intros <-|apply (ne_of_elem _ _ _ HL)]; lelem. }
      by lread.
    + intros y Hny Hy. assert (f ≠ y ∧ L ≠ y) as [??]; [|by lread].
      split; [|apply (ne_of_elem _ _ _ HL); lelem].
      intros E. apply elem_of_app in Hy as [Hy|Hy%list_elem_of_singleton]; [|congruence].
      destruct l1 as [|a l1]; [change (e = y) in E|change (a = y) in E]; subst y; [tauto|].
      by apply (Hd a); [left|right].
  - subst h'. lframe.
Qed.

(** *** Loops over a list *)
(** What a [list_for_each] loop computes, as a traversal of the sequence. *)
Fixpoint walk {X} hd (body : ptr A → X → res (ctl X)) xs (x : X) : res (ptr A * X) :=
  match xs with
  | [] => Ok (Ptr hd, x)
  | y :: ys =>
    c ← body (Ptr y) x;
    match c with
    | Break x' => Ok (Ptr y, x')
    | Continue x' => walk hd body ys x'
    end
  end.

Lemma list_loop_next_spec {X} h hd (body : ptr A → X → res (ctl X)) a xs fuel x :
  seg h a xs hd → hd ∉ xs → (length xs < fuel)%nat →
  list_loop get_next body (Ptr hd) fuel (Ptr (List.hd hd xs)) x h =
    (r ← walk hd body xs x; Ok (r, h)).
Proof.
  revert a fuel x. induction xs as [|y xs IH]; intros a [|fuel] x Hs Hnin Hf;
    simpl in *; try lia.
  - by rewrite bool_decide_true.
  - rewrite bool_decide_false by (intros [= ->]; lelem).
    unfold mbind, st_bind, res_bind, lift. destruct (body (Ptr y) x) as [[x'|x']|e]; try done.
    destruct Hs as [_ Hs]. rewrite (get_next_ok _ _ _ (seg_head _ _ _ _ Hs)).
    eapply IH; [done|lelem|lia].
Qed.

Lemma list_loop_prev_spec {X} h hd (body : ptr A → X → res (ctl X)) xs b fuel x :
  seg h hd xs b → hd ∉ xs → (length xs < fuel)%nat →
  list_loop get_prev body (Ptr hd) fuel (Ptr (List.last xs hd)) x h =
    (r ← walk hd body (rev xs) x; Ok (r, h)).
Proof.
  revert b fuel x. induction xs as [|y xs IH] using rev_ind; intros b [|fuel] x Hs Hnin Hf;
    rewrite ?length_app in Hf; simpl in *; try lia.
  - by rewrite bool_decide_true.
  - rewrite last_last, rev_app_distr. simpl.
    rewrite bool_decide_false by (intros [= ->]; lelem).
    unfold mbind, st_bind, res_bind, lift. destruct (body (Ptr y) x) as [[x'|x']|e]; try done.
    apply seg_app in Hs as [Hs _]. rewrite (get_prev_ok _ _ _ (seg_last _ _ _ _ Hs)).
    eapply IH; [done|lelem|lia].
Qed.

(** The fuel is enough, so a loop over a well-formed list always terminates. *)
Lemma list_for_each_spec {X} h hd xs (body : ptr A → X → res (ctl X)) x :
  is_list h hd xs →
  list_for_each (Ptr hd) body x h = (r ← walk hd body xs x; Ok (r, h)).
Proof.
  intros Hl. pose proof (is_list_length _ _ _ Hl). pose proof (is_list_head_notin _ _ _ Hl).
  destruct Hl as [_ Hs]. unfold list_for_each. rewrite (st_bind_ok _ _ _ h h eq_refl).
  st_step (get_next_ok _ _ _ (seg_head _ _ _ _ Hs)).
  eapply list_loop_next_spec; [done..|]. unfold loop_fuel. lia.
Qed.

Lemma list_for_each_prev_spec {X} h hd xs (body : ptr A → X → res (ctl X)) x :
  is_list h hd xs →
  list_for_each_prev (Ptr hd) body x h = (r ← walk hd body (rev xs) x; Ok (r, h)).
Proof.
  intros Hl. pose proof (is_list_length _ _ _ Hl). pose proof (is_list_head_notin _ _ _ Hl).
  destruct Hl as [_ Hs]. unfold list_for_each_prev. rewrite (st_bind_ok _ _ _ h h eq_refl).
  st_step (get_prev_ok _ _ _ (seg_last _ _ _ _ Hs)).
  eapply list_loop_prev_spec; [done..|]. unfold loop_fuel. lia.
Qed.
End specs.
