(* ===== verification/Request.v ===== *)
(** * Bios, requests and the request queue

    The data of [include/linux/bio.h], [include/linux/blkdev.h] and
    [include/linux/elevator.h] as far as the modelled code reads or writes it,
    the flag words with their bits, and the accessors the code uses.  Integers
    are [Z], reduced to the width of the C type wherever the code computes
    them.  One request queue is modelled: the pointers [q] and [rq->q] are
    implicit, a [struct request *] is a [rqid] into the table [rqs]. *)

From S2P Require Import Prelude KList.

Local Open Scope Z_scope.

(** ** bios *)
Record bio_vec := BioVec { bv_page : Z; bv_len : Z; bv_offset : Z }.

(** [struct bio].  [bi_id] is its address, [bi_disk] is [bi_bdev->bd_disk],
    [bi_has_vec] says whether the pointer [bi_io_vec] is set, [bi_integrity]
    whether an integrity payload is attached. *)
Record bio := Bio {
  bi_id : positive;
  bi_sector : Z;
  bi_disk : positive;
  bi_flags : Z;
  bi_rw : Z;
  bi_idx : Z;
  bi_phys_segments : Z;
  bi_size : Z;
  bi_seg_front_size : Z;
  bi_seg_back_size : Z;
  bi_has_vec : bool;
  bi_io_vec : list bio_vec;
  bi_comp_cpu : Z;
  bi_integrity : bool
}.

Definition set_bi_id (v : positive) (r : bio) : bio :=
  Bio v (bi_sector r) (bi_disk r) (bi_flags r) (bi_rw r) (bi_idx r) (bi_phys_segments r)
    (bi_size r) (bi_seg_front_size r) (bi_seg_back_size r) (bi_has_vec r) (bi_io_vec r)
    (bi_comp_cpu r) (bi_integrity r).
Definition set_bi_sector (v : Z) (r : bio) : bio :=
  Bio (bi_id r) v (bi_disk r) (bi_flags r) (bi_rw r) (bi_idx r) (bi_phys_segments r) (bi_size r)
    (bi_seg_front_size r) (bi_seg_back_size r) (bi_has_vec r) (bi_io_vec r) (bi_comp_cpu r)
    (bi_integrity r).
Definition set_bi_disk (v : positive) (r : bio) : bio :=
  Bio (bi_id r) (bi_sector r) v (bi_flags r) (bi_rw r) (bi_idx r) (bi_phys_segments r)
    (bi_size r) (bi_seg_front_size r) (bi_seg_back_size r) (bi_has_vec r) (bi_io_vec r)
    (bi_comp_cpu r) (bi_integrity r).
Definition set_bi_flags (v : Z) (r : bio) : bio :=
  Bio (bi_id r) (bi_sector r) (bi_disk r) v (bi_rw r) (bi_idx r) (bi_phys_segments r)
    (bi_size r) (bi_seg_front_size r) (bi_seg_back_size r) (bi_has_vec r) (bi_io_vec r)
    (bi_comp_cpu r) (bi_integrity r).
Definition set_bi_rw (v : Z) (r : bio) : bio :=
  Bio (bi_id r) (bi_sector r) (bi_disk r) (bi_flags r) v (bi_idx r) (bi_phys_segments r)
    (bi_size r) (bi_seg_front_size r) (bi_seg_back_size r) (bi_has_vec r) (bi_io_vec r)
    (bi_comp_cpu r) (bi_integrity r).
Definition set_bi_idx (v : Z) (r : bio) : bio :=
  Bio (bi_id r) (bi_sector r) (bi_disk r) (bi_flags r) (bi_rw r) v (bi_phys_segments r)
    (bi_size r) (bi_seg_front_size r) (bi_seg_back_size r) (bi_has_vec r) (bi_io_vec r)
    (bi_comp_cpu r) (bi_integrity r).
Definition set_bi_phys_segments (v : Z) (r : bio) : bio :=
  Bio (bi_id r) (bi_sector r) (bi_disk r) (bi_flags r) (bi_rw r) (bi_idx r) v (bi_size r)
    (bi_seg_front_size r) (bi_seg_back_size r) (bi_has_vec r) (bi_io_vec r) (bi_comp_cpu r)
    (bi_integrity r).
Definition set_bi_size (v : Z) (r : bio) : bio :=
  Bio (bi_id r) (bi_sector r) (bi_disk r) (bi_flags r) (bi_rw r) (bi_idx r) (bi_phys_segments r)
    v (bi_seg_front_size r) (bi_seg_back_size r) (bi_has_vec r) (bi_io_vec r) (bi_comp_cpu r)
    (bi_integrity r).
Definition set_bi_seg_front_size (v : Z) (r : bio) : bio :=
  Bio (bi_id r) (bi_sector r) (bi_disk r) (bi_flags r) (bi_rw r) (bi_idx r) (bi_phys_segments r)
    (bi_size r) v (bi_seg_back_size r) (bi_has_vec r) (bi_io_vec r) (bi_comp_cpu r)
    (bi_integrity r).
Definition set_bi_seg_back_size (v : Z) (r : bio) : bio :=
  Bio (bi_id r) (bi_sector r) (bi_disk r) (bi_flags r) (bi_rw r) (bi_idx r) (bi_phys_segments r)
    (bi_size r) (bi_seg_front_size r) v (bi_has_vec r) (bi_io_vec r) (bi_comp_cpu r)
    (bi_integrity r).
Definition set_bi_has_vec (v : bool) (r : bio) : bio :=
  Bio (bi_id r) (bi_sector r) (bi_disk r) (bi_flags r) (bi_rw r) (bi_idx r) (bi_phys_segments r)
    (bi_size r) (bi_seg_front_size r) (bi_seg_back_size r) v (bi_io_vec r) (bi_comp_cpu r)
    (bi_integrity r).
Definition set_bi_io_vec (v : list bio_vec) (r : bio) : bio :=
  Bio (bi_id r) (bi_sector r) (bi_disk r) (bi_flags r) (bi_rw r) (bi_idx r) (bi_phys_segments r)
    (bi_size r) (bi_seg_front_size r) (bi_seg_back_size r) (bi_has_vec r) v (bi_comp_cpu r)
    (bi_integrity r).
Definition set_bi_comp_cpu (v : Z) (r : bio) : bio :=
  Bio (bi_id r) (bi_sector r) (bi_disk r) (bi_flags r) (bi_rw r) (bi_idx r) (bi_phys_segments r)
    (bi_size r) (bi_seg_front_size r) (bi_seg_back_size r) (bi_has_vec r) (bi_io_vec r) v
    (bi_integrity r).
Definition set_bi_integrity (v : bool) (r : bio) : bio :=
  Bio (bi_id r) (bi_sector r) (bi_disk r) (bi_flags r) (bi_rw r) (bi_idx r) (bi_phys_segments r)
    (bi_size r) (bi_seg_front_size r) (bi_seg_back_size r) (bi_has_vec r) (bi_io_vec r)
    (bi_comp_cpu r) v.

(** [enum bio_rw_flags] *)
Definition BIO_RW : Z := 0.
Definition BIO_RW_AHEAD : Z := 4.
Definition BIO_RW_BARRIER : Z := 5.
Definition BIO_RW_SYNCIO : Z := 6.
Definition BIO_RW_UNPLUG : Z := 7.
Definition BIO_RW_META : Z := 8.
Definition BIO_RW_DISCARD : Z := 9.
Definition BIO_RW_NOIDLE : Z := 10.

Definition bio_rw_flagged (b : bio) (flag : Z) : bool := tst (bi_rw b) (Z.shiftl 1 flag).
Definition bio_sectors (b : bio) : Z := Z.shiftr (bi_size b) 9.
Definition bio_data_dir (b : bio) : Z := Z.land (bi_rw b) 1.
Definition bi_vcnt (b : bio) : Z := Z.of_nat (length (bi_io_vec b)).

(** ** Requests *)

(** [struct request *]: an allocated request, or one of the three requests the
    queue embeds for ordered sequences. *)
Inductive rqid :=
| Rq (p : positive)
| pre_flush_rq
| bar_rq
| post_flush_rq.

#[global] Instance rqid_eq_dec : EqDecision rqid.
Proof. solve_decision. Defined.
#[global] Instance rqid_countable : Countable rqid.
Proof.
  refine (inj_countable'
    (λ r, match r with Rq p => inl p | pre_flush_rq => inr 0%nat
                     | bar_rq => inr 1%nat | post_flush_rq => inr 2%nat end)
    (λ s, match s with inl p => Rq p | inr 0%nat => pre_flush_rq
                     | inr 1%nat => bar_rq | inr _ => post_flush_rq end) _).
  by intros [].
Defined.

(** [enum rq_cmd_type_bits] *)
Definition REQ_TYPE_FS : Z := 1.
Definition REQ_TYPE_BLOCK_PC : Z := 2.
Definition REQ_TYPE_SENSE : Z := 3.
Definition REQ_TYPE_PM_SUSPEND : Z := 4.
Definition REQ_TYPE_PM_RESUME : Z := 5.
Definition REQ_TYPE_PM_SHUTDOWN : Z := 6.
Definition REQ_TYPE_SPECIAL : Z := 7.
Definition REQ_TYPE_LINUX_BLOCK : Z := 8.

(** [enum rq_flag_bits], as the masks [REQ_*]. *)
Definition REQ_RW : Z := Z.shiftl 1 0.
Definition REQ_FAILFAST_DEV : Z := Z.shiftl 1 1.
Definition REQ_FAILFAST_TRANSPORT : Z := Z.shiftl 1 2.
Definition REQ_FAILFAST_DRIVER : Z := Z.shiftl 1 3.
Definition REQ_DISCARD : Z := Z.shiftl 1 4.
Definition REQ_SORTED : Z := Z.shiftl 1 5.
Definition REQ_SOFTBARRIER : Z := Z.shiftl 1 6.
Definition REQ_HARDBARRIER : Z := Z.shiftl 1 7.
Definition REQ_FUA : Z := Z.shiftl 1 8.
Definition REQ_NOMERGE : Z := Z.shiftl 1 9.
Definition REQ_STARTED : Z := Z.shiftl 1 10.
Definition REQ_DONTPREP : Z := Z.shiftl 1 11.
Definition REQ_QUEUED : Z := Z.shiftl 1 12.
Definition REQ_ELVPRIV : Z := Z.shiftl 1 13.
Definition REQ_FAILED : Z := Z.shiftl 1 14.
Definition REQ_QUIET : Z := Z.shiftl 1 15.
Definition REQ_PREEMPT : Z := Z.shiftl 1 16.
Definition REQ_ORDERED_COLOR : Z := Z.shiftl 1 17.
Definition REQ_RW_SYNC : Z := Z.shiftl 1 18.
Definition REQ_ALLOCED : Z := Z.shiftl 1 19.
Definition REQ_RW_META : Z := Z.shiftl 1 20.
Definition REQ_COPY_USER : Z := Z.shiftl 1 21.
Definition REQ_INTEGRITY : Z := Z.shiftl 1 22.
Definition REQ_NOIDLE : Z := Z.shiftl 1 23.
Definition REQ_IO_STAT : Z := Z.shiftl 1 24.
Definition REQ_MIXED_MERGE : Z := Z.shiftl 1 25.
Definition REQ_FAILFAST_MASK : Z :=
  Z.lor (Z.lor REQ_FAILFAST_DEV REQ_FAILFAST_TRANSPORT) REQ_FAILFAST_DRIVER.
Definition RQ_NOMERGE_FLAGS : Z :=
  Z.lor (Z.lor (Z.lor REQ_NOMERGE REQ_STARTED) REQ_HARDBARRIER) REQ_SOFTBARRIER.

(** Completion callbacks: those of the ordered sequence
    ([block/blk-barrier.c]), or one installed by another part of the kernel. *)
Inductive end_io_fn :=
| pre_flush_end_io
| bar_end_io
| post_flush_end_io
| other_end_io (f : positive).

(** [struct request].  The chain [bio .. biotail] linked by [bi_next] is the
    list [bios]; [special] says whether the [special] pointer is set. *)
Record request := Request {
  cmd_flags : Z;
  cmd_type : Z;
  atomic_flags : Z;
  cpu : Z;
  __data_len : Z;
  __sector : Z;
  bios : list bio;
  rq_disk : option positive;
  start_time : Z;
  nr_phys_segments : Z;
  ioprio : Z;
  ref_count : Z;
  special : bool;
  tag : Z;
  errors : Z;
  extra_len : Z;
  resid_len : Z;
  deadline : Z;
  timeout : Z;
  end_io : option end_io_fn;
  next_rq : option rqid
}.

Definition set_cmd_flags (v : Z) (r : request) : request :=
  Request v (cmd_type r) (atomic_flags r) (cpu r) (__data_len r) (__sector r) (bios r)
    (rq_disk r) (start_time r) (nr_phys_segments r) (ioprio r) (ref_count r) (special r) (tag r)
    (errors r) (extra_len r) (resid_len r) (deadline r) (timeout r) (end_io r)
    (next_rq r).
Definition set_cmd_type (v : Z) (r : request) : request :=
  Request (cmd_flags r) v (atomic_flags r) (cpu r) (__data_len r) (__sector r) (bios r)
    (rq_disk r) (start_time r) (nr_phys_segments r) (ioprio r) (ref_count r) (special r) (tag r)
    (errors r) (extra_len r) (resid_len r) (deadline r) (timeout r) (end_io r)
    (next_rq r).
Definition set_atomic_flags (v : Z) (r : request) : request :=
  Request (cmd_flags r) (cmd_type r) v (cpu r) (__data_len r) (__sector r) (bios r) (rq_disk r)
    (start_time r) (nr_phys_segments r) (ioprio r) (ref_count r) (special r) (tag r) (errors r)
    (extra_len r) (resid_len r) (deadline r) (timeout r) (end_io r) (next_rq r).
Definition set_cpu (v : Z) (r : request) : request :=
  Request (cmd_flags r) (cmd_type r) (atomic_flags r) v (__data_len r) (__sector r) (bios r)
    (rq_disk r) (start_time r) (nr_phys_segments r) (ioprio r) (ref_count r) (special r) (tag r)
    (errors r) (extra_len r) (resid_len r) (deadline r) (timeout r) (end_io r)
    (next_rq r).
Definition set___data_len (v : Z) (r : request) : request :=
  Request (cmd_flags r) (cmd_type r) (atomic_flags r) (cpu r) v (__sector r) (bios r)
    (rq_disk r) (start_time r) (nr_phys_segments r) (ioprio r) (ref_count r) (special r) (tag r)
    (errors r) (extra_len r) (resid_len r) (deadline r) (timeout r) (end_io r)
    (next_rq r).
Definition set___sector (v : Z) (r : request) : request :=
  Request (cmd_flags r) (cmd_type r) (atomic_flags r) (cpu r) (__data_len r) v (bios r)
    (rq_disk r) (start_time r) (nr_phys_segments r) (ioprio r) (ref_count r) (special r) (tag r)
    (errors r) (extra_len r) (resid_len r) (deadline r) (timeout r) (end_io r)
    (next_rq r).
Definition set_bios (v : list bio) (r : request) : request :=
  Request (cmd_flags r) (cmd_type r) (atomic_flags r) (cpu r) (__data_len r) (__sector r) v
    (rq_disk r) (start_time r) (nr_phys_segments r) (ioprio r) (ref_count r) (special r) (tag r)
    (errors r) (extra_len r) (resid_len r) (deadline r) (timeout r) (end_io r)
    (next_rq r).
Definition set_rq_disk (v : option positive) (r : request) : request :=
  Request (cmd_flags r) (cmd_type r) (atomic_flags r) (cpu r) (__data_len r) (__sector r)
    (bios r) v (start_time r) (nr_phys_segments r) (ioprio r) (ref_count r) (special r) (tag r)
    (errors r) (extra_len r) (resid_len r) (deadline r) (timeout r) (end_io r)
    (next_rq r).
Definition set_start_time (v : Z) (r : request) : request :=
  Request (cmd_flags r) (cmd_type r) (atomic_flags r) (cpu r) (__data_len r) (__sector r)
    (bios r) (rq_disk r) v (nr_phys_segments r) (ioprio r) (ref_count r) (special r) (tag r)
    (errors r) (extra_len r) (resid_len r) (deadline r) (timeout r) (end_io r)
    (next_rq r).
Definition set_nr_phys_segments (v : Z) (r : request) : request :=
  Request (cmd_flags r) (cmd_type r) (atomic_flags r) (cpu r) (__data_len r) (__sector r)
    (bios r) (rq_disk r) (start_time r) v (ioprio r) (ref_count r) (special r) (tag r)
    (errors r) (extra_len r) (resid_len r) (deadline r) (timeout r) (end_io r)
    (next_rq r).
Definition set_ioprio (v : Z) (r : request) : request :=
  Request (cmd_flags r) (cmd_type r) (atomic_flags r) (cpu r) (__data_len r) (__sector r)
    (bios r) (rq_disk r) (start_time r) (nr_phys_segments r) v (ref_count r) (special r) (tag r)
    (errors r) (extra_len r) (resid_len r) (deadline r) (timeout r) (end_io r)
    (next_rq r).
Definition set_ref_count (v : Z) (r : request) : request :=
  Request (cmd_flags r) (cmd_type r) (atomic_flags r) (cpu r) (__data_len r) (__sector r)
    (bios r) (rq_disk r) (start_time r) (nr_phys_segments r) (ioprio r) v (special r) (tag r)
    (errors r) (extra_len r) (resid_len r) (deadline r) (timeout r) (end_io r)
    (next_rq r).
Definition set_special (v : bool) (r : request) : request :=
  Request (cmd_flags r) (cmd_type r) (atomic_flags r) (cpu r) (__data_len r) (__sector r)
    (bios r) (rq_disk r) (start_time r) (nr_phys_segments r) (ioprio r) (ref_count r) v (tag r)
    (errors r) (extra_len r) (resid_len r) (deadline r) (timeout r) (end_io r)
    (next_rq r).
Definition set_tag (v : Z) (r : request) : request :=
  Request (cmd_flags r) (cmd_type r) (atomic_flags r) (cpu r) (__data_len r) (__sector r)
    (bios r) (rq_disk r) (start_time r) (nr_phys_segments r) (ioprio r) (ref_count r)
    (special r) v (errors r) (extra_len r) (resid_len r) (deadline r) (timeout r)
    (end_io r) (next_rq r).
Definition set_errors (v : Z) (r : request) : request :=
  Request (cmd_flags r) (cmd_type r) (atomic_flags r) (cpu r) (__data_len r) (__sector r)
    (bios r) (rq_disk r) (start_time r) (nr_phys_segments r) (ioprio r) (ref_count r)
    (special r) (tag r) v (extra_len r) (resid_len r) (deadline r) (timeout r)
    (end_io r) (next_rq r).
Definition set_extra_len (v : Z) (r : request) : request :=
  Request (cmd_flags r) (cmd_type r) (atomic_flags r) (cpu r) (__data_len r) (__sector r)
    (bios r) (rq_disk r) (start_time r) (nr_phys_segments r) (ioprio r) (ref_count r)
    (special r) (tag r) (errors r) v (resid_len r) (deadline r) (timeout r)
    (end_io r) (next_rq r).
Definition set_resid_len (v : Z) (r : request) : request :=
  Request (cmd_flags r) (cmd_type r) (atomic_flags r) (cpu r) (__data_len r) (__sector r)
    (bios r) (rq_disk r) (start_time r) (nr_phys_segments r) (ioprio r) (ref_count r)
    (special r) (tag r) (errors r) (extra_len r) v (deadline r) (timeout r)
    (end_io r) (next_rq r).
Definition set_deadline (v : Z) (r : request) : request :=
  Request (cmd_flags r) (cmd_type r) (atomic_flags r) (cpu r) (__data_len r) (__sector r)
    (bios r) (rq_disk r) (start_time r) (nr_phys_segments r) (ioprio r) (ref_count r)
    (special r) (tag r) (errors r) (extra_len r) (resid_len r) v (timeout r)
    (end_io r) (next_rq r).
Definition set_timeout (v : Z) (r : request) : request :=
  Request (cmd_flags r) (cmd_type r) (atomic_flags r) (cpu r) (__data_len r) (__sector r)
    (bios r) (rq_disk r) (start_time r) (nr_phys_segments r) (ioprio r) (ref_count r)
    (special r) (tag r) (errors r) (extra_len r) (resid_len r) (deadline r) v
    (end_io r) (next_rq r).
Definition set_end_io (v : option end_io_fn) (r : request) : request :=
  Request (cmd_flags r) (cmd_type r) (atomic_flags r) (cpu r) (__data_len r) (__sector r)
    (bios r) (rq_disk r) (start_time r) (nr_phys_segments r) (ioprio r) (ref_count r)
    (special r) (tag r) (errors r) (extra_len r) (resid_len r) (deadline r)
    (timeout r) v (next_rq r).
Definition set_next_rq (v : option rqid) (r : request) : request :=
  Request (cmd_flags r) (cmd_type r) (atomic_flags r) (cpu r) (__data_len r) (__sector r)
    (bios r) (rq_disk r) (start_time r) (nr_phys_segments r) (ioprio r) (ref_count r)
    (special r) (tag r) (errors r) (extra_len r) (resid_len r) (deadline r)
    (timeout r) (end_io r) v.

Definition blk_fs_request (r : request) : bool := cmd_type r =? REQ_TYPE_FS.
Definition blk_rq_started (r : request) : bool := tst (cmd_flags r) REQ_STARTED.
Definition blk_discard_rq (r : request) : bool := tst (cmd_flags r) REQ_DISCARD.
Definition blk_sorted_rq (r : request) : bool := tst (cmd_flags r) REQ_SORTED.
Definition blk_barrier_rq (r : request) : bool := tst (cmd_flags r) REQ_HARDBARRIER.
Definition blk_account_rq (r : request) : bool :=
  blk_rq_started r && (blk_fs_request r || blk_discard_rq r).
Definition rq_data_dir (r : request) : Z := Z.land (cmd_flags r) 1.
Definition rw_is_sync (rw_flags : Z) : bool :=
  negb (tst rw_flags REQ_RW) || tst rw_flags REQ_RW_SYNC.
Definition rq_is_sync (r : request) : bool := rw_is_sync (cmd_flags r).
Definition rq_mergeable (r : request) : bool :=
  negb (tst (cmd_flags r) RQ_NOMERGE_FLAGS) && (blk_discard_rq r || blk_fs_request r).
Definition blk_integrity_rq (r : request) : bool :=
  match bios r with [] => false | b :: _ => bi_integrity b end.

Definition blk_rq_pos (r : request) : Z := __sector r.
Definition blk_rq_bytes (r : request) : Z := __data_len r.
Definition blk_rq_sectors (r : request) : Z := Z.shiftr (blk_rq_bytes r) 9.
(** [rq_end_sector] of [elevator.h] and [rq_hash_key] of [elevator.c]. *)
Definition rq_end_sector (r : request) : Z := u64 (blk_rq_pos r + blk_rq_sectors r).

(** ** The request queue *)

(** The queue flags, as bit numbers. *)
Definition QUEUE_FLAG_CLUSTER : Z := 0.
Definition QUEUE_FLAG_QUEUED : Z := 1.
Definition QUEUE_FLAG_STOPPED : Z := 2.
Definition QUEUE_FLAG_SYNCFULL : Z := 3.
Definition QUEUE_FLAG_ASYNCFULL : Z := 4.
Definition QUEUE_FLAG_DEAD : Z := 5.
Definition QUEUE_FLAG_REENTER : Z := 6.
Definition QUEUE_FLAG_PLUGGED : Z := 7.
Definition QUEUE_FLAG_ELVSWITCH : Z := 8.
Definition QUEUE_FLAG_NOMERGES : Z := 10.
Definition QUEUE_FLAG_SAME_COMP : Z := 11.
Definition QUEUE_FLAG_NONROT : Z := 14.
Definition QUEUE_FLAG_IO_STAT : Z := 15.
Definition QUEUE_FLAG_DISCARD : Z := 16.
Definition QUEUE_FLAG_NOXMERGES : Z := 17.

(** [struct queue_limits] *)
Record queue_limits := QueueLimits {
  bounce_pfn : Z;
  seg_boundary_mask : Z;
  max_hw_sectors : Z;
  max_sectors : Z;
  max_segment_size : Z;
  physical_block_size : Z;
  alignment_offset : Z;
  io_min : Z;
  io_opt : Z;
  max_discard_sectors : Z;
  discard_granularity : Z;
  discard_alignment : Z;
  logical_block_size : Z;
  max_segments : Z;
  misaligned : Z;
  discard_misaligned : Z;
  no_cluster : Z;
  discard_zeroes_data : Z
}.

Definition set_bounce_pfn (v : Z) (r : queue_limits) : queue_limits :=
  QueueLimits v (seg_boundary_mask r) (max_hw_sectors r) (max_sectors r) (max_segment_size r)
    (physical_block_size r) (alignment_offset r) (io_min r) (io_opt r) (max_discard_sectors r)
    (discard_granularity r) (discard_alignment r) (logical_block_size r) (max_segments r)
    (misaligned r) (discard_misaligned r) (no_cluster r) (discard_zeroes_data r).
Definition set_seg_boundary_mask (v : Z) (r : queue_limits) : queue_limits :=
  QueueLimits (bounce_pfn r) v (max_hw_sectors r) (max_sectors r) (max_segment_size r)
    (physical_block_size r) (alignment_offset r) (io_min r) (io_opt r) (max_discard_sectors r)
    (discard_granularity r) (discard_alignment r) (logical_block_size r) (max_segments r)
    (misaligned r) (discard_misaligned r) (no_cluster r) (discard_zeroes_data r).
Definition set_max_hw_sectors (v : Z) (r : queue_limits) : queue_limits :=
  QueueLimits (bounce_pfn r) (seg_boundary_mask r) v (max_sectors r) (max_segment_size r)
    (physical_block_size r) (alignment_offset r) (io_min r) (io_opt r) (max_discard_sectors r)
    (discard_granularity r) (discard_alignment r) (logical_block_size r) (max_segments r)
    (misaligned r) (discard_misaligned r) (no_cluster r) (discard_zeroes_data r).
Definition set_max_sectors (v : Z) (r : queue_limits) : queue_limits :=
  QueueLimits (bounce_pfn r) (seg_boundary_mask r) (max_hw_sectors r) v (max_segment_size r)
    (physical_block_size r) (alignment_offset r) (io_min r) (io_opt r) (max_discard_sectors r)
    (discard_granularity r) (discard_alignment r) (logical_block_size r) (max_segments r)
    (misaligned r) (discard_misaligned r) (no_cluster r) (discard_zeroes_data r).
Definition set_max_segment_size (v : Z) (r : queue_limits) : queue_limits :=
  QueueLimits (bounce_pfn r) (seg_boundary_mask r) (max_hw_sectors r) (max_sectors r) v
    (physical_block_size r) (alignment_offset r) (io_min r) (io_opt r) (max_discard_sectors r)
    (discard_granularity r) (discard_alignment r) (logical_block_size r) (max_segments r)
    (misaligned r) (discard_misaligned r) (no_cluster r) (discard_zeroes_data r).
Definition set_physical_block_size (v : Z) (r : queue_limits) : queue_limits :=
  QueueLimits (bounce_pfn r) (seg_boundary_mask r) (max_hw_sectors r) (max_sectors r)
    (max_segment_size r) v (alignment_offset r) (io_min r) (io_opt r) (max_discard_sectors r)
    (discard_granularity r) (discard_alignment r) (logical_block_size r) (max_segments r)
    (misaligned r) (discard_misaligned r) (no_cluster r) (discard_zeroes_data r).
Definition set_alignment_offset (v : Z) (r : queue_limits) : queue_limits :=
  QueueLimits (bounce_pfn r) (seg_boundary_mask r) (max_hw_sectors r) (max_sectors r)
    (max_segment_size r) (physical_block_size r) v (io_min r) (io_opt r) (max_discard_sectors r)
    (discard_granularity r) (discard_alignment r) (logical_block_size r) (max_segments r)
    (misaligned r) (discard_misaligned r) (no_cluster r) (discard_zeroes_data r).
Definition set_io_min (v : Z) (r : queue_limits) : queue_limits :=
  QueueLimits (bounce_pfn r) (seg_boundary_mask r) (max_hw_sectors r) (max_sectors r)
    (max_segment_size r) (physical_block_size r) (alignment_offset r) v (io_opt r)
    (max_discard_sectors r) (discard_granularity r) (discard_alignment r) (logical_block_size r)
    (max_segments r) (misaligned r) (discard_misaligned r) (no_cluster r)
    (discard_zeroes_data r).
Definition set_io_opt (v : Z) (r : queue_limits) : queue_limits :=
  QueueLimits (bounce_pfn r) (seg_boundary_mask r) (max_hw_sectors r) (max_sectors r)
    (max_segment_size r) (physical_block_size r) (alignment_offset r) (io_min r) v
    (max_discard_sectors r) (discard_granularity r) (discard_alignment r) (logical_block_size r)
    (max_segments r) (misaligned r) (discard_misaligned r) (no_cluster r)
    (discard_zeroes_data r).
Definition set_max_discard_sectors (v : Z) (r : queue_limits) : queue_limits :=
  QueueLimits (bounce_pfn r) (seg_boundary_mask r) (max_hw_sectors r) (max_sectors r)
    (max_segment_size r) (physical_block_size r) (alignment_offset r) (io_min r) (io_opt r) v
    (discard_granularity r) (discard_alignment r) (logical_block_size r) (max_segments r)
    (misaligned r) (discard_misaligned r) (no_cluster r) (discard_zeroes_data r).
Definition set_discard_granularity (v : Z) (r : queue_limits) : queue_limits :=
  QueueLimits (bounce_pfn r) (seg_boundary_mask r) (max_hw_sectors r) (max_sectors r)
    (max_segment_size r) (physical_block_size r) (alignment_offset r) (io_min r) (io_opt r)
    (max_discard_sectors r) v (discard_alignment r) (logical_block_size r) (max_segments r)
    (misaligned r) (discard_misaligned r) (no_cluster r) (discard_zeroes_data r).
Definition set_discard_alignment (v : Z) (r : queue_limits) : queue_limits :=
  QueueLimits (bounce_pfn r) (seg_boundary_mask r) (max_hw_sectors r) (max_sectors r)
    (max_segment_size r) (physical_block_size r) (alignment_offset r) (io_min r) (io_opt r)
    (max_discard_sectors r) (discard_granularity r) v (logical_block_size r) (max_segments r)
    (misaligned r) (discard_misaligned r) (no_cluster r) (discard_zeroes_data r).
Definition set_logical_block_size (v : Z) (r : queue_limits) : queue_limits :=
  QueueLimits (bounce_pfn r) (seg_boundary_mask r) (max_hw_sectors r) (max_sectors r)
    (max_segment_size r) (physical_block_size r) (alignment_offset r) (io_min r) (io_opt r)
    (max_discard_sectors r) (discard_granularity r) (discard_alignment r) v (max_segments r)
    (misaligned r) (discard_misaligned r) (no_cluster r) (discard_zeroes_data r).
Definition set_max_segments (v : Z) (r : queue_limits) : queue_limits :=
  QueueLimits (bounce_pfn r) (seg_boundary_mask r) (max_hw_sectors r) (max_sectors r)
    (max_segment_size r) (physical_block_size r) (alignment_offset r) (io_min r) (io_opt r)
    (max_discard_sectors r) (discard_granularity r) (discard_alignment r) (logical_block_size r)
    v (misaligned r) (discard_misaligned r) (no_cluster r) (discard_zeroes_data r).
Definition set_misaligned (v : Z) (r : queue_limits) : queue_limits :=
  QueueLimits (bounce_pfn r) (seg_boundary_mask r) (max_hw_sectors r) (max_sectors r)
    (max_segment_size r) (physical_block_size r) (alignment_offset r) (io_min r) (io_opt r)
    (max_discard_sectors r) (discard_granularity r) (discard_alignment r) (logical_block_size r)
    (max_segments r) v (discard_misaligned r) (no_cluster r) (discard_zeroes_data r).
Definition set_discard_misaligned (v : Z) (r : queue_limits) : queue_limits :=
  QueueLimits (bounce_pfn r) (seg_boundary_mask r) (max_hw_sectors r) (max_sectors r)
    (max_segment_size r) (physical_block_size r) (alignment_offset r) (io_min r) (io_opt r)
    (max_discard_sectors r) (discard_granularity r) (discard_alignment r) (logical_block_size r)
    (max_segments r) (misaligned r) v (no_cluster r) (discard_zeroes_data r).
Definition set_no_cluster (v : Z) (r : queue_limits) : queue_limits :=
  QueueLimits (bounce_pfn r) (seg_boundary_mask r) (max_hw_sectors r) (max_sectors r)
    (max_segment_size r) (physical_block_size r) (alignment_offset r) (io_min r) (io_opt r)
    (max_discard_sectors r) (discard_granularity r) (discard_alignment r) (logical_block_size r)
    (max_segments r) (misaligned r) (discard_misaligned r) v (discard_zeroes_data r).
Definition set_discard_zeroes_data (v : Z) (r : queue_limits) : queue_limits :=
  QueueLimits (bounce_pfn r) (seg_boundary_mask r) (max_hw_sectors r) (max_sectors r)
    (max_segment_size r) (physical_block_size r) (alignment_offset r) (io_min r) (io_opt r)
    (max_discard_sectors r) (discard_granularity r) (discard_alignment r) (logical_block_size r)
    (max_segments r) (misaligned r) (discard_misaligned r) (no_cluster r) v.

(** The members of [struct request_queue] that drivers configure and the I/O
    path only reads.  Function pointers are addresses; [has_request_fn] says
    whether [request_fn] is set, [queue_lock] whether
    a lock was supplied, [ra_pages] is [backing_dev_info.ra_pages]. *)
Record queue_conf := QueueConf {
  make_request_fn : option positive;
  has_request_fn : bool;
  prep_rq_fn : option positive;
  merge_bvec_fn : option positive;
  prepare_flush_fn : option positive;
  softirq_done_fn : option positive;
  rq_timed_out_fn : option positive;
  dma_drain_needed : option positive;
  lld_busy_fn : option positive;
  unplug_delay : Z;
  bounce_gfp : Z;
  queue_lock : bool;
  nr_requests : Z;
  nr_congestion_on : Z;
  nr_congestion_off : Z;
  nr_batching : Z;
  dma_drain_buffer : Z;
  dma_drain_size : Z;
  dma_pad_mask : Z;
  dma_alignment : Z;
  rq_timeout : Z;
  ra_pages : Z;
  limits : queue_limits
}.

Definition set_make_request_fn (v : option positive) (r : queue_conf) : queue_conf :=
  QueueConf v (has_request_fn r) (prep_rq_fn r) (merge_bvec_fn r) (prepare_flush_fn r)
    (softirq_done_fn r) (rq_timed_out_fn r) (dma_drain_needed r) (lld_busy_fn r)
    (unplug_delay r) (bounce_gfp r) (queue_lock r) (nr_requests r) (nr_congestion_on r)
    (nr_congestion_off r) (nr_batching r) (dma_drain_buffer r) (dma_drain_size r)
    (dma_pad_mask r) (dma_alignment r) (rq_timeout r) (ra_pages r) (limits r).
Definition set_has_request_fn (v : bool) (r : queue_conf) : queue_conf :=
  QueueConf (make_request_fn r) v (prep_rq_fn r) (merge_bvec_fn r) (prepare_flush_fn r)
    (softirq_done_fn r) (rq_timed_out_fn r) (dma_drain_needed r) (lld_busy_fn r)
    (unplug_delay r) (bounce_gfp r) (queue_lock r) (nr_requests r) (nr_congestion_on r)
    (nr_congestion_off r) (nr_batching r) (dma_drain_buffer r) (dma_drain_size r)
    (dma_pad_mask r) (dma_alignment r) (rq_timeout r) (ra_pages r) (limits r).
Definition set_prep_rq_fn (v : option positive) (r : queue_conf) : queue_conf :=
  QueueConf (make_request_fn r) (has_request_fn r) v (merge_bvec_fn r) (prepare_flush_fn r)
    (softirq_done_fn r) (rq_timed_out_fn r) (dma_drain_needed r) (lld_busy_fn r)
    (unplug_delay r) (bounce_gfp r) (queue_lock r) (nr_requests r) (nr_congestion_on r)
    (nr_congestion_off r) (nr_batching r) (dma_drain_buffer r) (dma_drain_size r)
    (dma_pad_mask r) (dma_alignment r) (rq_timeout r) (ra_pages r) (limits r).
Definition set_merge_bvec_fn (v : option positive) (r : queue_conf) : queue_conf :=
  QueueConf (make_request_fn r) (has_request_fn r) (prep_rq_fn r) v (prepare_flush_fn r)
    (softirq_done_fn r) (rq_timed_out_fn r) (dma_drain_needed r) (lld_busy_fn r)
    (unplug_delay r) (bounce_gfp r) (queue_lock r) (nr_requests r) (nr_congestion_on r)
    (nr_congestion_off r) (nr_batching r) (dma_drain_buffer r) (dma_drain_size r)
    (dma_pad_mask r) (dma_alignment r) (rq_timeout r) (ra_pages r) (limits r).
Definition set_prepare_flush_fn (v : option positive) (r : queue_conf) : queue_conf :=
  QueueConf (make_request_fn r) (has_request_fn r) (prep_rq_fn r) (merge_bvec_fn r) v
    (softirq_done_fn r) (rq_timed_out_fn r) (dma_drain_needed r) (lld_busy_fn r)
    (unplug_delay r) (bounce_gfp r) (queue_lock r) (nr_requests r) (nr_congestion_on r)
    (nr_congestion_off r) (nr_batching r) (dma_drain_buffer r) (dma_drain_size r)
    (dma_pad_mask r) (dma_alignment r) (rq_timeout r) (ra_pages r) (limits r).
Definition set_softirq_done_fn (v : option positive) (r : queue_conf) : queue_conf :=
  QueueConf (make_request_fn r) (has_request_fn r) (prep_rq_fn r) (merge_bvec_fn r)
    (prepare_flush_fn r) v (rq_timed_out_fn r) (dma_drain_needed r) (lld_busy_fn r)
    (unplug_delay r) (bounce_gfp r) (queue_lock r) (nr_requests r) (nr_congestion_on r)
    (nr_congestion_off r) (nr_batching r) (dma_drain_buffer r) (dma_drain_size r)
    (dma_pad_mask r) (dma_alignment r) (rq_timeout r) (ra_pages r) (limits r).
Definition set_rq_timed_out_fn (v : option positive) (r : queue_conf) : queue_conf :=
  QueueConf (make_request_fn r) (has_request_fn r) (prep_rq_fn r) (merge_bvec_fn r)
    (prepare_flush_fn r) (softirq_done_fn r) v (dma_drain_needed r) (lld_busy_fn r)
    (unplug_delay r) (bounce_gfp r) (queue_lock r) (nr_requests r) (nr_congestion_on r)
    (nr_congestion_off r) (nr_batching r) (dma_drain_buffer r) (dma_drain_size r)
    (dma_pad_mask r) (dma_alignment r) (rq_timeout r) (ra_pages r) (limits r).
Definition set_dma_drain_needed (v : option positive) (r : queue_conf) : queue_conf :=
  QueueConf (make_request_fn r) (has_request_fn r) (prep_rq_fn r) (merge_bvec_fn r)
    (prepare_flush_fn r) (softirq_done_fn r) (rq_timed_out_fn r) v (lld_busy_fn r)
    (unplug_delay r) (bounce_gfp r) (queue_lock r) (nr_requests r) (nr_congestion_on r)
    (nr_congestion_off r) (nr_batching r) (dma_drain_buffer r) (dma_drain_size r)
    (dma_pad_mask r) (dma_alignment r) (rq_timeout r) (ra_pages r) (limits r).
Definition set_lld_busy_fn (v : option positive) (r : queue_conf) : queue_conf :=
  QueueConf (make_request_fn r) (has_request_fn r) (prep_rq_fn r) (merge_bvec_fn r)
    (prepare_flush_fn r) (softirq_done_fn r) (rq_timed_out_fn r) (dma_drain_needed r) v
    (unplug_delay r) (bounce_gfp r) (queue_lock r) (nr_requests r) (nr_congestion_on r)
    (nr_congestion_off r) (nr_batching r) (dma_drain_buffer r) (dma_drain_size r)
    (dma_pad_mask r) (dma_alignment r) (rq_timeout r) (ra_pages r) (limits r).
Definition set_unplug_delay (v : Z) (r : queue_conf) : queue_conf :=
  QueueConf (make_request_fn r) (has_request_fn r) (prep_rq_fn r) (merge_bvec_fn r)
    (prepare_flush_fn r) (softirq_done_fn r) (rq_timed_out_fn r) (dma_drain_needed r)
    (lld_busy_fn r) v (bounce_gfp r) (queue_lock r) (nr_requests r) (nr_congestion_on r)
    (nr_congestion_off r) (nr_batching r) (dma_drain_buffer r) (dma_drain_size r)
    (dma_pad_mask r) (dma_alignment r) (rq_timeout r) (ra_pages r) (limits r).
Definition set_bounce_gfp (v : Z) (r : queue_conf) : queue_conf :=
  QueueConf (make_request_fn r) (has_request_fn r) (prep_rq_fn r) (merge_bvec_fn r)
    (prepare_flush_fn r) (softirq_done_fn r) (rq_timed_out_fn r) (dma_drain_needed r)
    (lld_busy_fn r) (unplug_delay r) v (queue_lock r) (nr_requests r) (nr_congestion_on r)
    (nr_congestion_off r) (nr_batching r) (dma_drain_buffer r) (dma_drain_size r)
    (dma_pad_mask r) (dma_alignment r) (rq_timeout r) (ra_pages r) (limits r).
Definition set_queue_lock (v : bool) (r : queue_conf) : queue_conf :=
  QueueConf (make_request_fn r) (has_request_fn r) (prep_rq_fn r) (merge_bvec_fn r)
    (prepare_flush_fn r) (softirq_done_fn r) (rq_timed_out_fn r) (dma_drain_needed r)
    (lld_busy_fn r) (unplug_delay r) (bounce_gfp r) v (nr_requests r) (nr_congestion_on r)
    (nr_congestion_off r) (nr_batching r) (dma_drain_buffer r) (dma_drain_size r)
    (dma_pad_mask r) (dma_alignment r) (rq_timeout r) (ra_pages r) (limits r).
Definition set_nr_requests (v : Z) (r : queue_conf) : queue_conf :=
  QueueConf (make_request_fn r) (has_request_fn r) (prep_rq_fn r) (merge_bvec_fn r)
    (prepare_flush_fn r) (softirq_done_fn r) (rq_timed_out_fn r) (dma_drain_needed r)
    (lld_busy_fn r) (unplug_delay r) (bounce_gfp r) (queue_lock r) v (nr_congestion_on r)
    (nr_congestion_off r) (nr_batching r) (dma_drain_buffer r) (dma_drain_size r)
    (dma_pad_mask r) (dma_alignment r) (rq_timeout r) (ra_pages r) (limits r).
Definition set_nr_congestion_on (v : Z) (r : queue_conf) : queue_conf :=
  QueueConf (make_request_fn r) (has_request_fn r) (prep_rq_fn r) (merge_bvec_fn r)
    (prepare_flush_fn r) (softirq_done_fn r) (rq_timed_out_fn r) (dma_drain_needed r)
    (lld_busy_fn r) (unplug_delay r) (bounce_gfp r) (queue_lock r) (nr_requests r) v
    (nr_congestion_off r) (nr_batching r) (dma_drain_buffer r) (dma_drain_size r)
    (dma_pad_mask r) (dma_alignment r) (rq_timeout r) (ra_pages r) (limits r).
Definition set_nr_congestion_off (v : Z) (r : queue_conf) : queue_conf :=
  QueueConf (make_request_fn r) (has_request_fn r) (prep_rq_fn r) (merge_bvec_fn r)
    (prepare_flush_fn r) (softirq_done_fn r) (rq_timed_out_fn r) (dma_drain_needed r)
    (lld_busy_fn r) (unplug_delay r) (bounce_gfp r) (queue_lock r) (nr_requests r)
    (nr_congestion_on r) v (nr_batching r) (dma_drain_buffer r) (dma_drain_size r)
    (dma_pad_mask r) (dma_alignment r) (rq_timeout r) (ra_pages r) (limits r).
Definition set_nr_batching (v : Z) (r : queue_conf) : queue_conf :=
  QueueConf (make_request_fn r) (has_request_fn r) (prep_rq_fn r) (merge_bvec_fn r)
    (prepare_flush_fn r) (softirq_done_fn r) (rq_timed_out_fn r) (dma_drain_needed r)
    (lld_busy_fn r) (unplug_delay r) (bounce_gfp r) (queue_lock r) (nr_requests r)
    (nr_congestion_on r) (nr_congestion_off r) v (dma_drain_buffer r) (dma_drain_size r)
    (dma_pad_mask r) (dma_alignment r) (rq_timeout r) (ra_pages r) (limits r).
Definition set_dma_drain_buffer (v : Z) (r : queue_conf) : queue_conf :=
  QueueConf (make_request_fn r) (has_request_fn r) (prep_rq_fn r) (merge_bvec_fn r)
    (prepare_flush_fn r) (softirq_done_fn r) (rq_timed_out_fn r) (dma_drain_needed r)
    (lld_busy_fn r) (unplug_delay r) (bounce_gfp r) (queue_lock r) (nr_requests r)
    (nr_congestion_on r) (nr_congestion_off r) (nr_batching r) v (dma_drain_size r)
    (dma_pad_mask r) (dma_alignment r) (rq_timeout r) (ra_pages r) (limits r).
Definition set_dma_drain_size (v : Z) (r : queue_conf) : queue_conf :=
  QueueConf (make_request_fn r) (has_request_fn r) (prep_rq_fn r) (merge_bvec_fn r)
    (prepare_flush_fn r) (softirq_done_fn r) (rq_timed_out_fn r) (dma_drain_needed r)
    (lld_busy_fn r) (unplug_delay r) (bounce_gfp r) (queue_lock r) (nr_requests r)
    (nr_congestion_on r) (nr_congestion_off r) (nr_batching r) (dma_drain_buffer r) v
    (dma_pad_mask r) (dma_alignment r) (rq_timeout r) (ra_pages r) (limits r).
Definition set_dma_pad_mask (v : Z) (r : queue_conf) : queue_conf :=
  QueueConf (make_request_fn r) (has_request_fn r) (prep_rq_fn r) (merge_bvec_fn r)
    (prepare_flush_fn r) (softirq_done_fn r) (rq_timed_out_fn r) (dma_drain_needed r)
    (lld_busy_fn r) (unplug_delay r) (bounce_gfp r) (queue_lock r) (nr_requests r)
    (nr_congestion_on r) (nr_congestion_off r) (nr_batching r) (dma_drain_buffer r)
    (dma_drain_size r) v (dma_alignment r) (rq_timeout r) (ra_pages r) (limits r).
Definition set_dma_alignment (v : Z) (r : queue_conf) : queue_conf :=
  QueueConf (make_request_fn r) (has_request_fn r) (prep_rq_fn r) (merge_bvec_fn r)
    (prepare_flush_fn r) (softirq_done_fn r) (rq_timed_out_fn r) (dma_drain_needed r)
    (lld_busy_fn r) (unplug_delay r) (bounce_gfp r) (queue_lock r) (nr_requests r)
    (nr_congestion_on r) (nr_congestion_off r) (nr_batching r) (dma_drain_buffer r)
    (dma_drain_size r) (dma_pad_mask r) v (rq_timeout r) (ra_pages r) (limits r).
Definition set_rq_timeout (v : Z) (r : queue_conf) : queue_conf :=
  QueueConf (make_request_fn r) (has_request_fn r) (prep_rq_fn r) (merge_bvec_fn r)
    (prepare_flush_fn r) (softirq_done_fn r) (rq_timed_out_fn r) (dma_drain_needed r)
    (lld_busy_fn r) (unplug_delay r) (bounce_gfp r) (queue_lock r) (nr_requests r)
    (nr_congestion_on r) (nr_congestion_off r) (nr_batching r) (dma_drain_buffer r)
    (dma_drain_size r) (dma_pad_mask r) (dma_alignment r) v (ra_pages r) (limits r).
Definition set_ra_pages (v : Z) (r : queue_conf) : queue_conf :=
  QueueConf (make_request_fn r) (has_request_fn r) (prep_rq_fn r) (merge_bvec_fn r)
    (prepare_flush_fn r) (softirq_done_fn r) (rq_timed_out_fn r) (dma_drain_needed r)
    (lld_busy_fn r) (unplug_delay r) (bounce_gfp r) (queue_lock r) (nr_requests r)
    (nr_congestion_on r) (nr_congestion_off r) (nr_batching r) (dma_drain_buffer r)
    (dma_drain_size r) (dma_pad_mask r) (dma_alignment r) (rq_timeout r) v (limits r).
Definition set_limits (v : queue_limits) (r : queue_conf) : queue_conf :=
  QueueConf (make_request_fn r) (has_request_fn r) (prep_rq_fn r) (merge_bvec_fn r)
    (prepare_flush_fn r) (softirq_done_fn r) (rq_timed_out_fn r) (dma_drain_needed r)
    (lld_busy_fn r) (unplug_delay r) (bounce_gfp r) (queue_lock r) (nr_requests r)
    (nr_congestion_on r) (nr_congestion_off r) (nr_batching r) (dma_drain_buffer r)
    (dma_drain_size r) (dma_pad_mask r) (dma_alignment r) (rq_timeout r) (ra_pages r) v.

(** [struct blk_queue_tag].  [tag_map] is the bitmap, with one entry per bit of
    its words; its length and that of [tag_index] are the memory allocated. *)
Record blk_queue_tag := BlkQueueTag {
  tag_index : list (option rqid);
  tag_map : list bool;
  max_depth : Z;
  real_max_depth : Z;
  refcnt : Z
}.

Definition set_tag_index (v : list (option rqid)) (r : blk_queue_tag) : blk_queue_tag :=
  BlkQueueTag v (tag_map r) (max_depth r) (real_max_depth r) (refcnt r).
Definition set_tag_map (v : list bool) (r : blk_queue_tag) : blk_queue_tag :=
  BlkQueueTag (tag_index r) v (max_depth r) (real_max_depth r) (refcnt r).
Definition set_max_depth (v : Z) (r : blk_queue_tag) : blk_queue_tag :=
  BlkQueueTag (tag_index r) (tag_map r) v (real_max_depth r) (refcnt r).
Definition set_real_max_depth (v : Z) (r : blk_queue_tag) : blk_queue_tag :=
  BlkQueueTag (tag_index r) (tag_map r) (max_depth r) v (refcnt r).
Definition set_refcnt (v : Z) (r : blk_queue_tag) : blk_queue_tag :=
  BlkQueueTag (tag_index r) (tag_map r) (max_depth r) (real_max_depth r) v.

(** [struct request_queue].  [in_flight], [rq_count] and [starved] are the pairs
    [in_flight[2]], [rq.count[2]] and [rq.starved[2]]: first the index 0 (async),
    then 1 (sync); [elvpriv] is [rq.elvpriv], [congested] the pair of congestion
    bits of [backing_dev_info.state] and [wakeups] counts the calls of [wake_up]
    on [rq.wait[2]].  [timeout_timer] is the expiry time of the timer [timeout], if
    it is pending. *)
Record request_queue := RequestQueue {
  last_merge : option rqid;
  end_sector : Z;
  boundary_rq : option rqid;
  nr_sorted : Z;
  in_flight : Z * Z;
  queue_flags : Z;
  rq_count : Z * Z;
  starved : Z * Z;
  wakeups : Z * Z;
  elvpriv : Z;
  congested : bool * bool;
  unplug_thresh : Z;
  ordered : Z;
  next_ordered : Z;
  ordseq : Z;
  orderr : Z;
  ordcolor : Z;
  orig_bar_rq : option rqid;
  queue_tags : option blk_queue_tag;
  timeout_timer : option Z;
  conf : queue_conf
}.

Definition set_last_merge (v : option rqid) (r : request_queue) : request_queue :=
  RequestQueue v (end_sector r) (boundary_rq r) (nr_sorted r) (in_flight r) (queue_flags r)
    (rq_count r) (starved r) (wakeups r) (elvpriv r) (congested r) (unplug_thresh r) (ordered r)
    (next_ordered r) (ordseq r) (orderr r) (ordcolor r) (orig_bar_rq r) (queue_tags r)
    (timeout_timer r) (conf r).
Definition set_end_sector (v : Z) (r : request_queue) : request_queue :=
  RequestQueue (last_merge r) v (boundary_rq r) (nr_sorted r) (in_flight r) (queue_flags r)
    (rq_count r) (starved r) (wakeups r) (elvpriv r) (congested r) (unplug_thresh r) (ordered r)
    (next_ordered r) (ordseq r) (orderr r) (ordcolor r) (orig_bar_rq r) (queue_tags r)
    (timeout_timer r) (conf r).
Definition set_boundary_rq (v : option rqid) (r : request_queue) : request_queue :=
  RequestQueue (last_merge r) (end_sector r) v (nr_sorted r) (in_flight r) (queue_flags r)
    (rq_count r) (starved r) (wakeups r) (elvpriv r) (congested r) (unplug_thresh r) (ordered r)
    (next_ordered r) (ordseq r) (orderr r) (ordcolor r) (orig_bar_rq r) (queue_tags r)
    (timeout_timer r) (conf r).
Definition set_nr_sorted (v : Z) (r : request_queue) : request_queue :=
  RequestQueue (last_merge r) (end_sector r) (boundary_rq r) v (in_flight r) (queue_flags r)
    (rq_count r) (starved r) (wakeups r) (elvpriv r) (congested r) (unplug_thresh r) (ordered r)
    (next_ordered r) (ordseq r) (orderr r) (ordcolor r) (orig_bar_rq r) (queue_tags r)
    (timeout_timer r) (conf r).
Definition set_in_flight (v : Z * Z) (r : request_queue) : request_queue :=
  RequestQueue (last_merge r) (end_sector r) (boundary_rq r) (nr_sorted r) v (queue_flags r)
    (rq_count r) (starved r) (wakeups r) (elvpriv r) (congested r) (unplug_thresh r) (ordered r)
    (next_ordered r) (ordseq r) (orderr r) (ordcolor r) (orig_bar_rq r) (queue_tags r)
    (timeout_timer r) (conf r).
Definition set_queue_flags (v : Z) (r : request_queue) : request_queue :=
  RequestQueue (last_merge r) (end_sector r) (boundary_rq r) (nr_sorted r) (in_flight r) v
    (rq_count r) (starved r) (wakeups r) (elvpriv r) (congested r) (unplug_thresh r) (ordered r)
    (next_ordered r) (ordseq r) (orderr r) (ordcolor r) (orig_bar_rq r) (queue_tags r)
    (timeout_timer r) (conf r).
Definition set_rq_count (v : Z * Z) (r : request_queue) : request_queue :=
  RequestQueue (last_merge r) (end_sector r) (boundary_rq r) (nr_sorted r) (in_flight r)
    (queue_flags r) v (starved r) (wakeups r) (elvpriv r) (congested r) (unplug_thresh r)
    (ordered r) (next_ordered r) (ordseq r) (orderr r) (ordcolor r) (orig_bar_rq r)
    (queue_tags r) (timeout_timer r) (conf r).
Definition set_starved (v : Z * Z) (r : request_queue) : request_queue :=
  RequestQueue (last_merge r) (end_sector r) (boundary_rq r) (nr_sorted r) (in_flight r)
    (queue_flags r) (rq_count r) v (wakeups r) (elvpriv r) (congested r) (unplug_thresh r)
    (ordered r) (next_ordered r) (ordseq r) (orderr r) (ordcolor r) (orig_bar_rq r)
    (queue_tags r) (timeout_timer r) (conf r).
Definition set_wakeups (v : Z * Z) (r : request_queue) : request_queue :=
  RequestQueue (last_merge r) (end_sector r) (boundary_rq r) (nr_sorted r) (in_flight r)
    (queue_flags r) (rq_count r) (starved r) v (elvpriv r) (congested r) (unplug_thresh r)
    (ordered r) (next_ordered r) (ordseq r) (orderr r) (ordcolor r) (orig_bar_rq r)
    (queue_tags r) (timeout_timer r) (conf r).
Definition set_elvpriv (v : Z) (r : request_queue) : request_queue :=
  RequestQueue (last_merge r) (end_sector r) (boundary_rq r) (nr_sorted r) (in_flight r)
    (queue_flags r) (rq_count r) (starved r) (wakeups r) v (congested r) (unplug_thresh r)
    (ordered r) (next_ordered r) (ordseq r) (orderr r) (ordcolor r) (orig_bar_rq r)
    (queue_tags r) (timeout_timer r) (conf r).
Definition set_congested (v : bool * bool) (r : request_queue) : request_queue :=
  RequestQueue (last_merge r) (end_sector r) (boundary_rq r) (nr_sorted r) (in_flight r)
    (queue_flags r) (rq_count r) (starved r) (wakeups r) (elvpriv r) v (unplug_thresh r)
    (ordered r) (next_ordered r) (ordseq r) (orderr r) (ordcolor r) (orig_bar_rq r)
    (queue_tags r) (timeout_timer r) (conf r).
Definition set_unplug_thresh (v : Z) (r : request_queue) : request_queue :=
  RequestQueue (last_merge r) (end_sector r) (boundary_rq r) (nr_sorted r) (in_flight r)
    (queue_flags r) (rq_count r) (starved r) (wakeups r) (elvpriv r) (congested r) v (ordered r)
    (next_ordered r) (ordseq r) (orderr r) (ordcolor r) (orig_bar_rq r) (queue_tags r)
    (timeout_timer r) (conf r).
Definition set_ordered (v : Z) (r : request_queue) : request_queue :=
  RequestQueue (last_merge r) (end_sector r) (boundary_rq r) (nr_sorted r) (in_flight r)
    (queue_flags r) (rq_count r) (starved r) (wakeups r) (elvpriv r) (congested r)
    (unplug_thresh r) v (next_ordered r) (ordseq r) (orderr r) (ordcolor r) (orig_bar_rq r)
    (queue_tags r) (timeout_timer r) (conf r).
Definition set_next_ordered (v : Z) (r : request_queue) : request_queue :=
  RequestQueue (last_merge r) (end_sector r) (boundary_rq r) (nr_sorted r) (in_flight r)
    (queue_flags r) (rq_count r) (starved r) (wakeups r) (elvpriv r) (congested r)
    (unplug_thresh r) (ordered r) v (ordseq r) (orderr r) (ordcolor r) (orig_bar_rq r)
    (queue_tags r) (timeout_timer r) (conf r).
Definition set_ordseq (v : Z) (r : request_queue) : request_queue :=
  RequestQueue (last_merge r) (end_sector r) (boundary_rq r) (nr_sorted r) (in_flight r)
    (queue_flags r) (rq_count r) (starved r) (wakeups r) (elvpriv r) (congested r)
    (unplug_thresh r) (ordered r) (next_ordered r) v (orderr r) (ordcolor r) (orig_bar_rq r)
    (queue_tags r) (timeout_timer r) (conf r).
Definition set_orderr (v : Z) (r : request_queue) : request_queue :=
  RequestQueue (last_merge r) (end_sector r) (boundary_rq r) (nr_sorted r) (in_flight r)
    (queue_flags r) (rq_count r) (starved r) (wakeups r) (elvpriv r) (congested r)
    (unplug_thresh r) (ordered r) (next_ordered r) (ordseq r) v (ordcolor r) (orig_bar_rq r)
    (queue_tags r) (timeout_timer r) (conf r).
Definition set_ordcolor (v : Z) (r : request_queue) : request_queue :=
  RequestQueue (last_merge r) (end_sector r) (boundary_rq r) (nr_sorted r) (in_flight r)
    (queue_flags r) (rq_count r) (starved r) (wakeups r) (elvpriv r) (congested r)
    (unplug_thresh r) (ordered r) (next_ordered r) (ordseq r) (orderr r) v (orig_bar_rq r)
    (queue_tags r) (timeout_timer r) (conf r).
Definition set_orig_bar_rq (v : option rqid) (r : request_queue) : request_queue :=
  RequestQueue (last_merge r) (end_sector r) (boundary_rq r) (nr_sorted r) (in_flight r)
    (queue_flags r) (rq_count r) (starved r) (wakeups r) (elvpriv r) (congested r)
    (unplug_thresh r) (ordered r) (next_ordered r) (ordseq r) (orderr r) (ordcolor r) v
    (queue_tags r) (timeout_timer r) (conf r).
Definition set_queue_tags (v : option blk_queue_tag) (r : request_queue) : request_queue :=
  RequestQueue (last_merge r) (end_sector r) (boundary_rq r) (nr_sorted r) (in_flight r)
    (queue_flags r) (rq_count r) (starved r) (wakeups r) (elvpriv r) (congested r)
    (unplug_thresh r) (ordered r) (next_ordered r) (ordseq r) (orderr r) (ordcolor r)
    (orig_bar_rq r) v (timeout_timer r) (conf r).
Definition set_timeout_timer (v : option Z) (r : request_queue) : request_queue :=
  RequestQueue (last_merge r) (end_sector r) (boundary_rq r) (nr_sorted r) (in_flight r)
    (queue_flags r) (rq_count r) (starved r) (wakeups r) (elvpriv r) (congested r)
    (unplug_thresh r) (ordered r) (next_ordered r) (ordseq r) (orderr r) (ordcolor r)
    (orig_bar_rq r) (queue_tags r) v (conf r).
Definition set_conf (v : queue_conf) (r : request_queue) : request_queue :=
  RequestQueue (last_merge r) (end_sector r) (boundary_rq r) (nr_sorted r) (in_flight r)
    (queue_flags r) (rq_count r) (starved r) (wakeups r) (elvpriv r) (congested r)
    (unplug_thresh r) (ordered r) (next_ordered r) (ordseq r) (orderr r) (ordcolor r)
    (orig_bar_rq r) (queue_tags r) (timeout_timer r) v.

Definition test_bit (n x : Z) : bool := Z.testbit x n.
Definition blk_queue_plugged (q : request_queue) : bool := test_bit QUEUE_FLAG_PLUGGED (queue_flags q).
Definition blk_queue_stopped (q : request_queue) : bool := test_bit QUEUE_FLAG_STOPPED (queue_flags q).
Definition blk_queue_nomerges (q : request_queue) : bool := test_bit QUEUE_FLAG_NOMERGES (queue_flags q).
Definition blk_queue_noxmerges (q : request_queue) : bool := test_bit QUEUE_FLAG_NOXMERGES (queue_flags q).
Definition blk_queue_nonrot (q : request_queue) : bool := test_bit QUEUE_FLAG_NONROT (queue_flags q).
Definition blk_queue_tagged (q : request_queue) : bool := test_bit QUEUE_FLAG_QUEUED (queue_flags q).
Definition blk_queue_io_stat (q : request_queue) : bool := test_bit QUEUE_FLAG_IO_STAT (queue_flags q).
Definition blk_queue_discard (q : request_queue) : bool := test_bit QUEUE_FLAG_DISCARD (queue_flags q).
Definition queue_in_flight (q : request_queue) : Z := s32 (fst (in_flight q) + snd (in_flight q)).

(** [__set_bit] and [__clear_bit] on the queue flags. *)
Definition flag_set (flag : Z) (q : request_queue) : request_queue :=
  set_queue_flags (Z.setbit (queue_flags q) flag) q.
Definition flag_clear (flag : Z) (q : request_queue) : request_queue :=
  set_queue_flags (Z.clearbit (queue_flags q) flag) q.

(** The entry [sync] of a two-element array, and its update. *)
Definition at_sync {A} (p : A * A) (sync : bool) : A := if sync then snd p else fst p.
Definition upd_sync {A} (f : A → A) (sync : bool) (p : A * A) : A * A :=
  if sync then (fst p, f (snd p)) else (f (fst p), snd p).

(** ** The state of the block layer *)

(** Addresses of the [struct list_head]s: the dispatch queue [q->queue_head],
    the lists of the I/O scheduler (LOOK and noop have one, deadline two), the
    lists [q->tag_busy_list] and [q->timeout_list], the list of completed
    requests of each CPU, the list head on the stack of the function that is
    running, and the members [queuelist], [timeout_list] and [csd.list] of each
    request. *)
Inductive laddr :=
| queue_head
| sched_head (i : nat)
| tag_busy_list
| timeout_head
| blk_cpu_done (cpu : nat)
| local_list
| queuelist (r : rqid)
| timeout_list (r : rqid)
| csd_list (r : rqid).

#[global] Instance laddr_eq_dec : EqDecision laddr.
Proof. solve_decision. Defined.
#[global] Instance laddr_countable : Countable laddr.
Proof.
  refine (inj_countable'
    (λ a, match a with queue_head => inl (inl 0%nat) | tag_busy_list => inl (inl 1%nat)
                     | timeout_head => inl (inl 2%nat) | local_list => inl (inl 3%nat)
                     | sched_head i => inl (inr (inl i)) | blk_cpu_done c => inl (inr (inr c))
                     | queuelist r => inr (inl r) | timeout_list r => inr (inr (inl r))
                     | csd_list r => inr (inr (inr r)) end)
    (λ s, match s with inl (inl 0%nat) => queue_head | inl (inl 1%nat) => tag_busy_list
                     | inl (inl 2%nat) => timeout_head | inl (inl _) => local_list
                     | inl (inr (inl i)) => sched_head i | inl (inr (inr c)) => blk_cpu_done c
                     | inr (inl r) => queuelist r | inr (inr (inl r)) => timeout_list r
                     | inr (inr (inr r)) => csd_list r end) _).
  by intros [].
Defined.

(** Work signalled to a CPU: the block softirq, or a call of [trigger_softirq]. *)
Inductive irq_work :=
| BLOCK_SOFTIRQ (cpu : nat)
| TRIGGER_SOFTIRQ (cpu : nat) (r : rqid).

(** [links] is the memory of the list nodes, [hash] the merge hash
    [q->elevator->hash], [elevator_data] the scheduler's private data and
    [kblockd] counts the work items queued on [kblockd].  [ended] is the log of
    the bios handed back to their owners by [bio_endio], latest first, with the
    error they were ended with; [irqs] is the work signalled to CPUs. *)
Record world (D : Type) := World {
  rqs : gmap rqid request;
  links : gmap laddr (list_head laddr);
  hash : list (list rqid);
  queue : request_queue;
  elevator_data : D;
  jiffies : Z;
  kblockd : Z;
  ended : list (bio * Z);
  irqs : list irq_work
}.
Arguments World {D}.
Arguments rqs {D}.
Arguments links {D}.
Arguments hash {D}.
Arguments queue {D}.
Arguments elevator_data {D}.
Arguments jiffies {D}.
Arguments kblockd {D}.
Arguments ended {D}.
Arguments irqs {D}.

Definition set_rqs {D} (v : gmap rqid request) (r : world D) : world D :=
  World v (links r) (hash r) (queue r) (elevator_data r) (jiffies r) (kblockd r) (ended r)
    (irqs r).
Definition set_links {D} (v : gmap laddr (list_head laddr)) (r : world D) : world D :=
  World (rqs r) v (hash r) (queue r) (elevator_data r) (jiffies r) (kblockd r) (ended r)
    (irqs r).
Definition set_hash {D} (v : list (list rqid)) (r : world D) : world D :=
  World (rqs r) (links r) v (queue r) (elevator_data r) (jiffies r) (kblockd r) (ended r)
    (irqs r).
Definition set_queue {D} (v : request_queue) (r : world D) : world D :=
  World (rqs r) (links r) (hash r) v (elevator_data r) (jiffies r) (kblockd r) (ended r)
    (irqs r).
Definition set_elevator_data {D} (v : D) (r : world D) : world D :=
  World (rqs r) (links r) (hash r) (queue r) v (jiffies r) (kblockd r) (ended r) (irqs r).
Definition set_jiffies {D} (v : Z) (r : world D) : world D :=
  World (rqs r) (links r) (hash r) (queue r) (elevator_data r) v (kblockd r) (ended r) (irqs r).
Definition set_kblockd {D} (v : Z) (r : world D) : world D :=
  World (rqs r) (links r) (hash r) (queue r) (elevator_data r) (jiffies r) v (ended r) (irqs r).
Definition set_ended {D} (v : list (bio * Z)) (r : world D) : world D :=
  World (rqs r) (links r) (hash r) (queue r) (elevator_data r) (jiffies r) (kblockd r) v
    (irqs r).
Definition set_irqs {D} (v : list irq_work) (r : world D) : world D :=
  World (rqs r) (links r) (hash r) (queue r) (elevator_data r) (jiffies r) (kblockd r) (ended r)
    v.

(** Reduce projections of world updates. *)
Tactic Notation "wcbn" := cbn [rqs links hash queue elevator_data jiffies kblockd ended irqs set_rqs set_links
  set_hash set_queue set_elevator_data set_jiffies set_kblockd set_ended set_irqs].

Tactic Notation "wcbn" "in" hyp(H) := cbn [rqs links hash queue elevator_data jiffies kblockd ended
  irqs set_rqs set_links set_hash set_queue set_elevator_data set_jiffies set_kblockd set_ended
  set_irqs] in H.

Section access.
Context {D : Type}.

(** [rq->field] and assignments to request and queue fields. *)
Definition rq_get (r : rqid) : ST (world D) request := λ w,
  match rqs w !! r with Some rq => Ok (rq, w) | None => Err OOPS end.
Definition rq_upd (r : rqid) (f : request → request) : ST (world D) unit := λ w,
  match rqs w !! r with
  | Some rq => Ok (tt, set_rqs (<[r := f rq]> (rqs w)) w)
  | None => Err OOPS
  end.
Definition q_get : ST (world D) request_queue := gets queue.
Definition q_upd (f : request_queue → request_queue) : ST (world D) unit :=
  modify (λ w, set_queue (f (queue w)) w).
Definition data_get : ST (world D) D := gets elevator_data.
Definition data_upd (f : D → D) : ST (world D) unit :=
  modify (λ w, set_elevator_data (f (elevator_data w)) w).

(** A list operation on the nodes of the block layer. *)
Definition on_links {X} (m : ST (gmap laddr (list_head laddr)) X) : ST (world D) X :=
  zoom links set_links m.

(** [list_entry (p, struct request, queuelist)]: the request a [queuelist]
    member belongs to.  Applied to a list head it would point into the middle
    of nowhere. *)
Definition list_entry_rq (p : ptr laddr) : res rqid :=
  match p with Ptr (queuelist r) => Ok r | _ => Err OOPS end.

(** [list_entry (p, struct request, timeout_list)] *)
Definition list_entry_timeout (p : ptr laddr) : res rqid :=
  match p with Ptr (timeout_list r) => Ok r | _ => Err OOPS end.

(** [list_for_each_safe]: the successor [n] is read before the body runs, so
    that the body may unlink the node it is given; it may also put it back at
    the end of the list, once, which the fuel allows for. *)
Fixpoint safe_loop {X} (head : ptr laddr) (body : ptr laddr → X → ST (world D) X)
    (fuel : nat) (pos n : ptr laddr) (x : X) : ST (world D) X :=
  match fuel with
  | O => raise HANG
  | S fuel =>
    if bool_decide (pos = head) then mret x else
    x ← body pos x;
    n' ← on_links (get_next n);
    safe_loop head body fuel n n' x
  end.
Definition list_for_each_safe {X} (head : ptr laddr) (body : ptr laddr → X → ST (world D) X)
    (x : X) : ST (world D) X :=
  w ← get;
  pos ← on_links (get_next head);
  n ← on_links (get_next pos);
  safe_loop head body (S (2 * size (links w))) pos n x.

Definition queue_flag_set (flag : Z) : ST (world D) unit := q_upd (flag_set flag).
Definition queue_flag_clear (flag : Z) : ST (world D) unit := q_upd (flag_clear flag).
Definition queue_flag_test_and_set (flag : Z) : ST (world D) bool :=
  q ← q_get;
  if negb (test_bit flag (queue_flags q)) then queue_flag_set flag;; mret false
  else mret true.
Definition queue_flag_test_and_clear (flag : Z) : ST (world D) bool :=
  q ← q_get;
  if test_bit flag (queue_flags q) then queue_flag_clear flag;; mret true
  else mret false.
End access.
