(* ===== verification/Samples.v ===== *)
(** * Concrete states

    Requests, queues and worlds on which the definitions can be evaluated; the
    theorems are instantiated on them. *)

From S2P Require Import Prelude KList Request.

Local Open Scope Z_scope.

(** A file system request of one bio of [n] sectors at [pos]; [rw] is 1 for a
    write. *)
Definition sample_rq (rw pos n : Z) : request :=
  {| cmd_flags := Z.lor rw REQ_ELVPRIV; cmd_type := REQ_TYPE_FS; atomic_flags := 0; cpu := 0;
     __data_len := n * 512; __sector := pos;
     bios := [{| bi_id := 1; bi_sector := pos; bi_disk := 1; bi_flags := 0; bi_rw := rw;
                 bi_idx := 0; bi_phys_segments := 0; bi_size := n * 512; bi_seg_front_size := 0;
                 bi_seg_back_size := 0; bi_has_vec := true; bi_io_vec := [BioVec 0 (n * 512) 0];
                 bi_comp_cpu := 0; bi_integrity := false |}];
     rq_disk := Some 1%positive; start_time := 0; nr_phys_segments := 1; ioprio := 0;
     ref_count := 1; special := false; tag := -1; errors := 0;
     extra_len := 0; resid_len := 0; deadline := 0; timeout := 0; end_io := None;
     next_rq := None |}.

(** The limits a queue has after [blk_queue_make_request]. *)
Definition sample_limits : queue_limits :=
  {| bounce_pfn := 0xfffff; seg_boundary_mask := 0xffffffff; max_hw_sectors := 255;
     max_sectors := 255; max_segment_size := 65536; physical_block_size := 512;
     alignment_offset := 0; io_min := 512; io_opt := 0; max_discard_sectors := 0;
     discard_granularity := 0; discard_alignment := 0; logical_block_size := 512;
     max_segments := 128; misaligned := 0; discard_misaligned := 0; no_cluster := 0;
     discard_zeroes_data := -1 |}.

Definition sample_conf : queue_conf :=
  {| has_request_fn := true; make_request_fn := Some 1%positive; prep_rq_fn := None; merge_bvec_fn := None;
     prepare_flush_fn := None; softirq_done_fn := None; rq_timed_out_fn := None;
     dma_drain_needed := None; lld_busy_fn := None; unplug_delay := 1; bounce_gfp := 16;
     queue_lock := true; nr_requests := 128; nr_congestion_on := 113;
     nr_congestion_off := 103; nr_batching := 32; dma_drain_buffer := 0;
     dma_drain_size := 0; dma_pad_mask := 0; dma_alignment := 511; rq_timeout := 0;
     ra_pages := 32; limits := sample_limits |}.

Definition sample_queue : request_queue :=
  {| last_merge := None; end_sector := 0; boundary_rq := None; nr_sorted := 0;
     in_flight := (0, 0); queue_flags := 0; rq_count := (0, 0); starved := (0, 0); wakeups := (0, 0);
     elvpriv := 0; congested := (false, false); unplug_thresh := 4; ordered := 0; next_ordered := 0; ordseq := 0; orderr := 0;
     ordcolor := 0; orig_bar_rq := None; queue_tags := None; timeout_timer := None;
     conf := sample_conf |}.

(** The requests [tbl], of which [ds] are on the dispatch queue and [xs] on the
    scheduler's list; the nodes of the others are linked to themselves. *)
Definition sample_world {D} (data : D) (tbl : list (rqid * request)) (ds xs : list rqid) : world D :=
  {| rqs := list_to_map tbl;
     links := ring_heap queue_head (queuelist <$> ds) ∪ ring_heap (sched_head 0) (queuelist <$> xs)
                ∪ list_to_map ((λ p, (queuelist p.1, ListHead (Ptr (queuelist p.1)) (Ptr (queuelist p.1)))) <$> tbl);
     hash := replicate 64 [];
     queue := set_nr_sorted (Z.of_nat (length xs)) sample_queue;
     elevator_data := data; jiffies := 0; kblockd := 0; ended := []; irqs := [] |}.
