(* ===== verification/Elevator.v ===== *)
(** * The elevator core ([block/elevator.c])

    The merge hash, the dispatch queue and its sorted insertion, the queueing
    entry points with their insertion points, merging decisions, draining, and
    the plugging helpers of [block/blk-core.c] they call.  An I/O scheduler is
    a record of operations, as in the C code; the functions here are generic
    in it.  The driver's [request_fn] is a parameter. *)

From S2P Require Import Prelude KList Request.

Local Open Scope Z_scope.

(** ** Hashing ([include/linux/hash.h], 64-bit longs) *)
Definition GOLDEN_RATIO_PRIME_64 : Z := 0x9e37fffffffc0001.

Definition hash_64 (val bits : Z) : Z :=
  let hash := val in
  let n := hash in
  let n := u64 (Z.shiftl n 18) in
  let hash := u64 (hash - n) in
  let n := u64 (Z.shiftl n 33) in
  let hash := u64 (hash - n) in
  let n := u64 (Z.shiftl n 3) in
  let hash := u64 (hash + n) in
  let n := u64 (Z.shiftl n 3) in
  let hash := u64 (hash - n) in
  let n := u64 (Z.shiftl n 4) in
  let hash := u64 (hash + n) in
  let n := u64 (Z.shiftl n 2) in
  let hash := u64 (hash + n) in
  Z.shiftr hash (64 - bits).

Definition elv_hash_shift : Z := 6.
Definition ELV_HASH_BLOCK (sec : Z) : Z := Z.shiftr sec 3.
Definition ELV_HASH_FN (sec : Z) : Z := hash_64 (ELV_HASH_BLOCK sec) elv_hash_shift.
Definition ELV_HASH_ENTRIES : Z := Z.shiftl 1 elv_hash_shift.
Definition rq_hash_key (r : request) : Z := u64 (blk_rq_pos r + blk_rq_sectors r).

(** Return values of merge decisions and insertion points ([elevator.h]). *)
Definition ELEVATOR_NO_MERGE : Z := 0.
Definition ELEVATOR_FRONT_MERGE : Z := 1.
Definition ELEVATOR_BACK_MERGE : Z := 2.
Definition ELEVATOR_INSERT_FRONT : Z := 1.
Definition ELEVATOR_INSERT_BACK : Z := 2.
Definition ELEVATOR_INSERT_SORT : Z := 3.
Definition ELEVATOR_INSERT_REQUEUE : Z := 4.
Definition ELV_MQUEUE_MAY : Z := 0.

(** Steps of an ordered sequence ([blkdev.h]). *)
Definition QUEUE_ORDSEQ_STARTED : Z := 0x01.
Definition QUEUE_ORDSEQ_DRAIN : Z := 0x02.
Definition QUEUE_ORDSEQ_PREFLUSH : Z := 0x04.
Definition QUEUE_ORDSEQ_BAR : Z := 0x08.
Definition QUEUE_ORDSEQ_POSTFLUSH : Z := 0x10.
Definition QUEUE_ORDSEQ_DONE : Z := 0x20.

Section base.
Context {D : Type}.

(** *** The merge hash *)

(** [ELV_ON_HASH(rq)]: the node is on some chain. *)
Definition ELV_ON_HASH (r : rqid) (h : list (list rqid)) : bool :=
  existsb (λ b, bool_decide (r ∈ b)) h.

(** [hlist_del_init(&rq->hash)]: unlink the node from the chain it is on. *)
Definition __elv_rqhash_del (r : rqid) : ST (world D) unit :=
  modify (λ w, set_hash (map (filter (λ x, x ≠ r)) (hash w)) w).

Definition elv_rqhash_del (r : rqid) : ST (world D) unit :=
  h ← gets hash;
  if ELV_ON_HASH r h then __elv_rqhash_del r else mret tt.

(** [hlist_add_head(&rq->hash, &e->hash[i])]. *)
Definition elv_rqhash_add (r : rqid) : ST (world D) unit :=
  h ← gets hash;
  bug_on (ELV_ON_HASH r h);;
  rq ← rq_get r;
  let i := Z.to_nat (ELV_HASH_FN (rq_hash_key rq)) in
  chain ← lift (deref (h !! i));
  modify (λ w, set_hash (<[i := r :: chain]> h) w).

Definition elv_rqhash_reposition (r : rqid) : ST (world D) unit :=
  __elv_rqhash_del r;;
  elv_rqhash_add r.

(** The loop of [elv_rqhash_find] over (a snapshot of) one chain. *)
Fixpoint rqhash_scan (offset : Z) (chain : list rqid) : ST (world D) (option rqid) :=
  match chain with
  | [] => mret None
  | r :: chain =>
    h ← gets hash;
    bug_on (negb (ELV_ON_HASH r h));;
    rq ← rq_get r;
    if negb (rq_mergeable rq) then
      __elv_rqhash_del r;;
      rqhash_scan offset chain
    else if rq_hash_key rq =? offset then mret (Some r)
    else rqhash_scan offset chain
  end.

Definition elv_rqhash_find (offset : Z) : ST (world D) (option rqid) :=
  h ← gets hash;
  chain ← lift (deref (h !! Z.to_nat (ELV_HASH_FN offset)));
  rqhash_scan offset chain.

(** *** The dispatch queue *)
Definition stop_flags : Z := Z.lor (Z.lor REQ_SOFTBARRIER REQ_HARDBARRIER) REQ_STARTED.

(** The body of the backward scan of [elv_dispatch_sort]: does the scan for a
    place for [rq] pass the queued request [pos]? *)
Definition sort_step (boundary : Z) (rq pos : request) : ctl unit :=
  if negb (eqb (blk_discard_rq rq) (blk_discard_rq pos)) then Break tt
  else if negb (rq_data_dir rq =? rq_data_dir pos) then Break tt
  else if tst (cmd_flags pos) stop_flags then Break tt
  else if blk_rq_pos rq >=? boundary then
    if blk_rq_pos pos <? boundary then Continue tt
    else if blk_rq_pos rq >=? blk_rq_pos pos then Break tt else Continue tt
  else
    if blk_rq_pos pos >=? boundary then Break tt
    else if blk_rq_pos rq >=? blk_rq_pos pos then Break tt else Continue tt.

Definition elv_dispatch_sort (r : rqid) : ST (world D) unit :=
  q ← q_get;
  when (bool_decide (last_merge q = Some r)) (q_upd (set_last_merge None));;
  elv_rqhash_del r;;
  q_upd (λ q, set_nr_sorted (u32 (nr_sorted q - 1)) q);;
  q ← q_get;
  let boundary := end_sector q in
  rq ← rq_get r;
  tbl ← gets rqs;
  '(entry, _) ← on_links (list_for_each_prev (Ptr queue_head)
     (λ entry _, p ← list_entry_rq entry; pos ← deref (tbl !! p); mret (sort_step boundary rq pos))
     tt);
  on_links (list_add (Ptr (queuelist r)) entry).

Definition elv_dispatch_add_tail (r : rqid) : ST (world D) unit :=
  q ← q_get;
  when (bool_decide (last_merge q = Some r)) (q_upd (set_last_merge None));;
  elv_rqhash_del r;;
  q_upd (λ q, set_nr_sorted (u32 (nr_sorted q - 1)) q);;
  rq ← rq_get r;
  q_upd (set_end_sector (rq_end_sector rq));;
  q_upd (set_boundary_rq (Some r));;
  on_links (list_add_tail (Ptr (queuelist r)) (Ptr queue_head)).

(** *** Ordered sequences: where a request belongs ([block/blk-barrier.c]) *)
Definition blk_ordered_req_seq (r : rqid) (rq : request) (q : request_queue)
    (tbl : gmap rqid request) : res Z :=
  if ordseq q =? 0 then Err BUG else
  match r with
  | pre_flush_rq => Ok QUEUE_ORDSEQ_PREFLUSH
  | bar_rq => Ok QUEUE_ORDSEQ_BAR
  | post_flush_rq => Ok QUEUE_ORDSEQ_POSTFLUSH
  | Rq _ =>
    if negb (blk_fs_request rq) then Ok QUEUE_ORDSEQ_DRAIN else
    o ← deref (orig_bar_rq q);
    orig ← deref (tbl !! o);
    if Z.land (cmd_flags rq) REQ_ORDERED_COLOR =? Z.land (cmd_flags orig) REQ_ORDERED_COLOR
    then Ok QUEUE_ORDSEQ_DRAIN else Ok QUEUE_ORDSEQ_DONE
  end.

(** *** Plugging ([block/blk-core.c]) *)
Definition blk_plug_device : ST (world D) unit :=
  q ← q_get;
  if blk_queue_stopped q then mret tt else
  (* a fresh plug also arms the unplug timer *)
  queue_flag_test_and_set QUEUE_FLAG_PLUGGED;;
  mret tt.

Definition blk_remove_plug : ST (world D) bool :=
  queue_flag_test_and_clear QUEUE_FLAG_PLUGGED.
End base.

(** ** I/O schedulers: [struct elevator_ops]

    [elevator_init_fn] is told whether the allocation of its private data
    succeeds; it works on the list nodes and returns the data, or [None]. *)
Record elevator_ops (D : Type) := ElevatorOps {
  elevator_merge_fn : option (bio → ST (world D) (Z * option rqid));
  elevator_merged_fn : option (rqid → Z → ST (world D) unit);
  elevator_merge_req_fn : option (rqid → rqid → ST (world D) unit);
  elevator_allow_merge_fn : option (rqid → bio → ST (world D) bool);
  elevator_dispatch_fn : option (Z → ST (world D) Z);
  elevator_add_req_fn : option (rqid → ST (world D) unit);
  elevator_activate_req_fn : option (rqid → ST (world D) unit);
  elevator_deactivate_req_fn : option (rqid → ST (world D) unit);
  elevator_queue_empty_fn : option (ST (world D) bool);
  elevator_completed_req_fn : option (rqid → ST (world D) unit);
  elevator_former_req_fn : option (rqid → ST (world D) (option rqid));
  elevator_latter_req_fn : option (rqid → ST (world D) (option rqid));
  elevator_set_req_fn : option (rqid → Z → ST (world D) Z);
  elevator_put_req_fn : option (rqid → ST (world D) unit);
  elevator_may_queue_fn : option (Z → ST (world D) Z);
  elevator_init_fn : option (bool → ST (gmap laddr (list_head laddr)) (option D));
  elevator_exit_fn : option (ST (world D) unit)
}.
Arguments ElevatorOps {D}.
Arguments elevator_merge_fn {D}.
Arguments elevator_merged_fn {D}.
Arguments elevator_merge_req_fn {D}.
Arguments elevator_allow_merge_fn {D}.
Arguments elevator_dispatch_fn {D}.
Arguments elevator_add_req_fn {D}.
Arguments elevator_activate_req_fn {D}.
Arguments elevator_deactivate_req_fn {D}.
Arguments elevator_queue_empty_fn {D}.
Arguments elevator_completed_req_fn {D}.
Arguments elevator_former_req_fn {D}.
Arguments elevator_latter_req_fn {D}.
Arguments elevator_set_req_fn {D}.
Arguments elevator_put_req_fn {D}.
Arguments elevator_may_queue_fn {D}.
Arguments elevator_init_fn {D}.
Arguments elevator_exit_fn {D}.

Section core.
Context {D : Type} (ops : elevator_ops D) (request_fn : ST (world D) unit).

Definition elv_iosched_allow_merge (r : rqid) (b : bio) : ST (world D) bool :=
  match elevator_allow_merge_fn ops with
  | Some f => f r b
  | None => mret true
  end.

Definition elv_rq_merge_ok (r : rqid) (b : bio) : ST (world D) bool :=
  rq ← rq_get r;
  if negb (rq_mergeable rq) then mret false else
  b0 ← lift (deref (head (bios rq)));
  if negb (eqb (bio_rw_flagged b BIO_RW_DISCARD) (bio_rw_flagged b0 BIO_RW_DISCARD))
  then mret false
  else if negb (bio_data_dir b =? rq_data_dir rq) then mret false
  else if negb (bool_decide (rq_disk rq = Some (bi_disk b))) || special rq then mret false
  else if negb (eqb (bi_integrity b) (blk_integrity_rq rq)) then mret false
  else ok ← elv_iosched_allow_merge r b;
  if negb ok then mret false else mret true.

Definition elv_try_merge (r : rqid) (b : bio) : ST (world D) Z :=
  ok ← elv_rq_merge_ok r b;
  if (ok : bool) then
    rq ← rq_get r;
    if u64 (blk_rq_pos rq + blk_rq_sectors rq) =? bi_sector b
    then mret ELEVATOR_BACK_MERGE
    else if u64 (blk_rq_pos rq - bio_sectors b) =? bi_sector b
    then mret ELEVATOR_FRONT_MERGE
    else mret ELEVATOR_NO_MERGE
  else mret ELEVATOR_NO_MERGE.

(** Stage two of [elv_merge], after the one-hit cache: hash lookup, then the
    scheduler's own [elevator_merge_fn]. *)
Definition elv_merge_hash (b : bio) : ST (world D) (Z * option rqid) :=
  q ← q_get;
  if blk_queue_noxmerges q then mret (ELEVATOR_NO_MERGE, None) else
  found ← elv_rqhash_find (bi_sector b);
  back ← match found with
         | Some r => elv_rq_merge_ok r b
         | None => mret false
         end;
  if (back : bool) then mret (ELEVATOR_BACK_MERGE, found) else
  match elevator_merge_fn ops with
  | Some f => f b
  | None => mret (ELEVATOR_NO_MERGE, None)
  end.

Definition elv_merge (b : bio) : ST (world D) (Z * option rqid) :=
  q ← q_get;
  if blk_queue_nomerges q then mret (ELEVATOR_NO_MERGE, None) else
  match last_merge q with
  | Some lm =>
    ret ← elv_try_merge lm b;
    if negb (ret =? ELEVATOR_NO_MERGE) then mret (ret, Some lm)
    else elv_merge_hash b
  | None => elv_merge_hash b
  end.

Definition elv_merged_request (r : rqid) (type : Z) : ST (world D) unit :=
  match elevator_merged_fn ops with Some f => f r type | None => mret tt end;;
  when (type =? ELEVATOR_BACK_MERGE) (elv_rqhash_reposition r);;
  q_upd (set_last_merge (Some r)).

Definition elv_merge_requests (r next : rqid) : ST (world D) unit :=
  match elevator_merge_req_fn ops with Some f => f r next | None => mret tt end;;
  elv_rqhash_reposition r;;
  elv_rqhash_del next;;
  q_upd (λ q, set_nr_sorted (u32 (nr_sorted q - 1)) q);;
  q_upd (set_last_merge (Some r)).

(** [while (ops->elevator_dispatch_fn(q, 1));] *)
Fixpoint drain_loop (dispatch : Z → ST (world D) Z) (fuel : nat) : ST (world D) unit :=
  match fuel with
  | O => raise HANG
  | S fuel =>
    n ← dispatch 1;
    if n =? 0 then mret tt else drain_loop dispatch fuel
  end.

(** The complaint printed when requests remain does not change the state. *)
Definition elv_drain_elevator : ST (world D) unit :=
  dispatch ← lift (deref (elevator_dispatch_fn ops));
  w ← get;
  drain_loop dispatch (S (size (rqs w))).

Definition elv_queue_empty : ST (world D) bool :=
  e ← on_links (list_empty (Ptr queue_head));
  if negb e then mret false else
  match elevator_queue_empty_fn ops with
  | Some f => f
  | None => mret true
  end.

Definition __blk_run_queue : ST (world D) unit :=
  blk_remove_plug;;
  q ← q_get;
  if blk_queue_stopped q then mret tt else
  e ← elv_queue_empty;
  if (e : bool) then mret tt else
  reentered ← queue_flag_test_and_set QUEUE_FLAG_REENTER;
  if negb reentered then
    request_fn;;
    queue_flag_clear QUEUE_FLAG_REENTER
  else
    queue_flag_set QUEUE_FLAG_PLUGGED;;
    modify (λ w, set_kblockd (kblockd w + 1) w).

Definition __generic_unplug_device : ST (world D) unit :=
  q ← q_get;
  if blk_queue_stopped q then mret tt else
  plugged ← blk_remove_plug;
  if negb plugged && negb (blk_queue_nonrot q) then mret tt else
  request_fn.

(** The cases of the [switch] of [elv_insert]. *)
Definition elv_insert_front (r : rqid) : ST (world D) unit :=
  rq_upd r (λ rq, set_cmd_flags (Z.lor (cmd_flags rq) REQ_SOFTBARRIER) rq);;
  on_links (list_add (Ptr (queuelist r)) (Ptr queue_head)).

Definition elv_insert_back (r : rqid) : ST (world D) unit :=
  rq_upd r (λ rq, set_cmd_flags (Z.lor (cmd_flags rq) REQ_SOFTBARRIER) rq);;
  elv_drain_elevator;;
  on_links (list_add_tail (Ptr (queuelist r)) (Ptr queue_head));;
  __blk_run_queue.

Definition elv_insert_sort (r : rqid) : ST (world D) unit :=
  rq ← rq_get r;
  bug_on (negb (blk_fs_request rq) && negb (blk_discard_rq rq));;
  rq_upd r (λ rq, set_cmd_flags (Z.lor (cmd_flags rq) REQ_SORTED) rq);;
  q_upd (λ q, set_nr_sorted (u32 (nr_sorted q + 1)) q);;
  rq ← rq_get r;
  when (rq_mergeable rq)
    (elv_rqhash_add r;;
     q ← q_get;
     when (bool_decide (last_merge q = None)) (q_upd (set_last_merge (Some r))));;
  add ← lift (deref (elevator_add_req_fn ops));
  add r.

Definition elv_insert_requeue (r : rqid) : ST (world D) unit :=
  rq_upd r (λ rq, set_cmd_flags (Z.lor (cmd_flags rq) REQ_SOFTBARRIER) rq);;
  q ← q_get;
  if ordseq q =? 0 then on_links (list_add (Ptr (queuelist r)) (Ptr queue_head)) else
  rq ← rq_get r;
  tbl ← gets rqs;
  seq ← lift (blk_ordered_req_seq r rq q tbl);
  '(pos, _) ← on_links (list_for_each (Ptr queue_head)
     (λ pos _, p ← list_entry_rq pos;
               pos_rq ← deref (tbl !! p);
               s ← blk_ordered_req_seq p pos_rq q tbl;
               mret (if seq <=? s then Break tt else Continue tt))
     tt);
  on_links (list_add_tail (Ptr (queuelist r)) pos).

Definition elv_insert (r : rqid) (wher : Z) : ST (world D) unit :=
  unplug_it ←
    (if wher =? ELEVATOR_INSERT_FRONT then elv_insert_front r;; mret true
     else if wher =? ELEVATOR_INSERT_BACK then elv_insert_back r;; mret true
     else if wher =? ELEVATOR_INSERT_SORT then elv_insert_sort r;; mret true
     else if wher =? ELEVATOR_INSERT_REQUEUE then elv_insert_requeue r;; mret false
     else raise BUG);
  q ← q_get;
  if unplug_it && blk_queue_plugged q then
    let nrq := s32 (snd (rq_count q) + fst (rq_count q) - queue_in_flight q) in
    when (nrq >=? unplug_thresh q) __generic_unplug_device
  else mret tt.

(** Adjustments [__elv_add_request] makes for barriers and requests without
    scheduler data, before inserting. *)
Definition elv_add_barrier (r : rqid) (wher : Z) : ST (world D) Z :=
  rq ← rq_get r;
  when (blk_barrier_rq rq) (q_upd (λ q, set_ordcolor (Z.lxor (ordcolor q) 1) q));;
  when (blk_fs_request rq || blk_discard_rq rq)
    (q_upd (set_end_sector (rq_end_sector rq));;
     q_upd (set_boundary_rq (Some r)));;
  mret (if wher =? ELEVATOR_INSERT_SORT then ELEVATOR_INSERT_BACK else wher).

Definition __elv_add_request (r : rqid) (wher : Z) (plug : bool) : ST (world D) unit :=
  q ← q_get;
  when (negb (ordcolor q =? 0))
    (rq_upd r (λ rq, set_cmd_flags (Z.lor (cmd_flags rq) REQ_ORDERED_COLOR) rq));;
  rq ← rq_get r;
  wher' ←
    (if tst (cmd_flags rq) (Z.lor REQ_SOFTBARRIER REQ_HARDBARRIER)
     then elv_add_barrier r wher
     else if negb (tst (cmd_flags rq) REQ_ELVPRIV) && (wher =? ELEVATOR_INSERT_SORT)
     then mret ELEVATOR_INSERT_BACK
     else mret wher);
  when plug blk_plug_device;;
  elv_insert r wher'.

Definition elv_deactivate_rq (r : rqid) : ST (world D) unit :=
  match elevator_deactivate_req_fn ops with Some f => f r | None => mret tt end.
Definition elv_activate_rq (r : rqid) : ST (world D) unit :=
  match elevator_activate_req_fn ops with Some f => f r | None => mret tt end.

Definition elv_requeue_request (r : rqid) : ST (world D) unit :=
  rq ← rq_get r;
  when (blk_account_rq rq)
    (q_upd (λ q, set_in_flight (upd_sync (λ n, u32 (n - 1)) (rq_is_sync rq) (in_flight q)) q);;
     when (blk_sorted_rq rq) (elv_deactivate_rq r));;
  rq_upd r (λ rq, set_cmd_flags (Z.ldiff (cmd_flags rq) REQ_STARTED) rq);;
  elv_insert r ELEVATOR_INSERT_REQUEUE.

Definition elv_latter_request (r : rqid) : ST (world D) (option rqid) :=
  match elevator_latter_req_fn ops with Some f => f r | None => mret None end.
Definition elv_former_request (r : rqid) : ST (world D) (option rqid) :=
  match elevator_former_req_fn ops with Some f => f r | None => mret None end.

(** [rq->elevator_private], which the default case clears, is not modelled. *)
Definition elv_set_request (r : rqid) (gfp_mask : Z) : ST (world D) Z :=
  match elevator_set_req_fn ops with Some f => f r gfp_mask | None => mret 0 end.
Definition elv_put_request (r : rqid) : ST (world D) unit :=
  match elevator_put_req_fn ops with Some f => f r | None => mret tt end.
Definition elv_may_queue (rw : Z) : ST (world D) Z :=
  match elevator_may_queue_fn ops with Some f => f rw | None => mret ELV_MQUEUE_MAY end.
End core.

(** ** Facts about the base operations *)

(** A dispatch decision as a boolean: the backward scan stops at [p]. *)
Definition stops (boundary : Z) (rq pos : request) : bool :=
  match sort_step boundary rq pos with Break _ => true | Continue _ => false end.

(** Where [elv_dispatch_sort] links [r]: from the back, after the first request
    the scan stops at.  [ins_rev] works on the reversed queue. *)
Fixpoint ins_rev (stop : rqid → bool) (r : rqid) (l : list rqid) : list rqid :=
  match l with
  | [] => [r]
  | p :: l' => if stop p then r :: p :: l' else p :: ins_rev stop r l'
  end.
Definition dispatch_insert (stop : rqid → bool) (r : rqid) (ds : list rqid) : list rqid :=
  rev (ins_rev stop r (rev ds)).

(** The scan predicate for a table of requests. *)
Definition stops_at (tbl : gmap rqid request) (boundary : Z) (r p : rqid) : bool :=
  match tbl !! r, tbl !! p with
  | Some rq, Some pos => stops boundary rq pos
  | _, _ => true
  end.

Definition hash_del (r : rqid) (h : list (list rqid)) : list (list rqid) :=
  map (filter (λ x, x ≠ r)) h.

Lemma ins_rev_perm stop r l : ins_rev stop r l ≡ₚ r :: l.
Proof.
  induction l as [|p l IH]; simpl; [done|]. destruct (stop p); [done|].
  rewrite IH. apply Permutation_swap.
Qed.
Lemma dispatch_insert_perm stop r ds : dispatch_insert stop r ds ≡ₚ r :: ds.
Proof. unfold dispatch_insert. by rewrite <-Permutation_rev, ins_rev_perm, <-Permutation_rev. Qed.

Lemma hash_del_id r h : ELV_ON_HASH r h = false → hash_del r h = h.
Proof.
  intros Hr. unfold hash_del. rewrite <-(map_id h) at 2. apply map_ext_in.
  intros b Hb. apply filter_all. intros x Hx ->.
  assert (ELV_ON_HASH r h = true); [|congruence].
  apply existsb_exists. exists b. split; [done|]. by apply bool_decide_eq_true.
Qed.

Lemma hash_del_off r h : ELV_ON_HASH r (hash_del r h) = false.
Proof.
  apply not_true_iff_false. intros (b & Hb & Hr%bool_decide_eq_true)%existsb_exists.
  apply in_map_iff in Hb as (c & <- & _). by apply list_elem_of_filter in Hr as [? _].
Qed.

(** *** The hash function is multiplication by a constant *)
Lemma hash_64_mul val bits :
  0 ≤ val < 2 ^ 64 →
  hash_64 val bits = Z.shiftr (u64 (val * GOLDEN_RATIO_PRIME_64)) (64 - bits).
Proof.
  intros Hv.
  assert (∀ a k, 0 ≤ k → u64 (Z.shiftl (u64 (val * a)) k) = u64 (val * (a * 2 ^ k))) as Hshl.
  { intros a k ?. unfold u64. rewrite Z.shiftl_mul_pow2, Zmult_mod_idemp_l by done.
    f_equal. lia. }
  assert (∀ a b, u64 (u64 (val * a) - u64 (val * b)) = u64 (val * (a - b))) as Hsub.
  { intros a b. unfold u64. rewrite Zminus_mod_idemp_l, Zminus_mod_idemp_r. f_equal. lia. }
  assert (∀ a b, u64 (u64 (val * a) + u64 (val * b)) = u64 (val * (a + b))) as Hadd.
  { intros a b. unfold u64. rewrite Zplus_mod_idemp_l, Zplus_mod_idemp_r. f_equal. lia. }
  transitivity (hash_64 (u64 (val * 1)) bits).
  { by rewrite Z.mul_1_r, u64_id. }
  unfold hash_64. rewrite !Hshl, !Hsub, !Hadd, !Hsub, !Hadd by done.
  match goal with |- Z.shiftr (u64 (val * ?c)) _ = _ =>
    replace c with GOLDEN_RATIO_PRIME_64 by (vm_compute; reflexivity) end.
  reflexivity.
Qed.

Lemma ELV_HASH_FN_range sec : 0 ≤ ELV_HASH_FN sec < ELV_HASH_ENTRIES.
Proof.
  unfold ELV_HASH_FN, hash_64. cbv zeta.
  match goal with |- context [ Z.shiftr (u64 ?x) _ ] =>
    pose proof (u64_range x) as Hr; set (z := u64 x) in * end.
  clearbody z. change (64 - elv_hash_shift) with 58. rewrite Z.shiftr_div_pow2 by done. change ELV_HASH_ENTRIES with 64.
  split; [apply Z.div_pos; lia|]. apply Z.div_lt_upper_bound; lia.
Qed.

#[global] Opaque ELV_HASH_FN.

Section base_facts.
Context {D : Type}.
Implicit Types (w : world D).

Lemma elv_rqhash_del_ok r w :
  elv_rqhash_del r w = Ok (tt, set_hash (hash_del r (hash w)) w).
Proof.
  unfold elv_rqhash_del, gets, mbind, st_bind, __elv_rqhash_del, modify.
  destruct (ELV_ON_HASH r (hash w)) eqn:E; [done|].
  rewrite hash_del_id by done. by destruct w.
Qed.

Lemma rq_get_ok r w rq : rqs w !! r = Some rq → rq_get r w = Ok (rq, w).
Proof. unfold rq_get. by intros ->. Qed.
Lemma rq_upd_ok r f w rq :
  rqs w !! r = Some rq → rq_upd r f w = Ok (tt, set_rqs (<[r := f rq]> (rqs w)) w).
Proof. unfold rq_upd. by intros ->. Qed.
Lemma on_links_ok {X} (m : ST _ X) w x h :
  m (links w) = Ok (x, h) → on_links m w = Ok (x, set_links h w).
Proof. apply zoom_ok. Qed.

Lemma on_links_read {X} (m : ST _ X) w x :
  m (links w) = Ok (x, links w) → on_links m w = Ok (x, w).
Proof. intros E. rewrite (on_links_ok _ _ _ _ E). by destruct w. Qed.

(** A loop whose body may unlink the current node, or move it to the end of
    the list: [I m xs x w] is kept while the nodes [xs] remain to be visited and
    [m] bounds the steps still to come.  The body may change [xs], but not
    which node is next. *)
Section safe_loop.
Context {X : Type} (head : laddr) (node : rqid → laddr) (body : ptr laddr → X → ST (world D) X).
Context (I : nat → list rqid → X → world D → Prop).
Hypothesis node_head : ∀ r, node r ≠ head.
Hypothesis I_next : ∀ m xs x w, I m xs x w →
  match xs with
  | [] => mapped (links w) head
  | r :: xs => nxt (links w) (node r) = Some (Ptr (List.hd head (node <$> xs)))
  end.
Hypothesis I_body : ∀ m r xs x w, I m (r :: xs) x w →
  ∃ m' xs' x' w', body (Ptr (node r)) x w = Ok (x', w') ∧ I m' xs' x' w' ∧ (m' < m)%nat ∧
    List.hd head (node <$> xs') = List.hd head (node <$> xs).

Lemma safe_loop_ok m xs x w fuel n :
  I m xs x w → (m < fuel)%nat →
  (∀ r xs', xs = r :: xs' → n = Ptr (List.hd head (node <$> xs'))) →
  ∃ m' x' w', safe_loop (Ptr head) body fuel (Ptr (List.hd head (node <$> xs))) n x w = Ok (x', w') ∧
    I m' [] x' w'.
Proof.
  revert m xs x w n. induction fuel as [|fuel IH]; intros m xs x w n HI Hf Hn; [lia|].
  destruct xs as [|r xs]; cbn [safe_loop fmap list_fmap List.hd].
  { rewrite bool_decide_true by done. by exists m, x, w. }
  rewrite bool_decide_false by (intros [= E]; by apply (node_head r)).
  destruct (I_body m r xs x w HI) as (m1 & xs1 & x1 & w1 & E & HI1 & Hm & Eh). st_step E.
  rewrite (Hn r xs eq_refl), <-Eh. pose proof (I_next _ _ _ _ HI1) as Hnext.
  destruct xs1 as [|r1 xs1]; cbn [fmap list_fmap List.hd].
  - destruct Hnext as [nd Hnd].
    erewrite st_bind_ok by (apply on_links_read, get_next_ok; unfold nxt; by rewrite Hnd).
    apply (IH m1 [] x1 w1); [done|lia|done].
  - erewrite st_bind_ok by (by apply on_links_read, get_next_ok).
    apply (IH m1 (r1 :: xs1) x1 w1); [done|lia|by intros ?? [= <- <-]].
Qed.

Lemma list_for_each_safe_ok m xs x w :
  is_list (links w) head (node <$> xs) → I m xs x w → (m ≤ 2 * length xs)%nat →
  ∃ m' x' w', list_for_each_safe (Ptr head) body x w = Ok (x', w') ∧ I m' [] x' w'.
Proof.
  intros Hl HI Hm. unfold list_for_each_safe. rewrite (st_bind_ok _ _ w w w eq_refl).
  pose proof (seg_head _ _ _ _ (proj2 Hl)) as Hh.
  erewrite st_bind_ok by (by apply on_links_read, get_next_ok).
  assert (∃ n, nxt (links w) (List.hd head (node <$> xs)) = Some n ∧
    ∀ r xs', xs = r :: xs' → n = Ptr (List.hd head (node <$> xs'))) as (n & En & Hn).
  { destruct xs as [|r xs]; [by exists (Ptr head)|].
    exists (Ptr (List.hd head (node <$> xs))). split; [by apply (I_next m (r :: xs) x w)|].
    by intros ?? [= <- <-]. }
  erewrite st_bind_ok by (by apply on_links_read, get_next_ok).
  apply (safe_loop_ok m); [done| |done].
  pose proof (is_list_length _ _ _ Hl) as Hlen. rewrite length_fmap in Hlen. lia.
Qed.
End safe_loop.

(** The scan of [elv_dispatch_sort] finds the place [ins_rev] describes. *)
Lemma walk_sort (tbl : gmap rqid request) boundary r rq l :
  tbl !! r = Some rq → (∀ p, p ∈ l → is_Some (tbl !! p)) →
  ∃ l1 l2, l = l1 ++ l2 ∧ ins_rev (stops_at tbl boundary r) r l = l1 ++ r :: l2 ∧
    walk queue_head (λ entry _, p ← list_entry_rq entry; pos ← deref (tbl !! p);
                                mret (sort_step boundary rq pos)) (queuelist <$> l) tt
    = Ok (Ptr (List.hd queue_head (queuelist <$> l2)), tt).
Proof.
  intros Hr Hl. induction l as [|p l IH]; simpl.
  { by exists [], []. }
  destruct (Hl p) as [pos Hp]; [by left|].
  assert (stops_at tbl boundary r p = stops boundary rq pos) as ->
    by (unfold stops_at; by rewrite Hr, Hp).
  unfold stops. rewrite Hp. simpl.
  destruct (sort_step boundary rq pos) as [[]|[]]; simpl.
  - destruct IH as (l1 & l2 & -> & E & W); [intros; apply Hl; by right|].
    exists (p :: l1), l2. split_and!; [done| |done]. simpl. by rewrite E.
  - by exists [], (p :: l).
Qed.

(** The common prologue of the two dispatch functions. *)
Lemma dispatch_prologue w r A (k : unit → ST (world D) A) :
  (when (bool_decide (last_merge (queue w) = Some r)) (q_upd (set_last_merge None)) ≫= λ _,
   elv_rqhash_del r ≫= λ _, q_upd (λ q, set_nr_sorted (u32 (nr_sorted q - 1)) q) ≫= k) w
  = k tt (World (rqs w) (links w) (hash_del r (hash w))
        (set_nr_sorted (u32 (nr_sorted (queue w) - 1))
           (set_last_merge (if bool_decide (last_merge (queue w) = Some r) then None
                            else last_merge (queue w)) (queue w)))
        (elevator_data w) (jiffies w) (kblockd w) (ended w) (irqs w)).
Proof.
  unfold when. destruct (bool_decide _);
    rewrite (st_bind_ok _ _ _ tt _ eq_refl), (st_bind_ok _ _ _ _ _ (elv_rqhash_del_ok _ _));
    by destruct w as [? ? ? []].
Qed.

(** Functional behaviour of [elv_dispatch_sort]: the request leaves the merge
    hash and the one-hit cache, the sorted count drops by one, and the dispatch
    queue becomes [dispatch_insert] of the old one.  No list that shares no
    node with the dispatch queue changes. *)
Lemma elv_dispatch_sort_ok w ds r rq :
  is_list (links w) queue_head (queuelist <$> ds) →
  rqs w !! r = Some rq → (∀ p, p ∈ ds → is_Some (rqs w !! p)) →
  r ∉ ds → mapped (links w) (queuelist r) →
  ∃ h',
    elv_dispatch_sort r w = Ok (tt,
      World (rqs w) h' (hash_del r (hash w))
        (set_nr_sorted (u32 (nr_sorted (queue w) - 1))
           (set_last_merge (if bool_decide (last_merge (queue w) = Some r) then None
                            else last_merge (queue w)) (queue w)))
        (elevator_data w) (jiffies w) (kblockd w) (ended w) (irqs w)) ∧
    is_list h' queue_head
      (queuelist <$> dispatch_insert (stops_at (rqs w) (end_sector (queue w)) r) r ds) ∧
    frame (links w) h' (queuelist r :: queue_head :: (queuelist <$> ds)).
Proof.
  intros Hl Hr Hds Hnin Hm.
  destruct (walk_sort (rqs w) (end_sector (queue w)) r rq (rev ds)) as (l1 & l2 & El & Ei & W);
    [done|intros p Hp; apply Hds; by rewrite <-Permutation_rev in Hp|].
  assert (ds = rev l2 ++ rev l1) as Eds.
  { rewrite <-rev_app_distr, <-El. by rewrite rev_involutive. }
  assert (dispatch_insert (stops_at (rqs w) (end_sector (queue w)) r) r ds
          = rev l2 ++ r :: rev l1) as Edi.
  { unfold dispatch_insert. rewrite Ei, rev_app_distr. simpl. by rewrite <-app_assoc. }
  destruct (list_add_spec (links w) queue_head (queuelist <$> rev l2) (queuelist <$> rev l1)
    (queuelist r)) as (h' & Ea & Hl' & Hf); [by rewrite <-fmap_app, <-Eds| |done|].
  { rewrite <-fmap_app, <-Eds, not_elem_of_cons. split; [done|].
    intros (y & [= <-] & ?)%list_elem_of_fmap. done. }
  exists h'. rewrite Edi. rewrite <-fmap_app, <-Eds in Hf.
  rewrite fmap_app, fmap_cons. split_and!; [|done|done].
  set (q1 := set_nr_sorted _ _).
  set (w1 := World (rqs w) (links w) (hash_del r (hash w)) q1 (elevator_data w)
               (jiffies w) (kblockd w) (ended w) (irqs w)).
  unfold elv_dispatch_sort. rewrite (st_bind_ok _ _ w (queue w) w eq_refl), dispatch_prologue.
  fold q1. fold w1.
  rewrite (st_bind_ok _ _ w1 q1 w1 eq_refl), (st_bind_ok _ _ w1 rq w1 (rq_get_ok _ w1 _ Hr)).
  rewrite (st_bind_ok _ _ w1 (rqs w) w1 eq_refl).
  change (end_sector q1) with (end_sector (queue w)).
  rewrite fmap_rev in W.
  erewrite (st_bind_ok _ _ w1);
    [|apply on_links_ok; rewrite (list_for_each_prev_spec _ _ _ _ _ Hl), W; reflexivity].
  apply (on_links_ok _ (set_links (links w) w1)).
  rewrite <-(last_rev_hd queue_head), <-fmap_rev. exact Ea.
Qed.

Lemma elv_dispatch_add_tail_ok w ds r rq :
  is_list (links w) queue_head (queuelist <$> ds) →
  rqs w !! r = Some rq → r ∉ ds → mapped (links w) (queuelist r) →
  ∃ h',
    elv_dispatch_add_tail r w = Ok (tt,
      World (rqs w) h' (hash_del r (hash w))
        (set_boundary_rq (Some r) (set_end_sector (rq_end_sector rq)
        (set_nr_sorted (u32 (nr_sorted (queue w) - 1))
           (set_last_merge (if bool_decide (last_merge (queue w) = Some r) then None
                            else last_merge (queue w)) (queue w)))))
        (elevator_data w) (jiffies w) (kblockd w) (ended w) (irqs w)) ∧
    is_list h' queue_head (queuelist <$> ds ++ [r]) ∧
    frame (links w) h' (queuelist r :: queue_head :: (queuelist <$> ds)).
Proof.
  intros Hl Hr Hnin Hm.
  destruct (list_add_tail_spec (links w) queue_head (queuelist <$> ds) [] (queuelist r))
    as (h' & Ea & Hl' & Hf); [by rewrite app_nil_r| |done|].
  { rewrite app_nil_r, not_elem_of_cons. split; [done|].
    intros (y & [= <-] & ?)%list_elem_of_fmap. done. }
  rewrite app_nil_r in Hf. exists h'. rewrite fmap_app. split_and!; [|done..].
  unfold elv_dispatch_add_tail. rewrite (st_bind_ok _ _ w (queue w) w eq_refl), dispatch_prologue.
  erewrite (st_bind_ok (rq_get r)); [|by apply rq_get_ok].
  do 2 (erewrite (st_bind_ok (q_upd _)); [|reflexivity]).
  erewrite on_links_ok; [|exact Ea]. reflexivity.
Qed.

(** *** The merge hash *)

(** Every chain entry is a live request on the chain of its key, and no request
    is on two chains or twice on one. *)
Record hash_wf (tbl : gmap rqid request) (h : list (list rqid)) : Prop := {
  hash_size : length h = Z.to_nat ELV_HASH_ENTRIES;
  hash_chain : ∀ i c r, h !! i = Some c → r ∈ c →
    ∃ rq, tbl !! r = Some rq ∧ i = Z.to_nat (ELV_HASH_FN (rq_hash_key rq));
  hash_once : ∀ i c, h !! i = Some c → NoDup c
}.

Lemma on_hash_spec r h : ELV_ON_HASH r h = true ↔ ∃ i c, h !! i = Some c ∧ r ∈ c.
Proof.
  unfold ELV_ON_HASH. rewrite existsb_exists. split.
  - intros (c & Hc & Hr%bool_decide_eq_true). apply list_elem_of_In, list_elem_of_lookup in Hc
      as [i Hi]. eauto.
  - intros (i & c & Hi & Hr). exists c. split; [|by apply bool_decide_eq_true].
    apply list_elem_of_In, list_elem_of_lookup. eauto.
Qed.

Lemma hash_bucket tbl h key : hash_wf tbl h →
  ∃ c, h !! Z.to_nat (ELV_HASH_FN key) = Some c.
Proof.
  intros Hw. apply lookup_lt_is_Some. rewrite (hash_size _ _ Hw).
  pose proof (ELV_HASH_FN_range key). lia.
Qed.

Lemma hash_add_wf tbl h r rq c :
  let i := Z.to_nat (ELV_HASH_FN (rq_hash_key rq)) in
  hash_wf tbl h → tbl !! r = Some rq → ELV_ON_HASH r h = false → h !! i = Some c →
  hash_wf tbl (<[i := r :: c]> h).
Proof.
  intros i Hw Hr Hoff Hc. split; [by rewrite length_insert; apply Hw| |].
  - intros j d p. rewrite list_lookup_insert. case_decide as Hj; [|by apply Hw].
    destruct Hj as [<- ?]. intros [= <-] [->|Hp]%elem_of_cons; [eauto|].
    by apply (hash_chain _ _ Hw i c).
  - intros j d. rewrite list_lookup_insert. case_decide as Hj; [|by apply Hw].
    destruct Hj as [<- ?]. intros [= <-]. apply NoDup_cons. split; [|by apply (hash_once _ _ Hw i)].
    intros Hin. apply not_true_iff_false in Hoff. apply Hoff, on_hash_spec. eauto.
Qed.

Lemma hash_del_wf tbl h r : hash_wf tbl h → hash_wf tbl (hash_del r h).
Proof.
  intros Hw. unfold hash_del. split; [by rewrite length_map; apply Hw| |].
  - intros i c p. rewrite list_lookup_fmap. intros (d & Hd & ->)%fmap_Some [_ Hp]%list_elem_of_filter.
    by apply (hash_chain _ _ Hw i d).
  - intros i c. rewrite list_lookup_fmap. intros (d & Hd & ->)%fmap_Some.
    apply NoDup_filter. by apply (hash_once _ _ Hw i).
Qed.

Lemma elv_rqhash_add_ok r w rq :
  hash_wf (rqs w) (hash w) → rqs w !! r = Some rq → ELV_ON_HASH r (hash w) = false →
  ∃ c, hash w !! Z.to_nat (ELV_HASH_FN (rq_hash_key rq)) = Some c ∧
    elv_rqhash_add r w = Ok (tt,
      set_hash (<[Z.to_nat (ELV_HASH_FN (rq_hash_key rq)) := r :: c]> (hash w)) w).
Proof.
  intros Hw Hr Hoff. destruct (hash_bucket _ _ (rq_hash_key rq) Hw) as [c Hc]. exists c.
  split; [done|]. unfold elv_rqhash_add, gets, mbind, st_bind. rewrite Hoff. simpl.
  rewrite (rq_get_ok _ _ _ Hr). unfold lift, deref. by rewrite Hc.
Qed.

Lemma on_hash_del r p h : ELV_ON_HASH p (hash_del r h) = true ↔ ELV_ON_HASH p h = true ∧ p ≠ r.
Proof.
  rewrite !on_hash_spec. unfold hash_del. split.
  - intros (i & c & Hi & Hp). rewrite list_lookup_fmap in Hi.
    apply fmap_Some in Hi as (d & Hd & ->). apply list_elem_of_filter in Hp as [??]. eauto.
  - intros [(i & c & Hi & Hp) ?]. exists i, (filter (λ x, x ≠ r) c).
    rewrite list_lookup_fmap, Hi. split; [done|]. by apply list_elem_of_filter.
Qed.

(** What the scan of a chain leaves behind and returns. *)
Lemma rqhash_scan_ok offset c w :
  NoDup c → hash_wf (rqs w) (hash w) → (∀ r, r ∈ c → ELV_ON_HASH r (hash w) = true) →
  ∃ o h', rqhash_scan offset c w = Ok (o, set_hash h' w) ∧ hash_wf (rqs w) h' ∧
    (∀ r rq, ELV_ON_HASH r (hash w) = true → rqs w !! r = Some rq → rq_mergeable rq = true →
             ELV_ON_HASH r h' = true) ∧
    match o with
    | Some r => r ∈ c ∧ ∃ rq, rqs w !! r = Some rq ∧ rq_mergeable rq = true ∧ rq_hash_key rq = offset
    | None => ∀ r rq, r ∈ c → rqs w !! r = Some rq → rq_mergeable rq = true → rq_hash_key rq ≠ offset
    end.
Proof.
  revert w. induction c as [|r c IH]; intros w Hnd Hw Hon; cbn [rqhash_scan].
  { exists None, (hash w). split_and!; [by destruct w|done|done|].
    by intros ?? ?%elem_of_nil. }
  apply NoDup_cons in Hnd as [Hr Hnd].
  assert (ELV_ON_HASH r (hash w) = true) as Honr by (apply Hon; by left).
  pose proof Honr as (i & d & Hi & Hd)%on_hash_spec.
  destruct (hash_chain _ _ Hw i d r Hi Hd) as (rq & Hrq & _).
  rewrite (st_bind_ok _ _ w (hash w) w eq_refl). rewrite Honr.
  rewrite (st_bind_ok _ _ w tt w eq_refl). st_step (rq_get_ok _ _ _ Hrq).
  destruct (rq_mergeable rq) eqn:Em; simpl.
  - destruct (Z.eqb_spec (rq_hash_key rq) offset) as [Ek|Ek].
    + exists (Some r), (hash w). split_and!; [by destruct w|done|done|by left|eauto].
    + destruct (IH w) as (o & h' & E & Hw' & Hk & Ho); [done..|intros; apply Hon; by right|].
      exists o, h'. split_and!; [done..|]. destruct o as [r'|].
      * destruct Ho as [? ?]. split; [by right|done].
      * intros p prq [->|Hp]%elem_of_cons Hprq; [congruence|by apply (Ho p prq)].
  - rewrite (st_bind_ok _ _ w tt (set_hash (hash_del r (hash w)) w) eq_refl).
    destruct (IH (set_hash (hash_del r (hash w)) w)) as (o & h' & E & Hw' & Hk & Ho);
      [done|by apply hash_del_wf| |].
    { intros p Hp. apply on_hash_del. split; [apply Hon; by right|]. by intros ->. }
    exists o, h'. rewrite E. split_and!; [by destruct w|done| |].
    + intros p prq Hp Hprq Hm. eapply Hk; [|done..]. apply on_hash_del.
      split; [done|]. intros ->. congruence.
    + destruct o as [r'|]; [destruct Ho; split; [by right|done]|].
      intros p prq [->|Hp]%elem_of_cons Hprq; [congruence|by apply (Ho p prq)].
Qed.

Lemma elv_rqhash_find_ok offset w :
  hash_wf (rqs w) (hash w) →
  ∃ o h', elv_rqhash_find offset w = Ok (o, set_hash h' w) ∧ hash_wf (rqs w) h' ∧
    (∀ r rq, ELV_ON_HASH r (hash w) = true → rqs w !! r = Some rq → rq_mergeable rq = true →
             ELV_ON_HASH r h' = true) ∧
    match o with
    | Some r => ELV_ON_HASH r (hash w) = true ∧
        ∃ rq, rqs w !! r = Some rq ∧ rq_mergeable rq = true ∧ rq_hash_key rq = offset
    | None => ∀ r rq, ELV_ON_HASH r (hash w) = true → rqs w !! r = Some rq →
        rq_mergeable rq = true → rq_hash_key rq ≠ offset
    end.
Proof.
  intros Hw. destruct (hash_bucket _ _ offset Hw) as [c Hc].
  unfold elv_rqhash_find. rewrite (st_bind_ok _ _ w (hash w) w eq_refl), Hc.
  rewrite (st_bind_ok _ _ w c w eq_refl).
  destruct (rqhash_scan_ok offset c w) as (o & h' & E & Hw' & Hk & Ho); [|done| |].
  { by apply (hash_once _ _ Hw _ _ Hc). }
  { intros r Hr. apply on_hash_spec. eauto. }
  exists o, h'. split_and!; [done..|]. destruct o as [r|].
  - destruct Ho as [? ?]. split; [apply on_hash_spec; eauto|done].
  - intros r rq (i & d & Hi & Hd)%on_hash_spec Hrq Hm Hkey.
    destruct (hash_chain _ _ Hw i d r Hi Hd) as (rq' & ? & ->). simplify_eq.
    by apply (Ho r rq).
Qed.
End base_facts.
