(* ===== verification/Iosched.v ===== *)
(** * What an I/O scheduler promises the elevator core

    The type class [IoSched] states the contract between a scheduler (a record
    [elevator_ops]) and [block/elevator.c]: the scheduler holds a collection of
    requests, [elevator_add_req_fn] adds one, a forced [elevator_dispatch_fn]
    moves one to the dispatch queue until none is left, and
    [elevator_queue_empty_fn] reports emptiness.  The theorems of this file
    about draining, inserting and emptiness are proved against the contract;
    [Noop], [Look] and [DeadlineOps] discharge it. *)

From S2P Require Import Prelude KList Request Elevator.

Local Open Scope Z_scope.

(** The dispatch queue [q->queue_head] holds the requests [ds]. *)
Record dispatch_rep {D} (w : world D) (ds : list rqid) : Prop := {
  dispatch_list : is_list (links w) queue_head (queuelist <$> ds);
  dispatch_live : ∀ p, p ∈ ds → is_Some (rqs w !! p)
}.

#[global] Instance dispatch_rep_dec {D} (w : world D) ds : Decision (dispatch_rep w ds).
Proof.
  refine (cast_if (decide (is_list (links w) queue_head (queuelist <$> ds) ∧
    Forall (λ p, is_Some (rqs w !! p)) ds))); abstract (rewrite Forall_forall in *; destruct_and?;
    first [by split | intros []; tauto]).
Defined.

(** The nodes the elevator core may touch while the scheduler holds [xs]. *)
Definition core_node (xs : list rqid) (a : laddr) : Prop :=
  a = queue_head ∨ ∃ r, a = queuelist r ∧ r ∉ xs.

(** The queue after [elv_dispatch_add_tail a]. *)
Definition sent_on (tbl : gmap rqid request) (q : request_queue) (a : rqid) : request_queue :=
  set_boundary_rq (Some a)
    (set_end_sector (match tbl !! a with Some rq => rq_end_sector rq | None => 0 end)
    (set_nr_sorted (u32 (nr_sorted q - 1))
      (set_last_merge (if bool_decide (last_merge q = Some a) then None else last_merge q) q))).

(** [sched w xs]: the scheduler's state represents the requests [xs];
    [ready w r]: [r] may be handed to [elevator_add_req_fn]. *)
Class IoSched {D} (ops : elevator_ops D) (sched : world D → list rqid → Prop)
    (ready : world D → rqid → Prop) := {
  sched_live : ∀ w xs r, sched w xs → r ∈ xs → is_Some (rqs w !! r);
  sched_nodup : ∀ w xs, sched w xs → NoDup xs;
  (** Steps of the core on its own nodes do not disturb the scheduler. *)
  sched_frame : ∀ w w' xs ns,
    sched w xs → elevator_data w' = elevator_data w →
    (∀ r, r ∈ xs → rqs w' !! r = rqs w !! r) →
    frame (links w) (links w') ns → (∀ a, a ∈ ns → core_node xs a) → sched w' xs;
  (** Flag bits of the request do not matter to whether it may be added. *)
  ready_frame : ∀ w w' r,
    ready w r → elevator_data w' = elevator_data w → links w' = links w →
    (∀ rq, rqs w !! r = Some rq → ∃ f, rqs w' !! r = Some (set_cmd_flags f rq)) → ready w' r;
  law_dispatch_none : ∀ w ds, dispatch_rep w ds → sched w [] →
    ∃ f, elevator_dispatch_fn ops = Some f ∧ f 1 w = Ok (0, w);
  law_dispatch_some : ∀ w ds xs, dispatch_rep w ds → sched w xs → NoDup (ds ++ xs) → xs ≠ [] →
    ∃ f n w' r xs' ds', elevator_dispatch_fn ops = Some f ∧ f 1 w = Ok (n, w') ∧ n ≠ 0 ∧
      xs ≡ₚ r :: xs' ∧ ds' ≡ₚ r :: ds ∧ dispatch_rep w' ds' ∧ sched w' xs' ∧
      rqs w' = rqs w ∧ nr_sorted (queue w') = u32 (nr_sorted (queue w) - 1) ∧
      (∀ a, mapped (links w) a → mapped (links w') a);
  (** Adding may send requests on, to the end of the dispatch queue. *)
  law_add : ∀ w ds xs r, dispatch_rep w ds → sched w xs → NoDup (ds ++ xs) →
    r ∉ ds ++ xs → ready w r →
    ∃ f w' moved rest xs', elevator_add_req_fn ops = Some f ∧ f r w = Ok (tt, w') ∧
      xs ≡ₚ moved ++ rest ∧ xs' ≡ₚ r :: rest ∧ dispatch_rep w' (ds ++ moved) ∧ sched w' xs' ∧
      queue w' = foldl (sent_on (rqs w)) (queue w) moved ∧
      hash w' = foldl (λ h a, hash_del a h) (hash w) moved ∧ rqs w' = rqs w;
  law_empty : ∀ w ds xs, dispatch_rep w ds → sched w xs →
    ∃ f, elevator_queue_empty_fn ops = Some f ∧ f w = Ok (bool_decide (xs = []), w)
}.

(** ** Facts shared by the schedulers *)
Section shared.
Context {D : Type}.
Implicit Types (w : world D).

Lemma queuelist_notin r (l : list rqid) : r ∉ l → queuelist r ∉ queuelist <$> l.
Proof. by intros Hr (y & [= <-] & ?)%list_elem_of_fmap. Qed.
Lemma queuelist_in r (l : list rqid) : r ∈ l → queuelist r ∈ queuelist <$> l.
Proof. intros. by apply list_elem_of_fmap_2. Qed.
Lemma queuelist_elem a (l : list rqid) : a ∈ queuelist <$> l → ∃ r, a = queuelist r ∧ r ∈ l.
Proof. intros (y & -> & ?)%list_elem_of_fmap. eauto. Qed.

(** Two lists with different heads and no request in common share no node. *)
Definition is_head (a : laddr) : Prop := match a with queuelist _ => False | _ => True end.
Lemma nodes_disjoint a1 a2 (l1 l2 : list rqid) :
  is_head a1 → is_head a2 → a1 ≠ a2 → (∀ r, r ∈ l1 → r ∉ l2) →
  ∀ a, a ∈ a1 :: (queuelist <$> l1) → a ∉ a2 :: (queuelist <$> l2).
Proof.
  intros Ha1 Ha2 Hne Hd a.
  intros [->|(p & -> & Hp)%queuelist_elem]%elem_of_cons;
  intros [E|(p' & E & Hp')%queuelist_elem]%elem_of_cons; subst; try done.
  simplify_eq. by apply (Hd p').
Qed.

Lemma live_length (tbl : gmap rqid request) xs :
  NoDup xs → (∀ r, r ∈ xs → is_Some (tbl !! r)) → (length xs ≤ size tbl)%nat.
Proof.
  intros Hnd Hl. rewrite <-size_dom, <-(size_list_to_set (C := gset rqid) xs) by done.
  apply subseteq_size. intros r Hr%elem_of_list_to_set. by apply elem_of_dom, Hl.
Qed.

(** The nodes of [ds] and of the dispatch queue are nodes of the core. *)
Lemma core_nodes ds xs : (∀ r, r ∈ ds → r ∉ xs) →
  ∀ a, a ∈ queue_head :: (queuelist <$> ds) → core_node xs a.
Proof.
  intros Hd a [->|(r & -> & Hr)%queuelist_elem]%elem_of_cons; [by left|].
  right. eauto.
Qed.

Lemma dispatch_rep_frame w w' ds ns :
  dispatch_rep w ds → (∀ r, r ∈ ds → is_Some (rqs w' !! r)) →
  frame (links w) (links w') ns → (∀ a, a ∈ queue_head :: (queuelist <$> ds) → a ∉ ns) →
  dispatch_rep w' ds.
Proof. intros [Hl _] ? Hf Hn. split; [|done]. by eapply frame_is_list. Qed.
End shared.

(** ** Schedulers that keep their requests on a list *)
Section one_list.
Context {D : Type}.
Implicit Types (w : world D).

(** The list at [sched_head i] holds the requests [xs]. *)
Record one_list (i : nat) w (xs : list rqid) : Prop := {
  one_is_list : is_list (links w) (sched_head i) (queuelist <$> xs);
  one_live : ∀ r, r ∈ xs → is_Some (rqs w !! r)
}.

#[global] Instance one_list_dec i w xs : Decision (one_list i w xs).
Proof.
  refine (cast_if (decide (is_list (links w) (sched_head i) (queuelist <$> xs) ∧
    Forall (λ p, is_Some (rqs w !! p)) xs))); abstract (rewrite Forall_forall in *; destruct_and?;
    first [by split | intros []; tauto]).
Defined.

Lemma one_list_nodup i w xs : one_list i w xs → NoDup xs.
Proof. intros [[Hnd%NoDup_cons _] _]. destruct Hnd as [_ Hnd]. by apply NoDup_fmap_1 in Hnd. Qed.

Lemma one_list_mapped i w xs r : one_list i w xs → r ∈ xs → mapped (links w) (queuelist r).
Proof. intros [Hl _] Hr. apply (is_list_mapped _ _ _ Hl). right. by apply queuelist_in. Qed.

Lemma one_list_frame i w w' xs ns :
  one_list i w xs → (∀ r, r ∈ xs → rqs w' !! r = rqs w !! r) →
  frame (links w) (links w') ns → (∀ a, a ∈ ns → core_node xs a) → one_list i w' xs.
Proof.
  intros [Hl Hv] Hrq Hf Hns. split; [|intros r Hr; rewrite Hrq by done; by apply Hv].
  eapply frame_is_list; [exact Hf|exact Hl|]. intros a Ha Hn.
  destruct (Hns a Hn) as [->|(r & -> & Hr)].
  - by apply elem_of_cons in Ha as [?|(? & ? & _)%queuelist_elem].
  - apply elem_of_cons in Ha as [?|(? & [= <-] & ?)%queuelist_elem]; done.
Qed.

(** Taking the request [r] from the scheduler's list to the dispatch queue. *)
Lemma unlink_dispatch_ok i w ds l1 r l2 :
  dispatch_rep w ds → one_list i w (l1 ++ r :: l2) → NoDup (ds ++ l1 ++ r :: l2) →
  ∃ h', (on_links (list_del_init (Ptr (queuelist r)));; elv_dispatch_sort r) w = Ok (tt,
      World (rqs w) h' (hash_del r (hash w))
        (set_nr_sorted (u32 (nr_sorted (queue w) - 1))
           (set_last_merge (if bool_decide (last_merge (queue w) = Some r) then None
                            else last_merge (queue w)) (queue w)))
        (elevator_data w) (jiffies w) (kblockd w) (ended w) (irqs w)) ∧
    is_list h' queue_head
      (queuelist <$> dispatch_insert (stops_at (rqs w) (end_sector (queue w)) r) r ds) ∧
    is_list h' (sched_head i) (queuelist <$> l1 ++ l2) ∧
    (∀ a, mapped (links w) a ↔ mapped h' a).
Proof.
  intros Hd Ho Hnd. pose proof (one_list_mapped _ _ _ r Ho) as Hm.
  destruct (one_live _ _ _ Ho r) as [rq Hrq]; [lelem|].
  apply NoDup_app in Hnd as (Hnd1 & Hdis & Hnd2). apply NoDup_middle in Hnd2 as [Hr Hnd2].
  destruct Ho as [Hl Hv]. rewrite fmap_app, fmap_cons in Hl.
  destruct (list_del_init_spec (links w) (sched_head i) _ _ _ Hl) as (h1 & E1 & [Hl1 Hs1] & Hf1).
  rewrite (st_bind_ok _ _ _ _ _ (on_links_ok _ _ _ _ E1)).
  rewrite <-fmap_cons, <-fmap_app in Hf1. rewrite <-fmap_app in Hl1.
  assert (is_list h1 queue_head (queuelist <$> ds)) as Hd1.
  { eapply frame_is_list; [exact Hf1|apply (dispatch_list _ _ Hd)|]. by apply nodes_disjoint. }
  assert (r ∉ ds) as Hrd by (intros ?; apply (Hdis r); [done|lelem]).
  destruct (elv_dispatch_sort_ok (set_links h1 w) ds r rq) as (h' & E2 & Hl2 & Hf2);
    [done|done|apply (dispatch_live _ _ Hd)|done| |].
  { apply Hf1, Hm. lelem. }
  exists h'. rewrite E2. split_and!; [done|done| |].
  - eapply frame_is_list; [exact Hf2|exact Hl1|]. intros a Ha.
    apply not_elem_of_cons. split.
    + intros ->. by apply elem_of_cons in Ha as [?|(? & [= <-] & ?)%queuelist_elem].
    + revert a Ha. apply nodes_disjoint; [done..|]. intros p Hp Hp'. apply (Hdis p); [done|lelem].
  - intros a. destruct Hf1 as [-> _]. apply Hf2.
Qed.

Lemma add_tail_ok i w ds xs r :
  dispatch_rep w ds → one_list i w xs → r ∉ ds ++ xs → (∀ p, p ∈ ds → p ∉ xs) →
  mapped (links w) (queuelist r) →
  is_Some (rqs w !! r) →
  ∃ h', on_links (list_add_tail (Ptr (queuelist r)) (Ptr (sched_head i))) w
      = Ok (tt, set_links h' w) ∧
    dispatch_rep (set_links h' w) ds ∧ one_list i (set_links h' w) (xs ++ [r]).
Proof.
  intros Hd Ho Hn Hdis Hm Hr. rewrite not_elem_of_app in Hn. destruct Hn as [Hn1 Hn2].
  destruct (list_add_tail_spec (links w) (sched_head i) (queuelist <$> xs) [] (queuelist r))
    as (h' & Ea & Hl' & Hf); [rewrite app_nil_r; apply Ho| |done|].
  { rewrite app_nil_r, not_elem_of_cons. split; [done|by apply queuelist_notin]. }
  exists h'. split; [by apply on_links_ok, Ea|]. split.
  - eapply dispatch_rep_frame; [done|apply (dispatch_live _ _ Hd)|exact Hf|].
    rewrite app_nil_r. intros a Ha. apply not_elem_of_cons. split.
    + intros ->. by apply elem_of_cons in Ha as [?|(? & [= <-] & ?)%queuelist_elem].
    + revert a Ha. by apply nodes_disjoint.
  - split; [by rewrite fmap_app|].
    intros p [Hp| ->%list_elem_of_singleton]%elem_of_app; [by apply (one_live _ _ _ Ho)|done].
Qed.

Lemma one_list_empty i w xs : one_list i w xs →
  on_links (list_empty (Ptr (sched_head i))) w = Ok (bool_decide (xs = []), w).
Proof.
  intros [Hl _]. rewrite (on_links_read _ _ _ (list_empty_spec _ _ _ Hl)). do 2 f_equal.
  apply bool_decide_ext. by destruct xs.
Qed.
End one_list.

(** ** Theorems against the contract *)
Section contract.
Context {D : Type} {ops : elevator_ops D} {sched ready} `{!IoSched ops sched ready}.
Implicit Types (w : world D).

Lemma drain_loop_ok w f ds xs fuel :
  elevator_dispatch_fn ops = Some f →
  dispatch_rep w ds → sched w xs → NoDup (ds ++ xs) → (length xs < fuel)%nat →
  ∃ w' ds', drain_loop f fuel w = Ok (tt, w') ∧ dispatch_rep w' ds' ∧ sched w' [] ∧
    ds' ≡ₚ ds ++ xs ∧ rqs w' = rqs w ∧ (∀ a, mapped (links w) a → mapped (links w') a) ∧
    nr_sorted (queue w') = match xs with [] => nr_sorted (queue w)
                           | _ => u32 (nr_sorted (queue w) - Z.of_nat (length xs)) end.
Proof.
  intros Hf. revert w ds xs. induction fuel as [|fuel IH]; intros w ds xs Hd Hs Hnd Hlen; [lia|].
  simpl. destruct (decide (xs = [])) as [->|Hne].
  - destruct (law_dispatch_none w ds) as (f' & Ef & E); [done..|]. simplify_eq.
    st_step E. simpl. exists w, ds. by rewrite app_nil_r.
  - destruct (law_dispatch_some w ds xs) as (f' & n & w1 & r & xs' & ds1 & Ef & E & Hn & Px & Pd &
      Hd1 & Hs1 & Erq & Enr & Hm1); [done..|]. simplify_eq.
    st_step E. apply Z.eqb_neq in Hn as ->.
    destruct (IH w1 ds1 xs') as (w' & ds' & E' & Hd' & Hs' & P' & Erq' & Hm' & Enr'); try done.
    { rewrite Pd. simpl. by rewrite Permutation_middle, <-Px. }
    { rewrite Px in Hlen. simpl in Hlen. lia. }
    exists w', ds'. split_and!; try done; [|congruence|by auto|].
    + rewrite P', Pd, Px. simpl. by rewrite Permutation_middle.
    + rewrite Enr', Enr. destruct xs as [|x0 xs0]; [done|]. rewrite Px. simpl length.
      unfold u32. destruct xs'; simpl length; [f_equal; lia|].
      rewrite Zminus_mod_idemp_l. f_equal. lia.
Qed.

Lemma elv_drain_ok w ds xs :
  dispatch_rep w ds → sched w xs → NoDup (ds ++ xs) →
  nr_sorted (queue w) = u32 (Z.of_nat (length xs)) →
  ∃ w' ds', elv_drain_elevator ops w = Ok (tt, w') ∧ dispatch_rep w' ds' ∧ sched w' [] ∧
    ds' ≡ₚ ds ++ xs ∧ rqs w' = rqs w ∧ nr_sorted (queue w') = 0 ∧
    (∀ a, mapped (links w) a → mapped (links w') a).
Proof.
  intros Hd Hs Hnd Hnr.
  assert (∃ f, elevator_dispatch_fn ops = Some f) as [f Hf].
  { destruct xs as [|x xs']; [by destruct (law_dispatch_none w ds) as (f & ? & _); eauto|].
    destruct (law_dispatch_some w ds (x :: xs')) as (f & ? & ? & ? & ? & ? & ? & _); eauto. }
  destruct (drain_loop_ok w f ds xs (S (size (rqs w)))) as (w' & ds' & E & ? & ? & ? & ? & ? & Enr);
    try done.
  { pose proof (live_length (rqs w) xs (sched_nodup _ _ Hs) (λ r, sched_live _ _ r Hs)). lia. }
  exists w', ds'. split_and!; try done.
  - unfold elv_drain_elevator, lift, deref, get, mbind, st_bind. by rewrite Hf.
  - rewrite Enr. destruct xs as [|x xs]; [done|]. rewrite Hnr. unfold u32.
    rewrite Zminus_mod_idemp_l, Z.sub_diag. done.
Qed.

(** The queue is reported empty exactly when neither the dispatch queue nor the
    scheduler holds a request. *)
Lemma elv_queue_empty_ok w ds xs :
  dispatch_rep w ds → sched w xs →
  elv_queue_empty ops w = Ok (bool_decide (ds = []) && bool_decide (xs = []), w).
Proof.
  intros Hd Hs. unfold elv_queue_empty.
  st_step (on_links_read _ _ _ (list_empty_spec _ _ _ (dispatch_list _ _ Hd))).
  destruct ds as [|d ds]; simpl; [|done].
  destruct (law_empty w [] xs) as (f & -> & E); done.
Qed.

(** Changing the flags of a request nobody holds disturbs nothing. *)
Lemma holds_upd w ds xs r rq rq' :
  rqs w !! r = Some rq → r ∉ ds ++ xs → dispatch_rep w ds → sched w xs →
  let w' := set_rqs (<[r := rq']> (rqs w)) w in dispatch_rep w' ds ∧ sched w' xs.
Proof.
  intros Hr Hn Hd Hs w'. rewrite not_elem_of_app in Hn. destruct Hn as [Hn1 Hn2]. split.
  - apply (dispatch_rep_frame w w' ds []); [done| |by apply frame_refl|lelem].
    intros p Hp. simpl. apply lookup_insert_is_Some'. right. by apply (dispatch_live _ _ Hd).
  - apply (sched_frame w w' xs []); [done|done| |by apply frame_refl|lelem].
    intros p Hp. simpl. apply lookup_insert_ne. by intros ->.
Qed.

(** Linking a free request into the dispatch queue. *)
Lemma holds_link w h' ds l1 l2 xs r :
  is_Some (rqs w !! r) → ds = l1 ++ l2 → r ∉ ds ++ xs → (∀ p, p ∈ ds → p ∉ xs) →
  dispatch_rep w ds → sched w xs →
  is_list h' queue_head (queuelist <$> l1 ++ r :: l2) →
  frame (links w) h' (queuelist r :: queue_head :: (queuelist <$> ds)) →
  dispatch_rep (set_links h' w) (l1 ++ r :: l2) ∧ sched (set_links h' w) xs.
Proof.
  intros Hr -> Hn Hdis Hd Hs Hl Hf. split.
  - split; [done|]. intros p Hp. rewrite <-Permutation_middle in Hp.
    apply elem_of_cons in Hp as [->|Hp]; [done|]. by apply (dispatch_live _ _ Hd).
  - apply (sched_frame w _ xs (queuelist r :: queue_head :: (queuelist <$> l1 ++ l2))); try done.
    intros a [->|Ha]%elem_of_cons; [right; exists r; split; [done|lelem]|].
    by apply (core_nodes (l1 ++ l2)).
Qed.

(** Front insertion: the request is the first one the driver will see. *)
Lemma elv_insert_front_ok w ds xs r rq :
  dispatch_rep w ds → sched w xs → NoDup (ds ++ xs) →
  rqs w !! r = Some rq → r ∉ ds ++ xs → mapped (links w) (queuelist r) →
  ∃ w', elv_insert_front r w = Ok (tt, w') ∧ dispatch_rep w' (r :: ds) ∧ sched w' xs ∧
    rqs w' = <[r := set_cmd_flags (Z.lor (cmd_flags rq) REQ_SOFTBARRIER) rq]> (rqs w) ∧
    queue w' = queue w ∧ hash w' = hash w.
Proof.
  intros Hd Hs Hnd Hr Hn Hm. unfold elv_insert_front. st_step (rq_upd_ok _ _ _ _ Hr).
  set (rq' := set_cmd_flags _ _). set (w1 := set_rqs _ w).
  destruct (holds_upd w ds xs r rq rq') as [Hd1 Hs1]; [done..|].
  destruct (list_add_spec (links w) queue_head [] (queuelist <$> ds) (queuelist r))
    as (h' & Ea & Hl' & Hf); [by apply dispatch_list| |done|].
  { apply not_elem_of_cons. split; [done|]. apply queuelist_notin. lelem. }
  destruct (holds_link w1 h' ds [] ds xs r) as [Hd2 Hs2];
    [|reflexivity|done| |exact Hd1|exact Hs1|done|done|].
  { simpl. rewrite lookup_insert_eq. eauto. }
  { by apply NoDup_app in Hnd as (_ & ? & _). }
  eexists. split; [apply on_links_ok, Ea|]. by split_and!.
Qed.

(** Back insertion: everything queued earlier is drained in front of the
    request, which ends up last; then the queue is run. *)
Lemma elv_insert_back_ok w ds xs r rq :
  dispatch_rep w ds → sched w xs → NoDup (ds ++ xs) →
  nr_sorted (queue w) = u32 (Z.of_nat (length xs)) →
  rqs w !! r = Some rq → r ∉ ds ++ xs → mapped (links w) (queuelist r) →
  ∃ w' ds', (∀ request_fn, elv_insert_back ops request_fn r w = __blk_run_queue ops request_fn w') ∧
    dispatch_rep w' (ds' ++ [r]) ∧ ds' ≡ₚ ds ++ xs ∧ sched w' [] ∧
    rqs w' = <[r := set_cmd_flags (Z.lor (cmd_flags rq) REQ_SOFTBARRIER) rq]> (rqs w) ∧
    nr_sorted (queue w') = 0.
Proof.
  intros Hd Hs Hnd Hnr Hr Hn Hm.
  set (rq' := set_cmd_flags (Z.lor (cmd_flags rq) REQ_SOFTBARRIER) rq).
  set (w1 := set_rqs (<[r := rq']> (rqs w)) w).
  destruct (holds_upd w ds xs r rq rq') as [Hd1 Hs1]; [done..|].
  destruct (elv_drain_ok w1 ds xs) as (w2 & ds' & E & Hd2 & Hs2 & Pd & Erq & Enr & Hm2); [done..|].
  assert (r ∉ ds') as Hn' by by rewrite Pd.
  destruct (list_add_tail_spec (links w2) queue_head (queuelist <$> ds') [] (queuelist r))
    as (h' & Ea & Hl' & Hf); [by rewrite app_nil_r; apply dispatch_list| |by apply Hm2|].
  { apply not_elem_of_cons. split; [done|]. rewrite app_nil_r. by apply queuelist_notin. }
  rewrite app_nil_r in Hf.
  destruct (holds_link w2 h' ds' ds' [] [] r) as [Hd3 Hs3]; try done.
  { rewrite Erq. simpl. rewrite lookup_insert_eq. eauto. }
  { by rewrite app_nil_r. }
  { by rewrite app_nil_r. }
  { intros ??. apply not_elem_of_nil. }
  { by rewrite fmap_app. }
  exists (set_links h' w2), ds'. split; [|by split_and!]. intros request_fn. unfold elv_insert_back.
  st_step (rq_upd_ok _ _ _ _ Hr). st_step E. by rewrite (st_bind_ok _ _ _ _ _ (on_links_ok _ _ _ _ Ea)).
Qed.

(** Entering a fresh request into the merge hash. *)
Lemma sort_hash_ok w r rq :
  rqs w !! r = Some rq → hash_wf (rqs w) (hash w) → ELV_ON_HASH r (hash w) = false →
  ∃ h' q', (when (rq_mergeable rq) (elv_rqhash_add r;; q ← q_get;
      when (bool_decide (last_merge q = None)) (q_upd (set_last_merge (Some r))))) w
    = Ok (tt, set_queue q' (set_hash h' w)) ∧
    nr_sorted q' = nr_sorted (queue w) ∧ queue_flags q' = queue_flags (queue w) ∧
    if rq_mergeable rq then
      ∃ c, h' !! Z.to_nat (ELV_HASH_FN (rq_hash_key rq)) = Some (r :: c) ∧ is_Some (last_merge q')
    else h' = hash w ∧ last_merge q' = last_merge (queue w).
Proof.
  intros Hr Hh Hoff. unfold when at 1. destruct (rq_mergeable rq) eqn:Em.
  2: { exists (hash w), (queue w). by destruct w. }
  destruct (elv_rqhash_add_ok r w rq) as (c & Hc & Ea); [done..|].
  st_step Ea. set (w' := set_hash _ w). rewrite (st_bind_ok _ _ w' (queue w') w' eq_refl).
  assert (hash w' !! Z.to_nat (ELV_HASH_FN (rq_hash_key rq)) = Some (r :: c)).
  { apply list_lookup_insert_eq. by eapply lookup_lt_Some. }
  unfold when. case_bool_decide as El.
  - exists (hash w'), (set_last_merge (Some r) (queue w)). split_and!; [done..|].
    exists c. by split; [|eexists].
  - exists (hash w'), (queue w). split_and!; [by destruct w|done|done|]. exists c.
    split; [done|]. by apply not_eq_None_Some.
Qed.

(** Changing flags keeps the merge hash well formed. *)
Lemma hash_wf_upd tbl h r rq f :
  hash_wf tbl h → tbl !! r = Some rq → hash_wf (<[r := set_cmd_flags f rq]> tbl) h.
Proof.
  intros [Hh1 Hh2 Hh3] Hr. split; [done| |done]. intros i d p Hi Hp.
  destruct (Hh2 i d p Hi Hp) as (prq & Hprq & ->).
  destruct (decide (p = r)) as [->|]; [|by exists prq; rewrite lookup_insert_ne].
  exists (set_cmd_flags f rq). rewrite lookup_insert_eq. by simplify_eq.
Qed.

(** What sending requests on leaves of the queue and the hash. *)
Lemma sent_on_nr tbl q l : nr_sorted (foldl (sent_on tbl) q l) =
  match l with [] => nr_sorted q | _ => u32 (nr_sorted q - Z.of_nat (length l)) end.
Proof.
  revert q. induction l as [|a l IH]; intros q; [done|]. simpl foldl. rewrite IH. simpl nr_sorted.
  destruct l; simpl length; unfold u32; [f_equal; lia|]. rewrite Zminus_mod_idemp_l. f_equal. lia.
Qed.
Lemma sent_on_flags tbl q l : queue_flags (foldl (sent_on tbl) q l) = queue_flags q.
Proof. revert q. induction l as [|a l IH]; intros q; [done|]. simpl foldl. by rewrite IH. Qed.

Lemma hash_del_head i r c h l : h !! i = Some (r :: c) → r ∉ l →
  ∃ c', foldl (λ h a, hash_del a h) h l !! i = Some (r :: c').
Proof.
  revert h c. induction l as [|a l IH]; intros h c Hi Hr; [by exists c|].
  apply not_elem_of_cons in Hr as [Hra Hr]. simpl. eapply IH; [|done].
  unfold hash_del. rewrite list_lookup_fmap, Hi. simpl. by rewrite filter_cons_True.
Qed.

(** Sorted insertion: the request is handed to the scheduler, counted, and, when
    it can take merges, entered into the merge hash on the chain of its end. *)
Lemma elv_insert_sort_ok w ds xs r rq :
  let rq' := set_cmd_flags (Z.lor (cmd_flags rq) REQ_SORTED) rq in
  dispatch_rep w ds → sched w xs → NoDup (ds ++ xs) →
  rqs w !! r = Some rq → r ∉ ds ++ xs → ready w r →
  blk_fs_request rq || blk_discard_rq rq = true →
  hash_wf (rqs w) (hash w) → ELV_ON_HASH r (hash w) = false →
  ∃ w' moved rest xs', elv_insert_sort ops r w = Ok (tt, w') ∧ xs ≡ₚ moved ++ rest ∧
    dispatch_rep w' (ds ++ moved) ∧ sched w' xs' ∧ xs' ≡ₚ r :: rest ∧
    nr_sorted (queue w') = u32 (nr_sorted (queue w) + 1 - Z.of_nat (length moved)) ∧
    rqs w' = <[r := rq']> (rqs w) ∧ queue_flags (queue w') = queue_flags (queue w) ∧
    (if rq_mergeable rq' then
       ∃ c, hash w' !! Z.to_nat (ELV_HASH_FN (rq_hash_key rq)) = Some (r :: c) ∧
         (moved = [] → is_Some (last_merge (queue w')))
     else hash w' = foldl (λ h a, hash_del a h) (hash w) moved ∧
       (moved = [] → last_merge (queue w') = last_merge (queue w))).
Proof.
  intros rq' Hd Hs Hnd Hr Hn Hrdy Hfs Hh Hoff. unfold elv_insert_sort.
  st_step (rq_get_ok _ _ _ Hr). rewrite <-negb_orb, Hfs. simpl.
  rewrite (st_bind_ok _ _ w tt w eq_refl). st_step (rq_upd_ok _ _ _ _ Hr). fold rq'.
  erewrite (st_bind_ok (q_upd _)); [|reflexivity]. set (w1 := set_queue _ _).
  assert (rqs w1 !! r = Some rq') as Hr1 by apply lookup_insert_eq.
  st_step (rq_get_ok _ _ _ Hr1).
  destruct (holds_upd w ds xs r rq rq') as [Hd1 Hs1]; [done..|].
  destruct (sort_hash_ok w1 r rq') as (h' & q' & E2 & Enr & Efl & Hm);
    [done|by apply hash_wf_upd|done|].
  st_step E2. set (w2 := set_queue q' _).
  destruct (law_add w2 ds xs r) as (f & w3 & moved & rest & xs' & Ef & E3 & Pm & Px & Hd3 & Hs3 & Eq & Eh & Er); [| |done|done| |].
  { apply (dispatch_rep_frame (set_rqs (<[r:=rq']> (rqs w)) w) w2 ds []);
      [done| |by apply frame_refl|lelem]. apply (dispatch_live _ _ Hd1). }
  { apply (sched_frame (set_rqs (<[r:=rq']> (rqs w)) w) w2 xs []);
      [done..|by apply frame_refl|lelem]. }
  { apply (ready_frame w w2); [done..|]. intros rq0 Hrq0. simplify_eq.
    exists (Z.lor (cmd_flags rq) REQ_SORTED). done. }
  exists w3, moved, rest, xs'. rewrite Ef. rewrite (st_bind_ok _ _ w2 f w2 eq_refl).
  rewrite Eq, Eh, Er, sent_on_nr, sent_on_flags. split_and!; [done..| |done|done|].
  - destruct moved as [|a moved]; simpl; rewrite Enr; simpl; unfold u32; [by rewrite Z.sub_0_r|].
    by rewrite Zminus_mod_idemp_l.
  - simpl queue. simpl hash. destruct (rq_mergeable rq'); [|destruct Hm as [-> Hm]; split; [done|by intros ->]].
    destruct Hm as (c & Hc & Hlm). destruct (hash_del_head _ _ _ _ moved Hc) as [c' Hc'].
    { intros Hrm. apply Hn, elem_of_app. right. rewrite Pm. apply elem_of_app. by left. }
    exists c'. split; [done|]. by intros ->.
Qed.
End contract.
