(* ===== verification/Settings.v ===== *)
(** * Queue limits and settings ([block/blk-settings.c])

    The setters drivers call to describe their device, the combination of the
    limits of stacked devices, the helpers of [include/linux/blkdev.h],
    [lib/gcd.c] and [lib/lcm.c] they use, and the congestion thresholds of
    [block/blk-core.c].  Then: the limits stay well formed under every setter,
    and stacking tightens them without losing a constraint of either device.

    64-bit longs, 4 KiB pages and [HZ = 250] are assumed, as elsewhere. *)

From S2P Require Import Prelude KList Request.

Local Open Scope Z_scope.

Definition PAGE_SHIFT : Z := 12.
Definition PAGE_CACHE_SHIFT : Z := PAGE_SHIFT.
Definition PAGE_CACHE_SIZE : Z := Z.shiftl 1 PAGE_CACHE_SHIFT.
Definition INT_MAX : Z := 2 ^ 31 - 1.
Definition HZ : Z := 250.
Definition MSEC_PER_SEC : Z := 1000.
Definition GFP_NOIO : Z := 0x10.
Definition GFP_DMA : Z := 0x01.
Definition BLKDEV_MIN_RQ : Z := 4.
Definition BLKDEV_MAX_RQ : Z := 128.
Definition BLK_BATCH_REQ : Z := 32.

(** [enum blk_default_limits] *)
Definition BLK_MAX_SEGMENTS : Z := 128.
Definition BLK_SAFE_MAX_SECTORS : Z := 255.
Definition BLK_DEF_MAX_SECTORS : Z := 1024.
Definition BLK_MAX_SEGMENT_SIZE : Z := 65536.
Definition BLK_SEG_BOUNDARY_MASK : Z := 0xFFFFFFFF.
Definition BLK_BOUNCE_ANY : Z := 2 ^ 64 - 1.
Definition BLK_BOUNCE_HIGH : Z := 2 ^ 64 - 1.

(** ** Arithmetic helpers *)

(** [gcd]: the loop divides by [b], which faults when [b] is 0.  Two rounds
    halve the divisor, so 128 rounds are enough for 64-bit numbers. *)
Fixpoint gcd_loop (fuel : nat) (a b : Z) : res Z :=
  match fuel with
  | O => Err HANG
  | S fuel =>
    if b =? 0 then Err OOPS else
    let r := a mod b in
    if r =? 0 then Ok b else gcd_loop fuel b r
  end.

Definition gcd (a b : Z) : res Z :=
  if a <? b then gcd_loop 128 b a else gcd_loop 128 a b.

Definition lcm (a b : Z) : res Z :=
  if negb (a =? 0) && negb (b =? 0) then
    g ← gcd a b;
    Ok (u64 (a * b) / g)
  else if negb (b =? 0) then Ok b
  else Ok a.

Definition min_not_zero (l r : Z) : Z :=
  if l =? 0 then r else if r =? 0 then l else Z.min l r.

(** [msecs_to_jiffies] of [kernel/time.c], for [HZ] a divisor of 1000. *)
Definition MAX_JIFFY_OFFSET : Z := Z.shiftr (2 ^ 63 - 1) 1 - 1.
Definition msecs_to_jiffies (m : Z) : Z :=
  if s32 m <? 0 then MAX_JIFFY_OFFSET
  else (m + MSEC_PER_SEC / HZ - 1) / (MSEC_PER_SEC / HZ).

(** ** Accessors *)
Definition conf_upd (f : queue_conf → queue_conf) (q : request_queue) : request_queue :=
  set_conf (f (conf q)) q.
Definition limits_upd (f : queue_limits → queue_limits) (q : request_queue) : request_queue :=
  conf_upd (λ c, set_limits (f (limits c)) c) q.
Definition q_limits (q : request_queue) : queue_limits := limits (conf q).

Definition queue_bounce_pfn (q : request_queue) : Z := bounce_pfn (q_limits q).
Definition queue_segment_boundary (q : request_queue) : Z := seg_boundary_mask (q_limits q).
Definition queue_max_sectors (q : request_queue) : Z := max_sectors (q_limits q).
Definition queue_max_hw_sectors (q : request_queue) : Z := max_hw_sectors (q_limits q).
Definition queue_max_segments (q : request_queue) : Z := max_segments (q_limits q).
Definition queue_max_segment_size (q : request_queue) : Z := max_segment_size (q_limits q).
Definition queue_logical_block_size (q : request_queue) : Z :=
  if negb (logical_block_size (q_limits q) =? 0) then logical_block_size (q_limits q) else 512.
Definition queue_physical_block_size (q : request_queue) : Z := physical_block_size (q_limits q).
Definition queue_io_min (q : request_queue) : Z := io_min (q_limits q).
Definition queue_io_opt (q : request_queue) : Z := io_opt (q_limits q).
Definition queue_discard_zeroes_data (q : request_queue) : Z :=
  if discard_zeroes_data (q_limits q) =? 1 then 1 else 0.
Definition queue_alignment_offset (q : request_queue) : Z :=
  if negb (misaligned (q_limits q) =? 0) then -1 else s32 (alignment_offset (q_limits q)).
Definition queue_discard_alignment (q : request_queue) : Z :=
  if negb (discard_misaligned (q_limits q) =? 0) then -1 else s32 (discard_alignment (q_limits q)).

Definition queue_limit_alignment_offset (lim : queue_limits) (sector : Z) : Z :=
  let granularity := Z.max (physical_block_size lim) (io_min lim) in
  let alignment := Z.land (u64 (Z.shiftl sector 9)) (u32 (granularity - 1)) in
  s32 (Z.land (u32 (granularity + alignment_offset lim - alignment)) (u32 (granularity - 1))).

Definition queue_limit_discard_alignment (lim : queue_limits) (sector : Z) : Z :=
  let alignment := Z.land (u64 (Z.shiftl sector 9)) (u32 (discard_granularity lim - 1)) in
  s32 (Z.land (u32 (discard_granularity lim + discard_alignment lim - alignment))
              (u32 (discard_granularity lim - 1))).

(** ** Congestion and full marks *)
Definition blk_queue_congestion_threshold (q : request_queue) : request_queue :=
  let n := nr_requests (conf q) in
  let nr := s32 (n - n / 8 + 1) in
  let nr := if u64 nr >? n then s32 n else nr in
  let q := conf_upd (set_nr_congestion_on (u32 nr)) q in
  let nr := s32 (n - n / 8 - n / 16 - 1) in
  let nr := if nr <? 1 then 1 else nr in
  conf_upd (set_nr_congestion_off (u32 nr)) q.

Definition queue_congestion_on_threshold (q : request_queue) : Z := s32 (nr_congestion_on (conf q)).
Definition queue_congestion_off_threshold (q : request_queue) : Z := s32 (nr_congestion_off (conf q)).

Definition blk_set_queue_congested (sync : bool) (q : request_queue) : request_queue :=
  set_congested (upd_sync (λ _, true) sync (congested q)) q.
Definition blk_clear_queue_congested (sync : bool) (q : request_queue) : request_queue :=
  set_congested (upd_sync (λ _, false) sync (congested q)) q.

Definition blk_queue_full (q : request_queue) (sync : bool) : bool :=
  if sync then test_bit QUEUE_FLAG_SYNCFULL (queue_flags q)
  else test_bit QUEUE_FLAG_ASYNCFULL (queue_flags q).
Definition blk_set_queue_full (sync : bool) (q : request_queue) : request_queue :=
  if sync then flag_set QUEUE_FLAG_SYNCFULL q else flag_set QUEUE_FLAG_ASYNCFULL q.
Definition blk_clear_queue_full (sync : bool) (q : request_queue) : request_queue :=
  if sync then flag_clear QUEUE_FLAG_SYNCFULL q else flag_clear QUEUE_FLAG_ASYNCFULL q.

Lemma full_set sync sync' q :
  blk_queue_full (blk_set_queue_full sync q) sync' = eqb sync sync' || blk_queue_full q sync'.
Proof.
  unfold blk_queue_full, test_bit, blk_set_queue_full, flag_set.
  destruct sync, sync'; cbn [eqb orb queue_flags set_queue_flags];
    first [apply Z.setbit_eq; done|apply Z.setbit_neq; done].
Qed.
Lemma full_clear sync sync' q :
  blk_queue_full (blk_clear_queue_full sync q) sync' = negb (eqb sync sync') && blk_queue_full q sync'.
Proof.
  unfold blk_queue_full, test_bit, blk_clear_queue_full, flag_clear.
  destruct sync, sync'; cbn [eqb negb andb queue_flags set_queue_flags];
    first [apply Z.clearbit_eq|apply Z.clearbit_neq; done].
Qed.

(** ** Setters for drivers *)
Definition blk_queue_prep_rq (pfn : option positive) : request_queue → request_queue :=
  conf_upd (set_prep_rq_fn pfn).
Definition blk_queue_merge_bvec (mbfn : option positive) : request_queue → request_queue :=
  conf_upd (set_merge_bvec_fn mbfn).
Definition blk_queue_softirq_done (fn : option positive) : request_queue → request_queue :=
  conf_upd (set_softirq_done_fn fn).
Definition blk_queue_rq_timeout (t : Z) : request_queue → request_queue :=
  conf_upd (set_rq_timeout t).
Definition blk_queue_rq_timed_out (fn : option positive) : request_queue → request_queue :=
  conf_upd (set_rq_timed_out_fn fn).
Definition blk_queue_lld_busy (fn : option positive) : request_queue → request_queue :=
  conf_upd (set_lld_busy_fn fn).

(** Every member is assigned; the previous contents do not matter. *)
Definition blk_set_default_limits : queue_limits :=
  {| max_segments := BLK_MAX_SEGMENTS;
     seg_boundary_mask := BLK_SEG_BOUNDARY_MASK;
     max_segment_size := BLK_MAX_SEGMENT_SIZE;
     max_sectors := BLK_DEF_MAX_SECTORS;
     max_hw_sectors := INT_MAX;
     max_discard_sectors := 0;
     discard_granularity := 0;
     discard_alignment := 0;
     discard_misaligned := 0;
     discard_zeroes_data := -1;
     logical_block_size := 512;
     physical_block_size := 512;
     io_min := 512;
     bounce_pfn := Z.shiftr BLK_BOUNCE_ANY PAGE_SHIFT;
     alignment_offset := 0;
     io_opt := 0;
     misaligned := 0;
     no_cluster := 0 |}.

(** [max_low_pfn], a variable of the memory manager, is an argument; the
    emergency pool that DMA-limited queues set up is not modelled. *)
Definition blk_queue_bounce_limit (max_low_pfn dma_mask : Z) (q : request_queue) : request_queue :=
  let b_pfn := Z.shiftr dma_mask PAGE_SHIFT in
  let q := conf_upd (set_bounce_gfp GFP_NOIO) q in
  let dma := b_pfn <? Z.shiftr (Z.min 0xffffffff BLK_BOUNCE_HIGH) PAGE_SHIFT in
  let q := limits_upd (set_bounce_pfn max_low_pfn) q in
  if dma then
    let q := conf_upd (set_bounce_gfp (Z.lor GFP_NOIO GFP_DMA)) q in
    limits_upd (set_bounce_pfn b_pfn) q
  else q.

Definition blk_queue_max_hw_sectors (n : Z) (q : request_queue) : request_queue :=
  let n := if u32 (Z.shiftl n 9) <? PAGE_CACHE_SIZE
           then Z.shiftl 1 (PAGE_CACHE_SHIFT - 9) else n in
  let q := limits_upd (set_max_hw_sectors n) q in
  limits_upd (set_max_sectors (Z.min n BLK_DEF_MAX_SECTORS)) q.

Definition blk_queue_max_discard_sectors (n : Z) : request_queue → request_queue :=
  limits_upd (set_max_discard_sectors n).

Definition blk_queue_max_segments (n : Z) (q : request_queue) : request_queue :=
  let n := if n =? 0 then 1 else n in
  limits_upd (set_max_segments n) q.

Definition blk_queue_max_segment_size (max_size : Z) (q : request_queue) : request_queue :=
  let max_size := if max_size <? PAGE_CACHE_SIZE then PAGE_CACHE_SIZE else max_size in
  limits_upd (set_max_segment_size max_size) q.

Definition blk_queue_logical_block_size (size : Z) : request_queue → request_queue :=
  limits_upd (λ l,
    let l := set_logical_block_size size l in
    let l := if physical_block_size l <? size then set_physical_block_size size l else l in
    if io_min l <? physical_block_size l then set_io_min (physical_block_size l) l else l).

Definition blk_queue_physical_block_size (size : Z) : request_queue → request_queue :=
  limits_upd (λ l,
    let l := set_physical_block_size size l in
    let l := if physical_block_size l <? logical_block_size l
             then set_physical_block_size (logical_block_size l) l else l in
    if io_min l <? physical_block_size l then set_io_min (physical_block_size l) l else l).

Definition blk_queue_alignment_offset (offset : Z) : request_queue → request_queue :=
  limits_upd (λ l,
    let l := set_alignment_offset (Z.land offset (u32 (physical_block_size l - 1))) l in
    set_misaligned 0 l).

Definition blk_limits_io_min (min : Z) (l : queue_limits) : queue_limits :=
  let l := set_io_min min l in
  let l := if io_min l <? logical_block_size l then set_io_min (logical_block_size l) l else l in
  if io_min l <? physical_block_size l then set_io_min (physical_block_size l) l else l.
Definition blk_queue_io_min (min : Z) : request_queue → request_queue :=
  limits_upd (blk_limits_io_min min).

Definition blk_limits_io_opt (opt : Z) : queue_limits → queue_limits := set_io_opt opt.
Definition blk_queue_io_opt (opt : Z) : request_queue → request_queue :=
  limits_upd (blk_limits_io_opt opt).

Definition blk_queue_dma_pad (mask : Z) : request_queue → request_queue :=
  conf_upd (set_dma_pad_mask mask).
Definition blk_queue_update_dma_pad (mask : Z) (q : request_queue) : request_queue :=
  if mask >? dma_pad_mask (conf q) then conf_upd (set_dma_pad_mask mask) q else q.

Definition blk_queue_dma_drain (needed : option positive) (buf size : Z) (q : request_queue) :
    Z * request_queue :=
  if queue_max_segments q <? 2 then (- EINVAL, q) else
  let q := blk_queue_max_segments (u16 (queue_max_segments q - 1)) q in
  let q := conf_upd (set_dma_drain_needed needed) q in
  let q := conf_upd (set_dma_drain_buffer buf) q in
  let q := conf_upd (set_dma_drain_size size) q in
  (0, q).

Definition blk_queue_segment_boundary (mask : Z) (q : request_queue) : request_queue :=
  let mask := if mask <? PAGE_CACHE_SIZE - 1 then PAGE_CACHE_SIZE - 1 else mask in
  limits_upd (set_seg_boundary_mask mask) q.

(** [mask] is an [int], [dma_alignment] an [unsigned int]. *)
Definition blk_queue_dma_alignment (mask : Z) : request_queue → request_queue :=
  conf_upd (set_dma_alignment (u32 mask)).
Definition blk_queue_update_dma_alignment (mask : Z) (q : request_queue) : res request_queue :=
  if u64 mask >? PAGE_CACHE_SIZE then Err BUG else
  if u32 mask >? dma_alignment (conf q) then Ok (conf_upd (set_dma_alignment (u32 mask)) q)
  else Ok q.

(** The unplug timer is not modelled. *)
Definition blk_queue_make_request (max_low_pfn : Z) (mfn : option positive) (q : request_queue) :
    request_queue :=
  let q := conf_upd (set_nr_requests BLKDEV_MAX_RQ) q in
  let q := conf_upd (set_make_request_fn mfn) q in
  let q := blk_queue_dma_alignment 511 q in
  let q := blk_queue_congestion_threshold q in
  let q := conf_upd (set_nr_batching BLK_BATCH_REQ) q in
  let q := set_unplug_thresh 4 q in
  let q := conf_upd (set_unplug_delay (msecs_to_jiffies 3)) q in
  let q := if unplug_delay (conf q) =? 0 then conf_upd (set_unplug_delay 1) q else q in
  let q := limits_upd (λ _, blk_set_default_limits) q in
  let q := blk_queue_max_hw_sectors BLK_SAFE_MAX_SECTORS q in
  let q := if negb (queue_lock (conf q)) then conf_upd (set_queue_lock true) q else q in
  blk_queue_bounce_limit max_low_pfn BLK_BOUNCE_HIGH q.

(** ** Stacking *)

(** The limits that are combined by taking the smaller one. *)
Definition stack_minima (t b : queue_limits) : queue_limits :=
  let t := set_max_sectors (min_not_zero (max_sectors t) (max_sectors b)) t in
  let t := set_max_hw_sectors (min_not_zero (max_hw_sectors t) (max_hw_sectors b)) t in
  let t := set_bounce_pfn (min_not_zero (bounce_pfn t) (bounce_pfn b)) t in
  let t := set_seg_boundary_mask (min_not_zero (seg_boundary_mask t) (seg_boundary_mask b)) t in
  let t := set_max_segments (min_not_zero (max_segments t) (max_segments b)) t in
  let t := set_max_segment_size (min_not_zero (max_segment_size t) (max_segment_size b)) t in
  set_misaligned (Z.lor (misaligned t) (misaligned b)) t.

(** [max(top, bottom) & (min(top, bottom) - 1)] *)
Definition not_lined_up (top bottom : Z) : bool :=
  tst (Z.max top bottom) (u32 (Z.min top bottom - 1)).

(** [t->misaligned = 1; ret = -1;] *)
Definition misalign (t : queue_limits) : Z * queue_limits := (-1, set_misaligned 1 t).

(** Is the alignment of the bottom device compatible with the top's? *)
Definition stack_alignment (b : queue_limits) (alignment : Z) (p : Z * queue_limits) :
    Z * queue_limits :=
  let '(ret, t) := p in
  if negb (alignment_offset t =? alignment) then
    let top := u32 (Z.max (physical_block_size t) (io_min t) + alignment_offset t) in
    let bottom := u32 (Z.max (physical_block_size b) (io_min b) + alignment) in
    if not_lined_up top bottom then misalign t else (ret, t)
  else (ret, t).

Definition stack_sizes (b t : queue_limits) : res queue_limits :=
  let t := set_logical_block_size (Z.max (logical_block_size t) (logical_block_size b)) t in
  let t := set_physical_block_size (Z.max (physical_block_size t) (physical_block_size b)) t in
  let t := set_io_min (Z.max (io_min t) (io_min b)) t in
  l ← lcm (io_opt t) (io_opt b);
  let t := set_io_opt (u32 l) t in
  let t := set_no_cluster (Z.lor (no_cluster t) (no_cluster b)) t in
  Ok (set_discard_zeroes_data (Z.land (discard_zeroes_data t) (discard_zeroes_data b)) t).

(** Each size a multiple of the previous one? *)
Definition check_physical (p : Z * queue_limits) : Z * queue_limits :=
  let '(ret, t) := p in
  if tst (physical_block_size t) (u32 (logical_block_size t - 1))
  then misalign (set_physical_block_size (logical_block_size t) t) else (ret, t).
Definition check_io_min (p : Z * queue_limits) : Z * queue_limits :=
  let '(ret, t) := p in
  if tst (io_min t) (u32 (physical_block_size t - 1))
  then misalign (set_io_min (physical_block_size t) t) else (ret, t).
Definition check_io_opt (p : Z * queue_limits) : Z * queue_limits :=
  let '(ret, t) := p in
  if tst (io_opt t) (u32 (physical_block_size t - 1))
  then misalign (set_io_opt 0 t) else (ret, t).

(** The common alignment offset, which must be on a logical block boundary. *)
Definition stack_offset (alignment : Z) (p : Z * queue_limits) : res (Z * queue_limits) :=
  let '(ret, t) := p in
  l ← lcm (alignment_offset t) alignment;
  let t := set_alignment_offset
             (Z.land l (u32 (Z.max (physical_block_size t) (io_min t) - 1))) t in
  Ok (if tst (alignment_offset t) (u32 (logical_block_size t - 1)) then misalign t else (ret, t)).

Definition stack_discard (b : queue_limits) (start : Z) (t : queue_limits) : res queue_limits :=
  if discard_granularity b =? 0 then Ok t else
  let alignment := u32 (queue_limit_discard_alignment b start) in
  let t :=
    if negb (discard_granularity t =? 0) && negb (discard_alignment t =? alignment) then
      let top := u32 (discard_granularity t + discard_alignment t) in
      let bottom := u32 (discard_granularity b + alignment) in
      if not_lined_up top bottom then set_discard_misaligned 1 t else t
    else t in
  let t := set_max_discard_sectors (min_not_zero (max_discard_sectors t) (max_discard_sectors b)) t in
  let t := set_discard_granularity (Z.max (discard_granularity t) (discard_granularity b)) t in
  l ← lcm (discard_alignment t) alignment;
  Ok (set_discard_alignment (Z.land l (u32 (discard_granularity t - 1))) t).

Definition blk_stack_limits (t b : queue_limits) (start : Z) : res (Z * queue_limits) :=
  let t := stack_minima t b in
  let alignment := u32 (queue_limit_alignment_offset b start) in
  let '(ret, t) := stack_alignment b alignment (0, t) in
  t ← stack_sizes b t;
  '(ret, t) ← stack_offset alignment (check_io_opt (check_io_min (check_physical (ret, t))));
  t ← stack_discard b start t;
  Ok (ret, t).

(** [blk_queue_stack_limits]: [t] and [b] are the stacked and the underlying
    queue. *)
Definition blk_queue_stack_limits (t b : request_queue) : res request_queue :=
  '(_, l) ← blk_stack_limits (q_limits t) (q_limits b) 0;
  let t := limits_upd (λ _, l) t in
  Ok (if negb (queue_lock (conf t)) then t
      else if negb (test_bit QUEUE_FLAG_CLUSTER (queue_flags b))
      then flag_clear QUEUE_FLAG_CLUSTER t else t).

(** [start_sect] is [get_start_sect(bdev)], the offset of the partition. *)
Definition bdev_stack_limits (t : queue_limits) (bq : request_queue) (start_sect start : Z) :
    res (Z * queue_limits) :=
  blk_stack_limits t (q_limits bq) (u64 (start + start_sect)).

Definition disk_stack_limits (t b : request_queue) (start_sect offset : Z) : res request_queue :=
  '(_, l) ← bdev_stack_limits (q_limits t) b start_sect (Z.shiftr offset 9);
  let t := limits_upd (λ _, l) t in
  Ok (if negb (queue_lock (conf t)) then t
      else if negb (test_bit QUEUE_FLAG_CLUSTER (queue_flags b))
      then flag_clear QUEUE_FLAG_CLUSTER t else t).

(** ** Arithmetic *)
Lemma gcd_loop_ok k a b :
  (1 ≤ k)%nat → 0 < b < 2 ^ Z.of_nat k → gcd_loop (2 * k) a b = Ok (Z.gcd a b).
Proof.
  revert a b. induction k as [|k IH]; intros a b Hk Hb; [lia|].
  replace (2 * S k)%nat with (S (S (2 * k))) by lia. simpl gcd_loop.
  destruct (Z.eqb_spec b 0) as [|_]; [lia|].
  rewrite (Z.gcd_comm a b), <-(Z.gcd_mod a b), Z.gcd_comm by lia.
  pose proof (Z.mod_pos_bound a b) as Hr. set (r := a mod b) in *. clearbody r.
  destruct (Z.eqb_spec r 0) as [->|Hr0]; [by rewrite Z.gcd_0_r, Z.abs_eq by lia|].
  rewrite (Z.gcd_comm b r), <-(Z.gcd_mod b r), Z.gcd_comm by lia.
  pose proof (Z.mod_pos_bound b r) as Hr'. pose proof (Z.div_mod b r) as Hd.
  assert (1 ≤ b / r) by (apply Z.div_le_lower_bound; lia).
  assert (2 * (b mod r) < b) by nia.
  set (r' := b mod r) in *. clearbody r'.
  destruct (Z.eqb_spec r' 0) as [->|]; [by rewrite Z.gcd_0_r, Z.abs_eq by lia|].
  rewrite Nat2Z.inj_succ, Z.pow_succ_r in Hb by lia.
  destruct k as [|k]; [simpl in Hb; lia|]. rewrite IH; [done|lia|lia].
Qed.

Lemma gcd_ok a b : 0 < a < 2 ^ 64 → 0 < b < 2 ^ 64 → gcd a b = Ok (Z.gcd a b).
Proof.
  intros Ha Hb. unfold gcd. change 128%nat with (2 * 64)%nat.
  destruct (a <? b); [rewrite Z.gcd_comm|]; apply gcd_loop_ok; done || lia.
Qed.

(** [lcm] with the convention that 0 is neutral. *)
Definition lcm0 (a b : Z) : Z := if a =? 0 then b else if b =? 0 then a else Z.lcm a b.

Lemma lcm_ok a b : 0 ≤ a < 2 ^ 32 → 0 ≤ b < 2 ^ 32 → lcm a b = Ok (lcm0 a b).
Proof.
  intros Ha Hb. unfold lcm, lcm0.
  destruct (Z.eqb_spec a 0), (Z.eqb_spec b 0); simpl; try done; [by subst|].
  rewrite gcd_ok by lia. simpl. rewrite u64_id by nia. f_equal.
  pose proof (Z.gcd_nonneg a b). pose proof (Z.gcd_eq_0_l a b).
  pose proof (Z.gcd_divide_r a b) as [c Hc].
  unfold Z.lcm. rewrite Z.abs_eq.
  - rewrite Hc at 1 3. rewrite Z.div_mul, Z.mul_assoc, Z.div_mul by lia. done.
  - apply Z.mul_nonneg_nonneg; [lia|]. apply Z.div_pos; lia.
Qed.

Lemma lcm0_self a : 0 ≤ a → lcm0 a a = a.
Proof.
  intros ?. unfold lcm0. destruct (Z.eqb_spec a 0) as [|]; [done|].
  by rewrite Z.lcm_diag, Z.abs_eq.
Qed.

(** *** Powers of two *)
Definition pow2 (x : Z) : Prop := ∃ k, 0 ≤ k ∧ x = 2 ^ k.

Lemma pow2_pos x : pow2 x → 1 ≤ x.
Proof. intros (k & ? & ->). pose proof (Z.pow_pos_nonneg 2 k). lia. Qed.

Lemma pow2_max x y : pow2 x → pow2 y → pow2 (Z.max x y).
Proof. intros ??. by destruct (Z.max_spec x y) as [[_ ->]|[_ ->]]. Qed.

Lemma pow2_divide x y : pow2 x → pow2 y → x ≤ y → (x | y).
Proof.
  intros (k & ? & ->) (n & ? & ->) Hle. exists (2 ^ (n - k)).
  rewrite <-Z.pow_add_r; [f_equal; lia| |lia].
  destruct (Z.le_gt_cases k n); [lia|]. pose proof (Z.pow_lt_mono_r 2 n k). lia.
Qed.

Lemma land_pow2 x p : pow2 p → p < 2 ^ 32 → Z.land x (u32 (p - 1)) = x mod p.
Proof.
  intros Hp Hlt. pose proof (pow2_pos _ Hp). rewrite u32_id by lia.
  destruct Hp as (k & ? & ->). rewrite <-Z.land_ones by done. f_equal.
  rewrite Z.ones_equiv. lia.
Qed.

Lemma tst_pow2 x p : pow2 p → p < 2 ^ 32 → tst x (u32 (p - 1)) = negb (x mod p =? 0).
Proof. intros. unfold tst. by rewrite land_pow2. Qed.

Lemma tst_pow2_false x p : pow2 p → p < 2 ^ 32 → tst x (u32 (p - 1)) = false → (p | x).
Proof.
  intros Hp ? E. rewrite tst_pow2 in E by done. bprop.
  apply Z.mod_divide; [|done]. pose proof (pow2_pos _ Hp). lia.
Qed.

Lemma land_u32_range x y : 0 ≤ x → 0 ≤ Z.land x (u32 y) < 2 ^ 32.
Proof.
  intros Hx. pose proof (u32_range y) as Hy. split; [apply Z.land_nonneg; lia|].
  destruct (Z.eq_dec (Z.land x (u32 y)) 0) as [->|Hne]; [done|].
  pose proof (Z.land_nonneg x (u32 y)). apply Z.log2_lt_pow2; [lia|].
  pose proof (Z.log2_land x (u32 y)).
  assert (Z.log2 (u32 y) < 32); [|lia].
  destruct (Z.eq_dec (u32 y) 0) as [E|]; [rewrite E; done|]. apply Z.log2_lt_pow2; lia.
Qed.

(** ** Well-formed limits

    Block sizes are powers of two and grow from logical to physical block to
    minimum I/O; no limit that bounds a transfer is zero; the soft limit on
    sectors does not exceed the hard one. *)
Record limits_wf (l : queue_limits) : Prop := {
  wf_logical : pow2 (logical_block_size l) ∧ logical_block_size l < 2 ^ 16;
  wf_physical : pow2 (physical_block_size l) ∧
                logical_block_size l ≤ physical_block_size l < 2 ^ 16;
  wf_io_min : physical_block_size l ≤ io_min l < 2 ^ 32;
  wf_io_opt : 0 ≤ io_opt l < 2 ^ 32;
  wf_offset : 0 ≤ alignment_offset l < 2 ^ 32;
  wf_sectors : 1 ≤ max_sectors l ≤ max_hw_sectors l;
  wf_hw_sectors : max_hw_sectors l < 2 ^ 32;
  wf_segments : 1 ≤ max_segments l < 2 ^ 16;
  wf_segment_size : PAGE_CACHE_SIZE ≤ max_segment_size l < 2 ^ 32;
  wf_boundary : PAGE_CACHE_SIZE - 1 ≤ seg_boundary_mask l < 2 ^ 64;
  wf_discard : 0 ≤ discard_granularity l < 2 ^ 32 ∧ 0 ≤ discard_alignment l < 2 ^ 32;
  wf_misaligned : misaligned l = 0 ∨ misaligned l = 1
}.

Lemma min_not_zero_min x y : 1 ≤ x → 1 ≤ y → min_not_zero x y = Z.min x y.
Proof. intros. unfold min_not_zero. by destruct (Z.eqb_spec x 0), (Z.eqb_spec y 0); try lia. Qed.

Lemma lor_flag x y : (x = 0 ∨ x = 1) → (y = 0 ∨ y = 1) → Z.lor x y = Z.max x y.
Proof. by intros [->| ->] [->| ->]. Qed.

Ltac wf_solve :=
  unfold q_limits in *;
  repeat match goal with
  | H : limits_wf _ |- _ => destruct H
  | H : _ ∧ _ |- _ => destruct H
  end; constructor; cbn in *;
  repeat match goal with |- context [ if ?b then _ else _ ] => destruct b eqn:?; cbn in * end;
  bprop; split_and?; eauto; try lia.

Lemma default_limits_wf : limits_wf blk_set_default_limits.
Proof.
  assert (pow2 512) by (by exists 9).
  change blk_set_default_limits with (QueueLimits (2 ^ 52 - 1) (2 ^ 32 - 1) (2 ^ 31 - 1) 1024 65536
    512 0 512 0 0 0 0 512 128 0 0 0 (-1)).
  constructor; cbn [logical_block_size physical_block_size io_min io_opt alignment_offset max_sectors
    max_hw_sectors max_segments max_segment_size seg_boundary_mask discard_granularity
    discard_alignment misaligned]; change PAGE_CACHE_SIZE with 4096;
    split_and?; auto; lia.
Qed.

Lemma make_request_wf max_low_pfn mfn q :
  limits_wf (q_limits (blk_queue_make_request max_low_pfn mfn q)).
Proof.
  set (l := q_limits _).
  assert (l = set_bounce_pfn max_low_pfn (set_max_sectors 255 (set_max_hw_sectors 255
                blk_set_default_limits))) as ->.
  { subst l. unfold blk_queue_make_request. cbv zeta.
    destruct (unplug_delay _ =? 0), (negb _); reflexivity. }
  destruct default_limits_wf. constructor; cbn in *; eauto; lia.
Qed.

Lemma max_hw_sectors_wf n q :
  0 ≤ n < 2 ^ 32 → limits_wf (q_limits q) → limits_wf (q_limits (blk_queue_max_hw_sectors n q)).
Proof.
  intros Hn H. unfold blk_queue_max_hw_sectors.
  set (m := if _ <? _ then _ else _).
  assert (1 ≤ m < 2 ^ 32).
  { subst m. destruct (u32 (Z.shiftl n 9) <? PAGE_CACHE_SIZE) eqn:E; [done|]. bprop.
    unfold u32 in E. rewrite Z.shiftl_mul_pow2 in E by lia.
    destruct (Z.eq_dec n 0) as [->|]; [done|lia]. }
  clearbody m. destruct H. constructor; cbn in *; eauto; unfold BLK_DEF_MAX_SECTORS; lia.
Qed.
Lemma max_segments_wf n q :
  0 ≤ n < 2 ^ 16 → limits_wf (q_limits q) → limits_wf (q_limits (blk_queue_max_segments n q)).
Proof. intros Hn H. wf_solve. Qed.
Lemma max_segment_size_wf n q :
  0 ≤ n < 2 ^ 32 → limits_wf (q_limits q) → limits_wf (q_limits (blk_queue_max_segment_size n q)).
Proof. intros Hn H. wf_solve. Qed.
Lemma segment_boundary_wf n q :
  0 ≤ n < 2 ^ 64 → limits_wf (q_limits q) → limits_wf (q_limits (blk_queue_segment_boundary n q)).
Proof. intros Hn H. wf_solve. Qed.
Lemma logical_block_size_wf n q :
  pow2 n → n < 2 ^ 16 → limits_wf (q_limits q) →
  limits_wf (q_limits (blk_queue_logical_block_size n q)).
Proof. intros Hp Hn H. unfold blk_queue_logical_block_size. wf_solve. Qed.
Lemma physical_block_size_wf n q :
  pow2 n → n < 2 ^ 16 → limits_wf (q_limits q) →
  limits_wf (q_limits (blk_queue_physical_block_size n q)).
Proof. intros Hp Hn H. unfold blk_queue_physical_block_size. wf_solve. Qed.
Lemma io_min_wf n q :
  0 ≤ n < 2 ^ 32 → limits_wf (q_limits q) → limits_wf (q_limits (blk_queue_io_min n q)).
Proof. intros Hn H. unfold blk_queue_io_min, blk_limits_io_min. wf_solve. Qed.
Lemma io_opt_wf n q :
  0 ≤ n < 2 ^ 32 → limits_wf (q_limits q) → limits_wf (q_limits (blk_queue_io_opt n q)).
Proof. intros Hn H. wf_solve. Qed.
Lemma alignment_offset_wf n q :
  0 ≤ n < 2 ^ 32 → limits_wf (q_limits q) → limits_wf (q_limits (blk_queue_alignment_offset n q)).
Proof.
  intros Hn H. pose proof (land_u32_range n (physical_block_size (q_limits q) - 1)).
  wf_solve.
Qed.
Lemma bounce_limit_wf p m q :
  limits_wf (q_limits q) → limits_wf (q_limits (blk_queue_bounce_limit p m q)).
Proof.
  intros []. unfold blk_queue_bounce_limit. cbv zeta. destruct (_ <? _); constructor; cbn in *; eauto.
Qed.
Lemma max_discard_sectors_wf n q :
  limits_wf (q_limits q) → limits_wf (q_limits (blk_queue_max_discard_sectors n q)).
Proof. intros H. wf_solve. Qed.
Lemma dma_drain_wf f b n q :
  limits_wf (q_limits q) → limits_wf (q_limits (blk_queue_dma_drain f b n q).2).
Proof.
  intros H. unfold blk_queue_dma_drain. destruct (queue_max_segments q <? 2) eqn:E; [done|].
  pose proof (max_segments_wf (u16 (queue_max_segments q - 1)) q) as Hq.
  apply Hq; [|done]. apply Z.mod_pos_bound. done.
Qed.

(** ** Stacking in closed form *)

(** Each stage on an explicit record. *)
Section stages.
Context (bp sb hw ms ss pb ao im io xd dg da lb sg mi dm nc dz : Z).
Abbreviation R pb ao im io lb mi nc dz :=
  (QueueLimits bp sb hw ms ss pb ao im io xd dg da lb sg mi dm nc dz).

Lemma stack_alignment_eq b al ret :
  let bad := negb (ao =? al) &&
    not_lined_up (u32 (Z.max pb im + ao)) (u32 (Z.max (physical_block_size b) (io_min b) + al)) in
  stack_alignment b al (ret, R pb ao im io lb mi nc dz) =
  (if bad then -1 else ret, R pb ao im io lb (if bad then 1 else mi) nc dz).
Proof. cbn. destruct (_ =? _); cbn; [done|]. by destruct (not_lined_up _ _). Qed.
Lemma stack_sizes_eq b :
  0 ≤ io < 2 ^ 32 → 0 ≤ io_opt b < 2 ^ 32 →
  stack_sizes b (R pb ao im io lb mi nc dz) =
  Ok (R (Z.max pb (physical_block_size b)) ao (Z.max im (io_min b)) (u32 (lcm0 io (io_opt b)))
        (Z.max lb (logical_block_size b)) mi (Z.lor nc (no_cluster b))
        (Z.land dz (discard_zeroes_data b))).
Proof. intros. unfold stack_sizes. cbn [io_opt set_logical_block_size set_physical_block_size set_io_min].
  by rewrite lcm_ok by done. Qed.
Lemma check_physical_eq ret :
  tst pb (u32 (lb - 1)) = false →
  check_physical (ret, R pb ao im io lb mi nc dz) = (ret, R pb ao im io lb mi nc dz).
Proof. cbn. by intros ->. Qed.
Lemma check_io_min_eq ret :
  let bad := tst im (u32 (pb - 1)) in
  check_io_min (ret, R pb ao im io lb mi nc dz) =
  (if bad then -1 else ret,
   R pb ao (if bad then pb else im) io lb (if bad then 1 else mi) nc dz).
Proof. cbn. by destruct (tst _ _). Qed.
Lemma check_io_opt_eq ret :
  let bad := tst io (u32 (pb - 1)) in
  check_io_opt (ret, R pb ao im io lb mi nc dz) =
  (if bad then -1 else ret,
   R pb ao im (if bad then 0 else io) lb (if bad then 1 else mi) nc dz).
Proof. cbn. by destruct (tst _ _). Qed.
Lemma stack_offset_eq al ret :
  0 ≤ ao < 2 ^ 32 → 0 ≤ al < 2 ^ 32 → pb ≤ im →
  let off := Z.land (lcm0 ao al) (u32 (im - 1)) in
  let bad := tst off (u32 (lb - 1)) in
  stack_offset al (ret, R pb ao im io lb mi nc dz) =
  Ok (if bad then -1 else ret, R pb off im io lb (if bad then 1 else mi) nc dz).
Proof.
  intros. cbn. rewrite lcm_ok, Z.max_r by done. cbn. fold off. fold bad. by destruct bad.
Qed.
End stages.

Section stacked.
Context (t b : queue_limits) (start : Z).

Definition stk_alignment : Z := u32 (queue_limit_alignment_offset b start).
Definition stk_logical : Z := Z.max (logical_block_size t) (logical_block_size b).
Definition stk_physical : Z := Z.max (physical_block_size t) (physical_block_size b).
Definition stk_bad_start : bool :=
  negb (alignment_offset t =? stk_alignment) &&
  not_lined_up (u32 (Z.max (physical_block_size t) (io_min t) + alignment_offset t))
               (u32 (Z.max (physical_block_size b) (io_min b) + stk_alignment)).
Definition stk_bad_io_min : bool := negb (Z.max (io_min t) (io_min b) mod stk_physical =? 0).
Definition stk_io_min : Z := if stk_bad_io_min then stk_physical else Z.max (io_min t) (io_min b).
Definition stk_bad_io_opt : bool := negb (u32 (lcm0 (io_opt t) (io_opt b)) mod stk_physical =? 0).
Definition stk_io_opt : Z := if stk_bad_io_opt then 0 else u32 (lcm0 (io_opt t) (io_opt b)).
Definition stk_offset : Z := Z.land (lcm0 (alignment_offset t) stk_alignment) (u32 (stk_io_min - 1)).
Definition stk_bad_offset : bool := negb (stk_offset mod stk_logical =? 0).
Definition stk_bad : bool := stk_bad_start || stk_bad_io_min || stk_bad_io_opt || stk_bad_offset.

Definition stacked : queue_limits :=
  {| bounce_pfn := min_not_zero (bounce_pfn t) (bounce_pfn b);
     seg_boundary_mask := Z.min (seg_boundary_mask t) (seg_boundary_mask b);
     max_hw_sectors := Z.min (max_hw_sectors t) (max_hw_sectors b);
     max_sectors := Z.min (max_sectors t) (max_sectors b);
     max_segment_size := Z.min (max_segment_size t) (max_segment_size b);
     physical_block_size := stk_physical;
     alignment_offset := stk_offset;
     io_min := stk_io_min;
     io_opt := stk_io_opt;
     max_discard_sectors := max_discard_sectors t;
     discard_granularity := discard_granularity t;
     discard_alignment := discard_alignment t;
     logical_block_size := stk_logical;
     max_segments := Z.min (max_segments t) (max_segments b);
     misaligned := if stk_bad then 1 else Z.max (misaligned t) (misaligned b);
     discard_misaligned := discard_misaligned t;
     no_cluster := Z.lor (no_cluster t) (no_cluster b);
     discard_zeroes_data := Z.land (discard_zeroes_data t) (discard_zeroes_data b) |}.

Context (Ht : limits_wf t) (Hb : limits_wf b).

Lemma stk_logical_pow2 : pow2 stk_logical ∧ stk_logical < 2 ^ 16.
Proof. destruct Ht, Hb. unfold stk_logical. split; [apply pow2_max; naive_solver|lia]. Qed.
Lemma stk_physical_pow2 : pow2 stk_physical ∧ stk_logical ≤ stk_physical < 2 ^ 16.
Proof.
  destruct Ht, Hb. unfold stk_logical, stk_physical. split; [apply pow2_max; naive_solver|lia].
Qed.
Lemma stk_io_min_bounds : stk_physical ≤ stk_io_min < 2 ^ 32.
Proof.
  pose proof stk_physical_pow2. destruct Ht, Hb. unfold stk_io_min.
  destruct stk_bad_io_min; [lia|]. unfold stk_physical. lia.
Qed.

Lemma stack_minima_eq :
  stack_minima t b =
  QueueLimits (min_not_zero (bounce_pfn t) (bounce_pfn b))
    (Z.min (seg_boundary_mask t) (seg_boundary_mask b))
    (Z.min (max_hw_sectors t) (max_hw_sectors b)) (Z.min (max_sectors t) (max_sectors b))
    (Z.min (max_segment_size t) (max_segment_size b)) (physical_block_size t)
    (alignment_offset t) (io_min t) (io_opt t) (max_discard_sectors t) (discard_granularity t)
    (discard_alignment t) (logical_block_size t) (Z.min (max_segments t) (max_segments b))
    (Z.max (misaligned t) (misaligned b)) (discard_misaligned t) (no_cluster t)
    (discard_zeroes_data t).
Proof.
  destruct Ht, Hb. change PAGE_CACHE_SIZE with 4096 in *. unfold stack_minima.
  rewrite <-!min_not_zero_min, <-lor_flag by (done || lia). reflexivity.
Qed.

Lemma stk_tst_io_min : tst (Z.max (io_min t) (io_min b)) (u32 (stk_physical - 1)) = stk_bad_io_min.
Proof. destruct stk_physical_pow2. apply tst_pow2; [done|lia]. Qed.
Lemma stk_tst_io_opt :
  tst (u32 (lcm0 (io_opt t) (io_opt b))) (u32 (stk_physical - 1)) = stk_bad_io_opt.
Proof. destruct stk_physical_pow2. apply tst_pow2; [done|lia]. Qed.
Lemma stk_tst_offset : tst stk_offset (u32 (stk_logical - 1)) = stk_bad_offset.
Proof. destruct stk_logical_pow2. apply tst_pow2; [done|lia]. Qed.
Lemma stk_tst_physical : tst stk_physical (u32 (stk_logical - 1)) = false.
Proof.
  destruct stk_logical_pow2 as [Hl Hl'], stk_physical_pow2 as [Hp Hp'].
  rewrite tst_pow2 by (done || lia). apply negb_false_iff, Z.eqb_eq, Z.mod_divide.
  - pose proof (pow2_pos _ Hl). lia.
  - apply pow2_divide; [done|done|lia].
Qed.

Lemma blk_stack_limits_eq :
  blk_stack_limits t b start =
  t' ← stack_discard b start stacked; Ok (if stk_bad then -1 else 0, t').
Proof.
  unfold blk_stack_limits. fold stk_alignment. rewrite stack_minima_eq.
  rewrite stack_alignment_eq. fold stk_bad_start.
  rewrite stack_sizes_eq by (by apply wf_io_opt).
  unfold mbind at 1, res_bind at 1. fold stk_logical stk_physical.
  rewrite check_physical_eq by apply stk_tst_physical.
  rewrite check_io_min_eq, stk_tst_io_min, check_io_opt_eq, stk_tst_io_opt.
  fold stk_io_min stk_io_opt.
  rewrite stack_offset_eq by first [by apply wf_offset|apply u32_range|apply stk_io_min_bounds].
  fold stk_offset. rewrite stk_tst_offset. unfold mbind at 1, res_bind at 1.
  unfold stacked, stk_bad.
  by destruct stk_bad_start, stk_bad_io_min, stk_bad_io_opt, stk_bad_offset.
Qed.
End stacked.

Lemma lcm0_nonneg x y : 0 ≤ x → 0 ≤ y → 0 ≤ lcm0 x y.
Proof. intros. unfold lcm0. pose proof (Z.lcm_nonneg x y). by repeat destruct (_ =? _). Qed.

Lemma stack_discard_ok b start t :
  0 ≤ discard_granularity b < 2 ^ 32 →
  0 ≤ discard_granularity t < 2 ^ 32 → 0 ≤ discard_alignment t < 2 ^ 32 →
  ∃ xd dg da dm, 0 ≤ dg < 2 ^ 32 ∧ 0 ≤ da < 2 ^ 32 ∧
    stack_discard b start t = Ok (set_max_discard_sectors xd (set_discard_granularity dg
      (set_discard_alignment da (set_discard_misaligned dm t)))).
Proof.
  intros Hb Ht Ha. unfold stack_discard.
  destruct (discard_granularity b =? 0).
  { exists (max_discard_sectors t), (discard_granularity t), (discard_alignment t),
      (discard_misaligned t). by destruct t. }
  set (al := u32 (queue_limit_discard_alignment b start)).
  assert (0 ≤ al < 2 ^ 32) by apply u32_range.
  set (t1 := if _ && _ then _ else _).
  assert (∃ dm, t1 = set_discard_misaligned dm t) as (dm & ->).
  { subst t1. destruct (_ && _); [destruct (not_lined_up _ _)|];
      first [by exists 1|exists (discard_misaligned t); by destruct t]. }
  cbv zeta. cbn [discard_alignment set_max_discard_sectors set_discard_granularity
    set_discard_misaligned]. rewrite lcm_ok by done.
  exists (min_not_zero (max_discard_sectors t) (max_discard_sectors b)),
    (Z.max (discard_granularity t) (discard_granularity b)),
    (Z.land (lcm0 (discard_alignment t) al)
       (u32 (Z.max (discard_granularity t) (discard_granularity b) - 1))), dm.
  split; [lia|]. split; [|done]. apply land_u32_range, lcm0_nonneg; lia.
Qed.

(** What stacking does to the limits, for well-formed arguments. *)
Lemma blk_stack_limits_total t b start :
  limits_wf t → limits_wf b →
  ∃ xd dg da dm, 0 ≤ dg < 2 ^ 32 ∧ 0 ≤ da < 2 ^ 32 ∧
    blk_stack_limits t b start = Ok (if stk_bad t b start then -1 else 0,
      set_max_discard_sectors xd (set_discard_granularity dg
        (set_discard_alignment da (set_discard_misaligned dm (stacked t b start))))).
Proof.
  intros Ht Hb. rewrite blk_stack_limits_eq by done.
  destruct (stack_discard_ok b start (stacked t b start)) as (xd & dg & da & dm & ? & ? & ->).
  - apply (wf_discard _ Hb).
  - apply (wf_discard _ Ht).
  - apply (wf_discard _ Ht).
  - by exists xd, dg, da, dm.
Qed.

Lemma stk_bad_misaligned t b start :
  stk_bad t b start = true → misaligned (stacked t b start) = 1.
Proof. cbn. by intros ->. Qed.

Lemma stacked_wf t b start xd dg da dm :
  limits_wf t → limits_wf b → 0 ≤ dg < 2 ^ 32 → 0 ≤ da < 2 ^ 32 →
  limits_wf (set_max_discard_sectors xd (set_discard_granularity dg
        (set_discard_alignment da (set_discard_misaligned dm (stacked t b start))))).
Proof.
  intros Ht Hb ??. pose proof (stk_logical_pow2 t b Ht Hb). pose proof (stk_physical_pow2 t b Ht Hb).
  pose proof (stk_io_min_bounds t b Ht Hb).
  assert (0 ≤ stk_io_opt t b < 2 ^ 32).
  { unfold stk_io_opt. destruct (stk_bad_io_opt t b); [lia|apply u32_range]. }
  assert (0 ≤ stk_offset t b start < 2 ^ 32).
  { apply land_u32_range, lcm0_nonneg; [apply Ht|apply u32_range]. }
  destruct Ht, Hb. constructor; cbn; split_and?; try tauto; try lia.
  destruct (stk_bad t b start); lia.
Qed.

Lemma stack_limits_wf t b start ret t' :
  limits_wf t → limits_wf b → blk_stack_limits t b start = Ok (ret, t') → limits_wf t'.
Proof.
  intros Ht Hb. destruct (blk_stack_limits_total t b start Ht Hb) as (xd & dg & da & dm & ? & ? & ->).
  intros [= <- <-]. by apply stacked_wf.
Qed.

(** The queues drivers can build: [blk_queue_make_request], then setters with
    legal arguments and stacking on other such queues, in any order. *)
Inductive configured (max_low_pfn : Z) : request_queue → Prop :=
| cfg_make_request mfn q : configured max_low_pfn (blk_queue_make_request max_low_pfn mfn q)
| cfg_bounce_limit m q : configured max_low_pfn q →
    configured max_low_pfn (blk_queue_bounce_limit max_low_pfn m q)
| cfg_max_hw_sectors n q : 0 ≤ n < 2 ^ 32 → configured max_low_pfn q →
    configured max_low_pfn (blk_queue_max_hw_sectors n q)
| cfg_max_discard_sectors n q : configured max_low_pfn q →
    configured max_low_pfn (blk_queue_max_discard_sectors n q)
| cfg_max_segments n q : 0 ≤ n < 2 ^ 16 → configured max_low_pfn q →
    configured max_low_pfn (blk_queue_max_segments n q)
| cfg_max_segment_size n q : 0 ≤ n < 2 ^ 32 → configured max_low_pfn q →
    configured max_low_pfn (blk_queue_max_segment_size n q)
| cfg_logical_block_size n q : pow2 n → n < 2 ^ 16 → configured max_low_pfn q →
    configured max_low_pfn (blk_queue_logical_block_size n q)
| cfg_physical_block_size n q : pow2 n → n < 2 ^ 16 → configured max_low_pfn q →
    configured max_low_pfn (blk_queue_physical_block_size n q)
| cfg_alignment_offset n q : 0 ≤ n < 2 ^ 32 → configured max_low_pfn q →
    configured max_low_pfn (blk_queue_alignment_offset n q)
| cfg_io_min n q : 0 ≤ n < 2 ^ 32 → configured max_low_pfn q →
    configured max_low_pfn (blk_queue_io_min n q)
| cfg_io_opt n q : 0 ≤ n < 2 ^ 32 → configured max_low_pfn q →
    configured max_low_pfn (blk_queue_io_opt n q)
| cfg_dma_drain f buf n q : configured max_low_pfn q →
    configured max_low_pfn (blk_queue_dma_drain f buf n q).2
| cfg_segment_boundary n q : 0 ≤ n < 2 ^ 64 → configured max_low_pfn q →
    configured max_low_pfn (blk_queue_segment_boundary n q)
| cfg_stack t b t' : configured max_low_pfn t → configured max_low_pfn b →
    blk_queue_stack_limits t b = Ok t' → configured max_low_pfn t'
| cfg_disk_stack t b s o t' : configured max_low_pfn t → configured max_low_pfn b →
    disk_stack_limits t b s o = Ok t' → configured max_low_pfn t'.

Lemma queue_stack_wf t b t' :
  limits_wf (q_limits t) → limits_wf (q_limits b) → blk_queue_stack_limits t b = Ok t' →
  limits_wf (q_limits t').
Proof.
  intros Ht Hb. unfold blk_queue_stack_limits.
  destruct (blk_stack_limits _ _ _) as [[ret l]|] eqn:E; [|done].
  apply stack_limits_wf in E; [|done..].
  intros [= <-]. by repeat case_match.
Qed.
Lemma disk_stack_wf t b s o t' :
  limits_wf (q_limits t) → limits_wf (q_limits b) → disk_stack_limits t b s o = Ok t' →
  limits_wf (q_limits t').
Proof.
  intros Ht Hb. unfold disk_stack_limits, bdev_stack_limits.
  destruct (blk_stack_limits _ _ _) as [[ret l]|] eqn:E; [|done].
  apply stack_limits_wf in E; [|done..].
  intros [= <-]. by repeat case_match.
Qed.

Lemma congestion_gap q :
  2 ≤ nr_requests (conf q) < 2 ^ 31 →
  let q' := blk_queue_congestion_threshold q in
  1 ≤ queue_congestion_off_threshold q' < queue_congestion_on_threshold q' ∧
  queue_congestion_on_threshold q' ≤ nr_requests (conf q').
Proof.
  intros Hn q'. subst q'. unfold queue_congestion_off_threshold, queue_congestion_on_threshold.
  unfold blk_queue_congestion_threshold. cbn. set (n := nr_requests (conf q)) in *. clearbody n.
  assert (0 ≤ n / 8) by (apply Z.div_pos; lia). assert (0 ≤ n / 16) by (apply Z.div_pos; lia).
  pose proof (Z.div_mod n 8). pose proof (Z.mod_pos_bound n 8 eq_refl).
  pose proof (Z.div_mod n 16). pose proof (Z.mod_pos_bound n 16 eq_refl).
  rewrite (s32_id (n - n / 8 + 1)), (s32_id (n - n / 8 - n / 16 - 1)), (s32_id n), u64_id by lia.
  rewrite Z.gtb_ltb. destruct (Z.ltb_spec n (n - n / 8 + 1)), (Z.ltb_spec (n - n / 8 - n / 16 - 1) 1).
  all: rewrite !u32_id, !s32_id by lia; lia.
Qed.

(** ** The properties *)

(** C39: The limits of every queue a driver can configure are well formed: block
    sizes are powers of two and ordered, no limit is zero, the soft sector limit
    stays below the hard one, segments can hold at least a page. *)
Theorem configured_wf max_low_pfn q : configured max_low_pfn q → limits_wf (q_limits q).
Proof.
  induction 1.
  - apply make_request_wf.
  - by apply bounce_limit_wf.
  - by apply max_hw_sectors_wf.
  - by apply max_discard_sectors_wf.
  - by apply max_segments_wf.
  - by apply max_segment_size_wf.
  - by apply logical_block_size_wf.
  - by apply physical_block_size_wf.
  - by apply alignment_offset_wf.
  - by apply io_min_wf.
  - by apply io_opt_wf.
  - by apply dma_drain_wf.
  - by apply segment_boundary_wf.
  - by apply (queue_stack_wf t b).
  - by apply (disk_stack_wf t b s o).
Qed.

(** C40: Stacking the limits of a component device on well-formed limits always
    yields a result.  Every transfer limit of the result respects both devices,
    its sizes divide one another, and the result is flagged misaligned whenever
    the call fails; when the result is not flagged, the alignment offset lies on
    a logical block boundary. *)
Theorem blk_stack_limits_sound t b start :
  limits_wf t → limits_wf b →
  ∃ ret t', blk_stack_limits t b start = Ok (ret, t') ∧ limits_wf t' ∧
    max_sectors t' = Z.min (max_sectors t) (max_sectors b) ∧
    max_hw_sectors t' = Z.min (max_hw_sectors t) (max_hw_sectors b) ∧
    max_segments t' = Z.min (max_segments t) (max_segments b) ∧
    max_segment_size t' = Z.min (max_segment_size t) (max_segment_size b) ∧
    seg_boundary_mask t' = Z.min (seg_boundary_mask t) (seg_boundary_mask b) ∧
    logical_block_size t' = Z.max (logical_block_size t) (logical_block_size b) ∧
    (logical_block_size t' | physical_block_size t') ∧
    (physical_block_size t' | io_min t') ∧ (physical_block_size t' | io_opt t') ∧
    ((ret = 0 ∧ misaligned t' = Z.max (misaligned t) (misaligned b)) ∨
     (ret = -1 ∧ misaligned t' = 1)) ∧
    (misaligned t' = 0 → (logical_block_size t' | alignment_offset t')).
Proof.
  intros Ht Hb. destruct (blk_stack_limits_total t b start Ht Hb) as (xd & dg & da & dm & ? & ? & ->).
  destruct (stk_logical_pow2 t b Ht Hb) as [Hl ?], (stk_physical_pow2 t b Ht Hb) as [Hp ?].
  pose proof (pow2_pos _ Hl). pose proof (pow2_pos _ Hp).
  do 2 eexists. split; [done|]. split; [by apply stacked_wf|].
  do 6 (split; [reflexivity|]). 
  split; [apply (pow2_divide (stk_logical t b) (stk_physical t b)); [done|done|lia]|]. cbn. split_and!.
  - unfold stk_io_min. destruct (stk_bad_io_min t b) eqn:E; [done|].
    unfold stk_bad_io_min in E. bprop. apply Z.mod_divide; [lia|done].
  - unfold stk_io_opt. destruct (stk_bad_io_opt t b) eqn:E; [apply Z.divide_0_r|].
    unfold stk_bad_io_opt in E. bprop. apply Z.mod_divide; [lia|done].
  - destruct (stk_bad t b start); auto.
  - destruct (stk_bad t b start) eqn:E; [done|]. intros _. unfold stk_bad, stk_bad_offset in E.
    bprop. apply Z.mod_divide; [lia|done].
Qed.

(** [queue_limit_alignment_offset] returns the distance from [sector] to the
    next aligned position of a device whose granularity is a power of two. *)
Theorem alignment_offset_spec l sector :
  let g := Z.max (physical_block_size l) (io_min l) in
  pow2 g → g ≤ 2 ^ 31 → 0 ≤ alignment_offset l < 2 ^ 32 → 0 ≤ sector < 2 ^ 55 →
  0 ≤ queue_limit_alignment_offset l sector < g ∧
  (sector * 512 + queue_limit_alignment_offset l sector) mod g = alignment_offset l mod g.
Proof.
  intros g Hg Hle Ho Hs. pose proof (pow2_pos _ Hg).
  unfold queue_limit_alignment_offset. fold g. rewrite !land_pow2 by (done || lia).
  rewrite Z.shiftl_mul_pow2 by lia. change (2 ^ 9) with 512.
  rewrite u64_id by lia.
  assert (u32 (g + alignment_offset l - (sector * 512) mod g) mod g
          = (alignment_offset l - sector * 512) mod g) as ->.
  { assert (g | 2 ^ 32) by (apply pow2_divide; [done|by exists 32|lia]).
    unfold u32. rewrite Z.mod_mod_divide by done.
    rewrite Zminus_mod_idemp_r, <-(Z.mod_add (alignment_offset l - sector * 512) 1 g) by lia.
    f_equal. lia. }
  pose proof (Z.mod_pos_bound (alignment_offset l - sector * 512) g) as Hm.
  rewrite s32_id by lia. split; [lia|].
  rewrite Zplus_mod_idemp_r. f_equal. lia.
Qed.

(** The congestion thresholds leave a gap: a queue that becomes congested
    only becomes uncongested again after requests have been freed, and both
    thresholds lie within the number of requests. *)
Theorem congestion_hysteresis q :
  2 ≤ nr_requests (conf q) < 2 ^ 31 →
  let q' := blk_queue_congestion_threshold q in
  1 ≤ queue_congestion_off_threshold q' < queue_congestion_on_threshold q' ∧
  queue_congestion_on_threshold q' ≤ nr_requests (conf q').
Proof. apply congestion_gap. Qed.

(** Limits of a device with physical blocks of [p] bytes and alignment offset [o]. *)
Definition disk_limits (p o : Z) : queue_limits :=
  set_alignment_offset o (set_io_min p (set_physical_block_size p blk_set_default_limits)).

Lemma disk_limits_wf p o :
  pow2 p → 512 ≤ p < 2 ^ 16 → 0 ≤ o < 2 ^ 32 → limits_wf (disk_limits p o).
Proof.
  intros Hp ??. destruct default_limits_wf.
  constructor; cbn in *; split_and?; try tauto; lia.
Qed.

(** The check that the alignments of both devices line up accepts devices
    that do not: stacking a device with 1 KiB physical blocks at offset 512 on
    one with 4 KiB physical blocks at offset 0 succeeds, is not flagged as
    misaligned, and moves the common offset to 512, where no block of the first
    device starts. *)
Theorem stack_limits_misses_misalignment :
  ∃ t', limits_wf (disk_limits 4096 0) ∧ limits_wf (disk_limits 1024 512) ∧
    blk_stack_limits (disk_limits 4096 0) (disk_limits 1024 512) 0 = Ok (0, t') ∧
    misaligned t' = 0 ∧ physical_block_size t' = 4096 ∧
    alignment_offset t' mod 4096 ≠ alignment_offset (disk_limits 4096 0).
Proof.
  eexists. split; [apply disk_limits_wf; [by exists 12|lia|lia]|].
  split; [apply disk_limits_wf; [by exists 10|lia|lia]|].
  split; [vm_compute; reflexivity|]. by vm_compute.
Qed.

(** The least common multiple of the optimal I/O sizes is cut to 32 bits: for
    component devices with large optimal sizes the stacked value is a multiple
    of neither, and no misalignment is reported. *)
Theorem stack_limits_truncates_io_opt :
  let t := set_io_opt (65536 * 105) blk_set_default_limits in
  let b := set_io_opt (65536 * 2431) blk_set_default_limits in
  ∃ t', limits_wf t ∧ limits_wf b ∧ blk_stack_limits t b 0 = Ok (0, t') ∧ misaligned t' = 0 ∧
    io_opt t' ≠ 0 ∧ io_opt t' mod io_opt t ≠ 0 ∧ io_opt t' mod io_opt b ≠ 0.
Proof.
  intros t b. destruct default_limits_wf. eexists.
  split; [constructor; cbn in *; split_and?; try tauto; lia|].
  split; [constructor; cbn in *; split_and?; try tauto; lia|].
  split; [vm_compute; reflexivity|]. by vm_compute.
Qed.

(** [max_hw_sectors << 9] wraps at 32 bits: a driver that asks for 2^23
    sectors gets the minimum of 8 sectors instead. *)
Theorem max_hw_sectors_wraps q :
  queue_max_hw_sectors (blk_queue_max_hw_sectors (2 ^ 23) q) = 8 ∧
  queue_max_hw_sectors (blk_queue_max_hw_sectors (2 ^ 23 - 1) q) = 2 ^ 23 - 1.
Proof. done. Qed.

(** ** Witnesses *)
Definition blank_conf : queue_conf :=
  QueueConf None true None None None None None None None 0 0 false 0 0 0 0 0 0 0 0 0 0
    blk_set_default_limits.
Definition blank_queue : request_queue :=
  RequestQueue None 0 None 0 (0, 0) 0 (0, 0) (0, 0) (0, 0) 0 (false, false) 0 0 0 0 0 0 None None None
    blank_conf.

Lemma configured_wf_witness :
  limits_wf (q_limits (blk_queue_physical_block_size 4096 (blk_queue_max_hw_sectors 1024
    (blk_queue_make_request 0xfffff None blank_queue)))).
Proof.
  apply (configured_wf 0xfffff). apply cfg_physical_block_size; [by exists 12|lia|].
  apply cfg_max_hw_sectors; [lia|]. apply cfg_make_request.
Defined.

Lemma blk_stack_limits_sound_witness :
  ∃ ret t', blk_stack_limits (disk_limits 512 0) (disk_limits 4096 3584) 63 = Ok (ret, t') ∧
    limits_wf t'.
Proof.
  destruct (blk_stack_limits_sound (disk_limits 512 0) (disk_limits 4096 3584) 63)
    as (ret & t' & E & Hwf & _).
  - apply disk_limits_wf; [by exists 9|lia|lia].
  - apply disk_limits_wf; [by exists 12|lia|lia].
  - exists ret, t'. split; [exact E|exact Hwf].
Defined.

Lemma alignment_offset_spec_witness :
  queue_limit_alignment_offset (disk_limits 4096 3584) 63 = 0 ∧
  (63 * 512 + queue_limit_alignment_offset (disk_limits 4096 3584) 63) mod 4096 = 3584 mod 4096.
Proof.
  split; [reflexivity|].
  apply (alignment_offset_spec (disk_limits 4096 3584) 63); [by exists 12|cbn; lia..].
Defined.

Lemma congestion_hysteresis_witness :
  1 ≤ queue_congestion_off_threshold (blk_queue_congestion_threshold
        (blk_queue_make_request 0xfffff None blank_queue)) < 113.
Proof.
  apply (congestion_hysteresis (blk_queue_make_request 0xfffff None blank_queue)).
  vm_compute. split; [discriminate|reflexivity].
Defined.
