(* ===== verification/Sysfs.v ===== *)
(** * Queue attributes in sysfs ([block/blk-sysfs.c])

    The attributes under [/sys/block/<disk>/queue]: parsing with
    [simple_strtoul] ([lib/vsprintf.c]), the [show] and [store] methods, and the
    dispatch through the attribute table.  A page of text is the list of its
    bytes, without the terminating NUL. *)

From S2P Require Import Prelude KList Request Settings.

Local Open Scope Z_scope.

(** ** Characters ([include/linux/ctype.h]) and numbers ([lib/vsprintf.c]) *)
Definition isdigit (c : Z) : bool := (48 <=? c) && (c <=? 57).
Definition isxdigit (c : Z) : bool :=
  isdigit c || (65 <=? c) && (c <=? 70) || (97 <=? c) && (c <=? 102).
Definition TOLOWER (x : Z) : Z := Z.lor x 0x20.

(** [cp[i]], which is NUL at the end of the text. *)
Definition char_at (cp : list Z) (i : nat) : Z := default 0 (cp !! i).

Definition simple_guess_base (cp : list Z) : Z :=
  if char_at cp 0 =? 48 then
    if (TOLOWER (char_at cp 1) =? 120) && isxdigit (char_at cp 2) then 16 else 8
  else 10.

Fixpoint strtoull_loop (base result : Z) (cp : list Z) : Z * list Z :=
  match cp with
  | [] => (result, [])
  | c :: cp' =>
    if isxdigit c then
      let value := if isdigit c then c - 48 else TOLOWER c - 97 + 10 in
      if value >=? base then (result, cp)
      else strtoull_loop base (u64 (result * base + value)) cp'
    else (result, cp)
  end.

(** The result and the rest of the text ([endp]). *)
Definition simple_strtoull (cp : list Z) (base : Z) : Z * list Z :=
  let base := if base =? 0 then simple_guess_base cp else base in
  let cp := if (base =? 16) && (char_at cp 0 =? 48) && (TOLOWER (char_at cp 1) =? 120)
            then drop 2 cp else cp in
  strtoull_loop base 0 cp.
Definition simple_strtoul (cp : list Z) (base : Z) : Z * list Z := simple_strtoull cp base.

(** [sprintf(page, "%lu\n", var)]: at most 20 digits for 64 bits. *)
Fixpoint digits (fuel : nat) (v : Z) (acc : list Z) : list Z :=
  match fuel with
  | O => acc
  | S fuel =>
    let acc := 48 + v mod 10 :: acc in
    if v / 10 =? 0 then acc else digits fuel (v / 10) acc
  end.
Definition queue_var_show (var : Z) : list Z := digits 20 var [] ++ [10].

(** The parsed number and the return value. *)
Definition queue_var_store (page : list Z) (count : Z) : Z * Z :=
  (fst (simple_strtoul page 10), count).

(** ** Show methods *)
Definition queue_requests_show (q : request_queue) : list Z :=
  queue_var_show (nr_requests (conf q)).
Definition queue_ra_show (q : request_queue) : list Z :=
  queue_var_show (u64 (Z.shiftl (ra_pages (conf q)) (PAGE_CACHE_SHIFT - 10))).
Definition queue_max_sectors_show (q : request_queue) : list Z :=
  queue_var_show (u64 (s32 (Z.shiftr (queue_max_sectors q) 1))).
Definition queue_max_segments_show (q : request_queue) : list Z :=
  queue_var_show (queue_max_segments q).
Definition queue_max_segment_size_show (q : request_queue) : list Z :=
  if test_bit QUEUE_FLAG_CLUSTER (queue_flags q) then queue_var_show (queue_max_segment_size q)
  else queue_var_show PAGE_CACHE_SIZE.
Definition queue_logical_block_size_show (q : request_queue) : list Z :=
  queue_var_show (queue_logical_block_size q).
Definition queue_physical_block_size_show (q : request_queue) : list Z :=
  queue_var_show (queue_physical_block_size q).
Definition queue_io_min_show (q : request_queue) : list Z := queue_var_show (queue_io_min q).
Definition queue_io_opt_show (q : request_queue) : list Z := queue_var_show (queue_io_opt q).
Definition queue_discard_granularity_show (q : request_queue) : list Z :=
  queue_var_show (discard_granularity (q_limits q)).
Definition queue_discard_max_show (q : request_queue) : list Z :=
  queue_var_show (u32 (Z.shiftl (max_discard_sectors (q_limits q)) 9)).
Definition queue_discard_zeroes_data_show (q : request_queue) : list Z :=
  queue_var_show (queue_discard_zeroes_data q).
Definition queue_max_hw_sectors_show (q : request_queue) : list Z :=
  queue_var_show (u64 (s32 (Z.shiftr (queue_max_hw_sectors q) 1))).
Definition queue_nonrot_show (q : request_queue) : list Z :=
  queue_var_show (Z.b2z (negb (blk_queue_nonrot q))).
Definition queue_nomerges_show (q : request_queue) : list Z :=
  queue_var_show (Z.lor (Z.shiftl (Z.b2z (blk_queue_nomerges q)) 1)
                        (Z.b2z (blk_queue_noxmerges q))).
Definition queue_rq_affinity_show (q : request_queue) : list Z :=
  queue_var_show (Z.b2z (test_bit QUEUE_FLAG_SAME_COMP (queue_flags q))).
Definition queue_iostats_show (q : request_queue) : list Z :=
  queue_var_show (Z.b2z (blk_queue_io_stat q)).

(** ** Store methods: the return value and the queue afterwards *)

(** The congestion mark of one direction after a change of the thresholds. *)
Definition requests_store_congested (sync : bool) (q : request_queue) : request_queue :=
  if at_sync (rq_count q) sync >=? queue_congestion_on_threshold q
  then blk_set_queue_congested sync q
  else if at_sync (rq_count q) sync <? queue_congestion_off_threshold q
  then blk_clear_queue_congested sync q
  else q.

(** The full mark of one direction, with the wake-up of its waiters. *)
Definition requests_store_full (sync : bool) (q : request_queue) : request_queue :=
  if u64 (at_sync (rq_count q) sync) >=? nr_requests (conf q) then blk_set_queue_full sync q
  else if u64 (s32 (at_sync (rq_count q) sync + 1)) <=? nr_requests (conf q) then
    let q := blk_clear_queue_full sync q in
    set_wakeups (upd_sync Z.succ sync (wakeups q)) q
  else q.

Definition queue_requests_store (q : request_queue) (page : list Z) (count : Z) :
    Z * request_queue :=
  if negb (has_request_fn (conf q)) then (- EINVAL, q) else
  let '(nr, ret) := queue_var_store page count in
  let nr := if nr <? BLKDEV_MIN_RQ then BLKDEV_MIN_RQ else nr in
  let q := conf_upd (set_nr_requests nr) q in
  let q := blk_queue_congestion_threshold q in
  let q := requests_store_congested true q in
  let q := requests_store_congested false q in
  let q := requests_store_full true q in
  let q := requests_store_full false q in
  (ret, q).

Definition queue_ra_store (q : request_queue) (page : list Z) (count : Z) : Z * request_queue :=
  let '(ra_kb, ret) := queue_var_store page count in
  (ret, conf_upd (set_ra_pages (Z.shiftr ra_kb (PAGE_CACHE_SHIFT - 10))) q).

Definition queue_max_sectors_store (q : request_queue) (page : list Z) (count : Z) :
    Z * request_queue :=
  let max_hw_sectors_kb := Z.shiftr (queue_max_hw_sectors q) 1 in
  let page_kb := Z.shiftl 1 (PAGE_CACHE_SHIFT - 10) in
  let '(max_sectors_kb, ret) := queue_var_store page count in
  if (max_sectors_kb >? max_hw_sectors_kb) || (max_sectors_kb <? page_kb) then (- EINVAL, q) else
  (ret, limits_upd (set_max_sectors (u32 (Z.shiftl max_sectors_kb 1))) q).

Definition queue_nonrot_store (q : request_queue) (page : list Z) (count : Z) : Z * request_queue :=
  let '(nm, ret) := queue_var_store page count in
  (ret, if negb (nm =? 0) then flag_clear QUEUE_FLAG_NONROT q else flag_set QUEUE_FLAG_NONROT q).

Definition queue_nomerges_store (q : request_queue) (page : list Z) (count : Z) :
    Z * request_queue :=
  let '(nm, ret) := queue_var_store page count in
  let q := flag_clear QUEUE_FLAG_NOMERGES q in
  let q := flag_clear QUEUE_FLAG_NOXMERGES q in
  (ret, if nm =? 2 then flag_set QUEUE_FLAG_NOMERGES q
        else if negb (nm =? 0) then flag_set QUEUE_FLAG_NOXMERGES q
        else q).

(** With [CONFIG_USE_GENERIC_SMP_HELPERS], which x86 defines. *)
Definition queue_rq_affinity_store (q : request_queue) (page : list Z) (count : Z) :
    Z * request_queue :=
  let '(val, ret) := queue_var_store page count in
  (ret, if negb (val =? 0) then flag_set QUEUE_FLAG_SAME_COMP q
        else flag_clear QUEUE_FLAG_SAME_COMP q).

Definition queue_iostats_store (q : request_queue) (page : list Z) (count : Z) :
    Z * request_queue :=
  let '(stats, ret) := queue_var_store page count in
  (ret, if negb (stats =? 0) then flag_set QUEUE_FLAG_IO_STAT q
        else flag_clear QUEUE_FLAG_IO_STAT q).

(** ** The attribute table *)
Record queue_sysfs_entry := QueueSysfsEntry {
  attr_name : string;
  show : option (request_queue → list Z);
  store : option (request_queue → list Z → Z → Z * request_queue)
}.

(** [elv_iosched_show] and [elv_iosched_store] belong to the elevator. *)
Definition default_attrs (elv_iosched_show : request_queue → list Z)
    (elv_iosched_store : request_queue → list Z → Z → Z * request_queue) :
    list queue_sysfs_entry :=
  [ QueueSysfsEntry "nr_requests" (Some queue_requests_show) (Some queue_requests_store);
    QueueSysfsEntry "read_ahead_kb" (Some queue_ra_show) (Some queue_ra_store);
    QueueSysfsEntry "max_hw_sectors_kb" (Some queue_max_hw_sectors_show) None;
    QueueSysfsEntry "max_sectors_kb" (Some queue_max_sectors_show) (Some queue_max_sectors_store);
    QueueSysfsEntry "max_segments" (Some queue_max_segments_show) None;
    QueueSysfsEntry "max_segment_size" (Some queue_max_segment_size_show) None;
    QueueSysfsEntry "scheduler" (Some elv_iosched_show) (Some elv_iosched_store);
    QueueSysfsEntry "hw_sector_size" (Some queue_logical_block_size_show) None;
    QueueSysfsEntry "logical_block_size" (Some queue_logical_block_size_show) None;
    QueueSysfsEntry "physical_block_size" (Some queue_physical_block_size_show) None;
    QueueSysfsEntry "minimum_io_size" (Some queue_io_min_show) None;
    QueueSysfsEntry "optimal_io_size" (Some queue_io_opt_show) None;
    QueueSysfsEntry "discard_granularity" (Some queue_discard_granularity_show) None;
    QueueSysfsEntry "discard_max_bytes" (Some queue_discard_max_show) None;
    QueueSysfsEntry "discard_zeroes_data" (Some queue_discard_zeroes_data_show) None;
    QueueSysfsEntry "rotational" (Some queue_nonrot_show) (Some queue_nonrot_store);
    QueueSysfsEntry "nomerges" (Some queue_nomerges_show) (Some queue_nomerges_store);
    QueueSysfsEntry "rq_affinity" (Some queue_rq_affinity_show) (Some queue_rq_affinity_store);
    QueueSysfsEntry "iostats" (Some queue_iostats_show) (Some queue_iostats_store) ].

(** An error code, or the text shown. *)
Definition queue_attr_show (entry : queue_sysfs_entry) (q : request_queue) : Z + list Z :=
  match show entry with
  | None => inl (- EIO)
  | Some f =>
    if test_bit QUEUE_FLAG_DEAD (queue_flags q) then inl (- ENOENT) else inr (f q)
  end.

Definition queue_attr_store (entry : queue_sysfs_entry) (q : request_queue) (page : list Z)
    (length : Z) : Z * request_queue :=
  match store entry with
  | None => (- EIO, q)
  | Some f =>
    if test_bit QUEUE_FLAG_DEAD (queue_flags q) then (- ENOENT, q) else f q page length
  end.

(** ** Parsing inverts printing *)
Lemma strtoull_digit d r cp :
  0 ≤ d < 10 → strtoull_loop 10 r (48 + d :: cp) = strtoull_loop 10 (u64 (r * 10 + d)) cp.
Proof.
  intros Hd. simpl strtoull_loop. unfold isxdigit.
  assert (isdigit (48 + d) = true) as -> by (unfold isdigit; apply andb_true_iff; lia).
  simpl. replace (48 + d - 48) with d by lia.
  destruct (Z.geb_spec d 10); [lia|done].
Qed.

Lemma strtoull_digits fuel v acc :
  (fuel ≠ 0)%nat → 0 ≤ v < 2 ^ 64 → v < 10 ^ Z.of_nat fuel →
  strtoull_loop 10 0 (digits fuel v acc) = strtoull_loop 10 v acc.
Proof.
  revert v acc. induction fuel as [|fuel IH]; intros v acc Hf Hv Hlt; [done|]. simpl digits.
  pose proof (Z.mod_pos_bound v 10). pose proof (Z.div_mod v 10).
  destruct (Z.eqb_spec (v / 10) 0) as [E|E].
  - rewrite strtoull_digit by lia. rewrite Z.mul_0_l, Z.add_0_l, Z.mod_small by nia.
    by rewrite u64_id.
  - assert (0 < v / 10) by (assert (0 ≤ v / 10) by (apply Z.div_pos; lia); lia).
    rewrite Nat2Z.inj_succ, Z.pow_succ_r in Hlt by lia.
    destruct fuel as [|fuel]; [simpl in Hlt; lia|].
    rewrite IH by nia || done. rewrite strtoull_digit by lia. rewrite u64_id; [f_equal; lia|lia].
Qed.

Lemma strtoul_show v rest :
  0 ≤ v < 2 ^ 64 → strtoull_loop 10 0 (digits 20 v [] ++ 10 :: rest) = (v, 10 :: rest).
Proof.
  intros Hv.
  assert (∀ fuel v acc l, digits fuel v acc ++ l = digits fuel v (acc ++ l)) as Happ.
  { induction fuel as [|fuel IH]; intros ???; [done|]. simpl. destruct (_ =? _); [done|].
    by rewrite IH. }
  rewrite Happ, strtoull_digits by (done || lia). done.
Qed.

Lemma var_store_show v count :
  0 ≤ v < 2 ^ 64 → queue_var_store (queue_var_show v) count = (v, count).
Proof.
  intros. change ((fst (strtoull_loop 10 0 (digits 20 v [] ++ [10])), count) = (v, count)).
  by rewrite strtoul_show.
Qed.

(** ** The properties *)

(** A number printed by an attribute and written back is parsed as the same
    number, for every 64-bit value; what follows the digits is left over. *)
Theorem sysfs_number_roundtrip v rest :
  0 ≤ v < 2 ^ 64 →
  simple_strtoul (digits 20 v [] ++ 10 :: rest) 10 = (v, 10 :: rest) ∧
  queue_var_store (queue_var_show v) (Z.of_nat (length (queue_var_show v))) =
    (v, Z.of_nat (length (queue_var_show v))).
Proof. intros Hv. split; [by apply strtoul_show|by apply var_store_show]. Qed.

Lemma requests_store_congested_spec sync q :
  let q' := requests_store_congested sync q in
  (∃ c, q' = set_congested c q) ∧
  at_sync (congested q') (negb sync) = at_sync (congested q) (negb sync) ∧
  (queue_congestion_on_threshold q ≤ at_sync (rq_count q) sync →
     at_sync (congested q') sync = true) ∧
  (queue_congestion_off_threshold q ≤ queue_congestion_on_threshold q →
   at_sync (rq_count q) sync < queue_congestion_off_threshold q →
     at_sync (congested q') sync = false).
Proof.
  unfold requests_store_congested.
  destruct (Z.geb_spec (at_sync (rq_count q) sync) (queue_congestion_on_threshold q));
    [|destruct (Z.ltb_spec (at_sync (rq_count q) sync) (queue_congestion_off_threshold q))];
    (split; [first [by eexists|exists (congested q); by destruct q]|]);
    destruct sync; unfold at_sync in *; simpl; split_and!; intros; done || lia.
Qed.

Lemma requests_store_full_spec sync q :
  0 ≤ at_sync (rq_count q) sync < 2 ^ 31 - 1 →
  let q' := requests_store_full sync q in
  let full := nr_requests (conf q) <=? at_sync (rq_count q) sync in
  (∃ f u, q' = set_wakeups u (set_queue_flags f q)) ∧
  blk_queue_full q' sync = full ∧ blk_queue_full q' (negb sync) = blk_queue_full q (negb sync) ∧
  at_sync (wakeups q') sync = at_sync (wakeups q) sync + Z.b2z (negb full) ∧
  at_sync (wakeups q') (negb sync) = at_sync (wakeups q) (negb sync).
Proof.
  intros Hc. unfold requests_store_full.
  set (n := at_sync (rq_count q) sync) in *.
  rewrite u64_id, s32_id, u64_id, Z.geb_leb by lia.
  destruct (Z.leb_spec (nr_requests (conf q)) n) as [Hle|Hgt].
  - rewrite !full_set. cbv zeta.
    split; [exists (queue_flags (blk_set_queue_full sync q)), (wakeups q); by destruct sync, q|].
    destruct sync; simpl; split_and!; done || lia.
  - destruct (Z.leb_spec (n + 1) (nr_requests (conf q))); [|lia]. cbv zeta.
    split; [by exists (queue_flags (blk_clear_queue_full sync q)),
                     (upd_sync Z.succ sync (wakeups q)); destruct sync, q|].
    pose proof (full_clear sync sync q) as H1. pose proof (full_clear sync (negb sync) q) as H2.
    destruct sync; simpl in *; split_and!; done || lia.
Qed.

(** The state after the two congestion updates and the two full updates. *)
Lemma requests_store_marks q sync :
  (∀ sync, 0 ≤ at_sync (rq_count q) sync < 2 ^ 31 - 1) →
  queue_congestion_off_threshold q ≤ queue_congestion_on_threshold q →
  let q' := requests_store_full false (requests_store_full true
              (requests_store_congested false (requests_store_congested true q))) in
  let n := at_sync (rq_count q) sync in
  conf q' = conf q ∧ blk_queue_full q' sync = (nr_requests (conf q) <=? n) ∧
  (queue_congestion_on_threshold q ≤ n → at_sync (congested q') sync = true) ∧
  (n < queue_congestion_off_threshold q → at_sync (congested q') sync = false) ∧
  (n < nr_requests (conf q) → at_sync (wakeups q) sync < at_sync (wakeups q') sync).
Proof.
  intros Hn Hle.
  destruct (requests_store_congested_spec true q) as ((c1 & E1) & A1 & B1 & C1).
  set (q1 := requests_store_congested true q) in *. clearbody q1. subst q1.
  destruct (requests_store_congested_spec false (set_congested c1 q)) as ((c2 & E2) & A2 & B2 & C2).
  set (q2 := requests_store_congested false _) in *. clearbody q2. subst q2.
  destruct (requests_store_full_spec true (set_congested c2 (set_congested c1 q)))
    as ((f3 & u3 & E3) & A3 & B3 & C3 & D3); [apply (Hn true)|].
  set (q3 := requests_store_full true _) in *. clearbody q3. subst q3.
  destruct (requests_store_full_spec false (set_wakeups u3 (set_queue_flags f3
    (set_congested c2 (set_congested c1 q))))) as ((f4 & u4 & E4) & A4 & B4 & C4 & D4);
    [apply (Hn false)|].
  set (q4 := requests_store_full false _) in *. clearbody q4. subst q4. cbv zeta.
  pose proof (Z.leb_spec (nr_requests (conf q)) (at_sync (rq_count q) sync)) as Hspec.
  split; [done|]. destruct sync; cbn in *.
  - rewrite B4, A3, D4, C3. split_and!; auto.
    + intros H. rewrite A2. by apply B1.
    + intros H. rewrite A2. by apply C1.
    + intros H. destruct Hspec; [lia|]. simpl. lia.
  - rewrite A4, C4. split_and!; auto. intros H. rewrite D3. destruct Hspec; [lia|]. simpl. lia.
Qed.

(** After a write to [nr_requests] the marks agree with the counters in both
    directions: a direction is marked full exactly when it uses all requests,
    its waiters are woken when it does not, it is congested above the upper
    threshold and not congested below the lower one. *)
Theorem queue_requests_store_marks q n count sync :
  has_request_fn (conf q) = true → 0 ≤ n < 2 ^ 31 →
  (∀ sync, 0 ≤ at_sync (rq_count q) sync < 2 ^ 31 - 1) →
  let '(ret, q') := queue_requests_store q (queue_var_show n) count in
  let c := at_sync (rq_count q) sync in
  ret = count ∧ nr_requests (conf q') = Z.max BLKDEV_MIN_RQ n ∧
  blk_queue_full q' sync = (Z.max BLKDEV_MIN_RQ n <=? c) ∧
  (queue_congestion_on_threshold q' ≤ c → at_sync (congested q') sync = true) ∧
  (c < queue_congestion_off_threshold q' → at_sync (congested q') sync = false) ∧
  (c < nr_requests (conf q') → at_sync (wakeups q) sync < at_sync (wakeups q') sync).
Proof.
  intros Hf Hn Hc. unfold queue_requests_store. rewrite Hf, var_store_show by lia. cbn [negb].
  assert ((if n <? BLKDEV_MIN_RQ then BLKDEV_MIN_RQ else n) = Z.max BLKDEV_MIN_RQ n) as ->.
  { destruct (Z.ltb_spec n BLKDEV_MIN_RQ); lia. }
  set (nr := Z.max BLKDEV_MIN_RQ n).
  assert (4 ≤ nr < 2 ^ 31) as Hnr by (unfold nr, BLKDEV_MIN_RQ; lia). clearbody nr.
  set (q0 := blk_queue_congestion_threshold (conf_upd (set_nr_requests nr) q)).
  destruct (congestion_gap (conf_upd (set_nr_requests nr) q)) as [Hgap _]; [cbn; lia|].
  destruct (requests_store_marks q0 sync) as (Hconf & Hfull & Hon & Hoff & Hwake);
    [exact Hc|fold q0 in Hgap; lia|].
  unfold queue_congestion_on_threshold, queue_congestion_off_threshold in *.
  cbv zeta. rewrite Hconf. split_and!; auto.
Qed.

(** A write to [max_sectors_kb] is refused without effect unless the value
    lies between a page and the hardware limit; an accepted write keeps the
    limits well formed and is what the attribute shows afterwards. *)
Theorem queue_max_sectors_store_spec q kb count :
  limits_wf (q_limits q) → 0 ≤ kb < 2 ^ 64 → 0 ≤ count →
  let '(ret, q') := queue_max_sectors_store q (queue_var_show kb) count in
  limits_wf (q_limits q') ∧
  ((ret = - EINVAL ∧ q' = q ∧ ¬ (4 ≤ kb ≤ queue_max_hw_sectors q / 2)) ∨
   (ret = count ∧ 4 ≤ kb ≤ queue_max_hw_sectors q / 2 ∧
    queue_max_sectors_show q' = queue_var_show kb ∧
    queue_max_sectors q' ≤ queue_max_hw_sectors q')).
Proof.
  intros Hwf Hkb Hcount. unfold queue_max_sectors_store. rewrite var_store_show by done.
  rewrite Z.shiftr_div_pow2 by done. change (Z.shiftl 1 _) with 4. change (2 ^ 1) with 2.
  pose proof (wf_hw_sectors _ Hwf) as Hhw. pose proof (wf_sectors _ Hwf) as Hs.
  fold (queue_max_hw_sectors q) in Hhw, Hs.
  pose proof (Z.div_mod (queue_max_hw_sectors q) 2). pose proof (Z.mod_pos_bound (queue_max_hw_sectors q) 2).
  rewrite Z.gtb_ltb. destruct (Z.ltb_spec (queue_max_hw_sectors q / 2) kb); simpl; [auto with lia|].
  destruct (Z.ltb_spec kb 4); simpl; [auto with lia|].
  set (l := u32 _). assert (l = 2 * kb) as Hl.
  { subst l. rewrite Z.shiftl_mul_pow2, u32_id by lia. lia. }
  clearbody l. assert (l ≤ queue_max_hw_sectors q) by lia.
  split. { unfold queue_max_hw_sectors, q_limits in *. destruct Hwf. constructor; cbn; tauto || lia. }
  right. split_and!; [done|done|done| |].
  - unfold queue_max_sectors_show. f_equal. change (u64 (s32 (Z.shiftr l 1)) = kb).
    rewrite Hl, Z.shiftr_div_pow2 by lia. change (2 ^ 1) with 2.
    rewrite Z.mul_comm, Z.div_mul, s32_id, u64_id by lia. done.
  - unfold queue_max_sectors, queue_max_hw_sectors, q_limits in *. cbn. lia.
Qed.

(** The attribute [nomerges] reads back what was written, any value above 2
    counting as 1; the two flags behind it are never both set. *)
Theorem queue_nomerges_roundtrip q v count :
  0 ≤ v < 2 ^ 64 →
  let '(ret, q') := queue_nomerges_store q (queue_var_show v) count in
  ret = count ∧ queue_nomerges_show q' = queue_var_show (if 2 <? v then 1 else v) ∧
  blk_queue_nomerges q' && blk_queue_noxmerges q' = false.
Proof.
  intros Hv. unfold queue_nomerges_store. rewrite var_store_show by done.
  unfold queue_nomerges_show, blk_queue_nomerges, blk_queue_noxmerges, test_bit, flag_set, flag_clear.
  destruct (Z.eqb_spec v 2) as [->|]; cbn [queue_flags set_queue_flags].
  { rewrite Z.setbit_eq, Z.setbit_neq, Z.clearbit_eq by done. done. }
  destruct (Z.eqb_spec v 0) as [->|]; cbn [negb queue_flags set_queue_flags].
  { rewrite Z.clearbit_neq, !Z.clearbit_eq by done. done. }
  rewrite Z.setbit_eq, Z.setbit_neq, Z.clearbit_neq, Z.clearbit_eq by done.
  split_and!; [done| |done]. f_equal. destruct (Z.ltb_spec 2 v); [done|].
  replace v with 1 by lia. done.
Qed.

(** [nr_requests] has no upper bound, but the thresholds are computed in
    [int]: writing 4294967296 makes the threshold at which the queue becomes
    congested 0, below the one at which it stops being congested. *)
Theorem requests_store_inverts_thresholds q count :
  has_request_fn (conf q) = true →
  let q' := snd (queue_requests_store q (queue_var_show (2 ^ 32)) count) in
  nr_requests (conf q') = 2 ^ 32 ∧
  queue_congestion_on_threshold q' = 0 ∧ queue_congestion_off_threshold q' = 1.
Proof.
  intros Hf. unfold queue_requests_store. rewrite Hf, var_store_show by lia.
  change (2 ^ 32 <? BLKDEV_MIN_RQ) with false. cbn [negb snd].
  set (q0 := blk_queue_congestion_threshold _).
  assert (∀ q, conf (requests_store_congested true q) = conf q ∧
               conf (requests_store_congested false q) = conf q) as Hcong.
  { intros q1. unfold requests_store_congested. by repeat case_match. }
  assert (∀ q, conf (requests_store_full true q) = conf q ∧
               conf (requests_store_full false q) = conf q) as Hfull.
  { intros q1. unfold requests_store_full. by repeat case_match. }
  unfold queue_congestion_on_threshold, queue_congestion_off_threshold. cbv zeta.
  rewrite (proj2 (Hfull _)), (proj1 (Hfull _)), (proj2 (Hcong _)), (proj1 (Hcong _)).
  split_and!; reflexivity.
Qed.

(** [discard_max_bytes] is computed in 32 bits: a device that can discard
    2^23 sectors in one request is reported as not able to discard at all. *)
Theorem discard_max_show_wraps q :
  max_discard_sectors (q_limits q) = 2 ^ 23 → queue_discard_max_show q = queue_var_show 0.
Proof. intros H. unfold queue_discard_max_show. by rewrite H. Qed.

(** ** Witnesses *)
Lemma sysfs_number_roundtrip_witness :
  simple_strtoul [49; 50; 56; 10] 10 = (128, [10]) ∧ queue_var_store (queue_var_show 128) 4 = (128, 4).
Proof. apply (sysfs_number_roundtrip 128 []). lia. Defined.

Lemma queue_requests_store_marks_witness :
  nr_requests (conf (snd (queue_requests_store (set_rq_count (5, 3) blank_queue)
    (queue_var_show 4) 2))) = 4 ∧
  blk_queue_full (snd (queue_requests_store (set_rq_count (5, 3) blank_queue)
    (queue_var_show 4) 2)) false = true.
Proof.
  pose proof (queue_requests_store_marks (set_rq_count (5, 3) blank_queue) 4 2 false eq_refl
    ltac:(lia) ltac:(by intros [])) as H.
  destruct (queue_requests_store _ _ _) as [ret q']. destruct H as (_ & H1 & H2 & _).
  split; [exact H1|exact H2].
Defined.

Lemma queue_max_sectors_store_spec_witness :
  queue_max_sectors_store blank_queue (queue_var_show 4) 2 = (2, limits_upd (set_max_sectors 8) blank_queue) ∧
  limits_wf (q_limits (limits_upd (set_max_sectors 8) blank_queue)).
Proof.
  split; [reflexivity|].
  apply (queue_max_sectors_store_spec blank_queue 4 2); [exact default_limits_wf|lia|lia].
Defined.

Lemma queue_nomerges_roundtrip_witness :
  queue_nomerges_show (snd (queue_nomerges_store blank_queue (queue_var_show 2) 2)) = queue_var_show 2.
Proof. apply (queue_nomerges_roundtrip blank_queue 2 2). lia. Defined.

Lemma requests_store_inverts_thresholds_witness :
  queue_congestion_on_threshold (snd (queue_requests_store blank_queue
    (queue_var_show (2 ^ 32)) 11)) = 0.
Proof. apply (requests_store_inverts_thresholds blank_queue 11). reflexivity. Defined.

Lemma discard_max_show_wraps_witness :
  queue_discard_max_show (blk_queue_max_discard_sectors (2 ^ 23) blank_queue) = queue_var_show 0.
Proof. apply discard_max_show_wraps. reflexivity. Defined.
