(* ===== verification/Segments.v ===== *)
(** * Physical segments ([block/blk-merge.c], first part)

    Counting the physical segments of a chain of bios, and mapping a request to
    a scatter list.  Physical addresses come from the page frame number of a
    vector ([bv_page]); the memory of the scatter list is bounded, writing past
    its end is a fault. *)

From S2P Require Import Prelude KList Request Samples Settings.

Local Open Scope Z_scope.

(** ** Bio accessors ([include/linux/bio.h]) *)
Definition BIO_UPTODATE : Z := 0.
Definition BIO_EOF : Z := 2.
Definition BIO_SEG_VALID : Z := 3.
Definition BIO_EOPNOTSUPP : Z := 7.
Definition BIO_CPU_AFFINE : Z := 8.
Definition BIO_QUIET : Z := 11.
Definition bio_flagged (b : bio) (flag : Z) : bool := tst (bi_flags b) (Z.shiftl 1 flag).
Definition bio_has_data (b : bio) : bool := bi_has_vec b.
Definition bio_prio (b : bio) : Z := Z.shiftr (bi_rw b) 48.

Definition bio_iovec_idx (b : bio) (idx : Z) : option bio_vec := bi_io_vec b !! Z.to_nat idx.
Definition bio_iovec (b : bio) : option bio_vec := bio_iovec_idx b (bi_idx b).
Definition __BVEC_END (b : bio) : option bio_vec := bio_iovec_idx b (bi_vcnt b - 1).
Definition __BVEC_START (b : bio) : option bio_vec := bio_iovec_idx b (bi_idx b).

(** The vectors [bio_for_each_segment] visits. *)
Definition bio_segs (b : bio) : list bio_vec := drop (Z.to_nat (bi_idx b)) (bi_io_vec b).

Definition bio_cur_bytes (b : bio) : res Z :=
  if negb (bi_vcnt b =? 0) then v ← deref (bio_iovec b); Ok (bv_len v) else Ok (bi_size b).
Definition blk_rq_cur_bytes (r : request) : res Z :=
  match bios r with [] => Ok 0 | b :: _ => bio_cur_bytes b end.

(** ** Physical addresses *)
Definition bvec_to_phys (v : bio_vec) : Z := u64 (Z.shiftl (bv_page v) PAGE_SHIFT + bv_offset v).
Definition BIOVEC_PHYS_MERGEABLE (v1 v2 : bio_vec) : bool :=
  u64 (bvec_to_phys v1 + bv_len v1) =? bvec_to_phys v2.
Definition __BIO_SEG_BOUNDARY (addr1 addr2 mask : Z) : bool :=
  Z.lor addr1 mask =? Z.lor (u64 (addr2 - 1)) mask.
Definition BIOVEC_SEG_BOUNDARY (q : request_queue) (b1 b2 : bio_vec) : bool :=
  __BIO_SEG_BOUNDARY (bvec_to_phys b1) (u64 (bvec_to_phys b2 + bv_len b2))
    (queue_segment_boundary q).

(** ** Counting segments *)

(** The variables of the loops of [__blk_recalc_rq_segments]; [front] is
    [fbio->bi_seg_front_size]. *)
Record recalc_state := RecalcState {
  seg_size : Z;
  nr_phys_segs : Z;
  bvprv : option bio_vec;
  highprv : bool;
  front : Z
}.

(** [if (nr_phys_segs == 1 && seg_size > fbio->bi_seg_front_size) ...] *)
Definition front_size (s : recalc_state) : Z :=
  if (nr_phys_segs s =? 1) && (seg_size s >? front s) then seg_size s else front s.

(** Does [bv] extend the segment that ends in [prv]? *)
Definition extends (q : request_queue) (size : Z) (prv bv : bio_vec) : bool :=
  negb (u32 (size + bv_len bv) >? queue_max_segment_size q) &&
  BIOVEC_PHYS_MERGEABLE prv bv && BIOVEC_SEG_BOUNDARY q prv bv.

(** One round of the loop over the vectors.  The first round starts a segment,
    because [highprv] is set initially; later ones have a previous vector. *)
Definition recalc_step (q : request_queue) (s : recalc_state) (bv : bio_vec) : recalc_state :=
  let cluster := test_bit QUEUE_FLAG_CLUSTER (queue_flags q) in
  let high := bv_page bv >? queue_bounce_pfn q in
  let same := match bvprv s with Some prv => extends q (seg_size s) prv bv | None => false end in
  if negb (high || highprv s) && cluster && same then
    RecalcState (u32 (seg_size s + bv_len bv)) (nr_phys_segs s) (Some bv) (highprv s) (front s)
  else
    RecalcState (bv_len bv) (u32 (nr_phys_segs s + 1)) (Some bv) high (front_size s).

(** Update the last element of a list. *)
Definition alter_last {A} (f : A → A) (l : list A) : list A :=
  match rev l with [] => [] | x :: l' => rev (f x :: l') end.

(** The number of segments, and the bios with the sizes of their first and last
    segments updated. *)
Definition __blk_recalc_rq_segments (q : request_queue) (bs : list bio) : Z * list bio :=
  match bs with
  | [] => (0, [])
  | fbio :: _ =>
    let s := foldl (recalc_step q) (RecalcState 0 0 None true (bi_seg_front_size fbio))
               (concat (bio_segs <$> bs)) in
    let bs := match bs with b :: bs => set_bi_seg_front_size (front_size s) b :: bs | [] => [] end in
    let bs := alter_last (λ b, if seg_size s >? bi_seg_back_size b
                               then set_bi_seg_back_size (seg_size s) b else b) bs in
    (nr_phys_segs s, bs)
  end.

Definition blk_recalc_rq_segments (q : request_queue) (rq : request) : request :=
  let '(n, bs) := __blk_recalc_rq_segments q (bios rq) in
  set_nr_phys_segments (u16 n) (set_bios bs rq).

Definition blk_recount_segments (q : request_queue) (b : bio) : bio :=
  let '(n, bs) := __blk_recalc_rq_segments q [b] in
  let b := default b (head bs) in
  let b := set_bi_phys_segments n b in
  set_bi_flags (Z.lor (bi_flags b) (Z.shiftl 1 BIO_SEG_VALID)) b.

(** [bio_phys_segments] of [fs/bio.c]: the count, and the bio with its cached
    count made valid. *)
Definition bio_phys_segments (q : request_queue) (b : bio) : Z * bio :=
  let b := if negb (bio_flagged b BIO_SEG_VALID) then blk_recount_segments q b else b in
  (bi_phys_segments b, b).

Definition blk_phys_contig_segment (q : request_queue) (b nxt : bio) : res bool :=
  if negb (test_bit QUEUE_FLAG_CLUSTER (queue_flags q)) then Ok false
  else if u32 (bi_seg_back_size b + bi_seg_front_size nxt) >? queue_max_segment_size q then Ok false
  else if negb (bio_has_data b) then Ok true
  else
    e ← deref (__BVEC_END b);
    s ← deref (__BVEC_START nxt);
    if negb (BIOVEC_PHYS_MERGEABLE e s) then Ok false
    else if BIOVEC_SEG_BOUNDARY q e s then Ok true
    else Ok false.

(** ** Scatter lists *)
Record scatterlist := Scatterlist { sg_page : Z; sg_offset : Z; sg_length : Z }.

(** Entries already set, the current one first; [cap] entries fit in memory. *)
Definition sg_push (cap : nat) (e : scatterlist) (sgs : list scatterlist) : res (list scatterlist) :=
  if (length sgs <? cap)%nat then Ok (e :: sgs) else Err OOPS.

(** [sg->length += n] *)
Definition sg_grow (n : Z) (sgs : list scatterlist) : res (list scatterlist) :=
  match sgs with
  | [] => Err OOPS
  | e :: sgs => Ok (Scatterlist (sg_page e) (sg_offset e) (u32 (sg_length e + n)) :: sgs)
  end.

(** One round of the loop of [blk_rq_map_sg]; [prv] is [bvprv]. *)
Definition map_sg_step (q : request_queue) (cap : nat) (prv : option bio_vec) (bvec : bio_vec)
    (sgs : list scatterlist) : res (list scatterlist) :=
  let cluster := test_bit QUEUE_FLAG_CLUSTER (queue_flags q) in
  let nbytes := bv_len bvec in
  let same := match prv, sgs with
              | Some p, sg :: _ => cluster && extends q (sg_length sg) p bvec
              | _, _ => false
              end in
  if same then sg_grow nbytes sgs
  else sg_push cap (Scatterlist (bv_page bvec) (bv_offset bvec) nbytes) sgs.

Fixpoint map_sg_loop (q : request_queue) (cap : nat) (prv : option bio_vec) (vs : list bio_vec)
    (sgs : list scatterlist) : res (list scatterlist) :=
  match vs with
  | [] => Ok sgs
  | bvec :: vs =>
    sgs ← map_sg_step q cap prv bvec sgs;
    map_sg_loop q cap (Some bvec) vs sgs
  end.

(** The padding that rounds the length of a copied user buffer up. *)
Definition map_sg_pad (q : request_queue) (p : request * list scatterlist) :
    res (request * list scatterlist) :=
  let '(rq, sgs) := p in
  if tst (cmd_flags rq) REQ_COPY_USER && tst (blk_rq_bytes rq) (dma_pad_mask (conf q)) then
    let pad_len := u32 (Z.ldiff (dma_pad_mask (conf q)) (blk_rq_bytes rq) + 1) in
    sgs ← sg_grow pad_len sgs;
    Ok (set_extra_len (u32 (extra_len rq + pad_len)) rq, sgs)
  else Ok (rq, sgs).

(** The buffer for excess DMA, at physical address [dma_drain_buffer]. *)
Definition map_sg_drain (drain_needed : request → bool) (q : request_queue) (cap : nat)
    (p : request * list scatterlist) : res (request * list scatterlist) :=
  let '(rq, sgs) := p in
  let size := dma_drain_size (conf q) in
  if negb (size =? 0) && drain_needed rq then
    if bool_decide (sgs = []) then Err OOPS else
    let buf := dma_drain_buffer (conf q) in
    sgs ← sg_push cap (Scatterlist (Z.shiftr buf PAGE_SHIFT)
                         (Z.land buf (PAGE_CACHE_SIZE - 1)) size) sgs;
    Ok (set_extra_len (u32 (extra_len rq + size)) rq, sgs)
  else Ok (rq, sgs).

(** [blk_rq_map_sg] into a list of [cap] entries: the request with its
    [extra_len] updated and the entries set, in order; their number is the
    return value.  [dma_drain_needed] is the driver's. *)
Definition blk_rq_map_sg (drain_needed : request → bool) (q : request_queue) (rq : request)
    (cap : nat) : res (request * list scatterlist) :=
  sgs ← map_sg_loop q cap None (concat (bio_segs <$> bios rq)) [];
  p ← map_sg_pad q (rq, sgs);
  '(rq, sgs) ← map_sg_drain drain_needed q cap p;
  Ok (rq, rev sgs).

#[global] Instance scatterlist_eq_dec : EqDecision scatterlist.
Proof. solve_decision. Defined.

(** ** What a scatter list covers *)

(** A vector lies within a page of physical memory. *)
Definition bvec_ok (v : bio_vec) : Prop :=
  0 ≤ bv_page v < 2 ^ 40 ∧ 0 ≤ bv_offset v ∧ 1 ≤ bv_len v ∧
  bv_offset v + bv_len v ≤ PAGE_CACHE_SIZE.
#[global] Instance bvec_ok_dec v : Decision (bvec_ok v).
Proof. unfold bvec_ok. apply _. Defined.

Definition bv_start (v : bio_vec) : Z := bv_page v * 4096 + bv_offset v.
Definition sg_start (e : scatterlist) : Z := sg_page e * 4096 + sg_offset e.
(** The physical addresses of a vector and of an entry, in transfer order. *)
Definition bv_bytes (v : bio_vec) : list Z := seqZ (bv_start v) (bv_len v).
Definition sg_bytes (e : scatterlist) : list Z := seqZ (sg_start e) (sg_length e).

(** Queues with sane limits: segments hold a page and do not overflow 32 bits,
    the boundary mask is a run of ones that covers a page. *)
Record seg_limits_ok (q : request_queue) : Prop := {
  seg_ok_size : PAGE_CACHE_SIZE ≤ queue_max_segment_size q ≤ 2 ^ 31;
  seg_ok_mask : ∃ k, 12 ≤ k ≤ 64 ∧ queue_segment_boundary q = 2 ^ k - 1
}.

(** The window of the boundary mask an address falls into. *)
Definition window (q : request_queue) (a : Z) : Z := Z.lor a (queue_segment_boundary q).

Lemma window_spec q k a :
  0 ≤ k → queue_segment_boundary q = 2 ^ k - 1 → 0 ≤ a → window q a = a / 2 ^ k * 2 ^ k + (2 ^ k - 1).
Proof.
  intros Hk Hm Ha. unfold window. rewrite Hm.
  replace (2 ^ k - 1) with (Z.ones k) by (rewrite Z.ones_equiv; lia).
  apply Z.bits_inj'. intros n Hn. rewrite Z.lor_spec.
  destruct (Z.lt_ge_cases n k).
  - rewrite Z.ones_spec_low, orb_true_r by lia.
    rewrite <-(Z.mod_pow2_bits_low _ k) by lia.
    rewrite Z.add_comm, Z.mod_add by lia.
    rewrite Z.mod_small by (rewrite Z.ones_equiv; pose proof (Z.pow_pos_nonneg 2 k); lia).
    by rewrite Z.ones_spec_low by lia.
  - rewrite Z.ones_spec_high, orb_false_r by lia.
    replace n with ((n - k) + k) by lia. rewrite <-!Z.div_pow2_bits by lia. f_equal.
    rewrite Z.add_comm, Z.div_add by lia.
    rewrite (Z.div_small (Z.ones k)) by (rewrite Z.ones_equiv; pose proof (Z.pow_pos_nonneg 2 k); lia). lia.
Qed.

Lemma window_between q a b c :
  seg_limits_ok q → 0 ≤ a ≤ b → b ≤ c → window q a = window q c → window q b = window q a.
Proof.
  intros [_ (k & Hk & Hm)] Hab Hbc. rewrite !(window_spec q k) by lia.
  pose proof (Z.pow_pos_nonneg 2 k). intros E.
  pose proof (Z.div_le_mono a b (2 ^ k)). pose proof (Z.div_le_mono b c (2 ^ k)).
  assert (a / 2 ^ k = c / 2 ^ k) by nia.
  replace (b / 2 ^ k) with (a / 2 ^ k) by lia. done.
Qed.

Lemma bvec_to_phys_ok v : bvec_ok v → bvec_to_phys v = bv_start v ∧ 0 ≤ bv_start v ∧
  bv_start v + bv_len v < 2 ^ 64.
Proof.
  intros (? & ? & ? & ?). change PAGE_CACHE_SIZE with 4096 in *. unfold bvec_to_phys, bv_start.
  rewrite Z.shiftl_mul_pow2 by done. change (2 ^ PAGE_SHIFT) with 4096.
  rewrite u64_id by lia. lia.
Qed.

Lemma bvec_window q v :
  seg_limits_ok q → bvec_ok v → window q (bv_start v + bv_len v - 1) = window q (bv_start v).
Proof.
  intros [_ (k & Hk & Hm)] Hv. pose proof (bvec_to_phys_ok v Hv). destruct Hv as (? & ? & ? & ?).
  change PAGE_CACHE_SIZE with 4096 in *.
  rewrite !(window_spec q k) by lia. do 2 f_equal.
  assert (2 ^ k = 2 ^ (k - 12) * 4096) as ->.
  { change 4096 with (2 ^ 12). rewrite <-Z.pow_add_r by lia. f_equal. lia. }
  pose proof (Z.pow_pos_nonneg 2 (k - 12)).
  rewrite (Z.mul_comm _ 4096), <-!Z.div_div by lia. f_equal. unfold bv_start in *.
  replace (bv_page v * 4096 + bv_offset v + bv_len v - 1)
    with (bv_page v * 4096 + (bv_offset v + bv_len v - 1)) by lia.
  rewrite !Z.div_add_l, !(Z.div_small _ 4096) by lia. done.
Qed.

(** What the test [extends] means for well-placed vectors. *)
Lemma extends_spec q size p v :
  seg_limits_ok q → bvec_ok p → bvec_ok v → 0 ≤ size ≤ queue_max_segment_size q →
  extends q size p v =
  bool_decide (size + bv_len v ≤ queue_max_segment_size q ∧ bv_start p + bv_len p = bv_start v ∧
               window q (bv_start p) = window q (bv_start v + bv_len v - 1)).
Proof.
  intros Hq Hp Hv Hs. destruct (seg_ok_size _ Hq).
  destruct (bvec_to_phys_ok p Hp) as (Ep & ? & ?), (bvec_to_phys_ok v Hv) as (Ev & ? & ?).
  destruct Hv as (? & ? & ? & ?), Hp as (_ & _ & ? & _). change PAGE_CACHE_SIZE with 4096 in *.
  unfold extends, BIOVEC_PHYS_MERGEABLE, BIOVEC_SEG_BOUNDARY, __BIO_SEG_BOUNDARY. fold (window q).
  rewrite Ep, Ev, (u32_id (size + bv_len v)), (u64_id (bv_start p + bv_len p)),
    (u64_id (bv_start v + bv_len v)), u64_id, Z.gtb_ltb, <-Z.leb_antisym by lia.
  fold (window q (bv_start p)). fold (window q (bv_start v + bv_len v - 1)).
  apply eq_true_iff_eq. rewrite !andb_true_iff, Z.leb_le, !Z.eqb_eq, bool_decide_eq_true. tauto.
Qed.

(** *** One round of the mapping *)
Definition sg_ok (q : request_queue) (e : scatterlist) : Prop :=
  0 ≤ sg_start e ∧ 1 ≤ sg_length e ≤ queue_max_segment_size q ∧
  window q (sg_start e + sg_length e - 1) = window q (sg_start e).

(** The current entry ends where the previous vector ends. *)
Definition sg_inv (q : request_queue) (prv : option bio_vec) (sgs : list scatterlist) : Prop :=
  Forall (sg_ok q) sgs ∧
  match prv, sgs with
  | None, [] => True
  | Some p, e :: _ => bvec_ok p ∧ sg_start e ≤ bv_start p ∧
                      bv_start p + bv_len p = sg_start e + sg_length e
  | _, _ => False
  end.

Lemma map_sg_step_inv q cap prv v sgs sgs' :
  seg_limits_ok q → bvec_ok v → sg_inv q prv sgs → map_sg_step q cap prv v sgs = Ok sgs' →
  sg_inv q (Some v) sgs' ∧
  concat (sg_bytes <$> rev sgs') = concat (sg_bytes <$> rev sgs) ++ bv_bytes v.
Proof.
  intros Hq Hv [Hall Hinv] Hstep.
  assert (∀ sgs', sg_push cap (Scatterlist (bv_page v) (bv_offset v) (bv_len v)) sgs = Ok sgs' →
    sg_inv q (Some v) sgs' ∧
    concat (sg_bytes <$> rev sgs') = concat (sg_bytes <$> rev sgs) ++ bv_bytes v) as Hpush.
  { clear Hstep. intros sgs1. unfold sg_push. destruct (_ <? _)%nat; [|done]. intros [= <-].
    pose proof (bvec_to_phys_ok v Hv) as (_ & ? & _). pose proof (bvec_window q v Hq Hv).
    pose proof (seg_ok_size q Hq). pose proof Hv as (? & ? & ? & ?).
    change PAGE_CACHE_SIZE with 4096 in *.
    split; [split; [constructor; [|done]|]|].
    - split; [done|]. split; [simpl; lia|done].
    - split; [done|]. unfold sg_start, bv_start. simpl. lia.
    - simpl. rewrite fmap_app, concat_app. simpl. by rewrite app_nil_r. }
  unfold map_sg_step in Hstep. destruct prv as [p|], sgs as [|e sgs]; try done; [|by apply Hpush].
  destruct (test_bit _ _); [|by apply Hpush]. simpl andb in Hstep.
  destruct Hinv as (Hp & Hle & Heq). inversion Hall as [|?? He Hall']; subst.
  destruct He as (? & ? & Hwin).
  rewrite extends_spec in Hstep by (done || lia).
  destruct (bool_decide _) eqn:Hd; [|by apply Hpush].
  apply bool_decide_eq_true in Hd as (Hsize & Hcont & Hwin').
  simpl in Hstep. injection Hstep as <-. destruct (seg_ok_size _ Hq). pose proof Hv as (? & ? & ? & ?).
  rewrite u32_id by lia. unfold sg_inv, sg_ok, sg_start in *. simpl.
  split; [split; [constructor; [|done]|]|].
  - split; [done|]. split; [simpl; lia|]. simpl.
    transitivity (window q (bv_start p)).
    + rewrite Hwin'. f_equal. lia.
    + apply (window_between q _ _ (bv_start p + bv_len p - 1)); [done|lia| |].
      * destruct Hp as (_ & _ & ? & _). lia.
      * rewrite Heq. done.
  - split; [done|]. lia.
  - rewrite !fmap_app, !concat_app. simpl. rewrite !app_nil_r, <-app_assoc. f_equal.
    unfold sg_bytes, bv_bytes, sg_start. simpl. rewrite seqZ_app by lia. do 2 f_equal. lia.
Qed.

Lemma map_sg_loop_inv q cap prv vs sgs sgs' :
  seg_limits_ok q → Forall bvec_ok vs → sg_inv q prv sgs → map_sg_loop q cap prv vs sgs = Ok sgs' →
  Forall (sg_ok q) sgs' ∧
  concat (sg_bytes <$> rev sgs') = concat (sg_bytes <$> rev sgs) ++ concat (bv_bytes <$> vs).
Proof.
  intros Hq Hvs. revert prv sgs. induction Hvs as [|v vs Hv Hvs IH]; intros prv sgs Hinv; simpl.
  { intros [= <-]. rewrite app_nil_r. by destruct Hinv. }
  destruct (map_sg_step q cap prv v sgs) as [sgs1|] eqn:E; [|done]. simpl. intros E'.
  apply map_sg_step_inv in E as [Hinv1 Hb]; [|done..].
  apply IH in E' as [? ->]; [|done]. by rewrite Hb, <-app_assoc.
Qed.

(** *** Counting bounds mapping *)

(** The mapping is never behind the count: it has fewer entries than segments
    counted, or as many and a current entry that is not longer. *)
Definition ahead (s : recalc_state) (sgs : list scatterlist) : Prop :=
  let n := Z.of_nat (length sgs) in
  n < nr_phys_segs s ∨
  (n = nr_phys_segs s ∧ match sgs with [] => True | e :: _ => sg_length e ≤ seg_size s end).

(** The states the counting loop passes through. *)
Definition recalc_inv (q : request_queue) (prv : option bio_vec) (s : recalc_state) : Prop :=
  bvprv s = prv ∧ 0 ≤ nr_phys_segs s ∧ 0 ≤ seg_size s ≤ queue_max_segment_size q ∧
  (prv = None → highprv s = true).

Lemma recalc_step_spec q prv s v :
  seg_limits_ok q → bvec_ok v → (∀ p, prv = Some p → bvec_ok p) → recalc_inv q prv s →
  nr_phys_segs s < 2 ^ 32 - 1 →
  recalc_inv q (Some v) (recalc_step q s v) ∧
  ((∃ p, prv = Some p ∧ test_bit QUEUE_FLAG_CLUSTER (queue_flags q) = true ∧
      extends q (seg_size s) p v = true ∧ nr_phys_segs (recalc_step q s v) = nr_phys_segs s ∧
      seg_size (recalc_step q s v) = seg_size s + bv_len v) ∨
   (nr_phys_segs (recalc_step q s v) = nr_phys_segs s + 1 ∧
    seg_size (recalc_step q s v) = bv_len v)).
Proof.
  intros Hq Hv Hp (Eprv & Hnr & Hsz & Hhigh) Hlt. unfold recalc_step. rewrite Eprv.
  destruct (seg_ok_size _ Hq). pose proof Hv as (? & ? & ? & ?). change PAGE_CACHE_SIZE with 4096 in *.
  destruct (negb _ && _ && _) eqn:E.
  - bprop. destruct prv as [p|]; [|done].
    assert (seg_size s + bv_len v ≤ queue_max_segment_size q).
    { match goal with H : extends _ _ _ _ = true |- _ =>
        pose proof H as H'; rewrite extends_spec in H' by (auto; lia) end.
      by apply bool_decide_eq_true in H' as (? & _). }
    rewrite u32_id by lia. split; [split_and!; cbn; done || lia|]. left. by exists p.
  - split; [split_and!; cbn; [done|apply u32_range|lia|lia|done]|]. right. cbn. by rewrite u32_id by lia.
Qed.

Lemma map_sg_step_ahead q cap prv s v sgs :
  seg_limits_ok q → bvec_ok v → (∀ p, prv = Some p → bvec_ok p) → recalc_inv q prv s →
  sg_inv q prv sgs → ahead s sgs → nr_phys_segs s < 2 ^ 32 - 1 →
  nr_phys_segs (recalc_step q s v) ≤ Z.of_nat cap →
  ∃ sgs', map_sg_step q cap prv v sgs = Ok sgs' ∧ ahead (recalc_step q s v) sgs'.
Proof.
  intros Hq Hv Hp Hs [Hall Hinv] Hahead Hlt Hcap.
  destruct (recalc_step_spec q prv s v Hq Hv Hp Hs Hlt) as [_ Hstep].
  destruct Hs as (_ & Hnr & Hsz & _).
  destruct (seg_ok_size _ Hq). pose proof Hv as (? & ? & ? & ?). change PAGE_CACHE_SIZE with 4096 in *.
  assert (∀ b, b = false ∨ (∃ e sgs0 p, sgs = e :: sgs0 ∧ prv = Some p ∧ b = true ∧
             sg_length e + bv_len v ≤ queue_max_segment_size q) →
    (b = false → Z.of_nat (length sgs) + 1 ≤ nr_phys_segs (recalc_step q s v)) →
    ∃ sgs', (if b then sg_grow (bv_len v) sgs
             else sg_push cap (Scatterlist (bv_page v) (bv_offset v) (bv_len v)) sgs) = Ok sgs' ∧
      ahead (recalc_step q s v) sgs') as Hgo.
  { intros b Hb Hpush. destruct b.
    - destruct Hb as [|(e & sgs0 & p & -> & _ & _ & Hle)]; [done|].
      inversion Hall as [|?? (_ & ? & _) _]; subst.
      eexists. split; [reflexivity|]. unfold ahead in *. simpl in *. rewrite u32_id by lia.
      destruct Hstep as [(_ & _ & _ & _ & -> & ->)|[-> ->]]; lia.
    - specialize (Hpush eq_refl). unfold sg_push.
      destruct (Nat.ltb_spec (length sgs) cap); [|lia]. eexists. split; [reflexivity|].
      unfold ahead in *. simpl in *.
      destruct Hstep as [(_ & _ & _ & _ & E1 & E2)|[E1 E2]]; rewrite E1, E2 in *; lia. }
  unfold map_sg_step. apply Hgo; clear Hgo.
  - destruct prv as [p|], sgs as [|e sgs]; auto. inversion Hall as [|?? (_ & ? & _) _]; subst.
    destruct (test_bit _ _); [|by left]. simpl.
    rewrite extends_spec by (auto; lia). destruct (bool_decide _) eqn:Hd; [right|by left].
    apply bool_decide_eq_true in Hd as (? & _). by exists e, sgs, p.
  - unfold ahead in Hahead. destruct prv as [p|], sgs as [|e sgs]; try done; intros Hb.
    + destruct Hinv as (Hp' & Hle & Heq). inversion Hall as [|?? (_ & ? & _) _]; subst.
      destruct Hstep as [(p' & [= <-] & Hc & Hext & E1 & E2)|[E1 E2]]; rewrite E1; [|simpl in *; lia].
      destruct Hahead as [?|[En Hlen]]; [lia|]. exfalso. rewrite Hc in Hb. simpl in Hb.
      rewrite extends_spec in Hext, Hb by (done || lia).
      apply bool_decide_eq_true in Hext. apply bool_decide_eq_false in Hb. apply Hb.
      destruct Hext as (? & ? & ?). split_and!; done || lia.
    + destruct Hstep as [(p' & [=] & _)|[E1 E2]]. rewrite E1. simpl in *. lia.
Qed.

Lemma recalc_mono q vs prv s :
  seg_limits_ok q → Forall bvec_ok vs → (∀ p, prv = Some p → bvec_ok p) → recalc_inv q prv s →
  nr_phys_segs s + Z.of_nat (length vs) < 2 ^ 32 →
  nr_phys_segs s ≤ nr_phys_segs (foldl (recalc_step q) s vs).
Proof.
  intros Hq Hvs. revert prv s. induction Hvs as [|v vs Hv Hvs IH]; intros prv s Hp Hs Hlen; simpl in *; [lia|].
  destruct (recalc_step_spec q prv s v) as [Hs' Hcase]; [done..|lia|].
  assert (nr_phys_segs s ≤ nr_phys_segs (recalc_step q s v) ≤ nr_phys_segs s + 1)
    by (destruct Hcase as [(_ & _ & _ & _ & -> & _)|[-> _]]; lia).
  etrans; [|apply (IH (Some v)); [by intros ? [= <-]|done|lia]]. lia.
Qed.

Lemma map_sg_loop_fits q cap vs prv s sgs :
  seg_limits_ok q → Forall bvec_ok vs → (∀ p, prv = Some p → bvec_ok p) → recalc_inv q prv s →
  sg_inv q prv sgs → ahead s sgs → nr_phys_segs s + Z.of_nat (length vs) < 2 ^ 32 →
  nr_phys_segs (foldl (recalc_step q) s vs) ≤ Z.of_nat cap →
  ∃ sgs', map_sg_loop q cap prv vs sgs = Ok sgs' ∧
    Z.of_nat (length sgs') ≤ nr_phys_segs (foldl (recalc_step q) s vs).
Proof.
  intros Hq Hvs. revert prv s sgs.
  induction Hvs as [|v vs Hv Hvs IH]; intros prv s sgs Hp Hs Hinv Hahead Hlen Hcap.
  { exists sgs. split; [done|]. unfold ahead in Hahead. simpl. lia. }
  cbn [foldl length] in *.
  destruct (recalc_step_spec q prv s v) as [Hs' Hcase]; [done..|lia|].
  assert (nr_phys_segs (recalc_step q s v) ≤ nr_phys_segs s + 1)
    by (destruct Hcase as [(_ & _ & _ & _ & -> & _)|[-> _]]; lia).
  assert (nr_phys_segs (recalc_step q s v) ≤ nr_phys_segs (foldl (recalc_step q) (recalc_step q s v) vs))
    by (apply (recalc_mono q vs (Some v)); [done|done|by intros ? [= <-]|done|lia]).
  destruct (map_sg_step_ahead q cap prv s v sgs) as (sgs1 & E1 & Hahead1); [done..|lia|lia|].
  cbn [map_sg_loop]. rewrite E1. cbn [mbind res_bind].
  apply IH; [by intros ? [= <-]|done| |done|lia|done].
  by apply (map_sg_step_inv q cap prv v sgs).
Qed.

(** The vectors of a request that [rq_for_each_segment] visits. *)
Definition rq_segs (rq : request) : list bio_vec := concat (bio_segs <$> bios rq).

Lemma recalc_count q rq :
  nr_phys_segments (blk_recalc_rq_segments q rq) =
  u16 (nr_phys_segs (foldl (recalc_step q) (RecalcState 0 0 None true
         (match bios rq with b :: _ => bi_seg_front_size b | [] => 0 end)) (rq_segs rq))).
Proof. unfold blk_recalc_rq_segments, __blk_recalc_rq_segments, rq_segs. by destruct (bios rq). Qed.

Lemma recalc_le q s vs :
  seg_limits_ok q → Forall bvec_ok vs → recalc_inv q None s →
  nr_phys_segs s + Z.of_nat (length vs) < 2 ^ 32 →
  nr_phys_segs (foldl (recalc_step q) s vs) ≤ nr_phys_segs s + Z.of_nat (length vs).
Proof.
  intros Hq Hvs. cut (∀ prv, (∀ p, prv = Some p → bvec_ok p) → recalc_inv q prv s →
    nr_phys_segs s + Z.of_nat (length vs) < 2 ^ 32 →
    nr_phys_segs (foldl (recalc_step q) s vs) ≤ nr_phys_segs s + Z.of_nat (length vs)); [intros H Hs; by apply (H None)|].
  revert s. induction Hvs as [|v vs Hv Hvs IH]; intros s prv Hp Hs Hlen; cbn [foldl length] in *; [lia|].
  destruct (recalc_step_spec q prv s v) as [Hs' Hcase]; [done..|lia|].
  assert (nr_phys_segs (recalc_step q s v) ≤ nr_phys_segs s + 1)
    by (destruct Hcase as [(_ & _ & _ & _ & -> & _)|[-> _]]; lia).
  etrans; [apply (IH _ (Some v)); [by intros ? [= <-]|done|lia]|lia].
Qed.

Lemma blk_rq_map_sg_ok drain_needed q rq cap :
  seg_limits_ok q → Forall bvec_ok (rq_segs rq) → Z.of_nat (length (rq_segs rq)) < 2 ^ 16 →
  rq_segs rq ≠ [] → tst (cmd_flags rq) REQ_COPY_USER = false →
  let extra := if dma_drain_size (conf q) =? 0 then 0 else 1 in
  nr_phys_segments (blk_recalc_rq_segments q rq) + extra ≤ Z.of_nat cap →
  ∃ rq' sgs tail, blk_rq_map_sg drain_needed q rq cap = Ok (rq', sgs ++ tail) ∧
    Z.of_nat (length sgs) ≤ nr_phys_segments (blk_recalc_rq_segments q rq) ∧
    Z.of_nat (length tail) ≤ extra ∧
    concat (sg_bytes <$> sgs) = concat (bv_bytes <$> rq_segs rq) ∧ Forall (sg_ok q) sgs.
Proof.
  intros Hq Hvs Hlen Hne Hpad extra. rewrite recalc_count.
  set (s := RecalcState _ _ _ _ _).
  assert (recalc_inv q None s) as Hs.
  { split_and!; try done. destruct (seg_ok_size _ Hq). change PAGE_CACHE_SIZE with 4096 in *. cbn. lia. }
  pose proof (recalc_le q s (rq_segs rq) Hq Hvs Hs ltac:(cbn; lia)) as Hle. cbn in Hle.
  pose proof (recalc_mono q (rq_segs rq) None s Hq Hvs ltac:(done) Hs ltac:(cbn; lia)) as Hge. cbn in Hge.
  unfold u16. rewrite Z.mod_small by lia. intros Hcap.
  assert (0 ≤ extra) by (subst extra; by destruct (_ =? _)).
  destruct (map_sg_loop_fits q cap (rq_segs rq) None s []) as (sgs & E & Hfit);
    [done|done|done|done|by split|right; done|cbn; lia|lia|].
  destruct (map_sg_loop_inv q cap None (rq_segs rq) [] sgs Hq Hvs) as [Hok Hbytes]; [by split|done|].
  simpl in Hbytes. unfold blk_rq_map_sg. fold (rq_segs rq). rewrite E. cbn [mbind res_bind].
  unfold map_sg_pad. rewrite Hpad. cbn [andb mbind res_bind]. unfold map_sg_drain.
  assert (sgs ≠ []) as Hsgs.
  { intros ->. simpl in Hbytes. destruct (rq_segs rq) as [|v vs]; [done|].
    apply Forall_cons in Hvs as [(_ & _ & ? & _) _]. simpl in Hbytes.
    apply (f_equal length) in Hbytes. unfold bv_bytes in Hbytes. rewrite length_app, length_seqZ in Hbytes. simpl in Hbytes. lia. }
  destruct (dma_drain_size (conf q) =? 0) eqn:Ez; cbn [negb andb]; subst extra.
  { exists rq, (rev sgs), []. rewrite app_nil_r, length_rev. split_and!; [done|lia|done|done|].
    by apply Forall_rev. }
  destruct (drain_needed rq).
  - rewrite bool_decide_false by done. unfold sg_push.
    destruct (Nat.ltb_spec (length sgs) cap); [|lia]. cbn [mbind res_bind rev].
    do 3 eexists. rewrite length_rev. split_and!; [done|lia|done|done|by apply Forall_rev].
  - exists rq, (rev sgs), []. rewrite app_nil_r, length_rev. split_and!; [done|lia|done|done|].
    by apply Forall_rev.
Qed.

(** ** The properties *)

(** C15: A scatter list with as many entries as [blk_recalc_rq_segments] counts
    segments is large enough for [blk_rq_map_sg]; with a drain buffer one more
    entry is.  The entries cover exactly the bytes of the request, in order; no
    entry exceeds the segment size limit or crosses the segment boundary. *)
Theorem blk_rq_map_sg_fits drain_needed q rq cap :
  seg_limits_ok q → Forall bvec_ok (rq_segs rq) → Z.of_nat (length (rq_segs rq)) < 2 ^ 16 →
  rq_segs rq ≠ [] → tst (cmd_flags rq) REQ_COPY_USER = false →
  let extra := if dma_drain_size (conf q) =? 0 then 0 else 1 in
  nr_phys_segments (blk_recalc_rq_segments q rq) + extra ≤ Z.of_nat cap →
  ∃ rq' sgs tail, blk_rq_map_sg drain_needed q rq cap = Ok (rq', sgs ++ tail) ∧
    Z.of_nat (length sgs) ≤ nr_phys_segments (blk_recalc_rq_segments q rq) ∧
    Z.of_nat (length tail) ≤ extra ∧
    concat (sg_bytes <$> sgs) = concat (bv_bytes <$> rq_segs rq) ∧ Forall (sg_ok q) sgs.
Proof. apply blk_rq_map_sg_ok. Qed.

(** A request of three vectors, the first two contiguous in memory, on a queue
    that allows clustering. *)
Definition three_vec_rq : request :=
  let b := {| bi_id := 1; bi_sector := 8; bi_disk := 1; bi_flags := 0; bi_rw := 0; bi_idx := 0;
              bi_phys_segments := 0; bi_size := 10240; bi_seg_front_size := 0;
              bi_seg_back_size := 0; bi_has_vec := true;
              bi_io_vec := [BioVec 16 4096 0; BioVec 17 4096 0; BioVec 40 2048 1024];
              bi_comp_cpu := 0; bi_integrity := false |} in
  set_bios [b] (sample_rq 0 8 20).

Lemma blk_rq_map_sg_fits_witness :
  ∃ rq' sgs tail,
    blk_rq_map_sg (λ _, false) (flag_set QUEUE_FLAG_CLUSTER sample_queue) three_vec_rq 2
      = Ok (rq', sgs ++ tail) ∧
    (length sgs ≤ 2)%nat ∧ concat (sg_bytes <$> sgs) = concat (bv_bytes <$> rq_segs three_vec_rq).
Proof.
  destruct (blk_rq_map_sg_fits (λ _, false) (flag_set QUEUE_FLAG_CLUSTER sample_queue) three_vec_rq 2)
    as (rq' & sgs & tail & E & Hn & _ & Hb & _).
  - split; [vm_compute; split; discriminate|]. exists 32. split; [lia|reflexivity].
  - apply (bool_decide_eq_true_1 _). vm_compute. reflexivity.
  - vm_compute. reflexivity.
  - discriminate.
  - reflexivity.
  - vm_compute. discriminate.
  - exists rq', sgs, tail. split_and!; [exact E| |exact Hb].
    change (nr_phys_segments _) with 2 in Hn. lia.
Defined.
