(* ===== verification/ReqList.v ===== *)
(** * Allocation of requests ([block/blk-core.c], [struct request_list])

    Initialisation, allocation and release of requests, with the counters, the
    full and congestion marks, batching and starvation.  The memory pool is an
    input: [mem] is the address [mempool_alloc] returns, if any.  [cur] is what
    [current_io_context] returns for the calling task.  [get_request] drops the
    queue lock before it allocates, so it is split at that point: what happens
    before ([get_request_start]) and after ([get_request_finish]) are two steps
    between which other tasks may run. *)

From S2P Require Import Prelude KList Request Samples Elevator Settings.

Local Open Scope Z_scope.

Definition BLK_BATCH_TIME : Z := HZ / 50.
Definition ELV_MQUEUE_NO : Z := 1.
Definition ELV_MQUEUE_MUST : Z := 2.

(** ** Batching *)

(** The members of [struct io_context] that batching uses. *)
Record io_context := IoContext { nr_batch_requests : Z; last_waited : Z }.

Definition ioc_batching (now : Z) (q : request_queue) (ioc : option io_context) : bool :=
  match ioc with
  | None => false
  | Some c =>
    (u32 (nr_batch_requests c) =? nr_batching (conf q)) ||
    ((nr_batch_requests c >? 0) && time_before now (u64 (last_waited c + BLK_BATCH_TIME)))
  end.

Definition ioc_set_batching (now : Z) (q : request_queue) (ioc : option io_context) :
    option io_context :=
  match ioc with
  | None => None
  | Some c =>
    if ioc_batching now q ioc then ioc else Some (IoContext (s32 (nr_batching (conf q))) now)
  end.

(** ** Release *)

(** Waking an empty wait queue does nothing, so the test [waitqueue_active] is
    not made separately; [wakeups] counts the calls of [wake_up]. *)
Definition __freed_request (sync : bool) (q : request_queue) : request_queue :=
  let q := if at_sync (rq_count q) sync <? queue_congestion_off_threshold q
           then blk_clear_queue_congested sync q else q in
  if u64 (s32 (at_sync (rq_count q) sync + 1)) <=? nr_requests (conf q) then
    let q := set_wakeups (upd_sync (λ n, n + 1) sync (wakeups q)) q in
    blk_clear_queue_full sync q
  else q.

Definition freed_request (sync priv : bool) (q : request_queue) : request_queue :=
  let q := set_rq_count (upd_sync (λ n, s32 (n - 1)) sync (rq_count q)) q in
  let q := if priv then set_elvpriv (s32 (elvpriv q - 1)) q else q in
  let q := __freed_request sync q in
  if negb (at_sync (starved q) (negb sync) =? 0) then __freed_request (negb sync) q else q.

(** ** Admission: the part of [get_request] under the lock *)

(** The checks against the congestion threshold and the full mark.  [None]: the
    queue is full for this task.  Otherwise, whether the task's io context was
    looked up, the io context, and the queue. *)
Definition get_request_full (may_queue now : Z) (is_sync : bool) (cur : option io_context)
    (q : request_queue) : option (bool * option io_context * request_queue) :=
  let count := at_sync (rq_count q) is_sync in
  if s32 (count + 1) >=? queue_congestion_on_threshold q then
    if u64 (s32 (count + 1)) >=? nr_requests (conf q) then
      if negb (blk_queue_full q is_sync) then
        Some (true, ioc_set_batching now q cur,
              blk_set_queue_congested is_sync (blk_set_queue_full is_sync q))
      else if negb (may_queue =? ELV_MQUEUE_MUST) && negb (ioc_batching now q cur) then None
      else Some (true, cur, blk_set_queue_congested is_sync q)
    else Some (false, cur, blk_set_queue_congested is_sync q)
  else Some (false, cur, q).

(** [if (rl->count[is_sync] == 0) rl->starved[is_sync] = 1;] *)
Definition rq_starved (is_sync : bool) (q : request_queue) : request_queue :=
  if at_sync (rq_count q) is_sync =? 0
  then set_starved (upd_sync (λ _, 1) is_sync (starved q)) q else q.

(** Account for a request about to be allocated; [priv] says whether it will
    have scheduler data. *)
Definition get_request_account (is_sync priv : bool) (q : request_queue) : request_queue :=
  let q := set_rq_count (upd_sync (λ n, s32 (n + 1)) is_sync (rq_count q)) q in
  let q := set_starved (upd_sync (λ _, 0) is_sync (starved q)) q in
  if priv then set_elvpriv (s32 (elvpriv q + 1)) q else q.

Section alloc.
Context {D : Type} (ops : elevator_ops D).

(** What the part under the lock decides: go to [out], or allocate a request
    with flags [rw_flags], with or without scheduler data, knowing the io
    context or not. *)
Inductive decision := Out | Allocate (rw_flags : Z) (ioc priv : bool).

Definition get_request_start (cur : option io_context) (rw_flags : Z) :
    ST (world D) (decision * option io_context) :=
  let is_sync := rw_is_sync rw_flags in
  may_queue ← elv_may_queue ops rw_flags;
  if may_queue =? ELV_MQUEUE_NO then q_upd (rq_starved is_sync);; mret (Out, cur) else
  q ← q_get;
  now ← gets jiffies;
  match get_request_full may_queue now is_sync cur q with
  | None => mret (Out, cur)
  | Some (ioc, cur, q) =>
    q_upd (λ _, q);;
    if u64 (at_sync (rq_count q) is_sync) >=? u64 (3 * nr_requests (conf q)) / 2
    then mret (Out, cur) else
    let priv := negb (test_bit QUEUE_FLAG_ELVSWITCH (queue_flags q)) in
    q_upd (get_request_account is_sync priv);;
    let rw_flags := if blk_queue_io_stat q then Z.lor rw_flags REQ_IO_STAT else rw_flags in
    mret (Allocate rw_flags ioc priv, cur)
  end.

(** ** Allocation: the part after the lock is dropped *)

(** Memory fresh from the pool: its contents do not matter. *)
Definition mempool_node (p : positive) (h : gmap laddr (list_head laddr)) :
    gmap laddr (list_head laddr) :=
  <[queuelist (Rq p) := ListHead LIST_POISON1 LIST_POISON2]>
    (<[timeout_list (Rq p) := ListHead LIST_POISON1 LIST_POISON2]>
      (<[csd_list (Rq p) := ListHead LIST_POISON1 LIST_POISON2]> h)).
Definition zero_rq : request :=
  Request 0 0 0 0 0 0 [] None 0 0 0 0 false 0 0 0 0 0 0 None None.

Definition mempool_alloc (mem : option positive) : ST (world D) (option rqid) :=
  match mem with
  | None => mret None
  | Some p =>
    modify (λ w, set_rqs (<[Rq p := zero_rq]> (rqs w)) (set_links (mempool_node p (links w)) w));;
    mret (Some (Rq p))
  end.
Definition mempool_free (r : rqid) : ST (world D) unit :=
  modify (λ w, set_rqs (delete r (rqs w))
    (set_links (delete (queuelist r) (delete (timeout_list r) (delete (csd_list r) (links w)))) w)).

Definition blk_rq_init (r : rqid) : ST (world D) unit :=
  rq_upd r (λ _, zero_rq);;
  on_links (INIT_LIST_HEAD (Ptr (queuelist r)));;
  on_links (INIT_LIST_HEAD (Ptr (timeout_list r)));;
  rq_upd r (set_cpu (-1));;
  rq_upd r (set___sector (u64 (-1)));;
  rq_upd r (set_tag (-1));;
  rq_upd r (set_ref_count 1);;
  now ← gets jiffies;
  rq_upd r (set_start_time now).

Definition blk_alloc_request (mem : option positive) (flags : Z) (priv : bool) (gfp_mask : Z) :
    ST (world D) (option rqid) :=
  rq ← mempool_alloc mem;
  match rq with
  | None => mret None
  | Some r =>
    blk_rq_init r;;
    rq_upd r (set_cmd_flags (Z.lor flags REQ_ALLOCED));;
    if (priv : bool) then
      failed ← elv_set_request ops r gfp_mask;
      if negb (failed =? 0) then mempool_free r;; mret None else
      rq_upd r (λ rq, set_cmd_flags (Z.lor (cmd_flags rq) REQ_ELVPRIV) rq);;
      mret (Some r)
    else mret (Some r)
  end.

Definition get_request_finish (cur : option io_context) (mem : option positive)
    (rw_flags : Z) (ioc priv : bool) (gfp_mask : Z) :
    ST (world D) (option rqid * option io_context) :=
  let is_sync := rw_is_sync rw_flags in
  rq ← blk_alloc_request mem rw_flags priv gfp_mask;
  match rq with
  | None => q_upd (freed_request is_sync priv);; q_upd (rq_starved is_sync);; mret (None, cur)
  | Some r =>
    q ← q_get;
    now ← gets jiffies;
    let cur := match cur with
               | Some c => if ioc && ioc_batching now q cur
                           then Some (IoContext (s32 (nr_batch_requests c - 1)) (last_waited c))
                           else cur
               | None => None
               end in
    mret (Some r, cur)
  end.

Definition get_request (cur : option io_context) (mem : option positive) (rw_flags gfp_mask : Z) :
    ST (world D) (option rqid * option io_context) :=
  '(d, cur) ← get_request_start cur rw_flags;
  match d with
  | Out => mret (None, cur)
  | Allocate rw_flags ioc priv => get_request_finish cur mem rw_flags ioc priv gfp_mask
  end.

(** One sleep in [get_request_wait]: what the rest of the system does meanwhile,
    the io context found afterwards, what happens until the task has the queue
    lock again and the memory for the next attempt. *)
Record sleep := Sleep {
  meanwhile : ST (world D) unit;
  slept_ioc : option io_context → option io_context;
  locking : ST (world D) unit;
  slept_mem : option positive
}.

(** The loop ends in [HANG] when the schedule given is used up. *)
Fixpoint get_request_wait (request_fn : ST (world D) unit) (cur : option io_context)
    (mem : option positive) (rw_flags : Z) (sleeps : list sleep) :
    ST (world D) (rqid * option io_context) :=
  '(rq, cur) ← get_request cur mem rw_flags GFP_NOIO;
  match rq with
  | Some r => mret (r, cur)
  | None =>
    match sleeps with
    | [] => raise HANG
    | s :: sleeps =>
      __generic_unplug_device request_fn;;
      meanwhile s;;
      q ← q_get;
      now ← gets jiffies;
      let cur := ioc_set_batching now q (slept_ioc s cur) in
      locking s;;
      get_request_wait request_fn cur (slept_mem s) rw_flags sleeps
    end
  end.

(** ** Release of a request *)
Definition blk_free_request (r : rqid) : ST (world D) unit :=
  rq ← rq_get r;
  when (tst (cmd_flags rq) REQ_ELVPRIV) (elv_put_request ops r);;
  mempool_free r.

(** [__blk_put_request], the case of a request from the pool. *)
Definition put_alloced (r : rqid) : ST (world D) unit :=
  rq ← rq_get r;
  when (tst (cmd_flags rq) REQ_ALLOCED)
    (let is_sync := rq_is_sync rq in
     let priv := tst (cmd_flags rq) REQ_ELVPRIV in
     e ← on_links (list_empty (Ptr (queuelist r)));
     bug_on (negb e);;
     h ← gets hash;
     bug_on (ELV_ON_HASH r h);;
     blk_free_request r;;
     q_upd (freed_request is_sync priv)).
End alloc.
Arguments Sleep {D}.
Arguments meanwhile {D}.
Arguments slept_ioc {D}.
Arguments slept_mem {D}.

(** ** Facts about the counters and marks *)

Definition is_alloced (rq : request) : bool := tst (cmd_flags rq) REQ_ALLOCED.
Definition has_priv (rq : request) : bool := tst (cmd_flags rq) REQ_ELVPRIV.

(** Releasing in direction [sync]: what becomes of the marks. *)
Lemma __freed_request_spec sync q :
  let c := at_sync (rq_count q) sync in
  let q' := __freed_request sync q in
  0 ≤ c < 2 ^ 31 - 1 →
  rq_count q' = rq_count q ∧ elvpriv q' = elvpriv q ∧ conf q' = conf q ∧ starved q' = starved q ∧
  (∀ s, blk_queue_full q' s = blk_queue_full q s && negb (eqb s sync && (c <? nr_requests (conf q)))) ∧
  (∀ s, at_sync (congested q') s =
        at_sync (congested q) s && negb (eqb s sync && (c <? queue_congestion_off_threshold q))) ∧
  (∀ s, at_sync (wakeups q') s =
        at_sync (wakeups q) s + (if eqb s sync && (c <? nr_requests (conf q)) then 1 else 0)).
Proof.
  intros c q' Hc. subst q'. unfold __freed_request. fold c.
  set (q1 := if c <? _ then _ else q).
  assert (rq_count q1 = rq_count q ∧ elvpriv q1 = elvpriv q ∧ conf q1 = conf q ∧
    starved q1 = starved q ∧ wakeups q1 = wakeups q ∧
    (∀ s, blk_queue_full q1 s = blk_queue_full q s) ∧
    (∀ s, at_sync (congested q1) s =
        at_sync (congested q) s && negb (eqb s sync && (c <? queue_congestion_off_threshold q))))
    as (E1 & E2 & E3 & E4 & E5 & E6 & E7).
  { subst q1. destruct (c <? _); split_and!; try done; intros [];
      destruct sync; cbn; by rewrite ?andb_true_r, ?andb_false_r. }
  clearbody q1. rewrite E1. fold c. rewrite s32_id, u64_id, E3 by lia.
  destruct (Z.leb_spec (c + 1) (nr_requests (conf q))); destruct (Z.ltb_spec c (nr_requests (conf q))); try lia.
  - split_and!; try (destruct sync; cbn; congruence).
    + intros s. rewrite full_clear, <-E6, andb_true_r, andb_comm. by destruct s, sync.
    + intros s. rewrite <-E7. by destruct sync.
    + intros s. rewrite andb_true_r. destruct s, sync; cbn; rewrite E5; lia.
  - split_and!; try congruence; intros s; rewrite ?andb_false_r, ?andb_true_r; auto.
    rewrite E5. lia.
Qed.

Lemma freed_request_spec sync priv q :
  let c := at_sync (rq_count q) sync - 1 in
  let c' := at_sync (rq_count q) (negb sync) in
  let q' := freed_request sync priv q in
  0 ≤ c < 2 ^ 31 - 1 → 0 ≤ c' < 2 ^ 31 - 1 →
  at_sync (rq_count q') sync = c ∧ at_sync (rq_count q') (negb sync) = c' ∧
  elvpriv q' = (if priv then s32 (elvpriv q - 1) else elvpriv q) ∧
  conf q' = conf q ∧ starved q' = starved q ∧
  (∀ s, blk_queue_full q' s = true → blk_queue_full q s = true ∧
        (s = sync → nr_requests (conf q) ≤ c)) ∧
  (∀ s, at_sync (congested q') s = true → at_sync (congested q) s = true ∧
        (s = sync → queue_congestion_off_threshold q ≤ c)) ∧
  (c < nr_requests (conf q) → at_sync (wakeups q) sync < at_sync (wakeups q') sync) ∧
  (at_sync (starved q) (negb sync) ≠ 0 → c' < nr_requests (conf q) →
   at_sync (wakeups q) (negb sync) < at_sync (wakeups q') (negb sync)).
Proof.
  intros c c' q' Hc Hc'. subst q'. unfold freed_request. cbv zeta.
  set (q1 := if priv then set_elvpriv _ _ else _).
  assert (at_sync (rq_count q1) sync = c ∧ at_sync (rq_count q1) (negb sync) = c' ∧
    elvpriv q1 = (if priv then s32 (elvpriv q - 1) else elvpriv q) ∧ conf q1 = conf q ∧
    starved q1 = starved q ∧ congested q1 = congested q ∧ queue_flags q1 = queue_flags q ∧
    wakeups q1 = wakeups q) as (E1 & E2 & E3 & E4 & E5 & E6 & E7 & E8).
  { subst q1 c c'. destruct priv; split_and!; try done; destruct sync; cbn; rewrite ?s32_id; done || (cbn in *; lia). }
  clearbody q1.
  destruct (__freed_request_spec sync q1) as (A1 & A2 & A3 & A4 & A5 & A6 & A7); [lia|].
  set (q2 := __freed_request sync q1) in *. clearbody q2.
  assert (∀ s, blk_queue_full q1 s = blk_queue_full q s) as E7' by
    (intros s; unfold blk_queue_full; by rewrite E7).
  assert (queue_congestion_off_threshold q1 = queue_congestion_off_threshold q) as E4' by
    (unfold queue_congestion_off_threshold; by rewrite E4).
  assert (queue_congestion_off_threshold q2 = queue_congestion_off_threshold q) as A3' by
    (unfold queue_congestion_off_threshold; by rewrite A3, E4).
  rewrite E1, E4 in A5. rewrite E1, E4', E6 in A6. rewrite E1, E4, E8 in A7. rewrite E5 in A4.
  destruct (__freed_request_spec (negb sync) q2) as (B1 & B2 & B3 & B4 & B5 & B6 & B7);
    [rewrite A1, E2; lia|].
  rewrite A1, E2, A3, E4 in B5, B7. rewrite A1, E2, A3' in B6. rewrite A4.
  destruct (Z.eqb_spec (at_sync (starved q) (negb sync)) 0) as [Hz|Hz]; cbn [negb].
  - rewrite A1. split_and!; try (done || congruence).
    + intros s. rewrite A5, E7'. intros [-> H]%andb_true_iff. split; [done|]. intros ->.
      rewrite eqb_reflx in H. cbn [andb] in H. by bprop.
    + intros s. rewrite A6. intros [-> H]%andb_true_iff. split; [done|]. intros ->.
      rewrite eqb_reflx in H. cbn [andb] in H. by bprop.
    + intros H. rewrite A7, eqb_reflx. apply Z.ltb_lt in H. rewrite H. simpl. lia.
  - rewrite B1, A1. split_and!; try (done || congruence).
    + intros s. rewrite B5, A5, E7'. intros [[-> H]%andb_true_iff _]%andb_true_iff.
      split; [done|]. intros ->. rewrite eqb_reflx in H. cbn [andb] in H. by bprop.
    + intros s. rewrite B6, A6. intros [[-> H]%andb_true_iff _]%andb_true_iff.
      split; [done|]. intros ->. rewrite eqb_reflx in H. cbn [andb] in H. by bprop.
    + intros H. rewrite B7, A7, eqb_reflx. apply Z.ltb_lt in H. rewrite H. simpl.
      destruct (eqb _ _ && _); lia.
    + intros _ H. rewrite B7, A7, eqb_reflx. apply Z.ltb_lt in H. rewrite H. simpl.
      destruct (eqb _ _ && _); lia.
Qed.

(** The number of requests from the pool that satisfy [P]. *)
Definition alloced (P : request → bool) (tbl : gmap rqid request) : Z :=
  Z.of_nat (size (filter (λ kv : rqid * request, is_alloced kv.2 && P kv.2 = true) tbl)).

Lemma alloced_nonneg P tbl : 0 ≤ alloced P tbl.
Proof. unfold alloced. lia. Qed.

Lemma alloced_insert P tbl r rq :
  tbl !! r = None →
  alloced P (<[r := rq]> tbl) = (if is_alloced rq && P rq then 1 else 0) + alloced P tbl.
Proof.
  intros Hr. unfold alloced. destruct (is_alloced rq && P rq) eqn:E.
  - rewrite map_filter_insert_True by done.
    rewrite map_size_insert_None by (by apply map_lookup_filter_None; left). lia.
  - rewrite map_filter_insert_False by (simpl; congruence). by rewrite delete_id.
Qed.

Lemma alloced_delete P tbl r rq :
  tbl !! r = Some rq →
  alloced P tbl = (if is_alloced rq && P rq then 1 else 0) + alloced P (delete r tbl).
Proof.
  intros Hr. rewrite <-(alloced_insert P (delete r tbl) r rq) by apply lookup_delete_eq.
  by rewrite insert_delete_id.
Qed.

(** Requests may change as long as they keep the flags that are counted. *)
Definition same_accounting (rq rq' : request) : Prop :=
  is_alloced rq' = is_alloced rq ∧ has_priv rq' = has_priv rq ∧ rq_is_sync rq' = rq_is_sync rq.

Lemma alloced_ext P tbl tbl' :
  (∀ rq rq', same_accounting rq rq' → P rq' = P rq) →
  map_relation (λ _, same_accounting) (λ _ _, False) (λ _ _, False) tbl tbl' →
  alloced P tbl' = alloced P tbl.
Proof.
  intros HP. revert tbl'. induction tbl as [|r rq tbl Hr IH] using map_ind; intros tbl' Hrel.
  { replace tbl' with (∅ : gmap rqid request); [done|]. symmetry. apply map_empty. intros i.
    specialize (Hrel i). rewrite lookup_empty in Hrel. by destruct (tbl' !! i). }
  pose proof (Hrel r) as Hr'. rewrite lookup_insert_eq in Hr'.
  destruct (tbl' !! r) as [rq'|] eqn:E; [|done]. simpl in Hr'.
  rewrite (alloced_delete _ _ _ _ E), (alloced_insert _ _ _ _ Hr), (IH (delete r tbl')).
  - by rewrite (HP _ _ Hr'), (proj1 Hr').
  - intros i. specialize (Hrel i). destruct (decide (r = i)) as [->|Hi].
    + by rewrite lookup_delete_eq, Hr.
    + by rewrite lookup_delete_ne, lookup_insert_ne in * by done.
Qed.

(** Allocations between their two steps. *)
Definition pending : Type := Z * bool * bool.
Definition pend_sync (s : bool) (p : pending) : bool := eqb (rw_is_sync p.1.1) s.
Definition pend_priv (p : pending) : bool := p.2.
Definition pendings (P : pending → bool) (ps : list pending) : Z :=
  Z.of_nat (length (filter (λ p, P p = true) ps)).

Lemma pendings_nil P : pendings P [] = 0.
Proof. done. Qed.
Lemma pendings_cons P p ps : pendings P (p :: ps) = (if P p then 1 else 0) + pendings P ps.
Proof.
  unfold pendings. rewrite filter_cons. destruct (P p) eqn:E; case_decide; try congruence; simpl; lia.
Qed.
Lemma pendings_middle P p ps1 ps2 :
  pendings P (ps1 ++ p :: ps2) = (if P p then 1 else 0) + pendings P (ps1 ++ ps2).
Proof. rewrite <-pendings_cons. unfold pendings. by rewrite <-Permutation_middle. Qed.
Lemma pendings_nonneg P ps : 0 ≤ pendings P ps.
Proof. unfold pendings. lia. Qed.
#[global] Opaque alloced pendings.

(** The state of the request list agrees with the requests that exist and with
    the allocations under way; the limits and marks are respected. *)
Record rl_inv {D} (w : world D) (ps : list pending) : Prop := {
  rl_nr : 4 ≤ nr_requests (conf (queue w)) < 2 ^ 29;
  rl_thresholds : queue_congestion_off_threshold (queue w) ≤ queue_congestion_on_threshold (queue w)
    ≤ nr_requests (conf (queue w));
  rl_count : ∀ s, at_sync (rq_count (queue w)) s =
    alloced (λ rq, eqb (rq_is_sync rq) s) (rqs w) + pendings (pend_sync s) ps;
  rl_elvpriv : elvpriv (queue w) = alloced has_priv (rqs w) + pendings pend_priv ps;
  rl_flags : Forall (λ p : pending, tst p.1.1 REQ_ELVPRIV = false) ps;
  rl_limit : ∀ s, at_sync (rq_count (queue w)) s ≤ 3 * nr_requests (conf (queue w)) / 2;
  rl_full : ∀ s, blk_queue_full (queue w) s = true →
    nr_requests (conf (queue w)) ≤ at_sync (rq_count (queue w)) s;
  rl_congested : ∀ s, at_sync (congested (queue w)) s = true →
    queue_congestion_off_threshold (queue w) ≤ at_sync (rq_count (queue w)) s
}.

(** What the hooks of the scheduler that allocation calls may not do: change
    requests or the queue. *)
Class QuietHooks {D} (ops : elevator_ops D) := {
  quiet_may_queue : ∀ rw w v w', elv_may_queue ops rw w = Ok (v, w') →
    rqs w' = rqs w ∧ queue w' = queue w;
  quiet_set_request : ∀ r gfp w v w', elv_set_request ops r gfp w = Ok (v, w') →
    rqs w' = rqs w ∧ queue w' = queue w;
  quiet_put_request : ∀ r w v w', elv_put_request ops r w = Ok (v, w') →
    rqs w' = rqs w ∧ queue w' = queue w
}.

Lemma no_hooks_quiet {D} (ops : elevator_ops D) :
  elevator_may_queue_fn ops = None → elevator_set_req_fn ops = None →
  elevator_put_req_fn ops = None → QuietHooks ops.
Proof.
  intros E1 E2 E3. split.
  - intros rw w v w'. unfold elv_may_queue. rewrite E1. by intros [= _ <-].
  - intros r gfp w v w'. unfold elv_set_request. rewrite E2. by intros [= _ <-].
  - intros r w v w'. unfold elv_put_request. rewrite E3. by intros [= _ <-].
Qed.

Lemma get_request_full_spec may_queue now is_sync cur q ioc cur' q' :
  let c := at_sync (rq_count q) is_sync in
  0 ≤ c < 2 ^ 31 - 1 →
  get_request_full may_queue now is_sync cur q = Some (ioc, cur', q') →
  rq_count q' = rq_count q ∧ elvpriv q' = elvpriv q ∧ conf q' = conf q ∧ starved q' = starved q ∧
  (∀ s, blk_queue_full q' s = true →
     blk_queue_full q s = true ∨ (s = is_sync ∧ nr_requests (conf q) ≤ c + 1)) ∧
  (∀ s, at_sync (congested q') s = true →
     at_sync (congested q) s = true ∨ (s = is_sync ∧ queue_congestion_on_threshold q ≤ c + 1)).
Proof.
  intros c Hc. unfold get_request_full. fold c. rewrite !s32_id, u64_id by lia.
  destruct (Z.geb_spec (c + 1) (queue_congestion_on_threshold q)); [|intros [= <- <- <-]; split_and!; auto].
  assert (∀ q1 s, at_sync (congested (blk_set_queue_congested is_sync q1)) s = true →
    at_sync (congested q1) s = true ∨ s = is_sync) as Hcg.
  { intros q1 []; destruct is_sync; cbn; auto. }
  destruct (Z.geb_spec (c + 1) (nr_requests (conf q))).
  - destruct (blk_queue_full q is_sync) eqn:Ef; cbn [negb].
    + destruct (_ && _); intros [= <- <- <-]. split_and!; auto. intros s ?%Hcg. naive_solver.
    + intros [= <- <- <-]. split_and!; try (by destruct is_sync).
      * intros s Hs. change (blk_queue_full (blk_set_queue_full is_sync q) s = true) in Hs.
        rewrite full_set in Hs. apply orb_true_iff in Hs as [Hs%eqb_prop|?]; auto.
      * intros s Hs%Hcg. destruct Hs as [Hs| ->]; [|by right; split].
        left. by destruct is_sync.
  - intros [= <- <- <-]. split_and!; auto. intros s ?%Hcg. naive_solver.
Qed.

Section accounting.
Context {D : Type} (ops : elevator_ops D) `{!QuietHooks ops}.
Implicit Types (w : world D) (ps : list pending).

(** The flags a request is asked for with. *)
Definition rw_only (rw_flags : Z) : Prop := Z.ldiff rw_flags (Z.lor REQ_RW REQ_RW_SYNC) = 0.
Definition decided (d : decision) ps : list pending :=
  match d with Out => ps | Allocate f ioc priv => (f, ioc, priv) :: ps end.

Lemma rw_only_priv f : rw_only f → tst f REQ_ELVPRIV = false.
Proof.
  unfold rw_only, tst. intros E. apply negb_false_iff, Z.eqb_eq, Z.bits_inj'. intros n Hn.
  rewrite Z.land_spec, Z.bits_0. apply (f_equal (λ z, Z.testbit z 13)) in E.
  rewrite Z.ldiff_spec, Z.bits_0 in E. change (Z.testbit (Z.lor REQ_RW REQ_RW_SYNC) 13) with false in E.
  cbn [negb] in E. rewrite andb_true_r in E. unfold REQ_ELVPRIV. rewrite Z.shiftl_1_l, Z.pow2_bits_eqb by done.
  destruct (Z.eqb_spec 13 n) as [<-|]; [by rewrite E|apply andb_false_r].
Qed.

Lemma rl_inv_counts w ps s : rl_inv w ps →
  0 ≤ at_sync (rq_count (queue w)) s < 2 ^ 31 - 1 ∧
  3 * nr_requests (conf (queue w)) / 2 < 2 ^ 31 - 1.
Proof.
  intros H. pose proof (rl_limit _ _ H s). pose proof (rl_nr _ _ H). rewrite (rl_count _ _ H) in *.
  pose proof (alloced_nonneg (λ rq, eqb (rq_is_sync rq) s) (rqs w)).
  pose proof (pendings_nonneg (pend_sync s) ps).
  assert (3 * nr_requests (conf (queue w)) / 2 < 2 ^ 31 - 1) by (apply Z.div_lt_upper_bound; lia). lia.
Qed.

Lemma alloced_split tbl :
  alloced (λ _, true) tbl =
  alloced (λ rq, eqb (rq_is_sync rq) true) tbl + alloced (λ rq, eqb (rq_is_sync rq) false) tbl ∧
  alloced has_priv tbl ≤ alloced (λ _, true) tbl.
Proof.
  induction tbl as [|r rq tbl Hr IH] using map_ind; [done|].
  rewrite !alloced_insert by done. cbv beta.
  destruct (is_alloced rq), (has_priv rq), (rq_is_sync rq); cbn [eqb andb]; lia.
Qed.
Lemma pendings_split ps :
  0 ≤ pendings pend_priv ps ≤ pendings (pend_sync true) ps + pendings (pend_sync false) ps.
Proof.
  induction ps as [|[[f ioc] priv] ps IH]; [done|]. rewrite !pendings_cons.
  change (pend_sync true (f, ioc, priv)) with (eqb (rw_is_sync f) true).
  change (pend_sync false (f, ioc, priv)) with (eqb (rw_is_sync f) false).
  change (pend_priv (f, ioc, priv)) with priv.
  destruct priv, (rw_is_sync f); cbn [eqb]; lia.
Qed.
Lemma rl_inv_elvpriv w ps : rl_inv w ps → 0 ≤ elvpriv (queue w) < 2 ^ 31 - 1.
Proof.
  intros H. rewrite (rl_elvpriv _ _ H). pose proof (rl_nr _ _ H).
  pose proof (rl_limit _ _ H true) as L1. pose proof (rl_limit _ _ H false) as L2.
  rewrite (rl_count _ _ H) in L1, L2. pose proof (alloced_split (rqs w)). pose proof (pendings_split ps).
  pose proof (alloced_nonneg has_priv (rqs w)).
  assert (3 * nr_requests (conf (queue w)) / 2 < 2 ^ 30 - 1) by (apply Z.div_lt_upper_bound; lia). lia.
Qed.

(** A state that differs in what is not counted. *)
Lemma rl_inv_ext w w' ps :
  rl_inv w ps → rqs w' = rqs w → queue w' = queue w → rl_inv w' ps.
Proof. intros [] E1 E2. by constructor; rewrite ?E1, ?E2. Qed.

Lemma rl_inv_marks w q' ps :
  rl_inv w ps → rq_count q' = rq_count (queue w) → elvpriv q' = elvpriv (queue w) →
  conf q' = conf (queue w) →
  (∀ s, blk_queue_full q' s = true → nr_requests (conf (queue w)) ≤ at_sync (rq_count (queue w)) s) →
  (∀ s, at_sync (congested q') s = true →
     queue_congestion_off_threshold (queue w) ≤ at_sync (rq_count (queue w)) s) →
  rl_inv (set_queue q' w) ps.
Proof.
  intros [] E1 E2 E3 H1 H2. unfold queue_congestion_off_threshold, queue_congestion_on_threshold in *.
  constructor; cbn; unfold queue_congestion_off_threshold, queue_congestion_on_threshold;
    rewrite ?E1, ?E2, ?E3; auto.
Qed.

Lemma rw_is_sync_or f g :
  tst g REQ_RW = false → tst g REQ_RW_SYNC = false → rw_is_sync (Z.lor f g) = rw_is_sync f.
Proof. intros E1 E2. unfold rw_is_sync. by rewrite !tst_lor, E1, E2, !orb_false_r. Qed.

Lemma rl_inv_starved w ps s : rl_inv w ps → rl_inv (set_queue (rq_starved s (queue w)) w) ps.
Proof.
  intros H. unfold rq_starved. destruct (_ =? 0); apply rl_inv_marks; try done; apply H.
Qed.

Lemma get_request_account_spec is_sync priv q :
  let q' := get_request_account is_sync priv q in
  rq_count q' = upd_sync (λ n, s32 (n + 1)) is_sync (rq_count q) ∧
  elvpriv q' = (if priv then s32 (elvpriv q + 1) else elvpriv q) ∧
  conf q' = conf q ∧ congested q' = congested q ∧ queue_flags q' = queue_flags q ∧
  at_sync (starved q') is_sync = 0.
Proof. by destruct priv, is_sync. Qed.

Lemma rl_inv_account w ps q1 f ioc priv (is_sync := rw_is_sync f) :
  let c := at_sync (rq_count (queue w)) is_sync in
  rl_inv w ps → rq_count q1 = rq_count (queue w) → elvpriv q1 = elvpriv (queue w) →
  conf q1 = conf (queue w) →
  (∀ s, blk_queue_full q1 s = true → blk_queue_full (queue w) s = true ∨
     (s = is_sync ∧ nr_requests (conf (queue w)) ≤ c + 1)) →
  (∀ s, at_sync (congested q1) s = true → at_sync (congested (queue w)) s = true ∨
     (s = is_sync ∧ queue_congestion_on_threshold (queue w) ≤ c + 1)) →
  c < 3 * nr_requests (conf (queue w)) / 2 → tst f REQ_ELVPRIV = false →
  rl_inv (set_queue (get_request_account is_sync priv q1) w) ((f, ioc, priv) :: ps).
Proof.
  intros c H E1 E2 E3 Hf Hc Hlt Hfl.
  pose proof (λ s, rl_inv_counts w ps s H) as Hr. pose proof (rl_inv_elvpriv w ps H) as Hp.
  destruct (get_request_account_spec is_sync priv q1) as (A1 & A2 & A3 & A4 & A5 & _).
  set (q2 := get_request_account is_sync priv q1) in *. clearbody q2.
  assert (∀ s, at_sync (rq_count q2) s =
    at_sync (rq_count (queue w)) s + (if eqb is_sync s then 1 else 0)) as Ac.
  { intros s. rewrite A1, E1. pose proof (Hr s). destruct is_sync, s; cbn in *; rewrite ?s32_id; lia. }
  constructor; cbn; unfold queue_congestion_off_threshold, queue_congestion_on_threshold in *;
    rewrite ?A3, ?E3; try apply H; try intros s; rewrite ?Ac.
  - rewrite pendings_cons, (rl_count _ _ H). change (pend_sync s (f, ioc, priv)) with (eqb is_sync s). lia.
  - rewrite pendings_cons, A2, E2, (rl_elvpriv _ _ H) in *. change (pend_priv (f, ioc, priv)) with priv.
    destruct priv; rewrite ?s32_id; lia.
  - constructor; [done|]. apply H.
  - pose proof (rl_limit _ _ H s). destruct (eqb is_sync s) eqn:E; [|lia].
    apply eqb_prop in E as <-. fold c. lia.
  - unfold blk_queue_full. rewrite A5. fold (blk_queue_full q1 s). intros Hs%Hf.
    destruct Hs as [Hs%(rl_full _ _ H)|[-> Hs]]; [destruct (eqb _ _); lia|]. rewrite eqb_reflx. fold c. lia.
  - rewrite A4. intros Hs%Hc. pose proof (rl_thresholds _ _ H) as Ht.
    unfold queue_congestion_off_threshold, queue_congestion_on_threshold in Ht.
    destruct Hs as [Hs%(rl_congested _ _ H)|[-> Hs]]; [|rewrite eqb_reflx; fold c; lia].
    unfold queue_congestion_off_threshold in Hs. destruct (eqb _ _); lia.
Qed.

Lemma get_request_start_inv cur rw_flags w d cur' w' ps :
  rw_only rw_flags → rl_inv w ps → get_request_start ops cur rw_flags w = Ok ((d, cur'), w') → rl_inv w' (decided d ps).
Proof.
  intros Hrw H. unfold get_request_start. intros (mq & w1 & Emq & E)%st_bind_inv.
  apply quiet_may_queue in Emq as [Er Eq]. assert (rl_inv w1 ps) as H1 by by eapply rl_inv_ext.
  clear H Er Eq w. destruct (mq =? ELV_MQUEUE_NO).
  { injection E as <- <- <-. by apply rl_inv_starved. }
  unfold q_get, gets, mbind, st_bind in E.
  destruct (get_request_full _ _ _ _ _) as [[[ioc cur1] q1]|] eqn:Ef;
    [|by injection E as <- <- <-].
  apply get_request_full_spec in Ef as (E1 & E2 & E3 & E4 & Hf & Hc); [|by apply (rl_inv_counts _ ps)].
  cbn in E. destruct (rl_inv_counts w1 ps (rw_is_sync rw_flags) H1) as [? ?]. pose proof (rl_nr _ _ H1).
  rewrite E1, E3, !u64_id in E by lia.
  destruct (Z.geb_spec (at_sync (rq_count (queue w1)) (rw_is_sync rw_flags))
    (3 * nr_requests (conf (queue w1)) / 2)) as [Hge|Hlt].
  - injection E as <- <- <-. pose proof (rl_thresholds _ _ H1).
    assert (nr_requests (conf (queue w1)) ≤ 3 * nr_requests (conf (queue w1)) / 2)
      by (apply Z.div_le_lower_bound; lia).
    apply rl_inv_marks; try done.
    + intros s Hs%Hf. destruct Hs as [Hs%(rl_full _ _ H1)|[-> Hs]]; lia.
    + intros s Hs%Hc. destruct Hs as [Hs%(rl_congested _ _ H1)|[-> Hs]]; lia.
  - injection E as <- <- <-.
    set (f := if blk_queue_io_stat q1 then Z.lor rw_flags REQ_IO_STAT else rw_flags).
    assert (rw_is_sync f = rw_is_sync rw_flags) as Esync.
    { subst f. destruct (blk_queue_io_stat q1); [|done]. by apply rw_is_sync_or. }
    assert (tst f REQ_ELVPRIV = false) as Hfl.
    { subst f. apply rw_only_priv in Hrw.
      destruct (blk_queue_io_stat q1); [|done]. by rewrite tst_lor, Hrw. }
    rewrite <-Esync in *. by apply (rl_inv_account w1 ps q1 f).
Qed.

(** A request just initialised. *)
Definition init_rq (now : Z) : request :=
  set_start_time now (set_ref_count 1 (set_tag (-1) (set___sector (u64 (-1)) (set_cpu (-1) zero_rq)))).

Lemma blk_rq_init_ok r w :
  is_Some (rqs w !! r) → mapped (links w) (queuelist r) → mapped (links w) (timeout_list r) →
  ∃ h', blk_rq_init r w = Ok (tt, set_rqs (<[r := init_rq (jiffies w)]> (rqs w)) (set_links h' w)) ∧
    is_list h' (queuelist r) [] ∧ is_list h' (timeout_list r) [] ∧
    frame (links w) h' [queuelist r; timeout_list r].
Proof.
  intros [rq Hr] Hq Ht. destruct w as [tbl h hs q d j k e i]. cbn in *.
  destruct (INIT_LIST_HEAD_spec h (queuelist r) Hq) as (h1 & E1 & L1 & F1).
  destruct (INIT_LIST_HEAD_spec h1 (timeout_list r)) as (h2 & E2 & L2 & F2);
    [by eapply frame_mapped|].
  exists h2. split_and!; [|by apply (frame_is_list h1 h2 [timeout_list r]); [| |lelem]|done|].
  - unfold blk_rq_init. erewrite st_bind_ok by (apply rq_upd_ok; exact Hr). wcbn.
    erewrite st_bind_ok by (apply on_links_ok; exact E1). wcbn.
    erewrite st_bind_ok by (apply on_links_ok; exact E2). wcbn.
    do 4 (erewrite st_bind_ok by (apply rq_upd_ok; apply lookup_insert_eq);
          wcbn; rewrite insert_insert_eq).
    erewrite (st_bind_ok (gets jiffies)) by reflexivity. wcbn.
    erewrite rq_upd_ok by apply lookup_insert_eq. wcbn. by rewrite insert_insert_eq.
  - eapply frame_trans; eapply frame_weaken; [exact F1|lelem|exact F2|lelem].
Qed.

Lemma mempool_node_mapped p (h : gmap laddr (list_head laddr)) :
  mapped (mempool_node p h) (queuelist (Rq p)) ∧ mapped (mempool_node p h) (timeout_list (Rq p)).
Proof.
  unfold mempool_node, mapped. rewrite lookup_insert_eq, lookup_insert_ne, lookup_insert_eq by done.
  split; eauto.
Qed.

(** The request [blk_alloc_request] makes. *)
Definition fresh_rq (now f : Z) (priv : bool) : request :=
  let f := Z.lor f REQ_ALLOCED in
  set_cmd_flags (if priv then Z.lor f REQ_ELVPRIV else f) (init_rq now).

Lemma blk_alloc_request_spec p f priv gfp w o w' :
  rqs w !! Rq p = None → blk_alloc_request ops (Some p) f priv gfp w = Ok (o, w') →
  queue w' = queue w ∧
  match o with
  | None => rqs w' = rqs w
  | Some r => r = Rq p ∧ rqs w' = <[Rq p := fresh_rq (jiffies w) f priv]> (rqs w)
  end.
Proof.
  intros Hp. unfold blk_alloc_request.
  set (w0 := set_rqs (<[Rq p := zero_rq]> (rqs w)) (set_links (mempool_node p (links w)) w)).
  rewrite (st_bind_ok _ _ _ (Some (Rq p)) w0) by done.
  destruct (mempool_node_mapped p (links w)) as [M1 M2].
  destruct (blk_rq_init_ok (Rq p) w0) as (h' & E & _); [cbn; rewrite lookup_insert_eq; eauto|done|done|].
  st_step E. unfold w0; wcbn. rewrite insert_insert_eq.
  erewrite st_bind_ok by (apply rq_upd_ok, lookup_insert_eq). wcbn.
  rewrite insert_insert_eq. set (w1 := set_rqs _ _).
  assert (rqs w1 = <[Rq p := fresh_rq (jiffies w) f false]> (rqs w)) as E1 by done.
  assert (queue w1 = queue w) as Q1 by done. clearbody w1.
  destruct priv; [|intros [= <- <-]; by rewrite E1, Q1].
  intros (fl & w2 & Es & E2)%st_bind_inv. apply quiet_set_request in Es as [E3 Q3].
  destruct (fl =? 0); cbn [negb] in E2.
  - apply st_bind_inv in E2 as ([] & w3 & E4 & [= <- <-]).
    erewrite rq_upd_ok in E4 by (rewrite E3, E1; apply lookup_insert_eq). injection E4 as <-. cbn.
    rewrite E3, E1, insert_insert_eq, Q3, Q1. done.
  - injection E2 as <- <-. cbn. rewrite E3, E1, Q3, Q1. split; [done|]. by apply delete_insert_id.
Qed.

Lemma fresh_rq_flags now f priv :
  tst f REQ_ELVPRIV = false →
  is_alloced (fresh_rq now f priv) = true ∧ has_priv (fresh_rq now f priv) = priv ∧
  rq_is_sync (fresh_rq now f priv) = rw_is_sync f.
Proof.
  intros Hf. unfold is_alloced, has_priv, rq_is_sync, fresh_rq, rw_is_sync.
  destruct priv; cbn [cmd_flags set_cmd_flags]; rewrite !tst_lor, ?Hf;
    cbn [orb]; change (tst REQ_ALLOCED REQ_ALLOCED) with true;
    change (tst REQ_ALLOCED REQ_RW) with false; change (tst REQ_ALLOCED REQ_RW_SYNC) with false;
    change (tst REQ_ELVPRIV REQ_RW) with false; change (tst REQ_ELVPRIV REQ_RW_SYNC) with false;
    change (tst REQ_ELVPRIV REQ_ELVPRIV) with true; change (tst REQ_ALLOCED REQ_ELVPRIV) with false;
    rewrite ?orb_true_r, ?orb_false_r; done.
Qed.

(** Giving one unit back in direction [sync]. *)
Lemma rl_inv_freed w w1 ps ps' (sync priv : bool) :
  rl_inv w ps → queue w1 = queue w →
  (∀ s, alloced (λ rq, eqb (rq_is_sync rq) s) (rqs w1) + pendings (pend_sync s) ps' =
        at_sync (rq_count (queue w)) s - (if eqb sync s then 1 else 0)) →
  alloced has_priv (rqs w1) + pendings pend_priv ps' =
    elvpriv (queue w) - (if priv then 1 else 0) →
  Forall (λ p : pending, tst p.1.1 REQ_ELVPRIV = false) ps' →
  rl_inv (set_queue (freed_request sync priv (queue w1)) w1) ps'.
Proof.
  intros H Eq Hc Hp Hfl. rewrite Eq.
  pose proof (λ s, rl_inv_counts w ps s H) as Hr. pose proof (rl_inv_elvpriv w ps H) as Hv.
  pose proof (Hc sync) as Hcs. rewrite eqb_reflx in Hcs.
  pose proof (alloced_nonneg (λ rq, eqb (rq_is_sync rq) sync) (rqs w1)).
  pose proof (pendings_nonneg (pend_sync sync) ps').
  pose proof (alloced_nonneg has_priv (rqs w1)). pose proof (pendings_nonneg pend_priv ps').
  pose proof (Hr sync) as [??]. pose proof (Hr (negb sync)) as [??].
  destruct (freed_request_spec sync priv (queue w)) as (A1 & A2 & A3 & A4 & A5 & A6 & A7 & _); [lia..|].
  set (q2 := freed_request sync priv (queue w)) in *. clearbody q2.
  assert (∀ s, at_sync (rq_count q2) s = at_sync (rq_count (queue w)) s - (if eqb sync s then 1 else 0)) as Ac.
  { intros s. destruct sync, s; cbn in *; lia. }
  constructor; cbn; unfold queue_congestion_off_threshold, queue_congestion_on_threshold in *;
    rewrite ?A4; try apply H; try intros s; rewrite ?Ac; try done.
  - destruct priv; rewrite A3, ?s32_id by lia; lia.
  - pose proof (rl_limit _ _ H s). destruct (eqb sync s); lia.
  - intros [Hs%(rl_full _ _ H) Hs']%A6. destruct (eqb sync s) eqn:E; [|lia].
    apply eqb_prop in E as <-. specialize (Hs' eq_refl). lia.
  - intros [Hs%(rl_congested _ _ H) Hs']%A7. unfold queue_congestion_off_threshold in Hs.
    destruct (eqb sync s) eqn:E; [|lia]. apply eqb_prop in E as <-. specialize (Hs' eq_refl). lia.
Qed.

Lemma get_request_finish_inv cur mem f ioc priv gfp w o cur' w' ps1 ps2 :
  rl_inv w (ps1 ++ (f, ioc, priv) :: ps2) → (∀ p, mem = Some p → rqs w !! Rq p = None) →
  get_request_finish ops cur mem f ioc priv gfp w = Ok ((o, cur'), w') → rl_inv w' (ps1 ++ ps2).
Proof.
  intros H Hmem. unfold get_request_finish. intros (o1 & w1 & E & Ek)%st_bind_inv.
  pose proof (rl_flags _ _ H) as Hfl. apply Forall_app in Hfl as [Hfl1 Hfl2].
  apply Forall_cons in Hfl2 as [Hfl Hfl2]. cbn in Hfl.
  assert (queue w1 = queue w ∧ match o1 with
    | None => rqs w1 = rqs w
    | Some r => ∃ p, mem = Some p ∧ r = Rq p ∧
        rqs w1 = <[Rq p := fresh_rq (jiffies w) f priv]> (rqs w) end) as [Eq Hr].
  { destruct mem as [p|].
    - apply blk_alloc_request_spec in E as [? Hr]; [|auto]. split; [done|].
      destruct o1; [|done]. destruct Hr. eauto.
    - by injection E as <- <-. }
  destruct o1 as [r|].
  - destruct Hr as (p & Ep & -> & Er). specialize (Hmem p Ep).
    destruct (fresh_rq_flags (jiffies w) f priv Hfl) as (F1 & F2 & F3).
    assert (w' = w1) as -> by (by injection Ek). clear Ek.
    constructor; rewrite ?Eq; try apply H.
    + intros s. rewrite (rl_count _ _ H), Er, alloced_insert, pendings_middle, F1, F3 by done.
      change (pend_sync s (f, ioc, priv)) with (eqb (rw_is_sync f) s). cbn [andb]. lia.
    + rewrite (rl_elvpriv _ _ H), Er, alloced_insert, pendings_middle, F1, F2 by done.
      change (pend_priv (f, ioc, priv)) with priv. cbn [andb]. lia.
    + apply Forall_app; auto.
  - injection Ek as _ _ <-. cbn.
    apply (rl_inv_starved (set_queue (freed_request (rw_is_sync f) priv (queue w1)) w1)).
    apply (rl_inv_freed w _ (ps1 ++ (f, ioc, priv) :: ps2)); try done.
    + intros s. rewrite (rl_count _ _ H), Hr, pendings_middle.
      change (pend_sync s (f, ioc, priv)) with (eqb (rw_is_sync f) s). lia.
    + rewrite (rl_elvpriv _ _ H), Hr, pendings_middle. change (pend_priv (f, ioc, priv)) with priv. lia.
    + apply Forall_app; auto.
Qed.

Lemma put_alloced_inv r w w' ps :
  rl_inv w ps → put_alloced ops r w = Ok (tt, w') → rl_inv w' ps.
Proof.
  intros H. unfold put_alloced. intros (rq & w0 & E & Ek)%st_bind_inv.
  unfold rq_get in E. destruct (rqs w !! r) as [rq'|] eqn:Hr; [|done]. injection E as -> <-.
  unfold when in Ek. destruct (tst (cmd_flags rq) REQ_ALLOCED) eqn:Ea; [|by injection Ek as <-].
  apply st_bind_inv in Ek as (e & w1 & E1 & Ek).
  assert (rqs w1 = rqs w ∧ queue w1 = queue w) as [R1 Q1].
  { unfold on_links, zoom in E1. destruct (list_empty _ _) as [[]|]; [|done]. by injection E1 as _ <-. }
  destruct e; [|done]. cbn [negb] in Ek. rewrite (st_bind_ok _ _ _ tt w1) in Ek by done.
  erewrite st_bind_ok in Ek by reflexivity.
  destruct (ELV_ON_HASH r (hash w1)); [done|]. rewrite (st_bind_ok _ _ _ tt w1) in Ek by done.
  apply st_bind_inv in Ek as ([] & w2 & E2 & [= <-]).
  assert (rqs w2 = delete r (rqs w) ∧ queue w2 = queue w) as [R2 Q2].
  { unfold blk_free_request, rq_get, mbind, st_bind in E2. rewrite R1, Hr in E2. unfold when in E2.
    destruct (tst (cmd_flags rq) REQ_ELVPRIV); [destruct (elv_put_request ops r w1) as [[v w3]|] eqn:Ep; [|done];
      apply quiet_put_request in Ep as [R3 Q3]|]; injection E2 as <-; cbn; split; congruence. }
  apply (rl_inv_freed w w2 ps); try done; try apply H.
  - intros s. rewrite (rl_count _ _ H), R2, (alloced_delete _ (rqs w) r rq) by done.
    unfold is_alloced at 1. rewrite Ea. cbn [andb]. lia.
  - rewrite (rl_elvpriv _ _ H), R2, (alloced_delete _ (rqs w) r rq) by done.
    unfold is_alloced at 1. rewrite Ea. cbn [andb]. unfold has_priv at 2. lia.
Qed.

(** ** The request list as a transition system

    Tasks start and finish allocations and release requests in any order; in
    between the rest of the block layer changes requests and the queue without
    touching what is accounted for. *)
Record rl_state := Rl { rl_world : world D; rl_pending : list pending }.

Inductive rl_step : rl_state → rl_state → Prop :=
| rl_start w ps cur rw_flags d cur' w' :
    rw_only rw_flags → get_request_start ops cur rw_flags w = Ok ((d, cur'), w') →
    rl_step (Rl w ps) (Rl w' (decided d ps))
| rl_finish w ps1 ps2 f ioc priv cur mem gfp o cur' w' :
    (∀ p, mem = Some p → rqs w !! Rq p = None) →
    get_request_finish ops cur mem f ioc priv gfp w = Ok ((o, cur'), w') →
    rl_step (Rl w (ps1 ++ (f, ioc, priv) :: ps2)) (Rl w' (ps1 ++ ps2))
| rl_put w ps r w' :
    put_alloced ops r w = Ok (tt, w') → rl_step (Rl w ps) (Rl w' ps)
| rl_other w ps w' :
    map_relation (λ _, same_accounting) (λ _ _, False) (λ _ _, False) (rqs w) (rqs w') →
    rq_count (queue w') = rq_count (queue w) → elvpriv (queue w') = elvpriv (queue w) →
    conf (queue w') = conf (queue w) → congested (queue w') = congested (queue w) →
    (∀ s, blk_queue_full (queue w') s = blk_queue_full (queue w) s) →
    rl_step (Rl w ps) (Rl w' ps).

Lemma rl_step_inv s s' :
  rl_step s s' → rl_inv (rl_world s) (rl_pending s) → rl_inv (rl_world s') (rl_pending s').
Proof.
  destruct 1 as [w ps cur rw d cur' w' Hrw E|w ps1 ps2 f ioc priv cur mem gfp o cur' w' Hm E|
    w ps r w' E|w ps w' Ht E1 E2 E3 E4 E5]; cbn; intros H.
  - by eapply get_request_start_inv.
  - by eapply get_request_finish_inv.
  - by eapply put_alloced_inv.
  - constructor; unfold queue_congestion_off_threshold, queue_congestion_on_threshold;
      rewrite ?E1, ?E2, ?E3, ?E4; try apply H; intros *; rewrite ?E5.
    + rewrite (rl_count _ _ H). f_equal. symmetry. apply alloced_ext; [|done].
      intros rq rq' (_ & _ & ->). done.
    + rewrite (rl_elvpriv _ _ H). f_equal. symmetry. apply alloced_ext; [|done].
      intros rq rq' (_ & -> & _). done.
    + apply H.
Qed.

(** A queue from which nothing has been allocated yet. *)
Record rl_empty (w : world D) : Prop := {
  rl_empty_nr : 4 ≤ nr_requests (conf (queue w)) < 2 ^ 29;
  rl_empty_thresholds : queue_congestion_off_threshold (queue w) ≤
    queue_congestion_on_threshold (queue w) ≤ nr_requests (conf (queue w));
  rl_empty_count : rq_count (queue w) = (0, 0);
  rl_empty_elvpriv : elvpriv (queue w) = 0;
  rl_empty_rqs : map_Forall (λ _ rq, is_alloced rq = false) (rqs w);
  rl_empty_full : ∀ s, blk_queue_full (queue w) s = false;
  rl_empty_congested : congested (queue w) = (false, false)
}.

Lemma alloced_none P tbl : map_Forall (λ _ rq, is_alloced rq = false) tbl → alloced P tbl = 0.
Proof.
  induction tbl as [|r rq tbl Hr IH] using map_ind; intros Hf; [done|].
  apply map_Forall_insert in Hf as [Ha Hf]; [|done]. by rewrite alloced_insert, Ha, IH.
Qed.

Lemma rl_empty_inv w : rl_empty w → rl_inv w [].
Proof.
  intros [H1 H2 H3 H4 H5 H6 H7]. constructor; rewrite ?H3, ?H4, ?H7, ?pendings_nil, ?alloced_none by done; try done.
  - intros s. rewrite alloced_none, pendings_nil by done. by destruct s.
  - intros s. assert (0 ≤ 3 * nr_requests (conf (queue w)) / 2) by (apply Z.div_pos; lia). by destruct s.
  - intros s. by rewrite H6.
  - by intros [].
Qed.

(** C14: The request list stays consistent however allocations, releases and
    what leaves the request list alone interleave, [nr_requests] being fixed: in each direction the counter is the
    number of pool requests in use plus the allocations under way, [elvpriv]
    counts those with scheduler data, no direction exceeds one and a half times
    [nr_requests], a direction is marked full only while all its requests are
    taken, and congested only above the lower threshold. *)
Theorem request_list_accounting w0 s :
  rl_empty w0 → rtc rl_step (Rl w0 []) s → rl_inv (rl_world s) (rl_pending s).
Proof.
  intros H0%rl_empty_inv Hs. remember (Rl w0 []) as s0 eqn:E0.
  assert (rl_inv (rl_world s0) (rl_pending s0)) as Hi by (by rewrite E0).
  clear E0 H0 w0. induction Hs as [|s1 s2 s3 Hstep _ IH]; [done|]. by apply IH, (rl_step_inv s1).
Qed.
End accounting.

(** ** Progress *)
Lemma ioc_set_batching_kept now now' q q' c :
  0 ≤ nr_batching (conf q') < 2 ^ 31 → nr_batching (conf q') = nr_batching (conf q) →
  now' = now ∨ ioc_batching now q (Some c) = false →
  ioc_batching now' q' (ioc_set_batching now q (Some c)) = true.
Proof.
  intros Hn Enr Hnow. unfold ioc_set_batching. destruct (ioc_batching now q (Some c)) eqn:E.
  - destruct Hnow as [->|?]; [|done]. unfold ioc_batching in *. by rewrite Enr.
  - unfold ioc_batching. cbn. by rewrite Enr, s32_id, u32_id, Z.eqb_refl by lia.
Qed.

Section progress.
Context {D : Type} (ops : elevator_ops D).
Hypothesis no_may_queue : elevator_may_queue_fn ops = None.
Hypothesis no_set_req : elevator_set_req_fn ops = None.
Implicit Types (w : world D).

Lemma blk_alloc_request_ok p f priv gfp w :
  ∃ w', blk_alloc_request ops (Some p) f priv gfp w = Ok (Some (Rq p), w') ∧
    rqs w' = <[Rq p := fresh_rq (jiffies w) f priv]> (rqs w) ∧ queue w' = queue w ∧
    jiffies w' = jiffies w ∧ is_list (links w') (queuelist (Rq p)) [] ∧
    is_list (links w') (timeout_list (Rq p)) [].
Proof.
  unfold blk_alloc_request.
  set (w0 := set_rqs (<[Rq p := zero_rq]> (rqs w)) (set_links (mempool_node p (links w)) w)).
  rewrite (st_bind_ok _ _ _ (Some (Rq p)) w0) by done.
  destruct (mempool_node_mapped p (links w)) as [M1 M2].
  destruct (blk_rq_init_ok (Rq p) w0) as (h' & E & L1 & L2 & _);
    [cbn; rewrite lookup_insert_eq; eauto|done|done|].
  st_step E. unfold w0. wcbn. rewrite insert_insert_eq.
  erewrite st_bind_ok by (apply rq_upd_ok, lookup_insert_eq). wcbn. rewrite insert_insert_eq.
  destruct priv; [|eexists; split; [done|]; wcbn; done].
  unfold elv_set_request. rewrite no_set_req. erewrite (st_bind_ok (mret 0)) by reflexivity.
  cbn [Z.eqb negb]. erewrite st_bind_ok by (apply rq_upd_ok, lookup_insert_eq). wcbn.
  rewrite insert_insert_eq. eexists; split; [done|]; wcbn; done.
Qed.

(** A task that batches is let in as long as the hard limit is not reached. *)
Lemma batching_start cur rw_flags w ps :
  rl_inv w ps → ioc_batching (jiffies w) (queue w) cur = true →
  at_sync (rq_count (queue w)) (rw_is_sync rw_flags) < 3 * nr_requests (conf (queue w)) / 2 →
  ∃ f ioc priv cur' w', get_request_start ops cur rw_flags w = Ok ((Allocate f ioc priv, cur'), w') ∧
    rqs w' = rqs w ∧ jiffies w' = jiffies w ∧ rw_is_sync f = rw_is_sync rw_flags.
Proof.
  intros H Hb Hlt. unfold get_request_start, elv_may_queue. rewrite no_may_queue.
  erewrite st_bind_ok by reflexivity. change (ELV_MQUEUE_MAY =? ELV_MQUEUE_NO) with false. cbv iota.
  unfold q_get. do 2 (erewrite (st_bind_ok (gets _)) by reflexivity).
  destruct (rl_inv_counts w ps (rw_is_sync rw_flags) H) as [? ?]. pose proof (rl_nr _ _ H).
  destruct (get_request_full _ _ _ _ _) as [[[ioc cur1] q1]|] eqn:Ef.
  - apply get_request_full_spec in Ef as (E1 & _ & E3 & _); [|done].
    erewrite st_bind_ok by reflexivity. rewrite E1, E3, !u64_id by lia.
    destruct (Z.geb_spec (at_sync (rq_count (queue w)) (rw_is_sync rw_flags))
      (3 * nr_requests (conf (queue w)) / 2)); [lia|].
    erewrite st_bind_ok by reflexivity. do 5 eexists. split_and!; [reflexivity|done|done|].
    destruct (blk_queue_io_stat q1); [|done]. by apply rw_is_sync_or.
  - exfalso. unfold get_request_full in Ef. rewrite Hb, andb_false_r in Ef.
    by repeat case_match.
Qed.
End progress.

(** C36: Waiting for a request ends: a task that found the queue full and slept
    comes back as a batching task, and unless the hard limit of one and a half
    times [nr_requests] is reached or memory is short, its next attempt gives it
    a new request.  A task that was not batching may wait for the queue lock as
    long as it has to. *)
Theorem get_request_wait_returns {D} (ops : elevator_ops D) request_fn cur mem rw_flags s c p
    w cur1 w0 w1 w2 ps :
  elevator_may_queue_fn ops = None → elevator_set_req_fn ops = None →
  elevator_put_req_fn ops = None →
  rw_only rw_flags → get_request ops cur mem rw_flags GFP_NOIO w = Ok ((None, cur1), w0) →
  (__generic_unplug_device request_fn ;; meanwhile s) w0 = Ok (tt, w1) →
  slept_ioc s cur1 = Some c → locking s w1 = Ok (tt, w2) →
  jiffies w2 = jiffies w1 ∨ ioc_batching (jiffies w1) (queue w1) (Some c) = false →
  nr_batching (conf (queue w2)) = nr_batching (conf (queue w1)) →
  slept_mem s = Some p → rqs w2 !! Rq p = None →
  rl_inv w2 ps → 0 ≤ nr_batching (conf (queue w2)) < 2 ^ 31 →
  at_sync (rq_count (queue w2)) (rw_is_sync rw_flags) < 3 * nr_requests (conf (queue w2)) / 2 →
  ∃ cur' w', get_request_wait ops request_fn cur mem rw_flags [s] w = Ok ((Rq p, cur'), w') ∧
    rl_inv w' ps ∧ is_list (links w') (queuelist (Rq p)) [] ∧
    ∃ rq, rqs w' = <[Rq p := rq]> (rqs w2) ∧ ref_count rq = 1 ∧ bios rq = [] ∧
      rq_is_sync rq = rw_is_sync rw_flags.
Proof.
  intros Hm Hs Hp Hrw E0 E1 Ec E2 Hj Hnr Ep Hfresh Hinv Hb Hlt.
  pose proof (no_hooks_quiet ops Hm Hs Hp) as Hquiet.
  cbn [get_request_wait]. st_step E0. rewrite st_bind_assoc. st_step E1.
  unfold q_get. do 2 (erewrite (st_bind_ok (gets _)) by reflexivity). rewrite Ec.
  set (cur2 := ioc_set_batching _ _ _). cbv zeta. st_step E2. rewrite Ep.
  assert (ioc_batching (jiffies w2) (queue w2) cur2 = true) as Hbat
    by (apply ioc_set_batching_kept; congruence || done).
  destruct (batching_start ops Hm cur2 rw_flags w2 ps Hinv Hbat Hlt)
    as (f & ioc & priv & cur3 & w3 & Est & R2 & J2 & Ef).
  pose proof (get_request_start_inv ops _ _ _ _ _ _ _ Hrw Hinv Est) as Hinv2. cbn [decided] in Hinv2.
  unfold get_request. rewrite <-st_bind_assoc. st_step Est.
  destruct (blk_alloc_request_ok ops Hs p f priv GFP_NOIO w3) as (w4 & Eal & R3 & Q3 & J3 & L3 & _).
  assert (∃ cur4, get_request_finish ops cur3 (Some p) f ioc priv GFP_NOIO w3
                  = Ok ((Some (Rq p), cur4), w4)) as [cur4 Efin].
  { unfold get_request_finish. st_step Eal. unfold q_get.
    do 2 (erewrite (st_bind_ok (gets _)) by reflexivity). by eexists. }
  st_step Efin. exists cur4, w4. split_and!; [done| |done|].
  - apply (get_request_finish_inv ops cur3 (Some p) f ioc priv GFP_NOIO w3 (Some (Rq p)) cur4 w4 [] ps);
      [done|intros ? [= <-]; by rewrite R2|done].
  - pose proof (rl_flags _ _ Hinv2) as Hfl. apply Forall_cons in Hfl as [Hfl _]. cbn in Hfl.
    destruct (fresh_rq_flags (jiffies w3) f priv Hfl) as (_ & _ & F3).
    eexists. rewrite R3, R2. split_and!; [done|done|done|]. by rewrite F3, Ef.
Qed.

(** A scheduler without hooks, and an idle queue. *)
Definition no_ops : elevator_ops unit :=
  ElevatorOps None None None None None None None None None None None None None None None None None.
Definition idle_world : world unit := sample_world tt [] [] [].

Lemma idle_empty starving : rl_empty (set_queue (set_starved starving sample_queue) idle_world).
Proof.
  constructor; cbn.
  - lia.
  - vm_compute. split; discriminate.
  - done.
  - done.
  - apply map_Forall_empty.
  - by intros [].
  - done.
Qed.

(** One request is allocated while the allocation of another is under way. *)
Lemma request_list_accounting_witness :
  ∃ s, rtc (rl_step no_ops) (Rl (set_queue (set_starved (0, 0) sample_queue) idle_world) []) s ∧
    length (rl_pending s) = 1%nat ∧ at_sync (rq_count (queue (rl_world s))) true = 2 ∧
    rl_inv (rl_world s) (rl_pending s).
Proof.
  eassert (rtc (rl_step no_ops)
    (Rl (set_queue (set_starved (0, 0) sample_queue) idle_world) []) _) as Hs.
  { do 2 (lazymatch goal with |- rtc _ (Rl ?w ?ps) _ =>
      let x := eval vm_compute in (get_request_start no_ops None 0 w) in
      lazymatch x with Ok ((?d, ?c), ?w1) =>
        eapply rtc_l; [apply (rl_start no_ops w ps None 0 d c w1); reflexivity|] end end).
    cbn [decided]. lazymatch goal with |- rtc _ (Rl ?w ((?f, ?i, ?b) :: ?ps)) _ =>
      let x := eval vm_compute in (get_request_finish no_ops None (Some 5%positive) f i b 0 w) in
      lazymatch x with Ok ((?o, ?c), ?w1) =>
        eapply rtc_l; [apply (rl_finish no_ops w [] ps f i b None (Some 5%positive) 0 o c w1)|apply rtc_refl]
      end end.
    - intros p [= <-]. reflexivity.
    - reflexivity. }
  eexists. split; [exact Hs|]. split; [reflexivity|]. split; [reflexivity|].
  pose proof (no_hooks_quiet no_ops eq_refl eq_refl eq_refl).
  exact (request_list_accounting no_ops _ _ (idle_empty (0, 0)) Hs).
Defined.

Lemma get_request_wait_returns_witness :
  ∃ cur' w', get_request_wait no_ops (mret tt) None None 0
    [Sleep (mret tt) (λ _, Some (IoContext 0 0)) (mret tt) (Some 7%positive)] idle_world = Ok ((Rq 7, cur'), w') ∧
    is_list (links w') (queuelist (Rq 7)) [].
Proof.
  destruct (get_request_wait_returns no_ops (mret tt) None None 0
    (Sleep (mret tt) (λ _, Some (IoContext 0 0)) (mret tt) (Some 7%positive)) (IoContext 0 0) 7 idle_world None
    (set_queue (set_starved (0, 1) (set_wakeups (0, 1) sample_queue)) idle_world)
    (set_queue (set_starved (0, 1) (set_wakeups (0, 1) sample_queue)) idle_world)
    (set_queue (set_starved (0, 1) (set_wakeups (0, 1) sample_queue)) idle_world) [])
    as (cur' & w' & E & _ & L & _); try reflexivity.
  - by left.
  - apply rl_empty_inv. destruct (idle_empty (0, 0)). by constructor.
  - cbn. lia.
  - exists cur', w'. split; [exact E|exact L].
Defined.
