(* ===== verification/Softirq.v ===== *)
(** * Completion of requests through the block softirq ([block/blk-softirq.c])

    Requests completed by interrupt handlers are collected on a list of the CPU
    that is to finish them, and the softirq hands them to the driver's
    [softirq_done_fn].  The number of the current CPU, the CPUs that are online
    and [blk_cpu_to_group] are arguments.  Cross calls to other CPUs and raised
    softirqs are recorded in [irqs] and carried out by [run_irq]. *)

From S2P Require Import Prelude KList Request Samples Elevator.

Local Open Scope Z_scope.

#[global] Instance irq_work_eq_dec : EqDecision irq_work.
Proof. solve_decision. Defined.

Definition REQ_ATOM_COMPLETE : Z := 0.

Section softirq.
Context {D : Type} (online : nat → bool) (blk_cpu_to_group : nat → nat).
Context (softirq_done : rqid → ST (world D) unit).

(** [test_and_set_bit] and [clear_bit] on [atomic_flags]. *)
Definition blk_mark_rq_complete (r : rqid) : ST (world D) bool :=
  rq ← rq_get r;
  rq_upd r (λ rq, set_atomic_flags (Z.setbit (atomic_flags rq) REQ_ATOM_COMPLETE) rq);;
  mret (Z.testbit (atomic_flags rq) REQ_ATOM_COMPLETE).
Definition blk_clear_rq_complete (r : rqid) : ST (world D) unit :=
  rq_upd r (λ rq, set_atomic_flags (Z.clearbit (atomic_flags rq) REQ_ATOM_COMPLETE) rq).

(** Raising a softirq sets its bit in the pending mask of the CPU. *)
Definition raise_softirq (cpu : nat) : ST (world D) unit :=
  modify (λ w, if bool_decide (BLOCK_SOFTIRQ cpu ∈ irqs w) then w
               else set_irqs (irqs w ++ [BLOCK_SOFTIRQ cpu]) w).

(** Add to the list of this CPU, and raise the softirq for the first entry. *)
Definition complete_local (cpu : nat) (r : rqid) : ST (world D) unit :=
  on_links (list_add_tail (Ptr (csd_list r)) (Ptr (blk_cpu_done cpu)));;
  n ← on_links (get_next (Ptr (blk_cpu_done cpu)));
  when (bool_decide (n = Ptr (csd_list r))) (raise_softirq cpu).

Definition trigger_softirq (cpu : nat) (r : rqid) : ST (world D) unit := complete_local cpu r.

(** Whether the call could not be sent. *)
Definition raise_blk_irq (cpu : nat) (r : rqid) : ST (world D) bool :=
  if online cpu then modify (λ w, set_irqs (irqs w ++ [TRIGGER_SOFTIRQ cpu r]) w);; mret false
  else mret true.

Definition __blk_complete_request (this_cpu : nat) (r : rqid) : ST (world D) unit :=
  q ← q_get;
  bug_on (bool_decide (softirq_done_fn (conf q) = None));;
  rq ← rq_get r;
  let group_cpu := blk_cpu_to_group this_cpu in
  let ccpu := if test_bit QUEUE_FLAG_SAME_COMP (queue_flags q) && negb (cpu rq =? -1)
              then cpu rq else Z.of_nat this_cpu in
  if (ccpu =? Z.of_nat this_cpu) || (ccpu =? Z.of_nat group_cpu) then complete_local this_cpu r
  else
    failed ← raise_blk_irq (Z.to_nat ccpu) r;
    when failed (complete_local this_cpu r).

(** Without [CONFIG_FAIL_IO_TIMEOUT]. *)
Definition blk_complete_request (this_cpu : nat) (r : rqid) : ST (world D) unit :=
  done ← blk_mark_rq_complete r;
  when (negb done) (__blk_complete_request this_cpu r).

Definition list_entry_csd (p : ptr laddr) : res rqid :=
  match p with Ptr (csd_list r) => Ok r | _ => Err OOPS end.

(** [while (!list_empty(&local_list))] *)
Fixpoint done_loop (fuel : nat) : ST (world D) unit :=
  match fuel with
  | O => raise HANG
  | S fuel =>
    e ← on_links (list_empty (Ptr local_list));
    if (e : bool) then mret tt else
    n ← on_links (get_next (Ptr local_list));
    r ← lift (list_entry_csd n);
    on_links (list_del_init (Ptr (csd_list r)));;
    softirq_done r;;
    done_loop fuel
  end.

Definition blk_done_softirq (cpu : nat) : ST (world D) unit :=
  on_links (list_replace_init (Ptr (blk_cpu_done cpu)) (Ptr local_list));;
  w ← get;
  done_loop (S (size (links w))).

(** [CPU_DEAD]: the current CPU takes over the requests of a dead one. *)
Definition blk_cpu_notify (this_cpu dead : nat) : ST (world D) unit :=
  on_links (list_splice_init (Ptr (blk_cpu_done dead)) (Ptr (blk_cpu_done this_cpu)));;
  raise_softirq this_cpu.

(** Carry out the first work item signalled. *)
Definition run_irq : ST (world D) unit :=
  l ← gets irqs;
  match l with
  | [] => mret tt
  | i :: l =>
    modify (set_irqs l);;
    match i with
    | BLOCK_SOFTIRQ cpu => blk_done_softirq cpu
    | TRIGGER_SOFTIRQ cpu r => trigger_softirq cpu r
    end
  end.
End softirq.

(** ** What the lists of the CPUs hold *)

(** The requests for which a cross call is on its way. *)
Definition triggered (l : list irq_work) : list rqid :=
  omap (λ i, match i with TRIGGER_SOFTIRQ _ r => Some r | BLOCK_SOFTIRQ _ => None end) l.

(** [qs] are the requests on the lists of the CPUs, [xs] those already taken off
    for delivery.  Every request is in one place, and a CPU with requests has
    the softirq raised. *)
Record soft_ok {D} (w : world D) (qs : list (list rqid)) (xs : list rqid) : Prop := {
  so_list : ∀ c l, qs !! c = Some l → is_list (links w) (blk_cpu_done c) (csd_list <$> l);
  so_mapped : ∀ r, is_Some (rqs w !! r) → mapped (links w) (csd_list r);
  so_local : mapped (links w) local_list;
  so_raised : ∀ c l, qs !! c = Some l → l ≠ [] → BLOCK_SOFTIRQ c ∈ irqs w;
  so_once : NoDup (concat qs ++ xs ++ triggered (irqs w));
  so_live : ∀ r, r ∈ concat qs ++ xs ++ triggered (irqs w) → is_Some (rqs w !! r);
  so_cpus : ∀ i, i ∈ irqs w →
    match i with BLOCK_SOFTIRQ c => (c < length qs)%nat | TRIGGER_SOFTIRQ c _ => (c < length qs)%nat end;
  so_driver : softirq_done_fn (conf (queue w)) ≠ None
}.

Lemma concat_insert (qs : list (list rqid)) c l l' :
  qs !! c = Some l → concat (<[c := l']> qs) ++ l ≡ₚ concat qs ++ l'.
Proof.
  intros Hc. pose proof (lookup_lt_Some _ _ _ Hc).
  rewrite insert_take_drop by done. rewrite <-(take_drop_middle qs c l Hc) at 3.
  rewrite !concat_app. cbn [concat]. solve_Permutation.
Qed.

Lemma concat_elem (qs : list (list rqid)) c l r : qs !! c = Some l → r ∈ l → r ∈ concat qs.
Proof.
  intros Hc Hr. apply list_elem_of_In, in_concat. exists l.
  split; apply list_elem_of_In; [by eapply list_elem_of_lookup_2|done].
Qed.

Lemma csd_elem a (l : list rqid) : a ∈ csd_list <$> l → ∃ r, a = csd_list r ∧ r ∈ l.
Proof. intros (y & -> & ?)%list_elem_of_fmap. eauto. Qed.
Lemma csd_notin r (l : list rqid) : r ∉ l → csd_list r ∉ csd_list <$> l.
Proof. by intros Hr (y & [= <-] & ?)%list_elem_of_fmap. Qed.

Lemma concat_disjoint (qs : list (list rqid)) c1 c2 l1 l2 r :
  NoDup (concat qs) → qs !! c1 = Some l1 → qs !! c2 = Some l2 → c1 ≠ c2 → r ∈ l1 → r ∉ l2.
Proof.
  intros Hnd H1 H2 Hne Hr1 Hr2.
  pose proof (concat_insert qs c1 l1 [] H1) as Hp. rewrite app_nil_r in Hp. rewrite <-Hp in Hnd.
  apply NoDup_app in Hnd as (_ & Hd & _). apply (Hd r); [|done].
  apply (concat_elem _ c2 l2); [|done]. by rewrite list_lookup_insert_ne.
Qed.

(** An operation on the list of one CPU leaves the others alone. *)
Lemma cpu_lists_frame (h h' : gmap laddr (list_head laddr)) qs c l l' ns :
  (∀ c l, qs !! c = Some l → is_list h (blk_cpu_done c) (csd_list <$> l)) →
  NoDup (concat qs) → qs !! c = Some l →
  is_list h' (blk_cpu_done c) (csd_list <$> l') → frame h h' ns →
  (∀ a, a ∈ ns → a = blk_cpu_done c ∨ a = local_list ∨
     ∃ r, a = csd_list r ∧ (r ∈ l ∨ r ∉ concat qs)) →
  ∀ d k, <[c := l']> qs !! d = Some k → is_list h' (blk_cpu_done d) (csd_list <$> k).
Proof.
  intros Hl Hnd Hc Hl' Hf Hns d k. rewrite list_lookup_insert. case_decide as Hd.
  { destruct Hd as [-> _]. by intros [= <-]. }
  intros Hk. assert (c ≠ d) as Hcd.
  { intros ->. apply Hd. split; [done|]. by eapply lookup_lt_Some. }
  eapply frame_is_list; [exact Hf|by apply Hl|]. intros a Ha Hin. apply Hns in Hin.
  apply elem_of_cons in Ha as [->|(r & -> & Hr)%csd_elem];
    destruct Hin as [E|[E|(r' & E & Hr')]]; simplify_eq.
  destruct Hr' as [Hr'|Hr'].
  - by apply (concat_disjoint qs d c k l r').
  - apply Hr'. by apply (concat_elem _ d k).
Qed.

Section delivery.
Context {D : Type} (online : nat → bool) (group : nat → nat).
Context (softirq_done : rqid → ST (world D) unit).
Implicit Types (w : world D) (qs : list (list rqid)) (xs : list rqid).

Lemma triggered_app l1 l2 : triggered (l1 ++ l2) = triggered l1 ++ triggered l2.
Proof. apply omap_app. Qed.

Lemma raise_softirq_ok c w :
  ∃ iw, raise_softirq c w = Ok (tt, set_irqs iw w) ∧ BLOCK_SOFTIRQ c ∈ iw ∧
    triggered iw = triggered (irqs w) ∧
    (∀ i, i ∈ iw ↔ i ∈ irqs w ∨ i = BLOCK_SOFTIRQ c).
Proof.
  unfold raise_softirq, modify. case_bool_decide as Hin.
  - exists (irqs w). split_and!; [by destruct w|done|done|]. naive_solver.
  - eexists. split; [reflexivity|]. rewrite triggered_app, app_nil_r.
    split_and!; [|done|]; [|intros i]; rewrite elem_of_app, list_elem_of_singleton; naive_solver.
Qed.

(** The nodes of the lists of the CPUs; only those change. *)
Definition soft_addr (a : laddr) : Prop :=
  match a with blk_cpu_done _ | csd_list _ | local_list => True | _ => False end.
Definition soft_frame (h h' : gmap laddr (list_head laddr)) : Prop :=
  ∃ ns, frame h h' ns ∧ ∀ a, a ∈ ns → soft_addr a.

Lemma complete_local_ok c r w qs xs l :
  soft_ok w qs xs → qs !! c = Some l → r ∉ concat qs ++ xs ++ triggered (irqs w) →
  is_Some (rqs w !! r) →
  ∃ h iw, complete_local c r w = Ok (tt, set_irqs iw (set_links h w)) ∧
    triggered iw = triggered (irqs w) ∧
    soft_ok (set_irqs iw (set_links h w)) (<[c := l ++ [r]]> qs) xs ∧ soft_frame (links w) h.
Proof.
  intros Hs Hc Hr Hlive. pose proof (so_list _ _ _ Hs c l Hc) as Hl.
  assert (r ∉ l) as Hrl.
  { intros Hin. apply Hr, elem_of_app. left. by eapply concat_elem. }
  destruct (list_add_tail_spec (links w) (blk_cpu_done c) (csd_list <$> l) [] (csd_list r))
    as (h & Ea & Hl' & Hf);
    [by rewrite app_nil_r| |by apply (so_mapped _ _ _ Hs)|].
  { rewrite app_nil_r, not_elem_of_cons. split; [done|by apply csd_notin]. }
  rewrite app_nil_r in Hf. change [csd_list r] with (csd_list <$> [r]) in Hl'.
  rewrite <-fmap_app in Hl'.
  unfold complete_local. rewrite (st_bind_ok _ _ _ _ _ (on_links_ok _ _ _ _ Ea)).
  erewrite st_bind_ok by (apply (on_links_read _ (set_links h w)), get_next_ok;
    apply (seg_head _ _ _ _ (proj2 Hl'))).
  assert (∃ iw, when (bool_decide (Ptr (List.hd (blk_cpu_done c) (csd_list <$> l ++ [r]))
      = Ptr (csd_list r))) (raise_softirq c) (set_links h w) = Ok (tt, set_irqs iw (set_links h w)) ∧
    BLOCK_SOFTIRQ c ∈ iw ∧ triggered iw = triggered (irqs w) ∧
    (∀ i, i ∈ iw ↔ i ∈ irqs w ∨ i = BLOCK_SOFTIRQ c)) as (iw & Er & Hin & Ht & Hi).
  { unfold when. case_bool_decide as Hb; [exact (raise_softirq_ok c (set_links h w))|].
    assert (BLOCK_SOFTIRQ c ∈ irqs w).
    { apply (so_raised _ _ _ Hs c l Hc). intros ->. by apply Hb. }
    exists (irqs w). split_and!; [by destruct w|done|done|]. naive_solver. }
  exists h, iw. split_and!; [exact Er|done| |].
  2: { eexists. split; [exact Hf|].
    by intros a [->|[->|(p & -> & _)%csd_elem]%elem_of_cons]%elem_of_cons. }
  pose proof (concat_insert qs c l (l ++ [r]) Hc) as Hperm.
  assert (concat (<[c := l ++ [r]]> qs) ≡ₚ r :: concat qs) as Hperm'.
  { apply (Permutation_app_inv_r l). rewrite Hperm. solve_Permutation. }
  pose proof (so_once _ _ _ Hs) as Honce.
  constructor; wcbn.
  - eapply (cpu_lists_frame (links w) h qs c l (l ++ [r])); [apply Hs| |done|done|exact Hf|].
    { by apply NoDup_app in Honce as (? & _). }
    intros a [->|[->|(p & -> & Hp)%csd_elem]%elem_of_cons]%elem_of_cons; [|auto|eauto 10].
    right. right. exists r. split; [done|]. right. intros ?. apply Hr, elem_of_app. auto.
  - intros p Hp. eapply frame_mapped; [exact Hf|by apply (so_mapped _ _ _ Hs)].
  - eapply frame_mapped; [exact Hf|apply Hs].
  - intros d k Hd Hk. apply Hi. rewrite list_lookup_insert in Hd. case_decide as E.
    + destruct E as [-> _]. auto.
    + left. by apply (so_raised _ _ _ Hs d k).
  - rewrite Ht, Hperm'. cbn. apply NoDup_cons. split; [|done]. by rewrite app_assoc in *.
  - intros p. rewrite Ht, Hperm'. intros [->|Hp]%elem_of_cons; [done|by apply (so_live _ _ _ Hs)].
  - intros i [Hin'| ->]%Hi; rewrite length_insert; [by apply (so_cpus _ _ _ Hs)|].
    by eapply lookup_lt_Some.
  - apply Hs.
Qed.

Lemma soft_ok_frame w qs xs h ns :
  soft_ok w qs xs → frame (links w) h ns →
  (∀ a, a ∈ ns → a = local_list ∨ ∃ r, a = csd_list r ∧ r ∉ concat qs) →
  soft_ok (set_links h w) qs xs.
Proof.
  intros Hs Hf Hns. constructor; wcbn; try apply Hs.
  - intros c l Hc. eapply frame_is_list; [exact Hf|by apply Hs|]. intros a Ha Hin.
    apply Hns in Hin. apply elem_of_cons in Ha as [->|(r & -> & Hr)%csd_elem];
      destruct Hin as [E|(r' & E & Hr')]; simplify_eq.
    apply Hr'. by eapply concat_elem.
  - intros r Hr. eapply frame_mapped; [exact Hf|by apply (so_mapped _ _ _ Hs)].
  - eapply frame_mapped; [exact Hf|apply Hs].
Qed.

(** What happens to other lists does not matter. *)
Lemma soft_ok_elsewhere w qs xs h ns :
  soft_ok w qs xs → frame (links w) h ns → (∀ a, a ∈ ns → ¬ soft_addr a) →
  soft_ok (set_links h w) qs xs.
Proof.
  intros Hs Hf Hns. constructor; wcbn; try apply Hs.
  - intros c l Hc. eapply frame_is_list; [exact Hf|by apply Hs|]. intros a Ha Hin.
    apply (Hns a Hin). by apply elem_of_cons in Ha as [->|(r & -> & _)%csd_elem].
  - intros r Hr. eapply frame_mapped; [exact Hf|by apply (so_mapped _ _ _ Hs)].
  - eapply frame_mapped; [exact Hf|apply Hs].
Qed.

Lemma soft_ok_drop w qs r xs : soft_ok w qs (r :: xs) → soft_ok w qs xs.
Proof.
  intros Hs. pose proof (so_once _ _ _ Hs) as Ho.
  constructor; try apply Hs.
  - rewrite <-app_comm_cons, <-Permutation_middle in Ho. by apply NoDup_cons in Ho as [_ ?].
  - intros p Hp. apply (so_live _ _ _ Hs). rewrite <-app_comm_cons, <-Permutation_middle. by right.
Qed.

(** The driver's function runs on its own data and notes what it is given. *)
Context (log : D → list rqid).
Hypothesis softirq_done_spec : ∀ r w, ∃ d,
  softirq_done r w = Ok (tt, set_elevator_data d w) ∧ log d = log (elevator_data w) ++ [r].

Lemma done_loop_ok fuel w qs xs :
  soft_ok w qs xs → is_list (links w) local_list (csd_list <$> xs) → (length xs < fuel)%nat →
  ∃ h d, done_loop softirq_done fuel w = Ok (tt, set_links h (set_elevator_data d w)) ∧
    soft_ok (set_links h (set_elevator_data d w)) qs [] ∧ log d = log (elevator_data w) ++ xs.
Proof.
  revert w xs. induction fuel as [|fuel IH]; intros w xs Hs Hl Hf; [lia|]. cbn [done_loop].
  erewrite st_bind_ok by (apply on_links_read; apply (list_empty_spec _ _ _ Hl)).
  destruct xs as [|r xs]; cbn [fmap list_fmap].
  { rewrite bool_decide_true by done. exists (links w), (elevator_data w). rewrite app_nil_r.
    by destruct w. }
  rewrite bool_decide_false by done.
  erewrite st_bind_ok by (apply on_links_read, get_next_ok; apply (seg_head _ _ _ _ (proj2 Hl))).
  cbn [fmap list_fmap List.hd]. erewrite st_bind_ok by reflexivity.
  rewrite fmap_cons in Hl.
  destruct (list_del_init_spec (links w) local_list [] (csd_list r) _ Hl)
    as (h1 & E1 & [L1 _] & F1). cbn [app] in L1, F1.
  rewrite (st_bind_ok _ _ _ _ _ (on_links_ok _ _ _ _ E1)).
  destruct (softirq_done_spec r (set_links h1 w)) as (d1 & E2 & Elog). st_step E2.
  assert (soft_ok (set_elevator_data d1 (set_links h1 w)) qs xs) as Hs1.
  { cut (soft_ok (set_links h1 w) qs xs); [by intros []; constructor|].
    apply (soft_ok_drop _ _ r), (soft_ok_frame _ _ _ h1 _ Hs F1).
    pose proof (so_once _ _ _ Hs) as Ho. apply NoDup_app in Ho as (_ & Hd & _).
    intros a [->|Ha]%elem_of_cons; [by left|]. right.
    rewrite <-fmap_cons in Ha.
    apply csd_elem in Ha as (p & -> & Hp). exists p. split; [done|].
    intros Hin. apply (Hd p Hin). apply elem_of_app. by left. }
  simpl in Hf. destruct (IH _ xs Hs1 L1 ltac:(lia)) as (h2 & d2 & E3 & Hs2 & Elog2).
  exists h2, d2. split_and!; [exact E3|exact Hs2|]. cbn in Elog2. rewrite Elog2, Elog. cbn.
  by rewrite <-app_assoc.
Qed.

(** The softirq of CPU [c] delivers all that is on its list, in order. *)
Lemma blk_done_softirq_ok c l iw w qs :
  soft_ok w qs [] → irqs w = BLOCK_SOFTIRQ c :: iw → qs !! c = Some l →
  ∃ h d, blk_done_softirq softirq_done c (set_irqs iw w) =
      Ok (tt, set_links h (set_elevator_data d (set_irqs iw w))) ∧
    soft_ok (set_links h (set_elevator_data d (set_irqs iw w))) (<[c := []]> qs) [] ∧
    log d = log (elevator_data w) ++ l.
Proof.
  intros Hs Hi Hc. pose proof (so_list _ _ _ Hs c l Hc) as Hl.
  destruct (list_replace_init_spec (links w) (blk_cpu_done c) (csd_list <$> l : list laddr) local_list)
    as (h1 & E1 & [L1 L2] & F1); [done|by intros [?|(?&?&?)%csd_elem]%elem_of_cons|apply Hs|].
  unfold blk_done_softirq. rewrite (st_bind_ok _ _ _ _ _ (on_links_ok _ (set_irqs iw w) _ _ E1)).
  erewrite st_bind_ok by reflexivity.
  pose proof (concat_insert qs c l [] Hc) as Hperm. rewrite app_nil_r in Hperm.
  pose proof (so_once _ _ _ Hs) as Ho. cbn [app] in Ho. rewrite Hi in Ho. cbn in Ho.
  assert (soft_ok (set_links h1 (set_irqs iw w)) (<[c := []]> qs) l) as Hs1.
  { constructor; wcbn.
    - eapply (cpu_lists_frame (links w) h1 qs c l []); [apply Hs| |done|done|exact F1|].
      { by apply NoDup_app in Ho as (? & _). }
      intros a [->|[->|(p & -> & Hp)%csd_elem]%elem_of_cons]%elem_of_cons; [auto|auto|eauto 10].
    - intros r Hr. eapply frame_mapped; [exact F1|by apply (so_mapped _ _ _ Hs)].
    - eapply frame_mapped; [exact F1|apply Hs].
    - intros d k Hd Hk. rewrite list_lookup_insert in Hd. case_decide as E; [by simplify_eq|].
      pose proof (so_raised _ _ _ Hs d k Hd Hk) as Hin. rewrite Hi in Hin.
      apply elem_of_cons in Hin as [[= ->]|?]; [|done].
      exfalso. apply E. split; [done|]. by eapply lookup_lt_Some.
    - rewrite app_assoc, Hperm. exact Ho.
    - intros r Hr. apply (so_live _ _ _ Hs). rewrite Hi. cbn. by rewrite app_assoc, Hperm in Hr.
    - intros i Hin. rewrite length_insert. apply (so_cpus _ _ _ Hs). rewrite Hi. by right.
    - apply Hs. }
  destruct (done_loop_ok (S (size h1)) _ _ l Hs1 L1) as (h2 & d & E2 & Hs2 & El).
  { pose proof (is_list_length _ _ _ L1) as Hlen. rewrite length_fmap in Hlen. lia. }
  exists h2, d. split_and!; [exact E2|exact Hs2|exact El].
Qed.

(** ** Sequences of completions and interrupts *)
Inductive soft_event := Complete (cpu : nat) (r : rqid) | RunIrq.
Definition soft_step (e : soft_event) : ST (world D) unit :=
  match e with
  | Complete cpu r => blk_complete_request online group cpu r
  | RunIrq => run_irq softirq_done
  end.
Fixpoint soft_run (es : list soft_event) : ST (world D) unit :=
  match es with [] => mret tt | e :: es => soft_step e;; soft_run es end.

Definition completed w (r : rqid) : Prop :=
  ∃ rq, rqs w !! r = Some rq ∧ Z.testbit (atomic_flags rq) REQ_ATOM_COMPLETE = true.

(** Where the completed requests are: delivered, on a list, or on their way. *)
Definition accounted w qs : list rqid := log (elevator_data w) ++ concat qs ++ triggered (irqs w).

Record soft_inv (n : nat) (live : gset rqid) w qs : Prop := {
  si_ok : soft_ok w qs [];
  si_len : length qs = n;
  si_live : dom (rqs w) = live;
  si_once : NoDup (accounted w qs);
  si_all : ∀ r, r ∈ accounted w qs ↔ completed w r
}.

Lemma completed_mark r p w rq :
  rqs w !! r = Some rq →
  completed (set_rqs (<[r := set_atomic_flags (Z.setbit (atomic_flags rq) REQ_ATOM_COMPLETE) rq]>
    (rqs w)) w) p ↔ p = r ∨ completed w p.
Proof.
  intros Hr. unfold completed. wcbn. destruct (decide (p = r)) as [->|Hp].
  - rewrite lookup_insert_eq. split; [by left|]. intros _. eexists. split; [done|].
    by apply Z.setbit_eq.
  - rewrite lookup_insert_ne by done. naive_solver.
Qed.

Lemma soft_ok_rqs w qs xs tbl :
  soft_ok w qs xs → dom tbl = dom (rqs w) → soft_ok (set_rqs tbl w) qs xs.
Proof.
  intros Hs Hd. assert (∀ r, is_Some (tbl !! r) ↔ is_Some (rqs w !! r)) as E.
  { intros r. by rewrite <-!elem_of_dom, Hd. }
  destruct Hs. constructor; wcbn; try done; intros r Hr; [apply so_mapped0|]; apply E; auto.
Qed.

Lemma soft_ok_trigger w qs c r :
  soft_ok w qs [] → (c < length qs)%nat → r ∉ concat qs ++ triggered (irqs w) →
  is_Some (rqs w !! r) → soft_ok (set_irqs (irqs w ++ [TRIGGER_SOFTIRQ c r]) w) qs [].
Proof.
  intros Hs Hc Hr Hlive. pose proof (so_once _ _ _ Hs) as Ho. cbn [app] in Ho.
  constructor; wcbn; try apply Hs.
  - intros d l Hd Hl. apply elem_of_app. left. by apply (so_raised _ _ _ Hs d l).
  - rewrite triggered_app. cbn. rewrite app_assoc, <-Permutation_cons_append. by apply NoDup_cons.
  - intros p. rewrite triggered_app. cbn. rewrite app_assoc, <-Permutation_cons_append.
    intros [->|Hp]%elem_of_cons; [done|by apply (so_live _ _ _ Hs)].
  - intros i [Hi| ->%list_elem_of_singleton]%elem_of_app; [by apply (so_cpus _ _ _ Hs)|done].
Qed.

(** Completing a request that is not accounted for yet: it is afterwards. *)
Lemma complete_ok c r w qs :
  (∀ d, online d = true → (d < length qs)%nat) → soft_ok w qs [] → (c < length qs)%nat →
  r ∉ concat qs ++ triggered (irqs w) → is_Some (rqs w !! r) →
  ∃ h iw qs', __blk_complete_request online group c r w = Ok (tt, set_irqs iw (set_links h w)) ∧
    soft_ok (set_irqs iw (set_links h w)) qs' [] ∧ length qs' = length qs ∧
    concat qs' ++ triggered iw ≡ₚ r :: concat qs ++ triggered (irqs w) ∧ soft_frame (links w) h.
Proof.
  intros Hon Hs Hc Hr [rq Hrq].
  assert (∃ h iw qs', complete_local c r w = Ok (tt, set_irqs iw (set_links h w)) ∧
    soft_ok (set_irqs iw (set_links h w)) qs' [] ∧ length qs' = length qs ∧
    concat qs' ++ triggered iw ≡ₚ r :: concat qs ++ triggered (irqs w) ∧
    soft_frame (links w) h) as Hlocal.
  { destruct (lookup_lt_is_Some_2 qs c Hc) as [l Hl].
    destruct (complete_local_ok c r w qs [] l) as (h & iw & E & Ht & Hs' & Hf); eauto.
    exists h, iw, (<[c := l ++ [r]]> qs). split_and!; [done|done|by rewrite length_insert| |done].
    rewrite Ht. apply (Permutation_app_inv_r l). pose proof (concat_insert qs c l (l ++ [r]) Hl) as Hp.
    rewrite (Permutation_app_comm _ (triggered _)), <-app_assoc, Hp. solve_Permutation. }
  unfold __blk_complete_request. erewrite st_bind_ok by reflexivity.
  rewrite bool_decide_false by apply Hs. erewrite (st_bind_ok (bug_on false)) by reflexivity.
  st_step (rq_get_ok _ _ _ Hrq).
  set (ccpu := if _ && _ then _ else _). clearbody ccpu.
  destruct (_ || _); [done|]. unfold raise_blk_irq.
  destruct (online (Z.to_nat ccpu)) eqn:Eo.
  - erewrite st_bind_ok by reflexivity. cbn [when].
    exists (links w), (irqs w ++ [TRIGGER_SOFTIRQ (Z.to_nat ccpu) r]), qs.
    split; [by destruct w|]. split_and!; [|done| |].
    + cut (soft_ok (set_irqs (irqs w ++ [TRIGGER_SOFTIRQ (Z.to_nat ccpu) r]) w) qs []);
        [by destruct w|]. apply soft_ok_trigger; eauto.
    + rewrite triggered_app. cbn. solve_Permutation.
    + exists []. split; [apply frame_refl|]. by intros a ?%elem_of_nil.
  - erewrite st_bind_ok by reflexivity. cbn [when]. done.
Qed.

Lemma complete_inv n live c r w qs :
  (∀ d, online d = true → (d < n)%nat) → (c < n)%nat → r ∈ live → soft_inv n live w qs →
  ∃ w' qs', blk_complete_request online group c r w = Ok (tt, w') ∧ soft_inv n live w' qs'.
Proof.
  intros Hon Hc Hr [Hs Hlen Hlive Honce Hall]. subst n.
  rewrite <-Hlive in Hr. apply elem_of_dom in Hr as [rq Hrq].
  unfold blk_complete_request, blk_mark_rq_complete.
  rewrite <-st_bind_assoc. st_step (rq_get_ok _ _ _ Hrq).
  rewrite <-st_bind_assoc. st_step (rq_upd_ok _ _ _ _ Hrq). set (w1 := set_rqs _ w).
  erewrite st_bind_ok by reflexivity.
  assert (∀ p, completed w1 p ↔ p = r ∨ completed w p) as Hcomp by (intros; by apply completed_mark).
  assert (dom (rqs w1) = dom (rqs w)) as Hdom.
  { subst w1. wcbn. rewrite dom_insert_L. apply subseteq_union_1_L, singleton_subseteq_l, elem_of_dom. eauto. }
  assert (soft_ok w1 qs []) as Hs1 by by apply soft_ok_rqs.
  assert (irqs w1 = irqs w ∧ elevator_data w1 = elevator_data w) as [Ei Ed] by done.
  assert (Z.testbit (atomic_flags rq) REQ_ATOM_COMPLETE = true ↔ r ∈ accounted w qs) as Hflag.
  { rewrite Hall. unfold completed. split; [eauto|]. intros (? & ? & ?). by simplify_eq. }
  destruct (Z.testbit (atomic_flags rq) REQ_ATOM_COMPLETE); cbn [negb when].
  - exists w1, qs. split; [done|]. constructor; try done; [by rewrite Hdom|].
    intros p. rewrite Hcomp. change (accounted w1 qs) with (accounted w qs). rewrite Hall.
    split; [auto|]. intros [->|?]; [|done]. apply Hall. by apply Hflag.
  - assert (r ∉ accounted w qs) as Hna by (intros ?%Hflag; done).
    destruct (complete_ok c r w1 qs) as (h & iw & qs' & E & Hs2 & Hlen2 & Hperm & _); [done..| | |].
    { intros Hin. apply Hna. unfold accounted. rewrite Ei in Hin. apply elem_of_app. by right. }
    { apply elem_of_dom. rewrite Hdom. apply elem_of_dom. eauto. }
    rewrite E. exists (set_irqs iw (set_links h w1)), qs'. split; [done|].
    assert (accounted (set_irqs iw (set_links h w1)) qs' ≡ₚ r :: accounted w qs) as Hacc.
    { unfold accounted. wcbn. rewrite Hperm. solve_Permutation. }
    constructor; [done|done|by wcbn; rewrite Hdom| |].
    + rewrite Hacc. by apply NoDup_cons.
    + intros p. rewrite Hacc, elem_of_cons, Hall. symmetry. apply Hcomp.
Qed.

Lemma run_irq_inv n live w qs :
  soft_inv n live w qs →
  ∃ w' qs', run_irq softirq_done w = Ok (tt, w') ∧ soft_inv n live w' qs'.
Proof.
  intros [Hs Hlen Hlive Honce Hall]. subst n. unfold run_irq.
  erewrite st_bind_ok by reflexivity. destruct (irqs w) as [|i iw] eqn:Ei; [by exists w, qs|].
  erewrite (st_bind_ok (modify _)) by reflexivity.
  pose proof (so_cpus _ _ _ Hs i ltac:(rewrite Ei; by left)) as Hcpu.
  destruct i as [c|c r]; destruct (lookup_lt_is_Some_2 qs c Hcpu) as [l Hl].
  - destruct (blk_done_softirq_ok c l iw w qs Hs Ei Hl) as (h & d & E & Hs' & Elog).
    rewrite E. eexists _, _. split; [done|].
    assert (accounted (set_links h (set_elevator_data d (set_irqs iw w))) (<[c := []]> qs)
            ≡ₚ accounted w qs) as Hacc.
    { unfold accounted. wcbn. rewrite Elog, Ei. cbn.
      pose proof (concat_insert qs c l [] Hl) as Hp. rewrite app_nil_r in Hp. rewrite <-Hp.
      solve_Permutation. }
    constructor; [done|by rewrite length_insert|done|by rewrite Hacc|].
    intros p. rewrite Hacc, Hall. done.
  - pose proof (so_once _ _ _ Hs) as Ho. rewrite Ei in Ho. cbn in Ho.
    rewrite <-Permutation_middle in Ho. apply NoDup_cons in Ho as [Hr Ho].
    assert (soft_ok (set_irqs iw w) qs []) as Hs1.
    { constructor; wcbn; try apply Hs; try done.
      - intros d k Hd Hk. pose proof (so_raised _ _ _ Hs d k Hd Hk) as Hin. rewrite Ei in Hin.
        by apply elem_of_cons in Hin as [?|?].
      - intros p Hp. apply (so_live _ _ _ Hs). rewrite Ei. cbn. rewrite <-Permutation_middle. by right.
      - intros j Hj. apply (so_cpus _ _ _ Hs). rewrite Ei. by right. }
    assert (is_Some (rqs w !! r)) as Hrq.
    { apply (so_live _ _ _ Hs). rewrite Ei. cbn. rewrite <-Permutation_middle. by left. }
    destruct (complete_local_ok c r (set_irqs iw w) qs [] l Hs1 Hl Hr Hrq) as (h & iw' & E & Ht & Hs2 & _).
    unfold trigger_softirq. rewrite E. eexists _, _. split; [done|].
    assert (accounted (set_irqs iw' (set_links h (set_irqs iw w))) (<[c := l ++ [r]]> qs)
            ≡ₚ accounted w qs) as Hacc.
    { unfold accounted. wcbn. wcbn in Ht. rewrite Ht, Ei. cbn. apply (Permutation_app_inv_r l).
      pose proof (concat_insert qs c l (l ++ [r]) Hl) as Hp.
      transitivity (log (elevator_data w) ++ triggered iw ++ concat (<[c := l ++ [r]]> qs) ++ l);
        [solve_Permutation|]. rewrite Hp. solve_Permutation. }
    constructor; [done|by rewrite length_insert|done|by rewrite Hacc|].
    intros p. rewrite Hacc, Hall. done.
Qed.

Lemma soft_run_inv n live es w qs :
  (∀ d, online d = true → (d < n)%nat) →
  Forall (λ e, match e with Complete c r => (c < n)%nat ∧ r ∈ live | RunIrq => True end) es →
  soft_inv n live w qs → ∃ w' qs', soft_run es w = Ok (tt, w') ∧ soft_inv n live w' qs'.
Proof.
  intros Hon Hes. revert w qs. induction Hes as [|e es He _ IH]; intros w qs Hi; [by exists w, qs|].
  assert (∃ w1 qs1, soft_step e w = Ok (tt, w1) ∧ soft_inv n live w1 qs1) as (w1 & qs1 & E & Hi1).
  { destruct e as [c r|]; [destruct He; by apply complete_inv with (qs := qs)|by apply run_irq_inv with (qs := qs)]. }
  cbn [soft_run]. st_step E. by apply (IH w1 qs1).
Qed.

(** Without work signalled, all lists are empty. *)
Lemma soft_idle w qs : soft_ok w qs [] → irqs w = [] → concat qs ++ triggered (irqs w) = [].
Proof.
  intros Hs Hi. rewrite Hi, app_nil_r. destruct (concat qs) as [|r l] eqn:E; [done|].
  assert (r ∈ concat qs) as Hr by (rewrite E; by left).
  apply list_elem_of_In, in_concat in Hr as (k & Hk & Hr).
  apply list_elem_of_In, list_elem_of_lookup in Hk as [c Hc].
  pose proof (so_raised _ _ _ Hs c k Hc) as Hraised. rewrite Hi in Hraised.
  exfalso. destruct k; [done|]. by apply elem_of_nil in Hraised.
Qed.
End delivery.

(** C35: Whatever completions, softirqs and cross calls happen in whatever order on
    whatever CPUs, no step faults and no completed request is lost or delivered
    twice: each is delivered to the driver, waits on the list of exactly one
    CPU, or has a cross call on its way; when no work is left the delivered
    requests are exactly the completed ones. *)
Theorem softirq_exactly_once {D} (online : nat → bool) (group : nat → nat)
    (softirq_done : rqid → ST (world D) unit) (log : D → list rqid) n es w :
  (∀ r w, ∃ d, softirq_done r w = Ok (tt, set_elevator_data d w) ∧
     log d = log (elevator_data w) ++ [r]) →
  (∀ d, online d = true → (d < n)%nat) →
  Forall (λ e, match e with Complete c r => (c < n)%nat ∧ r ∈ dom (rqs w) | RunIrq => True end) es →
  soft_ok w (replicate n []) [] → irqs w = [] → log (elevator_data w) = [] →
  (∀ r, ¬ completed w r) →
  ∃ w' qs, soft_run online group softirq_done es w = Ok (tt, w') ∧ soft_ok w' qs [] ∧
    NoDup (accounted log w' qs) ∧ (∀ r, r ∈ accounted log w' qs ↔ completed w' r) ∧
    (irqs w' = [] → ∀ r, r ∈ log (elevator_data w') ↔ completed w' r).
Proof.
  intros Hdone Hon Hes Hs Hi Hlog Hnone.
  assert (concat (replicate n ([] : list rqid)) = []) as Enil by (clear; by induction n).
  destruct (soft_run_inv online group softirq_done log Hdone n (dom (rqs w)) es w (replicate n []))
    as (w' & qs & E & [Hs' _ _ Honce Hall]); [done..| |].
  { constructor; [done|apply length_replicate|done|..]; unfold accounted; rewrite Hlog, Enil, Hi; cbn.
    - apply NoDup_nil_2.
    - intros r. rewrite elem_of_nil. split; [done|apply Hnone]. }
  exists w', qs. split_and!; [done..|]. intros Hidle r. rewrite <-Hall. unfold accounted.
  by rewrite (soft_idle w' qs Hs' Hidle), app_nil_r.
Qed.

(** Two CPUs; two requests, one of them to be finished on the CPU that submitted
    it.  The driver records what it is given. *)
Definition log_done (r : rqid) : ST (world (list rqid)) unit := data_upd (λ l, l ++ [r]).
Definition self_linked (a : laddr) : laddr * list_head laddr := (a, ListHead (Ptr a) (Ptr a)).
Definition soft_world : world (list rqid) :=
  {| rqs := {[ Rq 1 := sample_rq 0 0 8; Rq 2 := sample_rq 0 8 8 ]};
     links := list_to_map (self_linked <$>
       [blk_cpu_done 0; blk_cpu_done 1; local_list; csd_list (Rq 1); csd_list (Rq 2)]);
     hash := []; queue := flag_set QUEUE_FLAG_SAME_COMP
       (set_conf (set_softirq_done_fn (Some 1%positive) sample_conf) sample_queue);
     elevator_data := []; jiffies := 0; kblockd := 0; ended := []; irqs := [] |}.

Lemma softirq_exactly_once_witness :
  ∃ w' qs, soft_run (λ c, (c <? 2)%nat) id log_done
      [Complete 1 (Rq 1); Complete 0 (Rq 2); Complete 1 (Rq 2); RunIrq; RunIrq; RunIrq] soft_world = Ok (tt, w') ∧
    soft_ok w' qs [] ∧ NoDup (accounted id w' qs) ∧
    (irqs w' = [] → ∀ r, r ∈ elevator_data w' ↔ completed w' r).
Proof.
  destruct (softirq_exactly_once (λ c, (c <? 2)%nat) id log_done id 2
    [Complete 1 (Rq 1); Complete 0 (Rq 2); Complete 1 (Rq 2); RunIrq; RunIrq; RunIrq] soft_world)
    as (w' & qs & E & Hs & Hn & _ & Hd).
  - intros r w. exists (elevator_data w ++ [r]). split; reflexivity.
  - intros d. apply Nat.ltb_lt.
  - assert (Rq 1 ∈ dom (rqs soft_world)) by (apply elem_of_dom; eexists; reflexivity).
    assert (Rq 2 ∈ dom (rqs soft_world)) by (apply elem_of_dom; eexists; reflexivity).
    repeat constructor; assumption || lia.
  - constructor.
    + intros [|[|c]] l; cbn; [intros [= <-]|intros [= <-]|done]; (split; [apply NoDup_singleton|split; reflexivity]).
    + intros r Hr. assert (r = Rq 1 ∨ r = Rq 2) as [-> | ->].
      { apply elem_of_dom in Hr. unfold soft_world in Hr. wcbn in Hr. set_solver. }
      all: eexists; reflexivity.
    + eexists; reflexivity.
    + intros [|[|c]] l; cbn; [intros [= <-]|intros [= <-]|done]; done.
    + apply NoDup_nil_2.
    + intros r. cbn. by rewrite elem_of_nil.
    + intros i. cbn. by rewrite elem_of_nil.
    + discriminate.
  - reflexivity.
  - reflexivity.
  - intros r (rq & Hr & Hf). unfold soft_world in Hr. wcbn in Hr.
    rewrite lookup_insert_Some, lookup_singleton_Some in Hr. naive_solver.
  - exists w', qs. split_and!; [exact E|exact Hs|exact Hn|exact Hd].
Defined.
