(* ===== verification/Timeout.v ===== *)
(** * Request timeouts ([block/blk-timeout.c])

    Every started request of a queue with an [rq_timed_out_fn] is on the timeout
    list until it completes; one timer per queue fires for the earliest
    deadline.  The driver's function is a parameter; [cpu] is the number of the
    CPU that rounds the expiry time ([kernel/timer.c]). *)

From S2P Require Import Prelude KList Request Samples Elevator Settings Softirq.

Local Open Scope Z_scope.

(** [round_jiffies_common] at time [now]. *)
Definition round_jiffies_common (now j cpu : Z) (force_up : bool) : Z :=
  let original := j in
  let j := u64 (j + cpu * 3) in
  let rem := j mod HZ in
  let j := if (rem <? HZ / 4) && negb force_up then u64 (j - rem) else u64 (j - rem + HZ) in
  let j := u64 (j - cpu * 3) in
  if j <=? now then original else j.
Definition round_jiffies_up (now j cpu : Z) : Z := round_jiffies_common now j cpu true.

(** [enum blk_eh_timer_return] *)
Inductive blk_eh_timer_return := BLK_EH_NOT_HANDLED | BLK_EH_HANDLED | BLK_EH_RESET_TIMER.
#[global] Instance blk_eh_timer_return_eq_dec : EqDecision blk_eh_timer_return.
Proof. solve_decision. Defined.

Section timeout.
Context {D : Type} (online : nat → bool) (group : nat → nat) (this_cpu : nat).
Context (rq_timed_out : rqid → ST (world D) blk_eh_timer_return).

Definition mod_timer (expires : Z) : ST (world D) unit := q_upd (set_timeout_timer (Some expires)).

Definition blk_delete_timer (r : rqid) : ST (world D) unit :=
  on_links (list_del_init (Ptr (timeout_list r))).

Definition blk_add_timer (r : rqid) : ST (world D) unit :=
  q ← q_get;
  if bool_decide (rq_timed_out_fn (conf q) = None) then mret tt else
  e ← on_links (list_empty (Ptr (timeout_list r)));
  bug_on (negb e);;
  rq ← rq_get r;
  bug_on (Z.testbit (atomic_flags rq) REQ_ATOM_COMPLETE);;
  when (timeout rq =? 0) (rq_upd r (set_timeout (rq_timeout (conf q))));;
  now ← gets jiffies;
  rq_upd r (λ rq, set_deadline (u64 (now + timeout rq)) rq);;
  on_links (list_add_tail (Ptr (timeout_list r)) (Ptr timeout_head));;
  rq ← rq_get r;
  let expiry := round_jiffies_up now (deadline rq) (Z.of_nat this_cpu) in
  match timeout_timer q with
  | None => mod_timer expiry
  | Some e => when (time_before expiry e) (mod_timer expiry)
  end.

Definition blk_rq_timed_out (r : rqid) : ST (world D) unit :=
  ret ← rq_timed_out r;
  match ret with
  | BLK_EH_HANDLED => __blk_complete_request online group this_cpu r
  | BLK_EH_RESET_TIMER => blk_clear_rq_complete r;; blk_add_timer r
  | BLK_EH_NOT_HANDLED => mret tt
  end.

(** The body of the loop of [blk_rq_timed_out_timer]; the accumulator is [next],
    once it is set. *)
Definition timed_out_step (p : ptr laddr) (next : option Z) : ST (world D) (option Z) :=
  r ← lift (list_entry_timeout p);
  rq ← rq_get r;
  now ← gets jiffies;
  if time_after_eq now (deadline rq) then
    on_links (list_del_init (Ptr (timeout_list r)));;
    raced ← blk_mark_rq_complete r;
    when (negb raced) (blk_rq_timed_out r);;
    mret next
  else
    match next with
    | None => mret (Some (deadline rq))
    | Some n => mret (if time_after n (deadline rq) then Some (deadline rq) else next)
    end.

Definition blk_rq_timed_out_timer : ST (world D) unit :=
  next ← list_for_each_safe (Ptr timeout_head) timed_out_step None;
  now ← gets jiffies;
  match next with
  | Some n => mod_timer (round_jiffies_up now n (Z.of_nat this_cpu))
  | None => mret tt
  end.

(** The timer fires: it is no longer pending when its function runs. *)
Definition timeout_fires : ST (world D) unit :=
  q_upd (set_timeout_timer None);;
  blk_rq_timed_out_timer.

Definition blk_abort_request (r : rqid) : ST (world D) unit :=
  raced ← blk_mark_rq_complete r;
  if (raced : bool) then mret tt else
  blk_delete_timer r;;
  blk_rq_timed_out r.
End timeout.

(** ** Rounding *)
Lemma round_jiffies_up_bounds now j cpu :
  0 ≤ now < 2 ^ 62 → 0 ≤ j < 2 ^ 62 → 0 ≤ cpu < 2 ^ 32 →
  j ≤ round_jiffies_up now j cpu ≤ j + HZ ∧ 0 ≤ round_jiffies_up now j cpu < 2 ^ 63.
Proof.
  intros Hn Hj Hc. unfold round_jiffies_up, round_jiffies_common. rewrite andb_false_r.
  change HZ with 250. rewrite (u64_id (j + cpu * 3)) by lia.
  pose proof (Z.mod_pos_bound (j + cpu * 3) 250 ltac:(lia)).
  set (m := (j + cpu * 3) mod 250) in *. clearbody m. cbv zeta.
  rewrite (u64_id (j + cpu * 3 - m + 250)), u64_id by lia.
  destruct (_ <=? now); lia.
Qed.

(** Comparisons of times that are not half the range apart. *)
Lemma time_after_ok a b : 0 ≤ a < 2 ^ 63 → 0 ≤ b < 2 ^ 63 → time_after a b = (b <? a).
Proof.
  intros. unfold time_after. rewrite (s64_id a), (s64_id b), s64_id by lia.
  destruct (Z.ltb_spec (b - a) 0), (Z.ltb_spec b a); lia || done.
Qed.
Lemma time_after_eq_ok a b : 0 ≤ a < 2 ^ 63 → 0 ≤ b < 2 ^ 63 → time_after_eq a b = (b <=? a).
Proof.
  intros. unfold time_after_eq. rewrite (s64_id a), (s64_id b), s64_id by lia.
  destruct (Z.geb_spec (a - b) 0), (Z.leb_spec b a); lia || done.
Qed.

(** ** What the timer does *)
Definition deadline_of (tbl : gmap rqid request) (r : rqid) : Z :=
  match tbl !! r with Some rq => deadline rq | None => 0 end.
Definition is_complete (tbl : gmap rqid request) (r : rqid) : bool :=
  match tbl !! r with Some rq => Z.testbit (atomic_flags rq) REQ_ATOM_COMPLETE | None => false end.
Definition mark (rq : request) : request :=
  set_atomic_flags (Z.setbit (atomic_flags rq) REQ_ATOM_COMPLETE) rq.

(** A request that is given its time, or the default of the queue, from [now] on. *)
Definition restarted (dflt now : Z) (rq : request) : request :=
  let t := if timeout rq =? 0 then dflt else timeout rq in
  set_deadline (now + t) (set_timeout t rq).

(** The requests whose time is up at [now], those it is not, and the timeouts
    the driver is to be told of. *)
Definition expired (tbl : gmap rqid request) (now : Z) : list rqid → list rqid :=
  filter (λ r, deadline_of tbl r ≤ now).
Definition unexpired (tbl : gmap rqid request) (now : Z) : list rqid → list rqid :=
  filter (λ r, ¬ deadline_of tbl r ≤ now).
Definition reported (tbl : gmap rqid request) (now : Z) (xs : list rqid) : list rqid :=
  filter (λ r, is_complete tbl r = false) (expired tbl now xs).

(** The earliest of some deadlines. *)
Definition earliest (next : option Z) (d : Z) : option Z :=
  match next with None => Some d | Some n => Some (if d <? n then d else n) end.
Definition next_of (ds : list Z) : option Z := foldl earliest None ds.

Lemma next_of_snoc ds d : next_of (ds ++ [d]) = earliest (next_of ds) d.
Proof. apply foldl_snoc. Qed.
Lemma next_of_spec ds :
  match next_of ds with None => ds = [] | Some n => n ∈ ds ∧ Forall (λ d, n ≤ d) ds end.
Proof.
  induction ds as [|d ds IH] using rev_ind; [done|]. rewrite next_of_snoc.
  destruct (next_of ds) as [n|]; cbn.
  - destruct IH as [Hin Hall]. destruct (Z.ltb_spec d n).
    + split; [apply elem_of_app; right; by left|]. apply Forall_app. split; [|by repeat constructor].
      eapply Forall_impl; [exact Hall|]. cbn. lia.
    + split; [apply elem_of_app; by left|]. apply Forall_app. split; [done|]. by repeat constructor.
  - subst ds. split; [by left|by repeat constructor].
Qed.

(** What the driver was told, with its answers: the requests it asks more time
    for, and those it wants completed. *)
Definition again (told : list (rqid * blk_eh_timer_return)) : list rqid :=
  (filter (λ a, a.2 = BLK_EH_RESET_TIMER) told).*1.
Definition handled (told : list (rqid * blk_eh_timer_return)) : list rqid :=
  (filter (λ a, a.2 = BLK_EH_HANDLED) told).*1.

(** What becomes of a request when the requests [gone] expire and those [ag] of
    them are started again. *)
Definition outcome (dflt now : Z) (gone ag : list rqid) (r : rqid) (rq : request) : request :=
  if decide (r ∈ ag) then restarted dflt now rq else if decide (r ∈ gone) then mark rq else rq.

(** The timer of the queue fires at the latest one second after time [d]. *)
Definition fires_by {D} (w : world D) (d : Z) : Prop :=
  ∃ e, timeout_timer (queue w) = Some e ∧ e ≤ d + HZ.

Lemma again_snoc told r a :
  again (told ++ [(r, a)]) = again told ++ (if decide (a = BLK_EH_RESET_TIMER) then [r] else []).
Proof. unfold again. rewrite filter_app, fmap_app, filter_cons, filter_nil. cbn. by case_decide. Qed.
Lemma handled_snoc told r a :
  handled (told ++ [(r, a)]) = handled told ++ (if decide (a = BLK_EH_HANDLED) then [r] else []).
Proof. unfold handled. rewrite filter_app, fmap_app, filter_cons, filter_nil. cbn. by case_decide. Qed.
Lemma again_told told r : r ∈ again told → r ∈ told.*1.
Proof. intros (a & -> & [_ ?]%list_elem_of_filter)%list_elem_of_fmap. by apply list_elem_of_fmap_2. Qed.
Lemma handled_told told r : r ∈ handled told → r ∈ told.*1.
Proof. intros (a & -> & [_ ?]%list_elem_of_filter)%list_elem_of_fmap. by apply list_elem_of_fmap_2. Qed.
Lemma reported_elem tbl now xs r :
  r ∈ reported tbl now xs ↔ is_complete tbl r = false ∧ deadline_of tbl r ≤ now ∧ r ∈ xs.
Proof. unfold reported, expired. by rewrite !list_elem_of_filter. Qed.

(** A bit that was clear, set and cleared again. *)
Lemma clear_mark rq :
  Z.testbit (atomic_flags rq) REQ_ATOM_COMPLETE = false →
  set_atomic_flags (Z.clearbit (atomic_flags (mark rq)) REQ_ATOM_COMPLETE) (mark rq) = rq.
Proof.
  intros Hb. destruct rq; cbn in *. unfold mark, set_atomic_flags; cbn. f_equal.
  apply Z.bits_inj. intros i. destruct (decide (i = REQ_ATOM_COMPLETE)) as [->|Hi].
  - by rewrite Z.clearbit_eq.
  - by rewrite Z.clearbit_neq, Z.setbit_neq by (done || congruence).
Qed.

Lemma timeout_elem a (l : list rqid) : a ∈ timeout_list <$> l → ∃ r, a = timeout_list r ∧ r ∈ l.
Proof. intros (y & -> & ?)%list_elem_of_fmap. eauto. Qed.

(** The requests on the timeout list exist, and no time is near wrap-around. *)
Record timeouts_ok {D} (w0 : world D) (xs : list rqid) : Prop := {
  to_list : is_list (links w0) timeout_head (timeout_list <$> xs);
  to_live : ∀ r, r ∈ xs → is_Some (rqs w0 !! r);
  to_now : 0 ≤ jiffies w0 < 2 ^ 62;
  to_time : ∀ r, r ∈ xs → 0 ≤ deadline_of (rqs w0) r < 2 ^ 62
}.

Lemma timeouts_nodup {D} (w0 : world D) xs : timeouts_ok w0 xs → NoDup xs.
Proof. intros [[Hnd _] _ _ _]. apply NoDup_cons in Hnd as [_ Hnd]. by apply NoDup_fmap_1 in Hnd. Qed.

Lemma blk_mark_rq_complete_ok {D} r (w : world D) rq :
  rqs w !! r = Some rq →
  blk_mark_rq_complete r w =
    Ok (Z.testbit (atomic_flags rq) REQ_ATOM_COMPLETE, set_rqs (<[r := mark rq]> (rqs w)) w).
Proof.
  intros Hr. unfold blk_mark_rq_complete. st_step (rq_get_ok _ _ _ Hr).
  by st_step (rq_upd_ok _ _ _ _ Hr).
Qed.

(** Starting the timer of a request: the request goes to the end of the list,
    and the timer of the queue fires for it and no later than before. *)
Lemma blk_add_timer_ok {D} this_cpu (w : world D) xs r rq :
  Z.of_nat this_cpu < 2 ^ 32 → is_list (links w) timeout_head (timeout_list <$> xs) →
  0 ≤ jiffies w < 2 ^ 61 → (∀ e, timeout_timer (queue w) = Some e → 0 ≤ e < 2 ^ 63) →
  rq_timed_out_fn (conf (queue w)) ≠ None →
  rqs w !! r = Some rq → r ∉ xs → is_list (links w) (timeout_list r) [] →
  Z.testbit (atomic_flags rq) REQ_ATOM_COMPLETE = false →
  0 ≤ timeout rq < 2 ^ 32 → 0 ≤ rq_timeout (conf (queue w)) < 2 ^ 32 →
  let rq' := restarted (rq_timeout (conf (queue w))) (jiffies w) rq in
  ∃ h e, blk_add_timer this_cpu r w =
      Ok (tt, set_queue (set_timeout_timer (Some e) (queue w))
                (set_links h (set_rqs (<[r := rq']> (rqs w)) w))) ∧
    is_list h timeout_head (timeout_list <$> xs ++ [r]) ∧
    frame (links w) h (timeout_list r :: timeout_head :: (timeout_list <$> xs)) ∧
    0 ≤ e < 2 ^ 63 ∧ e ≤ deadline rq' + HZ ∧
    (∀ e0, timeout_timer (queue w) = Some e0 → e ≤ e0).
Proof.
  intros Hcpu Hlist Hj Hrange Hfn Hr Hrx Hself Hflag Hto Hqto. cbv zeta. unfold restarted.
  unfold blk_add_timer. erewrite st_bind_ok by reflexivity. rewrite bool_decide_false by done.
  erewrite st_bind_ok by (apply on_links_read; apply (list_empty_spec _ _ _ Hself)).
  rewrite bool_decide_true by done. erewrite (st_bind_ok (bug_on _)) by reflexivity.
  st_step (rq_get_ok _ _ _ Hr). rewrite Hflag. erewrite (st_bind_ok (bug_on _)) by reflexivity.
  set (t := if timeout rq =? 0 then _ else _).
  assert (when (timeout rq =? 0) (rq_upd r (set_timeout (rq_timeout (conf (queue w))))) w =
    Ok (tt, set_rqs (<[r := set_timeout t rq]> (rqs w)) w)) as E1.
  { subst t. unfold when. destruct (timeout rq =? 0); [by rewrite (rq_upd_ok _ _ _ _ Hr)|].
    unfold mret, st_ret. rewrite insert_id; [by destruct w|]. rewrite Hr. by destruct rq. }
  assert (0 ≤ t < 2 ^ 32) as Hbt by (subst t; destruct (timeout rq =? 0); lia). clearbody t.
  st_step E1. erewrite st_bind_ok by reflexivity.
  erewrite st_bind_ok by (apply rq_upd_ok; apply lookup_insert_eq). wcbn. rewrite insert_insert_eq.
  cbn [timeout set_timeout]. rewrite u64_id by lia.
  destruct (list_add_tail_spec (links w) timeout_head (timeout_list <$> xs) [] (timeout_list r))
    as (h & E2 & Hl & Hf); [by rewrite app_nil_r| | |].
  { rewrite app_nil_r, not_elem_of_cons. split; [done|]. by intros (p & [= <-] & ?)%timeout_elem. }
  { apply (is_list_mapped _ _ _ Hself). by left. }
  rewrite app_nil_r in Hf. erewrite st_bind_ok by (apply on_links_ok; exact E2).
  erewrite st_bind_ok by (apply rq_get_ok; apply lookup_insert_eq). wcbn.
  cbn [deadline set_deadline]. set (d := jiffies w + t). set (rq' := set_deadline d _).
  set (e := round_jiffies_up (jiffies w) d (Z.of_nat this_cpu)).
  destruct (round_jiffies_up_bounds (jiffies w) d (Z.of_nat this_cpu)) as [Hb1 Hb2]; [lia..|].
  fold e in Hb1, Hb2. set (w1 := set_links h _).
  cut (∃ e', match timeout_timer (queue w) with
      | Some e0 => when (time_before e e0) (mod_timer e)
      | None => mod_timer e end w1 =
      Ok (tt, set_queue (set_timeout_timer (Some e') (queue w)) w1) ∧ 0 ≤ e' ≤ e ∧
    (∀ e0, timeout_timer (queue w) = Some e0 → e' ≤ e0)).
  { intros (e' & E3 & He' & Hold). exists h, e'. split; [exact E3|].
    split_and!; [by rewrite fmap_app|exact Hf|lia|lia|lia|exact Hold]. }
  destruct (timeout_timer (queue w)) as [e0|] eqn:Et.
  - specialize (Hrange e0 eq_refl). unfold time_before. rewrite time_after_ok by lia.
    destruct (Z.ltb_spec e e0); cbn [when].
    + exists e. split_and!; [reflexivity|lia|lia|]. intros ? [= <-]. lia.
    + exists e0. split_and!; [|lia|lia|by intros ? [= <-]]. unfold mret, st_ret. do 2 f_equal.
      rewrite <-Et. subst w1. by destruct w as [? ? ? [] ? ? ? ? ?].
  - exists e. split_and!; [reflexivity|lia|lia|done].
Qed.

(** The timer is armed: it fires at the latest one second after the deadline of
    any request on the list. *)
Record armed {D} (w : world D) (xs : list rqid) : Prop := {
  armed_ok : timeouts_ok w xs;
  armed_range : ∀ e, timeout_timer (queue w) = Some e → 0 ≤ e < 2 ^ 63;
  armed_timer : ∀ r, r ∈ xs → fires_by w (deadline_of (rqs w) r)
}.

(** What the timer finds: the requests [xs] on the list with their times, and
    the lists of completed requests [qs], which none of them is on unless it
    has completed. *)
Record fires_ok {D} (w0 : world D) (xs : list rqid) (qs : list (list rqid)) : Prop := {
  fo_ok : timeouts_ok w0 xs;
  fo_now : jiffies w0 < 2 ^ 61;
  fo_fn : rq_timed_out_fn (conf (queue w0)) ≠ None;
  fo_timeout : ∀ r rq, r ∈ xs → rqs w0 !! r = Some rq → 0 ≤ timeout rq < 2 ^ 32;
  fo_default : 0 < rq_timeout (conf (queue w0)) < 2 ^ 32;
  fo_soft : soft_ok w0 qs [];
  fo_new : ∀ r, r ∈ xs → is_complete (rqs w0) r = false → r ∉ concat qs ++ triggered (irqs w0)
}.

Section timer.
Context {D : Type} (online : nat → bool) (group : nat → nat) (this_cpu : nat).
Context (rq_timed_out : rqid → ST (world D) blk_eh_timer_return).
Context (log : D → list (rqid * blk_eh_timer_return)).
(** The driver answers as it likes; its data tell what it was asked and what it
    answered. *)
Hypothesis rq_timed_out_spec : ∀ r w, ∃ a d,
  rq_timed_out r w = Ok (a, set_elevator_data d w) ∧ log d = log (elevator_data w) ++ [(r, a)].
Context (w0 : world D) (xs : list rqid) (qs0 : list (list rqid)).
Hypothesis Hok : fires_ok w0 xs qs0.
Hypothesis Hcpu : Z.of_nat this_cpu < 2 ^ 32.
Hypothesis Hthis : (this_cpu < length qs0)%nat.
Hypothesis Honline : ∀ c, online c = true → (c < length qs0)%nat.
Implicit Types (w : world D) (l gone : list rqid) (told : list (rqid * blk_eh_timer_return)).
Let tbl : gmap rqid request := rqs w0.
Let now : Z := jiffies w0.
Let dflt : Z := rq_timeout (conf (queue w0)).

(** The new deadline of a request that is started again. *)
Let due (r : rqid) : Z := match tbl !! r with Some rq => deadline (restarted dflt now rq) | None => 0 end.

(** The state in the loop: [l] on the list, [gone] expired so far, [told] the
    driver's answers. *)
Record timer_state l gone told qs w : Prop := {
  ts_list : is_list (links w) timeout_head (timeout_list <$> l);
  ts_rqs : ∀ r, rqs w !! r = outcome dflt now gone (again told) r <$> tbl !! r;
  ts_log : log (elevator_data w) = log (elevator_data w0) ++ told;
  ts_soft : soft_ok w qs [];
  ts_len : length qs = length qs0;
  ts_done : concat qs ++ triggered (irqs w) ≡ₚ
    (concat qs0 ++ triggered (irqs w0)) ++ handled told;
  ts_range : ∀ e, timeout_timer (queue w) = Some e → 0 ≤ e < 2 ^ 63;
  ts_timer : ∀ r, r ∈ again told → fires_by w (due r);
  ts_rest : jiffies w = now ∧ conf (queue w) = conf (queue w0)
}.

Lemma timer_frame (h h' : gmap laddr (list_head laddr)) ns (a : laddr) ys :
  frame h h' ns → (∀ b, b ∈ ns → soft_addr b) → is_list h a ys →
  (∀ b, b ∈ a :: ys → ¬ soft_addr b) → is_list h' a ys.
Proof. intros Hf Hns Hl Ha. eapply frame_is_list; [exact Hf|done|]. intros b Hb Hin. by apply (Ha b), Hns. Qed.

Lemma timeout_addr b l : b ∈ timeout_head :: (timeout_list <$> l) → ¬ soft_addr b.
Proof. by intros [->|(p & -> & _)%timeout_elem]%elem_of_cons []. Qed.

(** An expired request leaves the list and is marked. *)
Lemma expire_ok l1 r l2 gone told qs w rq :
  timer_state (l1 ++ r :: l2) gone told qs w → tbl !! r = Some rq → r ∉ gone → r ∉ again told →
  ∃ h, on_links (list_del_init (Ptr (timeout_list r))) w = Ok (tt, set_links h w) ∧
    rqs w !! r = Some rq ∧ is_list h (timeout_list r) [] ∧
    timer_state (l1 ++ l2) (gone ++ [r]) told qs
      (set_rqs (<[r := mark rq]> (rqs w)) (set_links h w)).
Proof.
  intros Hs Hr Hg Ha. pose proof (ts_list _ _ _ _ _ Hs) as Hl. rewrite fmap_app, fmap_cons in Hl.
  destruct (list_del_init_spec (links w) timeout_head _ (timeout_list r) _ Hl)
    as (h & E & [L1 L2] & F). rewrite <-fmap_app in L1. rewrite <-fmap_cons, <-fmap_app in F.
  assert (rqs w !! r = Some rq) as Hrw.
  { rewrite (ts_rqs _ _ _ _ _ Hs), Hr. cbn. unfold outcome. by rewrite !decide_False. }
  exists h. split_and!; [by apply on_links_ok|done|done|].
  constructor; wcbn; try apply Hs; [done| |].
  - intros p. unfold outcome. destruct (decide (p = r)) as [->|Hp].
    + rewrite lookup_insert_eq, Hr. cbn.
      rewrite decide_False, decide_True; [done|lelem|done].
    + rewrite lookup_insert_ne, (ts_rqs _ _ _ _ _ Hs) by done. unfold outcome.
      destruct (tbl !! p); [|done]. cbn. f_equal. case_decide; [done|].
      apply decide_ext. rewrite elem_of_app, list_elem_of_singleton. naive_solver.
  - apply (soft_ok_rqs (set_links h w)); [|wcbn; apply dom_insert_lookup_L; eauto].
    eapply soft_ok_elsewhere; [apply Hs|exact F|]. intros b. apply timeout_addr.
Qed.

(** A change of the table that keeps the requests. *)
Lemma insert_dom r (rq rq' : request) (m : gmap rqid request) :
  m !! r = Some rq → dom (<[r := rq']> m) = dom m.
Proof. intros Hr. apply dom_insert_lookup_L. eauto. Qed.

(** What is done on each of the driver's answers: a request it takes over is
    left to it, one it has handled is completed, and one that is to have more
    time goes back to the end of the list. *)
Lemma answer_handled l gone told qs w r rq d :
  timer_state l gone told qs w → r ∈ xs → rqs w !! r = Some rq → is_complete tbl r = false →
  r ∉ told.*1 → log d = log (elevator_data w) ++ [(r, BLK_EH_HANDLED)] →
  ∃ qs' w', __blk_complete_request online group this_cpu r (set_elevator_data d w) = Ok (tt, w') ∧
    timer_state l gone (told ++ [(r, BLK_EH_HANDLED)]) qs' w'.
Proof.
  intros Hs Hrx Hr Hc Ht Ed. pose proof (ts_len _ _ _ _ _ Hs) as Hlen0.
  destruct (complete_ok online group (λ _, mret tt) this_cpu r (set_elevator_data d w) qs)
    as (h & iw & qs' & E2 & Hs2 & Hlen & Hp & ns & Hf & Hns); rewrite ?Hlen0; try done.
  { destruct (ts_soft _ _ _ _ _ Hs). by constructor. }
  { wcbn. rewrite (ts_done _ _ _ _ _ Hs).
    intros [?|?%handled_told]%elem_of_app; [|done]. by apply (fo_new _ _ _ Hok r). }
  exists qs', (set_irqs iw (set_links h (set_elevator_data d w))). split; [exact E2|].
  wcbn in Hp. wcbn in Hf. destruct Hs.
  constructor; rewrite ?again_snoc, ?handled_snoc, ?app_nil_r; wcbn; try done.
  - eapply timer_frame; [exact Hf|exact Hns|done|]. intros b. apply timeout_addr.
  - by rewrite Ed, ts_log0, <-app_assoc.
  - congruence.
  - rewrite Hp, ts_done0. cbn. solve_Permutation.
Qed.

Lemma answer_reset l gone told qs w r rq d :
  timer_state l gone told qs w → r ∈ xs → tbl !! r = Some rq → rqs w !! r = Some (mark rq) →
  is_complete tbl r = false → r ∉ told.*1 → r ∉ l → is_list (links w) (timeout_list r) [] →
  log d = log (elevator_data w) ++ [(r, BLK_EH_RESET_TIMER)] →
  ∃ w', (blk_clear_rq_complete r;; blk_add_timer this_cpu r) (set_elevator_data d w) = Ok (tt, w') ∧
    timer_state (l ++ [r]) gone (told ++ [(r, BLK_EH_RESET_TIMER)]) qs w'.
Proof.
  intros Hs Hrx Hr Hrw Hc Ht Hrl Hself Ed. unfold blk_clear_rq_complete.
  assert (Z.testbit (atomic_flags rq) REQ_ATOM_COMPLETE = false) as Hb
    by (unfold is_complete in Hc; by rewrite Hr in Hc).
  erewrite st_bind_ok by (apply rq_upd_ok; exact Hrw). wcbn. rewrite clear_mark by done.
  set (w1 := set_rqs _ _). destruct (ts_rest _ _ _ _ _ Hs) as [Rj Rc].
  pose proof (fo_default _ _ _ Hok) as Hdf. pose proof (fo_now _ _ _ Hok) as Hnow.
  pose proof (to_now _ _ (fo_ok _ _ _ Hok)) as Hnow'.
  pose proof (fo_timeout _ _ _ Hok r rq Hrx Hr) as Hto.
  destruct (blk_add_timer_ok this_cpu w1 l r rq) as (h & e & E2 & Hl & Hf & He & Hd & Hold);
    subst w1; wcbn; rewrite ?Rj, ?Rc; try done; try apply Hs; try apply Hok; try lia.
  { by apply lookup_insert_eq. }
  wcbn in E2. rewrite E2, insert_insert_eq. eexists. split; [done|].
  wcbn in Hf. wcbn in Hd. rewrite Rj, Rc in Hd |- *. fold now dflt in Hd |- *.
  assert (again (told ++ [(r, BLK_EH_RESET_TIMER)]) = again told ++ [r]) as Eag by apply again_snoc.
  constructor; rewrite ?Eag, ?handled_snoc, ?app_nil_r; wcbn; try done; try apply Hs.
  - intros p. unfold outcome. destruct (decide (p = r)) as [->|Hp].
    + rewrite lookup_insert_eq, Hr. cbn. rewrite decide_True; [done|lelem].
    + rewrite lookup_insert_ne, (ts_rqs _ _ _ _ _ Hs) by done. unfold outcome.
      destruct (tbl !! p); [|done]. cbn. f_equal.
      apply decide_ext. rewrite elem_of_app, list_elem_of_singleton. naive_solver.
  - by rewrite Ed, (ts_log _ _ _ _ _ Hs), <-app_assoc.
  - assert (soft_ok (set_links h w) qs []) as Hso.
    { eapply soft_ok_elsewhere; [apply Hs|exact Hf|].
      intros b [->|Hb']%elem_of_cons; [by intros []|by apply (timeout_addr b l)]. }
    apply (soft_ok_rqs _ _ _ (<[r := restarted dflt now rq]> (rqs w))) in Hso;
      [|wcbn; by eapply insert_dom]. destruct Hso. by constructor; wcbn; rewrite ?Rc.
  - by intros ? [= <-].
  - intros p [Hp| ->%list_elem_of_singleton]%elem_of_app.
    + destruct (ts_timer _ _ _ _ _ Hs p Hp) as (e0 & Ee & ?). exists e. split; [done|].
      specialize (Hold e0 Ee). lia.
    + exists e. split; [done|]. unfold due. by rewrite Hr.
Qed.

(** The driver is told of a request, and what it answers is done. *)
Lemma blk_rq_timed_out_ok l gone told qs w r rq :
  timer_state l gone told qs w → r ∈ xs → tbl !! r = Some rq → is_complete tbl r = false →
  r ∈ gone → r ∉ told.*1 → r ∉ l → is_list (links w) (timeout_list r) [] →
  ∃ a qs' w', blk_rq_timed_out online group this_cpu rq_timed_out r w = Ok (tt, w') ∧
    timer_state (l ++ (if decide (a = BLK_EH_RESET_TIMER) then [r] else [])) gone
      (told ++ [(r, a)]) qs' w'.
Proof.
  intros Hs Hrx Hr Hc Hg Ht Hrl Hself. unfold blk_rq_timed_out.
  destruct (rq_timed_out_spec r w) as (a & d & E & Ed). st_step E. exists a.
  assert (rqs w !! r = Some (mark rq)) as Hrw.
  { rewrite (ts_rqs _ _ _ _ _ Hs), Hr. cbn. unfold outcome.
    rewrite decide_False, decide_True; [done|done|]. by intros ?%again_told. }
  destruct a; cbn [decide].
  - exists qs, (set_elevator_data d w). split; [done|]. rewrite decide_False, app_nil_r by done.
    destruct Hs. constructor; rewrite ?again_snoc, ?handled_snoc, ?app_nil_r; wcbn; try done.
    + by rewrite Ed, ts_log0, <-app_assoc.
    + destruct ts_soft0. by constructor.
  - rewrite decide_False, app_nil_r by done. by eapply answer_handled.
  - rewrite decide_True by done. edestruct answer_reset as (w' & ? & ?); eauto.
Qed.

(** The visited part grows by an expired or by an unexpired request. *)
Lemma visit_expired done r :
  deadline_of tbl r ≤ now →
  unexpired tbl now (done ++ [r]) = unexpired tbl now done ∧
  expired tbl now (done ++ [r]) = expired tbl now done ++ [r] ∧
  reported tbl now (done ++ [r]) =
    reported tbl now done ++ (if is_complete tbl r then [] else [r]).
Proof.
  intros Hd. assert (expired tbl now (done ++ [r]) = expired tbl now done ++ [r]) as E.
  { unfold expired. by rewrite filter_app, filter_cons_True, filter_nil. }
  unfold reported. rewrite E. split_and!; [|done|].
  - unfold unexpired. by rewrite filter_app, filter_cons_False, filter_nil, app_nil_r by tauto.
  - rewrite filter_app. f_equal. destruct (is_complete tbl r) eqn:Ec.
    + by rewrite filter_cons_False by congruence.
    + by rewrite filter_cons_True.
Qed.
Lemma visit_unexpired done r :
  ¬ deadline_of tbl r ≤ now →
  unexpired tbl now (done ++ [r]) = unexpired tbl now done ++ [r] ∧
  expired tbl now (done ++ [r]) = expired tbl now done ∧
  reported tbl now (done ++ [r]) = reported tbl now done.
Proof.
  intros Hd. assert (expired tbl now (done ++ [r]) = expired tbl now done) as E.
  { unfold expired. by rewrite filter_app, filter_cons_False, filter_nil, app_nil_r. }
  unfold reported. rewrite E. split_and!; [|done..].
  unfold unexpired. by rewrite filter_app, filter_cons_True, filter_nil.
Qed.

(** Where the loop is: [todo] of the requests are still to be visited.  Those
    that were started again follow at the end of the list and are visited too
    ([seen], [rest]), except for one that was the last on the list when it was
    visited ([lost]). *)
Record position done todo told seen rest lost : Prop := {
  po_xs : xs = done ++ todo;
  po_told : told.*1 = reported tbl now done;
  po_again : again told = seen ++ rest ++ lost;
  po_seen : todo ≠ [] → seen = [];
  po_lost : lost ≠ [] → todo ++ rest = [] ∧ seen = [] ∧ ∃ r, lost = [r] ∧ last xs = Some r
}.
Record timer_at done todo told seen rest lost qs (next : option Z) w : Prop := {
  ta_pos : position done todo told seen rest lost;
  ta_state : timer_state (unexpired tbl now done ++ todo ++ again told)
    (expired tbl now done) told qs w;
  ta_next : next = next_of ((deadline_of tbl <$> unexpired tbl now done) ++ (due <$> seen))
}.
Definition timer_inv (m : nat) (rem : list rqid) (next : option Z) w : Prop :=
  ∃ done todo told seen rest lost qs,
    timer_at done todo told seen rest lost qs next w ∧ rem = todo ++ rest ∧
    m = (2 * length todo + length rest)%nat.

Lemma position_list done todo told seen rest lost :
  position done todo told seen rest lost →
  todo ++ again told = seen ++ (todo ++ rest) ++ lost.
Proof.
  intros Hp. rewrite (po_again _ _ _ _ _ _ Hp). destruct todo as [|r todo]; [done|].
  rewrite (po_seen _ _ _ _ _ _ Hp) by done. cbn. by rewrite <-app_assoc.
Qed.
Lemma position_rest done todo told seen rest lost :
  position done todo told seen rest lost → todo ++ rest ≠ [] → lost = [].
Proof. intros Hp Hne. destruct lost as [|p lost]; [done|]. by destruct (po_lost _ _ _ _ _ _ Hp) as (? & _). Qed.
Lemma position_again done todo told seen rest lost r :
  position done todo told seen rest lost → r ∈ again told →
  r ∈ done ∧ is_complete tbl r = false ∧ deadline_of tbl r ≤ now.
Proof.
  intros Hp Hr%again_told. rewrite (po_told _ _ _ _ _ _ Hp), reported_elem in Hr. tauto.
Qed.

Lemma timer_inv_next m rem next w :
  timer_inv m rem next w →
  match rem with
  | [] => mapped (links w) timeout_head
  | r :: rem => nxt (links w) (timeout_list r) = Some (Ptr (List.hd timeout_head (timeout_list <$> rem)))
  end.
Proof.
  intros (done & todo & told & seen & rest & lost & qs & [Hp Hs _] & -> & _).
  pose proof (ts_list _ _ _ _ _ Hs) as Hl. rewrite (position_list _ _ _ _ _ _ Hp) in Hl.
  destruct (todo ++ rest) as [|r rem] eqn:Er.
  - apply (is_list_mapped _ _ _ Hl). by left.
  - rewrite (position_rest _ _ _ _ _ _ Hp), app_nil_r, app_assoc, fmap_app, fmap_cons in Hl by (by rewrite Er).
    by apply is_list_at in Hl as [_ ?].
Qed.

Lemma due_bounds r rq : r ∈ xs → tbl !! r = Some rq → now < due r < 2 ^ 62.
Proof.
  intros Hr E. unfold due. rewrite E. cbn. pose proof (fo_timeout _ _ _ Hok r rq Hr E).
  pose proof (fo_default _ _ _ Hok). pose proof (fo_now _ _ _ Hok). subst now dflt.
  destruct (Z.eqb_spec (timeout rq) 0); lia.
Qed.

(** The times collected so far are in range. *)
Lemma next_range done todo told seen rest lost qs next w n :
  timer_at done todo told seen rest lost qs next w → next = Some n → 0 ≤ n < 2 ^ 62.
Proof.
  intros [Hp _ ->] Hn. pose proof (fo_ok _ _ _ Hok) as Ht. pose proof (to_now _ _ Ht) as Hnow.
  pose proof (next_of_spec ((deadline_of tbl <$> unexpired tbl now done) ++ (due <$> seen))) as Hspec.
  rewrite Hn in Hspec. destruct Hspec as [[Hin|Hin]%elem_of_app _].
  - apply list_elem_of_fmap in Hin as (p & -> & [_ Hin]%list_elem_of_filter).
    apply (to_time _ _ Ht). rewrite (po_xs _ _ _ _ _ _ Hp). lelem.
  - apply list_elem_of_fmap in Hin as (p & -> & Hin).
    assert (p ∈ xs) as Hpx.
    { rewrite (po_xs _ _ _ _ _ _ Hp). destruct (position_again _ _ _ _ _ _ p Hp) as [? _]; [|lelem].
      rewrite (po_again _ _ _ _ _ _ Hp). lelem. }
    destruct (to_live _ _ Ht p Hpx) as [rq Hrq]. pose proof (due_bounds p rq Hpx Hrq). fold now in Hnow. lia.
Qed.

(** A request whose time is not up is only noted. *)
Lemma step_waits r rq next w :
  rqs w !! r = Some rq → jiffies w = now → now < deadline rq < 2 ^ 62 →
  (∀ n, next = Some n → 0 ≤ n < 2 ^ 62) →
  timed_out_step online group this_cpu rq_timed_out (Ptr (timeout_list r)) next w
    = Ok (earliest next (deadline rq), w).
Proof.
  intros Hr Hj Hd Hn. pose proof (to_now _ _ (fo_ok _ _ _ Hok)) as Hnow. fold now in Hnow.
  unfold timed_out_step. erewrite st_bind_ok by reflexivity. st_step (rq_get_ok _ _ _ Hr).
  erewrite st_bind_ok by reflexivity. rewrite Hj, time_after_eq_ok by lia.
  destruct (Z.leb_spec (deadline rq) now); [lia|]. destruct next as [n|]; [|done].
  specialize (Hn n eq_refl). rewrite time_after_ok by lia. cbn. by destruct (_ <? _).
Qed.

(** The three kinds of step: a request whose time is not up, one that was
    started again, and one that is expired. *)
Lemma step_unexpired done r todo told seen rest lost qs next w :
  timer_at done (r :: todo) told seen rest lost qs next w → ¬ deadline_of tbl r ≤ now →
  ∃ next', timed_out_step online group this_cpu rq_timed_out (Ptr (timeout_list r)) next w
      = Ok (next', w) ∧
    timer_at (done ++ [r]) todo told seen rest lost qs next' w.
Proof.
  intros Ht Hd. pose proof Ht as [Hp Hs En]. pose proof (fo_ok _ _ _ Hok) as Hto.
  assert (r ∈ xs) as Hrx by (rewrite (po_xs _ _ _ _ _ _ Hp); lelem).
  assert (r ∉ again told) as Hag by (intros (_ & _ & ?)%(position_again _ _ _ _ _ _ r Hp); done).
  destruct (to_live _ _ Hto r Hrx) as [rq Hrq]. fold tbl in Hrq.
  assert (deadline_of tbl r = deadline rq) as Ed by (unfold deadline_of; by rewrite Hrq).
  pose proof (to_time _ _ Hto r Hrx) as Htime. fold tbl in Htime.
  destruct (visit_unexpired done r Hd) as (V1 & V2 & V3).
  assert (rqs w !! r = Some rq) as Hrw.
  { rewrite (ts_rqs _ _ _ _ _ Hs), Hrq. cbn. unfold outcome. rewrite !decide_False; [done| |done].
    unfold expired. by intros [? _]%list_elem_of_filter. }
  exists (earliest next (deadline rq)). split.
  { apply step_waits; [done|apply Hs|lia|]. intros n. by eapply next_range. }
  assert (seen = []) as -> by by apply Hp.
  split; [|by rewrite V1, V2, <-app_assoc|].
  - destruct Hp. constructor; rewrite ?V3; try done; [by rewrite <-app_assoc|].
    intros (? & _)%po_lost0. done.
  - rewrite V1, fmap_app, En, fmap_cons, !fmap_nil, !app_nil_r. by rewrite next_of_snoc, Ed.
Qed.

Lemma step_again done told seen r rest lost qs next w :
  timer_at done [] told seen (r :: rest) lost qs next w →
  ∃ next', timed_out_step online group this_cpu rq_timed_out (Ptr (timeout_list r)) next w
      = Ok (next', w) ∧
    timer_at done [] told (seen ++ [r]) rest lost qs next' w.
Proof.
  intros Ht. pose proof Ht as [Hp Hs En]. pose proof (fo_ok _ _ _ Hok) as Hto.
  assert (r ∈ again told) as Hag by (rewrite (po_again _ _ _ _ _ _ Hp); lelem).
  destruct (position_again _ _ _ _ _ _ r Hp Hag) as (Hrd & _ & _).
  assert (r ∈ xs) as Hrx by (rewrite (po_xs _ _ _ _ _ _ Hp); lelem).
  destruct (to_live _ _ Hto r Hrx) as [rq Hrq]. fold tbl in Hrq.
  pose proof (due_bounds r rq Hrx Hrq) as Hdue.
  assert (due r = deadline (restarted dflt now rq)) as Ed by (unfold due; by rewrite Hrq).
  rewrite Ed in Hdue. exists (earliest next (due r)). split.
  { rewrite Ed. apply step_waits; [|apply Hs|lia|intros n; by eapply next_range].
    rewrite (ts_rqs _ _ _ _ _ Hs), Hrq. cbn. unfold outcome. by rewrite decide_True. }
  split; [|done|].
  - destruct Hp. constructor; try done.
    + by rewrite po_again0, <-app_assoc.
    + intros (? & _)%po_lost0. done.
  - rewrite fmap_app, fmap_cons, fmap_nil, app_assoc, next_of_snoc. by rewrite <-En.
Qed.

(** The position after an expired request, with what the driver answered. *)
Lemma position_expired done r todo told seen rest lost :
  position done (r :: todo) told seen rest lost → deadline_of tbl r ≤ now →
  seen = [] ∧ lost = [] ∧ again told = rest ∧
  (is_complete tbl r = true → position (done ++ [r]) todo told [] rest []) ∧
  ∀ a, is_complete tbl r = false →
    ∃ rest' lost', position (done ++ [r]) todo (told ++ [(r, a)]) [] rest' lost' ∧
      (length rest' ≤ S (length rest))%nat ∧
      List.hd timeout_head (timeout_list <$> todo ++ rest')
        = List.hd timeout_head (timeout_list <$> todo ++ rest).
Proof.
  intros Hp Hd. destruct (visit_expired done r Hd) as (_ & _ & V3).
  assert (seen = []) as -> by by apply Hp.
  assert (lost = []) as -> by by eapply position_rest.
  pose proof (po_again _ _ _ _ _ _ Hp) as Eag. rewrite app_nil_r in Eag. cbn in Eag.
  pose proof (po_xs _ _ _ _ _ _ Hp) as Exs. rewrite cons_middle, app_assoc in Exs.
  pose proof (po_told _ _ _ _ _ _ Hp) as Etold.
  split_and!; [done..| |].
  { intros Ec. rewrite Ec, app_nil_r in V3. constructor; rewrite ?V3, ?app_nil_r; done. }
  intros a Ec. rewrite Ec in V3.
  assert ((told ++ [(r, a)]).*1 = reported tbl now (done ++ [r])) as Etold'
    by (rewrite fmap_app, V3; by f_equal).
  destruct (decide (a = BLK_EH_RESET_TIMER)) as [->|Ha].
  - destruct (todo ++ rest) as [|p l] eqn:El.
    + apply app_nil in El as [-> ->]. exists [], [r]. split_and!; [|cbn; lia|done].
      constructor; rewrite ?again_snoc; try done; [by rewrite Eag|].
      intros _. split_and!; [done..|]. exists r. split; [done|]. by rewrite Exs, app_nil_r, last_snoc.
    + exists (rest ++ [r]), []. rewrite app_assoc, El. split_and!; [|rewrite length_app; cbn; lia|done].
      constructor; rewrite ?again_snoc; try done. by rewrite Eag, app_nil_r.
  - exists rest, []. split_and!; [|lia|done].
    constructor; rewrite ?again_snoc; try done. by rewrite decide_False, Eag, !app_nil_r by done.
Qed.

Lemma step_expired done r todo told seen rest lost qs next w :
  timer_at done (r :: todo) told seen rest lost qs next w → deadline_of tbl r ≤ now →
  ∃ told' rest' lost' qs' next' w', timed_out_step online group this_cpu rq_timed_out (Ptr (timeout_list r)) next w
      = Ok (next', w') ∧
    timer_at (done ++ [r]) todo told' [] rest' lost' qs' next' w' ∧
    (length rest' ≤ S (length rest))%nat ∧
    List.hd timeout_head (timeout_list <$> todo ++ rest')
      = List.hd timeout_head (timeout_list <$> todo ++ rest).
Proof.
  intros [Hp Hs En] Hd. pose proof (fo_ok _ _ _ Hok) as Hto. pose proof (to_now _ _ Hto) as Hnow.
  destruct (position_expired _ _ _ _ _ _ _ Hp Hd) as (-> & -> & Eag & Hraced & Htold).
  pose proof (timeouts_nodup _ _ Hto) as Hnd. rewrite (po_xs _ _ _ _ _ _ Hp) in Hnd.
  apply NoDup_middle in Hnd as [Hrn _]. rewrite elem_of_app in Hrn.
  assert (r ∈ xs) as Hrx by (rewrite (po_xs _ _ _ _ _ _ Hp); lelem).
  assert (r ∉ told.*1) as Hrt.
  { rewrite (po_told _ _ _ _ _ _ Hp), reported_elem. tauto. }
  assert (r ∉ again told) as Hag by (by intros ?%again_told).
  destruct (to_live _ _ Hto r Hrx) as [rq Hrq]. fold tbl in Hrq.
  pose proof (to_time _ _ Hto r Hrx) as Htime. fold tbl in Htime.
  assert (deadline_of tbl r = deadline rq) as Ed by (unfold deadline_of; by rewrite Hrq).
  destruct (visit_expired done r Hd) as (V1 & V2 & _).
  assert (r ∉ unexpired tbl now done ++ todo ++ again told) as Hrl.
  { rewrite !elem_of_app. unfold unexpired. rewrite list_elem_of_filter. tauto. }
  destruct (expire_ok (unexpired tbl now done) r (todo ++ again told) (expired tbl now done) told qs w rq)
    as (h & E1 & Hrw & Hself & Hs1); [done|done| |done|].
  { unfold expired. rewrite list_elem_of_filter. tauto. }
  unfold timed_out_step. erewrite st_bind_ok by reflexivity. st_step (rq_get_ok _ _ _ Hrw).
  erewrite st_bind_ok by reflexivity. destruct (ts_rest _ _ _ _ _ Hs) as [-> _].
  rewrite Ed in Hd, Htime. fold now in Hnow. rewrite time_after_eq_ok by lia.
  destruct (Z.leb_spec (deadline rq) now); [|lia]. st_step E1.
  st_step (blk_mark_rq_complete_ok r (set_links h w) rq Hrw).
  assert (is_complete tbl r = Z.testbit (atomic_flags rq) REQ_ATOM_COMPLETE) as Ec
    by (unfold is_complete; by rewrite Hrq).
  rewrite <-V2 in Hs1. rewrite <-V1 in Hs1, Hrl, En. rewrite <-Ec. destruct (is_complete tbl r) eqn:Eb; cbn [negb when].
  - erewrite st_bind_ok by reflexivity. exists told, rest, [], qs, next. eexists. split; [done|].
    split_and!; [|lia|done]. split; [by apply Hraced|exact Hs1|done].
  - edestruct (blk_rq_timed_out_ok (unexpired tbl now (done ++ [r]) ++ todo ++ again told))
      as (a & qs' & w' & E2 & Hs2); [exact Hs1|done..| |done|done|exact Hself|].
    { rewrite V2. lelem. }
    st_step E2. destruct (Htold a eq_refl) as (rest' & lost' & Hp' & Hlen & Hhd).
    exists (told ++ [(r, a)]), rest', lost', qs', next, w'. split; [done|]. split_and!; [|done|done].
    split; [done| |done]. by rewrite again_snoc, !app_assoc in *.
Qed.

Lemma timed_out_step_ok m r rem next w :
  timer_inv m (r :: rem) next w →
  ∃ m' rem' next' w', timed_out_step online group this_cpu rq_timed_out (Ptr (timeout_list r)) next w
      = Ok (next', w') ∧ timer_inv m' rem' next' w' ∧ (m' < m)%nat ∧
    List.hd timeout_head (timeout_list <$> rem') = List.hd timeout_head (timeout_list <$> rem).
Proof.
  intros (done & todo & told & seen & rest & lost & qs & Ht & Er & ->).
  destruct todo as [|p todo]; [destruct rest as [|p rest]; [done|]|]; injection Er as <- ->.
  - destruct (step_again _ _ _ _ _ _ _ _ _ Ht) as (next' & E & Ht').
    eexists _, rest, next', w. split_and!; [done|by eexists _, [], _, _, _, _, _|cbn; lia|done].
  - destruct (decide (deadline_of tbl r ≤ now)) as [Hd|Hd].
    + destruct (step_expired _ _ _ _ _ _ _ _ _ _ Ht Hd)
        as (told' & rest' & lost' & qs' & next' & w' & E & Ht' & Hlen & Hhd).
      eexists _, (todo ++ rest'), next', w'.
      split_and!; [done|by eexists _, _, _, _, _, _, _|cbn; lia|done].
    + destruct (step_unexpired _ _ _ _ _ _ _ _ _ _ Ht Hd) as (next' & E & Ht').
      eexists _, (todo ++ rest), next', w.
      split_and!; [done|by eexists _, _, _, _, _, _, _|cbn; lia|done].
Qed.

(** The deadlines at the end of the loop. *)
Lemma deadline_waits l gone told qs w r :
  timer_state l gone told qs w → r ∉ gone → r ∉ again told → deadline_of (rqs w) r = deadline_of tbl r.
Proof.
  intros Hs Hg Ha. unfold deadline_of. rewrite (ts_rqs _ _ _ _ _ Hs). destruct (tbl !! r); [|done].
  cbn. unfold outcome. by rewrite !decide_False.
Qed.
Lemma deadline_again l gone told qs w r :
  timer_state l gone told qs w → r ∈ again told → deadline_of (rqs w) r = due r.
Proof.
  intros Hs Ha. unfold deadline_of, due. rewrite (ts_rqs _ _ _ _ _ Hs). destruct (tbl !! r); [|done].
  cbn. unfold outcome. by rewrite decide_True.
Qed.

(** The end of the function: the timer is set for the earliest time seen. *)
Lemma timer_end told seen lost qs next w :
  timer_at xs [] told seen [] lost qs next w →
  ∃ e, (t ← gets jiffies;
     match next with
     | Some n => mod_timer (round_jiffies_up t n (Z.of_nat this_cpu))
     | None => mret tt
     end) w = Ok (tt, set_queue (set_timeout_timer e (queue w)) w) ∧
    ∀ r, r ∈ unexpired tbl now xs ++ again told →
      (∃ e', e = Some e' ∧ e' ≤ deadline_of (rqs w) r + HZ) ∨
      again told = [r] ∧ last xs = Some r ∧ unexpired tbl now xs ≠ [].
Proof.
  intros Ht. pose proof Ht as [Hp Hs En]. pose proof (to_now _ _ (fo_ok _ _ _ Hok)) as Hnow. fold now in Hnow.
  erewrite st_bind_ok by reflexivity. rewrite (proj1 (ts_rest _ _ _ _ _ Hs)).
  pose proof (po_again _ _ _ _ _ _ Hp) as Eag. cbn in Eag.
  assert (∀ r, r ∈ unexpired tbl now xs → deadline_of (rqs w) r = deadline_of tbl r) as Hun.
  { intros r [Hd _]%list_elem_of_filter. eapply deadline_waits; [exact Hs| |].
    - unfold expired. by intros [? _]%list_elem_of_filter.
    - by intros (_ & _ & ?)%(position_again _ _ _ _ _ _ r Hp). }
  pose proof (next_of_spec ((deadline_of tbl <$> unexpired tbl now xs) ++ (due <$> seen))) as Hspec.
  rewrite <-En in Hspec. destruct next as [n|].
  - destruct Hspec as [_ [H1 H2]%Forall_app]. rewrite !Forall_fmap, !Forall_forall in H1, H2.
    destruct (round_jiffies_up_bounds now n (Z.of_nat this_cpu)) as [Hb _];
      [done|by eapply next_range|lia|].
    eexists. split; [reflexivity|]. intros r. rewrite Eag, !elem_of_app. intros [Hr|[Hr|Hr]].
    + left. eexists. split; [done|]. rewrite (Hun r Hr). specialize (H1 r Hr). cbn in H1. lia.
    + left. eexists. split; [done|]. rewrite (deadline_again _ _ _ _ _ r Hs) by (rewrite Eag; lelem).
      specialize (H2 r Hr). cbn in H2. lia.
    + right. destruct (po_lost _ _ _ _ _ _ Hp) as (_ & -> & p & -> & Hlast); [by intros ->; apply elem_of_nil in Hr|].
      apply list_elem_of_singleton in Hr as ->. split_and!; [done|done|]. intros E0. by rewrite E0 in En.
  - apply app_nil in Hspec as [E1%fmap_nil_inv E2%fmap_nil_inv].
    exists (timeout_timer (queue w)). split; [by destruct w as [? ? ? [] ? ? ? ? ?]|].
    intros r. rewrite E1. cbn. intros Hr. left.
    destruct (ts_timer _ _ _ _ _ Hs r Hr) as (e & Ee & He). exists e. split; [done|].
    by rewrite (deadline_again _ _ _ _ _ r Hs Hr).
Qed.
End timer.

(** C38: When the timer of a queue fires, its function returns, whatever the
    driver answers.  The driver is told of exactly the requests whose deadline
    has passed and that had not completed meanwhile, in order.  The requests
    whose time is not up stay on the list untouched; the others leave it marked
    complete.  A request the driver has handled is queued for completion,
    exactly once, one that is to have more time is at the end of the list, not
    marked, with a new deadline, and one the driver takes over is left to it.
    The timer fires within a second of every deadline on the list, except
    that of a request that was the last on the list when it expired and is the
    only one that is given more time.  The driver changes only its own data, and
    the queue has a [softirq_done_fn] and a positive default timeout. *)
Theorem timeout_fires_spec {D} (online : nat → bool) (group : nat → nat) (this_cpu : nat)
    (rq_timed_out : rqid → ST (world D) blk_eh_timer_return)
    (log : D → list (rqid * blk_eh_timer_return)) w xs qs :
  (∀ r w, ∃ a d, rq_timed_out r w = Ok (a, set_elevator_data d w) ∧
     log d = log (elevator_data w) ++ [(r, a)]) →
  (∀ c, online c = true → (c < length qs)%nat) → (this_cpu < length qs)%nat →
  Z.of_nat this_cpu < 2 ^ 32 → fires_ok w xs qs →
  let tbl := rqs w in let now := jiffies w in let dflt := rq_timeout (conf (queue w)) in
  ∃ w' told qs', timeout_fires online group this_cpu rq_timed_out w = Ok (tt, w') ∧
    log (elevator_data w') = log (elevator_data w) ++ told ∧ told.*1 = reported tbl now xs ∧
    is_list (links w') timeout_head (timeout_list <$> unexpired tbl now xs ++ again told) ∧
    (∀ r, rqs w' !! r = outcome dflt now (expired tbl now xs) (again told) r <$> tbl !! r) ∧
    soft_ok w' qs' [] ∧
    concat qs' ++ triggered (irqs w') ≡ₚ (concat qs ++ triggered (irqs w)) ++ handled told ∧
    ∀ r, r ∈ unexpired tbl now xs ++ again told →
      fires_by w' (deadline_of (rqs w') r) ∨
      again told = [r] ∧ last xs = Some r ∧ unexpired tbl now xs ≠ [].
Proof.
  intros Hdrv Hon Hthis Hcpu Hok tbl now dflt. unfold timeout_fires. erewrite st_bind_ok by reflexivity.
  set (w0 := set_queue (set_timeout_timer None (queue w)) w).
  assert (fires_ok w0 xs qs) as Hok0.
  { destruct Hok. constructor; try done; [destruct fo_ok0|destruct fo_soft0]; by constructor. }
  assert (timer_inv log w0 xs qs (2 * length xs) xs None w0) as Hi.
  { exists [], xs, [], [], [], [], qs. rewrite app_nil_r. split_and!; [|done|cbn; lia].
    split; [by constructor| |done]. cbn. rewrite app_nil_r.
    constructor; try done; cbn; rewrite ?app_nil_r; try done; try apply Hok0.
    - intros r. destruct (rqs w !! r); [|done]. cbn.
      unfold outcome. by rewrite !decide_False by apply not_elem_of_nil.
    - by intros r ?%elem_of_nil. }
  unfold blk_rq_timed_out_timer.
  destruct (list_for_each_safe_ok timeout_head timeout_list
    (timed_out_step online group this_cpu rq_timed_out) (timer_inv log w0 xs qs)
    ltac:(done) (timer_inv_next log w0 xs qs)
    (timed_out_step_ok online group this_cpu rq_timed_out log Hdrv w0 xs qs Hok0 Hcpu Hthis Hon)
    (2 * length xs) xs None w0 (to_list _ _ (fo_ok _ _ _ Hok0)) Hi ltac:(lia))
    as (m & next & w1 & E & done & todo & told & seen & rest & lost & qs' & Ht & Enil & _).
  symmetry in Enil. apply app_nil in Enil as [-> ->].
  pose proof (po_xs _ _ _ _ _ _ _ _ (ta_pos _ _ _ _ _ _ _ _ _ _ _ _ _ Ht)) as Exs.
  rewrite app_nil_r in Exs. subst done. st_step E.
  edestruct (timer_end online group this_cpu rq_timed_out log w0 xs qs Hok0 Hcpu Hthis) as (e & E2 & He);
    [exact Ht|].
  eexists _, told, qs'. split; [exact E2|]. destruct Ht as [Hp Hs _]. destruct Hs. wcbn.
  split_and!; try done; [apply Hp|by destruct ts_soft0].
Qed.

(** Starting the timer of a request puts it at the end of the timeout list
    with its deadline set, and leaves the timer armed for every request. *)
Theorem blk_add_timer_arms {D} this_cpu (w : world D) xs r rq :
  Z.of_nat this_cpu < 2 ^ 32 → armed w xs → rq_timed_out_fn (conf (queue w)) ≠ None →
  rqs w !! r = Some rq → r ∉ xs → is_list (links w) (timeout_list r) [] →
  Z.testbit (atomic_flags rq) REQ_ATOM_COMPLETE = false →
  0 ≤ timeout rq < 2 ^ 32 → 0 ≤ rq_timeout (conf (queue w)) < 2 ^ 32 → jiffies w < 2 ^ 61 →
  ∃ w', blk_add_timer this_cpu r w = Ok (tt, w') ∧ armed w' (xs ++ [r]) ∧
    deadline_of (rqs w') r =
      jiffies w + (if timeout rq =? 0 then rq_timeout (conf (queue w)) else timeout rq).
Proof.
  intros Hcpu [Ht Hrange Harm] Hfn Hr Hrx Hself Hflag Hto Hqto Hj. pose proof (to_now _ _ Ht) as Hnow.
  destruct (blk_add_timer_ok this_cpu w xs r rq) as (h & e & E & Hl & _ & He & Hd & Hold);
    try done; [apply Ht|lia|]. cbv zeta in E, Hd. set (rq' := restarted _ _ _) in *.
  eexists. split; [exact E|].
  assert (deadline_of (<[r := rq']> (rqs w)) r = deadline rq') as Edr
    by (unfold deadline_of; by rewrite lookup_insert_eq).
  assert (∀ p, p ∈ xs → deadline_of (<[r := rq']> (rqs w)) p = deadline_of (rqs w) p) as Edp.
  { intros p Hp. unfold deadline_of. rewrite lookup_insert_ne; [done|]. by intros ->. }
  split; [|by wcbn]. constructor; wcbn.
  - constructor; wcbn; [done| |done|].
    + intros p [Hp| ->%list_elem_of_singleton]%elem_of_app; apply lookup_insert_is_Some';
        [right; by apply Ht|by left].
    + intros p [Hp| ->%list_elem_of_singleton]%elem_of_app; [rewrite Edp by done; by apply Ht|].
      rewrite Edr. subst rq'. cbn. destruct (timeout rq =? 0); lia.
  - by intros e1 [= <-].
  - intros p Hp. exists e. split; [done|].
    apply elem_of_app in Hp as [Hp| ->%list_elem_of_singleton]; [|by rewrite Edr].
    rewrite Edp by done. destruct (Harm p Hp) as (e0 & Et & ?). specialize (Hold e0 Et). lia.
Qed.

(** Two requests on the timeout list at time 200, with the given deadlines and
    timeouts; the driver's data is the list of requests it was told of. *)
Definition timed_rq (d t : Z) : request := set_timeout t (set_deadline d (sample_rq 0 0 8)).
Definition timed_world (d1 t1 d2 t2 : Z) : world (list rqid) :=
  {| rqs := {[ Rq 1 := timed_rq d1 t1; Rq 2 := timed_rq d2 t2 ]};
     links := ring_heap timeout_head [timeout_list (Rq 1); timeout_list (Rq 2)];
     hash := [];
     queue := set_conf (set_rq_timed_out_fn (Some 1%positive) sample_conf) sample_queue;
     elevator_data := []; jiffies := 200; kblockd := 0; ended := []; irqs := [] |}.

(** A driver with an answer for each request, which it records.  Requests 1, 2
    and 5 are expired, request 3 is not, and request 4 is expired and complete. *)
Definition answers (r : rqid) : blk_eh_timer_return :=
  match r with
  | Rq 1 => BLK_EH_HANDLED
  | Rq 2 => BLK_EH_RESET_TIMER
  | _ => BLK_EH_NOT_HANDLED
  end.
Definition answering (r : rqid) : ST (world (list (rqid * blk_eh_timer_return))) blk_eh_timer_return :=
  data_upd (λ l, l ++ [(r, answers r)]);; mret (answers r).
Definition firing : list rqid := [Rq 1; Rq 2; Rq 3; Rq 4; Rq 5].
Definition firing_world : world (list (rqid * blk_eh_timer_return)) :=
  {| rqs := {[ Rq 1 := timed_rq 100 500; Rq 2 := timed_rq 150 500; Rq 3 := timed_rq 5000 500;
               Rq 4 := mark (timed_rq 160 500); Rq 5 := timed_rq 170 0 ]};
     links := ring_heap timeout_head (timeout_list <$> firing) ∪
       list_to_map (self_linked <$> blk_cpu_done 0 :: local_list :: (csd_list <$> firing));
     hash := [];
     queue := set_conf (set_rq_timeout 7500 (set_softirq_done_fn (Some 1%positive)
       (set_rq_timed_out_fn (Some 1%positive) sample_conf))) sample_queue;
     elevator_data := []; jiffies := 200; kblockd := 0; ended := []; irqs := [] |}.

Lemma firing_live r : is_Some (rqs firing_world !! r) → r ∈ firing.
Proof. intros Hr%elem_of_dom. unfold firing_world in Hr. wcbn in Hr. set_solver. Qed.

Lemma firing_world_ok : fires_ok firing_world firing [[]].
Proof.
  constructor.
  - constructor.
    + apply (bool_decide_eq_true_1 _). vm_compute. reflexivity.
    + apply Forall_forall. repeat constructor; eexists; reflexivity.
    + cbn. lia.
    + apply Forall_forall. repeat constructor; discriminate.
  - cbn. lia.
  - discriminate.
  - intros r rq Hr. revert rq. pattern r. revert r Hr. apply Forall_forall.
    unfold firing. repeat (apply Forall_cons; split); [intros rq [= <-]; split; discriminate || reflexivity..|apply Forall_nil_2].
  - cbn. lia.
  - constructor.
    + intros [|c] l; cbn; [intros [= <-]|done]. split; [apply NoDup_singleton|split; reflexivity].
    + intros r Hr%firing_live. revert r Hr. apply Forall_forall. repeat constructor; eexists; reflexivity.
    + eexists; reflexivity.
    + intros [|c] l; cbn; [by intros [= <-]|done].
    + apply NoDup_nil_2.
    + intros r. cbn. by rewrite elem_of_nil.
    + intros i. cbn. by rewrite elem_of_nil.
    + discriminate.
  - intros r _ _. apply not_elem_of_nil.
Qed.

Lemma timeout_fires_spec_witness :
  ∃ w' told qs', timeout_fires (λ c, (c =? 0)%nat) id 0 answering firing_world = Ok (tt, w') ∧
    elevator_data w' = told ∧ told.*1 = [Rq 1; Rq 2; Rq 5] ∧
    is_list (links w') timeout_head (timeout_list <$> Rq 3 :: again told) ∧
    concat qs' ++ triggered (irqs w') ≡ₚ handled told.
Proof.
  destruct (timeout_fires_spec (λ c, (c =? 0)%nat) id 0 answering id firing_world firing [[]])
    as (w' & told & qs' & E & Elog & Etold & Hl & _ & _ & Hp & _).
  - intros r w. exists (answers r), (elevator_data w ++ [(r, answers r)]). split; reflexivity.
  - intros c ->%Nat.eqb_eq. cbn. lia.
  - cbn. lia.
  - cbn. lia.
  - exact firing_world_ok.
  - exists w', told, qs'. split_and!; [exact E|exact Elog|exact Etold|exact Hl|exact Hp].
Defined.

Lemma blk_add_timer_arms_witness :
  ∃ w', blk_add_timer 0 (Rq 3) (set_rqs (<[Rq 3 := timed_rq 0 0]> (rqs (timed_world 900 500 5000 500)))
      (set_links (<[timeout_list (Rq 3) := ListHead (Ptr (timeout_list (Rq 3))) (Ptr (timeout_list (Rq 3)))]>
         (links (timed_world 900 500 5000 500)))
      (set_queue (set_timeout_timer (Some 1000) (queue (timed_world 900 500 5000 500)))
         (timed_world 900 500 5000 500)))) = Ok (tt, w') ∧ armed w' [Rq 1; Rq 2; Rq 3].
Proof.
  edestruct (blk_add_timer_arms 0 (set_rqs (<[Rq 3 := timed_rq 0 0]> (rqs (timed_world 900 500 5000 500)))
      (set_links (<[timeout_list (Rq 3) := ListHead (Ptr (timeout_list (Rq 3))) (Ptr (timeout_list (Rq 3)))]>
         (links (timed_world 900 500 5000 500)))
      (set_queue (set_timeout_timer (Some 1000) (queue (timed_world 900 500 5000 500)))
         (timed_world 900 500 5000 500)))) [Rq 1; Rq 2] (Rq 3) (timed_rq 0 0)) as (w' & E & Ha & _).
  - cbn. lia.
  - constructor.
    + constructor.
      * apply (bool_decide_eq_true_1 _). vm_compute. reflexivity.
      * intros r [->|[->|[]%elem_of_nil]%elem_of_cons]%elem_of_cons; eexists; reflexivity.
      * cbn. lia.
      * intros r [->|[->|[]%elem_of_nil]%elem_of_cons]%elem_of_cons; vm_compute; split; discriminate || reflexivity.
    + intros e [= <-]. lia.
    + intros r [->|[->|[]%elem_of_nil]%elem_of_cons]%elem_of_cons; exists 1000; (split; [reflexivity|]);
        vm_compute; discriminate.
  - discriminate.
  - reflexivity.
  - apply (bool_decide_eq_true_1 _). vm_compute. reflexivity.
  - apply (bool_decide_eq_true_1 _). vm_compute. reflexivity.
  - reflexivity.
  - cbn. lia.
  - cbn. lia.
  - cbn. lia.
  - exists w'. split; [exact E|exact Ha].
Defined.

(** A driver that asks for more time for the last request on the list, and for
    no other, can lose it: the function of the timer sets the timer again for the other
    requests, later than [blk_add_timer] had just set it, so that the timer
    fires long after the new deadline. *)
Theorem reset_timer_postponed :
  ∃ w', timeout_fires (λ _, true) id 0 (λ _, mret BLK_EH_RESET_TIMER) (timed_world 20000 500 100 500)
      = Ok (tt, w') ∧
    is_list (links w') timeout_head [timeout_list (Rq 1); timeout_list (Rq 2)] ∧
    deadline_of (rqs w') (Rq 2) = 700 ∧ timeout_timer (queue w') = Some 20250.
Proof.
  let x := eval vm_compute in (timeout_fires (λ _, true) id 0 (λ _, mret BLK_EH_RESET_TIMER)
    (timed_world 20000 500 100 500)) in
  lazymatch x with Ok (_, ?w') => exists w' end.
  split; [vm_compute; reflexivity|]. split; [|split; vm_compute; reflexivity].
  apply (bool_decide_eq_true_1 _). vm_compute. reflexivity.
Qed.
