(* ===== verification/Iopoll.v ===== *)
(** * Interrupt polling ([block/blk-iopoll.c], [include/linux/blk-iopoll.h])

    A driver that polls its device has a [struct blk_iopoll].  It takes it with
    [blk_iopoll_sched_prep], puts it on the list of a CPU with
    [blk_iopoll_sched], and the softirq of that CPU calls the driver's function
    until the driver gives it back with [blk_iopoll_complete].  The bit
    [IOPOLL_F_SCHED] belongs to whoever has the structure.

    Shown is that this works: under every interleaving of the operations a
    structure is on at most one list, and on none while it is disabled; and that
    the softirq returns and leaves no entry behind without being raised again.
    The driver's function and what happens during a sleep are arguments. *)

From S2P Require Import Prelude KList.

Local Open Scope Z_scope.

(** [list] of the structure [i], and the list of a CPU. *)
Inductive iaddr := iop_list (i : positive) | blk_cpu_iopoll (cpu : nat).
#[global] Instance iaddr_eq_dec : EqDecision iaddr.
Proof. solve_decision. Defined.
#[global] Instance iaddr_countable : Countable iaddr.
Proof.
  refine (inj_countable' (λ a, match a with iop_list i => inl i | blk_cpu_iopoll c => inr c end)
    (λ s, match s with inl i => iop_list i | inr c => blk_cpu_iopoll c end) _). by intros [].
Defined.

(** [struct blk_iopoll]; its [poll] is a parameter of the softirq. *)
Record blk_iopoll := BlkIopoll { io_state : Z; io_weight : Z }.
Definition set_io_state (v : Z) (o : blk_iopoll) : blk_iopoll := BlkIopoll v (io_weight o).

Definition IOPOLL_F_SCHED : Z := 0.
Definition IOPOLL_F_DISABLE : Z := 1.

(** [pending]: the CPUs on which [BLOCK_IOPOLL_SOFTIRQ] is raised; [device]: the
    state of the drivers and devices. *)
Record iworld (E : Type) := IWorld {
  iops : gmap positive blk_iopoll;
  ilinks : gmap iaddr (list_head iaddr);
  pending : list nat;
  now : Z;
  device : E
}.
Arguments IWorld {E}.
Arguments iops {E}.
Arguments ilinks {E}.
Arguments pending {E}.
Arguments now {E}.
Arguments device {E}.

Section code.
Context {E : Type}.
Implicit Types (w : iworld E).

Definition set_iops (v : gmap positive blk_iopoll) w : iworld E := IWorld v (ilinks w) (pending w) (now w) (device w).
Definition set_ilinks (v : gmap iaddr (list_head iaddr)) w : iworld E := IWorld (iops w) v (pending w) (now w) (device w).
Definition set_pending (v : list nat) w : iworld E := IWorld (iops w) (ilinks w) v (now w) (device w).

Definition iop_get (i : positive) : ST (iworld E) blk_iopoll := w ← get; lift (deref (iops w !! i)).
Definition iop_upd (i : positive) (f : blk_iopoll → blk_iopoll) : ST (iworld E) unit :=
  o ← iop_get i; modify (λ w, set_iops (<[i := f o]> (iops w)) w).
Definition on_ilinks {X} (m : ST (gmap iaddr (list_head iaddr)) X) : ST (iworld E) X := zoom ilinks set_ilinks m.

(** [set_bit], [clear_bit] and [test_and_set_bit] on [iop->state]. *)
Definition iop_set_bit (bit : Z) (i : positive) : ST (iworld E) unit :=
  iop_upd i (λ o, set_io_state (Z.setbit (io_state o) bit) o).
Definition iop_clear_bit (bit : Z) (i : positive) : ST (iworld E) unit :=
  iop_upd i (λ o, set_io_state (Z.clearbit (io_state o) bit) o).
Definition iop_test_and_set_bit (bit : Z) (i : positive) : ST (iworld E) bool :=
  o ← iop_get i; iop_set_bit bit i;; mret (Z.testbit (io_state o) bit).

Definition raise_iopoll (cpu : nat) : ST (iworld E) unit :=
  modify (λ w, if bool_decide (cpu ∈ pending w) then w else set_pending (pending w ++ [cpu]) w).

(** ** The C functions *)

(** Whether it failed. *)
Definition blk_iopoll_sched_prep (i : positive) : ST (iworld E) bool :=
  o ← iop_get i;
  if negb (Z.testbit (io_state o) IOPOLL_F_DISABLE) then iop_test_and_set_bit IOPOLL_F_SCHED i else mret true.

Definition blk_iopoll_disable_pending (i : positive) : ST (iworld E) bool :=
  o ← iop_get i; mret (Z.testbit (io_state o) IOPOLL_F_DISABLE).

Definition blk_iopoll_sched (cpu : nat) (i : positive) : ST (iworld E) unit :=
  on_ilinks (list_add_tail (Ptr (iop_list i)) (Ptr (blk_cpu_iopoll cpu)));;
  raise_iopoll cpu.

Definition __blk_iopoll_complete (i : positive) : ST (iworld E) unit :=
  on_ilinks (list_del (Ptr (iop_list i)));;
  iop_clear_bit IOPOLL_F_SCHED i.
Definition blk_iopoll_complete (i : positive) : ST (iworld E) unit := __blk_iopoll_complete i.

Definition list_entry_iop (p : ptr iaddr) : res positive :=
  match p with Ptr (iop_list i) => Ok i | _ => Err OOPS end.

Definition blk_iopoll_budget : Z := 256.

Section softirq.
(** [iop->poll(iop, weight)], with the interrupts that come meanwhile. *)
Variable poll : positive → Z → ST (iworld E) Z.

(** The loop of [blk_iopoll_softirq]; returns [rearm]. *)
Fixpoint iopoll_loop (fuel : nat) (cpu : nat) (start_time budget : Z) : ST (iworld E) bool :=
  match fuel with
  | O => raise HANG
  | S fuel =>
    e ← on_ilinks (list_empty (Ptr (blk_cpu_iopoll cpu)));
    if (e : bool) then mret false else
    jiffies ← gets now;
    if (budget <=? 0) || time_after jiffies start_time then mret true else
    n ← on_ilinks (get_next (Ptr (blk_cpu_iopoll cpu)));
    i ← lift (list_entry_iop n);
    o ← iop_get i;
    let weight := io_weight o in
    work ← (if Z.testbit (io_state o) IOPOLL_F_SCHED then poll i weight else mret 0);
    let budget := s32 (budget - work) in
    when (work >=? weight)
      (d ← blk_iopoll_disable_pending i;
       if (d : bool) then __blk_iopoll_complete i
       else on_ilinks (list_move_tail (Ptr (iop_list i)) (Ptr (blk_cpu_iopoll cpu))));;
    iopoll_loop fuel cpu start_time budget
  end.

Definition blk_iopoll_softirq (fuel : nat) (cpu : nat) : ST (iworld E) unit :=
  start_time ← gets now;
  rearm ← iopoll_loop fuel cpu start_time blk_iopoll_budget;
  when rearm (raise_iopoll cpu).
End softirq.

(** [sleeps k]: what happens during the [k]th [msleep(1)]. *)
Fixpoint disable_loop (sleeps : nat → ST (iworld E) unit) (fuel k : nat) (i : positive) : ST (iworld E) unit :=
  match fuel with
  | O => raise HANG
  | S fuel =>
    b ← iop_test_and_set_bit IOPOLL_F_SCHED i;
    if (b : bool) then sleeps k;; disable_loop sleeps fuel (S k) i else mret tt
  end.
Definition blk_iopoll_disable (sleeps : nat → ST (iworld E) unit) (fuel : nat) (i : positive) : ST (iworld E) unit :=
  iop_set_bit IOPOLL_F_DISABLE i;;
  disable_loop sleeps fuel 0 i;;
  iop_clear_bit IOPOLL_F_DISABLE i.

Definition blk_iopoll_enable (i : positive) : ST (iworld E) unit :=
  o ← iop_get i;
  bug_on (negb (Z.testbit (io_state o) IOPOLL_F_SCHED));;
  iop_clear_bit IOPOLL_F_SCHED i.

Definition blk_iopoll_init (i : positive) (weight : Z) : ST (iworld E) unit :=
  modify (λ w, set_iops (<[i := BlkIopoll 0 weight]> (iops w)) w);;
  modify (λ w, set_ilinks (<[iop_list i := ListHead (Ptr (iop_list i)) (Ptr (iop_list i))]> (ilinks w)) w);;
  on_ilinks (INIT_LIST_HEAD (Ptr (iop_list i)));;
  iop_set_bit IOPOLL_F_SCHED i.

Definition CPU_DEAD : Z := 7.
Definition CPU_DEAD_FROZEN : Z := 0x17.

(** The CPU [cpu] runs; [hcpu] is the one the notice is about. *)
Definition blk_iopoll_cpu_notify (cpu : nat) (action : Z) (hcpu : nat) : ST (iworld E) unit :=
  when ((action =? CPU_DEAD) || (action =? CPU_DEAD_FROZEN))
    (on_ilinks (list_splice_init (Ptr (blk_cpu_iopoll hcpu)) (Ptr (blk_cpu_iopoll cpu)));;
     raise_iopoll cpu).

End code.

Section proofs.
Context {E : Type}.
Implicit Types (w : iworld E).

(** ** Running the parts *)
Lemma on_ilinks_ok {X} (m : ST _ X) w x h : m (ilinks w) = Ok (x, h) → on_ilinks m w = Ok (x, set_ilinks h w).
Proof. apply zoom_ok. Qed.
Lemma on_ilinks_read {X} (m : ST _ X) w x : m (ilinks w) = Ok (x, ilinks w) → on_ilinks m w = Ok (x, w).
Proof. intros Em. rewrite (on_ilinks_ok _ _ _ _ Em). by destruct w. Qed.
Lemma iop_get_ok w i o : iops w !! i = Some o → iop_get i w = Ok (o, w).
Proof. intros Ei. unfold iop_get. erewrite st_bind_ok by reflexivity. unfold lift. by rewrite Ei. Qed.
Lemma iop_upd_ok w i o f : iops w !! i = Some o → iop_upd i f w = Ok (tt, set_iops (<[i := f o]> (iops w)) w).
Proof. intros Ei. unfold iop_upd. st_step (iop_get_ok _ _ _ Ei). done. Qed.
Lemma raise_iopoll_ok cpu w : ∃ p, raise_iopoll cpu w = Ok (tt, set_pending p w) ∧ cpu ∈ p ∧ ∀ c, c ∈ pending w → c ∈ p.
Proof.
  unfold raise_iopoll, modify. destruct (bool_decide (cpu ∈ pending w)) eqn:Ep.
  - apply bool_decide_eq_true in Ep. exists (pending w). split; [by destruct w|]. done.
  - eexists. split; [done|]. split; [apply elem_of_app; right; by left|]. intros c Hc. apply elem_of_app. by left.
Qed.

Lemma iop_nodes_disjoint c c' (l l' : list positive) : c ≠ c' → (∀ i, i ∈ l → i ∉ l') →
  ∀ a, a ∈ blk_cpu_iopoll c :: (iop_list <$> l) → a ∉ blk_cpu_iopoll c' :: (iop_list <$> l').
Proof.
  intros Hc Hd a. rewrite !elem_of_cons, !list_elem_of_fmap.
  intros [->|(i & -> & Hi)] [Ea|(j & Ea & Hj)]; simplify_eq; try done. by apply (Hd j).
Qed.

(** ** The softirq *)

(** The entries of a CPU: each taken, with a positive weight. *)
Record polled (cpu : nat) w (xs : list positive) : Prop := {
  po_list : is_list (ilinks w) (blk_cpu_iopoll cpu) (iop_list <$> xs);
  po_iops : ∀ i, i ∈ xs → ∃ o, iops w !! i = Some o ∧ 0 < io_weight o ∧ Z.testbit (io_state o) IOPOLL_F_SCHED = true
}.

Lemma polled_nodup cpu w xs : polled cpu w xs → NoDup xs.
Proof. intros [[Hnd _] _]. apply NoDup_cons in Hnd as [_ Hnd]. by apply NoDup_fmap_1 in Hnd. Qed.

Lemma polled_links cpu w h xs ys : polled cpu w xs → ys ⊆ xs → is_list h (blk_cpu_iopoll cpu) (iop_list <$> ys) →
  polled cpu (set_ilinks h w) ys.
Proof. intros [_ Hi] Hs Hl. split; [done|]. intros i Hy. by apply Hi, Hs. Qed.

(** [__blk_iopoll_complete] of an entry. *)
Lemma complete_polled cpu w i l1 l2 : polled cpu w (l1 ++ i :: l2) →
  ∃ w', __blk_iopoll_complete i w = Ok (tt, w') ∧ polled cpu w' (l1 ++ l2) ∧ now w' = now w ∧ device w' = device w.
Proof.
  intros Hp. pose proof (polled_nodup _ _ _ Hp) as Hnd. apply NoDup_middle in Hnd as [Hi _].
  pose proof (po_list _ _ _ Hp) as Hl. rewrite fmap_app, fmap_cons in Hl.
  destruct (list_del_spec _ _ _ _ _ Hl) as (h & Eh & [Hl' _] & _). rewrite <-fmap_app in Hl'.
  destruct (po_iops _ _ _ Hp i) as (o & Ho & _); [apply elem_of_app; right; by left|].
  eexists. unfold __blk_iopoll_complete, iop_clear_bit. st_step (on_ilinks_ok _ _ _ _ Eh).
  rewrite (iop_upd_ok (set_ilinks h w) i o _ Ho). split; [done|]. split; [|done]. split; [done|]. intros j Hj. simpl.
  rewrite lookup_insert_ne by (intros ->; done). apply (po_iops _ _ _ Hp). apply elem_of_app in Hj as [?|?]; apply elem_of_app; [by left|].
  right. by right.
Qed.

Section drains.
Variables (poll : positive → Z → ST (iworld E) Z) (cpu : nat).
(** How many entries interrupts may still add to the list of this CPU. *)
Variable more : E → nat.

(** What a driver's function does: it uses up its weight and leaves its entry
    alone, or does less and completes the entry.  Interrupts may add others at
    the end. *)
Definition poll_contract : Prop := ∀ w i o xs, polled cpu w (i :: xs) → iops w !! i = Some o →
  ∃ work w' new, poll i (io_weight o) w = Ok (work, w') ∧ 0 ≤ work < 2 ^ 31 ∧ (length new + more (device w') ≤ more (device w))%nat ∧
    (io_weight o ≤ work ∧ polled cpu w' (i :: xs ++ new) ∨ work < io_weight o ∧ polled cpu w' (xs ++ new)).
Hypothesis poll_ok : poll_contract.

(** What follows a call of the driver that used up its weight. *)
Definition after_full (i : positive) : ST (iworld E) unit :=
  d ← blk_iopoll_disable_pending i;
  if (d : bool) then __blk_iopoll_complete i
  else on_ilinks (list_move_tail (Ptr (iop_list i)) (Ptr (blk_cpu_iopoll cpu))).

Lemma after_full_ok w i xs : polled cpu w (i :: xs) →
  ∃ w' ys, after_full i w = Ok (tt, w') ∧ polled cpu w' ys ∧ (length ys ≤ S (length xs))%nat ∧ device w' = device w.
Proof.
  intros Hp. destruct (po_iops _ _ _ Hp i) as (o & Ho & _); [by left|].
  unfold after_full, blk_iopoll_disable_pending. rewrite <-st_bind_assoc. st_step (iop_get_ok _ _ _ Ho).
  erewrite (st_bind_ok (mret _)) by reflexivity. destruct (Z.testbit _ _).
  - destruct (complete_polled cpu w i [] xs Hp) as (w' & Ec & Hp' & _ & Hd). exists w', xs. simpl in Hp'. split_and!; [done|done|lia|done].
  - pose proof (po_list _ _ _ Hp) as Hl. rewrite fmap_cons in Hl.
    destruct (list_move_tail_spec _ _ [] _ _ (iop_list <$> xs) [] Hl) as (h & Eh & Hl' & _); [by rewrite app_nil_r|].
    exists (set_ilinks h w), (xs ++ [i]). split; [by apply on_ilinks_ok|]. split; [|split; [rewrite length_app; simpl; lia|done]].
    apply (polled_links cpu w h (i :: xs)); [done| |by rewrite fmap_app]. intros j. rewrite elem_of_app, !elem_of_cons. set_solver.
Qed.

Lemma iopoll_loop_ok fuel start_time w xs budget : polled cpu w xs → budget ≤ blk_iopoll_budget →
  (Z.to_nat budget + length xs + more (device w) < fuel)%nat →
  ∃ rearm w' xs', iopoll_loop poll fuel cpu start_time budget w = Ok (rearm, w') ∧ polled cpu w' xs' ∧ (rearm = false → xs' = []).
Proof.
  unfold blk_iopoll_budget. revert w xs budget. induction fuel as [|fuel IH]; intros w xs budget Hp Hb Hf; [lia|].
  cbn [iopoll_loop]. st_step (on_ilinks_read _ _ _ (list_empty_spec _ _ _ (po_list _ _ _ Hp))).
  destruct xs as [|i xs]; [rewrite bool_decide_eq_true_2 by done; by exists false, w, []|]. rewrite bool_decide_eq_false_2 by done.
  erewrite (st_bind_ok (gets now)) by reflexivity.
  destruct (Z.leb_spec budget 0) as [|Hb0]; simpl orb; [by exists true, w, (i :: xs)|].
  destruct (time_after (now w) start_time); [by exists true, w, (i :: xs)|]. change (false || false) with false. cbv iota.
  pose proof (po_list _ _ _ Hp) as Hl. rewrite fmap_cons in Hl. pose proof (seg_head _ _ _ _ (proj2 Hl)) as Hn.
  st_step (on_ilinks_read _ _ _ (get_next_ok _ _ _ Hn)). erewrite (st_bind_ok (lift _)) by reflexivity.
  destruct (po_iops _ _ _ Hp i) as (o & Ho & Hw & Hbit); [by left|]. st_step (iop_get_ok _ _ _ Ho). rewrite Hbit.
  destruct (poll_ok w i o xs Hp Ho) as (work & w1 & new & E1 & Hwork & Hmore & Hcase). st_step E1.
  rewrite s32_id by lia. fold (after_full i). destruct Hcase as [[Hfull Hp1]|[Hless Hp1]].
  - destruct (Z.geb_spec work (io_weight o)); [|lia]. cbn [when].
    destruct (after_full_ok _ _ _ Hp1) as (w2 & ys & E2 & Hp2 & Hlen & Hd). st_step E2.
    apply (IH w2 ys); [done|lia|]. rewrite Hd. rewrite length_app in Hlen. simpl in Hf. lia.
  - destruct (Z.geb_spec work (io_weight o)); [lia|]. cbn [when]. erewrite (st_bind_ok (mret tt)) by reflexivity.
    apply (IH w1 (xs ++ new)); [done|lia|]. rewrite length_app. simpl in Hf. lia.
Qed.

(** C29: The softirq returns; what it leaves on the list is still taken, and then the
    softirq is raised again. *)
Theorem iopoll_softirq_leaves_nothing fuel w xs : polled cpu w xs →
  (Z.to_nat blk_iopoll_budget + length xs + more (device w) < fuel)%nat →
  ∃ w' xs', blk_iopoll_softirq poll fuel cpu w = Ok (tt, w') ∧ polled cpu w' xs' ∧ (xs' = [] ∨ cpu ∈ pending w').
Proof.
  intros Hp Hf. unfold blk_iopoll_softirq. erewrite (st_bind_ok (gets now)) by reflexivity.
  destruct (iopoll_loop_ok fuel (now w) w xs blk_iopoll_budget) as (rearm & w1 & xs1 & E1 & Hp1 & Hr); [done|done|done|].
  st_step E1. destruct rearm; cbn [when].
  - destruct (raise_iopoll_ok cpu w1) as (p & E2 & Hc & _). exists (set_pending p w1), xs1. split; [done|]. split; [by destruct Hp1|by right].
  - exists w1, xs1. split; [done|]. split; [done|]. left. by apply Hr.
Qed.
End drains.

(** ** Who has a structure *)

(** Nobody, a driver between [blk_iopoll_sched_prep] and [blk_iopoll_sched], the
    list of a CPU, or whoever disabled it. *)
Inductive owner := Idle | Prepared | Listed (cpu : nat) | Off.
#[local] Instance owner_eq_dec : EqDecision owner.
Proof. solve_decision. Defined.

Definition taken (x : owner) : bool := match x with Idle => false | _ => true end.

Section owners.
(** The CPUs there are. *)
Variable cpus : list nat.
Implicit Types (ow : gmap positive owner) (ls : nat → list positive).

Record owned w ow ls : Prop := {
  ow_lists : ∀ c, c ∈ cpus → is_list (ilinks w) (blk_cpu_iopoll c) (iop_list <$> ls c);
  ow_listed : ∀ c i, c ∈ cpus → i ∈ ls c ↔ ow !! i = Some (Listed c);
  ow_cpu : ∀ c i, ow !! i = Some (Listed c) → c ∈ cpus;
  ow_mapped : ∀ i x, ow !! i = Some x → mapped (ilinks w) (iop_list i);
  ow_bit : ∀ i x, ow !! i = Some x → ∃ o, iops w !! i = Some o ∧ Z.testbit (io_state o) IOPOLL_F_SCHED = taken x
}.

Definition with_list (c : nat) (l : list positive) ls : nat → list positive := λ c', if decide (c' = c) then l else ls c'.
Lemma with_list_eq c l ls : with_list c l ls c = l.
Proof. unfold with_list. by rewrite decide_True. Qed.
Lemma with_list_ne c c' l ls : c' ≠ c → with_list c l ls c' = ls c'.
Proof. intros. unfold with_list. by rewrite decide_False. Qed.

Lemma owned_lists_disjoint w ow ls c c' : owned w ow ls → c ∈ cpus → c' ∈ cpus → c ≠ c' →
  ∀ i, i ∈ ls c → i ∉ ls c'.
Proof.
  intros Ho Hc Hc' Hne i Hi Hi'. apply (ow_listed _ _ _ Ho) in Hi, Hi'; [|done..]. congruence.
Qed.

(** A change of the bits of one structure that agrees with its new owner. *)
Lemma owned_bits w ow ls i x x' o o' : owned w ow ls → ow !! i = Some x → iops w !! i = Some o →
  Z.testbit (io_state o') IOPOLL_F_SCHED = taken x' → (∀ c, x ≠ Listed c) → (∀ c, x' ≠ Listed c) →
  owned (set_iops (<[i := o']> (iops w)) w) (<[i := x']> ow) ls.
Proof.
  intros [Hl Hls Hc Hm Hb] Hi Ho Hbit Hx Hx'. split; simpl.
  - done.
  - intros c j Hcc. rewrite (Hls c j Hcc). destruct (decide (j = i)) as [->|Hne].
    + rewrite lookup_insert_eq, Hi. split; intros [= E0]; [by destruct (Hx c)|by destruct (Hx' c)].
    + by rewrite lookup_insert_ne.
  - intros c j. destruct (decide (j = i)) as [->|Hne].
    + rewrite lookup_insert_eq. intros [= E0]. by destruct (Hx' c).
    + rewrite lookup_insert_ne by done. apply Hc.
  - intros j y. destruct (decide (j = i)) as [->|Hne]; [intros _; by apply (Hm i x)|]. rewrite lookup_insert_ne by done. apply Hm.
  - intros j y. destruct (decide (j = i)) as [->|Hne].
    + rewrite !lookup_insert_eq. intros [= <-]. by exists o'.
    + rewrite !lookup_insert_ne by done. apply Hb.
Qed.

(** A change of other bits. *)
Lemma owned_other_bits w ow ls i o o' : owned w ow ls → iops w !! i = Some o →
  Z.testbit (io_state o') IOPOLL_F_SCHED = Z.testbit (io_state o) IOPOLL_F_SCHED →
  owned (set_iops (<[i := o']> (iops w)) w) ow ls.
Proof.
  intros [Hl Hls Hc Hm Hb] Ho Hbit. split; simpl; try done. intros j y Hj. destruct (Hb j y Hj) as (oj & Hoj & Hbj).
  destruct (decide (j = i)) as [->|Hne].
  - rewrite lookup_insert_eq. exists o'. split; [done|]. assert (oj = o) as -> by congruence. by etrans; [exact Hbit|].
  - rewrite lookup_insert_ne by done. by exists oj.
Qed.

(** A change of the list of one CPU and of the owner of one structure. *)
Lemma owned_relist w ow ls c h l i x x' t o' : owned w ow ls → c ∈ cpus → ow !! i = Some x →
  is_list h (blk_cpu_iopoll c) (iop_list <$> l) → frame (ilinks w) h (iop_list i :: blk_cpu_iopoll c :: (iop_list <$> ls c)) →
  (∀ j, j ≠ i → j ∈ l ↔ j ∈ ls c) → (i ∈ l ↔ x' = Listed c) → (x = Listed c ∨ ∀ c', x ≠ Listed c') →
  (x' = Listed c ∨ ∀ c', x' ≠ Listed c') → t = <[i := o']> (iops w) → Z.testbit (io_state o') IOPOLL_F_SCHED = taken x' →
  owned (set_iops t (set_ilinks h w)) (<[i := x']> ow) (with_list c l ls).
Proof.
  intros Ho Hcc Hi Hl Hf Hj Hil Hx Hx' -> Hbit. pose proof Ho as [Hls Hlisted Hc Hm Hb]. split; simpl.
  - intros c' Hc'. destruct (decide (c' = c)) as [->|Hne]; [by rewrite with_list_eq|]. rewrite with_list_ne by done.
    eapply frame_is_list; [exact Hf|by apply Hls|]. intros a Ha. apply not_elem_of_cons. split.
    + intros ->. apply elem_of_cons in Ha as [?|(j & [= <-] & Hij)%list_elem_of_fmap]; [done|].
      apply (Hlisted c' i Hc') in Hij. rewrite Hi in Hij. injection Hij as ->. destruct Hx as [?|Hx]; [simplify_eq|by destruct (Hx c')].
    + revert a Ha. apply iop_nodes_disjoint; [done|]. by apply (owned_lists_disjoint w ow ls).
  - intros c' j Hc'. destruct (decide (j = i)) as [->|Hne].
    + rewrite lookup_insert_eq. destruct (decide (c' = c)) as [->|Hcne].
      * rewrite with_list_eq, Hil. split; [by intros ->|by intros [= ->]].
      * rewrite with_list_ne, Hlisted, Hi by done. split; intros [= E0]; subst.
        -- destruct Hx as [?|Hx]; [simplify_eq|by destruct (Hx c')].
        -- destruct Hx' as [?|Hx']; [simplify_eq|by destruct (Hx' c')].
    + rewrite lookup_insert_ne by done. rewrite <-Hlisted by done.
      destruct (decide (c' = c)) as [->|Hcne]; [rewrite with_list_eq; by apply Hj|by rewrite with_list_ne].
  - intros c' j. destruct (decide (j = i)) as [->|Hne].
    + rewrite lookup_insert_eq. intros [= ->]. destruct Hx' as [[= ->]|Hx']; [done|by destruct (Hx' c')].
    + rewrite lookup_insert_ne by done. apply Hc.
  - intros j y Hy. eapply frame_mapped; [exact Hf|]. destruct (decide (j = i)) as [->|Hne]; [by apply (Hm i x)|].
    rewrite lookup_insert_ne in Hy by done. by apply (Hm j y).
  - intros j y. destruct (decide (j = i)) as [->|Hne].
    + rewrite !lookup_insert_eq. intros [= <-]. by exists o'.
    + rewrite !lookup_insert_ne by done. apply Hb.
Qed.

(** ** The operations *)
Lemma prep_ok w ow ls i x : owned w ow ls → ow !! i = Some x →
  ∃ b w' , blk_iopoll_sched_prep i w = Ok (b, w') ∧
    (b = false → x = Idle ∧ owned w' (<[i := Prepared]> ow) ls) ∧ (b = true → owned w' ow ls) ∧ (taken x = true → b = true).
Proof.
  intros Ho Hi. destruct (ow_bit _ _ _ Ho i x Hi) as (o & Hio & Hbit). unfold blk_iopoll_sched_prep. st_step (iop_get_ok _ _ _ Hio).
  destruct (Z.testbit (io_state o) IOPOLL_F_DISABLE); cbn [negb]; [by exists true, w|].
  unfold iop_test_and_set_bit, iop_set_bit. st_step (iop_get_ok _ _ _ Hio). st_step (iop_upd_ok _ _ _ (λ o, set_io_state (Z.setbit (io_state o) IOPOLL_F_SCHED) o) Hio).
  rewrite Hbit. eexists _, _. split; [reflexivity|]. split_and!; intros Hx; [|apply (owned_other_bits _ _ _ _ o _ Ho Hio)|done].
  - destruct x; try done. split; [done|]. eapply owned_bits; [exact Ho|exact Hi|exact Hio|apply Z.setbit_eq; done|done|done].
  - simpl io_state. rewrite Z.setbit_eq, Hbit by done. done.
Qed.

Lemma sched_ok w ow ls c i : owned w ow ls → ow !! i = Some Prepared → c ∈ cpus →
  ∃ w', blk_iopoll_sched c i w = Ok (tt, w') ∧ owned w' (<[i := Listed c]> ow) (with_list c (ls c ++ [i]) ls) ∧ c ∈ pending w'.
Proof.
  intros Ho Hi Hc. destruct (ow_bit _ _ _ Ho i _ Hi) as (o & Hio & Hbit). pose proof (ow_lists _ _ _ Ho c Hc) as Hl.
  assert (Hni : i ∉ ls c) by (rewrite (ow_listed _ _ _ Ho c i Hc), Hi; done).
  destruct (list_add_tail_spec (ilinks w) (blk_cpu_iopoll c) (iop_list <$> ls c) [] (iop_list i)) as (h & E1 & Hl' & Hf).
  - by rewrite app_nil_r.
  - rewrite app_nil_r. intros [?|(j & [= <-] & ?)%list_elem_of_fmap]%elem_of_cons; done.
  - by apply (ow_mapped _ _ _ Ho i Prepared).
  - rewrite app_nil_r in Hf. unfold blk_iopoll_sched. st_step (on_ilinks_ok _ _ _ _ E1).
    destruct (raise_iopoll_ok c (set_ilinks h w)) as (p & E2 & Hp & _). exists (set_pending p (set_ilinks h w)).
    split; [done|]. split; [|done].
    assert (owned (set_iops (iops w) (set_ilinks h w)) (<[i := Listed c]> ow) (with_list c (ls c ++ [i]) ls)) as [].
    { eapply (owned_relist w ow ls c h _ i Prepared (Listed c) _ o); [done..|by rewrite fmap_app|done| | | |by left|by rewrite insert_id|done].
      - intros j Hj. rewrite elem_of_app, list_elem_of_singleton. tauto.
      - split; [done|]. intros _. apply elem_of_app. right. by left.
      - by right. }
    by split.
Qed.

Lemma complete_owned w ow ls c i : owned w ow ls → ow !! i = Some (Listed c) →
  ∃ w' l, __blk_iopoll_complete i w = Ok (tt, w') ∧ owned w' (<[i := Idle]> ow) (with_list c l ls).
Proof.
  intros Ho Hi. pose proof (ow_cpu _ _ _ Ho c i Hi) as Hc. destruct (ow_bit _ _ _ Ho i _ Hi) as (o & Hio & Hbit).
  pose proof (ow_lists _ _ _ Ho c Hc) as Hl. apply (ow_listed _ _ _ Ho c i Hc) in Hi as Hic.
  destruct (list_elem_of_split _ _ Hic) as (l1 & l2 & Els). rewrite Els, fmap_app, fmap_cons in Hl.
  assert (i ∉ l1 ++ l2) as Hni.
  { destruct Hl as [Hnd _]. rewrite <-fmap_cons, <-fmap_app in Hnd. apply NoDup_cons in Hnd as [_ Hnd%NoDup_fmap_1].
    by apply NoDup_middle in Hnd as [? _]. }
  destruct (list_del_spec _ _ _ _ _ Hl) as (h & E1 & [Hl' _] & Hf). rewrite <-fmap_app in Hl'.
  unfold __blk_iopoll_complete, iop_clear_bit. st_step (on_ilinks_ok _ _ _ _ E1).
  rewrite (iop_upd_ok (set_ilinks h w) i o _ Hio). eexists _, (l1 ++ l2). split; [reflexivity|].
  eapply (owned_relist w ow ls c h (l1 ++ l2) i (Listed c) Idle); [done..| | | |by left|by right|reflexivity|].
  - rewrite Els, fmap_app, fmap_cons. eapply frame_weaken; [exact Hf|]. intros a. by right.
  - intros j Hj. rewrite Els, !elem_of_app, elem_of_cons. naive_solver.
  - done.
  - simpl io_state. apply Z.clearbit_eq.
Qed.

Lemma iop_rotate_ok w ow ls c i : owned w ow ls → ow !! i = Some (Listed c) →
  ∃ w' l, on_ilinks (list_move_tail (Ptr (iop_list i)) (Ptr (blk_cpu_iopoll c))) w = Ok (tt, w') ∧
    owned w' ow (with_list c l ls).
Proof.
  intros Ho Hi. pose proof (ow_cpu _ _ _ Ho c i Hi) as Hc. destruct (ow_bit _ _ _ Ho i _ Hi) as (o & Hio & Hbit).
  pose proof (ow_lists _ _ _ Ho c Hc) as Hl. apply (ow_listed _ _ _ Ho c i Hc) in Hi as Hic.
  destruct (list_elem_of_split _ _ Hic) as (l1 & l2 & Els). rewrite Els, fmap_app, fmap_cons in Hl.
  destruct (list_move_tail_spec _ _ _ _ _ (iop_list <$> l1 ++ l2) [] Hl) as (h & E1 & Hl' & Hf).
  { by rewrite app_nil_r, fmap_app. }
  exists (set_ilinks h w), ((l1 ++ l2) ++ [i]). split; [by apply on_ilinks_ok|].
  assert (owned (set_iops (iops w) (set_ilinks h w)) (<[i := Listed c]> ow) (with_list c ((l1 ++ l2) ++ [i]) ls)) as Ho'.
  { eapply (owned_relist w ow ls c h _ i (Listed c) (Listed c) _ o); [done..|by rewrite fmap_app| | | |by left|by left|by rewrite insert_id|done].
    - rewrite Els, fmap_app, fmap_cons. eapply frame_weaken; [exact Hf|]. intros a. by right.
    - intros j Hj. rewrite Els, !elem_of_app, !elem_of_cons. pose proof (not_elem_of_nil j). tauto.
    - split; [done|]. intros _. apply elem_of_app. right. by left. }
  by rewrite insert_id in Ho'.
Qed.

(** [set_bit] and [clear_bit] of [IOPOLL_F_DISABLE]. *)
Lemma disable_bit_ok w ow ls i x (v : bool) : owned w ow ls → ow !! i = Some x →
  ∃ w', (if v then iop_set_bit IOPOLL_F_DISABLE i else iop_clear_bit IOPOLL_F_DISABLE i) w = Ok (tt, w') ∧ owned w' ow ls.
Proof.
  intros Ho Hi. destruct (ow_bit _ _ _ Ho i _ Hi) as (o & Hio & _). unfold iop_set_bit, iop_clear_bit.
  destruct v; rewrite (iop_upd_ok _ _ _ _ Hio); (eexists; split; [reflexivity|]); apply (owned_other_bits _ _ _ _ o _ Ho Hio); simpl io_state.
  - by rewrite Z.setbit_neq.
  - by rewrite Z.clearbit_neq.
Qed.

Lemma take_ok w ow ls i x : owned w ow ls → ow !! i = Some x →
  ∃ w', iop_test_and_set_bit IOPOLL_F_SCHED i w = Ok (taken x, w') ∧
    if taken x then owned w' ow ls else owned w' (<[i := Off]> ow) ls.
Proof.
  intros Ho Hi. destruct (ow_bit _ _ _ Ho i x Hi) as (o & Hio & Hbit). unfold iop_test_and_set_bit, iop_set_bit.
  st_step (iop_get_ok _ _ _ Hio). st_step (iop_upd_ok _ _ _ (λ o, set_io_state (Z.setbit (io_state o) IOPOLL_F_SCHED) o) Hio).
  rewrite Hbit. eexists. split; [reflexivity|]. destruct x; cbn [taken].
  - eapply owned_bits; [exact Ho|exact Hi|exact Hio|by apply Z.setbit_eq|done|done].
  - apply (owned_other_bits _ _ _ _ o _ Ho Hio). simpl io_state. by rewrite Z.setbit_eq, Hbit.
  - apply (owned_other_bits _ _ _ _ o _ Ho Hio). simpl io_state. by rewrite Z.setbit_eq, Hbit.
  - apply (owned_other_bits _ _ _ _ o _ Ho Hio). simpl io_state. by rewrite Z.setbit_eq, Hbit.
Qed.

(** The bit alone decides who gets a structure, whatever was read before. *)
Lemma late_prep_ok w ow ls i x w' : owned w ow ls → ow !! i = Some x →
  iop_test_and_set_bit IOPOLL_F_SCHED i w = Ok (false, w') → owned w' (<[i := Prepared]> ow) ls.
Proof.
  intros Ho Hi Er. destruct (ow_bit _ _ _ Ho i x Hi) as (o & Hio & Hbit). unfold iop_test_and_set_bit, iop_set_bit in Er.
  rewrite (st_bind_ok _ _ _ _ _ (iop_get_ok _ _ _ Hio)) in Er.
  rewrite (st_bind_ok _ _ _ _ _ (iop_upd_ok _ _ _ (λ o, set_io_state (Z.setbit (io_state o) IOPOLL_F_SCHED) o) Hio)) in Er.
  rewrite Hbit in Er. injection Er as Ex <-. destruct x; try done.
  eapply owned_bits; [exact Ho|exact Hi|exact Hio|by apply Z.setbit_eq|done|done].
Qed.

Lemma enable_ok w ow ls i : owned w ow ls → ow !! i = Some Off →
  ∃ w', blk_iopoll_enable i w = Ok (tt, w') ∧ owned w' (<[i := Idle]> ow) ls.
Proof.
  intros Ho Hi. destruct (ow_bit _ _ _ Ho i _ Hi) as (o & Hio & Hbit). unfold blk_iopoll_enable, iop_clear_bit.
  st_step (iop_get_ok _ _ _ Hio). rewrite Hbit. erewrite (st_bind_ok (bug_on _)) by reflexivity.
  rewrite (iop_upd_ok _ _ _ _ Hio). eexists. split; [reflexivity|].
  eapply owned_bits; [exact Ho|exact Hi|exact Hio|apply Z.clearbit_eq|done|done].
Qed.

Lemma is_list_fresh h hd xs e v : is_list h hd xs → e ∉ hd :: xs → is_list (<[e := v]> h : gmap iaddr (list_head iaddr)) hd xs.
Proof.
  intros [Hnd Hs] He. split; [done|]. assert (∀ y, y ∈ hd :: xs → (<[e := v]> h : gmap iaddr (list_head iaddr)) !! y = h !! y) as Hy.
  { intros y Hy. apply lookup_insert_ne. by intros ->. }
  eapply seg_frame; [exact Hs| |]; intros y Hin; unfold nxt, prv; rewrite Hy; [done|done|done|].
  apply elem_of_app in Hin as [?| ->%list_elem_of_singleton]; [by right|by left].
Qed.

Lemma init_ok w ow ls i weight : owned w ow ls → ow !! i = None →
  ∃ w', blk_iopoll_init i weight w = Ok (tt, w') ∧ owned w' (<[i := Off]> ow) ls.
Proof.
  intros [Hl Hls Hc Hm Hb] Hi. unfold blk_iopoll_init. erewrite (st_bind_ok (modify _)) by reflexivity.
  erewrite (st_bind_ok (modify _)) by reflexivity.
  set (h0 := <[iop_list i := ListHead (Ptr (iop_list i)) (Ptr (iop_list i))]> (ilinks w)).
  destruct (INIT_LIST_HEAD_spec h0 (iop_list i)) as (h & E1 & _ & Hf).
  { unfold mapped, h0. by rewrite lookup_insert_eq. }
  set (w1 := set_iops (<[i := BlkIopoll 0 weight]> (iops w)) (set_ilinks h w)).
  rewrite (st_bind_ok _ _ _ tt w1) by (exact (on_ilinks_ok _ (set_ilinks h0 (set_iops (<[i := BlkIopoll 0 weight]> (iops w)) w)) tt h E1)).
  unfold iop_set_bit. rewrite (iop_upd_ok w1 i (BlkIopoll 0 weight)) by (apply lookup_insert_eq).
  eexists. split; [reflexivity|]. unfold w1. simpl. split; simpl.
  - intros c Hcc. eapply frame_is_list; [exact Hf| |].
    + apply is_list_fresh; [by apply Hl|]. intros [?|(j & [= <-] & Hj)%list_elem_of_fmap]%elem_of_cons; [done|].
      apply Hls in Hj; [|done]. congruence.
    + intros y Hy ->%list_elem_of_singleton. apply elem_of_cons in Hy as [?|(j & [= <-] & Hj)%list_elem_of_fmap]; [done|].
      apply Hls in Hj; [|done]. congruence.
  - intros c j Hcc. rewrite Hls by done. destruct (decide (j = i)) as [->|Hne]; [by rewrite lookup_insert_eq, Hi|by rewrite lookup_insert_ne].
  - intros c j. destruct (decide (j = i)) as [->|Hne]; [by rewrite lookup_insert_eq|]. rewrite lookup_insert_ne by done. apply Hc.
  - intros j y Hy. eapply frame_mapped; [exact Hf|]. unfold mapped, h0. destruct (decide (j = i)) as [->|Hne]; [by rewrite lookup_insert_eq|].
    rewrite lookup_insert_ne by congruence. rewrite lookup_insert_ne in Hy by done. by apply (Hm j y).
  - intros j y. rewrite insert_insert_eq. destruct (decide (j = i)) as [->|Hne].
    + rewrite !lookup_insert_eq. intros [= <-]. by eexists.
    + rewrite !lookup_insert_ne by done. apply Hb.
Qed.

(** The entries of a CPU that has gone. *)
Definition inherit (c dead : nat) (x : owner) : owner := if decide (x = Listed dead) then Listed c else x.

Lemma splice_lists w ow ls c dead : owned w ow ls → c ∈ cpus → dead ∈ cpus → c ≠ dead →
  ∃ h, list_splice_init (Ptr (blk_cpu_iopoll dead)) (Ptr (blk_cpu_iopoll c)) (ilinks w) = Ok (tt, h) ∧
    is_list h (blk_cpu_iopoll c) (iop_list <$> ls dead ++ ls c) ∧ is_list h (blk_cpu_iopoll dead) [] ∧
    frame (ilinks w) h (blk_cpu_iopoll dead :: (iop_list <$> ls dead) ++ blk_cpu_iopoll c :: (iop_list <$> ls c)).
Proof.
  intros Ho Hc Hd Hne. pose proof (ow_lists _ _ _ Ho c Hc) as Hlc. pose proof (ow_lists _ _ _ Ho dead Hd) as Hld.
  destruct (ls dead) as [|x xs] eqn:Exs.
  - exists (ilinks w). unfold list_splice_init. st_step (list_empty_spec _ _ _ Hld).
    split; [done|]. split; [done|]. split; [done|apply frame_refl].
  - rewrite fmap_cons in Hld.
    destruct (list_splice_init_spec _ _ _ _ _ _ Hld Hlc) as (h & E1 & [H1 H2] & Hf).
    + rewrite <-fmap_cons. apply iop_nodes_disjoint; [done|]. rewrite <-Exs. by apply (owned_lists_disjoint w ow ls).
    + exists h. split; [exact E1|]. rewrite <-fmap_cons, <-fmap_app in H1. split; [exact H1|]. split; [exact H2|exact Hf].
Qed.

Lemma notify_ok w ow ls c dead : owned w ow ls → c ∈ cpus → dead ∈ cpus → c ≠ dead →
  ∃ w' ls', blk_iopoll_cpu_notify c CPU_DEAD dead w = Ok (tt, w') ∧ owned w' (inherit c dead <$> ow) ls' ∧ c ∈ pending w'.
Proof.
  intros Ho Hc Hd Hne. destruct (splice_lists w ow ls c dead Ho Hc Hd Hne) as (h & E1 & Hl1 & Hl2 & Hf).
  unfold blk_iopoll_cpu_notify. change ((CPU_DEAD =? CPU_DEAD) || _) with true. cbn [when]. st_step (on_ilinks_ok _ _ _ _ E1).
  destruct (raise_iopoll_ok c (set_ilinks h w)) as (p & E2 & Hp & _).
  exists (set_pending p (set_ilinks h w)), (with_list dead [] (with_list c (ls dead ++ ls c) ls)).
  split; [done|]. split; [|done]. pose proof Ho as [Hl Hls Hcc Hm Hb]. unfold inherit. split; simpl.
  - intros c' Hc'. destruct (decide (c' = dead)) as [->|Hnd]; [by rewrite with_list_eq|]. rewrite with_list_ne by done.
    destruct (decide (c' = c)) as [->|Hnc]; [by rewrite with_list_eq|]. rewrite with_list_ne by done.
    eapply frame_is_list; [exact Hf|by apply Hl|]. intros a Ha. rewrite app_comm_cons, not_elem_of_app. split; revert a Ha.
    + apply iop_nodes_disjoint; [done|]. by apply (owned_lists_disjoint w ow ls).
    + apply iop_nodes_disjoint; [done|]. by apply (owned_lists_disjoint w ow ls).
  - intros c' j Hc'. rewrite lookup_fmap, fmap_Some.
    destruct (decide (c' = dead)) as [->|Hnd].
    + rewrite with_list_eq. split; [by intros ?%elem_of_nil|]. intros (x & _ & Ex). destruct (decide (x = Listed dead)); congruence.
    + rewrite with_list_ne by done. destruct (decide (c' = c)) as [->|Hnc].
      * rewrite with_list_eq, elem_of_app, !Hls by done. split.
        -- intros [Hj|Hj]; eexists; (split; [exact Hj|]); [by rewrite decide_True|]. rewrite decide_False by congruence. done.
        -- intros (x & Hj & Ex). destruct (decide (x = Listed dead)) as [->|]; [by left|]. right. congruence.
      * rewrite with_list_ne, Hls by done. split.
        -- intros Hj. eexists. split; [exact Hj|]. rewrite decide_False by congruence. done.
        -- intros (x & Hj & Ex). destruct (decide (x = Listed dead)) as [->|]; congruence.
  - intros c' j. rewrite lookup_fmap, fmap_Some. intros (x & Hj & Ex). destruct (decide (x = Listed dead)); [congruence|].
    subst. by apply (Hcc c' j).
  - intros j y. rewrite lookup_fmap, fmap_Some. intros (x & Hj & _). eapply frame_mapped; [exact Hf|]. by apply (Hm j x).
  - intros j y. rewrite lookup_fmap, fmap_Some. intros (x & Hj & ->). destruct (Hb j x Hj) as (o & Hjo & Hbit).
    exists o. split; [done|]. etrans; [exact Hbit|]. by destruct (decide (x = Listed dead)) as [->|].
Qed.

(** ** Interleavings *)

(** One step of somebody.  A driver schedules what it prepared; an entry of a
    list is completed or moved by whoever runs its list; any number of tasks may
    try to take or to disable a structure at any time.  [blk_iopoll_sched_prep]
    is two atomic operations; [step_prep_late] is the second of them when the
    first, the test of [IOPOLL_F_DISABLE], was made in some earlier state. *)
Inductive iostep : iworld E → gmap positive owner → iworld E → gmap positive owner → Prop :=
| step_init w ow i weight w' : ow !! i = None →
    blk_iopoll_init i weight w = Ok (tt, w') → iostep w ow w' (<[i := Off]> ow)
| step_prep w ow i w' : is_Some (ow !! i) →
    blk_iopoll_sched_prep i w = Ok (false, w') → iostep w ow w' (<[i := Prepared]> ow)
| step_prep_fails w ow i w' : is_Some (ow !! i) → blk_iopoll_sched_prep i w = Ok (true, w') → iostep w ow w' ow
| step_prep_late w ow i w' : is_Some (ow !! i) →
    iop_test_and_set_bit IOPOLL_F_SCHED i w = Ok (false, w') → iostep w ow w' (<[i := Prepared]> ow)
| step_sched w ow c i w' : ow !! i = Some Prepared → c ∈ cpus →
    blk_iopoll_sched c i w = Ok (tt, w') → iostep w ow w' (<[i := Listed c]> ow)
| step_complete w ow c i w' : ow !! i = Some (Listed c) →
    __blk_iopoll_complete i w = Ok (tt, w') → iostep w ow w' (<[i := Idle]> ow)
| step_rotate w ow c i w' : ow !! i = Some (Listed c) →
    on_ilinks (list_move_tail (Ptr (iop_list i)) (Ptr (blk_cpu_iopoll c))) w = Ok (tt, w') → iostep w ow w' ow
| step_disable w ow i w' : is_Some (ow !! i) → iop_set_bit IOPOLL_F_DISABLE i w = Ok (tt, w') → iostep w ow w' ow
| step_disable_waits w ow i w' : is_Some (ow !! i) →
    iop_test_and_set_bit IOPOLL_F_SCHED i w = Ok (true, w') → iostep w ow w' ow
| step_disable_takes w ow i w' : is_Some (ow !! i) →
    iop_test_and_set_bit IOPOLL_F_SCHED i w = Ok (false, w') → iostep w ow w' (<[i := Off]> ow)
| step_disable_ends w ow i w' : ow !! i = Some Off → iop_clear_bit IOPOLL_F_DISABLE i w = Ok (tt, w') → iostep w ow w' ow
| step_enable w ow i w' : ow !! i = Some Off → blk_iopoll_enable i w = Ok (tt, w') → iostep w ow w' (<[i := Idle]> ow)
| step_cpu_dead w ow c dead w' : c ∈ cpus → dead ∈ cpus → c ≠ dead →
    blk_iopoll_cpu_notify c CPU_DEAD dead w = Ok (tt, w') → iostep w ow w' (inherit c dead <$> ow)
| step_else w ow w' : iops w' = iops w → ilinks w' = ilinks w → iostep w ow w' ow.

Inductive iosteps : iworld E → gmap positive owner → iworld E → gmap positive owner → Prop :=
| iosteps_refl w ow : iosteps w ow w ow
| iosteps_step w1 ow1 w2 ow2 w3 ow3 : iosteps w1 ow1 w2 ow2 → iostep w2 ow2 w3 ow3 → iosteps w1 ow1 w3 ow3.

Lemma iostep_owned w ow w' ow' ls : iostep w ow w' ow' → owned w ow ls → ∃ ls', owned w' ow' ls'.
Proof.
  intros Hstep Ho. destruct Hstep as [w ow i weight w' Hi Er|w ow i w' [x Hi] Er|w ow i w' [x Hi] Er|w ow i w' [x Hi] Er|w ow c i w' Hi Hc Er|
    w ow c i w' Hi Er|w ow c i w' Hi Er|w ow i w' [x Hi] Er|w ow i w' [x Hi] Er|w ow i w' [x Hi] Er|w ow i w' Hi Er|w ow i w' Hi Er|
    w ow c dead w' Hc Hd Hne Er|w ow w' Ei El].
  - destruct (init_ok w ow ls i weight Ho Hi) as (w2 & E2 & Ho2). exists ls. rewrite Er in E2. by simplify_eq.
  - destruct (prep_ok w ow ls i x Ho Hi) as (b & w2 & E2 & Hf & _ & _). exists ls. rewrite Er in E2. simplify_eq. by apply Hf.
  - destruct (prep_ok w ow ls i x Ho Hi) as (b & w2 & E2 & _ & Ht & _). exists ls. rewrite Er in E2. simplify_eq. by apply Ht.
  - exists ls. by eapply late_prep_ok.
  - destruct (sched_ok w ow ls c i Ho Hi Hc) as (w2 & E2 & Ho2 & _). eexists. rewrite Er in E2. by simplify_eq.
  - destruct (complete_owned w ow ls c i Ho Hi) as (w2 & l & E2 & Ho2). eexists. rewrite Er in E2. by simplify_eq.
  - destruct (iop_rotate_ok w ow ls c i Ho Hi) as (w2 & l & E2 & Ho2). eexists. rewrite Er in E2. by simplify_eq.
  - destruct (disable_bit_ok w ow ls i x true Ho Hi) as (w2 & E2 & Ho2). exists ls. rewrite Er in E2. by simplify_eq.
  - destruct (take_ok w ow ls i x Ho Hi) as (w2 & E2 & Ho2). exists ls. rewrite Er in E2. injection E2 as Ex ->. by rewrite <-Ex in Ho2.
  - destruct (take_ok w ow ls i x Ho Hi) as (w2 & E2 & Ho2). exists ls. rewrite Er in E2. injection E2 as Ex ->. by rewrite <-Ex in Ho2.
  - destruct (disable_bit_ok w ow ls i Off false Ho Hi) as (w2 & E2 & Ho2). exists ls. rewrite Er in E2. by simplify_eq.
  - destruct (enable_ok w ow ls i Ho Hi) as (w2 & E2 & Ho2). exists ls. rewrite Er in E2. by simplify_eq.
  - destruct (notify_ok w ow ls c dead Ho Hc Hd Hne) as (w2 & ls2 & E2 & Ho2 & _). exists ls2. rewrite Er in E2. by simplify_eq.
  - exists ls. destruct Ho as [Hl Hls Hcc Hm Hb]. by split; rewrite ?Ei, ?El.
Qed.

Lemma iosteps_owned w ow w' ow' ls : iosteps w ow w' ow' → owned w ow ls → ∃ ls', owned w' ow' ls'.
Proof. intros Hr. revert ls. induction Hr as [|w1 ow1 w2 ow2 w3 ow3 _ IH Hs]; intros ls Ho; [by exists ls|].
  destruct (IH ls Ho) as [ls2 Ho2]. by eapply iostep_owned. Qed.

(** C28: Whatever the order of the operations, every structure is on at most one list
    and there at most once; it is on the list of a CPU exactly when that CPU has
    it.  No operation of an owner faults, [blk_iopoll_enable] of a disabled
    structure included, and while a structure is taken or disabled
    [blk_iopoll_sched_prep] gives it to nobody else. *)
Theorem iopoll_owned w0 ow0 ls0 w ow : owned w0 ow0 ls0 → iosteps w0 ow0 w ow → ∃ ls,
  (∀ c, c ∈ cpus → is_list (ilinks w) (blk_cpu_iopoll c) (iop_list <$> ls c)) ∧
  (∀ c i, c ∈ cpus → i ∈ ls c ↔ ow !! i = Some (Listed c)) ∧
  (∀ i x, ow !! i = Some x → x ≠ Idle → ∃ w', blk_iopoll_sched_prep i w = Ok (true, w')) ∧
  (∀ i c, ow !! i = Some Prepared → c ∈ cpus → ∃ w', blk_iopoll_sched c i w = Ok (tt, w')) ∧
  (∀ i c, ow !! i = Some (Listed c) → ∃ w', blk_iopoll_complete i w = Ok (tt, w')) ∧
  (∀ i, ow !! i = Some Off → ∃ w', blk_iopoll_enable i w = Ok (tt, w')).
Proof.
  intros Ho0 Hr. destruct (iosteps_owned _ _ _ _ _ Hr Ho0) as [ls Ho]. exists ls. split_and!.
  - apply (ow_lists _ _ _ Ho).
  - apply (ow_listed _ _ _ Ho).
  - intros i x Hi Hx. destruct (prep_ok w ow ls i x Ho Hi) as (b & w' & E2 & _ & _ & Ht). exists w'.
    rewrite E2, Ht; [done|]. by destruct x.
  - intros i c Hi Hc. destruct (sched_ok w ow ls c i Ho Hi Hc) as (w' & E2 & _). by exists w'.
  - intros i c Hi. destruct (complete_owned w ow ls c i Ho Hi) as (w' & l & E2 & _). by exists w'.
  - intros i Hi. destruct (enable_ok w ow ls i Ho Hi) as (w' & E2 & _). by exists w'.
Qed.

(** What others do during a sleep keeps the owners in order, and by the end of
    the [n]th one the structure has been given back. *)
Definition given_back (n : nat) (i : positive) (sleeps : nat → ST (iworld E) unit) : Prop :=
  ∀ k w ow ls, owned w ow ls → is_Some (ow !! i) → ∃ w' ow' ls', sleeps k w = Ok (tt, w') ∧ owned w' ow' ls' ∧
    is_Some (ow' !! i) ∧ (k = n → ow' !! i = Some Idle).

Lemma disable_loop_ok sleeps n i fuel k w ow ls : given_back n i sleeps → owned w ow ls → is_Some (ow !! i) →
  (k ≤ S n)%nat → (k = S n → ow !! i = Some Idle) → (S n - k < fuel)%nat →
  ∃ w' ow' ls', disable_loop sleeps fuel k i w = Ok (tt, w') ∧ owned w' ow' ls' ∧ ow' !! i = Some Off.
Proof.
  intros Hg. revert k w ow ls. induction fuel as [|fuel IH]; intros k w ow ls Ho [x Hi] Hk Hl Hf; [lia|]. cbn [disable_loop].
  destruct (take_ok w ow ls i x Ho Hi) as (w1 & E1 & Ho1). st_step E1. destruct (taken x) eqn:Ex.
  - destruct (Hg k w1 ow ls Ho1) as (w2 & ow2 & ls2 & E2 & Ho2 & Hi2 & Hn); [by exists x|]. st_step E2.
    assert (k ≠ S n) by (intros ->; specialize (Hl eq_refl); rewrite Hi in Hl; injection Hl as ->; done).
    apply (IH (S k) w2 ow2 ls2); [done|done|lia| |lia]. intros [= ->]. by apply Hn.
  - exists w1, (<[i := Off]> ow), ls. split; [done|]. split; [done|]. apply lookup_insert_eq.
Qed.

(** [blk_iopoll_disable] returns once the structure is given back, and then has
    it to itself. *)
Theorem iopoll_disable_returns sleeps n i fuel w ow ls : given_back n i sleeps → owned w ow ls → is_Some (ow !! i) →
  (S n < fuel)%nat →
  ∃ w' ow' ls', blk_iopoll_disable sleeps fuel i w = Ok (tt, w') ∧ owned w' ow' ls' ∧ ow' !! i = Some Off ∧
    ∀ c, c ∈ cpus → i ∉ ls' c.
Proof.
  intros Hg Ho [x Hi] Hf. unfold blk_iopoll_disable. destruct (disable_bit_ok w ow ls i x true Ho Hi) as (w1 & E1 & Ho1). st_step E1.
  destruct (disable_loop_ok sleeps n i fuel 0 w1 ow ls) as (w2 & ow2 & ls2 & E2 & Ho2 & Hi2); [done|done|by exists x|lia|done|lia|].
  st_step E2. destruct (disable_bit_ok w2 ow2 ls2 i Off false Ho2 Hi2) as (w3 & E3 & Ho3).
  exists w3, ow2, ls2. split_and!; [done|done|done|]. intros c Hc. rewrite (ow_listed _ _ _ Ho2 c i Hc), Hi2. done.
Qed.
End owners.
End proofs.

(** ** Instances *)

(** Two CPUs with empty lists. *)
Definition two_cpus : list nat := [0; 1]%nat.
Definition iopoll_start : iworld unit :=
  IWorld ∅ (list_to_map ((λ c, (blk_cpu_iopoll c, ListHead (Ptr (blk_cpu_iopoll c)) (Ptr (blk_cpu_iopoll c)))) <$> two_cpus)) [] 0 ().
Definition iopoll_run (m : ST (iworld unit) unit) (w : iworld unit) : iworld unit := match m w with Ok (_, w') => w' | Err _ => w end.

Lemma start_owned : owned two_cpus iopoll_start ∅ (λ _, []).
Proof.
  split; try done.
  - intros c Hc. unfold two_cpus in Hc. rewrite !elem_of_cons in Hc. destruct Hc as [->|[->|[]%elem_of_nil]];
      apply (bool_decide_eq_true_1 _); vm_compute; reflexivity.
  - intros c i _. rewrite lookup_empty. by split; [intros ?%elem_of_nil|].
Qed.

Definition enabled_one : iworld unit := iopoll_run (blk_iopoll_init 1 64;; blk_iopoll_enable 1) iopoll_start.
Definition taken_one : iworld unit := iopoll_run (_ ← blk_iopoll_sched_prep 1; mret tt) enabled_one.
Definition listed_one : iworld unit := iopoll_run (blk_iopoll_sched 0 1) taken_one.

Definition owner_off : gmap positive owner := <[1%positive := Off]> ∅.
Definition owner_idle : gmap positive owner := <[1%positive := Idle]> owner_off.
Definition owner_prepared : gmap positive owner := <[1%positive := Prepared]> owner_idle.
Definition owner_listed : gmap positive owner := <[1%positive := Listed 0]> owner_prepared.

Lemma iopoll_owned_witness : ∃ ls, is_list (ilinks listed_one) (blk_cpu_iopoll 0) (iop_list <$> ls 0%nat) ∧ 1%positive ∈ ls 0%nat.
Proof.
  destruct (iopoll_owned two_cpus iopoll_start ∅ (λ _, []) listed_one owner_listed start_owned) as (ls & Hl & Hls & _).
  - eapply (iosteps_step two_cpus _ _ taken_one owner_prepared).
    + eapply (iosteps_step two_cpus _ _ enabled_one owner_idle).
      * eapply (iosteps_step two_cpus _ _ (iopoll_run (blk_iopoll_init 1 64) iopoll_start) owner_off).
        -- eapply iosteps_step; [apply iosteps_refl|]. apply (step_init two_cpus iopoll_start ∅ 1 64); vm_compute; reflexivity.
        -- apply (step_enable two_cpus _ owner_off 1); vm_compute; reflexivity.
      * apply (step_prep two_cpus _ owner_idle 1); [by eexists|vm_compute; reflexivity].
    + apply (step_sched two_cpus _ owner_prepared 0 1); [reflexivity|by left|vm_compute; reflexivity].
  - exists ls. split; [apply Hl; by left|]. apply Hls; [by left|reflexivity].
Defined.

(** A driver that finds nothing to do and completes its entry. *)
Definition quiet_poll (i : positive) (weight : Z) : ST (iworld unit) Z := blk_iopoll_complete i;; mret 0.
Lemma quiet_poll_ok : poll_contract quiet_poll 0 (λ _, 0%nat).
Proof.
  intros w i o xs Hp Hi. destruct (complete_polled 0 w i [] xs Hp) as (w' & E1 & Hp' & _).
  exists 0, w', []. unfold quiet_poll, blk_iopoll_complete. st_step E1. simpl. rewrite app_nil_r.
  destruct (po_iops _ _ _ Hp i) as (o' & Ho' & Hw & _); [by left|]. assert (o' = o) as -> by congruence.
  split_and!; [done|lia|lia|lia|]. right. done.
Qed.

Lemma iopoll_softirq_leaves_nothing_witness : ∃ w' xs',
  blk_iopoll_softirq quiet_poll 300 0 listed_one = Ok (tt, w') ∧ polled 0 w' xs' ∧ (xs' = [] ∨ 0%nat ∈ pending w').
Proof.
  apply (iopoll_softirq_leaves_nothing quiet_poll 0 (λ _, 0%nat) quiet_poll_ok 300 listed_one [1%positive]).
  - split.
    + apply (bool_decide_eq_true_1 _). vm_compute. reflexivity.
    + intros i ->%list_elem_of_singleton. eexists. split; [vm_compute; reflexivity|]. split; reflexivity.
  - vm_compute. lia.
Defined.
