(* ===== verification/Tags.v ===== *)
(** * Starting requests and tagged queueing ([block/blk-core.c], [block/blk-tag.c])

    Handing a request to the driver, and the map of tags of a queue.  The
    arrays of the tag map have the size that was allocated for them; an access
    beyond it is a fault.  Whether allocations succeed is an argument.  A map
    shared by several queues is modelled only in its reference count. *)

From S2P Require Import Prelude KList Request Samples Elevator Settings Softirq Timeout.

Local Open Scope Z_scope.

Definition BITS_PER_LONG : Z := 64.
Definition ALIGN (x a : Z) : Z := Z.land (x + (a - 1)) (Z.lnot (a - 1)).

(** [arr[i]] and [arr[i] = v]. *)
Definition arr_get {A} (l : list A) (i : Z) : res A :=
  if i <? 0 then Err OOPS else deref (l !! Z.to_nat i).
Definition arr_set {A} (l : list A) (i : Z) (v : A) : res (list A) :=
  if (i <? 0) || (Z.of_nat (length l) <=? i) then Err OOPS else Ok (<[Z.to_nat i := v]> l).

(** ** Starting requests *)
Section start.
Context {D : Type} (this_cpu : nat).

Definition blk_dequeue_request (r : rqid) : ST (world D) unit :=
  e ← on_links (list_empty (Ptr (queuelist r)));
  bug_on e;;
  h ← gets hash;
  bug_on (ELV_ON_HASH r h);;
  on_links (list_del_init (Ptr (queuelist r)));;
  rq ← rq_get r;
  when (blk_account_rq rq)
    (q_upd (λ q, set_in_flight (upd_sync (λ n, u32 (n + 1)) (rq_is_sync rq) (in_flight q)) q)).

Definition blk_start_request (r : rqid) : ST (world D) unit :=
  blk_dequeue_request r;;
  rq_upd r (λ rq, set_resid_len (blk_rq_bytes rq) rq);;
  rq ← rq_get r;
  match next_rq rq with
  | Some n => rq_upd n (λ rq, set_resid_len (blk_rq_bytes rq) rq)
  | None => mret tt
  end;;
  blk_add_timer this_cpu r.

(** ** The tag map *)
Definition blk_map_queue_find_tag (bqt : option blk_queue_tag) (t : Z) : res (option rqid) :=
  match bqt with
  | None => Ok None
  | Some b => if t >=? real_max_depth b then Ok None else arr_get (tag_index b) t
  end.
Definition blk_queue_find_tag (q : request_queue) (t : Z) : res (option rqid) :=
  blk_map_queue_find_tag (queue_tags q) t.

(** The least index below [size] of a clear (set) bit, or [size]. *)
Fixpoint find_first (b : bool) (l : list bool) (size : Z) : res Z :=
  if size <=? 0 then Ok 0 else
  match l with
  | [] => Err OOPS
  | x :: l => if eqb x b then Ok 0 else n ← find_first b l (size - 1); Ok (n + 1)
  end.
Definition find_first_zero_bit : list bool → Z → res Z := find_first false.
Definition find_first_bit : list bool → Z → res Z := find_first true.

(** Whether the map was freed, and what is left of it. *)
Definition __blk_free_tags (bqt : blk_queue_tag) : res (bool * blk_queue_tag) :=
  let n := refcnt bqt - 1 in
  if n =? 0 then
    i ← find_first_bit (tag_map bqt) (u64 (max_depth bqt));
    if i <? u64 (max_depth bqt) then Err BUG
    else Ok (true, set_refcnt n (set_tag_map [] (set_tag_index [] bqt)))
  else Ok (false, set_refcnt n bqt).

Definition __blk_queue_free_tags : ST (world D) unit :=
  q ← q_get;
  match queue_tags q with
  | None => mret tt
  | Some bqt =>
    _ ← lift (__blk_free_tags bqt);
    q_upd (set_queue_tags None);;
    queue_flag_clear QUEUE_FLAG_QUEUED
  end.

Definition blk_free_tags (bqt : blk_queue_tag) : res unit :=
  '(freed, _) ← __blk_free_tags bqt;
  if negb freed then Err BUG else Ok tt.

Definition blk_queue_free_tags : ST (world D) unit := queue_flag_clear QUEUE_FLAG_QUEUED.

(** Allocations of a negative size fail; [mem1] and [mem2] say whether the two
    others succeed.  [None] is [-ENOMEM]. *)
Definition init_tag_map (nr_requests : option Z) (mem1 mem2 : bool) (depth : Z)
    (tags : blk_queue_tag) : option blk_queue_tag :=
  let depth := match nr_requests with
               | Some nr => if u64 depth >? u64 (nr * 2) then s32 (nr * 2) else depth
               | None => depth
               end in
  if negb mem1 || negb mem2 || (depth <? 0) then None else
  let nr_ulongs := ALIGN depth BITS_PER_LONG / BITS_PER_LONG in
  Some (BlkQueueTag (replicate (Z.to_nat depth) None)
          (replicate (Z.to_nat (nr_ulongs * BITS_PER_LONG)) false) depth depth (refcnt tags)).

Definition __blk_queue_init_tags (nr_requests : option Z) (mem0 mem1 mem2 : bool) (depth : Z) :
    option blk_queue_tag :=
  if negb mem0 then None else
  match init_tag_map nr_requests mem1 mem2 depth (BlkQueueTag [] [] 0 0 0) with
  | None => None
  | Some tags => Some (set_refcnt 1 tags)
  end.
Definition blk_init_tags (mem0 mem1 mem2 : bool) (depth : Z) : option blk_queue_tag :=
  __blk_queue_init_tags None mem0 mem1 mem2 depth.

(** [memcpy(dst, src, n * sizeof)]: [n] entries of [src] over those of [dst]. *)
Definition memcpy {A} (dst src : list A) (n : Z) : res (list A) :=
  let n := Z.to_nat n in
  if (length dst <? n)%nat || (length src <? n)%nat then Err OOPS
  else Ok (take n src ++ drop n dst).

Definition blk_queue_resize_tags (mem1 mem2 : bool) (new_depth : Z) : ST (world D) Z :=
  q ← q_get;
  match queue_tags q with
  | None => mret (- ENXIO)
  | Some bqt =>
    if new_depth <=? real_max_depth bqt then
      q_upd (set_queue_tags (Some (set_max_depth new_depth bqt)));; mret 0
    else if negb (refcnt bqt =? 1) then mret (- EBUSY)
    else
      match init_tag_map (Some (nr_requests (conf q))) mem1 mem2 new_depth bqt with
      | None => mret (- ENOMEM)
      | Some b =>
        idx ← lift (memcpy (tag_index b) (tag_index bqt) (real_max_depth bqt));
        let nr_ulongs := ALIGN (real_max_depth bqt) BITS_PER_LONG / BITS_PER_LONG in
        map ← lift (memcpy (tag_map b) (tag_map bqt) (nr_ulongs * BITS_PER_LONG));
        q_upd (set_queue_tags (Some (set_tag_map map (set_tag_index idx b))));;
        mret 0
      end
  end.

(** [tags] is the map passed in; [same] says whether it is the one the queue has. *)
Definition blk_queue_init_tags (mem0 mem1 mem2 : bool) (depth : Z) (tags : option blk_queue_tag)
    (same : bool) : ST (world D) Z :=
  q ← q_get;
  bug_on (bool_decide (is_Some tags) && bool_decide (is_Some (queue_tags q)) && negb same);;
  let assign (b : blk_queue_tag) : ST (world D) Z :=
    q_upd (set_queue_tags (Some b));;
    queue_flag_set QUEUE_FLAG_QUEUED;;
    on_links (INIT_LIST_HEAD (Ptr tag_busy_list));;
    mret 0 in
  match tags, queue_tags q with
  | None, None =>
    match __blk_queue_init_tags (Some (nr_requests (conf q))) mem0 mem1 mem2 depth with
    | None => mret (- ENOMEM)
    | Some b => assign b
    end
  | _, Some _ =>
    rc ← blk_queue_resize_tags mem1 mem2 depth;
    if negb (rc =? 0) then mret rc else
    queue_flag_set QUEUE_FLAG_QUEUED;;
    mret 0
  | Some b, None => assign (set_refcnt (refcnt b + 1) b)
  end.

Definition blk_queue_end_tag (r : rqid) : ST (world D) unit :=
  q ← q_get;
  bqt ← lift (deref (queue_tags q));
  rq ← rq_get r;
  let t := tag rq in
  bug_on (t =? -1);;
  if t >=? real_max_depth bqt then mret tt else
  on_links (list_del_init (Ptr (queuelist r)));;
  rq_upd r (λ rq, set_cmd_flags (Z.ldiff (cmd_flags rq) REQ_QUEUED) rq);;
  rq_upd r (set_tag (-1));;
  idx ← lift (arr_set (tag_index bqt) t None);
  q_upd (set_queue_tags (Some (set_tag_index idx bqt)));;
  busy ← lift (arr_get (tag_map bqt) t);
  if negb busy then mret tt else
  map ← lift (arr_set (tag_map bqt) t false);
  q_upd (set_queue_tags (Some (set_tag_map map (set_tag_index idx bqt)))).

(** How many tags the request may choose from; [None] if asynchronous requests
    have used up theirs. *)
Definition tag_limit (q : request_queue) (bqt : blk_queue_tag) (rq : request) : option Z :=
  let max_depth := u32 (max_depth bqt) in
  if negb (rq_is_sync rq) && (max_depth >? 1) then
    let max_depth := max_depth - 2 in
    let max_depth := if max_depth =? 0 then 1 else max_depth in
    if fst (in_flight q) >? max_depth then None else Some max_depth
  else Some max_depth.

Definition blk_queue_start_tag (r : rqid) : ST (world D) Z :=
  q ← q_get;
  rq ← rq_get r;
  if tst (cmd_flags rq) REQ_QUEUED then raise BUG else
  bqt ← lift (deref (queue_tags q));
  match tag_limit q bqt rq with
  | None => mret 1
  | Some max_depth =>
    t ← lift (find_first_zero_bit (tag_map bqt) max_depth);
    if t >=? max_depth then mret 1 else
    map ← lift (arr_set (tag_map bqt) t true);
    q_upd (set_queue_tags (Some (set_tag_map map bqt)));;
    rq_upd r (λ rq, set_cmd_flags (Z.lor (cmd_flags rq) REQ_QUEUED) rq);;
    rq_upd r (set_tag t);;
    idx ← lift (arr_set (tag_index bqt) t (Some r));
    q_upd (set_queue_tags (Some (set_tag_index idx (set_tag_map map bqt))));;
    blk_start_request r;;
    on_links (list_add (Ptr (queuelist r)) (Ptr tag_busy_list));;
    mret 0
  end.
End start.

(** ** Facts about the arrays *)
Lemma find_first_spec b l size :
  0 ≤ size ≤ Z.of_nat (length l) →
  ∃ n, find_first b l size = Ok n ∧ 0 ≤ n ≤ size ∧
    (∀ i, (i < Z.to_nat n)%nat → l !! i = Some (negb b)) ∧
    (n < size → l !! Z.to_nat n = Some b).
Proof.
  revert size. induction l as [|x l IH]; intros size Hs; cbn [find_first].
  { destruct (Z.leb_spec size 0); [|cbn in *; lia]. exists 0. split_and!; [done|lia|lia|lia|lia]. }
  destruct (Z.leb_spec size 0); [exists 0; split_and!; [done|lia|lia|lia|lia]|].
  destruct (eqb x b) eqn:E.
  - apply eqb_prop in E as ->. exists 0. split_and!; [done|lia|lia|lia|done].
  - destruct (IH (size - 1)) as (n & -> & Hn & Hlt & Heq); [cbn in *; lia|].
    exists (n + 1). split_and!; [done|lia|lia| |].
    + intros [|i] Hi; [destruct x, b; done|]. cbn. apply Hlt. lia.
    + intros Hlt'. replace (Z.to_nat (n + 1)) with (S (Z.to_nat n)) by lia. apply Heq. lia.
Qed.

Lemma arr_set_ok {A} (l : list A) (i : nat) v :
  (i < length l)%nat → arr_set l (Z.of_nat i) v = Ok (<[i := v]> l).
Proof.
  intros Hi. unfold arr_set. destruct (Z.ltb_spec (Z.of_nat i) 0); [lia|].
  destruct (Z.leb_spec (Z.of_nat (length l)) (Z.of_nat i)); [lia|]. cbn. by rewrite Nat2Z.id.
Qed.
Lemma arr_get_ok {A} (l : list A) (i : nat) v : l !! i = Some v → arr_get l (Z.of_nat i) = Ok v.
Proof.
  intros Hi. unfold arr_get. destruct (Z.ltb_spec (Z.of_nat i) 0); [lia|]. by rewrite Nat2Z.id, Hi.
Qed.

(** Whether tag [t] is given to a request. *)
Definition held (idx : list (option rqid)) (t : nat) : bool :=
  match idx !! t with Some (Some _) => true | _ => false end.

(** The map of tags agrees with the requests [xs] on the busy list. *)
Record tags_ok {D} (w : world D) (bqt : blk_queue_tag) (xs : list rqid) : Prop := {
  tg_map : queue_tags (queue w) = Some bqt;
  tg_list : is_list (links w) tag_busy_list (queuelist <$> xs);
  tg_depth : 0 ≤ max_depth bqt ≤ real_max_depth bqt ∧ real_max_depth bqt < 2 ^ 31;
  tg_index_len : length (tag_index bqt) = Z.to_nat (real_max_depth bqt);
  tg_map_len : (Z.to_nat (real_max_depth bqt) ≤ length (tag_map bqt))%nat;
  tg_busy : ∀ t, (t < Z.to_nat (real_max_depth bqt))%nat →
    tag_map bqt !! t = Some (held (tag_index bqt) t);
  tg_index : ∀ t r, tag_index bqt !! t = Some (Some r) ↔
    r ∈ xs ∧ ∃ rq, rqs w !! r = Some rq ∧ tag rq = Z.of_nat t;
  tg_tagged : ∀ r, r ∈ xs → ∃ rq t, rqs w !! r = Some rq ∧ tag rq = Z.of_nat t ∧
    (t < Z.to_nat (real_max_depth bqt))%nat ∧ tst (cmd_flags rq) REQ_QUEUED = true
}.

Lemma list_busy_spec (h : gmap laddr (list_head laddr)) hd l1 e l2 :
  is_list h hd (l1 ++ e :: l2) → list_empty (Ptr e) h = Ok (false, h).
Proof.
  intros Hl. pose proof (is_list_at _ _ _ _ _ Hl) as [_ Hn].
  unfold list_empty. st_step (get_next_ok _ _ _ Hn). rewrite bool_decide_false; [done|].
  intros [= E]. destruct Hl as [Hnd _]. apply NoDup_cons in Hnd as [Hhd Hnd].
  apply NoDup_app in Hnd as (_ & _ & Hnd). apply NoDup_cons in Hnd as [He _].
  destruct l2 as [|x l2]; cbn in E; subst; [apply Hhd, elem_of_app; right; by left|].
  apply He. by left.
Qed.

Section starting.
Context {D : Type} (this_cpu : nat).
Implicit Types (w : world D).

Definition started (rq : request) (q : request_queue) : request_queue :=
  if blk_account_rq rq
  then set_in_flight (upd_sync (λ n, u32 (n + 1)) (rq_is_sync rq) (in_flight q)) q else q.

Lemma blk_dequeue_request_ok w hd l1 l2 r rq :
  is_list (links w) hd (l1 ++ queuelist r :: l2) → ELV_ON_HASH r (hash w) = false →
  rqs w !! r = Some rq →
  ∃ h, blk_dequeue_request r w = Ok (tt, set_queue (started rq (queue w)) (set_links h w)) ∧
    is_list h hd (l1 ++ l2) ∧ is_list h (queuelist r) [] ∧
    frame (links w) h (hd :: l1 ++ queuelist r :: l2).
Proof.
  intros Hl Hh Hr. destruct (list_del_init_spec _ _ _ _ _ Hl) as (h & E & [L1 L2] & F).
  exists h. split_and!; [|done..]. unfold blk_dequeue_request.
  erewrite st_bind_ok by (apply on_links_read; apply (list_busy_spec _ _ _ _ _ Hl)).
  erewrite (st_bind_ok (bug_on _)) by reflexivity. erewrite (st_bind_ok (gets _)) by reflexivity.
  rewrite Hh. erewrite (st_bind_ok (bug_on _)) by reflexivity.
  rewrite (st_bind_ok _ _ _ _ _ (on_links_ok _ _ _ _ E)).
  erewrite st_bind_ok by (apply rq_get_ok; exact Hr). unfold when, started.
  destruct (blk_account_rq rq); by destruct w.
Qed.

(** A queue whose driver has no timeout function. *)
Lemma blk_start_request_ok w hd l1 l2 r rq :
  is_list (links w) hd (l1 ++ queuelist r :: l2) → ELV_ON_HASH r (hash w) = false →
  rqs w !! r = Some rq → next_rq rq = None → rq_timed_out_fn (conf (queue w)) = None →
  ∃ h, blk_start_request this_cpu r w = Ok (tt,
      set_rqs (<[r := set_resid_len (blk_rq_bytes rq) rq]> (rqs w))
        (set_queue (started rq (queue w)) (set_links h w))) ∧
    is_list h hd (l1 ++ l2) ∧ is_list h (queuelist r) [] ∧
    frame (links w) h (hd :: l1 ++ queuelist r :: l2).
Proof.
  intros Hl Hh Hr Hn Hfn. destruct (blk_dequeue_request_ok w hd l1 l2 r rq Hl Hh Hr)
    as (h & E & L1 & L2 & F). exists h. split_and!; [|done..].
  unfold blk_start_request. st_step E. erewrite st_bind_ok by (apply rq_upd_ok; exact Hr).
  erewrite st_bind_ok by (apply rq_get_ok; apply lookup_insert_eq). cbn [next_rq set_resid_len].
  rewrite Hn. erewrite (st_bind_ok (mret tt)) by reflexivity.
  unfold blk_add_timer. erewrite st_bind_ok by reflexivity. wcbn.
  rewrite bool_decide_true; [done|]. unfold started. by destruct (blk_account_rq rq).
Qed.

(** The request as it is once it has tag [t]. *)
Definition tagged (t : Z) (rq : request) : request :=
  set_tag t (set_cmd_flags (Z.lor (cmd_flags rq) REQ_QUEUED) rq).

Lemma tags_busy_bound w bqt xs t r :
  tags_ok w bqt xs → tag_index bqt !! t = Some (Some r) → (t < Z.to_nat (real_max_depth bqt))%nat.
Proof. intros H Hi%lookup_lt_Some. by rewrite <-(tg_index_len _ _ _ H). Qed.

(** The map with tag [t] given to [r]. *)
Definition give_tag (t : nat) (r : rqid) (bqt : blk_queue_tag) : blk_queue_tag :=
  set_tag_index (<[t := Some r]> (tag_index bqt)) (set_tag_map (<[t := true]> (tag_map bqt)) bqt).
(** The map with tag [t] taken back. *)
Definition take_tag (t : nat) (bqt : blk_queue_tag) : blk_queue_tag :=
  set_tag_map (<[t := false]> (tag_map bqt)) (set_tag_index (<[t := None]> (tag_index bqt)) bqt).

(** Giving tag [t] to a request that has none. *)
Lemma tags_ok_add w bqt xs t r rq w' :
  tags_ok w bqt xs → tag_map bqt !! t = Some false → (t < Z.to_nat (real_max_depth bqt))%nat → r ∉ xs →
  let bqt' := give_tag t r bqt in
  queue_tags (queue w') = Some bqt' →
  rqs w' = <[r := rq]> (rqs w) → tag rq = Z.of_nat t → tst (cmd_flags rq) REQ_QUEUED = true →
  is_list (links w') tag_busy_list (queuelist <$> r :: xs) →
  tags_ok w' bqt' (r :: xs).
Proof.
  intros H Hfree Ht Hr bqt' Eq Er Etag Efl Hl.
  assert (held (tag_index bqt) t = false) as Hh by (pose proof (tg_busy _ _ _ H t Ht); congruence).
  assert (∀ p, p ∈ xs → rqs w' !! p = rqs w !! p) as Hp.
  { intros p Hp. rewrite Er, lookup_insert_ne; [done|]. by intros ->. }
  constructor; cbn; try done.
  - apply H.
  - rewrite length_insert. apply H.
  - rewrite length_insert. apply H.
  - intros t' Ht'. unfold held. pose proof (tg_map_len _ _ _ H).
    destruct (decide (t = t')) as [->|Hne].
    + by rewrite !list_lookup_insert_eq by (rewrite ?(tg_index_len _ _ _ H); lia).
    + rewrite !list_lookup_insert_ne by done. by apply (tg_busy _ _ _ H).
  - intros t' p. rewrite list_lookup_insert, (tg_index_len _ _ _ H), elem_of_cons.
    case_decide as Dt.
    + destruct Dt as [<- _]. split.
      * intros [= <-]. split; [by left|]. exists rq. by rewrite Er, lookup_insert_eq.
      * intros [[->|Hpx] (rq' & Hrq' & Ht')]; [done|]. exfalso.
        rewrite Hp in Hrq' by done.
        assert (tag_index bqt !! t = Some (Some p)) as Hi by (apply (tg_index _ _ _ H); eauto).
        unfold held in Hh. by rewrite Hi in Hh.
    + assert (t ≠ t') as Hne by (intros ->; apply Dt; done). rewrite (tg_index _ _ _ H). split.
      * intros [Hpx (rq' & Hrq' & Ht')]. split; [by right|]. exists rq'. by rewrite Hp.
      * intros [[->|Hpx] (rq' & Hrq' & Ht')].
        { rewrite Er, lookup_insert_eq in Hrq'. simplify_eq. lia. }
        split; [done|]. exists rq'. by rewrite <-Hp.
  - intros p [->|Hpx]%elem_of_cons.
    + exists rq, t. by rewrite Er, lookup_insert_eq.
    + rewrite Hp by done. by apply (tg_tagged _ _ _ H).
Qed.

Lemma tag_limit_le q bqt rq n :
  0 ≤ max_depth bqt < 2 ^ 31 → tag_limit q bqt rq = Some n → 0 ≤ n ≤ max_depth bqt.
Proof.
  intros Hm. unfold tag_limit. rewrite u32_id by lia.
  destruct (_ && _) eqn:E; [|intros [= <-]; lia]. bprop.
  destruct (Z.eqb_spec (max_depth bqt - 2) 0), (fst (in_flight q) >? _); intros E; simplify_eq; lia.
Qed.

Lemma find_first_zero_ok w bqt xs n :
  tags_ok w bqt xs → 0 ≤ n ≤ max_depth bqt →
  ∃ t, find_first_zero_bit (tag_map bqt) n = Ok (Z.of_nat t) ∧ Z.of_nat t ≤ n ∧
    (∀ u, (u < t)%nat → tag_map bqt !! u = Some true) ∧
    (Z.of_nat t < n → tag_map bqt !! t = Some false).
Proof.
  intros H Hn. pose proof (tg_depth _ _ _ H). pose proof (tg_map_len _ _ _ H).
  destruct (find_first_spec false (tag_map bqt) n) as (m & E & Hm & Hlt & Heq); [lia|].
  exists (Z.to_nat m). rewrite Z2Nat.id by lia. split_and!; [done|lia|done|done].
Qed.

(** What is left of the lists when a request moves from the dispatch queue to
    the busy list. *)
Lemma move_to_busy (h h1 : gmap laddr (list_head laddr)) d1 r d2 xs :
  is_list h tag_busy_list (queuelist <$> xs) → (∀ p, p ∈ d1 ++ r :: d2 → p ∉ xs) →
  is_list h1 queue_head (queuelist <$> d1 ++ d2) → is_list h1 (queuelist r) [] → r ∉ d1 ++ d2 →
  frame h h1 (queue_head :: (queuelist <$> d1 ++ r :: d2)) →
  ∃ h2, list_add (Ptr (queuelist r)) (Ptr tag_busy_list) h1 = Ok (tt, h2) ∧
    is_list h2 tag_busy_list (queuelist <$> r :: xs) ∧
    is_list h2 queue_head (queuelist <$> d1 ++ d2).
Proof.
  intros Hb Hd Hq Hself Hr Hf.
  assert (is_list h1 tag_busy_list (queuelist <$> xs)) as Hb1.
  { eapply frame_is_list; [exact Hf|done|]. intros a Ha Hin.
    apply elem_of_cons in Ha as [->|(p & -> & Hp)%list_elem_of_fmap];
      apply elem_of_cons in Hin as [?|(p' & [= <-] & Hp')%list_elem_of_fmap]; try done.
    by apply (Hd p). }
  assert (r ∉ xs) as Hrx by (apply Hd; lelem).
  destruct (list_add_spec h1 tag_busy_list [] (queuelist <$> xs) (queuelist r)) as (h2 & E & L & F);
    [done| |by apply (is_list_mapped _ _ _ Hself); left|].
  { cbn. rewrite not_elem_of_cons. split; [done|]. by intros (y & [= <-] & ?)%list_elem_of_fmap. }
  exists h2. split_and!; [done|by rewrite fmap_cons|].
  eapply frame_is_list; [exact F|done|]. intros a Ha Hin. cbn in Hin.
  apply elem_of_cons in Ha as [->|(p & -> & Hp)%list_elem_of_fmap];
    apply elem_of_cons in Hin as [E'|[?|(p' & [= <-] & Hp')%list_elem_of_fmap]%elem_of_cons]; try done.
  - injection E' as ->. done.
  - apply (Hd p); [|done]. lelem.
Qed.
End starting.

Lemma start_tag_run {D} this_cpu (w : world D) bqt xs d1 r d2 rq :
  tags_ok w bqt xs → is_list (links w) queue_head (queuelist <$> d1 ++ r :: d2) →
  (∀ p, p ∈ d1 ++ r :: d2 → p ∉ xs) → rqs w !! r = Some rq →
  tst (cmd_flags rq) REQ_QUEUED = false → next_rq rq = None → ELV_ON_HASH r (hash w) = false →
  rq_timed_out_fn (conf (queue w)) = None →
  ∃ ret w', blk_queue_start_tag this_cpu r w = Ok (ret, w') ∧
    match tag_limit (queue w) bqt rq with
    | None => ret = 1 ∧ w' = w
    | Some n =>
      (ret = 1 ∧ w' = w ∧ ∀ t, (t < Z.to_nat n)%nat → tag_map bqt !! t = Some true) ∨
      (ret = 0 ∧ ∃ t rq', Z.of_nat t < n ∧ tag_map bqt !! t = Some false ∧
         (∀ u, (u < t)%nat → tag_map bqt !! u = Some true) ∧
         tags_ok w' (give_tag t r bqt) (r :: xs) ∧
         blk_queue_find_tag (queue w') (Z.of_nat t) = Ok (Some r) ∧
         is_list (links w') queue_head (queuelist <$> d1 ++ d2) ∧
         rqs w' = <[r := rq']> (rqs w) ∧ tag rq' = Z.of_nat t)
    end.
Proof.
  intros H Hq Hd Hr Hfl Hn Hh Hfn. pose proof (tg_depth _ _ _ H) as Hdepth.
  unfold blk_queue_start_tag. erewrite st_bind_ok by reflexivity. st_step (rq_get_ok _ _ _ Hr).
  rewrite Hfl, (tg_map _ _ _ H). erewrite st_bind_ok by reflexivity.
  destruct (tag_limit (queue w) bqt rq) as [n|] eqn:El; [|by exists 1, w].
  apply tag_limit_le in El; [|lia].
  destruct (find_first_zero_ok w bqt xs n H) as (t & E & Ht & Hlow & Hfree); [lia|].
  rewrite E. erewrite st_bind_ok by reflexivity. rewrite Z.geb_leb.
  destruct (Z.leb_spec n (Z.of_nat t)).
  { exists 1, w. split; [done|]. left. split_and!; [done..|]. intros u Hu. apply Hlow. lia. }
  specialize (Hfree ltac:(lia)). pose proof (tg_map_len _ _ _ H). pose proof (tg_index_len _ _ _ H).
  rewrite (arr_set_ok (tag_map bqt)), (arr_set_ok (tag_index bqt)) by lia.
  do 2 (erewrite st_bind_ok by reflexivity). erewrite st_bind_ok by (apply rq_upd_ok; exact Hr).
  erewrite st_bind_ok by (apply rq_upd_ok; apply lookup_insert_eq). wcbn. rewrite insert_insert_eq.
  fold (tagged (Z.of_nat t) rq).
  do 2 (erewrite st_bind_ok by reflexivity). wcbn.
  set (bqt' := set_tag_index _ _). set (q1 := set_queue_tags (Some bqt') _).
  set (w1 := set_queue q1 _).
  assert (r ∉ d1 ++ d2) as Hrd.
  { destruct Hq as [Hnd _]. apply NoDup_cons in Hnd as [_ Hnd]. apply NoDup_fmap_1 in Hnd.
    by apply NoDup_middle in Hnd as [? _]. }
  pose proof Hq as Hq'. rewrite fmap_app, fmap_cons in Hq'.
  destruct (blk_start_request_ok this_cpu w1 queue_head (queuelist <$> d1) (queuelist <$> d2) r
    (tagged (Z.of_nat t) rq)) as (h1 & Es & L1 & L2 & F1); [done|done|apply lookup_insert_eq|done|done|].
  st_step Es. unfold w1. wcbn. rewrite insert_insert_eq. rewrite <-fmap_app in L1.
  destruct (move_to_busy (links w) h1 d1 r d2 xs) as (h2 & Ea & L3 & L4);
    [apply H|done|done|done|done|by rewrite fmap_app, fmap_cons|].
  erewrite st_bind_ok by (apply on_links_ok; exact Ea). eexists 0, _. split; [reflexivity|].
  right. split; [done|]. eexists t, _.
  assert (∀ rq0, queue_tags (started rq0 q1) = Some bqt') as Eqt
    by (intros rq0; unfold started; by destruct (blk_account_rq rq0)).
  wcbn. split_and!; [lia|done|done| | |done|reflexivity|done].
  - eapply (tags_ok_add w bqt xs t r); try done; [lia|apply Hd; lelem|by wcbn; rewrite Eqt|].
    cbn. rewrite tst_lor. by rewrite orb_true_r.
  - unfold blk_queue_find_tag, blk_map_queue_find_tag. rewrite Eqt. cbn. rewrite Z.geb_leb.
    destruct (Z.leb_spec (real_max_depth bqt) (Z.of_nat t)); [lia|].
    apply arr_get_ok. apply list_lookup_insert_eq. lia.
Qed.

(** Taking tag [t] back from the request that holds it. *)
Lemma tags_ok_del {D} (w w' : world D) bqt l1 r l2 rq t rq' :
  tags_ok w bqt (l1 ++ r :: l2) → rqs w !! r = Some rq → tag rq = Z.of_nat t →
  (t < Z.to_nat (real_max_depth bqt))%nat →
  queue_tags (queue w') = Some (take_tag t bqt) → rqs w' = <[r := rq']> (rqs w) →
  is_list (links w') tag_busy_list (queuelist <$> l1 ++ l2) →
  tags_ok w' (take_tag t bqt) (l1 ++ l2).
Proof.
  intros H Hr Htag Ht Eq Er Hl.
  assert (r ∉ l1 ++ l2) as Hnin.
  { destruct (tg_list _ _ _ H) as [Hnd _]. apply NoDup_cons in Hnd as [_ Hnd].
    apply NoDup_fmap_1 in Hnd. by apply NoDup_middle in Hnd as [? _]. }
  assert (∀ p, p ∈ l1 ++ l2 → p ∈ l1 ++ r :: l2 ∧ rqs w' !! p = rqs w !! p) as Hp.
  { intros p Hp. split; [lelem|]. rewrite Er, lookup_insert_ne; [done|]. by intros ->. }
  assert (tag_index bqt !! t = Some (Some r)) as Hi.
  { apply (tg_index _ _ _ H). split; [lelem|eauto]. }
  constructor; cbn; try done.
  - apply H.
  - rewrite length_insert. apply H.
  - rewrite length_insert. apply H.
  - intros t' Ht'. unfold held. pose proof (tg_map_len _ _ _ H).
    destruct (decide (t = t')) as [->|Hne].
    + by rewrite !list_lookup_insert_eq by (rewrite ?(tg_index_len _ _ _ H); lia).
    + rewrite !list_lookup_insert_ne by done. by apply (tg_busy _ _ _ H).
  - intros t' p. destruct (decide (t = t')) as [<-|Hne].
    + rewrite list_lookup_insert_eq by (by rewrite (tg_index_len _ _ _ H)). split; [done|].
      intros [Hpx (rq1 & Hrq1 & Ht1)]. exfalso. destruct (Hp p Hpx) as [Hin E]. rewrite E in Hrq1.
      assert (tag_index bqt !! t = Some (Some p)) as Hi' by (apply (tg_index _ _ _ H); eauto).
      simplify_eq. done.
    + rewrite list_lookup_insert_ne, (tg_index _ _ _ H) by done. split.
      * intros [Hpx (rq1 & Hrq1 & Ht1)]. destruct (decide (p = r)) as [->|Hpr].
        { simplify_eq. lia. }
        assert (p ∈ l1 ++ l2) as Hin by lelem. split; [done|]. exists rq1.
        by rewrite (proj2 (Hp p Hin)).
      * intros [Hpx (rq1 & Hrq1 & Ht1)]. destruct (Hp p Hpx) as [Hin E]. rewrite E in Hrq1. eauto.
  - intros p Hpx. destruct (Hp p Hpx) as [Hin ->]. by apply (tg_tagged _ _ _ H).
Qed.

(** A tag in use can be given back. *)
Lemma end_tag_run {D} (w : world D) bqt l1 r l2 rq t :
  tags_ok w bqt (l1 ++ r :: l2) → rqs w !! r = Some rq → tag rq = Z.of_nat t →
  ∃ w' rq', blk_queue_end_tag r w = Ok (tt, w') ∧ tags_ok w' (take_tag t bqt) (l1 ++ l2) ∧
    is_list (links w') (queuelist r) [] ∧ rqs w' = <[r := rq']> (rqs w) ∧ tag rq' = -1 ∧
    tst (cmd_flags rq') REQ_QUEUED = false.
Proof.
  intros H Hr Htag. destruct (tg_tagged _ _ _ H r ltac:(lelem)) as (rq1 & t1 & Hr1 & Ht1 & Ht & _).
  simplify_eq. assert (t1 = t) as -> by lia.
  assert (tag_index bqt !! t = Some (Some r)) as Hi.
  { apply (tg_index _ _ _ H). split; [lelem|eauto]. }
  pose proof (tg_map_len _ _ _ H). pose proof (tg_index_len _ _ _ H).
  pose proof (tg_busy _ _ _ H t Ht) as Hb. unfold held in Hb. rewrite Hi in Hb.
  pose proof (tg_list _ _ _ H) as Hl. rewrite fmap_app, fmap_cons in Hl.
  destruct (list_del_init_spec _ _ _ _ _ Hl) as (h & E & [L1 L2] & _). rewrite <-fmap_app in L1.
  unfold blk_queue_end_tag. erewrite st_bind_ok by reflexivity. rewrite (tg_map _ _ _ H).
  erewrite st_bind_ok by reflexivity. st_step (rq_get_ok _ _ _ Hr). rewrite Htag.
  destruct (Z.eqb_spec (Z.of_nat t) (-1)); [lia|]. erewrite (st_bind_ok (bug_on _)) by reflexivity.
  rewrite Z.geb_leb. destruct (Z.leb_spec (real_max_depth bqt) (Z.of_nat t)); [lia|].
  rewrite (st_bind_ok _ _ _ _ _ (on_links_ok _ _ _ _ E)).
  erewrite st_bind_ok by (apply rq_upd_ok; exact Hr).
  erewrite st_bind_ok by (apply rq_upd_ok; apply lookup_insert_eq). wcbn. rewrite insert_insert_eq.
  rewrite (arr_set_ok (tag_index bqt)), (arr_set_ok (tag_map bqt)), (arr_get_ok _ _ _ Hb) by lia.
  do 3 (erewrite st_bind_ok by reflexivity). cbn [negb]. erewrite st_bind_ok by reflexivity.
  eexists _, _. split; [reflexivity|]. split; [|split_and!; [exact L2|reflexivity|done|]].
  - eapply (tags_ok_del w _ bqt l1 r l2 rq t); done.
  - cbn. unfold tst. apply negb_false_iff, Z.eqb_eq, Z.bits_inj'. intros i Hi'.
    rewrite Z.land_spec, Z.ldiff_spec, Z.bits_0. by destruct (Z.testbit REQ_QUEUED i), (Z.testbit _ i).
Qed.

(** C37: A request that asks for a tag gets the lowest free one below its limit and
    moves from the dispatch queue to the busy list, and looking the tag up
    finds the request; if there is none, or asynchronous requests hold all
    theirs, nothing changes.  Tags stay unique either way. *)
Theorem blk_queue_start_tag_spec {D} this_cpu (w : world D) bqt xs d1 r d2 rq :
  tags_ok w bqt xs → is_list (links w) queue_head (queuelist <$> d1 ++ r :: d2) →
  (∀ p, p ∈ d1 ++ r :: d2 → p ∉ xs) → rqs w !! r = Some rq →
  tst (cmd_flags rq) REQ_QUEUED = false → next_rq rq = None → ELV_ON_HASH r (hash w) = false →
  rq_timed_out_fn (conf (queue w)) = None →
  ∃ ret w', blk_queue_start_tag this_cpu r w = Ok (ret, w') ∧
    match tag_limit (queue w) bqt rq with
    | None => ret = 1 ∧ w' = w
    | Some n =>
      (ret = 1 ∧ w' = w ∧ ∀ t, (t < Z.to_nat n)%nat → tag_map bqt !! t = Some true) ∨
      (ret = 0 ∧ ∃ t bqt', Z.of_nat t < n ∧ tag_map bqt !! t = Some false ∧
         (∀ u, (u < t)%nat → tag_map bqt !! u = Some true) ∧
         tags_ok w' bqt' (r :: xs) ∧ blk_queue_find_tag (queue w') (Z.of_nat t) = Ok (Some r) ∧
         is_list (links w') queue_head (queuelist <$> d1 ++ d2))
    end.
Proof.
  intros H Hq Hd Hr Hfl Hn Hh Hfn.
  destruct (start_tag_run this_cpu w bqt xs d1 r d2 rq H Hq Hd Hr Hfl Hn Hh Hfn) as (ret & w' & E & Hc).
  exists ret, w'. split; [done|]. destruct (tag_limit (queue w) bqt rq) as [n|]; [|done].
  destruct Hc as [?|(? & t & rq' & ? & ? & ? & ? & ? & ? & _)]; [by left|]. right. eauto 10.
Qed.

(** Ending the tag of a request that was just given one restores the map of
    tags, leaves the request on no list and without a tag, and the tag finds
    nothing any more. *)
Theorem blk_queue_tag_roundtrip {D} this_cpu (w : world D) bqt xs d1 r d2 rq w1 :
  tags_ok w bqt xs → is_list (links w) queue_head (queuelist <$> d1 ++ r :: d2) →
  (∀ p, p ∈ d1 ++ r :: d2 → p ∉ xs) → rqs w !! r = Some rq →
  tst (cmd_flags rq) REQ_QUEUED = false → next_rq rq = None → ELV_ON_HASH r (hash w) = false →
  rq_timed_out_fn (conf (queue w)) = None → blk_queue_start_tag this_cpu r w = Ok (0, w1) →
  ∃ w2 t rq', rqs w1 !! r = Some rq' ∧ tag rq' = t ∧ blk_queue_find_tag (queue w1) t = Ok (Some r) ∧
    blk_queue_end_tag r w1 = Ok (tt, w2) ∧ tags_ok w2 bqt xs ∧
    blk_queue_find_tag (queue w2) t = Ok None ∧ is_list (links w2) (queuelist r) [].
Proof.
  intros H Hq Hd Hr Hfl Hn Hh Hfn E1.
  destruct (start_tag_run this_cpu w bqt xs d1 r d2 rq H Hq Hd Hr Hfl Hn Hh Hfn) as (ret & w' & E & Hc).
  rewrite E1 in E. injection E as <- <-.
  destruct (tag_limit (queue w) bqt rq) as [n|] eqn:El; [|by destruct Hc].
  destruct Hc as [[? _]|(_ & t & rq' & Hlt & Hfree & _ & H1 & Hfind & _ & R1 & Htag)]; [done|].
  pose proof (tg_depth _ _ _ H). apply tag_limit_le in El; [|lia].
  assert (rqs w1 !! r = Some rq') as Hr1 by (by rewrite R1, lookup_insert_eq).
  destruct (end_tag_run w1 (give_tag t r bqt) [] r xs rq' t) as (w2 & rq2 & E2 & H2 & L2 & R2 & T2 & _);
    [done..|]. cbn [app] in H2.
  assert (tag_index bqt !! t = Some None) as Hi.
  { pose proof (tg_busy _ _ _ H t ltac:(lia)) as Hb. unfold held in Hb. rewrite Hfree in Hb.
    destruct (lookup_lt_is_Some_2 (tag_index bqt) t) as [o Ho]; [rewrite (tg_index_len _ _ _ H); lia|].
    rewrite Ho in Hb. by destruct o. }
  assert (take_tag t (give_tag t r bqt) = bqt) as Eb.
  { unfold take_tag, give_tag. cbn. rewrite !list_insert_insert_eq, (list_insert_id _ t None),
      (list_insert_id _ t false) by done. by destruct bqt. }
  rewrite Eb in H2. exists w2, (Z.of_nat t), rq'. split_and!; try done.
  unfold blk_queue_find_tag, blk_map_queue_find_tag. rewrite (tg_map _ _ _ H2).
  destruct (_ >=? _); [done|]. by apply arr_get_ok.
Qed.

(** A queue with four tags, one of them in use, and a read on the dispatch
    queue. *)
Definition four_tags : blk_queue_tag :=
  BlkQueueTag [Some (Rq 1); None; None; None] (true :: replicate 63 false) 4 4 1.
Definition tag_world : world unit :=
  {| rqs := {[ Rq 1 := tagged 0 (sample_rq 0 0 8); Rq 2 := sample_rq 0 8 8 ]};
     links := ring_heap queue_head [queuelist (Rq 2)] ∪ ring_heap tag_busy_list [queuelist (Rq 1)];
     hash := []; queue := set_queue_tags (Some four_tags) sample_queue;
     elevator_data := tt; jiffies := 0; kblockd := 0; ended := []; irqs := [] |}.

Lemma tag_world_ok : tags_ok tag_world four_tags [Rq 1].
Proof.
  constructor.
  - reflexivity.
  - apply (bool_decide_eq_true_1 _). vm_compute. reflexivity.
  - cbn. lia.
  - reflexivity.
  - cbn. lia.
  - intros [|[|[|[|t]]]] Ht; try reflexivity. cbn in Ht. lia.
  - intros t r. split.
    + intros Ht. assert (t = 0%nat ∧ r = Rq 1) as [-> ->].
      { destruct t as [|[|[|[|t]]]]; cbn in Ht; simplify_eq; done. }
      split; [by left|]. exists (tagged 0 (sample_rq 0 0 8)). split; reflexivity.
    + intros [->%list_elem_of_singleton (rq & Hr & Ht)].
      assert (rqs tag_world !! Rq 1 = Some (tagged 0 (sample_rq 0 0 8))) as Hr' by reflexivity.
      assert (rq = tagged 0 (sample_rq 0 0 8)) as -> by congruence.
      assert (t = 0%nat) as -> by (cbn in Ht; lia). reflexivity.
  - intros r ->%list_elem_of_singleton. exists (tagged 0 (sample_rq 0 0 8)), 0%nat.
    split_and!; [reflexivity|reflexivity|cbn; lia|reflexivity].
Qed.

Lemma tag_world_dispatch :
  is_list (links tag_world) queue_head (queuelist <$> [] ++ Rq 2 :: []) ∧
  (∀ p, p ∈ [] ++ Rq 2 :: [] → p ∉ [Rq 1]).
Proof.
  split; [apply (bool_decide_eq_true_1 _); vm_compute; reflexivity|].
  intros p ->%list_elem_of_singleton ?%list_elem_of_singleton. done.
Qed.

Lemma blk_queue_start_tag_spec_witness :
  ∃ ret w', blk_queue_start_tag 0 (Rq 2) tag_world = Ok (ret, w') ∧
    (ret = 0 ∧ ∃ t bqt', Z.of_nat t < 4 ∧ tags_ok w' bqt' [Rq 2; Rq 1]).
Proof.
  destruct (blk_queue_start_tag_spec 0 tag_world four_tags [Rq 1] [] (Rq 2) [] (sample_rq 0 8 8))
    as (ret & w' & E & Hc); try reflexivity; try apply tag_world_dispatch; [apply tag_world_ok|].
  exists ret, w'. split; [exact E|].
  assert (tag_limit (queue tag_world) four_tags (sample_rq 0 8 8) = Some 4) as El by reflexivity.
  rewrite El in Hc. destruct Hc as [(_ & _ & Hfull)|(Hret & t & bqt' & Ht & _ & _ & Hok & _)].
  - specialize (Hfull 1%nat ltac:(cbn; lia)). discriminate Hfull.
  - split; [exact Hret|]. exists t, bqt'. split; [exact Ht|exact Hok].
Defined.

Definition tag_started : world unit :=
  match blk_queue_start_tag 0 (Rq 2) tag_world with Ok (_, w) => w | Err _ => tag_world end.

Lemma blk_queue_tag_roundtrip_witness :
  ∃ w2, blk_queue_start_tag 0 (Rq 2) tag_world = Ok (0, tag_started) ∧
    blk_queue_end_tag (Rq 2) tag_started = Ok (tt, w2) ∧ tags_ok w2 four_tags [Rq 1].
Proof.
  assert (blk_queue_start_tag 0 (Rq 2) tag_world = Ok (0, tag_started)) as E1
    by (vm_compute; reflexivity).
  destruct (blk_queue_tag_roundtrip 0 tag_world four_tags [Rq 1] [] (Rq 2) [] (sample_rq 0 8 8)
    tag_started tag_world_ok (proj1 tag_world_dispatch) (proj2 tag_world_dispatch) eq_refl eq_refl eq_refl
    eq_refl eq_refl E1) as (w2 & t & rq' & _ & _ & _ & E2 & H2 & _).
  exists w2. split; [exact E1|split; [exact E2|exact H2]].
Defined.

(** Growing the map of tags can write beyond its end: the new depth is cut to
    twice [nr_requests], which may have been lowered since the map was made, but
    the old entries are all copied.  Here a map of 16 tags is made while there
    are 8 requests, [nr_requests] is then set to 4, and 17 tags are asked for. *)
Theorem resize_tags_overflows :
  let with_requests (n : Z) (w : world unit) :=
    set_queue (set_conf (set_nr_requests n (conf (queue w))) (queue w)) w in
  ∃ w, blk_queue_init_tags true true true 16 None false
      (with_requests 8 (set_queue sample_queue tag_world)) = Ok (0, w) ∧
    blk_queue_resize_tags true true 17 (with_requests 4 w) = Err OOPS.
Proof.
  eexists. split; [vm_compute; reflexivity|]. vm_compute. reflexivity.
Qed.
