(* ===== verification/Complete.v ===== *)
(** * Completing requests ([block/blk-core.c], [block/blk-barrier.c])

    Ending the bios of a request as bytes are transferred, finishing the
    request, and the bookkeeping of an ordered sequence, which completions
    advance.  A bio is shared by every request whose chain holds its address, so
    writing one changes it in all of them.  The statistics of the disk, the
    laptop-mode timer and [rq->buffer] are not modelled; completion callbacks
    other than those of ordered sequences are a parameter. *)

From S2P Require Import Prelude KList Request Samples Elevator Settings Segments ReqList Softirq.
From S2P Require Import Timeout Tags.

Local Open Scope Z_scope.

(** ** Ending bios *)
Section bios.
Context {D : Type}.

(** A write to the bio [b]: every chain that holds it sees the new contents. *)
Definition store_bio (b c : bio) : bio := if decide (bi_id c = bi_id b) then b else c.
Definition bio_write (b : bio) : ST (world D) unit :=
  modify (λ w, set_rqs ((λ rq, set_bios (store_bio b <$> bios rq) rq) <$> rqs w) w).

(** The flags of a bio and the error its owner is told, once it ends with [error]. *)
Definition end_flags (b : bio) (error : Z) : bio * Z :=
  if negb (error =? 0) then (set_bi_flags (Z.clearbit (bi_flags b) BIO_UPTODATE) b, error)
  else if negb (test_bit BIO_UPTODATE (bi_flags b)) then (b, - EIO)
  else (b, error).

Definition bio_endio (b : bio) (error : Z) : ST (world D) unit :=
  let '(b, error) := end_flags b error in
  bio_write b;;
  modify (λ w, set_ended ((b, error) :: ended w) w).

Definition req_bio_endio (r : rqid) (b : bio) (nbytes error : Z) : ST (world D) unit :=
  if bool_decide (bar_rq ≠ r) then
    let '(b, error) := end_flags b error in
    let nbytes := if nbytes >? bi_size b then bi_size b else nbytes in
    rq ← rq_get r;
    let b := if tst (cmd_flags rq) REQ_QUIET
             then set_bi_flags (Z.setbit (bi_flags b) BIO_QUIET) b else b in
    let b := set_bi_size (u32 (bi_size b - nbytes)) b in
    let b := set_bi_sector (u64 (bi_sector b + Z.shiftr nbytes 9)) b in
    bio_write b;;
    when (bi_size b =? 0) (bio_endio b error)
  else
    q ← q_get;
    when (negb (error =? 0) && (orderr q =? 0)) (q_upd (set_orderr error)).

(** ** Completing part of a request *)

Fixpoint err_bytes (ff : Z) (bs : list bio) : Z :=
  match bs with
  | [] => 0
  | b :: bs => if negb (Z.land (bi_rw b) ff =? ff) then 0 else u32 (bi_size b + err_bytes ff bs)
  end.
Definition blk_rq_err_bytes (rq : request) : res Z :=
  let ff := Z.land (cmd_flags rq) REQ_FAILFAST_MASK in
  if negb (tst (cmd_flags rq) REQ_MIXED_MERGE) then Ok (blk_rq_bytes rq) else
  let bytes := err_bytes ff (bios rq) in
  if negb (blk_rq_bytes rq =? 0) && (bytes =? 0) then Err BUG else Ok bytes.

(** The variables of the loop of [blk_update_request]. *)
Record update_state := UpdateState {
  nr_bytes : Z;
  total_bytes : Z;
  bio_nbytes : Z;
  next_idx : Z
}.

Fixpoint update_loop (r : rqid) (error : Z) (fuel : nat) (s : update_state) :
    ST (world D) update_state :=
  match fuel with
  | O => raise HANG
  | S fuel =>
    rq ← rq_get r;
    match bios rq with
    | [] => mret s
    | b :: rest =>
      if nr_bytes s >=? bi_size b then
        let nbytes := bi_size b in
        rq_upd r (set_bios rest);;
        req_bio_endio r b nbytes error;;
        let s := UpdateState (u32 (nr_bytes s - nbytes)) (s32 (total_bytes s + nbytes)) 0 0 in
        rq ← rq_get r;
        if negb (bool_decide (bios rq = [])) && (nr_bytes s <=? 0) then mret s
        else update_loop r error fuel s
      else
        let idx := bi_idx b + next_idx s in
        if idx >=? bi_vcnt b then mret s else
        v ← lift (deref (bio_iovec_idx b idx));
        let nbytes := bv_len v in
        bug_on (nbytes >? bi_size b);;
        if nbytes >? nr_bytes s then
          mret (UpdateState (nr_bytes s) (s32 (total_bytes s + nr_bytes s))
                  (s32 (bio_nbytes s + nr_bytes s)) (next_idx s))
        else
          let s := UpdateState (u32 (nr_bytes s - nbytes)) (s32 (total_bytes s + nbytes))
                     (s32 (bio_nbytes s + nbytes)) (next_idx s + 1) in
          if nr_bytes s <=? 0 then mret s else update_loop r error fuel s
    end
  end.

(** [bio->bi_idx += next_idx], and the vector it then points to loses the bytes
    transferred of it. *)
Definition advance_bio (s : update_state) (b : bio) : res bio :=
  let b := set_bi_idx (u16 (bi_idx b + next_idx s)) b in
  v ← deref (bio_iovec b);
  let v := BioVec (bv_page v) (u32 (bv_len v - nr_bytes s)) (u32 (bv_offset v + nr_bytes s)) in
  Ok (set_bi_io_vec (<[Z.to_nat (bi_idx b) := v]> (bi_io_vec b)) b).

(** What [blk_update_request] does to a request that has more data: the fields
    of the request, before its segments are counted. *)
Definition advance_rq (total : Z) (rq : request) : res request :=
  let rq := set___data_len (u32 (blk_rq_bytes rq - total)) rq in
  let rq := if blk_fs_request rq || blk_discard_rq rq
            then set___sector (u64 (__sector rq + Z.shiftr total 9)) rq else rq in
  b ← deref (head (bios rq));
  let rq := if tst (cmd_flags rq) REQ_MIXED_MERGE
            then set_cmd_flags (Z.lor (Z.ldiff (cmd_flags rq) REQ_FAILFAST_MASK)
                                  (Z.land (bi_rw b) REQ_FAILFAST_MASK)) rq
            else rq in
  cur ← blk_rq_cur_bytes rq;
  Ok (if blk_rq_bytes rq <? cur then set___data_len cur rq else rq).

Definition loop_fuel (bs : list bio) : nat :=
  S (sum_list_with (λ b, S (length (bi_io_vec b))) bs).

(** The bio the transfer stopped in is ended up to there. *)
Definition update_middle (r : rqid) (error : Z) (s : update_state) (b : bio) : ST (world D) unit :=
  when (negb (bio_nbytes s =? 0))
    (req_bio_endio r b (u32 (bio_nbytes s)) error;;
     rq ← rq_get r;
     b ← lift (deref (head (bios rq)));
     b ← lift (advance_bio s b);
     bio_write b).

(** After the loop. *)
Definition update_rest (r : rqid) (error : Z) (s : update_state) : ST (world D) bool :=
  rq ← rq_get r;
  match bios rq with
  | [] => rq_upd r (set___data_len 0);; mret false
  | b :: _ =>
    update_middle r error s b;;
    rq ← rq_get r;
    rq ← lift (advance_rq (total_bytes s) rq);
    q ← q_get;
    let rq := blk_recalc_rq_segments q rq in
    rq_upd r (λ _, rq);;
    mapM bio_write (bios rq);;
    mret true
  end.

Definition blk_update_request (r : rqid) (error nr : Z) : ST (world D) bool :=
  rq ← rq_get r;
  if bool_decide (bios rq = []) then mret false else
  when (blk_fs_request rq) (rq_upd r (set_errors 0));;
  s ← update_loop r error (loop_fuel (bios rq)) (UpdateState nr 0 0 0);
  update_rest r error s.

Definition blk_bidi_rq (rq : request) : bool := bool_decide (is_Some (next_rq rq)).

Definition blk_update_bidi_request (r : rqid) (error nr bidi_bytes : Z) : ST (world D) bool :=
  more ← blk_update_request r error nr;
  if (more : bool) then mret true else
  rq ← rq_get r;
  match next_rq rq with
  | None => mret false
  | Some n => more ← blk_update_request n error bidi_bytes; if (more : bool) then mret true else mret false
  end.
End bios.

(** ** Ordered sequences: completing a step ([block/blk-barrier.c]) *)

(** [ffz(x)]: the number of the first zero bit. *)
Fixpoint ffz (fuel : nat) (x : Z) : Z :=
  match fuel with
  | O => 0
  | S fuel => if Z.odd x then 1 + ffz fuel (Z.shiftr x 1) else 0
  end.
Definition blk_ordered_cur_seq (q : request_queue) : Z :=
  if ordseq q =? 0 then 0 else Z.shiftl 1 (ffz 64 (ordseq q)).

(** ** Finishing requests

    Completing the last step of an ordered sequence ends the barrier request it
    stands for, so these functions call each other; [end_all] is the recursive
    call of [__blk_end_request_all]. *)
Section finish.
Context {D : Type} (ops : elevator_ops D) (request_fn : ST (world D) unit).
Context (call_end_io : positive → rqid → Z → ST (world D) unit).

Section rec.
Context (end_all : rqid → Z → ST (world D) unit).

Definition blk_ordered_complete_seq (seq error : Z) : ST (world D) bool :=
  q ← q_get;
  when (negb (error =? 0) && (orderr q =? 0)) (q_upd (set_orderr error));;
  q ← q_get;
  bug_on (tst (ordseq q) seq);;
  q_upd (λ q, set_ordseq (Z.lor (ordseq q) seq) q);;
  q ← q_get;
  if negb (blk_ordered_cur_seq q =? QUEUE_ORDSEQ_DONE) then mret false else
  q_upd (set_ordseq 0);;
  q ← q_get;
  rq ← lift (deref (orig_bar_rq q));
  end_all rq (orderr q);;
  mret true.

Definition elv_completed_request (r : rqid) : ST (world D) unit :=
  rq ← rq_get r;
  when (blk_account_rq rq)
    (q_upd (λ q, set_in_flight (upd_sync (λ n, u32 (n - 1)) (rq_is_sync rq) (in_flight q)) q);;
     match elevator_completed_req_fn ops with
     | Some f => when (blk_sorted_rq rq) (f r)
     | None => mret tt
     end);;
  q ← q_get;
  if ordseq q =? 0 then mret tt else
  e ← on_links (list_empty (Ptr queue_head));
  next ← (if (e : bool) then mret None
          else n ← on_links (get_next (Ptr queue_head)); n ← lift (list_entry_rq n); mret (Some n));
  if negb (queue_in_flight q =? 0) then mret tt else
  if negb (blk_ordered_cur_seq q =? QUEUE_ORDSEQ_DRAIN) then mret tt else
  drained ← match next with
            | None => mret true
            | Some n =>
              nrq ← rq_get n;
              tbl ← gets rqs;
              s ← lift (blk_ordered_req_seq n nrq q tbl);
              mret (s >? QUEUE_ORDSEQ_DRAIN)
            end;
  when drained
    (blk_ordered_complete_seq QUEUE_ORDSEQ_DRAIN 0;;
     __blk_run_queue ops request_fn).

Definition __blk_put_request (r : rqid) : ST (world D) unit :=
  rq_upd r (λ rq, set_ref_count (s32 (ref_count rq - 1)) rq);;
  rq ← rq_get r;
  if negb (ref_count rq =? 0) then mret tt else
  elv_completed_request r;;
  put_alloced ops r.

(** [rq->end_io(rq, error)] *)
Definition run_end_io (f : end_io_fn) (r : rqid) (error : Z) : ST (world D) unit :=
  match f with
  | pre_flush_end_io =>
    elv_completed_request r;; _ ← blk_ordered_complete_seq QUEUE_ORDSEQ_PREFLUSH error; mret tt
  | bar_end_io =>
    elv_completed_request r;; _ ← blk_ordered_complete_seq QUEUE_ORDSEQ_BAR error; mret tt
  | post_flush_end_io =>
    elv_completed_request r;; _ ← blk_ordered_complete_seq QUEUE_ORDSEQ_POSTFLUSH error; mret tt
  | other_end_io f => call_end_io f r error
  end.

Definition blk_finish_request (r : rqid) (error : Z) : ST (world D) unit :=
  rq ← rq_get r;
  when (tst (cmd_flags rq) REQ_QUEUED) (blk_queue_end_tag r);;
  e ← on_links (list_empty (Ptr (queuelist r)));
  bug_on (negb e);;
  blk_delete_timer r;;
  rq ← rq_get r;
  match end_io rq with
  | Some f => run_end_io f r error
  | None =>
    match next_rq rq with Some n => __blk_put_request n | None => mret tt end;;
    __blk_put_request r
  end.

Definition __blk_end_bidi_request (r : rqid) (error nr bidi_bytes : Z) : ST (world D) bool :=
  more ← blk_update_bidi_request r error nr bidi_bytes;
  if (more : bool) then mret true else
  blk_finish_request r error;;
  mret false.

(** The same, taking the queue lock for the second half. *)
Definition blk_end_bidi_request (r : rqid) (error nr bidi_bytes : Z) : ST (world D) bool :=
  more ← blk_update_bidi_request r error nr bidi_bytes;
  if (more : bool) then mret true else
  blk_finish_request r error;;
  mret false.

Definition end_request_all (r : rqid) (error : Z) : ST (world D) unit :=
  rq ← rq_get r;
  bidi_bytes ← match next_rq rq with
               | Some n => nrq ← rq_get n; mret (blk_rq_bytes nrq)
               | None => mret 0
               end;
  pending ← __blk_end_bidi_request r error (blk_rq_bytes rq) bidi_bytes;
  bug_on pending.
End rec.

(** The recursion is two deep: the barrier request of a sequence is ended after
    the sequence was closed. *)
Fixpoint end_all_rec (fuel : nat) (r : rqid) (error : Z) : ST (world D) unit :=
  match fuel with
  | O => raise HANG
  | S fuel => end_request_all (end_all_rec fuel) r error
  end.
Definition __blk_end_request_all : rqid → Z → ST (world D) unit := end_all_rec 3.

(** Called with the queue lock held, or ([blk_*]) taking it. *)
Definition __blk_end_request (r : rqid) (error nr : Z) : ST (world D) bool :=
  __blk_end_bidi_request __blk_end_request_all r error nr 0.
Definition blk_end_request (r : rqid) (error nr : Z) : ST (world D) bool :=
  blk_end_bidi_request __blk_end_request_all r error nr 0.
Definition blk_end_request_all (r : rqid) (error : Z) : ST (world D) unit :=
  rq ← rq_get r;
  bidi_bytes ← match next_rq rq with
               | Some n => nrq ← rq_get n; mret (blk_rq_bytes nrq)
               | None => mret 0
               end;
  pending ← blk_end_bidi_request __blk_end_request_all r error (blk_rq_bytes rq) bidi_bytes;
  bug_on pending.
Definition __blk_end_request_cur (r : rqid) (error : Z) : ST (world D) bool :=
  rq ← rq_get r; n ← lift (blk_rq_cur_bytes rq); __blk_end_request r error n.
Definition blk_end_request_cur (r : rqid) (error : Z) : ST (world D) bool :=
  rq ← rq_get r; n ← lift (blk_rq_cur_bytes rq); blk_end_request r error n.
Definition __blk_end_request_err (r : rqid) (error : Z) : ST (world D) bool :=
  rq ← rq_get r; n ← lift (blk_rq_err_bytes rq); __blk_end_request r error n.
Definition blk_end_request_err (r : rqid) (error : Z) : ST (world D) bool :=
  rq ← rq_get r; n ← lift (blk_rq_err_bytes rq); blk_end_request r error n.

(** Putting a request back ([blk_requeue_request]). *)
Definition blk_requeue_request (r : rqid) : ST (world D) unit :=
  blk_delete_timer r;;
  blk_clear_rq_complete r;;
  rq ← rq_get r;
  when (tst (cmd_flags rq) REQ_QUEUED) (blk_queue_end_tag r);;
  e ← on_links (list_empty (Ptr (queuelist r)));
  bug_on (negb e);;
  elv_requeue_request ops request_fn r.

Definition blk_queue_invalidate_tags : ST (world D) unit :=
  list_for_each_safe (Ptr tag_busy_list)
    (λ tmp _, r ← lift (list_entry_rq tmp); blk_requeue_request r) tt.

(** [at_head] chooses the end of the queue; [data] is what [rq->special] is set to. *)
Definition blk_insert_request (r : rqid) (at_head data : bool) : ST (world D) unit :=
  rq_upd r (set_cmd_type REQ_TYPE_SPECIAL);;
  rq_upd r (set_special data);;
  rq ← rq_get r;
  when (tst (cmd_flags rq) REQ_QUEUED) (blk_queue_end_tag r);;
  __elv_add_request ops request_fn r (if at_head then ELEVATOR_INSERT_FRONT else ELEVATOR_INSERT_BACK)
    false;;
  __blk_run_queue ops request_fn.
End finish.

(** ** The bytes of a request *)

Definition total_len (vs : list bio_vec) : Z := foldr (λ v n, bv_len v + n) 0 vs.
Definition chain_size (bs : list bio) : Z := foldr (λ b n, bi_size b + n) 0 bs.
Definition chain_ids (bs : list bio) : list positive := bi_id <$> bs.
(** The physical addresses a request transfers, in order. *)
Definition vec_bytes (vs : list bio_vec) : list Z := concat (bv_bytes <$> vs).
Definition rq_bytes (rq : request) : list Z := vec_bytes (rq_segs rq).

(** A bio with data left: its size is that of the vectors still to be
    transferred. *)
Record bio_ok (b : bio) : Prop := {
  bok_idx : 0 ≤ bi_idx b;
  bok_vecs : Forall bvec_ok (bio_segs b);
  bok_size : bi_size b = total_len (bio_segs b);
  bok_data : bio_segs b ≠ [];
  bok_cnt : bi_vcnt b < 2 ^ 16
}.
Record chain_ok (bs : list bio) : Prop := {
  cok_bios : Forall bio_ok bs;
  cok_ids : NoDup (chain_ids bs);
  cok_size : chain_size bs < 2 ^ 31
}.

Lemma total_len_app vs us : total_len (vs ++ us) = total_len vs + total_len us.
Proof. induction vs as [|v vs IH]; cbn; [done|]. fold (total_len (vs ++ us)). fold (total_len vs). lia. Qed.
Lemma total_len_pos vs : Forall bvec_ok vs → 0 ≤ total_len vs.
Proof.
  induction 1 as [|v vs Hv _ IH]; cbn; [done|]. fold (total_len vs). destruct Hv as (_ & _ & ? & _). lia.
Qed.
Lemma total_len_split vs i v : vs !! i = Some v →
  total_len vs = total_len (take i vs) + bv_len v + total_len (drop (S i) vs).
Proof.
  intros Hi. rewrite <-(take_drop_middle vs i v Hi) at 1. rewrite total_len_app. cbn.
  fold (total_len (drop (S i) vs)). lia.
Qed.
Lemma total_len_take_S vs i v : vs !! i = Some v →
  total_len (take (S i) vs) = total_len (take i vs) + bv_len v.
Proof. intros Hi. rewrite (take_S_r _ _ _ Hi), total_len_app. cbn. lia. Qed.

Lemma vec_bytes_app vs us : vec_bytes (vs ++ us) = vec_bytes vs ++ vec_bytes us.
Proof. unfold vec_bytes. by rewrite fmap_app, concat_app. Qed.
Lemma vec_bytes_length vs : Forall bvec_ok vs → Z.of_nat (length (vec_bytes vs)) = total_len vs.
Proof.
  induction 1 as [|v vs Hv _ IH]; [done|]. unfold vec_bytes in *. cbn [fmap list_fmap concat].
  rewrite length_app. unfold bv_bytes at 1. rewrite length_seqZ. cbn. fold (total_len vs).
  destruct Hv as (_ & _ & ? & _). lia.
Qed.

Lemma bio_ok_size_pos b : bio_ok b → 0 < bi_size b.
Proof.
  intros [_ Hv Hs Hd _]. rewrite Hs. destruct (bio_segs b) as [|v vs]; [done|].
  apply Forall_cons in Hv as [(_ & _ & ? & _) Hv]. cbn. fold (total_len vs).
  pose proof (total_len_pos vs Hv). lia.
Qed.
Lemma chain_size_pos bs : Forall bio_ok bs → 0 ≤ chain_size bs.
Proof.
  induction 1 as [|b bs Hb _ IH]; cbn; [done|]. fold (chain_size bs).
  pose proof (bio_ok_size_pos b Hb). lia.
Qed.
Lemma chain_ok_tail b bs : chain_ok (b :: bs) → chain_ok bs.
Proof.
  intros [Hb Hn Hs]. apply Forall_cons in Hb as [Hb Hbs]. apply NoDup_cons in Hn as [_ Hn].
  cbn in Hs. fold (chain_size bs) in Hs. pose proof (bio_ok_size_pos b Hb). split; [done|done|lia].
Qed.

(** The vector [idx] places after the current one. *)
Lemma bio_iovec_idx_segs b i : 0 ≤ bi_idx b →
  bio_iovec_idx b (bi_idx b + Z.of_nat i) = bio_segs b !! i.
Proof.
  intros Hi. unfold bio_iovec_idx, bio_segs. rewrite lookup_drop. f_equal. lia.
Qed.
Lemma bio_segs_length b : Z.of_nat (length (bio_segs b)) = Z.max 0 (bi_vcnt b - Z.of_nat (Z.to_nat (bi_idx b))).
Proof. unfold bio_segs, bi_vcnt. rewrite length_drop. lia. Qed.

(** ** The loop of [blk_update_request] *)
Section update.
Context {D : Type} (r : rqid) (error : Z).
Implicit Types (w : world D).

(** Where [n] bytes into the vectors [vs] end: [j] whole vectors and [k] bytes of
    the next one. *)
Definition seek_at (vs : list bio_vec) (n : Z) (j : nat) (k : Z) : Prop :=
  ∃ v, vs !! j = Some v ∧ 0 ≤ k < bv_len v ∧ total_len (take j vs) + k = n.

(** Within a bio that is not transferred completely. *)
Lemma update_loop_in_bio b rest rq w :
  rqs w !! r = Some rq → bios rq = b :: rest → bio_ok b → bi_size b < 2 ^ 31 →
  ∀ fuel i s, (length (bio_segs b) < fuel + i)%nat →
  next_idx s = Z.of_nat i → bio_nbytes s = total_len (take i (bio_segs b)) →
  0 ≤ nr_bytes s → bio_nbytes s + nr_bytes s < bi_size b → 0 ≤ total_bytes s →
  total_bytes s + nr_bytes s < 2 ^ 31 →
  ∃ s', update_loop r error fuel s w = Ok (s', w) ∧
    total_bytes s' = total_bytes s + nr_bytes s ∧ bio_nbytes s' = bio_nbytes s + nr_bytes s ∧
    ∃ j, next_idx s' = Z.of_nat j ∧ seek_at (bio_segs b) (bio_nbytes s') j (nr_bytes s').
Proof.
  intros Hr Hb Hok Hsz. induction fuel as [|fuel IH]; intros i s Hf Hi Hn Hnr Hlt Ht0 Ht;
    pose proof (bok_size b Hok) as Es; pose proof (bok_vecs b Hok) as Hvs.
  { rewrite take_ge in Hn by lia. lia. }
  destruct (lookup_lt_is_Some_2 (bio_segs b) i) as [v Hv].
  { destruct (decide (i < length (bio_segs b))%nat); [done|]. rewrite take_ge in Hn by lia. lia. }
  pose proof (total_len_split _ _ _ Hv) as Ev.
  pose proof (total_len_pos _ (Forall_take _ i _ Hvs)). pose proof (total_len_pos _ (Forall_drop _ (S i) _ Hvs)).
  assert (bvec_ok v) as (_ & _ & Hv1 & _) by (by eapply Forall_lookup_1).
  cbn [update_loop]. erewrite st_bind_ok by (apply rq_get_ok; exact Hr). rewrite Hb.
  destruct (Z.geb_spec (nr_bytes s) (bi_size b)); [lia|].
  rewrite Hi. pose proof (bio_segs_length b). pose proof (lookup_lt_Some _ _ _ Hv).
  destruct (Z.geb_spec (bi_idx b + Z.of_nat i) (bi_vcnt b)); [pose proof (bok_idx b Hok); lia|].
  rewrite bio_iovec_idx_segs, Hv by apply Hok. erewrite st_bind_ok by reflexivity.
  destruct (Z.gtb_spec (bv_len v) (bi_size b)); [lia|]. erewrite st_bind_ok by reflexivity.
  destruct (Z.gtb_spec (bv_len v) (nr_bytes s)) as [Hvn|Hvn].
  { eexists. split; [reflexivity|]. cbn [total_bytes bio_nbytes nr_bytes next_idx].
    rewrite !s32_id by lia. split; [done|]. split; [done|]. exists i. split; [done|].
    exists v. split; [done|]. lia. }
  cbn [nr_bytes]. rewrite u32_id by lia.
  set (s1 := UpdateState _ _ _ _).
  assert (bio_nbytes s1 = total_len (take (S i) (bio_segs b))) as Hn1.
  { cbn. rewrite s32_id by lia. rewrite (total_len_take_S _ _ _ Hv). lia. }
  assert (total_bytes s1 = total_bytes s + bv_len v) as Ht1 by (cbn; rewrite s32_id; lia).
  assert (nr_bytes s1 = nr_bytes s - bv_len v) as Hnr1 by done.
  assert (bio_nbytes s1 = bio_nbytes s + bv_len v) as Hn1' by (cbn; rewrite s32_id; lia).
  assert (next_idx s1 = Z.of_nat (S i)) as Hi1 by (cbn; lia).
  assert (0 ≤ nr_bytes s1 ∧ bio_nbytes s1 + nr_bytes s1 < bi_size b ∧ 0 ≤ total_bytes s1
          ∧ total_bytes s1 + nr_bytes s1 < 2 ^ 31) as (A1 & A2 & A3 & A4) by lia.
  destruct (Z.leb_spec (nr_bytes s - bv_len v) 0).
  - exists s1. split; [done|]. split; [lia|]. split; [lia|]. exists (S i). split; [done|].
    destruct (lookup_lt_is_Some_2 (bio_segs b) (S i)) as [v' Hv'].
    { destruct (decide (S i < length (bio_segs b))%nat); [done|].
      rewrite (take_ge _ (S i)) in Hn1 by lia. lia. }
    assert (bvec_ok v') as (_ & _ & ? & _) by (by eapply Forall_lookup_1).
    exists v'. split; [done|]. lia.
  - destruct (IH (S i) s1) as (s' & E & T & N & J); [lia|done..|].
    exists s'. split; [exact E|]. split; [lia|]. split; [lia|]. done.
Qed.

(** *** Writing bios of a request that shares none *)
Definition private w (ids : list positive) : Prop :=
  ∀ r' rq', rqs w !! r' = Some rq' → r' ≠ r → ∀ i, i ∈ ids → i ∉ chain_ids (bios rq').

Lemma store_bio_absent b bs : bi_id b ∉ chain_ids bs → store_bio b <$> bs = bs.
Proof.
  induction bs as [|c bs IH]; intros Hn; [done|]. cbn in *. apply not_elem_of_cons in Hn as [Hc Hn].
  rewrite IH by done. unfold store_bio. by rewrite decide_False.
Qed.
Lemma set_bios_id rq : set_bios (bios rq) rq = rq.
Proof. by destruct rq. Qed.

Lemma bio_write_own b w rq :
  rqs w !! r = Some rq → private w [bi_id b] →
  bio_write b w = Ok (tt, set_rqs (<[r := set_bios (store_bio b <$> bios rq) rq]> (rqs w)) w).
Proof.
  intros Hr Hp. unfold bio_write, modify. do 3 f_equal. apply map_eq. intros r'.
  rewrite lookup_fmap. destruct (decide (r' = r)) as [->|Hne].
  { by rewrite Hr, lookup_insert_eq. }
  rewrite lookup_insert_ne by done. destruct (rqs w !! r') as [rq'|] eqn:Hr'; [|done]. cbn.
  rewrite store_bio_absent, set_bios_id; [done|]. apply (Hp r'); [done|done|]. by left.
Qed.

Lemma bio_write_absent b w rq :
  rqs w !! r = Some rq → private w [bi_id b] → bi_id b ∉ chain_ids (bios rq) →
  bio_write b w = Ok (tt, w).
Proof.
  intros Hr Hp Hn. rewrite (bio_write_own b w rq Hr Hp), store_bio_absent, set_bios_id by done.
  rewrite insert_id by done. by destruct w.
Qed.

(** The bio that leaves a request [rq], and what its owner is told. *)
Definition ended_bio (rq : request) (b : bio) : bio * Z :=
  let '(b, e) := end_flags b error in
  let b' := if tst (cmd_flags rq) REQ_QUIET
            then set_bi_flags (Z.setbit (bi_flags b) BIO_QUIET) b else b in
  end_flags (set_bi_sector (u64 (bi_sector b + Z.shiftr (bi_size b) 9)) (set_bi_size 0 b')) e.

Lemma end_flags_keep b e : 
  bi_id (fst (end_flags b e)) = bi_id b ∧ bi_size (fst (end_flags b e)) = bi_size b ∧
  bi_sector (fst (end_flags b e)) = bi_sector b ∧ bi_idx (fst (end_flags b e)) = bi_idx b ∧
  bi_io_vec (fst (end_flags b e)) = bi_io_vec b.
Proof. unfold end_flags. destruct (negb (e =? 0)); [done|]. by destruct (test_bit _ _). Qed.

Lemma ended_bio_id rq b : bi_id (fst (ended_bio rq b)) = bi_id b.
Proof.
  unfold ended_bio. destruct (end_flags b error) as [b1 e] eqn:E.
  rewrite (proj1 (end_flags_keep _ _)). cbn. pose proof (proj1 (end_flags_keep b error)) as H.
  rewrite E in H. by destruct (tst _ _).
Qed.

Lemma req_bio_endio_whole b w rq :
  r ≠ bar_rq → rqs w !! r = Some rq → private w [bi_id b] → bi_id b ∉ chain_ids (bios rq) →
  req_bio_endio r b (bi_size b) error w = Ok (tt, set_ended (ended_bio rq b :: ended w) w).
Proof.
  intros Hbar Hr Hp Hn. unfold req_bio_endio, ended_bio. rewrite bool_decide_true by done.
  pose proof (end_flags_keep b error) as (Ei & Es & Ec & _).
  destruct (end_flags b error) as [b1 e]. cbn [fst] in *. rewrite <-Es.
  destruct (Z.gtb_spec (bi_size b1) (bi_size b1)); [lia|].
  erewrite st_bind_ok by (apply rq_get_ok; exact Hr).
  set (b2 := if tst (cmd_flags rq) REQ_QUIET then _ else _).
  assert (bi_size b2 = bi_size b1 ∧ bi_sector b2 = bi_sector b1 ∧ bi_id b2 = bi_id b1) as (-> & Eb & Ei2)
    by (unfold b2; by destruct (tst _ _)). rewrite Z.sub_diag, (u32_id 0) by lia.
  cbn [bi_sector bi_size set_bi_size set_bi_sector]. rewrite Eb. set (b3 := set_bi_sector _ _).
  assert (bi_id b3 = bi_id b) as E3 by (cbn; congruence).
  erewrite st_bind_ok by (apply (bio_write_absent _ _ rq); rewrite ?E3; done).
  rewrite Z.eqb_refl. cbn [when]. unfold bio_endio.
  pose proof (end_flags_keep b3 e) as (E4 & _). destruct (end_flags b3 e) as [b4 e4]. cbn [fst] in E4.
  erewrite st_bind_ok by (apply (bio_write_absent _ _ rq); rewrite ?E4, ?E3; done). done.
Qed.

(** *** The whole loop *)

(** How many bios at the head of a chain [nr] bytes cover. *)
Fixpoint whole (bs : list bio) (nr : Z) : nat :=
  match bs with
  | [] => 0
  | b :: bs => if bi_size b <=? nr then S (whole bs (nr - bi_size b)) else 0
  end.

(** The request after the bios [take k bs] were ended. *)
Definition after_bios (rq : request) (bs : list bio) (k : nat) w : world D :=
  set_ended (rev (ended_bio rq <$> take k bs) ++ ended w)
    (set_rqs (<[r := set_bios (drop k bs) rq]> (rqs w)) w).

(** What the loop leaves in its variables when data is left over. *)
Definition stopped_in (bs : list bio) (nr : Z) (s : update_state) : Prop :=
  ∃ b bs', bs = b :: bs' ∧ bio_nbytes s = nr ∧
    ∃ j, next_idx s = Z.of_nat j ∧ seek_at (bio_segs b) nr j (nr_bytes s).

Lemma after_bios_0 rq bs w : rqs w !! r = Some (set_bios bs rq) → after_bios rq bs 0 w = w.
Proof.
  intros Hr. unfold after_bios. rewrite drop_0, insert_id by done. by destruct w.
Qed.

Lemma private_insert w rq ids l bs :
  private w ids → (∀ i, i ∈ l → i ∈ ids) →
  private (set_ended bs (set_rqs (<[r := rq]> (rqs w)) w)) l.
Proof.
  intros Hp Hl r' rq' Hr' Hne i Hi. wcbn in Hr'. rewrite lookup_insert_ne in Hr' by done.
  apply (Hp r' rq'); auto.
Qed.

Lemma stopped_at_start b bs s : bio_ok b → bio_nbytes s = 0 → next_idx s = 0 → nr_bytes s = 0 →
  stopped_in (b :: bs) 0 s.
Proof.
  intros Hb Hn Hi Hs. exists b, bs. split; [done|]. split; [done|]. exists 0%nat. split; [done|].
  pose proof (bok_vecs b Hb) as Hv. pose proof (bok_data b Hb) as Hd. rewrite Hs.
  destruct (bio_segs b) as [|v vs]; [done|]. apply Forall_cons in Hv as [(_ & _ & ? & _) _].
  exists v. split; [done|]. cbn. lia.
Qed.

Lemma chain_size_cons b bs : chain_size (b :: bs) = bi_size b + chain_size bs.
Proof. done. Qed.
Lemma chain_size_drop bs k : Forall bio_ok bs → 0 ≤ chain_size bs - chain_size (drop k bs).
Proof.
  intros Hb. revert k. induction Hb as [|b bs Hb _ IH]; intros [|k]; cbn; try lia.
  fold (chain_size bs) (chain_size (drop k bs)). pose proof (IH k). pose proof (bio_ok_size_pos b Hb). lia.
Qed.
Lemma whole_size bs nr : Forall bio_ok bs → 0 ≤ nr →
  chain_size bs - chain_size (drop (whole bs nr) bs) ≤ nr ∧
  (nr < chain_size bs ↔ drop (whole bs nr) bs ≠ []).
Proof.
  intros Hb. revert nr. induction Hb as [|b bs Hb Hbs IH]; intros nr Hnr; cbn [whole]; rewrite ?chain_size_cons.
  { cbn. split; [lia|]. split; [lia|done]. }
  pose proof (chain_size_pos bs Hbs).
  destruct (Z.leb_spec (bi_size b) nr); cbn [drop]; rewrite ?chain_size_cons.
  - destruct (IH (nr - bi_size b)) as [I1 I2]; [lia|]. split; [lia|]. rewrite <-I2. lia.
  - split; [lia|]. split; [done|lia].
Qed.

Lemma update_loop_spec bs : ∀ rq w fuel s,
  r ≠ bar_rq → rqs w !! r = Some (set_bios bs rq) → chain_ok bs → private w (chain_ids bs) →
  (loop_fuel bs ≤ fuel)%nat → bio_nbytes s = 0 → next_idx s = 0 →
  0 ≤ nr_bytes s < 2 ^ 32 → 0 ≤ total_bytes s → total_bytes s + chain_size bs < 2 ^ 31 →
  let k := whole bs (nr_bytes s) in
  let left := drop k bs in
  ∃ s', update_loop r error fuel s w = Ok (s', after_bios rq bs k w) ∧
    (left ≠ [] → total_bytes s' = total_bytes s + nr_bytes s ∧
       stopped_in left (nr_bytes s - (chain_size bs - chain_size left)) s').
Proof.
  induction bs as [|b bs IH]; intros rq w fuel s Hbar Hr Hc Hp Hf Hn Hi Hnr Ht0 Ht.
  { destruct fuel as [|fuel]; [revert Hf; unfold loop_fuel; cbn; lia|]. exists s. split; [|done].
    cbn [update_loop]. erewrite st_bind_ok by (apply rq_get_ok; exact Hr). cbn.
    by rewrite (after_bios_0 rq [] w Hr). }
  destruct (proj1 (Forall_cons _ _ _) (cok_bios _ Hc)) as [Hb Hbs].
  pose proof (bio_ok_size_pos b Hb). pose proof (chain_size_pos bs Hbs).
  cbn [chain_size foldr] in Ht. fold (chain_size bs) in Ht. cbn [whole].
  destruct (Z.leb_spec (bi_size b) (nr_bytes s)) as [Hle|Hgt]; cbn [drop].
  2: { destruct (update_loop_in_bio b bs (set_bios (b :: bs) rq) w Hr eq_refl Hb ltac:(lia) fuel 0%nat s)
         as (s' & E & T & N & j & Hj & J); try done; try lia.
       { revert Hf. unfold loop_fuel. cbn. unfold bio_segs. rewrite length_drop. lia. }
       exists s'. rewrite (after_bios_0 rq (b :: bs) w Hr). split; [exact E|]. intros _.
       split; [done|]. rewrite Z.sub_diag, Z.sub_0_r. exists b, bs. split; [done|].
       split; [lia|]. exists j. split; [done|]. replace (nr_bytes s) with (bio_nbytes s') by lia. done. }
  destruct fuel as [|fuel]; [revert Hf; unfold loop_fuel; cbn; lia|].
  cbn [update_loop]. erewrite st_bind_ok by (apply rq_get_ok; exact Hr). cbn [bios set_bios].
  destruct (Z.geb_spec (nr_bytes s) (bi_size b)); [|lia].
  erewrite st_bind_ok by (apply rq_upd_ok; exact Hr).
  set (w1 := set_rqs _ w).
  assert (NoDup (chain_ids (b :: bs))) as [Hb1 Hnd]%NoDup_cons by apply Hc.
  assert (rqs w1 !! r = Some (set_bios bs rq)) as Hr1 by (unfold w1; wcbn; by rewrite lookup_insert_eq).
  assert (∀ l, (∀ i, i ∈ l → i ∈ chain_ids (b :: bs)) → private w1 l) as Hp1.
  { intros l Hl. pose proof (private_insert w (set_bios bs rq) _ l (ended w) Hp Hl) as HP1.
    intros r' rq' Hr'. by apply (HP1 r' rq'). }
  erewrite st_bind_ok by (eapply req_bio_endio_whole; [done|exact Hr1| |exact Hb1];
    apply Hp1; intros i ->%list_elem_of_singleton; by left).
  set (w2 := set_ended _ w1). set (s1 := UpdateState _ _ _ _).
  assert (rqs w2 !! r = Some (set_bios bs rq)) as Hr2 by exact Hr1.
  assert (private w2 (chain_ids bs)) as Hp2 by (apply (Hp1 (chain_ids bs)); intros i ?; by right).
  assert (nr_bytes s1 = nr_bytes s - bi_size b) as Hnr1 by (cbn; apply u32_id; lia).
  assert (total_bytes s1 = total_bytes s + bi_size b) as Ht1 by (cbn; apply s32_id; lia).
  erewrite st_bind_ok by (apply rq_get_ok; exact Hr2). cbn [bios set_bios].
  assert (after_bios rq bs (whole bs (nr_bytes s - bi_size b)) w2
    = after_bios rq (b :: bs) (S (whole bs (nr_bytes s - bi_size b))) w) as Ew.
  { unfold after_bios, w2, w1, set_ended, set_rqs. wcbn. rewrite insert_insert_eq. cbn [take drop fmap list_fmap rev].
    f_equal. by rewrite <-app_assoc. }
  destruct (negb (bool_decide (bs = [])) && (nr_bytes s1 <=? 0)) eqn:Est.
  - apply andb_prop in Est as [Hne%negb_true_iff%bool_decide_eq_false Hz%Z.leb_le].
    exists s1. assert (nr_bytes s - bi_size b = 0) as Ez by lia. destruct bs as [|c bs']; [done|].
    apply Forall_cons in Hbs as [Hc' _]. pose proof (bio_ok_size_pos c Hc').
    rewrite <-Ew, Ez. assert (whole (c :: bs') 0 = 0%nat) as ->
      by (cbn; destruct (Z.leb_spec (bi_size c) 0); [lia|done]).
    split; [by rewrite (after_bios_0 rq (c :: bs') w2 Hr2)|]. intros _. split; [lia|].
    rewrite drop_0. cbn [chain_size foldr]. fold (chain_size bs').
    replace (nr_bytes s - _) with 0 by lia. apply stopped_at_start; [done|done|done|lia].
  - clear Est. destruct (IH rq w2 fuel s1) as (s' & E & HP); try done; try lia.
    { by eapply chain_ok_tail. }
    { revert Hf. unfold loop_fuel. cbn. lia. }
    rewrite Hnr1 in *. exists s'. rewrite <-Ew. split; [exact E|]. intros Hl.
    destruct (HP Hl) as [T S]. split; [lia|]. cbn [chain_size foldr]. fold (chain_size bs).
    match goal with |- stopped_in _ ?n _ => replace n with (nr_bytes s - bi_size b - (chain_size bs -
      chain_size (drop (whole bs (nr_bytes s - bi_size b)) bs))) by lia end. done.
Qed.

(** *** The bio that is left in the middle *)
Lemma seqZ_drop_le a n k : 0 ≤ k ≤ n → drop (Z.to_nat k) (seqZ a n) = seqZ (a + k) (n - k).
Proof.
  intros Hk. replace n with (k + (n - k)) at 1 by lia. rewrite seqZ_app by lia.
  rewrite drop_app_length'; [done|]. by rewrite length_seqZ.
Qed.

Definition cut_vec (k : Z) (v : bio_vec) : bio_vec :=
  BioVec (bv_page v) (bv_len v - k) (bv_offset v + k).

Lemma cut_vec_ok k v : bvec_ok v → 0 ≤ k < bv_len v →
  bvec_ok (cut_vec k v) ∧ bv_bytes (cut_vec k v) = drop (Z.to_nat k) (bv_bytes v).
Proof.
  intros (? & ? & ? & ?) Hk. split; [unfold bvec_ok, cut_vec; cbn; lia|].
  unfold bv_bytes. rewrite seqZ_drop_le by lia. unfold bv_start. cbn. f_equal. lia.
Qed.

Lemma seek_bytes vs n j k v :
  Forall bvec_ok vs → vs !! j = Some v → 0 ≤ k < bv_len v → total_len (take j vs) + k = n →
  let vs' := cut_vec k v :: drop (S j) vs in
  Forall bvec_ok vs' ∧ total_len vs' = total_len vs - n ∧
  vec_bytes vs' = drop (Z.to_nat n) (vec_bytes vs).
Proof.
  intros Hok Hv Hk Hn. assert (bvec_ok v) as Hvok by (by eapply Forall_lookup_1).
  destruct (cut_vec_ok k v Hvok Hk) as [Hc Eb]. split_and!.
  - constructor; [done|]. by apply Forall_drop.
  - rewrite (total_len_split vs j v Hv). cbn [total_len foldr cut_vec bv_len].
    fold (total_len (drop (S j) vs)). lia.
  - rewrite <-(take_drop_middle vs j v Hv) at 2. rewrite vec_bytes_app.
    pose proof (vec_bytes_length _ (Forall_take _ j _ Hok)) as Hl.
    rewrite drop_app_ge by lia. unfold vec_bytes at 1 3. cbn [fmap list_fmap concat].
    rewrite drop_app_le, Eb.
    + repeat f_equal. lia.
    + unfold bv_bytes. rewrite length_seqZ. lia.
Qed.

Lemma drop_insert_here {A} (l : list A) n x : (n < length l)%nat → drop n (<[n := x]> l) = x :: drop (S n) l.
Proof. intros Hn. rewrite insert_take_drop by done. rewrite drop_app_length'; [done|]. rewrite length_take. lia. Qed.

(** The current vector of [b] after [advance_bio]. *)
Lemma advance_bio_ok b b1 s n j :
  bio_ok b → bi_idx b1 = bi_idx b → bi_io_vec b1 = bi_io_vec b → bi_size b1 = bi_size b - n →
  next_idx s = Z.of_nat j → seek_at (bio_segs b) n j (nr_bytes s) →
  ∃ b2, advance_bio s b1 = Ok b2 ∧ bi_id b2 = bi_id b1 ∧ bio_ok b2 ∧ bi_size b2 = bi_size b - n ∧
    vec_bytes (bio_segs b2) = drop (Z.to_nat n) (vec_bytes (bio_segs b)).
Proof.
  intros Hb Ei Ev Es Hj (v & Hv & Hk & Hn).
  pose proof (lookup_lt_Some _ _ _ Hv) as Hlt. pose proof (bio_segs_length b). pose proof (bok_idx b Hb).
  pose proof (bok_cnt b Hb).
  destruct (seek_bytes _ _ _ _ _ (bok_vecs b Hb) Hv Hk Hn) as (S1 & S2 & S3).
  assert (Z.to_nat (bi_idx b + Z.of_nat j) < length (bi_io_vec b))%nat as Hin.
  { revert Hlt. unfold bio_segs. rewrite length_drop. lia. }
  assert (bvec_ok v) as (_ & ? & ? & ?) by (eapply Forall_lookup_1; [apply Hb|done]).
  unfold advance_bio, bio_iovec. cbn [bi_idx set_bi_idx bi_io_vec]. rewrite Ei, Hj.
  assert (u16 (bi_idx b + Z.of_nat j) = bi_idx b + Z.of_nat j) as -> by (unfold u16; rewrite Z.mod_small; lia).
  assert (bio_iovec_idx (set_bi_idx (bi_idx b + Z.of_nat j) b1) (bi_idx b + Z.of_nat j) = Some v) as ->.
  { rewrite <-Hv, <-bio_iovec_idx_segs by done. unfold bio_iovec_idx. cbn. by rewrite Ev. }
  cbn [deref mbind res_bind]. rewrite (u32_id (bv_len v - _)), (u32_id (bv_offset v + _)) by (change PAGE_CACHE_SIZE with 4096 in *; lia).
  eexists. split; [reflexivity|]. split; [done|].
  set (b2 := set_bi_io_vec _ _).
  assert (bio_segs b2 = cut_vec (nr_bytes s) v :: drop (S j) (bio_segs b)) as Esegs.
  { unfold bio_segs, b2. cbn. rewrite Ev, drop_insert_here by done. f_equal. rewrite drop_drop. f_equal. lia. }
  assert (bi_size b2 = bi_size b - n) as Esz by done.
  split_and!; [|done|by rewrite Esegs].
  split; [cbn; lia|by rewrite Esegs| |by rewrite Esegs|].
  - rewrite Esegs, Esz, S2, (bok_size b Hb). done.
  - unfold b2, bi_vcnt. cbn. rewrite length_insert, Ev. done.
Qed.

(** Ending the first [n] bytes of a bio that has more. *)
Lemma req_bio_endio_part b bs' n w rq :
  r ≠ bar_rq → rqs w !! r = Some rq → bios rq = b :: bs' → NoDup (chain_ids (b :: bs')) →
  private w [bi_id b] → 0 ≤ n < bi_size b → bi_size b < 2 ^ 32 →
  ∃ b1, req_bio_endio r b n error w = Ok (tt, set_rqs (<[r := set_bios (b1 :: bs') rq]> (rqs w)) w) ∧
    bi_id b1 = bi_id b ∧ bi_idx b1 = bi_idx b ∧ bi_io_vec b1 = bi_io_vec b ∧ bi_size b1 = bi_size b - n.
Proof.
  intros Hbar Hr Hbs [Hb Hnd]%NoDup_cons Hp Hn Hsz. unfold req_bio_endio. rewrite bool_decide_true by done.
  pose proof (end_flags_keep b error) as (Ei & Es & Ec & Ex & Ev).
  destruct (end_flags b error) as [b1 e]. cbn [fst] in *. rewrite Es.
  destruct (Z.gtb_spec n (bi_size b)); [lia|].
  erewrite st_bind_ok by (apply rq_get_ok; exact Hr).
  set (b2 := if tst (cmd_flags rq) REQ_QUIET then _ else _).
  assert (bi_size b2 = bi_size b ∧ bi_id b2 = bi_id b ∧ bi_idx b2 = bi_idx b ∧ bi_io_vec b2 = bi_io_vec b)
    as (-> & Ei2 & Ex2 & Ev2) by (unfold b2; by destruct (tst _ _)).
  rewrite (u32_id (_ - n)) by lia. set (b3 := set_bi_sector _ _).
  assert (bi_id b3 = bi_id b) as E3 by done.
  erewrite st_bind_ok by (apply (bio_write_own _ _ rq); [done|by rewrite E3]).
  cbn [bi_size b3 set_bi_sector set_bi_size]. destruct (Z.eqb_spec (bi_size b - n) 0); [lia|]. cbn [when].
  exists b3. split; [|done]. rewrite Hbs, fmap_cons, store_bio_absent by (by rewrite E3).
  unfold store_bio. by rewrite decide_True by done.
Qed.

Lemma update_middle_ok s n b bs' w rq :
  r ≠ bar_rq → rqs w !! r = Some rq → bios rq = b :: bs' → chain_ok (b :: bs') →
  private w [bi_id b] → bio_nbytes s = n →
  (∃ j, next_idx s = Z.of_nat j ∧ seek_at (bio_segs b) n j (nr_bytes s)) →
  ∃ b2, update_middle r error s b w = Ok (tt, set_rqs (<[r := set_bios (b2 :: bs') rq]> (rqs w)) w) ∧
    bi_id b2 = bi_id b ∧ bio_ok b2 ∧ bi_size b2 = bi_size b - n ∧
    vec_bytes (bio_segs b2) = drop (Z.to_nat n) (vec_bytes (bio_segs b)).
Proof.
  intros Hbar Hr Hbs Hc Hp Hn (j & Hj & J). destruct (proj1 (Forall_cons _ _ _) (cok_bios _ Hc)) as [Hb Hbs'].
  pose proof (cok_size _ Hc) as Hsz. rewrite chain_size_cons in Hsz. pose proof (chain_size_pos _ Hbs').
  assert (0 ≤ n < bi_size b) as Hnb.
  { destruct J as (v & Hv & Hk & <-). rewrite (bok_size b Hb), (total_len_split _ _ _ Hv).
    pose proof (total_len_pos _ (Forall_take _ j _ (bok_vecs b Hb))).
    pose proof (total_len_pos _ (Forall_drop _ (S j) _ (bok_vecs b Hb))). lia. }
  unfold update_middle. rewrite Hn. destruct (Z.eqb_spec n 0) as [->|Hne]; cbn [negb when].
  { exists b. rewrite insert_id by (rewrite <-Hbs, set_bios_id; done). split; [by destruct w|].
    split_and!; try done. lia. }
  rewrite (u32_id n) by lia.
  destruct (req_bio_endio_part b bs' n w rq Hbar Hr Hbs (cok_ids _ Hc) Hp Hnb ltac:(lia))
    as (b1 & E1 & Ei & Ex & Ev & Es).
  rewrite (st_bind_ok _ _ _ _ _ E1). erewrite st_bind_ok by (apply rq_get_ok; wcbn; apply lookup_insert_eq).
  cbn [bios set_bios head deref]. erewrite st_bind_ok by reflexivity.
  destruct (advance_bio_ok b b1 s n j Hb Ex Ev Es Hj J) as (b2 & E2 & Ei2 & Hok2 & Es2 & Ev2).
  rewrite E2. erewrite st_bind_ok by reflexivity.
  exists b2. split; [|split; [congruence|done]].
  pose proof (cok_ids _ Hc) as [Hni _]%NoDup_cons.
  assert (private (set_rqs (<[r := set_bios (b1 :: bs') rq]> (rqs w)) w) [bi_id b2]) as Hp2.
  { rewrite Ei2, Ei. intros r' rq' Hr' Hne'. wcbn in Hr'. rewrite lookup_insert_ne in Hr' by done.
    by apply (Hp r' rq'). }
  erewrite (bio_write_own b2); [|wcbn; apply lookup_insert_eq|exact Hp2].
  wcbn. rewrite insert_insert_eq. cbn [bios set_bios]. rewrite fmap_cons, store_bio_absent by (rewrite Ei2, Ei; exact Hni).
  unfold store_bio. by rewrite decide_True by congruence.
Qed.

(** *** The request that is left *)
Lemma advance_rq_ok total rq b bs' :
  bios rq = b :: bs' → chain_ok (b :: bs') → 0 ≤ total →
  blk_rq_bytes rq - total = chain_size (b :: bs') → blk_rq_bytes rq < 2 ^ 32 →
  ∃ rq', advance_rq total rq = Ok rq' ∧ bios rq' = bios rq ∧
    blk_rq_bytes rq' = chain_size (b :: bs') ∧
    blk_rq_pos rq' = (if blk_fs_request rq || blk_discard_rq rq
                      then u64 (blk_rq_pos rq + Z.shiftr total 9) else blk_rq_pos rq).
Proof.
  intros Hbs Hc Ht Ed Hd. destruct (proj1 (Forall_cons _ _ _) (cok_bios _ Hc)) as [Hb Hbs'].
  pose proof (chain_size_pos _ Hbs'). pose proof (bio_ok_size_pos b Hb). rewrite chain_size_cons in *.
  assert (∃ v, bio_iovec b = Some v ∧ bv_len v ≤ bi_size b) as (v & Hv & Hlen).
  { pose proof (bok_vecs b Hb) as Hvs. rewrite (bok_size b Hb).
    assert (bio_iovec b = bio_segs b !! 0%nat) as ->.
    { rewrite <-bio_iovec_idx_segs by apply Hb. unfold bio_iovec. f_equal. lia. }
    pose proof (bok_data b Hb). destruct (bio_segs b) as [|v vs]; [done|]. exists v. split; [done|].
    apply Forall_cons in Hvs as [_ Hvs]. pose proof (total_len_pos vs Hvs). cbn. fold (total_len vs). lia. }
  assert (bio_cur_bytes b = Ok (bv_len v)) as Ecur.
  { unfold bio_cur_bytes. rewrite Hv. destruct (Z.eqb_spec (bi_vcnt b) 0) as [E|]; [|done].
    unfold bio_iovec, bio_iovec_idx in Hv. apply lookup_lt_Some in Hv. unfold bi_vcnt in E. lia. }
  unfold advance_rq. rewrite (u32_id (_ - total)) by lia.
  set (rq1 := set___data_len _ rq). set (rq2 := if blk_fs_request rq1 || _ then _ else _).
  assert (bios rq2 = b :: bs' ∧ blk_rq_bytes rq2 = blk_rq_bytes rq - total ∧
    blk_rq_pos rq2 = if blk_fs_request rq || blk_discard_rq rq
                     then u64 (blk_rq_pos rq + Z.shiftr total 9) else blk_rq_pos rq) as (E1 & E2 & E3).
  { unfold rq2, rq1, blk_fs_request, blk_discard_rq. cbn [cmd_type cmd_flags set___data_len].
    destruct ((cmd_type rq =? REQ_TYPE_FS) || tst (cmd_flags rq) REQ_DISCARD); done. }
  rewrite E1. cbn [head deref mbind res_bind].
  set (rq3 := if tst (cmd_flags rq2) REQ_MIXED_MERGE then _ else _).
  assert (bios rq3 = bios rq2 ∧ blk_rq_bytes rq3 = blk_rq_bytes rq2 ∧ blk_rq_pos rq3 = blk_rq_pos rq2)
    as (F1 & F2 & F3) by (unfold rq3; by destruct (tst (cmd_flags rq2) _)).
  unfold blk_rq_cur_bytes. rewrite F1, E1, Ecur. cbn [mbind res_bind]. rewrite F2, E2.
  destruct (Z.ltb_spec (blk_rq_bytes rq - total) (bv_len v)); [lia|].
  exists rq3. rewrite F1, F2, F3, E1, E2, E3, Hbs. done.
Qed.

(** Counting the segments only changes the sizes cached in the bios. *)
Definition plain (b : bio) : bio := set_bi_seg_front_size 0 (set_bi_seg_back_size 0 b).

Lemma alter_last_plain f bs : (∀ b, plain (f b) = plain b) → plain <$> alter_last f bs = plain <$> bs.
Proof.
  intros Hf. unfold alter_last. rewrite <-(rev_involutive bs) at 2.
  destruct (rev bs) as [|b l]; [done|]. cbn. by rewrite !fmap_app, !fmap_cons, Hf.
Qed.
Lemma recalc_plain q rq :
  plain <$> bios (blk_recalc_rq_segments q rq) = plain <$> bios rq ∧
  blk_rq_bytes (blk_recalc_rq_segments q rq) = blk_rq_bytes rq ∧
  blk_rq_pos (blk_recalc_rq_segments q rq) = blk_rq_pos rq.
Proof.
  unfold blk_recalc_rq_segments. destruct (__blk_recalc_rq_segments q (bios rq)) as [n bs] eqn:E.
  split; [|done]. cbn. unfold __blk_recalc_rq_segments in E. destruct (bios rq) as [|b l].
  { by injection E as <- <-. }
  injection E as <- <-. rewrite alter_last_plain; [done|]. intros c. by destruct (_ >? _).
Qed.

Lemma plain_chain bs' bs : plain <$> bs' = plain <$> bs →
  chain_ids bs' = chain_ids bs ∧ chain_size bs' = chain_size bs ∧ (bio_segs <$> bs' = bio_segs <$> bs) ∧
  (Forall bio_ok bs → Forall bio_ok bs').
Proof.
  revert bs. induction bs' as [|b' bs' IH]; intros [|b bs] H; try done.
  rewrite !fmap_cons in H. apply (inj2 cons) in H as [Hb H]. destruct (IH bs H) as (I1 & I2 & I3 & I4).
  pose proof (f_equal bi_id Hb) as E1. pose proof (f_equal bi_size Hb) as E2.
  pose proof (f_equal bi_idx Hb) as E3. pose proof (f_equal bi_io_vec Hb) as E4. cbn in E1, E2, E3, E4.
  assert (bio_segs b' = bio_segs b) as E5 by (unfold bio_segs; by rewrite E3, E4).
  unfold chain_ids in *. rewrite !chain_size_cons, !fmap_cons, I1, I2, I3, E1, E2, E5.
  split_and!; try done. intros [Hok ?]%Forall_cons. constructor; [|by apply I4].
  destruct Hok as [O1 O2 O3 O4 O5]. split; unfold bi_vcnt in *; rewrite ?E5, ?E2, ?E3, ?E4; done.
Qed.

Lemma plain_chain_ok bs' bs : plain <$> bs' = plain <$> bs → chain_ok bs → chain_ok bs'.
Proof.
  intros H [H1 H2 H3]. destruct (plain_chain _ _ H) as (I1 & I2 & _ & I4).
  split; [by apply I4|by rewrite I1|by rewrite I2].
Qed.

Lemma store_bio_present c bs : c ∈ bs → NoDup (chain_ids bs) → store_bio c <$> bs = bs.
Proof.
  induction bs as [|b bs IH]; intros Hc Hn; [done|]. cbn in *. apply NoDup_cons in Hn as [Hb Hn].
  apply elem_of_cons in Hc as [->|Hc].
  - unfold store_bio at 1. rewrite decide_True by done. f_equal. by apply store_bio_absent.
  - rewrite IH by done. unfold store_bio. rewrite decide_False; [done|]. intros E. apply Hb.
    rewrite E. by apply list_elem_of_fmap_2.
Qed.

Lemma bio_writes_same w rq l :
  rqs w !! r = Some rq → NoDup (chain_ids (bios rq)) → private w (chain_ids (bios rq)) →
  (∀ b, b ∈ l → b ∈ bios rq) → ∃ us, mapM bio_write l w = Ok (us, w).
Proof.
  intros Hr Hn Hp. induction l as [|b l IH]; intros Hl; [by exists []|].
  destruct IH as [us E]; [intros; apply Hl; by right|].
  assert (bio_write b w = Ok (tt, w)) as Eb.
  { rewrite (bio_write_own b w rq Hr), store_bio_present, set_bios_id, insert_id; [by destruct w|done| |done|].
    - apply Hl. by left.
    - intros r' rq' Hr' Hne i ->%list_elem_of_singleton. apply (Hp r' rq' Hr' Hne).
      apply list_elem_of_fmap_2, Hl. by left. }
  exists (tt :: us). cbn. rewrite (st_bind_ok _ _ _ _ _ Eb). by rewrite (st_bind_ok _ _ _ _ _ E).
Qed.

(** *** Together *)
Definition chain_bytes (bs : list bio) : list Z := vec_bytes (concat (bio_segs <$> bs)).

Lemma chain_bytes_cons b bs : chain_bytes (b :: bs) = vec_bytes (bio_segs b) ++ chain_bytes bs.
Proof. unfold chain_bytes. cbn. apply vec_bytes_app. Qed.
Lemma chain_bytes_length bs : Forall bio_ok bs → Z.of_nat (length (chain_bytes bs)) = chain_size bs.
Proof.
  induction 1 as [|b bs Hb _ IH]; [done|]. rewrite chain_bytes_cons, length_app, chain_size_cons.
  rewrite (bok_size b Hb), <-(vec_bytes_length _ (bok_vecs b Hb)). lia.
Qed.
Lemma whole_bytes bs nr : Forall bio_ok bs → 0 ≤ nr →
  let left := drop (whole bs nr) bs in
  drop (Z.to_nat nr) (chain_bytes bs)
  = drop (Z.to_nat (nr - (chain_size bs - chain_size left))) (chain_bytes left).
Proof.
  intros Hb. revert nr. induction Hb as [|b bs Hb Hbs IH]; intros nr Hnr; cbn [whole].
  { cbn. by rewrite !drop_nil. }
  pose proof (bio_ok_size_pos b Hb).
  destruct (Z.leb_spec (bi_size b) nr); cbn [drop].
  2: { f_equal. lia. }
  pose proof (vec_bytes_length _ (bok_vecs b Hb)) as Hl. rewrite <-(bok_size b Hb) in Hl.
  rewrite chain_bytes_cons, drop_app_ge, chain_size_cons by lia.
  replace (Z.to_nat nr - length (vec_bytes (bio_segs b)))%nat with (Z.to_nat (nr - bi_size b)) by lia.
  rewrite IH by lia. f_equal. lia.
Qed.

Lemma chain_ok_drop bs k : chain_ok bs → chain_ok (drop k bs).
Proof.
  intros H. revert bs H. induction k as [|k IH]; intros bs H; [by rewrite drop_0|].
  destruct bs as [|b bs]; [done|]. cbn. by eapply IH, chain_ok_tail.
Qed.

(** The request [rq] after its first [nr] bytes are done. *)
Record advanced (rq : request) (nr : Z) (rq' : request) : Prop := {
  adv_bytes : rq_bytes rq' = drop (Z.to_nat nr) (rq_bytes rq);
  adv_len : blk_rq_bytes rq' = Z.max 0 (blk_rq_bytes rq - nr);
  adv_ids : chain_ids (bios rq') = drop (whole (bios rq) nr) (chain_ids (bios rq));
  adv_ok : chain_ok (bios rq') ∧ chain_size (bios rq') = blk_rq_bytes rq';
  adv_pos : nr < blk_rq_bytes rq → blk_fs_request rq = true →
    blk_rq_pos rq' = u64 (blk_rq_pos rq + Z.shiftr nr 9)
}.

(** A request with data left. *)
Lemma update_left_ok w rq s n b bs' nr :
  r ≠ bar_rq → rqs w !! r = Some (set_bios (b :: bs') rq) → chain_ok (b :: bs') →
  private w (chain_ids (b :: bs')) → bio_nbytes s = n →
  (∃ j, next_idx s = Z.of_nat j ∧ seek_at (bio_segs b) n j (nr_bytes s)) →
  total_bytes s = nr → 0 ≤ n → 0 ≤ nr → blk_rq_bytes rq - nr = chain_size (b :: bs') - n →
  blk_rq_bytes rq < 2 ^ 32 →
  ∃ rq', update_rest r error s w = Ok (true, set_rqs (<[r := rq']> (rqs w)) w) ∧
    chain_bytes (bios rq') = drop (Z.to_nat n) (chain_bytes (b :: bs')) ∧
    chain_ids (bios rq') = chain_ids (b :: bs') ∧ chain_ok (bios rq') ∧
    chain_size (bios rq') = blk_rq_bytes rq' ∧ blk_rq_bytes rq' = blk_rq_bytes rq - nr ∧
    blk_rq_pos rq' = (if blk_fs_request rq || blk_discard_rq rq
                      then u64 (blk_rq_pos rq + Z.shiftr nr 9) else blk_rq_pos rq).
Proof.
  intros Hbar Hr Hc Hp Hn HJ Ht Hn0 Hnr0 Hd Hsz.
  destruct (update_middle_ok s n b bs' w _ Hbar Hr eq_refl Hc) as (b2 & E & Ei & Hb2 & Es & Eb); [|done..|].
  { intros r' rq' Hr' Hne i ->%list_elem_of_singleton. apply (Hp r' rq' Hr' Hne). by left. }
  unfold update_rest. erewrite st_bind_ok by (apply rq_get_ok; exact Hr). cbn [bios set_bios].
  rewrite (st_bind_ok _ _ _ _ _ E). set (rq1 := set_bios (b2 :: bs') (set_bios (b :: bs') rq)).
  assert (chain_ok (b2 :: bs')) as Hc2.
  { destruct Hc as [C1 C2 C3]. apply Forall_cons in C1 as [C0 C1]. rewrite chain_size_cons in C3.
    split; [by constructor| |rewrite chain_size_cons; lia]. cbn in *. by rewrite Ei. }
  erewrite st_bind_ok by (apply rq_get_ok; wcbn; apply lookup_insert_eq).
  destruct (advance_rq_ok (total_bytes s) rq1 b2 bs') as (rq2 & E2 & B2 & D2 & P2); try done; [lia| |].
  { rewrite Ht, chain_size_cons in *. change (blk_rq_bytes rq1) with (blk_rq_bytes rq). lia. }
  fold rq1. rewrite E2. erewrite st_bind_ok by reflexivity. erewrite (st_bind_ok q_get) by reflexivity.
  erewrite st_bind_ok by (apply rq_upd_ok; wcbn; apply lookup_insert_eq). wcbn. rewrite insert_insert_eq.
  set (rq3 := blk_recalc_rq_segments _ rq2).
  destruct (recalc_plain (queue w) rq2) as (R1 & R2 & R3). fold rq3 in R1, R2, R3.
  rewrite B2 in R1. cbn [rq1 bios set_bios] in R1. destruct (plain_chain _ _ R1) as (I1 & I2 & I3 & _).
  assert (chain_ids (bios rq3) = chain_ids (b :: bs')) as Eids
    by (rewrite I1; unfold chain_ids; by rewrite !fmap_cons, Ei).
  assert (chain_ok (bios rq3)) as Hc3 by (by eapply plain_chain_ok).
  destruct (bio_writes_same (set_rqs (<[r := rq3]> (rqs w)) w) rq3 (bios rq3)) as [us Ew];
    [wcbn; apply lookup_insert_eq|apply Hc3| |done|].
  { rewrite Eids. intros r' rq' Hr' Hne. wcbn in Hr'. rewrite lookup_insert_ne in Hr' by done. by apply (Hp r' rq'). }
  rewrite (st_bind_ok _ _ _ _ _ Ew). exists rq3. split; [done|].
  change (blk_rq_bytes rq1) with (blk_rq_bytes rq) in *. rewrite chain_size_cons in *.
  split_and!; try done.
  - unfold chain_bytes at 1. rewrite I3. fold (chain_bytes (b2 :: bs')). rewrite !chain_bytes_cons, Eb.
    destruct (proj1 (Forall_cons _ _ _) (cok_bios _ Hc)) as [Hb _].
    rewrite drop_app_le; [done|]. pose proof (vec_bytes_length _ (bok_vecs b Hb)) as Hl.
    rewrite <-(bok_size b Hb) in Hl. pose proof (bio_ok_size_pos b2 Hb2). lia.
  - rewrite I2, R2, D2. done.
  - rewrite R2, D2. lia.
  - rewrite R3, P2, Ht. done.
Qed.

(** From the end of the loop on. *)
Lemma update_rest_ok w rq nr s :
  let k := whole (bios rq) nr in
  let left := drop k (bios rq) in
  r ≠ bar_rq → chain_ok (bios rq) → chain_size (bios rq) = blk_rq_bytes rq →
  private w (chain_ids (bios rq)) → 0 ≤ nr →
  (left ≠ [] → total_bytes s = nr ∧ stopped_in left (nr - (chain_size (bios rq) - chain_size left)) s) →
  ∃ rq', advanced rq nr rq' ∧
    update_rest r error s (after_bios rq (bios rq) k w) = Ok (nr <? blk_rq_bytes rq,
      set_ended (rev (ended_bio rq <$> take k (bios rq)) ++ ended w) (set_rqs (<[r := rq']> (rqs w)) w)).
Proof.
  intros k left Hbar Hc Hd Hp Hnr HS. pose proof (cok_bios _ Hc) as Hok. pose proof (cok_size _ Hc) as Hsz.
  destruct (whole_size (bios rq) nr Hok ltac:(lia)) as [Hw1 Hw2]. fold k in Hw1, Hw2. fold left in Hw1, Hw2.
  pose proof (whole_bytes (bios rq) nr Hok ltac:(lia)) as Hby. fold k in Hby. fold left in Hby. cbv zeta in Hby.
  assert (chain_ids left = drop k (chain_ids (bios rq))) as Eids by (unfold chain_ids, left; by rewrite fmap_drop).
  assert (chain_ok left) as Hcl by (by apply chain_ok_drop).
  set (w1 := after_bios rq (bios rq) k w).
  assert (rqs w1 !! r = Some (set_bios left rq)) as Hr1 by (unfold w1, after_bios; wcbn; apply lookup_insert_eq).
  destruct left as [|b bs'] eqn:El.
  - destruct (Z.ltb_spec nr (blk_rq_bytes rq)); [exfalso; by apply Hw2; [lia|]|].
    exists (set___data_len 0 (set_bios [] rq)). split.
    + split; unfold rq_bytes, rq_segs; fold k; cbn; try done; try lia.
      symmetry. etransitivity; [exact Hby|apply drop_nil].
    + unfold update_rest. erewrite st_bind_ok by (apply rq_get_ok; exact Hr1). cbn [bios set_bios].
      erewrite st_bind_ok by (apply rq_upd_ok; exact Hr1). unfold w1, after_bios. wcbn.
      by rewrite insert_insert_eq.
  - destruct HS as [Ht (b' & l' & [= <- <-] & Hn & HJ)]; [done|].
    assert (private w1 (chain_ids (b :: bs'))) as Hp1.
    { apply (private_insert w _ _ _ _ Hp). intros i. rewrite Eids. unfold chain_ids. rewrite <-fmap_drop.
      intros (c & -> & Hi)%list_elem_of_fmap. apply list_elem_of_fmap_2. 
      rewrite <-(take_drop k (bios rq)). apply elem_of_app. by right. }
    assert (0 ≤ nr - (chain_size (bios rq) - chain_size (b :: bs'))) as Hn0 by lia.
    destruct (update_left_ok w1 rq s _ b bs' nr Hbar Hr1 Hcl Hp1 Hn HJ Ht Hn0) as
      (rq' & E & B & I & Hc' & S & L & P); [lia..|].
    assert (nr < blk_rq_bytes rq) as Hlt by (rewrite <-Hd; by apply Hw2).
    destruct (Z.ltb_spec nr (blk_rq_bytes rq)); [|lia].
    exists rq'. split.
    + split; [|lia|by rewrite I, Eids|done|].
      * change (rq_bytes rq') with (chain_bytes (bios rq')). rewrite B. symmetry. apply Hby.
      * intros _ Hfs. by rewrite P, Hfs.
    + rewrite E. unfold w1, after_bios. wcbn. by rewrite insert_insert_eq.
Qed.
End update.

(** C2: Completing [nr] bytes of a request drops exactly those bytes from what is
    left to transfer, ends the bios they cover, each once and in order, with
    the error given, leaves the others in the chain, and keeps the length, the
    start sector and the chain consistent; [true] is returned just if
    data is left. *)
Theorem blk_update_request_refines {D} (w : world D) r rq error nr :
  r ≠ bar_rq → rqs w !! r = Some rq → chain_ok (bios rq) →
  chain_size (bios rq) = blk_rq_bytes rq → private r w (chain_ids (bios rq)) → 0 ≤ nr < 2 ^ 32 →
  ∃ rq', advanced rq nr rq' ∧
    blk_update_request r error nr w = Ok (nr <? blk_rq_bytes rq,
      set_ended (rev (ended_bio error rq <$> take (whole (bios rq) nr) (bios rq)) ++ ended w)
        (set_rqs (<[r := rq']> (rqs w)) w)).
Proof.
  intros Hbar Hr Hc Hd Hp Hnr. pose proof (cok_size _ Hc) as Hsz.
  unfold blk_update_request. erewrite st_bind_ok by (apply rq_get_ok; exact Hr).
  destruct (decide (bios rq = [])) as [Hnil|Hne].
  { rewrite bool_decide_true by done. exists rq. rewrite Hnil in Hc, Hd. cbn in Hd. rewrite insert_id by done.
    destruct (Z.ltb_spec nr (blk_rq_bytes rq)); [lia|]. rewrite Hnil. split; [|by destruct w].
    split; unfold rq_bytes, rq_segs; rewrite ?Hnil; cbn; rewrite ?drop_nil; try done; lia. }
  rewrite bool_decide_false by done.
  set (rq0 := if blk_fs_request rq then set_errors 0 rq else rq).
  assert (when (blk_fs_request rq) (rq_upd r (set_errors 0)) w = Ok (tt, set_rqs (<[r := rq0]> (rqs w)) w)) as Ew.
  { unfold rq0, when. destruct (blk_fs_request rq); [by apply rq_upd_ok|].
    rewrite insert_id by done. by destruct w. }
  rewrite (st_bind_ok _ _ _ _ _ Ew). set (w0 := set_rqs _ w).
  assert (bios rq0 = bios rq ∧ (∀ rq', advanced rq0 nr rq' → advanced rq nr rq') ∧
    blk_rq_bytes rq0 = blk_rq_bytes rq ∧ ∀ b, ended_bio error rq0 b = ended_bio error rq b)
    as (B0 & A0 & D0 & L0).
  { unfold rq0. destruct (blk_fs_request rq) eqn:?; split_and!; try done. by intros rq' []. }
  assert (private r w0 (chain_ids (bios rq0))) as Hp0.
  { rewrite B0. intros r' rq' Hr' Hne'. unfold w0 in Hr'. wcbn in Hr'. rewrite lookup_insert_ne in Hr' by done.
    by apply (Hp r' rq'). }
  rewrite <-B0 in Hc, Hd, Hsz |- *. rewrite <-D0 in Hd |- *.
  destruct (update_loop_spec r error (bios rq0) rq0 w0 (loop_fuel (bios rq0)) (UpdateState nr 0 0 0))
    as (s & E & HS); cbn [nr_bytes total_bytes bio_nbytes next_idx]; try done; try lia.
  { unfold w0. wcbn. by rewrite lookup_insert_eq, set_bios_id. }
  cbn [nr_bytes] in E. rewrite (st_bind_ok _ _ _ _ _ E).
  destruct (update_rest_ok r error w0 rq0 nr s) as (rq' & HA & E2); try done; [lia|].
  exists rq'. split; [by apply A0|]. rewrite E2. unfold w0. wcbn. rewrite insert_insert_eq.
  by rewrite (list_fmap_ext _ (ended_bio error rq) _ (λ _ b _, L0 b)).
Qed.

(** A read of two bios of a page each. *)
Definition page_bio (i : positive) (pos : Z) : bio :=
  {| bi_id := i; bi_sector := pos; bi_disk := 1; bi_flags := 1; bi_rw := 0; bi_idx := 0;
     bi_phys_segments := 0; bi_size := 4096; bi_seg_front_size := 0; bi_seg_back_size := 0;
     bi_has_vec := true; bi_io_vec := [BioVec (Zpos i) 4096 0]; bi_comp_cpu := 0; bi_integrity := false |}.
Definition two_bio_rq : request :=
  set_bios [page_bio 1 0; page_bio 2 8] (sample_rq 0 0 16).
Definition rq_world (r : rqid) (rq : request) : world unit :=
  {| rqs := {[ r := rq ]}; links := ∅; hash := []; queue := sample_queue; elevator_data := tt;
     jiffies := 0; kblockd := 0; ended := []; irqs := [] |}.

Lemma page_bio_ok i pos : Zpos i < 2 ^ 40 → bio_ok (page_bio i pos).
Proof.
  intros Hi. split; cbn; try done. constructor; [|done]. unfold bvec_ok. cbn.
  change PAGE_CACHE_SIZE with 4096. lia.
Qed.

Lemma blk_update_request_refines_witness :
  ∃ rq', advanced two_bio_rq 5000 rq' ∧
    blk_update_request (Rq 1) 0 5000 (rq_world (Rq 1) two_bio_rq) = Ok (true,
      set_ended (rev (ended_bio 0 two_bio_rq <$> take 1 (bios two_bio_rq)))
        (set_rqs (<[Rq 1 := rq']> (rqs (rq_world (Rq 1) two_bio_rq))) (rq_world (Rq 1) two_bio_rq))).
Proof.
  apply (blk_update_request_refines (rq_world (Rq 1) two_bio_rq) (Rq 1) two_bio_rq 0 5000).
  - done.
  - reflexivity.
  - split; [|repeat constructor; cbn; set_solver|done].
    apply Forall_cons. split; [by apply page_bio_ok|]. apply Forall_singleton. by apply page_bio_ok.
  - reflexivity.
  - intros r' rq' Hr' Hne. cbn in Hr'. by rewrite lookup_singleton_ne in Hr'.
  - lia.
Defined.

(** A barrier write that the device completes in two halves never ends: the
    proxy request leaves the size of the bio alone but moves its position, so
    the second half runs past the last vector of the bio.  The same bio in an
    ordinary request ends after the second half. *)
Theorem barrier_in_parts_stuck :
  let rq := set_bios [page_bio 1 0] (sample_rq 1 0 8) in
  (∃ w1, blk_update_request bar_rq 0 2048 (rq_world bar_rq rq) = Ok (true, w1) ∧
     blk_update_request bar_rq 0 2048 w1 = Err OOPS) ∧
  (∃ w1 w2, blk_update_request (Rq 1) 0 2048 (rq_world (Rq 1) rq) = Ok (true, w1) ∧
     blk_update_request (Rq 1) 0 2048 w1 = Ok (false, w2) ∧ length (ended w2) = 1%nat).
Proof.
  split.
  - let x := eval vm_compute in (blk_update_request bar_rq 0 2048
      (rq_world bar_rq (set_bios [page_bio 1 0] (sample_rq 1 0 8)))) in
    lazymatch x with Ok (_, ?w) => exists w end. split; vm_compute; reflexivity.
  - let x := eval vm_compute in (blk_update_request (Rq 1) 0 2048
      (rq_world (Rq 1) (set_bios [page_bio 1 0] (sample_rq 1 0 8)))) in
    lazymatch x with Ok (_, ?w) => exists w;
      let y := eval vm_compute in (blk_update_request (Rq 1) 0 2048 w) in
      lazymatch y with Ok (_, ?w2) => exists w2 end end.
    split; [|split]; vm_compute; reflexivity.
Qed.
