(* ===== verification/BioAdd.v ===== *)
(** * Filling bios and issuing them ([fs/bio.c], [block/blk-barrier.c])

    [bio_add_page] puts a piece of a page at the end of a bio;
    [blkdev_issue_discard] and [blkdev_issue_flush] make bios of their own and
    send them to a device.  The function [merge_bvec_fn] of the queue, the outcome
    of memory allocations and what the device makes of a bio are arguments. *)

From S2P Require Import Prelude KList Request Samples Settings Segments Complete.

Local Open Scope Z_scope.

Definition BIO_CLONED : Z := 4.
Definition BIO_INLINE_VECS : Z := 4.
Definition BIO_POOL_NONE : Z := 15.
Definition BIO_POOL_OFFSET : Z := 60.

(** ** Allocation *)
Definition bio_init (id : positive) : bio :=
  Bio id 0 1 (Z.shiftl 1 BIO_UPTODATE) 0 0 0 0 0 0 false [] (-1) false.

Definition BIO_MAX_PAGES : Z := 256.
Definition BIOVEC_MAX_IDX : Z := 5.
Definition bvec_slabs : list Z := [1; 4; 16; 64; 128; BIO_MAX_PAGES].
Definition bvec_nr_vecs (idx : Z) : Z := default 0 (bvec_slabs !! Z.to_nat idx).

(** What memory there is: the address of a bio from [bio_pool], whether a slab of
    vectors and the pool [bvec_pool] have some, and whether the caller may wait
    ([__GFP_WAIT]). *)
Record bio_memory := BioMemory {
  bm_bio : option positive;
  bm_slab : bool;
  bm_pool : bool;
  bm_wait : bool
}.

(** The index of the slab the vectors came from. *)
Definition bvec_alloc_bs (mem : bio_memory) (nr : Z) : option Z :=
  idx ← (if nr =? 1 then Some 0
         else if (2 <=? nr) && (nr <=? 4) then Some 1
         else if (5 <=? nr) && (nr <=? 16) then Some 2
         else if (17 <=? nr) && (nr <=? 64) then Some 3
         else if (65 <=? nr) && (nr <=? 128) then Some 4
         else if (129 <=? nr) && (nr <=? BIO_MAX_PAGES) then Some 5
         else None);
  let fallback := if bm_pool mem then Some BIOVEC_MAX_IDX else None in
  if idx =? BIOVEC_MAX_IDX then fallback
  else if bm_slab mem then Some idx
  else if bm_wait mem then fallback
  else None.

(** The bio and its [bi_max_vecs]. *)
Definition bio_alloc (mem : bio_memory) (nr_iovecs : Z) : option (bio * Z) :=
  id ← bm_bio mem;
  let b := bio_init id in
  let out_set (idx nr_iovecs : Z) (bvl : bool) :=
    Some (set_bi_has_vec bvl (set_bi_flags (u64 (Z.lor (bi_flags b) (Z.shiftl idx BIO_POOL_OFFSET))) b), nr_iovecs) in
  if nr_iovecs =? 0 then out_set BIO_POOL_NONE 0 false
  else if nr_iovecs <=? BIO_INLINE_VECS then out_set BIO_POOL_NONE BIO_INLINE_VECS true
  else idx ← bvec_alloc_bs mem nr_iovecs; out_set idx (bvec_nr_vecs idx) true.

(** A bio has room for the vectors asked for; with a pool, and up to 256 of them,
    there is one. *)
Lemma bio_alloc_room mem nr b mv : 0 ≤ nr → bio_alloc mem nr = Some (b, mv) → nr ≤ mv ∧ bi_io_vec b = [] ∧ bi_size b = 0.
Proof.
  intros Hn. unfold bio_alloc. destruct (bm_bio mem) as [id|]; [|done]. simpl.
  destruct (Z.eqb_spec nr 0); [intros [= <- <-]; subst; done|].
  destruct (Z.leb_spec nr BIO_INLINE_VECS); [intros [= <- <-]; split; [lia|done]|].
  destruct (bvec_alloc_bs mem nr) as [idx|] eqn:E; [|done]. simpl. intros [= <- <-]. split; [|done].
  unfold bvec_alloc_bs in E. apply bind_Some in E as (i & Ei & E).
  assert (nr ≤ bvec_nr_vecs i ∧ bvec_nr_vecs i ≤ bvec_nr_vecs BIOVEC_MAX_IDX) as [Hi Hm].
  { clear E. unfold BIO_MAX_PAGES in Ei. repeat case_match; simplify_eq; unfold bvec_nr_vecs, bvec_slabs, BIO_MAX_PAGES; simpl; lia. }
  destruct (i =? _), (bm_pool mem), (bm_slab mem), (bm_wait mem); simplify_eq/=; lia.
Qed.
Lemma bio_alloc_succeeds mem nr : is_Some (bm_bio mem) → bm_pool mem = true → bm_wait mem = true → 0 ≤ nr ≤ BIO_MAX_PAGES →
  is_Some (bio_alloc mem nr).
Proof.
  intros [id Hb] Hp Hw Hn. unfold bio_alloc, bvec_alloc_bs. rewrite Hb, Hp, Hw. unfold BIO_INLINE_VECS, BIO_MAX_PAGES, BIOVEC_MAX_IDX in *. simpl.
  destruct (Z.eqb_spec nr 0); [done|]. destruct (Z.leb_spec nr 4); [done|].
  destruct (bm_slab mem); repeat (case_match; simplify_eq/=; try done); lia.
Qed.

(** ** Adding a page *)
Record bvec_merge_data := BvecMergeData {
  bvm_bi_bdev : positive;
  bvm_bi_sector : Z;
  bvm_bi_size : Z;
  bvm_bi_rw : Z
}.

Section add.
Variable merge_bvec_fn : option (bvec_merge_data → bio_vec → Z).

(** [q->merge_bvec_fn && q->merge_bvec_fn(q, &bvm, bvec) < bvec->bv_len], where
    [size] goes to [bvm.bi_size]. *)
Definition merge_bvec_refuses (b : bio) (size : Z) (bvec : bio_vec) : bool :=
  match merge_bvec_fn with
  | Some f => u32 (f (BvecMergeData (bi_disk b) (bi_sector b) size (bi_rw b)) bvec) <? bv_len bvec
  | None => false
  end.

(** [page] continues the last vector [prev]. *)
Definition add_same_page (b : bio) (prev : bio_vec) (len : Z) : Z * bio :=
  let prev_bv_len := bv_len prev in
  let prev' := BioVec (bv_page prev) (u32 (bv_len prev + len)) (bv_offset prev) in
  let b' := set_bi_io_vec (alter_last (λ _, prev') (bi_io_vec b)) b in
  if merge_bvec_refuses b (u32 (bi_size b - prev_bv_len)) prev' then
    (0, set_bi_io_vec (alter_last (λ v, BioVec (bv_page v) (u32 (bv_len v - len)) (bv_offset v)) (bi_io_vec b')) b')
  else (s32 len, set_bi_size (u32 (bi_size b' + len)) b').

Definition add_new_page (q : request_queue) (bi_max_vecs : Z) (b : bio) (page len offset : Z) : Z * bio :=
  if bi_vcnt b >=? bi_max_vecs then (0, b) else
  let b := if bi_phys_segments b >=? queue_max_segments q then blk_recount_segments q b else b in
  if bi_phys_segments b >=? queue_max_segments q then (0, b) else
  let bvec := BioVec page len offset in
  if merge_bvec_refuses b (bi_size b) bvec then (0, b) else
  let b := match __BVEC_END b with
           | Some prev => if BIOVEC_PHYS_MERGEABLE prev bvec
                          then set_bi_flags (Z.land (bi_flags b) (Z.lnot (Z.shiftl 1 BIO_SEG_VALID))) b else b
           | None => b
           end in
  let b := set_bi_io_vec (bi_io_vec b ++ [bvec]) b in
  let b := set_bi_phys_segments (u32 (bi_phys_segments b + 1)) b in
  (s32 len, set_bi_size (u32 (bi_size b + len)) b).

(** The return value and the bio; [max_sectors] is an [unsigned short]. *)
Definition __bio_add_page (q : request_queue) (bi_max_vecs : Z) (b : bio) (page len offset max_sectors : Z) : Z * bio :=
  let max_sectors := u16 max_sectors in
  if bio_flagged b BIO_CLONED then (0, b) else
  if Z.shiftr (u32 (bi_size b + len)) 9 >? max_sectors then (0, b) else
  match __BVEC_END b with
  | Some prev =>
    if (page =? bv_page prev) && (offset =? u32 (bv_offset prev + bv_len prev)) then add_same_page b prev len
    else add_new_page q bi_max_vecs b page len offset
  | None => add_new_page q bi_max_vecs b page len offset
  end.

Definition bio_add_pc_page (q : request_queue) (bi_max_vecs : Z) (b : bio) (page len offset : Z) : Z * bio :=
  __bio_add_page q bi_max_vecs b page len offset (queue_max_hw_sectors q).
Definition bio_add_page (q : request_queue) (bi_max_vecs : Z) (b : bio) (page len offset : Z) : Z * bio :=
  __bio_add_page q bi_max_vecs b page len offset (queue_max_sectors q).
End add.

Definition bio_get_nr_vecs (q : request_queue) : Z :=
  let nr_pages := s32 (Z.shiftr (u64 (u32 (Z.shiftl (queue_max_sectors q) 9) + PAGE_CACHE_SIZE - 1)) PAGE_SHIFT) in
  if nr_pages >? queue_max_segments q then queue_max_segments q else nr_pages.

(** ** What is added *)

(** A bio being filled: its size is that of its vectors, within the limits. *)
Record bio_filled (max_vecs max_sectors : Z) (b : bio) : Prop := {
  bf_idx : bi_idx b = 0;
  bf_vecs : Forall bvec_ok (bi_io_vec b);
  bf_size : bi_size b = total_len (bi_io_vec b);
  bf_count : bi_vcnt b ≤ max_vecs;
  bf_limit : Z.shiftr (bi_size b) 9 ≤ u16 max_sectors
}.

Lemma bvec_end_last b : __BVEC_END b = last (bi_io_vec b).
Proof.
  unfold __BVEC_END, bio_iovec_idx, bi_vcnt. rewrite last_lookup. f_equal. lia.
Qed.

Lemma alter_last_app {A} (f : A → A) (l : list A) x : alter_last f (l ++ [x]) = l ++ [f x].
Proof. unfold alter_last. rewrite rev_app_distr. simpl. by rewrite rev_involutive. Qed.

Lemma recount_filled q mv ms b : bio_filled mv ms b →
  bio_filled mv ms (blk_recount_segments q b) ∧ bi_io_vec (blk_recount_segments q b) = bi_io_vec b ∧
  bi_size (blk_recount_segments q b) = bi_size b.
Proof.
  intros [Hi Hv Hs Hc Hl]. unfold blk_recount_segments, __blk_recalc_rq_segments, alter_last. cbn [fmap list_fmap concat].
  set (s := foldl _ _ _). cbn. destruct (_ >? _); by repeat split.
Qed.

Lemma filled_room mv ms b len : bio_filled mv ms b → 1 ≤ len ≤ PAGE_CACHE_SIZE →
  0 ≤ bi_size b ∧ u32 (bi_size b + len) = bi_size b + len.
Proof.
  intros [_ Hv Hs _ Hl] Hlen. pose proof (total_len_pos _ Hv). change PAGE_CACHE_SIZE with 4096 in Hlen.
  rewrite Z.shiftr_div_pow2 in Hl by done. assert (u16 ms < 2 ^ 16) by (unfold u16; apply Z.mod_pos_bound; done).
  assert (bi_size b < 2 ^ 26). { pose proof (Z.div_mod (bi_size b) (2 ^ 9) ltac:(done)). pose proof (Z.mod_pos_bound (bi_size b) (2 ^ 9) ltac:(done)). lia. }
  split; [lia|]. apply u32_id. lia.
Qed.

Section added.
Variable merge_bvec_fn : option (bvec_merge_data → bio_vec → Z).
Implicit Types (q : request_queue) (b : bio).

(** What became of [b] when [(n, b')] was returned for the piece [v]. *)
Record page_added (mv ms : Z) b (v : bio_vec) (n : Z) b' : Prop := {
  pa_filled : bio_filled mv ms b';
  pa_result : n = 0 ∧ bi_io_vec b' = bi_io_vec b ∧ bi_size b' = bi_size b ∨
    n = bv_len v ∧ bi_size b' = bi_size b + bv_len v ∧
    vec_bytes (bi_io_vec b') = vec_bytes (bi_io_vec b) ++ bv_bytes v
}.

Lemma same_page_ok mv ms b l prev len offset : bio_filled mv ms b → bi_io_vec b = l ++ [prev] →
  bvec_ok (BioVec (bv_page prev) len offset) → offset = u32 (bv_offset prev + bv_len prev) →
  Z.shiftr (bi_size b + len) 9 ≤ u16 ms →
  page_added mv ms b (BioVec (bv_page prev) len offset) (fst (add_same_page merge_bvec_fn b prev len))
    (snd (add_same_page merge_bvec_fn b prev len)).
Proof.
  intros Hf Hl Hv Ho Hlim. assert (1 ≤ len ≤ PAGE_CACHE_SIZE) as Hlen by (destruct Hv as (_ & ? & ? & ?); simpl in *; lia).
  destruct (filled_room _ _ _ _ Hf Hlen) as [Hb0 Hroom]. destruct Hf as [Hi Hvs Hs Hc _].
  pose proof Hvs as Hp. rewrite Hl in Hp. apply Forall_app in Hp as [Hvl Hp]. apply Forall_inv in Hp.
  destruct Hv as (Hv1 & Hv2 & Hv3 & Hv4), Hp as (Hp1 & Hp2 & Hp3 & Hp4). simpl in *. change PAGE_CACHE_SIZE with 4096 in *.
  rewrite u32_id in Ho by lia. unfold add_same_page. rewrite Hl, alter_last_app. rewrite (u32_id (bv_len prev + len)) by lia.
  destruct (merge_bvec_refuses _ _ _ _); cbn [fst snd].
  - cbn [bi_io_vec set_bi_io_vec]. rewrite alter_last_app. simpl bv_page. simpl bv_offset. simpl bv_len.
    rewrite (u32_id (bv_len prev + len - len)) by lia. replace (bv_len prev + len - len) with (bv_len prev) by lia.
    replace (BioVec (bv_page prev) (bv_len prev) (bv_offset prev)) with prev by (by destruct prev). rewrite <-Hl.
    split; [|by left]. split; try done. simpl. rewrite Hs. rewrite Z.shiftr_div_pow2 in * by done. 
    etrans; [|exact Hlim]. apply Z.div_le_mono; [done|lia].
  - rewrite s32_id by lia. split.
    + split; simpl; [done| | | |by rewrite Hroom].
      * apply Forall_app. split; [done|]. apply Forall_singleton. unfold bvec_ok. simpl. change PAGE_CACHE_SIZE with 4096. lia.
      * rewrite Hroom, Hs, Hl, !total_len_app. simpl. lia.
      * unfold bi_vcnt in *. simpl. rewrite Hl in Hc. rewrite length_app in *. done.
    + right. simpl. split; [done|]. split; [done|]. rewrite Hl, !vec_bytes_app, <-app_assoc. f_equal.
      unfold vec_bytes. simpl. rewrite !app_nil_r. unfold bv_bytes, bv_start. simpl. rewrite seqZ_app by lia. do 2 f_equal. lia.
Qed.

Lemma new_page_ok q mv ms b page len offset : bio_filled mv ms b → bvec_ok (BioVec page len offset) →
  Z.shiftr (bi_size b + len) 9 ≤ u16 ms →
  page_added mv ms b (BioVec page len offset) (fst (add_new_page merge_bvec_fn q mv b page len offset))
    (snd (add_new_page merge_bvec_fn q mv b page len offset)).
Proof.
  intros Hf Hv Hlim. assert (1 ≤ len ≤ PAGE_CACHE_SIZE) as Hlen by (destruct Hv as (_ & ? & ? & ?); simpl in *; lia).
  unfold add_new_page. destruct (Z.geb_spec (bi_vcnt b) mv) as [|Hvc]; [by split; [|left]|].
  set (b1 := if _ : bool then blk_recount_segments q b else b).
  assert (bio_filled mv ms b1 ∧ bi_io_vec b1 = bi_io_vec b ∧ bi_size b1 = bi_size b) as (Hf1 & Ev & Es).
  { unfold b1. destruct (_ >=? _); [by apply recount_filled|done]. }
  assert (page_added mv ms b (BioVec page len offset) 0 b1) as Hno by (split; [done|by left]).
  clearbody b1. destruct (bi_phys_segments b1 >=? _); [done|]. destruct (merge_bvec_refuses _ _ _ _); [done|].
  destruct (filled_room _ _ _ _ Hf1 Hlen) as [Hb0 Hroom]. destruct Hf1 as [Hi Hvs Hs Hc _].
  set (b2 := match __BVEC_END b1 with Some _ => _ | None => _ end).
  assert (bi_io_vec b2 = bi_io_vec b ∧ bi_size b2 = bi_size b ∧ bi_idx b2 = 0) as (Ev2 & Es2 & Ei2).
  { unfold b2. destruct (__BVEC_END b1) as [prev|]; [|done]. by destruct (BIOVEC_PHYS_MERGEABLE _ _). }
  clearbody b2. cbn [fst snd]. rewrite s32_id by (change PAGE_CACHE_SIZE with 4096 in Hlen; lia). rewrite Es in Hroom. split.
  - split; simpl; rewrite ?Ev2, ?Es2, ?Hroom; try done.
    + apply Forall_app. split; [by rewrite <-Ev|]. by apply Forall_singleton.
    + rewrite total_len_app, <-Ev, <-Hs, Es. simpl. lia.
    + unfold bi_vcnt in *. simpl. rewrite length_app. simpl. lia.
  - right. simpl. rewrite Ev2, Es2, Hroom. split; [done|]. split; [done|]. rewrite vec_bytes_app. f_equal.
    unfold vec_bytes. simpl. by rewrite app_nil_r.
Qed.

(** C31: A piece of a page put into a bio being filled either leaves its vectors and
    its size as they are, or is appended to what the bio transfers; the limits on
    sectors and vectors hold in both cases.  An empty bio takes a piece that is
    within the limit unless the driver refuses it. *)
Theorem bio_add_page_exact q mv ms b page len offset : bio_filled mv ms b → bvec_ok (BioVec page len offset) →
  let r := __bio_add_page merge_bvec_fn q mv b page len offset ms in
  page_added mv ms b (BioVec page len offset) (fst r) (snd r) ∧
  (bi_io_vec b = [] → bio_flagged b BIO_CLONED = false → Z.shiftr len 9 ≤ u16 ms → 1 ≤ mv →
   bi_phys_segments b < queue_max_segments q → merge_bvec_refuses merge_bvec_fn b 0 (BioVec page len offset) = false →
   fst r = len).
Proof.
  intros Hf Hv r. assert (1 ≤ len ≤ PAGE_CACHE_SIZE) as Hlen by (destruct Hv as (_ & ? & ? & ?); simpl in *; lia).
  destruct (filled_room _ _ _ _ Hf Hlen) as [Hb0 Hroom]. unfold r, __bio_add_page. rewrite Hroom. split.
  - destruct (bio_flagged b BIO_CLONED); [by split; [|left]|].
    destruct (Z.gtb_spec (Z.shiftr (bi_size b + len) 9) (u16 ms)) as [|Hlim]; [by split; [|left]|].
    rewrite bvec_end_last. destruct (last (bi_io_vec b)) as [prev|] eqn:El; [|by apply new_page_ok].
    destruct ((page =? bv_page prev) && (offset =? u32 (bv_offset prev + bv_len prev))) eqn:Ep; [|by apply new_page_ok].
    apply andb_true_iff in Ep as [->%Z.eqb_eq ->%Z.eqb_eq]. apply last_Some in El as [l El]. by eapply same_page_ok.
  - intros He Hcl Hlim Hmv Hps Hrf. rewrite Hcl. destruct Hf as [Hi _ Hs _ _]. rewrite He in Hs. cbn in Hs.
    rewrite bvec_end_last, He, Hs, Z.add_0_l. simpl last. destruct (Z.gtb_spec (Z.shiftr len 9) (u16 ms)); [lia|].
    unfold add_new_page, bi_vcnt. rewrite He. simpl length. destruct (Z.geb_spec (Z.of_nat 0) mv); [lia|].
    destruct (Z.geb_spec (bi_phys_segments b) (queue_max_segments q)); [lia|].
    destruct (Z.geb_spec (bi_phys_segments b) (queue_max_segments q)); [lia|]. rewrite Hs, Hrf. simpl.
    change PAGE_CACHE_SIZE with 4096 in Hlen. apply s32_id. lia.
Qed.
End added.

(** A bio with one piece, to which the rest of the page is added. *)
Definition half_filled : bio := set_bi_size 512 (set_bi_io_vec [BioVec 7 512 0] (bio_init 1)).
Lemma bio_add_page_exact_witness :
  page_added 4 255 half_filled (BioVec 7 3584 512) 3584
    (snd (__bio_add_page None sample_queue 4 half_filled 7 3584 512 255)) ∧
  fst (__bio_add_page None sample_queue 4 half_filled 7 3584 512 255) = 3584.
Proof.
  assert (fst (__bio_add_page None sample_queue 4 half_filled 7 3584 512 255) = 3584) as E by (vm_compute; reflexivity).
  split; [|exact E]. rewrite <-E at 1. apply (bio_add_page_exact None sample_queue 4 255 half_filled 7 3584 512).
  - split.
    + reflexivity.
    + apply Forall_singleton, (bool_decide_unpack _). vm_compute. exact I.
    + reflexivity.
    + vm_compute. discriminate.
    + vm_compute. discriminate.
  - apply (bool_decide_unpack _). vm_compute. exact I.
Defined.

(** A queue that takes transfers of 65536 sectors takes no sector from
    [bio_add_pc_page]: the limit is cut to 16 bits. *)
Theorem add_pc_page_truncated f q mv b page len offset : queue_max_hw_sectors q = 2 ^ 16 → bi_size b = 0 →
  512 ≤ len ≤ PAGE_CACHE_SIZE → bio_add_pc_page f q mv b page len offset = (0, b).
Proof.
  change PAGE_CACHE_SIZE with 4096. intros Hq Hb Hl. unfold bio_add_pc_page, __bio_add_page. rewrite Hq, Hb, u32_id by lia.
  destruct (bio_flagged b BIO_CLONED); [done|]. change (u16 (2 ^ 16)) with 0. rewrite Z.shiftr_div_pow2 by done.
  destruct (Z.gtb_spec ((0 + len) / 2 ^ 9) 0) as [|Hle]; [done|]. exfalso. assert (0 < (0 + len) / 2 ^ 9) by (apply Z.div_str_pos; lia). lia.
Qed.

(** ** Discards ([block/blk-barrier.c]) *)
Definition DISCARD_FL_BARRIER : Z := 2.
Definition DISCARD_NOBARRIER : Z := Z.lor 1 (Z.shiftl 1 BIO_RW_DISCARD).
Definition DISCARD_BARRIER : Z := Z.lor DISCARD_NOBARRIER (Z.shiftl 1 BIO_RW_BARRIER).
Definition WRITE_BARRIER : Z := Z.lor 1 (Z.shiftl 1 BIO_RW_BARRIER).
Definition UINT_MAX : Z := 2 ^ 32 - 1.

(** What [blkdev_discard_end_io] and [bio_end_empty_barrier] do to the flags,
    after [bio_endio]. *)
Definition end_io_flags (b : bio) (err : Z) : bio :=
  let '(b, err) := end_flags b err in
  if negb (err =? 0) then
    let b := if err =? - EOPNOTSUPP then set_bi_flags (Z.setbit (bi_flags b) BIO_EOPNOTSUPP) b else b in
    set_bi_flags (Z.clearbit (bi_flags b) BIO_UPTODATE) b
  else b.
Definition issue_result (b : bio) : Z :=
  if bio_flagged b BIO_EOPNOTSUPP then - EOPNOTSUPP
  else if negb (bio_flagged b BIO_UPTODATE) then - EIO
  else 0.

(** One round of the loop: the memory it gets for the bio and the page, and the
    error the bio has ended with when its flags are looked at, if it has ended;
    with [DISCARD_FL_WAIT] the loop waits until it has. *)
Record issue_round := IssueRound {
  ir_bio : bio_memory;
  ir_page : option Z;
  ir_end : option Z
}.
Definition after_io (e : option Z) (b : bio) : bio := match e with Some err => end_io_flags b err | None => b end.

Section discard.
Variable merge_bvec_fn : option (bvec_merge_data → bio_vec → Z).
Variable q : request_queue.
Variable disk : positive.
Variable rounds : nat → issue_round.

Definition max_discard : Z := Z.min (max_discard_sectors (q_limits q)) (Z.shiftr UINT_MAX 9).

(** The bio of one round, [None] where memory is lacking. *)
Definition discard_bio (e : issue_round) (sector : Z) : option bio :=
  let sector_size := logical_block_size (q_limits q) in
  '(b, mv) ← bio_alloc (ir_bio e) 1;
  let b := set_bi_disk disk (set_bi_sector sector b) in
  page ← ir_page e;
  let '(n, b) := bio_add_pc_page merge_bvec_fn q mv b page sector_size 0 in
  if u32 n <? sector_size then None else Some b.

(** The loop of [blkdev_issue_discard]: the return value and the bios submitted,
    in order; [i] counts the rounds. *)
Fixpoint discard_loop (fuel i : nat) (type sector nr_sects ret : Z) (issued : list bio) : res (Z * list bio) :=
  match fuel with
  | O => Err HANG
  | S fuel =>
    if (nr_sects =? 0) || negb (ret =? 0) then Ok (ret, issued) else
    match discard_bio (rounds i) sector with
    | None => Ok (- ENOMEM, issued)
    | Some b =>
      let '(size, nr_sects, sector) :=
        if nr_sects >? max_discard then (u32 (Z.shiftl max_discard 9), nr_sects - max_discard, u64 (sector + max_discard))
        else (u32 (Z.shiftl nr_sects 9), 0, sector) in
      let b := set_bi_rw (Z.lor (bi_rw b) type) (set_bi_size size b) in
      discard_loop fuel (S i) type sector nr_sects (issue_result (after_io (ir_end (rounds i)) b)) (issued ++ [b])
    end
  end.

(** [has_queue]: whether the device has a queue. *)
Definition blkdev_issue_discard (has_queue : bool) (fuel : nat) (sector nr_sects flags : Z) : res (Z * list bio) :=
  let type := if tst flags DISCARD_FL_BARRIER then DISCARD_BARRIER else DISCARD_NOBARRIER in
  if negb has_queue then Ok (- ENXIO, []) else
  if negb (blk_queue_discard q) then Ok (- EOPNOTSUPP, []) else
  discard_loop fuel 0 type sector nr_sects 0 [].
End discard.

(** [has_disk], [has_queue]: whether the device has a disk and a queue; [end_err]:
    the error the flush ends with; the bio is sent with [WRITE_BARRIER].  The
    return value, and the bio at the end. *)
Definition blkdev_issue_flush (has_disk has_queue : bool) (id disk : positive) (end_err : Z) : Z * option bio :=
  if negb has_disk then (- ENXIO, None) else
  if negb has_queue then (- ENXIO, None) else
  match bio_alloc (BioMemory (Some id) true true true) 0 with
  | None => (0, None)
  | Some (b, _) =>
    let b := set_bi_rw (Z.lor (bi_rw b) WRITE_BARRIER) (set_bi_disk disk b) in
    let b := end_io_flags b end_err in
    (issue_result b, Some b)
  end.

(** ** What a discard covers *)
Section covers.
Variable merge_bvec_fn : option (bvec_merge_data → bio_vec → Z).
Variable q : request_queue.
Variable disk : positive.
Variable rounds : nat → issue_round.
Hypothesis block_size : 0 < logical_block_size (q_limits q) < 2 ^ 31.

(** The sectors of a bio. *)
Definition bio_range (b : bio) : list Z := seqZ (bi_sector b) (bi_size b / 512).

Definition fresh_flags : Z := u64 (Z.lor (Z.shiftl 1 BIO_UPTODATE) (Z.shiftl BIO_POOL_NONE BIO_POOL_OFFSET)).

Lemma discard_bio_fresh e sector b : discard_bio merge_bvec_fn q disk e sector = Some b →
  bi_sector b = sector ∧ bi_disk b = disk ∧ bi_flags b = fresh_flags ∧ bi_rw b = 0.
Proof.
  unfold discard_bio, bio_alloc. destruct (bm_bio (ir_bio e)) as [id|]; [|done]. simpl. destruct (ir_page e) as [page|]; [|done]. simpl.
  set (b0 := set_bi_disk _ _). set (len := logical_block_size (q_limits q)) in *.
  assert (u32 0 <? len = true) as Hz by (apply Z.ltb_lt; change (u32 0) with 0; lia).
  unfold bio_add_pc_page, __bio_add_page. change (bio_flagged b0 BIO_CLONED) with false. cbn iota.
  destruct (_ >? _); [by rewrite Hz|]. change (__BVEC_END b0) with (@None bio_vec). cbn iota. unfold add_new_page.
  change (bi_vcnt b0) with 0. change (0 >=? BIO_INLINE_VECS) with false. cbn iota. change (bi_phys_segments b0) with 0.
  destruct (Z.geb_spec 0 (queue_max_segments q)) as [Hm|Hm].
  - change (bi_phys_segments (blk_recount_segments q b0)) with 0. destruct (Z.geb_spec 0 (queue_max_segments q)); [|lia]. by rewrite Hz.
  - change (bi_phys_segments b0) with 0. destruct (Z.geb_spec 0 (queue_max_segments q)); [lia|].
    destruct (merge_bvec_refuses _ _ _ _); [by rewrite Hz|]. change (__BVEC_END b0) with (@None bio_vec). cbn iota.
    destruct (u32 (s32 len) <? len); [done|]. by intros [= <-].
Qed.

(** A bio that has ended without error, or not yet, is no error. *)
Lemma fresh_result e b : bi_flags b = fresh_flags → e = Some 0 ∨ e = None → issue_result (after_io e b) = 0.
Proof.
  intros Hf [->| ->]; unfold after_io, end_io_flags, end_flags, issue_result, bio_flagged, test_bit; rewrite ?Hf; simpl.
  - change (Z.testbit fresh_flags BIO_UPTODATE) with true. simpl. by rewrite Hf.
  - done.
Qed.

Lemma issue_result_cases b : issue_result b = 0 ∨ issue_result b = - EOPNOTSUPP ∨ issue_result b = - EIO.
Proof. unfold issue_result. destruct (bio_flagged b BIO_EOPNOTSUPP); [by right; left|]. destruct (negb _); [by right; right|by left]. Qed.

(** The sectors covered by the bios of one call that starts at [sector]. *)
Record discarded (type sector nr : Z) (ret : Z) (bs : list bio) : Prop := {
  di_ret : ret = 0 ∨ ret = - EOPNOTSUPP ∨ ret = - EIO ∨ ret = - ENOMEM;
  di_range : ∃ m, 0 ≤ m ≤ nr ∧ concat (bio_range <$> bs) = seqZ sector m ∧ (ret = 0 → m = nr);
  di_bios : Forall (λ b, 0 < bi_size b ≤ 512 * max_discard q ∧ bi_disk b = disk ∧ bi_rw b = type) bs
}.

Lemma shl9 x : 0 ≤ x ≤ Z.shiftr UINT_MAX 9 → u32 (Z.shiftl x 9) = 512 * x.
Proof. change (Z.shiftr UINT_MAX 9) with 8388607. intros Hx. rewrite Z.shiftl_mul_pow2, u32_id by lia. lia. Qed.

(** One round: a bio of [k] sectors, then the rest. *)
Lemma discarded_cons type sector nr ret b k bs : 0 < k ≤ nr → k ≤ max_discard q → bi_sector b = sector → bi_size b = 512 * k →
  bi_disk b = disk → bi_rw b = type → discarded type (sector + k) (nr - k) ret bs → discarded type sector nr ret (b :: bs).
Proof.
  intros Hk Hmax Hs Hsz Hd Ht [Hret (m & Hm & Hc & Hall) Hbs]. split; [done| |].
  - exists (k + m). split; [lia|]. split; [|intros; specialize (Hall ltac:(done)); lia].
    rewrite fmap_cons. cbn [concat]. rewrite Hc. unfold bio_range at 1. rewrite Hs, Hsz.
    replace (512 * k / 512) with k by (rewrite Z.mul_comm, Z.div_mul; lia). symmetry. apply seqZ_app; lia.
  - apply Forall_cons. split; [|done]. split; [|done]. lia.
Qed.

Lemma discarded_end type sector nr ret : 0 ≤ nr → (ret = 0 → nr = 0) →
  ret = 0 ∨ ret = - EOPNOTSUPP ∨ ret = - EIO ∨ ret = - ENOMEM → discarded type sector nr ret [].
Proof. intros Hn H0 Hr. split; [done| |constructor]. exists 0. split; [lia|]. split; [done|]. intros E. by rewrite H0. Qed.

(** Every round gets its memory and the device reports no error. *)
Definition rounds_good : Prop := ∀ i sector, is_Some (discard_bio merge_bvec_fn q disk (rounds i) sector) ∧
  (ir_end (rounds i) = Some 0 ∨ ir_end (rounds i) = None).

Lemma discard_loop_ok fuel i type sector nr ret issued : 0 < max_discard q → 0 ≤ sector → 0 ≤ nr → sector + nr < 2 ^ 64 →
  (Z.to_nat nr < fuel)%nat → ret = 0 ∨ ret = - EOPNOTSUPP ∨ ret = - EIO →
  ∃ ret' bs, discard_loop merge_bvec_fn q disk rounds fuel i type sector nr ret issued = Ok (ret', issued ++ bs) ∧
    (ret = 0 → discarded type sector nr ret' bs) ∧ (ret = 0 → rounds_good → ret' = 0) ∧ (ret ≠ 0 → ret' = ret ∧ bs = []).
Proof.
  intros Hmax. revert i sector nr ret issued. induction fuel as [|fuel IH]; intros i sector nr ret issued Hs Hn Hb Hf Hret; [lia|].
  cbn [discard_loop]. destruct (Z.eqb_spec nr 0) as [->|Hnr]; simpl orb.
  { exists ret, []. rewrite app_nil_r. split_and!; [done| |done|done]. intros ->. apply discarded_end; [done|done|by left]. }
  destruct (Z.eqb_spec ret 0) as [->|Hr]; simpl negb; cbv iota; last first.
  { exists ret, []. rewrite app_nil_r. split_and!; done. }
  destruct (discard_bio merge_bvec_fn q disk (rounds i) sector) as [b|] eqn:Eb; last first.
  { exists (- ENOMEM), []. rewrite app_nil_r. split_and!; [done| |intros _ Hg; by destruct (Hg i sector) as [[? ?] _]; simplify_eq|done].
    intros _. apply discarded_end; [done|done|by right; right; right]. }
  destruct (discard_bio_fresh _ _ _ Eb) as (Ebs & Ebd & Ebf & Ebr).
  set (k := Z.min nr (max_discard q)).
  assert (Hm : max_discard q ≤ Z.shiftr UINT_MAX 9) by (unfold max_discard; lia).
  assert ((if nr >? max_discard q then (u32 (Z.shiftl (max_discard q) 9), nr - max_discard q, u64 (sector + max_discard q))
    else (u32 (Z.shiftl nr 9), 0, sector)) = (512 * k, nr - k, if nr >? max_discard q then sector + k else sector)) as ->.
  { unfold k. destruct (Z.gtb_spec nr (max_discard q)); rewrite ?Z.min_r, ?Z.min_l, ?shl9, ?u64_id by lia; repeat f_equal; lia. }
  set (b' := set_bi_rw _ _). set (ret1 := issue_result _).
  assert (Hr1 : ret1 = 0 ∨ ret1 = - EOPNOTSUPP ∨ ret1 = - EIO) by apply issue_result_cases.
  destruct (IH (S i) (if nr >? max_discard q then sector + k else sector) (nr - k) ret1 (issued ++ [b']))
    as (ret' & bs & E & Hd & Hg & Hz); [destruct (nr >? _); lia|lia| |lia|done|].
  { destruct (Z.gtb_spec nr (max_discard q)); lia. }
  exists ret', (b' :: bs). rewrite E, <-app_assoc. split; [done|].
  assert (Hcons : discarded type (sector + k) (nr - k) ret' bs → discarded type sector nr ret' (b' :: bs)).
  { apply discarded_cons; try done; [lia|lia|]. unfold b'. simpl. rewrite Ebr. apply Z.lor_0_l. }
  destruct (decide (ret1 = 0)) as [H1|H1]; last first.
  { destruct (Hz H1) as [-> ->]. split_and!; [|intros _ Hgood; exfalso; apply H1|done].
    - intros _. apply Hcons, discarded_end; [lia|done|naive_solver].
    - apply fresh_result; [done|]. apply (Hgood i sector). }
  split_and!; [|by intros _; apply Hg|done]. intros _. apply Hcons. specialize (Hd H1).
  destruct (Z.gtb_spec nr (max_discard q)); [done|]. assert (nr - k = 0) as E0 by lia. rewrite E0 in *.
  destruct Hd as [Hd1 (m & Hm' & Hc & Hm2) Hd3]. split; [done| |done]. exists m. split; [done|]. split; [|done].
  assert (m = 0) as -> by lia. by rewrite Hc.
Qed.

(** C30: A discard of the sectors [sector] to [sector + nr_sects] returns, and the
    bios it sends cover a first part of these sectors, in order, without gap or
    overlap, none larger than the device takes; all of them when the result is
    0, which it is when memory suffices and the device reports no error. *)
Theorem discard_covers fuel sector nr flags : blk_queue_discard q = true → 0 < max_discard q → 0 ≤ sector → 0 ≤ nr →
  sector + nr < 2 ^ 64 → (Z.to_nat nr < fuel)%nat →
  ∃ ret bs, blkdev_issue_discard merge_bvec_fn q disk rounds true fuel sector nr flags = Ok (ret, bs) ∧
    discarded (if tst flags DISCARD_FL_BARRIER then DISCARD_BARRIER else DISCARD_NOBARRIER) sector nr ret bs ∧
    (rounds_good → ret = 0).
Proof.
  intros Hq Hm Hs Hn Hb Hf. unfold blkdev_issue_discard. rewrite Hq. simpl negb. cbv iota.
  set (type := if tst flags DISCARD_FL_BARRIER then DISCARD_BARRIER else DISCARD_NOBARRIER).
  destruct (discard_loop_ok fuel 0 type sector nr 0 []) as (ret & bs & E & Hd & Hg & _); [done..|by left|].
  exists ret, bs. split; [exact E|]. split; [by apply Hd|by apply Hg].
Qed.

(** With a limit of 0, which is the default of a queue, the loop never ends. *)
Theorem discard_zero_limit_hangs fuel sector nr flags : blk_queue_discard q = true → max_discard_sectors (q_limits q) = 0 →
  0 < nr → 0 ≤ sector < 2 ^ 64 → rounds_good →
  blkdev_issue_discard merge_bvec_fn q disk rounds true fuel sector nr flags = Err HANG.
Proof.
  intros Hq Hm Hn Hs Hg. unfold blkdev_issue_discard. rewrite Hq. simpl negb. cbv iota.
  assert (max_discard q = 0) as E0 by (unfold max_discard; by rewrite Hm).
  generalize (if tst flags DISCARD_FL_BARRIER then DISCARD_BARRIER else DISCARD_NOBARRIER) as type. intros type.
  generalize 0%nat as i, (@nil bio) as issued. induction fuel as [|fuel IH]; intros i issued; [done|]. cbn [discard_loop].
  destruct (Z.eqb_spec nr 0); [lia|]. simpl. destruct (Hg i sector) as [[b Eb] He]. rewrite Eb.
  destruct (discard_bio_fresh _ _ _ Eb) as (_ & _ & Ebf & _). rewrite E0. destruct (Z.gtb_spec nr 0); [|lia].
  rewrite Z.sub_0_r, Z.add_0_r, u64_id, fresh_result by done. apply IH.
Qed.
End covers.

(** A device that discards at most 8 sectors at a time. *)
Definition discard_queue : request_queue :=
  set_queue_flags (Z.shiftl 1 QUEUE_FLAG_DISCARD) (blk_queue_max_discard_sectors 8 sample_queue).
Definition good_round (i : nat) : issue_round := IssueRound (BioMemory (Some 1%positive) true true true) (Some 7) (Some 0).

Lemma discard_covers_witness : ∃ ret bs,
  blkdev_issue_discard None discard_queue 1 good_round true 21 100 20 0 = Ok (ret, bs) ∧
  discarded discard_queue 1 DISCARD_NOBARRIER 100 20 ret bs ∧ ret = 0.
Proof.
  destruct (discard_covers None discard_queue 1 good_round ltac:(vm_compute; split; reflexivity) 21 100 20 0)
    as (ret & bs & E & Hd & Hg).
  - vm_compute. reflexivity.
  - vm_compute. reflexivity.
  - lia.
  - lia.
  - lia.
  - vm_compute. lia.
  - exists ret, bs. split; [exact E|]. split; [exact Hd|]. apply Hg. intros i sector. split; [|left; reflexivity].
    vm_compute. eexists. reflexivity.
Defined.

(** ** A flush *)

(** The result of a flush says how its bio ended. *)
Theorem flush_result id disk err : blkdev_issue_flush true true id disk err =
  (if err =? 0 then 0 else if err =? - EOPNOTSUPP then - EOPNOTSUPP else - EIO,
   snd (blkdev_issue_flush true true id disk err)).
Proof.
  unfold blkdev_issue_flush. simpl negb. cbv iota. destruct (bio_alloc _ _) as [[b ?]|] eqn:E; [|done].
  injection E as <- _. simpl. f_equal. unfold end_io_flags, end_flags. destruct (Z.eqb_spec err 0) as [->|Hn]; [reflexivity|].
  simpl. rewrite (proj2 (Z.eqb_neq _ _) Hn). simpl. destruct (Z.eqb_spec err (- EOPNOTSUPP)) as [->|]; reflexivity.
Qed.
