(* ===== verification/Noop.v ===== *)
(** * The no-op scheduler ([block/noop-iosched.c])

    One first-in first-out list of requests, [sched_head 0].  The file shows
    that the scheduler meets the contract of [Iosched], and that it dispatches
    in order of arrival. *)

From S2P Require Import Prelude KList Request Samples Elevator Iosched.

Local Open Scope Z_scope.

(** [struct noop_data] is the list head alone. *)
Record noop_data := NoopData {}.

(** [nd->queue] *)
Definition noop_queue : laddr := sched_head 0.

Definition noop_merged_requests (rq next : rqid) : ST (world noop_data) unit :=
  on_links (list_del_init (Ptr (queuelist next))).

Definition noop_dispatch (force : Z) : ST (world noop_data) Z :=
  e ← on_links (list_empty (Ptr noop_queue));
  if negb e then
    p ← on_links (get_next (Ptr noop_queue));
    rq ← lift (list_entry_rq p);
    on_links (list_del_init (Ptr (queuelist rq)));;
    elv_dispatch_sort rq;;
    mret 1
  else mret 0.

Definition noop_add_request (rq : rqid) : ST (world noop_data) unit :=
  on_links (list_add_tail (Ptr (queuelist rq)) (Ptr noop_queue)).

Definition noop_queue_empty : ST (world noop_data) bool :=
  on_links (list_empty (Ptr noop_queue)).

Definition noop_former_request (rq : rqid) : ST (world noop_data) (option rqid) :=
  p ← on_links (get_prev (Ptr (queuelist rq)));
  if bool_decide (p = Ptr noop_queue) then mret None
  else r ← lift (list_entry_rq p); mret (Some r).

Definition noop_latter_request (rq : rqid) : ST (world noop_data) (option rqid) :=
  p ← on_links (get_next (Ptr (queuelist rq)));
  if bool_decide (p = Ptr noop_queue) then mret None
  else r ← lift (list_entry_rq p); mret (Some r).

(** [alloc]: whether [kmalloc_node] returns memory.  The list node comes into
    existence with the allocation. *)
Definition noop_init_queue (alloc : bool)
    : ST (gmap laddr (list_head laddr)) (option noop_data) :=
  if negb alloc then mret None else
  modify (<[noop_queue := ListHead (Ptr noop_queue) (Ptr noop_queue)]>);;
  INIT_LIST_HEAD (Ptr noop_queue);;
  mret (Some NoopData).

Definition noop_exit_queue : ST (world noop_data) unit :=
  e ← on_links (list_empty (Ptr noop_queue));
  bug_on (negb e);;
  on_links (modify (delete noop_queue)).

Definition elevator_noop : elevator_ops noop_data := {|
  elevator_merge_fn := None;
  elevator_merged_fn := None;
  elevator_merge_req_fn := Some noop_merged_requests;
  elevator_allow_merge_fn := None;
  elevator_dispatch_fn := Some noop_dispatch;
  elevator_add_req_fn := Some noop_add_request;
  elevator_activate_req_fn := None;
  elevator_deactivate_req_fn := None;
  elevator_queue_empty_fn := Some noop_queue_empty;
  elevator_completed_req_fn := None;
  elevator_former_req_fn := Some noop_former_request;
  elevator_latter_req_fn := Some noop_latter_request;
  elevator_set_req_fn := None;
  elevator_put_req_fn := None;
  elevator_may_queue_fn := None;
  elevator_init_fn := Some noop_init_queue;
  elevator_exit_fn := Some noop_exit_queue
|}.

(** A request can be added when it exists and its list node does. *)
Definition noop_ready (w : world noop_data) (r : rqid) : Prop :=
  mapped (links w) (queuelist r) ∧ is_Some (rqs w !! r).

Implicit Types (w : world noop_data).

Lemma noop_dispatch_ok force w ds r xs :
  dispatch_rep w ds → one_list 0 w (r :: xs) → NoDup (ds ++ r :: xs) →
  ∃ w', noop_dispatch force w = Ok (1, w') ∧
    dispatch_rep w' (dispatch_insert (stops_at (rqs w) (end_sector (queue w)) r) r ds) ∧
    one_list 0 w' xs ∧ rqs w' = rqs w ∧
    nr_sorted (queue w') = u32 (nr_sorted (queue w) - 1) ∧
    (∀ a, mapped (links w) a ↔ mapped (links w') a).
Proof.
  intros Hd Ho Hnd. destruct (unlink_dispatch_ok 0 w ds [] r xs) as (h' & E & Hl1 & Hl2 & Hm);
    [done..|].
  unfold noop_dispatch, noop_queue. st_step (one_list_empty _ _ _ Ho). cbn.
  pose proof (one_is_list _ _ _ Ho) as [_ Hs].
  st_step (on_links_read _ _ _ (get_next_ok _ _ _ (seg_head _ _ _ _ Hs))).
  rewrite (st_bind_ok _ _ w r w eq_refl), st_bind_assoc. st_step E.
  eexists. split; [reflexivity|]. split_and!; [| |done..|exact Hm].
  - split; [done|]. intros p. rewrite dispatch_insert_perm.
    intros [->|Hp]%elem_of_cons; [apply (one_live _ _ _ Ho); by left|].
    by apply (dispatch_live _ _ Hd).
  - split; [done|]. intros p Hp. apply (one_live _ _ _ Ho). by right.
Qed.

#[global] Instance noop_iosched : IoSched elevator_noop (one_list 0) noop_ready.
Proof.
  split.
  - intros w xs r Ho Hr. by apply (one_live _ _ _ Ho).
  - apply one_list_nodup.
  - intros w w' xs ns Ho _. by apply one_list_frame.
  - intros w w' r [Hm [rq Hr]] _ El Hrq. split; [by rewrite El|].
    destruct (Hrq rq Hr) as [f ->]. eauto.
  - intros w ds Hd Ho. exists noop_dispatch. split; [done|].
    unfold noop_dispatch, noop_queue. by st_step (one_list_empty _ _ _ Ho).
  - intros w ds [|r xs] Hd Ho Hnd Hne; [done|].
    destruct (noop_dispatch_ok 1 w ds r xs) as (w' & E & Hd' & Ho' & Erq & Enr & Hm); [done..|].
    exists noop_dispatch, 1, w', r, xs, (dispatch_insert (stops_at (rqs w) (end_sector (queue w)) r) r ds).
    split_and!; try done; [apply dispatch_insert_perm|by intros a ?; apply Hm].
  - intros w ds xs r Hd Ho Hnd Hn [Hm Hr].
    destruct (add_tail_ok 0 w ds xs r) as (h' & E & Hd' & Ho'); try done.
    { by apply NoDup_app in Hnd as (_ & ? & _). }
    exists noop_add_request, (set_links h' w), [], xs, (xs ++ [r]).
    split_and!; try done; [by rewrite Permutation_app_comm|by rewrite app_nil_r].
  - intros w ds xs Hd Ho. exists noop_queue_empty. split; [done|].
    by apply one_list_empty.
Qed.
