(* ===== verification/Dispatch.v ===== *)
(** * The elevator core against the contract of its schedulers

    What [block/elevator.c] guarantees for any scheduler that keeps the contract
    of [Iosched]: a barrier is queued behind everything added before it, the
    dispatch queue is kept as a one-way sweep, and [elv_merge] returns the merge
    candidate of the last merge, of the merge hash or of the scheduler. *)

From Stdlib Require Import Sorting.Sorted.
From S2P Require Import Prelude KList Request Samples Elevator Iosched Noop.

Local Open Scope Z_scope.

(** ** The dispatch queue as a sweep *)

(** Requests at or above [boundary] come first, then those below it; by
    position within each part. *)
Definition sweep_le (boundary : Z) (rq pos : request) : bool :=
  if blk_rq_pos rq >=? boundary
  then (blk_rq_pos pos <? boundary) || (blk_rq_pos rq <=? blk_rq_pos pos)
  else (blk_rq_pos pos <? boundary) && (blk_rq_pos rq <=? blk_rq_pos pos).

(** No request may pass [pos], whatever its position: it is a barrier or
    started, or it is of another kind than [rq]. *)
Definition fence (rq pos : request) : bool :=
  negb (eqb (blk_discard_rq rq) (blk_discard_rq pos)) ||
  negb (rq_data_dir rq =? rq_data_dir pos) || tst (cmd_flags pos) stop_flags.

Definition swept (tbl : gmap rqid request) (boundary : Z) (p q : rqid) : Prop :=
  ∃ prq qrq, tbl !! p = Some prq ∧ tbl !! q = Some qrq ∧ sweep_le boundary prq qrq = true.

Lemma sweep_le_trans bd a b c : sweep_le bd a b = true → sweep_le bd b c = true → sweep_le bd a c = true.
Proof.
  unfold sweep_le. destruct (Z.geb_spec (blk_rq_pos a) bd), (Z.geb_spec (blk_rq_pos b) bd); intros; bprop; lia.
Qed.
Lemma stops_sweep bd rq pos : stops bd rq pos = fence rq pos || sweep_le bd pos rq.
Proof.
  unfold stops, sort_step, fence, sweep_le.
  destruct (negb (eqb _ _)), (negb (_ =? _)), (tst _ _); try done. cbn [orb].
  destruct (Z.geb_spec (blk_rq_pos rq) bd), (Z.ltb_spec (blk_rq_pos pos) bd), (Z.geb_spec (blk_rq_pos pos) bd),
    (Z.ltb_spec (blk_rq_pos rq) bd), (Z.geb_spec (blk_rq_pos rq) (blk_rq_pos pos)),
    (Z.leb_spec (blk_rq_pos pos) (blk_rq_pos rq)); try done; lia.
Qed.
Lemma sweep_le_total bd a b : sweep_le bd a b = false → sweep_le bd b a = true.
Proof.
  unfold sweep_le. destruct (Z.geb_spec (blk_rq_pos a) bd), (Z.geb_spec (blk_rq_pos b) bd); intros; bprop; lia.
Qed.

Lemma dispatch_insert_split stop r ds : ∃ l1 l2, ds = l1 ++ l2 ∧
  dispatch_insert stop r ds = l1 ++ r :: l2 ∧ (∀ p, p ∈ l2 → stop p = false) ∧
  (∀ p, last l1 = Some p → stop p = true).
Proof.
  unfold dispatch_insert. induction ds as [|p ds IH] using rev_ind.
  { exists [], []. split_and!; [done|done|by intros ? ?%elem_of_nil|done]. }
  rewrite rev_app_distr. cbn [rev app ins_rev]. destruct (stop p) eqn:E.
  - exists (ds ++ [p]), []. rewrite app_nil_r. cbn [rev]. rewrite rev_involutive.
    split_and!; [done|done|by intros ? ?%elem_of_nil|]. intros q. rewrite last_snoc. by intros [= <-].
  - destruct IH as (l1 & l2 & E1 & E2 & H2 & H1). exists l1, (l2 ++ [p]). cbn [rev]. rewrite E2, E1.
    split_and!; [by rewrite app_assoc|by rewrite <-app_assoc| |done].
    intros q [Hq|Hq]%elem_of_app; [by apply H2|]. apply list_elem_of_singleton in Hq as ->. done.
Qed.

(** The scan does not go past a prefix that ends in a request it stops at. *)
Lemma split_after_fence {A} (d1 d2 l1 l2 : list A) :
  d1 ++ d2 = l1 ++ l2 → (∀ p, last d1 = Some p → p ∉ l2) → ∃ l, l1 = d1 ++ l ∧ d2 = l ++ l2.
Proof.
  intros E Hf. apply app_eq_inv in E as [(l & -> & E)|(l & -> & E)].
  - destruct l as [|x l _] using rev_ind; [exists []; by rewrite !app_nil_r, E|].
    exfalso. apply (Hf x); [by rewrite app_assoc, last_snoc|]. rewrite E. set_solver.
  - by exists l.
Qed.

Lemma insert_sorted_mid {A} (R : A → A → Prop) l1 x l2 : Transitive R →
  StronglySorted R (l1 ++ l2) → (∀ p, last l1 = Some p → R p x) → (∀ p, p ∈ l2 → R x p) →
  StronglySorted R (l1 ++ x :: l2).
Proof.
  intros HR Hs H1 H2. induction l1 as [|a l1 IH]; cbn [app] in *.
  { constructor; [done|]. by apply Forall_forall. }
  apply StronglySorted_inv in Hs as [Hs Ha].
  assert (∀ p, last l1 = Some p → R p x) as H1'.
  { intros p Hp. apply H1. by destruct l1. }
  constructor; [by apply IH|]. rewrite Forall_app in Ha. destruct Ha as [Ha1 Ha2].
  apply Forall_app. split; [done|]. constructor; [|done].
  destruct (last l1) as [p|] eqn:E; [|apply last_None in E as ->; by apply H1].
  trans p; [|by apply H1']. rewrite Forall_forall in Ha1. by apply Ha1, last_Some_elem_of.
Qed.

#[global] Instance swept_trans tbl bd : Transitive (swept tbl bd).
Proof.
  intros a b c (x & y & ? & ? & ?) (y' & z & ? & ? & ?). exists x, z. simplify_eq.
  eauto using sweep_le_trans.
Qed.

(** Where the scan for [r] places it among [d1 ++ d2], of which it may pass [d2]. *)
Lemma dispatch_insert_sweep tbl bd d1 d2 r rq : tbl !! r = Some rq →
  (∀ p, p ∈ d1 ++ d2 → is_Some (tbl !! p)) →
  (∀ p prq, last d1 = Some p → tbl !! p = Some prq → fence rq prq = true) →
  (∀ p prq, p ∈ d2 → tbl !! p = Some prq → fence rq prq = false) →
  StronglySorted (swept tbl bd) d2 →
  ∃ l1 l2, d2 = l1 ++ l2 ∧ dispatch_insert (stops_at tbl bd r) r (d1 ++ d2) = d1 ++ l1 ++ r :: l2 ∧
    StronglySorted (swept tbl bd) (l1 ++ r :: l2) ∧ (∀ p, p ∈ l2 → ¬ swept tbl bd p r).
Proof.
  intros Hr Hlive Hf1 Hf2 Hs.
  assert (∀ p prq, tbl !! p = Some prq → stops_at tbl bd r p = fence rq prq || sweep_le bd prq rq) as Hst.
  { intros p prq Hp. unfold stops_at. rewrite Hr, Hp. apply stops_sweep. }
  destruct (dispatch_insert_split (stops_at tbl bd r) r (d1 ++ d2)) as (k1 & l2 & Ek & Ei & H2 & H1).
  destruct (split_after_fence d1 d2 k1 l2 Ek) as (l1 & -> & ->).
  { intros p Hp Hp2. destruct (Hlive p) as [prq Hprq]; [apply last_Some_elem_of in Hp; set_solver|].
    pose proof (Hst p prq Hprq) as Es. by rewrite H2, (Hf1 p prq) in Es. }
  assert (∀ p, p ∈ l1 ++ l2 → ∃ prq, tbl !! p = Some prq ∧ stops_at tbl bd r p = sweep_le bd prq rq) as Hsw.
  { intros p Hp. destruct (Hlive p) as [prq Hprq]; [set_solver|]. exists prq.
    by rewrite (Hst p prq), (Hf2 p prq). }
  exists l1, l2. rewrite Ei, <-app_assoc. split_and!; [done|done|apply insert_sorted_mid; [apply _|done|..]|].
  - intros p Hp. destruct (Hsw p) as (prq & Hprq & Es); [apply last_Some_elem_of in Hp; set_solver|].
    exists prq, rq. split_and!; [done..|]. rewrite <-Es. apply H1. by rewrite last_app, Hp.
  - intros p Hp. destruct (Hsw p) as (prq & Hprq & Es); [set_solver|]. exists rq, prq. split_and!; [done..|].
    apply sweep_le_total. rewrite <-Es. by apply H2.
  - intros p Hp (prq & rq' & Hprq & Hr' & Hle). simplify_eq.
    destruct (Hsw p) as (prq' & ? & Es); [set_solver|]. simplify_eq. rewrite H2 in Es by done. congruence.
Qed.

(** C32: [elv_dispatch_sort] keeps the dispatch queue a sweep: behind the last
    request that may not be passed, the requests are ordered by position from the
    sector where the queue last ended, those below it at the end; the new request
    is placed in this order and behind those at the same position, and it leaves
    the merge hash and the merge cache. *)
Theorem elv_dispatch_sort_sweep {D} (w : world D) d1 d2 r rq :
  dispatch_rep w (d1 ++ d2) → rqs w !! r = Some rq → r ∉ d1 ++ d2 → mapped (links w) (queuelist r) →
  (∀ p prq, last d1 = Some p → rqs w !! p = Some prq → fence rq prq = true) →
  (∀ p prq, p ∈ d2 → rqs w !! p = Some prq → fence rq prq = false) →
  StronglySorted (swept (rqs w) (end_sector (queue w))) d2 →
  ∃ w' l1 l2, elv_dispatch_sort r w = Ok (tt, w') ∧ d2 = l1 ++ l2 ∧
    dispatch_rep w' (d1 ++ l1 ++ r :: l2) ∧ rqs w' = rqs w ∧
    StronglySorted (swept (rqs w) (end_sector (queue w))) (l1 ++ r :: l2) ∧
    (∀ p, p ∈ l2 → ¬ swept (rqs w) (end_sector (queue w)) p r) ∧
    ELV_ON_HASH r (hash w') = false ∧ last_merge (queue w') ≠ Some r.
Proof.
  intros Hd Hr Hn Hm Hf1 Hf2 Hs. pose proof (dispatch_live _ _ Hd) as Hlive.
  destruct (elv_dispatch_sort_ok w (d1 ++ d2) r rq) as (h' & E & Hl & _);
    [apply (dispatch_list _ _ Hd)|done|done|done..|].
  destruct (dispatch_insert_sweep (rqs w) (end_sector (queue w)) d1 d2 r rq)
    as (l1 & l2 & -> & Ei & Hs' & Hst); [done..|].
  rewrite Ei in Hl. eexists _, l1, l2. split; [exact E|]. split_and!; [done| |done|done|done|apply hash_del_off|].
  - split; [done|]. cbn [rqs]. intros p. rewrite !elem_of_app, elem_of_cons.
    intros [Hp|[Hp|[->|Hp]]]; [|..|eauto|]; apply Hlive; set_solver.
  - cbn. by case_bool_decide.
Qed.

(** A started request, two reads behind it, and a read that belongs between. *)
Definition sweep_world : world noop_data :=
  sample_world NoopData
    [(Rq 1, set_cmd_flags (Z.lor REQ_ELVPRIV REQ_STARTED) (sample_rq 0 500 8)); (Rq 2, sample_rq 0 100 8);
     (Rq 3, sample_rq 0 300 8); (Rq 4, sample_rq 0 200 8)] [Rq 1; Rq 2; Rq 3] [Rq 4].

Lemma elv_dispatch_sort_sweep_witness :
  ∃ w' l1 l2, elv_dispatch_sort (Rq 4) sweep_world = Ok (tt, w') ∧ [Rq 2; Rq 3] = l1 ++ l2 ∧
    dispatch_rep w' ([Rq 1] ++ l1 ++ Rq 4 :: l2) ∧ rqs w' = rqs sweep_world ∧
    StronglySorted (swept (rqs sweep_world) 0) (l1 ++ Rq 4 :: l2) ∧
    (∀ p, p ∈ l2 → ¬ swept (rqs sweep_world) 0 p (Rq 4)) ∧
    ELV_ON_HASH (Rq 4) (hash w') = false ∧ last_merge (queue w') ≠ Some (Rq 4).
Proof.
  apply (elv_dispatch_sort_sweep sweep_world [Rq 1] [Rq 2; Rq 3] (Rq 4) (sample_rq 0 200 8)).
  - apply (bool_decide_unpack _). vm_compute. exact I.
  - reflexivity.
  - apply (bool_decide_unpack _). vm_compute. exact I.
  - vm_compute. eexists. reflexivity.
  - intros p prq [= <-]. vm_compute. by intros [= <-].
  - intros p prq [->|[->|?%elem_of_nil]%elem_of_cons]%elem_of_cons; [..|done]; vm_compute; by intros [= <-].
  - repeat constructor. eexists _, _. split_and!; vm_compute; reflexivity.
Defined.

(** ** Merge candidates *)

(** [elv_rq_merge_ok] for a scheduler without a veto. *)
Definition joinable (rq : request) (b : bio) : bool :=
  rq_mergeable rq &&
  match bios rq with
  | [] => false
  | b0 :: _ => eqb (bio_rw_flagged b BIO_RW_DISCARD) (bio_rw_flagged b0 BIO_RW_DISCARD)
  end &&
  (bio_data_dir b =? rq_data_dir rq) && bool_decide (rq_disk rq = Some (bi_disk b)) &&
  negb (special rq) && eqb (bi_integrity b) (blk_integrity_rq rq).

(** [b] continues [rq] at its end or at its start. *)
Definition continues (rq : request) (b : bio) (ret : Z) : Prop :=
  (ret = ELEVATOR_BACK_MERGE ∧ rq_hash_key rq = bi_sector b) ∨
  (ret = ELEVATOR_FRONT_MERGE ∧ u64 (blk_rq_pos rq - bio_sectors b) = bi_sector b).

(** The request [elv_rqhash_find] comes across first: in the chain of [off], one
    that may be merged and ends at [off]. *)
Definition ends_at (tbl : gmap rqid request) (off : Z) (r : rqid) : bool :=
  match tbl !! r with Some rq => rq_mergeable rq && (rq_hash_key rq =? off) | None => false end.
Definition hash_hit (tbl : gmap rqid request) (h : list (list rqid)) (off : Z) : option rqid :=
  h !! Z.to_nat (ELV_HASH_FN off) ≫= List.find (ends_at tbl off).

Section candidates.
Context {D : Type} (ops : elevator_ops D) (b : bio).
Implicit Types (w : world D).

(** The veto of the scheduler looks at its own data and the requests, and changes
    nothing. *)
Definition vetoes w (allow : rqid → bool) : Prop := ∀ r w', elevator_data w' = elevator_data w → rqs w' = rqs w →
  elv_iosched_allow_merge ops r b w' = Ok (allow r, w').
Context (allow : rqid → bool).

Lemma elv_rq_merge_ok_eval r w rq : vetoes w allow → rqs w !! r = Some rq → bios rq ≠ [] →
  elv_rq_merge_ok ops r b w = Ok (joinable rq b && allow r, w).
Proof.
  intros Hv Hr Hne. unfold elv_rq_merge_ok, joinable.
  st_step (rq_get_ok _ _ _ Hr). destruct (rq_mergeable rq); [|done]. cbn [negb andb].
  destruct (bios rq) as [|b0 bs]; [done|]. erewrite st_bind_ok by reflexivity.
  destruct (eqb (bio_rw_flagged b BIO_RW_DISCARD) _); [|done]. cbn [negb andb].
  destruct (bio_data_dir b =? rq_data_dir rq); [|done]. cbn [negb andb].
  destruct (bool_decide _); [|done]. cbn [negb andb orb]. destruct (special rq); [done|]. cbn [negb andb].
  destruct (eqb (bi_integrity b) _); [|done]. cbn [negb andb]. rewrite (st_bind_ok _ _ _ _ _ (Hv r w eq_refl eq_refl)).
  by destruct (allow r).
Qed.

Lemma elv_try_merge_ok r w rq : vetoes w allow → rqs w !! r = Some rq → bios rq ≠ [] →
  ∃ ret, elv_try_merge ops r b w = Ok (ret, w) ∧
    ((ret = ELEVATOR_NO_MERGE ∧ (joinable rq b && allow r = true → ∀ ret, ¬ continues rq b ret)) ∨
     (joinable rq b && allow r = true ∧ continues rq b ret)).
Proof.
  intros Hv Hr Hne. unfold elv_try_merge, continues. st_step (elv_rq_merge_ok_eval r w rq Hv Hr Hne).
  destruct (joinable rq b && allow r) eqn:Ej; [|by eexists; split; [|left]]. st_step (rq_get_ok _ _ _ Hr).
  fold (rq_hash_key rq).
  destruct (Z.eqb_spec (rq_hash_key rq) (bi_sector b)); [eexists; split; [done|]; auto|].
  destruct (Z.eqb_spec (u64 (blk_rq_pos rq - bio_sectors b)) (bi_sector b)); [eexists; split; [done|]; auto|].
  eexists. split; [done|]. left. split; [done|]. naive_solver.
Qed.

(** The scan returns the first request of the chain that ends at [off]. *)
Lemma rqhash_scan_find off c w : NoDup c → hash_wf (rqs w) (hash w) →
  (∀ r, r ∈ c → ELV_ON_HASH r (hash w) = true) →
  ∃ h', rqhash_scan off c w = Ok (List.find (ends_at (rqs w) off) c, set_hash h' w).
Proof.
  revert w. induction c as [|r c IH]; intros w Hnd Hw Hon; cbn [rqhash_scan List.find].
  { exists (hash w). by destruct w. }
  apply NoDup_cons in Hnd as [Hr Hnd]. assert (ELV_ON_HASH r (hash w) = true) as Honr by (apply Hon; by left).
  pose proof Honr as (i & d & Hi & Hd)%on_hash_spec. destruct (hash_chain _ _ Hw i d r Hi Hd) as (rq & Hrq & _).
  erewrite (st_bind_ok (gets hash)) by reflexivity. rewrite Honr. erewrite (st_bind_ok (bug_on _)) by reflexivity.
  st_step (rq_get_ok _ _ _ Hrq). unfold ends_at at 1. rewrite Hrq. destruct (rq_mergeable rq); cbn [negb andb].
  - destruct (rq_hash_key rq =? off); [exists (hash w); by destruct w|].
    apply IH; [done..|]. intros p Hp. apply Hon. by right.
  - erewrite st_bind_ok by reflexivity. destruct (IH (set_hash (hash_del r (hash w)) w)) as (h' & E);
      [done|by apply hash_del_wf| |by exists h'].
    intros p Hp. apply on_hash_del. split; [apply Hon; by right|]. by intros ->.
Qed.

Lemma elv_rqhash_find_hit w : hash_wf (rqs w) (hash w) → let off := bi_sector b in
  ∃ h', elv_rqhash_find off w = Ok (hash_hit (rqs w) (hash w) off, set_hash h' w) ∧ hash_wf (rqs w) h' ∧
    (∀ r rq, ELV_ON_HASH r (hash w) = true → rqs w !! r = Some rq → rq_mergeable rq = true → ELV_ON_HASH r h' = true).
Proof.
  intros Hw off. destruct (elv_rqhash_find_ok off w Hw) as (o & h' & E & Hw' & Hk & _).
  exists h'. split; [|done]. rewrite E. destruct (hash_bucket _ _ off Hw) as [c Hc].
  revert E. unfold elv_rqhash_find, hash_hit. erewrite (st_bind_ok (gets hash)) by reflexivity. rewrite Hc.
  erewrite (st_bind_ok (lift _)) by reflexivity.
  destruct (rqhash_scan_find off c w) as (h2 & ->); [by apply (hash_once _ _ Hw _ _ Hc)|done| |].
  { intros r Hr. apply on_hash_spec. eauto. }
  by intros [= <- ->].
Qed.

Lemma hash_hit_some w r : hash_wf (rqs w) (hash w) → hash_hit (rqs w) (hash w) (bi_sector b) = Some r →
  ELV_ON_HASH r (hash w) = true ∧ ∃ rq, rqs w !! r = Some rq ∧ rq_hash_key rq = bi_sector b.
Proof.
  intros Hw (c & Hc & Hf)%bind_Some. apply find_some in Hf as [Hin%list_elem_of_In He].
  split; [apply on_hash_spec; eauto|]. unfold ends_at in He. destruct (rqs w !! r) as [rq|]; [|done].
  exists rq. split; [done|]. by bprop.
Qed.
Lemma hash_hit_none w r rq : hash_wf (rqs w) (hash w) → ELV_ON_HASH r (hash w) = true → rqs w !! r = Some rq →
  rq_mergeable rq = true → rq_hash_key rq = bi_sector b → hash_hit (rqs w) (hash w) (bi_sector b) ≠ None.
Proof.
  intros Hw (i & c & Hi & Hin)%on_hash_spec Hr Hm Hk. destruct (hash_chain _ _ Hw i c r Hi Hin) as (? & ? & ->).
  simplify_eq. unfold hash_hit. rewrite <-Hk, Hi. cbn. intros He.
  pose proof (find_none _ _ He r ltac:(by apply list_elem_of_In)) as Hn. unfold ends_at in Hn.
  by rewrite Hr, Hm, Z.eqb_refl in Hn.
Qed.

(** What is left when the core finds nothing: the scheduler's own search. *)
Definition own_merge : ST (world D) (Z * option rqid) :=
  q ← q_get;
  if blk_queue_nomerges q || blk_queue_noxmerges q then mret (ELEVATOR_NO_MERGE, None) else
  match elevator_merge_fn ops with Some f => f b | None => mret (ELEVATOR_NO_MERGE, None) end.

(** The core finds [r], which [b] continues. *)
Definition core_finds w (ret : Z) (r : rqid) : Prop :=
  (last_merge (queue w) = Some r ∨ ELV_ON_HASH r (hash w) = true) ∧
  ∃ rq, rqs w !! r = Some rq ∧ joinable rq b && allow r = true ∧ continues rq b ret.

(** The core has nothing for [b]: it does not continue the request merged last, and
    either no request of the hash ends where it starts, or the first one the scan
    comes across is of another kind or not allowed. *)
Definition core_has_none w : Prop :=
  (blk_queue_nomerges (queue w) = false → ∀ lm rq ret, last_merge (queue w) = Some lm → rqs w !! lm = Some rq →
     joinable rq b && allow lm = true → ¬ continues rq b ret) ∧
  (blk_queue_nomerges (queue w) || blk_queue_noxmerges (queue w) = false →
   ∀ r rq, ELV_ON_HASH r (hash w) = true → rqs w !! r = Some rq → rq_mergeable rq = true →
     rq_hash_key rq = bi_sector b →
     ∃ r1 rq1, hash_hit (rqs w) (hash w) (bi_sector b) = Some r1 ∧ rqs w !! r1 = Some rq1 ∧
       joinable rq1 b && allow r1 = false).

(** Only requests that may not be merged leave the hash. *)
Definition hash_kept w h' : Prop :=
  hash_wf (rqs w) h' ∧
  ∀ r rq, ELV_ON_HASH r (hash w) = true → rqs w !! r = Some rq → rq_mergeable rq = true → ELV_ON_HASH r h' = true.

Lemma hash_kept_id w : hash_wf (rqs w) (hash w) → hash_kept w (hash w).
Proof. intros Hw. by split. Qed.

Lemma elv_merge_hash_ok w : vetoes w allow → hash_wf (rqs w) (hash w) → blk_queue_nomerges (queue w) = false →
  (∀ r rq, ELV_ON_HASH r (hash w) = true → rqs w !! r = Some rq → bios rq ≠ []) →
  (∀ lm rq ret, last_merge (queue w) = Some lm → rqs w !! lm = Some rq →
     joinable rq b && allow lm = true → ¬ continues rq b ret) →
  ∃ h', hash_kept w h' ∧
    ((∃ ret r, elv_merge_hash ops b w = Ok ((ret, Some r), set_hash h' w) ∧ core_finds w ret r) ∨
     (elv_merge_hash ops b w = own_merge (set_hash h' w) ∧ core_has_none w)).
Proof.
  intros Hv Hh Hnm Hbios Hlm. unfold elv_merge_hash, own_merge, core_has_none. rewrite Hnm. cbn [orb].
  setoid_rewrite (st_bind_ok q_get _ w _ _ eq_refl).
  destruct (blk_queue_noxmerges (queue w)) eqn:Ex.
  { exists (hash w). split; [by apply hash_kept_id|]. right. split; [|done].
    erewrite (st_bind_ok q_get) by reflexivity. wcbn. rewrite Hnm, Ex. cbn [orb]. by destruct w. }
  destruct (elv_rqhash_find_hit w Hh) as (h' & E & Hh' & Hk). exists h'. split; [done|]. st_step E.
  assert (∀ w', queue w' = queue w → own_merge w' =
    match elevator_merge_fn ops with Some f => f b | None => mret (ELEVATOR_NO_MERGE, None) end w') as Eo.
  { intros w' Hq. unfold own_merge. erewrite (st_bind_ok q_get) by reflexivity. rewrite Hq, Hnm, Ex. done. }
  unfold own_merge in Eo. rewrite Eo by done.
  destruct (hash_hit (rqs w) (hash w) (bi_sector b)) as [r|] eqn:Er.
  - destruct (hash_hit_some w r Hh Er) as (Hon & rq & Hr & Hkey). pose proof (Hbios r rq Hon Hr) as Hne.
    rewrite (st_bind_ok _ _ _ _ _ (elv_rq_merge_ok_eval r (set_hash h' w) rq Hv Hr Hne)).
    destruct (joinable rq b && allow r) eqn:Ej.
    + left. eexists _, r. split; [done|]. split; [by right|]. exists rq.
      split_and!; try done. by left.
    + right. split; [done|]. split; [done|]. intros _ _ _ _ _ _ _. by exists r, rq.
  - erewrite st_bind_ok by reflexivity. right. split; [done|]. split; [done|].
    intros _ r rq Hon Hr Hm Hkey. by destruct (hash_hit_none w r rq Hh Hon Hr Hm Hkey).
Qed.
Lemma elv_merge_ok w : vetoes w allow → hash_wf (rqs w) (hash w) →
  (∀ r rq, ELV_ON_HASH r (hash w) = true ∨ last_merge (queue w) = Some r → rqs w !! r = Some rq → bios rq ≠ []) →
  (∀ r, last_merge (queue w) = Some r → is_Some (rqs w !! r)) →
  ∃ h', hash_kept w h' ∧
    ((∃ ret r, elv_merge ops b w = Ok ((ret, Some r), set_hash h' w) ∧ core_finds w ret r) ∨
     (elv_merge ops b w = own_merge (set_hash h' w) ∧ core_has_none w)).
Proof.
  intros Hv Hh Hbios Hlm. unfold elv_merge. setoid_rewrite (st_bind_ok q_get _ w _ _ eq_refl).
  destruct (blk_queue_nomerges (queue w)) eqn:En.
  { exists (hash w). split; [by apply hash_kept_id|]. right. split; [|unfold core_has_none; by rewrite En].
    unfold own_merge. erewrite (st_bind_ok q_get) by reflexivity. wcbn. rewrite En. cbn [orb]. by destruct w. }
  destruct (last_merge (queue w)) as [lm|] eqn:El.
  2: { apply elv_merge_hash_ok; try done; [eauto|]. intros lm rq ret. by rewrite El. }
  destruct (Hlm lm) as [rq Hr]; [done|].
  destruct (elv_try_merge_ok lm w rq Hv Hr) as (ret & E & Hret); [apply (Hbios lm); auto|].
  setoid_rewrite (st_bind_ok _ _ _ _ _ E). destruct (Z.eqb_spec ret ELEVATOR_NO_MERGE) as [->|Hne]; cbn [negb].
  - apply elv_merge_hash_ok; try done; [eauto|]. intros lm' rq' ret' Hl Hr' Hj. rewrite El in Hl. simplify_eq.
    destruct Hret as [[_ Hno]|[_ [[? _]|[? _]]]]; [by apply Hno|done..].
  - destruct Hret as [[-> _]|[Hj Hc]]; [done|]. exists (hash w). split; [by apply hash_kept_id|]. left.
    exists ret, lm. split; [by destruct w|]. split; [by left|]. by exists rq.
Qed.
End candidates.

(** C33: What [elv_merge] of the core finds for a bio.  A request it returns from
    its cache or its hash is one the bio continues, at its end or at its start, and
    is of the kind of the bio.  When the core has nothing, the answer is that of the
    scheduler's own search; then the bio does not continue the request merged last,
    and, if any request of the hash ends where the bio starts, the one hashed last
    under that sector is of another kind or vetoed.  Only requests that may not be
    merged drop out of the hash. *)
Theorem elv_merge_correct {D} (ops : elevator_ops D) b allow (w : world D) :
  vetoes ops b w allow → hash_wf (rqs w) (hash w) →
  (∀ r rq, ELV_ON_HASH r (hash w) = true ∨ last_merge (queue w) = Some r → rqs w !! r = Some rq → bios rq ≠ []) →
  (∀ r, last_merge (queue w) = Some r → is_Some (rqs w !! r)) →
  ∃ h', hash_kept w h' ∧
    ((∃ ret r, elv_merge ops b w = Ok ((ret, Some r), set_hash h' w) ∧ core_finds b allow w ret r) ∨
     (elv_merge ops b w = own_merge ops b (set_hash h' w) ∧ core_has_none b allow w)).
Proof. apply elv_merge_ok. Qed.

Definition merge_bio : bio :=
  {| bi_id := 2; bi_sector := 8; bi_disk := 1; bi_flags := 0; bi_rw := 0; bi_idx := 0;
     bi_phys_segments := 0; bi_size := 4096; bi_seg_front_size := 0; bi_seg_back_size := 0;
     bi_has_vec := true; bi_io_vec := [BioVec 1 4096 0]; bi_comp_cpu := 0; bi_integrity := false |}.
(** One request, of the sectors 0 to 7, in the merge hash. *)
Definition hashed_world : world noop_data :=
  let w := sample_world NoopData [(Rq 1, sample_rq 0 0 8)] [] [Rq 1] in
  set_hash (<[Z.to_nat (ELV_HASH_FN 8) := [Rq 1]]> (hash w)) w.

Lemma hash_wf_empty tbl : hash_wf tbl (replicate 64 []).
Proof.
  split; [done| |]; intros i c; [intros r|]; intros [-> _]%lookup_replicate; [by intros ?%elem_of_nil|].
  apply NoDup_nil_2.
Qed.

Lemma elv_merge_correct_witness :
  ∃ h', hash_kept hashed_world h' ∧
    ((∃ ret r, elv_merge elevator_noop merge_bio hashed_world = Ok ((ret, Some r), set_hash h' hashed_world) ∧
        core_finds merge_bio (λ _, true) hashed_world ret r) ∨
     (elv_merge elevator_noop merge_bio hashed_world = own_merge elevator_noop merge_bio (set_hash h' hashed_world) ∧
        core_has_none merge_bio (λ _, true) hashed_world)).
Proof.
  apply (elv_merge_correct elevator_noop merge_bio (λ _, true) hashed_world).
  - intros r w' _ _. reflexivity.
  - apply (hash_add_wf (rqs hashed_world) (replicate 64 []) (Rq 1) (sample_rq 0 0 8) []);
      [apply hash_wf_empty|reflexivity|reflexivity|]. vm_compute. reflexivity.
  - intros r rq _ Hr. change (rqs hashed_world) with ({[ Rq 1 := sample_rq 0 0 8 ]} : gmap rqid request) in Hr.
    apply lookup_singleton_Some in Hr as [_ <-]. discriminate.
  - discriminate.
Defined.

(** A write that was hashed after a read with the same end keeps a bio from joining
    the read. *)
Definition hidden_world : world noop_data :=
  let w := sample_world NoopData [(Rq 1, sample_rq 0 0 8); (Rq 2, sample_rq 1 0 8)] [] [Rq 1; Rq 2] in
  set_hash (<[Z.to_nat (ELV_HASH_FN 8) := [Rq 2; Rq 1]]> (hash w)) w.

Example incompatible_hides :
  joinable (sample_rq 0 0 8) merge_bio = true ∧ continues (sample_rq 0 0 8) merge_bio ELEVATOR_BACK_MERGE ∧
  elv_merge elevator_noop merge_bio hidden_world = Ok ((ELEVATOR_NO_MERGE, None), hidden_world).
Proof. split_and!; [reflexivity|by left|vm_compute; reflexivity]. Qed.

(** ** Barriers *)
Section barriers.
Context {D : Type} (ops : elevator_ops D) (sched : world D → list rqid → Prop)
  (ready : world D → rqid → Prop) `{!IoSched ops sched ready}.
Implicit Types (w : world D).

(** What [elv_insert] does after a back insertion. *)
Definition after_insert (request_fn : ST (world D) unit) : ST (world D) unit :=
  q ← q_get;
  if blk_queue_plugged q then
    let nrq := s32 (snd (rq_count q) + fst (rq_count q) - queue_in_flight q) in
    when (nrq >=? unplug_thresh q) (__generic_unplug_device request_fn)
  else mret tt.

(** The state in which a barrier is inserted: its colour and the colour of the
    queue are set, and the sweep starts over behind it. *)
Definition coloured (q : request_queue) (rq : request) : request :=
  if ordcolor q =? 0 then rq else set_cmd_flags (Z.lor (cmd_flags rq) REQ_ORDERED_COLOR) rq.

Lemma plug_ok w (plug : bool) : ∃ q', when plug blk_plug_device w = Ok (tt, set_queue q' w) ∧
  ordcolor q' = ordcolor (queue w) ∧ nr_sorted q' = nr_sorted (queue w) ∧
  (plug = true → blk_queue_stopped (queue w) = false → blk_queue_plugged q' = true).
Proof.
  destruct plug; cbn [when]; [|exists (queue w); split_and!; [by destruct w|done..]].
  unfold blk_plug_device, queue_flag_test_and_set. erewrite (st_bind_ok q_get) by reflexivity.
  destruct (blk_queue_stopped (queue w)); [exists (queue w); split_and!; [by destruct w|done..]|].
  rewrite <-!st_bind_assoc. erewrite (st_bind_ok q_get) by reflexivity.
  destruct (test_bit _ _) eqn:E; [exists (queue w); split_and!; [by destruct w|done..]|].
  eexists. split; [reflexivity|]. split_and!; try done. intros _ _.
  by apply (Z.setbit_eq (queue_flags (queue w)) QUEUE_FLAG_PLUGGED).
Qed.

Lemma add_barrier_pre w r rq (plug : bool) : rqs w !! r = Some rq → blk_barrier_rq rq = true →
  ∃ q', (∀ request_fn, __elv_add_request ops request_fn r ELEVATOR_INSERT_SORT plug w =
           elv_insert ops request_fn r ELEVATOR_INSERT_BACK
             (set_queue q' (set_rqs (<[r := coloured (queue w) rq]> (rqs w)) w))) ∧
    ordcolor q' = Z.lxor (ordcolor (queue w)) 1 ∧ nr_sorted q' = nr_sorted (queue w).
Proof.
  intros Hr Hb. unfold __elv_add_request, blk_barrier_rq in *.
  set (w1 := set_rqs (<[r := coloured (queue w) rq]> (rqs w)) w).
  assert (rqs w1 !! r = Some (coloured (queue w) rq)) as Hr1 by apply lookup_insert_eq.
  assert (tst (cmd_flags (coloured (queue w) rq)) REQ_HARDBARRIER = true) as Hb1.
  { unfold coloured. destruct (_ =? 0); [done|]. cbn. rewrite tst_lor, Hb. done. }
  assert (∃ q2, elv_add_barrier r ELEVATOR_INSERT_SORT w1 = Ok (ELEVATOR_INSERT_BACK, set_queue q2 w1) ∧
    ordcolor q2 = Z.lxor (ordcolor (queue w)) 1 ∧ nr_sorted q2 = nr_sorted (queue w)) as (q2 & E2 & C2 & N2).
  { unfold elv_add_barrier, blk_barrier_rq. st_step (rq_get_ok _ _ _ Hr1). rewrite Hb1. cbn [when].
    erewrite st_bind_ok by reflexivity.
    destruct (blk_fs_request _ || _); cbn [when]; eexists; (split; [reflexivity|]); done. }
  destruct (plug_ok (set_queue q2 w1) plug) as (q3 & E3 & C3 & N3 & _).
  exists q3. split; [|rewrite C3, N3; done]. intros request_fn.
  erewrite (st_bind_ok q_get) by reflexivity.
  assert (when (negb (ordcolor (queue w) =? 0))
    (rq_upd r (λ rq, set_cmd_flags (Z.lor (cmd_flags rq) REQ_ORDERED_COLOR) rq)) w = Ok (tt, w1)) as E1.
  { unfold w1, coloured. destruct (ordcolor (queue w) =? 0); cbn [negb when]; [|by rewrite (rq_upd_ok _ _ _ _ Hr)].
    rewrite insert_id by done. by destruct w. }
  st_step E1. st_step (rq_get_ok _ _ _ Hr1). rewrite tst_mask_lor, Hb1, orb_true_r.
  st_step E2. st_step E3. done.
Qed.

(** A back insertion of [r], after changes to it and to the queue that concern
    neither the lists nor the count of sorted requests. *)
Lemma insert_back_last w q' ds xs r rq rq' :
  dispatch_rep w ds → sched w xs → NoDup (ds ++ xs) →
  nr_sorted (queue w) = u32 (Z.of_nat (length xs)) →
  rqs w !! r = Some rq → r ∉ ds ++ xs → mapped (links w) (queuelist r) →
  nr_sorted q' = nr_sorted (queue w) →
  ∃ w' ds', (∀ request_fn, elv_insert ops request_fn r ELEVATOR_INSERT_BACK
        (set_queue q' (set_rqs (<[r := rq']> (rqs w)) w)) =
      (__blk_run_queue ops request_fn;; after_insert request_fn) w') ∧
    dispatch_rep w' (ds' ++ [r]) ∧ ds' ≡ₚ ds ++ xs ∧ sched w' [] ∧
    rqs w' = <[r := set_cmd_flags (Z.lor (cmd_flags rq') REQ_SOFTBARRIER) rq']> (rqs w) ∧
    nr_sorted (queue w') = 0.
Proof.
  intros Hd Hs Hnd Hnr Hr Hn Hm Hnr'.
  set (w1 := set_queue q' (set_rqs (<[r := rq']> (rqs w)) w)).
  destruct (holds_upd w ds xs r rq rq') as [Hd1 Hs1]; [done..|].
  assert (sched w1 xs) as Hs1'.
  { apply (sched_frame (set_rqs (<[r:=rq']> (rqs w)) w) w1 xs []); [done..|by apply frame_refl|lelem]. }
  destruct (elv_insert_back_ok w1 ds xs r rq')
    as (w2 & ds' & E2 & Hd2 & Hp & Hs2 & Hrq & Hnr2);
    [by destruct Hd1|done|done|by transitivity (nr_sorted (queue w))|apply lookup_insert_eq|done|done|].
  exists w2, ds'. split_and!; try done.
  - intros request_fn. unfold elv_insert.
    change (ELEVATOR_INSERT_BACK =? ELEVATOR_INSERT_FRONT) with false.
    change (ELEVATOR_INSERT_BACK =? ELEVATOR_INSERT_BACK) with true. cbn iota.
    unfold mbind at 1, st_bind at 1. unfold mbind at 1, st_bind at 1. rewrite E2.
    unfold after_insert, mbind, st_bind. destruct (__blk_run_queue ops request_fn w2) as [[[] ?]|]; done.
  - rewrite Hrq. apply insert_insert_eq.
Qed.
End barriers.

(** C13: A barrier added with [ELEVATOR_INSERT_SORT] is queued behind everything
    added before it: whatever the scheduler, all its requests are moved to the dispatch queue first and the
    barrier is linked last, with the colour of the requests before it; only then
    does the driver see the queue. *)
Theorem barrier_added_last {D} (ops : elevator_ops D) sched ready `{!IoSched ops sched ready}
    (plug : bool) w ds xs r rq :
  dispatch_rep w ds → sched w xs → NoDup (ds ++ xs) →
  nr_sorted (queue w) = u32 (Z.of_nat (length xs)) →
  rqs w !! r = Some rq → r ∉ ds ++ xs → mapped (links w) (queuelist r) → blk_barrier_rq rq = true →
  ∃ w' ds', (∀ request_fn, __elv_add_request ops request_fn r ELEVATOR_INSERT_SORT plug w =
      (__blk_run_queue ops request_fn;; after_insert request_fn) w') ∧
    dispatch_rep w' (ds' ++ [r]) ∧ ds' ≡ₚ ds ++ xs ∧ sched w' [] ∧ nr_sorted (queue w') = 0 ∧
    rqs w' !! r = Some (set_cmd_flags (Z.lor (cmd_flags (coloured (queue w) rq)) REQ_SOFTBARRIER)
                          (coloured (queue w) rq)) ∧
    (∀ p, p ≠ r → rqs w' !! p = rqs w !! p).
Proof.
  intros Hd Hs Hnd Hnr Hr Hn Hm Hb.
  destruct (add_barrier_pre ops w r rq plug Hr Hb) as (q' & E & Hc & Hnr').
  destruct (insert_back_last ops sched ready w q' ds xs r rq (coloured (queue w) rq))
    as (w2 & ds' & E2 & Hd2 & Hp & Hs2 & Hrq & Hnr2); [done..|].
  exists w2, ds'. rewrite Hrq. split_and!; try done.
  - intros request_fn. by rewrite E, E2.
  - apply lookup_insert_eq.
  - intros p Hp'. by rewrite lookup_insert_ne.
Qed.

(** A barrier is added while the scheduler holds one request and the dispatch
    queue another. *)
Definition barrier_rq : request := set_cmd_flags (Z.lor 1 REQ_HARDBARRIER) (sample_rq 1 16 8).
Definition barrier_world : world noop_data :=
  sample_world NoopData [(Rq 1, sample_rq 0 0 8); (Rq 2, sample_rq 0 8 8); (Rq 3, barrier_rq)] [Rq 1] [Rq 2].

Lemma barrier_added_last_witness :
  ∃ w' ds', (∀ request_fn, __elv_add_request elevator_noop request_fn (Rq 3) ELEVATOR_INSERT_SORT false barrier_world =
      (__blk_run_queue elevator_noop request_fn;; after_insert request_fn) w') ∧
    dispatch_rep w' (ds' ++ [Rq 3]) ∧ ds' ≡ₚ [Rq 1; Rq 2] ∧ one_list 0 w' [] ∧ nr_sorted (queue w') = 0 ∧
    rqs w' !! Rq 3 = Some (set_cmd_flags (Z.lor (cmd_flags (coloured (queue barrier_world) barrier_rq)) REQ_SOFTBARRIER)
                             (coloured (queue barrier_world) barrier_rq)) ∧
    (∀ p, p ≠ Rq 3 → rqs w' !! p = rqs barrier_world !! p).
Proof.
  apply (barrier_added_last elevator_noop (one_list 0) noop_ready false barrier_world [Rq 1] [Rq 2] (Rq 3) barrier_rq).
  - apply (bool_decide_unpack _). vm_compute. exact I.
  - apply (bool_decide_unpack _). vm_compute. exact I.
  - apply (bool_decide_unpack _). vm_compute. exact I.
  - reflexivity.
  - reflexivity.
  - apply (bool_decide_unpack _). vm_compute. exact I.
  - vm_compute. eexists. reflexivity.
  - reflexivity.
Defined.
