(* ===== verification/Look.v ===== *)
(** * The LOOK scheduler ([block/look-iosched.c])

    One unordered list of requests, [sched_head 0], the head position and the
    direction of travel.  A dispatch scans the list for the nearest request at
    or above the head position and the nearest one at or below it, turns round
    if there is nothing ahead, and serves the request ahead.

    The file gives the choice as a specification ([nearest], [look_choice]),
    shows that [look_dispatch] implements it without faulting, that the
    scheduler meets the contract of [Iosched], and what order of service
    follows from it. *)

From Stdlib Require Import Sorting.Sorted.
From S2P Require Import Prelude KList Request Samples Elevator Iosched.

Local Open Scope Z_scope.

(** [struct look_data]; its list head is [look_queue]. *)
Record look_data := LookData { cur_pos : Z; dir : Z }.
Definition look_queue : laddr := sched_head 0.

Definition look_merged_requests (rq next : rqid) : ST (world look_data) unit :=
  on_links (list_del_init (Ptr (queuelist next))).

(** The loop body of [look_dispatch]: update [higher] and [lower]. *)
Definition look_scan (cur : Z) (tbl : gmap rqid request) (pos : ptr laddr)
    (best : option rqid * option rqid) : res (ctl (option rqid * option rqid)) :=
  let '(higher, lower) := best in
  r ← list_entry_rq pos;
  rq ← deref (tbl !! r);
  higher' ←
    (if blk_rq_pos rq >=? cur then
       match higher with
       | Some h => hrq ← deref (tbl !! h);
                   mret (if blk_rq_pos rq <? blk_rq_pos hrq then Some r else higher)
       | None => mret (Some r)
       end
     else mret higher);
  lower' ←
    (if blk_rq_pos rq <=? cur then
       match lower with
       | Some l => lrq ← deref (tbl !! l);
                   mret (if blk_rq_pos rq >? blk_rq_pos lrq then Some r else lower)
       | None => mret (Some r)
       end
     else mret lower);
  mret (Continue (higher', lower')).

(** The block that serves [higher] (or [lower]): a [NULL] pointer faults. *)
Definition look_serve (o : option rqid) : ST (world look_data) unit :=
  r ← lift (deref o);
  rq ← rq_get r;
  b ← lift (deref (head (bios rq)));
  data_upd (λ nd, LookData (u64 (bi_sector b + bio_sectors b)) (dir nd));;
  on_links (list_del_init (Ptr (queuelist r)));;
  elv_dispatch_sort r.

Definition set_dir (d : Z) : ST (world look_data) unit :=
  data_upd (λ nd, LookData (cur_pos nd) d).

Definition look_dispatch (force : Z) : ST (world look_data) Z :=
  e ← on_links (list_empty (Ptr look_queue));
  if negb e then
    nd ← data_get;
    tbl ← gets rqs;
    '(_, (higher, lower)) ←
      on_links (list_for_each (Ptr look_queue) (look_scan (cur_pos nd) tbl) (None, None));
    nd ← data_get;
    when ((dir nd =? 1) && bool_decide (higher = None)) (set_dir 0);;
    nd ← data_get;
    when ((dir nd =? 0) && bool_decide (lower = None)) (set_dir 1);;
    nd ← data_get;
    when (dir nd =? 1) (look_serve higher);;
    nd ← data_get;
    when (dir nd =? 0) (look_serve lower);;
    mret 1
  else mret 0.

Definition look_add_request (rq : rqid) : ST (world look_data) unit :=
  on_links (list_add_tail (Ptr (queuelist rq)) (Ptr look_queue)).

Definition look_queue_empty : ST (world look_data) bool :=
  on_links (list_empty (Ptr look_queue)).

Definition look_former_request (rq : rqid) : ST (world look_data) (option rqid) :=
  p ← on_links (get_prev (Ptr (queuelist rq)));
  if bool_decide (p = Ptr look_queue) then mret None
  else r ← lift (list_entry_rq p); mret (Some r).

Definition look_latter_request (rq : rqid) : ST (world look_data) (option rqid) :=
  p ← on_links (get_next (Ptr (queuelist rq)));
  if bool_decide (p = Ptr look_queue) then mret None
  else r ← lift (list_entry_rq p); mret (Some r).

(** [alloc]: whether [kmalloc_node] returns memory. *)
Definition look_init_queue (alloc : bool)
    : ST (gmap laddr (list_head laddr)) (option look_data) :=
  if negb alloc then mret None else
  modify (<[look_queue := ListHead (Ptr look_queue) (Ptr look_queue)]>);;
  INIT_LIST_HEAD (Ptr look_queue);;
  mret (Some (LookData 0 1)).

Definition look_exit_queue : ST (world look_data) unit :=
  e ← on_links (list_empty (Ptr look_queue));
  bug_on (negb e);;
  on_links (modify (delete look_queue)).

Definition elevator_look : elevator_ops look_data := {|
  elevator_merge_fn := None;
  elevator_merged_fn := None;
  elevator_merge_req_fn := Some look_merged_requests;
  elevator_allow_merge_fn := None;
  elevator_dispatch_fn := Some look_dispatch;
  elevator_add_req_fn := Some look_add_request;
  elevator_activate_req_fn := None;
  elevator_deactivate_req_fn := None;
  elevator_queue_empty_fn := Some look_queue_empty;
  elevator_completed_req_fn := None;
  elevator_former_req_fn := Some look_former_request;
  elevator_latter_req_fn := Some look_latter_request;
  elevator_set_req_fn := None;
  elevator_put_req_fn := None;
  elevator_may_queue_fn := None;
  elevator_init_fn := Some look_init_queue;
  elevator_exit_fn := Some look_exit_queue
|}.

(** ** Specification of the choice *)

(** The sector a request starts at, and where its first bio ends. *)
Definition pos_of (tbl : gmap rqid request) (r : rqid) : Z :=
  match tbl !! r with Some rq => blk_rq_pos rq | None => 0 end.
Definition end_of (tbl : gmap rqid request) (r : rqid) : Z :=
  match tbl !! r with
  | Some rq => match bios rq with b :: _ => u64 (bi_sector b + bio_sectors b) | [] => 0 end
  | None => 0
  end.

(** [o] is the first entry of [xs] with the least key among those satisfying
    [P]; [None] when there is none. *)
Definition nearest (P : rqid → bool) (key : rqid → Z) (xs : list rqid) (o : option rqid) : Prop :=
  match o with
  | None => ∀ y, y ∈ xs → P y = false
  | Some r => ∃ l1 l2, xs = l1 ++ r :: l2 ∧ P r = true ∧
      (∀ y, y ∈ l1 → P y = true → key r < key y) ∧ (∀ y, y ∈ l2 → P y = true → key r ≤ key y)
  end.

Definition above (tbl : gmap rqid request) (cur : Z) (r : rqid) : bool := cur <=? pos_of tbl r.
Definition below (tbl : gmap rqid request) (cur : Z) (r : rqid) : bool := pos_of tbl r <=? cur.

(** The request to serve and the direction of travel after serving it. *)
Definition look_choice (tbl : gmap rqid request) (cur dir : Z) (xs : list rqid)
    (r : rqid) (dir' : Z) : Prop :=
  (dir' = 1 ∧ nearest (above tbl cur) (pos_of tbl) xs (Some r) ∧
     (dir = 1 ∨ ∀ y, y ∈ xs → below tbl cur y = false)) ∨
  (dir' = 0 ∧ nearest (below tbl cur) (λ y, - pos_of tbl y) xs (Some r) ∧
     (dir = 0 ∨ ∀ y, y ∈ xs → above tbl cur y = false)).

(** The scheduler's state represents the requests [xs]. *)
Record look_rep (w : world look_data) (xs : list rqid) : Prop := {
  look_list : one_list 0 w xs;
  look_bios : ∀ r rq, r ∈ xs → rqs w !! r = Some rq → bios rq ≠ [];
  look_dir : dir (elevator_data w) = 0 ∨ dir (elevator_data w) = 1
}.

(** An executable form. *)
Definition has_bios (tbl : gmap rqid request) (r : rqid) : bool :=
  match tbl !! r with Some rq => negb (bool_decide (bios rq = [])) | None => true end.
Definition look_rep_test (w : world look_data) (xs : list rqid) : bool :=
  bool_decide (one_list 0 w xs) && forallb (has_bios (rqs w)) xs &&
  ((dir (elevator_data w) =? 0) || (dir (elevator_data w) =? 1)).

Definition look_ready (w : world look_data) (r : rqid) : Prop :=
  mapped (links w) (queuelist r) ∧ ∃ rq, rqs w !! r = Some rq ∧ bios rq ≠ [].

(** The order of service of the requests [xs] without arrivals, from head
    position [cur] and direction [d]: each entry is a request and the direction
    it was served in. *)
Inductive service (tbl : gmap rqid request) : Z → Z → list rqid → list (rqid * Z) → Prop :=
| service_nil cur d : service tbl cur d [] []
| service_cons cur d l1 r l2 d' tr :
    look_choice tbl cur d (l1 ++ r :: l2) r d' →
    service tbl (end_of tbl r) d' (l1 ++ l2) tr →
    service tbl cur d (l1 ++ r :: l2) ((r, d') :: tr).

(** The dispatch queue after moving the requests [rs] to it one by one. *)
Definition dispatch_all (tbl : gmap rqid request) (boundary : Z) (rs ds : list rqid) : list rqid :=
  foldl (λ ds r, dispatch_insert (stops_at tbl boundary r) r ds) ds rs.

Implicit Types (w : world look_data) (tbl : gmap rqid request).

Lemma look_rep_intro w xs : look_rep_test w xs = true → look_rep w xs.
Proof.
  unfold look_rep_test. rewrite !andb_true_iff, orb_true_iff. intros [[Ho Hb] Hd]. split.
  - by apply bool_decide_eq_true in Ho.
  - intros r rq Hr Hrq. rewrite forallb_forall in Hb. specialize (Hb r).
    unfold has_bios in Hb. rewrite Hrq in Hb. apply list_elem_of_In in Hr.
    specialize (Hb Hr). bprop. by apply bool_decide_eq_false in Hb.
  - by destruct Hd as [?|?]; bprop; [left|right].
Qed.

(** Extending a scanned prefix by one request. *)
Lemma nearest_snoc P key xs o y :
  nearest P key xs o →
  nearest P key (xs ++ [y])
    (if P y then match o with
                 | Some r => if key y <? key r then Some y else o
                 | None => Some y
                 end else o).
Proof.
  intros Hn. destruct (P y) eqn:Py.
  - destruct o as [r|].
    + destruct Hn as (l1 & l2 & -> & Pr & H1 & H2). destruct (Z.ltb_spec (key y) (key r)).
      * exists (l1 ++ r :: l2), []. split_and!; [done|done| |by intros ? ?%elem_of_nil].
        intros z [Hz|[->|Hz]%elem_of_cons]%elem_of_app Pz; [|done|].
        -- specialize (H1 z Hz Pz). lia.
        -- specialize (H2 z Hz Pz). lia.
      * exists l1, (l2 ++ [y]). split_and!; [by rewrite <-app_assoc|done|done|].
        intros z [Hz| ->%list_elem_of_singleton]%elem_of_app Pz; [by apply H2|done].
    + exists xs, []. split_and!; [done..| |by intros ? ?%elem_of_nil].
      intros z Hz Pz. rewrite Hn in Pz; done.
  - destruct o as [r|].
    + destruct Hn as (l1 & l2 & -> & Pr & H1 & H2). exists l1, (l2 ++ [y]).
      split_and!; [by rewrite <-app_assoc|done|done|].
      intros z [Hz| ->%list_elem_of_singleton]%elem_of_app Pz; [by apply H2|congruence].
    + by intros z [Hz| ->%list_elem_of_singleton]%elem_of_app; [apply Hn|].
Qed.

Lemma nearest_elem P key xs r : nearest P key xs (Some r) → r ∈ xs.
Proof. intros (l1 & l2 & -> & _). lelem. Qed.

(** One iteration of the scan. *)
Lemma look_scan_step tbl cur xs r h lo :
  (∀ p, p ∈ xs ++ [r] → is_Some (tbl !! p)) →
  nearest (above tbl cur) (pos_of tbl) xs h →
  nearest (below tbl cur) (λ y, - pos_of tbl y) xs lo →
  ∃ h' lo', look_scan cur tbl (Ptr (queuelist r)) (h, lo) = Ok (Continue (h', lo')) ∧
    nearest (above tbl cur) (pos_of tbl) (xs ++ [r]) h' ∧
    nearest (below tbl cur) (λ y, - pos_of tbl y) (xs ++ [r]) lo'.
Proof.
  intros Hv Hh Hlo. destruct (Hv r) as [rq Hr]; [lelem|].
  assert (∀ p, h = Some p ∨ lo = Some p → ∃ prq, tbl !! p = Some prq ∧ pos_of tbl p = blk_rq_pos prq)
    as Hp.
  { intros p Hp. destruct (Hv p) as [prq Hprq].
    - apply elem_of_app. left. destruct Hp as [-> | ->]; by eapply nearest_elem.
    - exists prq. unfold pos_of. by rewrite Hprq. }
  apply nearest_snoc with (y := r) in Hh, Hlo. eexists _, _. split_and!; [|exact Hh|exact Hlo].
  unfold above, below. replace (pos_of tbl r) with (blk_rq_pos rq) by (unfold pos_of; by rewrite Hr).
  unfold look_scan. simpl. rewrite Hr. simpl. rewrite Z.geb_leb.
  destruct h as [p|], lo as [p'|];
    try (destruct (Hp p) as (prq & Hprq & ->); [by left|]; rewrite Hprq);
    try (destruct (Hp p') as (prq' & Hprq' & ->); [by right|]; rewrite Hprq'); simpl;
    destruct (cur <=? blk_rq_pos rq), (blk_rq_pos rq <=? cur); simpl; do 4 f_equal;
    match goal with |- context [?x >? ?y] =>
      destruct (Z.gtb_spec x y), (Z.ltb_spec (- x) (- y)); [done|lia|lia|done] end.
Qed.

(** The scan computes both nearest requests. *)
Lemma look_scan_ok tbl cur xs l :
  (∀ r, r ∈ xs ++ l → is_Some (tbl !! r)) → ∀ h lo,
  nearest (above tbl cur) (pos_of tbl) xs h →
  nearest (below tbl cur) (λ y, - pos_of tbl y) xs lo →
  ∃ h' lo', walk look_queue (look_scan cur tbl) (queuelist <$> l) (h, lo)
      = Ok (Ptr look_queue, (h', lo')) ∧
    nearest (above tbl cur) (pos_of tbl) (xs ++ l) h' ∧
    nearest (below tbl cur) (λ y, - pos_of tbl y) (xs ++ l) lo'.
Proof.
  revert xs. induction l as [|r l IH]; intros xs Hv h lo Hh Hlo.
  { exists h, lo. by rewrite app_nil_r. }
  destruct (look_scan_step tbl cur xs r h lo) as (h1 & lo1 & E & Hh1 & Hlo1); [|done|done|].
  { intros p Hp. apply Hv. lelem. }
  destruct (IH (xs ++ [r])) with (h := h1) (lo := lo1) as (h' & lo' & W & Hh' & Hlo');
    [by rewrite <-app_assoc|done|done|].
  exists h', lo'. rewrite <-app_assoc in Hh', Hlo'. split_and!; [|done..].
  cbn [fmap list_fmap walk]. rewrite E. exact W.
Qed.

(** Serving a request of the list. *)
Lemma look_serve_ok w ds l1 r l2 :
  dispatch_rep w ds → look_rep w (l1 ++ r :: l2) → NoDup (ds ++ l1 ++ r :: l2) →
  ∃ w', look_serve (Some r) w = Ok (tt, w') ∧
    dispatch_rep w' (dispatch_insert (stops_at (rqs w) (end_sector (queue w)) r) r ds) ∧
    look_rep w' (l1 ++ l2) ∧ rqs w' = rqs w ∧
    elevator_data w' = LookData (end_of (rqs w) r) (dir (elevator_data w)) ∧
    nr_sorted (queue w') = u32 (nr_sorted (queue w) - 1) ∧
    end_sector (queue w') = end_sector (queue w) ∧
    (∀ a, mapped (links w) a ↔ mapped (links w') a).
Proof.
  intros Hd [Ho Hb Hdir] Hnd. destruct (one_live _ _ _ Ho r) as [rq Hr]; [lelem|].
  destruct (bios rq) as [|b bs] eqn:Eb; [by destruct (Hb r rq); [lelem|..]|].
  unfold look_serve. rewrite (st_bind_ok _ _ w r w eq_refl). st_step (rq_get_ok _ _ _ Hr).
  rewrite Eb, (st_bind_ok _ _ w b w eq_refl).
  erewrite (st_bind_ok (data_upd _)); [|reflexivity]. set (w1 := set_elevator_data _ w).
  destruct (unlink_dispatch_ok 0 w1 ds l1 r l2) as (h' & E & Hl1 & Hl2 & Hm);
    [by destruct Hd|by destruct Ho|done|].
  eexists. split; [exact E|]. split_and!; [| |done| |done|done|exact Hm].
  - split; [done|]. intros p. rewrite dispatch_insert_perm.
    intros [->|Hp]%elem_of_cons; [eauto|]. by apply (dispatch_live _ _ Hd).
  - split; [split; [done|]| |done].
    + intros p Hp. apply (one_live _ _ _ Ho). lelem.
    + intros p prq Hp. apply Hb. lelem.
  - unfold end_of. by rewrite Hr, Eb.
Qed.

(** The direction after the two tests of [look_dispatch]. *)
Definition turn (d : Z) (higher lower : option rqid) : Z :=
  let d := if (d =? 1) && bool_decide (higher = None) then 0 else d in
  if (d =? 0) && bool_decide (lower = None) then 1 else d.

Lemma look_turn_ok {B} (higher lower : option rqid) (k : unit → ST (world look_data) B) w :
  (nd ← data_get;
   when ((dir nd =? 1) && bool_decide (higher = None)) (set_dir 0);;
   nd ← data_get;
   when ((dir nd =? 0) && bool_decide (lower = None)) (set_dir 1) ≫= k) w
  = k tt (set_elevator_data (LookData (cur_pos (elevator_data w))
            (turn (dir (elevator_data w)) higher lower)) w).
Proof.
  destruct w as [? ? ? ? [c d]]. unfold turn, data_get, gets, when, mbind, st_bind. simpl.
  destruct ((d =? 1) && bool_decide (higher = None)); simpl;
    [|destruct ((d =? 0) && bool_decide (lower = None)); simpl; done].
  destruct (bool_decide (lower = None)); done.
Qed.

Lemma turn_choice tbl cur d xs h lo :
  xs ≠ [] → d = 0 ∨ d = 1 →
  nearest (above tbl cur) (pos_of tbl) xs h →
  nearest (below tbl cur) (λ y, - pos_of tbl y) xs lo →
  (turn d h lo = 1 ∧ ∃ r, h = Some r ∧ look_choice tbl cur d xs r 1) ∨
  (turn d h lo = 0 ∧ ∃ r, lo = Some r ∧ look_choice tbl cur d xs r 0).
Proof.
  intros Hne Hd Hh Hlo. unfold look_choice, turn.
  assert (¬ (h = None ∧ lo = None)) as Hsome.
  { intros [-> ->]. destruct xs as [|y xs]; [done|].
    specialize (Hh y). specialize (Hlo y). unfold above, below in Hh, Hlo.
    specialize (Hh ltac:(by left)). specialize (Hlo ltac:(by left)). bprop. lia. }
  destruct h as [r|], lo as [r'|]; [..|naive_solver]; destruct Hd as [-> | ->]; simpl.
  - right. split; [done|]. exists r'. naive_solver.
  - left. split; [done|]. exists r. naive_solver.
  - left. split; [done|]. exists r. naive_solver.
  - left. split; [done|]. exists r. naive_solver.
  - right. split; [done|]. exists r'. naive_solver.
  - right. split; [done|]. exists r'. naive_solver.
Qed.

Lemma look_dispatch_empty force w : look_rep w [] → look_dispatch force w = Ok (0, w).
Proof.
  intros [Ho _ _]. unfold look_dispatch, look_queue. by st_step (one_list_empty _ _ _ Ho).
Qed.

(** A dispatch from a non-empty list makes the choice of the specification. *)
Lemma look_dispatch_step force w ds xs :
  dispatch_rep w ds → look_rep w xs → NoDup (ds ++ xs) → xs ≠ [] →
  ∃ w' l1 r l2 dir', look_dispatch force w = Ok (1, w') ∧ xs = l1 ++ r :: l2 ∧
    look_choice (rqs w) (cur_pos (elevator_data w)) (dir (elevator_data w)) xs r dir' ∧
    elevator_data w' = LookData (end_of (rqs w) r) dir' ∧
    dispatch_rep w' (dispatch_insert (stops_at (rqs w) (end_sector (queue w)) r) r ds) ∧
    look_rep w' (l1 ++ l2) ∧ rqs w' = rqs w ∧
    nr_sorted (queue w') = u32 (nr_sorted (queue w) - 1) ∧
    end_sector (queue w') = end_sector (queue w) ∧
    (∀ a, mapped (links w) a ↔ mapped (links w') a).
Proof.
  intros Hd Hrep Hnd Hne. pose proof Hrep as [Ho Hb Hdir].
  destruct (look_scan_ok (rqs w) (cur_pos (elevator_data w)) [] xs) with (h := @None rqid)
    (lo := @None rqid) as (h & lo & W & Hh & Hlo); [by apply Ho|by intros ? ?%elem_of_nil..|].
  unfold look_dispatch, look_queue in *. st_step (one_list_empty _ _ _ Ho).
  rewrite bool_decide_false by done. cbn [negb].
  rewrite (st_bind_ok _ _ w (elevator_data w) w eq_refl), (st_bind_ok _ _ w (rqs w) w eq_refl).
  erewrite (st_bind_ok (on_links _));
    [|apply on_links_read; rewrite (list_for_each_spec _ _ _ _ _ (one_is_list _ _ _ Ho)), W; reflexivity].
  cbv beta iota. rewrite look_turn_ok. set (d' := turn _ _ _). set (w1 := set_elevator_data _ w).
  rewrite (st_bind_ok _ _ w1 (elevator_data w1) w1 eq_refl).
  change (dir (elevator_data w1)) with d'.
  destruct (turn_choice (rqs w) (cur_pos (elevator_data w)) (dir (elevator_data w)) xs h lo)
    as [(Et & r & -> & Hc)|(Et & r & -> & Hc)]; [done..| |]; fold d' in Et; rewrite Et.
  - destruct Hh as (l1 & l2 & Exs & _). simpl in Exs.
    destruct (look_serve_ok w1 ds l1 r l2) as (w' & E & Hd' & Hr' & Erq & Eed & ? & ? & ?).
    { by destruct Hd. }
    { rewrite <-Exs. split; [by destruct Ho|done|]. right. exact Et. }
    { by rewrite <-Exs. }
    exists w', l1, r, l2, 1. unfold when at 1. simpl. st_step E.
    rewrite (st_bind_ok _ _ w' (elevator_data w') w' eq_refl), Eed. simpl.
    change (dir (elevator_data w1)) with d'. rewrite Et. by split_and!.
  - destruct Hlo as (l1 & l2 & Exs & _). simpl in Exs.
    destruct (look_serve_ok w1 ds l1 r l2) as (w' & E & Hd' & Hr' & Erq & Eed & ? & ? & ?).
    { by destruct Hd. }
    { rewrite <-Exs. split; [by destruct Ho|done|]. left. exact Et. }
    { by rewrite <-Exs. }
    exists w', l1, r, l2, 0. unfold when at 1. simpl.
    rewrite (st_bind_ok _ _ w1 tt w1 eq_refl), (st_bind_ok _ _ w1 (elevator_data w1) w1 eq_refl).
    change (dir (elevator_data w1)) with d'. rewrite Et. simpl. st_step E.
    change (dir (elevator_data w1)) with d' in Eed. rewrite Et in Eed. by split_and!.
Qed.

#[global] Instance look_iosched : IoSched elevator_look look_rep look_ready.
Proof.
  split.
  - intros w xs r [Ho _ _] Hr. by apply (one_live _ _ _ Ho).
  - intros w xs [Ho _ _]. by eapply one_list_nodup.
  - intros w w' xs ns [Ho Hb Hdir] Ed Hrq Hf Hn. split; [by eapply one_list_frame| |by rewrite Ed].
    intros r rq Hr. rewrite Hrq by done. by apply Hb.
  - intros w w' r [Hm (rq & Hr & Hb)] _ El Hrq. split; [by rewrite El|].
    destruct (Hrq rq Hr) as [f Hf]. by exists (set_cmd_flags f rq).
  - intros w ds Hd Hr. exists look_dispatch. split; [done|]. by apply look_dispatch_empty.
  - intros w ds xs Hd Hr Hnd Hne.
    destruct (look_dispatch_step 1 w ds xs)
      as (w' & l1 & r & l2 & d' & E & -> & _ & _ & Hd' & Hr' & Erq & Enr & _ & Hm); [done..|].
    exists look_dispatch, 1, w', r, (l1 ++ l2),
      (dispatch_insert (stops_at (rqs w) (end_sector (queue w)) r) r ds).
    split_and!; try done; [by rewrite Permutation_middle|apply dispatch_insert_perm|].
    intros a ?. by apply Hm.
  - intros w ds xs r Hd [Ho Hb Hdir] Hnd Hn [Hm (rq & Hr & Hrb)].
    destruct (add_tail_ok 0 w ds xs r) as (h' & E & Hd' & Ho'); [done..| |done|eauto|].
    { by apply NoDup_app in Hnd as (_ & ? & _). }
    exists look_add_request, (set_links h' w), [], xs, (xs ++ [r]).
    split_and!; try done; [by rewrite Permutation_app_comm|by rewrite app_nil_r|].
    split; [done| |done]. intros p prq [Hp| ->%list_elem_of_singleton]%elem_of_app Hprq.
    + by eapply Hb.
    + simpl in Hprq. congruence.
  - intros w ds xs Hd [Ho _ _]. exists look_queue_empty. split; [done|].
    by apply one_list_empty.
Qed.

(** *** Order of service *)

Lemma look_choice_down tbl cur d xs r d' :
  d = 0 ∨ (∀ y, y ∈ xs → pos_of tbl y < cur) →
  (∀ y, y ∈ xs → pos_of tbl y ≤ cur) → look_choice tbl cur d xs r d' →
  d' = 0 ∧ r ∈ xs ∧ ∀ y, y ∈ xs → pos_of tbl y ≤ pos_of tbl r.
Proof.
  intros Hd Hle [(-> & Hn & Hd')|(-> & Hn & _)].
  - exfalso. pose proof (nearest_elem _ _ _ _ Hn) as Hr.
    destruct Hn as (l1 & l2 & -> & Ha & _). unfold above, below in *. bprop.
    destruct Hd as [-> |Hlt]; [|specialize (Hlt r Hr); lia].
    destruct Hd' as [? |Hb]; [done|]. specialize (Hb r Hr). specialize (Hle r Hr). bprop. lia.
  - split; [done|]. split; [by eapply nearest_elem|].
    destruct Hn as (l1 & l2 & -> & _ & H1 & H2). intros y Hy.
    specialize (Hle y Hy). assert (below tbl cur y = true) as Hb by (apply Z.leb_le; lia).
    apply elem_of_app in Hy as [Hy|[->|Hy]%elem_of_cons]; [specialize (H1 y Hy Hb); lia|done|].
    specialize (H2 y Hy Hb). lia.
Qed.

(** With nothing above the head the requests are served downwards. *)
Lemma service_down tbl cur d xs tr :
  (∀ y, y ∈ xs → pos_of tbl y ≤ end_of tbl y) →
  d = 0 ∨ (∀ y, y ∈ xs → pos_of tbl y < cur) → (∀ y, y ∈ xs → pos_of tbl y ≤ cur) →
  service tbl cur d xs tr →
  ∃ down, tr = (λ r, (r, 0)) <$> down ∧ down ≡ₚ xs ∧
    StronglySorted (λ a b, pos_of tbl b ≤ pos_of tbl a) down.
Proof.
  intros Hsane Hd Hle Hs. induction Hs as [|cur d l1 r l2 d' tr Hc Hs IH].
  { exists []. split_and!; [done..|constructor]. }
  destruct (look_choice_down tbl cur d _ r d' Hd Hle Hc) as (-> & Hr & Hmax).
  destruct IH as (down & -> & Hp & Hso).
  - intros y Hy. apply Hsane. lelem.
  - by left.
  - intros y Hy. specialize (Hsane r Hr). specialize (Hmax y ltac:(lelem)). lia.
  - exists (r :: down). split_and!; [done|by rewrite Hp, Permutation_middle|].
    constructor; [done|]. apply List.Forall_forall. intros y Hy%list_elem_of_In.
    apply Hmax. rewrite Hp in Hy. lelem.
Qed.

(** Starting upwards: one ascending sweep, then one descending sweep. *)
Lemma service_up tbl cur xs tr :
  (∀ y, y ∈ xs → pos_of tbl y < end_of tbl y) → service tbl cur 1 xs tr →
  ∃ up down, tr = ((λ r, (r, 1)) <$> up) ++ ((λ r, (r, 0)) <$> down) ∧ up ++ down ≡ₚ xs ∧
    StronglySorted (λ a b, pos_of tbl a ≤ pos_of tbl b) up ∧
    StronglySorted (λ a b, pos_of tbl b ≤ pos_of tbl a) down ∧
    (∀ y, y ∈ up → cur ≤ pos_of tbl y) ∧
    ((∀ y z, y ∈ xs → z ∈ xs → y = z ∨ end_of tbl y ≤ pos_of tbl z ∨ end_of tbl z ≤ pos_of tbl y) →
     NoDup xs → ∀ y, y ∈ down → pos_of tbl y < cur).
Proof.
  intros Hsane Hs. remember 1 as d eqn:Ed. induction Hs as [|cur d l1 r l2 d' tr Hc Hs IH].
  { exists [], []. split_and!; [done|done|apply SSorted_nil|apply SSorted_nil|..];
      [by intros ? ?%elem_of_nil|by intros _ _ ? ?%elem_of_nil]. }
  subst d. destruct Hc as [(-> & Hn & _)|(-> & Hn & [?|Hab])]; [|done|].
  - destruct IH as (up & down & -> & Hp & Hu & Hdn & Hge & Hno); [|done|].
    { intros y Hy. apply Hsane. lelem. }
    pose proof (Hsane r ltac:(lelem)) as Hr.
    destruct Hn as (k1 & k2 & Ek & Ha & H1 & H2). unfold above in Ha. bprop.
    exists (r :: up), down. split_and!; [done|by rewrite <-Permutation_middle, <-Hp|..]; [|done| |].
    + constructor; [done|]. apply List.Forall_forall. intros y Hy%list_elem_of_In.
      specialize (Hge y Hy). lia.
    + intros y [->|Hy]%elem_of_cons; [done|]. specialize (Hge y Hy). lia.
    + intros Hov Hnd y Hy. apply NoDup_middle in Hnd as [Hrn Hnd].
      assert (y ∈ l1 ++ l2) as Hyl by (rewrite <-Hp; lelem).
      assert (pos_of tbl y < end_of tbl r) as Hlt.
      { apply Hno; [|done..]. intros ????. apply Hov; lelem. }
      destruct (Z.lt_ge_cases (pos_of tbl y) cur) as [?|Hcur]; [done|]. exfalso.
      assert (pos_of tbl r ≤ pos_of tbl y) as Hmin.
      { assert (y ∈ k1 ++ r :: k2) as Hyk by (rewrite <-Ek; lelem).
        assert (above tbl cur y = true) as Hya by (unfold above; by apply Z.leb_le).
        apply elem_of_app in Hyk as [Hyk|[->|Hyk]%elem_of_cons]; [|done|by apply H2].
        specialize (H1 y Hyk Hya). lia. }
      pose proof (Hsane y ltac:(lelem)).
      destruct (Hov y r) as [-> |[?|?]]; [lelem|lelem|done|lia|lia].
  - assert (∀ y, y ∈ l1 ++ r :: l2 → pos_of tbl y < cur) as Hlt.
    { intros y Hy. specialize (Hab y Hy). unfold above in Hab. bprop. lia. }
    destruct (service_down tbl cur 1 (l1 ++ r :: l2) ((r, 0) :: tr)) as (down & Et & Hp & Hso).
    { intros y Hy. specialize (Hsane y Hy). lia. }
    { by right. }
    { intros y Hy. specialize (Hlt y Hy). lia. }
    { constructor; [|done]. right. split_and!; [done..|by right]. }
    exists [], down. split_and!; [done|done|apply SSorted_nil|done|by intros ? ?%elem_of_nil|].
    intros _ _ y Hy. apply Hlt. by rewrite <-Hp.
Qed.

(** Draining serves the requests in an order of the specification, and leaves
    the dispatch queue as inserting them in that order does. *)
Lemma look_drain_loop w ds xs fuel :
  dispatch_rep w ds → look_rep w xs → NoDup (ds ++ xs) → (length xs < fuel)%nat →
  ∃ w' tr, drain_loop look_dispatch fuel w = Ok (tt, w') ∧
    service (rqs w) (cur_pos (elevator_data w)) (dir (elevator_data w)) xs tr ∧
    dispatch_rep w' (dispatch_all (rqs w) (end_sector (queue w)) tr.*1 ds) ∧
    look_rep w' [] ∧ rqs w' = rqs w.
Proof.
  revert w ds xs. induction fuel as [|fuel IH]; intros w ds xs Hd Hr Hnd Hlen; [lia|].
  cbn [drain_loop]. destruct (decide (xs = [])) as [->|Hne].
  - exists w, []. split_and!; [|constructor|done..].
    by st_step (look_dispatch_empty 1 w Hr).
  - destruct (look_dispatch_step 1 w ds xs)
      as (w1 & l1 & r & l2 & d' & E & -> & Hc & Ed & Hd1 & Hr1 & Erq & Enr & Ees & _); [done..|].
    st_step E. cbn.
    destruct (IH w1 (dispatch_insert (stops_at (rqs w) (end_sector (queue w)) r) r ds) (l1 ++ l2))
      as (w' & tr & E' & Hs & Hd' & Hr' & Erq'); [done..| | |].
    { rewrite dispatch_insert_perm. by rewrite <-!Permutation_middle in Hnd. }
    { rewrite length_app in *. simpl in Hlen. lia. }
    rewrite Erq, Ed, Ees in *. exists w', ((r, d') :: tr). split_and!; try done. by constructor.
Qed.

(** ** Theorems *)

(** C22: one dispatch of a non-empty LOOK queue neither faults nor loops: it
    removes exactly the request the specification chooses (the first nearest
    one ahead of the head, after turning round if nothing is ahead), puts it at
    its place on the dispatch queue, moves the head to the end of the request's
    first bio and counts it out of the sorted requests. *)
Theorem look_dispatch_correct force w ds xs :
  dispatch_rep w ds → look_rep w xs → NoDup (ds ++ xs) → xs ≠ [] →
  ∃ w' l1 r l2 dir', look_dispatch force w = Ok (1, w') ∧ xs = l1 ++ r :: l2 ∧
    look_choice (rqs w) (cur_pos (elevator_data w)) (dir (elevator_data w)) xs r dir' ∧
    elevator_data w' = LookData (end_of (rqs w) r) dir' ∧
    dispatch_rep w' (dispatch_insert (stops_at (rqs w) (end_sector (queue w)) r) r ds) ∧
    look_rep w' (l1 ++ l2) ∧ rqs w' = rqs w ∧
    nr_sorted (queue w') = u32 (nr_sorted (queue w) - 1).
Proof.
  intros Hd Hr Hnd Hne. destruct (look_dispatch_step force w ds xs)
    as (w' & l1 & r & l2 & d' & E & Ex & Hc & Ed & Hd' & Hr' & Erq & Enr & _); [done..|].
  exists w', l1, r, l2, d'. by split_and!.
Qed.

(** Three requests around the head at sector 100, moving up. *)
Definition look_sample : world look_data :=
  sample_world (LookData 100 1)
    [(Rq 1, sample_rq 0 50 8); (Rq 2, sample_rq 0 300 8); (Rq 3, sample_rq 0 200 8)]
    [] [Rq 1; Rq 2; Rq 3].

Lemma look_dispatch_correct_witness :
  ∃ w' l1 r l2 dir', look_dispatch 0 look_sample = Ok (1, w') ∧ [Rq 1; Rq 2; Rq 3] = l1 ++ r :: l2 ∧
    look_choice (rqs look_sample) 100 1 [Rq 1; Rq 2; Rq 3] r dir' ∧
    elevator_data w' = LookData (end_of (rqs look_sample) r) dir' ∧
    dispatch_rep w' (dispatch_insert (stops_at (rqs look_sample) 0 r) r []) ∧
    look_rep w' (l1 ++ l2) ∧ rqs w' = rqs look_sample ∧
    nr_sorted (queue w') = u32 (3 - 1).
Proof.
  apply (look_dispatch_correct 0 look_sample [] [Rq 1; Rq 2; Rq 3]).
  - apply (bool_decide_unpack _). vm_compute. exact I.
  - apply look_rep_intro. vm_compute. reflexivity.
  - apply (bool_decide_unpack _). vm_compute. exact I.
  - discriminate.
Defined.

(** C7: a forced drain of the LOOK queue while the head moves up terminates with
    an empty scheduler.  The requests are served in one sweep of ascending
    sectors, all at or above the head, followed by one sweep of descending
    sectors; when requests do not overlap, the second sweep holds exactly the
    requests below the head.  The dispatch queue is the one that inserting the
    requests in this order gives. *)
Theorem look_drain_sweeps w ds xs :
  dispatch_rep w ds → look_rep w xs → NoDup (ds ++ xs) → dir (elevator_data w) = 1 →
  (∀ y, y ∈ xs → pos_of (rqs w) y < end_of (rqs w) y) →
  ∃ w' up down, elv_drain_elevator elevator_look w = Ok (tt, w') ∧ look_rep w' [] ∧
    dispatch_rep w' (dispatch_all (rqs w) (end_sector (queue w)) (up ++ down) ds) ∧
    up ++ down ≡ₚ xs ∧
    StronglySorted (λ a b, pos_of (rqs w) a ≤ pos_of (rqs w) b) up ∧
    StronglySorted (λ a b, pos_of (rqs w) b ≤ pos_of (rqs w) a) down ∧
    (∀ y, y ∈ up → cur_pos (elevator_data w) ≤ pos_of (rqs w) y) ∧
    ((∀ y z, y ∈ xs → z ∈ xs →
        y = z ∨ end_of (rqs w) y ≤ pos_of (rqs w) z ∨ end_of (rqs w) z ≤ pos_of (rqs w) y) →
     ∀ y, y ∈ down → pos_of (rqs w) y < cur_pos (elevator_data w)).
Proof.
  intros Hd Hr Hnd Hdir Hsane.
  pose proof (one_list_nodup _ _ _ (look_list _ _ Hr)) as Hndx.
  destruct (look_drain_loop w ds xs (S (size (rqs w)))) as (w' & tr & E & Hs & Hd' & Hr' & _);
    [done..| |].
  { pose proof (live_length (rqs w) xs Hndx (one_live _ _ _ (look_list _ _ Hr))). lia. }
  rewrite Hdir in Hs.
  destruct (service_up _ _ _ _ Hsane Hs) as (up & down & -> & Hp & Hu & Hdn & Hge & Hlt).
  assert ((((λ r, (r, 1)) <$> up) ++ ((λ r, (r, 0)) <$> down)).*1 = up ++ down) as Efst.
  { rewrite fmap_app, <-!list_fmap_compose. f_equal; apply list_fmap_id. }
  rewrite Efst in Hd'. exists w', up, down. split_and!; try done. by intros ?; apply Hlt.
Qed.

Lemma look_drain_sweeps_witness :
  ∃ w' up down, elv_drain_elevator elevator_look look_sample = Ok (tt, w') ∧ look_rep w' [] ∧
    dispatch_rep w' (dispatch_all (rqs look_sample) 0 (up ++ down) []) ∧
    up ++ down ≡ₚ [Rq 1; Rq 2; Rq 3] ∧
    StronglySorted (λ a b, pos_of (rqs look_sample) a ≤ pos_of (rqs look_sample) b) up ∧
    StronglySorted (λ a b, pos_of (rqs look_sample) b ≤ pos_of (rqs look_sample) a) down.
Proof.
  destruct (look_drain_sweeps look_sample [] [Rq 1; Rq 2; Rq 3])
    as (w' & up & down & ? & ? & ? & ? & ? & ? & _).
  - apply (bool_decide_unpack _). vm_compute. exact I.
  - apply look_rep_intro. vm_compute. reflexivity.
  - apply (bool_decide_unpack _). vm_compute. exact I.
  - reflexivity.
  - intros y Hy. repeat (apply elem_of_cons in Hy as [->|Hy]; [vm_compute; reflexivity|]).
    by apply elem_of_nil in Hy.
  - exists w', up, down. by split_and!.
Defined.

(** Two requests below the head, the second adjacent to the first, moving down. *)
Definition look_contiguous : world look_data :=
  sample_world (LookData 105 0)
    [(Rq 1, sample_rq 0 100 8); (Rq 2, sample_rq 0 108 8)] [] [Rq 1; Rq 2].

(** LOOK moving down does not always serve smaller sectors next.  The head
    position is set to the end of the served request, so a request that starts
    right there counts as being below: with the head at 105 moving down, sector
    100 is served first and then sector 108, still in direction down. *)
Theorem look_down_serves_upwards :
  ∃ w1 w2, look_dispatch 0 look_contiguous = Ok (1, w1) ∧ look_dispatch 0 w1 = Ok (1, w2) ∧
    dir (elevator_data w1) = 0 ∧ dir (elevator_data w2) = 0 ∧
    dispatch_rep w1 [Rq 1] ∧ look_rep w1 [Rq 2] ∧ dispatch_rep w2 [Rq 1; Rq 2] ∧
    pos_of (rqs look_contiguous) (Rq 1) < pos_of (rqs look_contiguous) (Rq 2).
Proof.
  destruct (look_dispatch 0 look_contiguous) as [[n1 w1]|] eqn:E1; [|vm_compute in E1; discriminate].
  vm_compute in E1. injection E1 as <- <-.
  eexists _, _. split; [reflexivity|]. split; [vm_compute; reflexivity|].
  split_and!; [reflexivity|reflexivity|..]; [|apply look_rep_intro; vm_compute; reflexivity| |vm_compute; reflexivity];
    apply (bool_decide_unpack _); vm_compute; exact I.
Qed.
