(* ===== verification/Cloned.v ===== *)
(** * Requests of stacking drivers ([block/blk-core.c])

    A request-based stacking driver sends a copy of a request to a queue below.
    [blk_insert_cloned_request] checks it against the limits of that queue, which
    may differ from those it was built for, and queues it.  Disk statistics and
    fault injection are not modelled. *)

From S2P Require Import Prelude KList Request Samples Elevator Iosched Settings Segments ReqList.
From S2P Require Import Complete Noop Dispatch.

Local Open Scope Z_scope.

Section cloned.
Context {D : Type} (ops : elevator_ops D) (request_fn : ST (world D) unit).

Definition blk_rq_check_limits (r : rqid) : ST (world D) Z :=
  q ← q_get;
  rq ← rq_get r;
  if (blk_rq_sectors rq >? queue_max_sectors q) ||
     (blk_rq_bytes rq >? u32 (Z.shiftl (queue_max_hw_sectors q) 9))
  then mret (- EIO) else
  rq_upd r (blk_recalc_rq_segments q);;
  rq ← rq_get r;
  if nr_phys_segments rq >? queue_max_segments q then mret (- EIO) else mret 0.

Definition blk_insert_cloned_request (r : rqid) : ST (world D) Z :=
  ret ← blk_rq_check_limits r;
  if negb (ret =? 0) then mret (- EIO) else
  e ← on_links (list_empty (Ptr (queuelist r)));
  bug_on (negb e);;
  __elv_add_request ops request_fn r ELEVATOR_INSERT_BACK false;;
  mret 0.
End cloned.

(** ** Counting again gives the same number *)

Definition same_counting (s t : recalc_state) : Prop :=
  seg_size s = seg_size t ∧ nr_phys_segs s = nr_phys_segs t ∧ bvprv s = bvprv t ∧
  highprv s = highprv t.

Lemma recalc_same_count q vs s t : same_counting s t →
  same_counting (foldl (recalc_step q) s vs) (foldl (recalc_step q) t vs).
Proof.
  revert s t. induction vs as [|v vs IH]; intros s t Hst; [done|]. simpl. apply IH.
  destruct Hst as (E1 & E2 & E3 & E4). unfold recalc_step. rewrite E1, E2, E3, E4.
  destruct (_ && _); done.
Qed.

Lemma recalc_count_segs q rq rq' : rq_segs rq' = rq_segs rq →
  nr_phys_segments (blk_recalc_rq_segments q rq') = nr_phys_segments (blk_recalc_rq_segments q rq).
Proof.
  intros E. rewrite !recalc_count, E. f_equal.
  eapply (recalc_same_count q (rq_segs rq) (RecalcState _ _ _ _ _) (RecalcState _ _ _ _ _)). done.
Qed.

Lemma recalc_segs q rq : rq_segs (blk_recalc_rq_segments q rq) = rq_segs rq.
Proof.
  unfold rq_segs. f_equal. apply (plain_chain _ _ (proj1 (recalc_plain q rq))).
Qed.

(** ** The property *)
Section insertion.
Context {D : Type} (ops : elevator_ops D) (sched : world D → list rqid → Prop)
  (ready : world D → rqid → Prop) `{!IoSched ops sched ready}.
Implicit Types (w : world D).

Lemma add_back_pre w r rq : rqs w !! r = Some rq →
  ∃ q', (∀ request_fn, __elv_add_request ops request_fn r ELEVATOR_INSERT_BACK false w =
           elv_insert ops request_fn r ELEVATOR_INSERT_BACK
             (set_queue q' (set_rqs (<[r := coloured (queue w) rq]> (rqs w)) w))) ∧
    nr_sorted q' = nr_sorted (queue w).
Proof.
  intros Hr. unfold __elv_add_request. set (rq1 := coloured (queue w) rq).
  set (w1 := set_rqs (<[r := rq1]> (rqs w)) w).
  assert (rqs w1 !! r = Some rq1) as Hr1 by apply lookup_insert_eq.
  assert (∃ q2, (if tst (cmd_flags rq1) (Z.lor REQ_SOFTBARRIER REQ_HARDBARRIER)
       then elv_add_barrier r ELEVATOR_INSERT_BACK
       else if negb (tst (cmd_flags rq1) REQ_ELVPRIV) && (ELEVATOR_INSERT_BACK =? ELEVATOR_INSERT_SORT)
       then mret ELEVATOR_INSERT_BACK else mret ELEVATOR_INSERT_BACK) w1 =
     Ok (ELEVATOR_INSERT_BACK, set_queue q2 w1) ∧ nr_sorted q2 = nr_sorted (queue w)) as (q2 & E2 & N2).
  { destruct (tst _ _).
    - unfold elv_add_barrier. st_step (rq_get_ok _ _ _ Hr1).
      destruct (blk_barrier_rq rq1), (blk_fs_request rq1 || _); cbn [when];
        eexists; (split; [reflexivity|]); done.
    - exists (queue w1). split; [|done]. by destruct (_ && _), w. }
  exists q2. split; [|done]. intros request_fn. erewrite (st_bind_ok q_get) by reflexivity.
  assert (when (negb (ordcolor (queue w) =? 0))
    (rq_upd r (λ rq, set_cmd_flags (Z.lor (cmd_flags rq) REQ_ORDERED_COLOR) rq)) w = Ok (tt, w1)) as E1.
  { unfold w1, rq1, coloured. destruct (ordcolor (queue w) =? 0); cbn [negb when];
      [|by rewrite (rq_upd_ok _ _ _ _ Hr)]. rewrite insert_id by done. by destruct w. }
  st_step E1. st_step (rq_get_ok _ _ _ Hr1). st_step E2. by erewrite st_bind_ok by reflexivity.
Qed.

(** The limits of the queue that the request has to respect. *)
Definition within_limits (q : request_queue) (rq : request) : bool :=
  (blk_rq_sectors rq <=? queue_max_sectors q) &&
  (blk_rq_bytes rq <=? u32 (Z.shiftl (queue_max_hw_sectors q) 9)) &&
  (nr_phys_segments (blk_recalc_rq_segments q rq) <=? queue_max_segments q).

Lemma check_limits_ok w r rq : rqs w !! r = Some rq →
  ∃ rq', blk_rq_check_limits r w =
      Ok (if within_limits (queue w) rq then 0 else - EIO, set_rqs (<[r := rq']> (rqs w)) w) ∧
    (if within_limits (queue w) rq then rq' = blk_recalc_rq_segments (queue w) rq
     else rq' = rq ∨ rq' = blk_recalc_rq_segments (queue w) rq).
Proof.
  intros Hr. unfold blk_rq_check_limits, within_limits. erewrite (st_bind_ok q_get) by reflexivity.
  st_step (rq_get_ok _ _ _ Hr). rewrite !Z.gtb_ltb, !Z.ltb_antisym, <-negb_andb.
  destruct ((blk_rq_sectors rq <=? _) && (blk_rq_bytes rq <=? _)); cbn [negb andb].
  2: { exists rq. split; [|by left]. rewrite insert_id by done. by destruct w. }
  st_step (rq_upd_ok _ (blk_recalc_rq_segments (queue w)) _ _ Hr).
  eexists. split; [|by destruct (_ <=? _); [|right]].
  erewrite (st_bind_ok (rq_get r)) by (apply rq_get_ok, lookup_insert_eq).
  rewrite Z.gtb_ltb, Z.ltb_antisym. by destruct (_ <=? _).
Qed.
End insertion.

(** A cloned request that exceeds a limit of the queue it is sent to is
    refused and not queued.  Otherwise it is queued behind everything that was
    added before, and a scatter list with as many entries as the queue allows
    segments (one more with a drain buffer) is large enough for all its bytes,
    whatever queue its segments were counted for before. *)
Theorem cloned_request_queued {D} (ops : elevator_ops D) sched ready `{!IoSched ops sched ready}
    drain_needed w ds xs r rq :
  dispatch_rep w ds → sched w xs → NoDup (ds ++ xs) →
  nr_sorted (queue w) = u32 (Z.of_nat (length xs)) →
  rqs w !! r = Some rq → r ∉ ds ++ xs → is_list (links w) (queuelist r) [] →
  seg_limits_ok (queue w) → Forall bvec_ok (rq_segs rq) → rq_segs rq ≠ [] →
  Z.of_nat (length (rq_segs rq)) < 2 ^ 16 → tst (cmd_flags rq) REQ_COPY_USER = false →
  let q := queue w in
  let extra := if dma_drain_size (conf q) =? 0 then 0 else 1 in
  if within_limits q rq then
    ∃ w' ds' rq', (∀ request_fn, blk_insert_cloned_request ops request_fn r w =
        ((__blk_run_queue ops request_fn;; after_insert request_fn);; mret 0) w') ∧
      dispatch_rep w' (ds' ++ [r]) ∧ ds' ≡ₚ ds ++ xs ∧ sched w' [] ∧ rqs w' !! r = Some rq' ∧
      (∀ p, p ≠ r → rqs w' !! p = rqs w !! p) ∧
      ∃ rq'' sgs tail,
        blk_rq_map_sg drain_needed q rq' (Z.to_nat (queue_max_segments q + extra)) = Ok (rq'', sgs ++ tail) ∧
        Z.of_nat (length tail) ≤ extra ∧
        concat (sg_bytes <$> sgs) = concat (bv_bytes <$> rq_segs rq) ∧ Forall (sg_ok q) sgs
  else
    ∃ rq', ∀ request_fn, blk_insert_cloned_request ops request_fn r w =
      Ok (- EIO, set_rqs (<[r := rq']> (rqs w)) w).
Proof.
  intros Hd Hs Hnd Hnr Hr Hn Hl Hq Hv Hne Hlen Hcu q extra.
  destruct (check_limits_ok w r rq Hr) as (rq' & E & Hrq').
  destruct (within_limits q rq) eqn:Hw; fold q in E, Hrq'; rewrite Hw in E, Hrq'.
  2: { exists rq'. intros request_fn. unfold blk_insert_cloned_request.
       by rewrite (st_bind_ok _ _ _ _ _ E). }
  subst rq'. set (rq1 := blk_recalc_rq_segments q rq) in *.
  set (w1 := set_rqs (<[r := rq1]> (rqs w)) w) in *.
  destruct (holds_upd w ds xs r rq rq1) as [Hd1 Hs1]; [done..|].
  destruct (add_back_pre ops w1 r rq1) as (q' & Ea & Hnr'); [apply lookup_insert_eq|].
  assert (mapped (links w) (queuelist r)) as Hm by (apply (is_list_mapped _ _ _ Hl); by left).
  destruct (insert_back_last ops sched ready w1 q' ds xs r rq1 (coloured (queue w1) rq1))
    as (w2 & ds' & E2 & Hd2 & Hp & Hs2 & Hrq & _); [done|done|done|done|apply lookup_insert_eq|done|done|done|].
  set (rq2 := set_cmd_flags _ (coloured (queue w1) rq1)) in Hrq.
  assert (Hsegs : rq_segs rq2 = rq_segs rq).
  { transitivity (rq_segs rq1); [|apply recalc_segs].
    unfold rq2, coloured, rq_segs. case_match; reflexivity. }
  exists w2, ds', rq2. split; [|split; [done|split; [done|split; [done|split; [|split]]]]].
  - intros request_fn. unfold blk_insert_cloned_request. rewrite (st_bind_ok _ _ _ _ _ E). cbn [Z.eqb negb].
    erewrite (st_bind_ok (on_links _)) by (apply on_links_read, (list_empty_spec _ _ _ Hl)).
    cbn. unfold mbind, st_bind. cbn. rewrite (Ea request_fn), E2. done.
  - rewrite Hrq. apply lookup_insert_eq.
  - intros p ?. rewrite Hrq. cbn. by rewrite !lookup_insert_ne.
  - rewrite <-Hsegs.
    assert (Hcap : nr_phys_segments (blk_recalc_rq_segments q rq2) ≤ queue_max_segments q).
    { rewrite (recalc_count_segs q rq rq2 Hsegs). unfold within_limits in Hw.
      by apply andb_true_iff in Hw as [_ ?%Z.leb_le]. }
    assert (0 ≤ extra) by (subst extra; by destruct (_ =? 0)).
    destruct (blk_rq_map_sg_ok drain_needed q rq2 (Z.to_nat (queue_max_segments q + extra)))
      as (rq'' & sgs & tl & Em & _ & Ht & Hb & Hok); try done; try (by rewrite Hsegs).
    + assert (Hf : cmd_flags rq1 = cmd_flags rq)
        by (unfold rq1, blk_recalc_rq_segments; by destruct (__blk_recalc_rq_segments _ _)).
      unfold rq2, coloured. destruct (ordcolor _ =? 0); cbn; rewrite !tst_lor, Hf, Hcu; reflexivity.
    + fold extra. rewrite Z2Nat.id; [lia|]. rewrite recalc_count in Hcap. unfold u16 in Hcap.
      match type of Hcap with ?c mod _ ≤ _ => pose proof (Z.mod_pos_bound c (2 ^ 16)) end. lia.
    + by exists rq'', sgs, tl.
Qed.

(** The limit in bytes is computed in 32 bits: on a queue set up to take
    [2 ^ 23 + 8] sectors at once every cloned request of more than a page is
    refused. *)
Lemma cloned_limit_wraps q rq : 4096 < blk_rq_bytes rq →
  queue_max_hw_sectors (blk_queue_max_hw_sectors (2 ^ 23 + 8) q) = 2 ^ 23 + 8 ∧
  within_limits (blk_queue_max_hw_sectors (2 ^ 23 + 8) q) rq = false.
Proof.
  intros Hb. split; [done|]. unfold within_limits.
  change (u32 (Z.shiftl (queue_max_hw_sectors (blk_queue_max_hw_sectors (2 ^ 23 + 8) q)) 9)) with 4096.
  destruct (Z.leb_spec (blk_rq_bytes rq) 4096); [lia|]. by rewrite andb_false_r.
Qed.

Definition cloned_world : world noop_data :=
  let w := sample_world NoopData [(Rq 1, sample_rq 0 0 8); (Rq 2, sample_rq 0 8 8); (Rq 3, three_vec_rq)]
             [Rq 1] [Rq 2] in
  set_queue (flag_set QUEUE_FLAG_CLUSTER (queue w)) w.

Lemma cloned_request_queued_witness :
  ∃ w' ds' rq', (∀ request_fn, blk_insert_cloned_request elevator_noop request_fn (Rq 3) cloned_world =
      ((__blk_run_queue elevator_noop request_fn;; after_insert request_fn);; mret 0) w') ∧
    dispatch_rep w' (ds' ++ [Rq 3]) ∧ ds' ≡ₚ [Rq 1; Rq 2] ∧ rqs w' !! Rq 3 = Some rq' ∧
    ∃ rq'' sgs tail, blk_rq_map_sg (λ _, false) (queue cloned_world) rq' 128 = Ok (rq'', sgs ++ tail) ∧
      concat (sg_bytes <$> sgs) = concat (bv_bytes <$> rq_segs three_vec_rq).
Proof.
  assert (Hw : within_limits (queue cloned_world) three_vec_rq = true) by (vm_compute; reflexivity).
  pose proof (cloned_request_queued elevator_noop (one_list 0) noop_ready (λ _, false) cloned_world
    [Rq 1] [Rq 2] (Rq 3) three_vec_rq) as H. cbn zeta in H. rewrite Hw in H.
  destruct H as (w' & ds' & rq' & E & Hd & Hp & _ & Hr & _ & rq'' & sgs & tl & Em & _ & Hb & _).
  - apply (bool_decide_unpack _). vm_compute. exact I.
  - apply (bool_decide_unpack _). vm_compute. exact I.
  - apply (bool_decide_unpack _). vm_compute. exact I.
  - reflexivity.
  - reflexivity.
  - apply (bool_decide_unpack _). vm_compute. exact I.
  - apply (bool_decide_unpack _). vm_compute. exact I.
  - split; [vm_compute; split; discriminate|]. exists 32. split; [lia|reflexivity].
  - apply (bool_decide_eq_true_1 _). vm_compute. reflexivity.
  - discriminate.
  - vm_compute. reflexivity.
  - reflexivity.
  - exists w', ds', rq'. split; [exact E|]. split; [exact Hd|]. split; [exact Hp|]. split; [exact Hr|].
    exists rq'', sgs, tl. split; [exact Em|exact Hb].
Defined.
