(* ===== verification/Bounce.v ===== *)
(** * Bounce buffers ([mm/bounce.c])

    A device that cannot address all of memory is given a copy of the bio whose
    out-of-reach pages are replaced by pages of a pool; data to write is copied
    before the transfer and data read is copied back when it ends.  Memory is a
    function from physical addresses to bytes, the two pools are lists of free
    pages, and taking a page from an empty pool, which waits, is [HANG].  The
    number of a new bio is an argument.  Caches and the page statistics are not
    modelled. *)

From S2P Require Import Prelude KList Request Samples Elevator Settings Segments Complete BioAdd.

Local Open Scope Z_scope.

Definition BIO_BOUNCED : Z := 5.
Definition READ : Z := 0.
Definition WRITE : Z := 1.

(** [originals]: for each bounced bio in flight, [bi_private] and the pool its
    [bi_end_io] returns pages to.  [finished]: the bios whose owner was told,
    latest first. *)
Record bounce_state := BounceState {
  memory : Z → Z;
  page_pool : list Z;
  isa_page_pool : option (list Z);
  originals : gmap positive (bio * bool);
  finished : list (bio * Z)
}.
Definition set_memory (m : Z → Z) (s : bounce_state) : bounce_state :=
  BounceState m (page_pool s) (isa_page_pool s) (originals s) (finished s).
Definition set_originals o (s : bounce_state) : bounce_state :=
  BounceState (memory s) (page_pool s) (isa_page_pool s) o (finished s).
Definition set_finished f (s : bounce_state) : bounce_state :=
  BounceState (memory s) (page_pool s) (isa_page_pool s) (originals s) f.

(** The free pages of the pool chosen by [isa]. *)
Definition pool_of (isa : bool) (s : bounce_state) : list Z :=
  if isa then default [] (isa_page_pool s) else page_pool s.
Definition set_pool (isa : bool) (l : list Z) (s : bounce_state) : bounce_state :=
  if isa then BounceState (memory s) (page_pool s) (Some l) (originals s) (finished s)
  else BounceState (memory s) l (isa_page_pool s) (originals s) (finished s).

Definition mempool_alloc_page (isa : bool) : ST bounce_state Z :=
  s ← get;
  match pool_of isa s with
  | [] => raise HANG
  | p :: l => put (set_pool isa l s);; mret p
  end.
Definition mempool_free_page (isa : bool) (p : Z) : ST bounce_state unit :=
  modify (λ s, set_pool isa (p :: pool_of isa s) s).

Definition page_address (p : Z) : Z := p * 4096.
Definition memcpy (dst src len : Z) (m : Z → Z) : Z → Z :=
  λ a, if (dst <=? a) && (a <? dst + len) then m (src + (a - dst)) else m a.

(** [alloc]: whether the pool can be created. *)
Definition init_emergency_isa_pool (pages : list Z) (alloc : bool) : ST bounce_state Z :=
  s ← get;
  match isa_page_pool s with
  | Some _ => mret 0
  | None => bug_on (negb alloc);; put (set_pool true pages s);; mret 0
  end.

(** ** Replacing the pages *)

(** The first loop of [__blk_queue_bounce]: a new vector for each page that is
    out of reach. *)
Fixpoint bounce_vecs (q : request_queue) (isa : bool) (rw : Z) (froms : list bio_vec) :
    ST bounce_state (list (option bio_vec)) :=
  match froms with
  | [] => mret []
  | from :: froms =>
    if bv_page from <=? queue_bounce_pfn q then
      tos ← bounce_vecs q isa rw froms; mret (None :: tos)
    else
      page ← mempool_alloc_page isa;
      let to := BioVec page (bv_len from) (bv_offset from) in
      when (rw =? WRITE)
        (modify (λ s, set_memory (memcpy (page_address page + bv_offset to)
                        (page_address (bv_page from) + bv_offset from) (bv_len to) (memory s)) s));;
      tos ← bounce_vecs q isa rw froms; mret (Some to :: tos)
  end.

(** The flags of the bio [bio_alloc(GFP_NOIO, cnt)] gives when the slab has
    memory; in the top bits is the index of the slab the vectors came from.  The
    call is taken to succeed, as it does up to [BIO_MAX_PAGES] vectors. *)
Definition bounce_flags (id : positive) (cnt : Z) : Z :=
  match bio_alloc (BioMemory (Some id) true true true) cnt with
  | Some (b, _) => bi_flags b
  | None => bi_flags (bio_init id)
  end.

(** That bio with the fields [__blk_queue_bounce] fills in. *)
Definition bounce_bio (id : positive) (b : bio) (vecs : list bio_vec) : bio :=
  {| bi_id := id; bi_sector := bi_sector b; bi_disk := bi_disk b;
     bi_flags := Z.lor (bounce_flags id (bi_vcnt b)) (Z.shiftl 1 BIO_BOUNCED); bi_rw := bi_rw b;
     bi_idx := bi_idx b; bi_phys_segments := 0; bi_size := bi_size b; bi_seg_front_size := 0;
     bi_seg_back_size := 0; bi_has_vec := true; bi_io_vec := vecs; bi_comp_cpu := -1;
     bi_integrity := false |}.

Definition __blk_queue_bounce (id : positive) (q : request_queue) (b : bio) (isa : bool) :
    ST bounce_state bio :=
  tos ← bounce_vecs q isa (bio_data_dir b) (bio_segs b);
  if forallb (λ to, bool_decide (to = None)) tos then mret b else
  let tos := replicate (Z.to_nat (bi_idx b)) None ++ tos in
  let bounced := bounce_bio id b (zip_with (λ to from, default from to) tos (bi_io_vec b)) in
  modify (λ s, set_originals (<[id := (b, isa)]> (originals s)) s);;
  mret bounced.

(** [max_pfn]: [blk_max_pfn], the highest page of the system. *)
Definition blk_queue_bounce (max_pfn : Z) (id : positive) (q : request_queue) (b : bio) :
    ST bounce_state bio :=
  if negb (bio_has_data b) then mret b else
  if negb (tst (bounce_gfp (conf q)) GFP_DMA) then
    if queue_bounce_pfn q >=? max_pfn then mret b else __blk_queue_bounce id q b false
  else
    isa ← gets isa_page_pool;
    bug_on (bool_decide (isa = None));;
    __blk_queue_bounce id q b true.

(** ** The end of a bounced bio *)
Fixpoint copy_vecs (tos froms : list bio_vec) : ST bounce_state unit :=
  match tos, froms with
  | tovec :: tos, fromvec :: froms =>
    when (negb (bv_page tovec =? bv_page fromvec))
      (modify (λ s, set_memory (memcpy (page_address (bv_page tovec) + bv_offset tovec)
                      (page_address (bv_page fromvec) + bv_offset tovec) (bv_len tovec) (memory s)) s));;
    copy_vecs tos froms
  | [], _ => mret tt
  | _ :: _, [] => raise OOPS
  end.
Definition copy_to_high_bio_irq (to from : bio) : ST bounce_state unit :=
  copy_vecs (bi_io_vec to) (bi_io_vec from).

Fixpoint free_vecs (isa : bool) (bvecs orgs : list bio_vec) : ST bounce_state unit :=
  match bvecs, orgs with
  | bvec :: bvecs, org_vec :: orgs =>
    when (negb (bv_page bvec =? bv_page org_vec)) (mempool_free_page isa (bv_page bvec));;
    free_vecs isa bvecs orgs
  | [], _ => mret tt
  | _ :: _, [] => raise OOPS
  end.

Definition bounce_end_io (b : bio) (isa : bool) (err : Z) : ST bounce_state unit :=
  os ← gets originals;
  '(bio_orig, _) ← lift (deref (os !! bi_id b));
  let bio_orig := if test_bit BIO_EOPNOTSUPP (bi_flags b)
                  then set_bi_flags (Z.setbit (bi_flags bio_orig) BIO_EOPNOTSUPP) bio_orig else bio_orig in
  free_vecs isa (bi_io_vec b) (bi_io_vec bio_orig);;
  modify (λ s, set_finished (end_flags bio_orig err :: finished s) s);;
  (* bio_put *)
  modify (λ s, set_originals (delete (bi_id b) (originals s)) s).

Definition __bounce_end_io_read (b : bio) (isa : bool) (err : Z) : ST bounce_state unit :=
  os ← gets originals;
  '(bio_orig, _) ← lift (deref (os !! bi_id b));
  when (test_bit BIO_UPTODATE (bi_flags b)) (copy_to_high_bio_irq bio_orig b);;
  bounce_end_io b isa err.

(** [bi_end_io] of a bounced bio: one of four functions, by direction and pool. *)
Definition bounced_end_io (b : bio) (err : Z) : ST bounce_state unit :=
  os ← gets originals;
  '(bio_orig, isa) ← lift (deref (os !! bi_id b));
  if bio_data_dir bio_orig =? READ then __bounce_end_io_read b isa err
  else bounce_end_io b isa err.

(** ** What a transfer sees *)

(** The bytes at the vectors, in transfer order. *)
Definition data (m : Z → Z) (vs : list bio_vec) : list Z := concat ((λ v, m <$> bv_bytes v) <$> vs).

Definition in_page (p a : Z) : Prop := page_address p ≤ a < page_address p + 4096.

(** [tos] replaces the vectors of [froms] that are out of reach, with the pages
    [used]. *)
Inductive replaced (q : request_queue) : list bio_vec → list Z → list (option bio_vec) → Prop :=
| replaced_nil : replaced q [] [] []
| replaced_keep v vs us tos : bv_page v ≤ queue_bounce_pfn q → replaced q vs us tos →
    replaced q (v :: vs) us (None :: tos)
| replaced_new v vs p us tos : queue_bounce_pfn q < bv_page v → replaced q vs us tos →
    replaced q (v :: vs) (p :: us) (Some (BioVec p (bv_len v) (bv_offset v)) :: tos).

Definition chosen (tos : list (option bio_vec)) (froms : list bio_vec) : list bio_vec :=
  zip_with (λ to from, default from to) tos froms.

Lemma bytes_in_page v u a : bvec_ok v → bv_len u = bv_len v → bv_offset u = bv_offset v →
  a ∈ bv_bytes u → in_page (bv_page u) a.
Proof.
  intros (? & ? & ? & ?) ?? Ha%elem_of_seqZ. change PAGE_CACHE_SIZE with 4096 in *.
  unfold in_page, page_address, bv_start in *. lia.
Qed.
Lemma in_page_inj p p' a : in_page p a → in_page p' a → p = p'.
Proof. unfold in_page, page_address. lia. Qed.

Lemma data_ext m m' vs : (∀ v a, v ∈ vs → a ∈ bv_bytes v → m a = m' a) → data m vs = data m' vs.
Proof.
  intros H. unfold data. f_equal. apply list_fmap_ext. intros i v Hv. apply list_fmap_ext.
  intros j a Ha. apply (H v); by eapply list_elem_of_lookup_2.
Qed.
Lemma data_cons m v vs : data m (v :: vs) = (m <$> bv_bytes v) ++ data m vs.
Proof. done. Qed.

Lemma memcpy_out dst src len m a : ¬ (dst ≤ a < dst + len) → memcpy dst src len m a = m a.
Proof.
  intros H. unfold memcpy. destruct (Z.leb_spec dst a), (Z.ltb_spec a (dst + len)); cbn; try done. lia.
Qed.
(** Copying one vector onto another of the same length. *)
Lemma memcpy_vec m p v w : bv_len w = bv_len v → bv_start v = page_address (bv_page v) + bv_offset v →
  p = page_address (bv_page v) + bv_offset v →
  (memcpy p (bv_start w) (bv_len v) m <$> bv_bytes v) = m <$> bv_bytes w.
Proof.
  intros El Es ->. rewrite <-Es. unfold bv_bytes. rewrite El.
  apply list_eq. intros i. rewrite !list_lookup_fmap.
  destruct (decide (Z.of_nat i < bv_len v)) as [Hi|Hi].
  - rewrite !(lookup_seqZ_lt _ _ i) by lia. cbn. f_equal. unfold memcpy.
    destruct (Z.leb_spec (bv_start v) (bv_start v + Z.of_nat i)),
      (Z.ltb_spec (bv_start v + Z.of_nat i) (bv_start v + bv_len v)); cbn; try lia. f_equal. lia.
  - by rewrite !(lookup_seqZ_ge _ _ i) by lia.
Qed.

Lemma pool_set isa l s : pool_of isa (set_pool isa l s) = l.
Proof. by destruct isa. Qed.
Lemma set_pool_twice isa l l' s : set_pool isa l (set_pool isa l' s) = set_pool isa l s.
Proof. by destruct isa. Qed.
Lemma set_pool_id isa s : is_Some (isa_page_pool s) → set_pool isa (pool_of isa s) s = s.
Proof. intros [l E]. destruct s, isa; cbn in *; by subst. Qed.
Lemma memory_set_pool isa l s : memory (set_pool isa l s) = memory s.
Proof. by destruct isa. Qed.
Lemma set_memory_pool isa l m s : set_memory m (set_pool isa l s) = set_pool isa l (set_memory m s).
Proof. by destruct isa. Qed.

Lemma mempool_alloc_ok isa s p pl : pool_of isa s = p :: pl →
  mempool_alloc_page isa s = Ok (p, set_pool isa pl s).
Proof. intros E. unfold mempool_alloc_page, mbind, st_bind, get. by rewrite E. Qed.

(** The number of vectors out of reach. *)
Definition out_of_reach (q : request_queue) (vs : list bio_vec) : list bio_vec :=
  filter (λ v, queue_bounce_pfn q < bv_page v) vs.

(** A vector out of reach is copied to a page [p] of its own, with the memory
    [m1] after the copy and [m'] at the end of the loop. *)
Lemma copied_vec v p m m' (us : list Z) : bvec_ok v → p ∉ us →
  (∀ a, (∀ p', p' ∈ us → ¬ in_page p' a) → m' a = memcpy (page_address p + bv_offset v)
     (page_address (bv_page v) + bv_offset v) (bv_len v) m a) →
  m' <$> bv_bytes (BioVec p (bv_len v) (bv_offset v)) = m <$> bv_bytes v.
Proof.
  intros Hv Hp Hout. etransitivity; [apply list_fmap_ext|].
  - intros i a Ha%list_elem_of_lookup_2. apply Hout. intros p' Hp' Hin.
    apply (bytes_in_page v) in Ha; [|done..]. apply Hp. by rewrite (in_page_inj p p' a Ha Hin).
  - by apply (memcpy_vec m _ (BioVec p (bv_len v) (bv_offset v)) v).
Qed.

(** The pages the loop takes, and what is in them afterwards. *)
Lemma bounce_vecs_ok q isa rw vs : Forall bvec_ok vs → ∀ s pl,
  is_Some (isa_page_pool s) → pool_of isa s = pl → NoDup pl → (∀ v, v ∈ vs → bv_page v ∉ pl) →
  (length (out_of_reach q vs) ≤ length pl)%nat →
  ∃ us rest tos m', pl = us ++ rest ∧ replaced q vs us tos ∧
    bounce_vecs q isa rw vs s = Ok (tos, set_pool isa rest (set_memory m' s)) ∧
    (∀ a, (∀ p, p ∈ us → ¬ in_page p a) → m' a = memory s a) ∧
    (rw = WRITE → data m' (chosen tos vs) = data (memory s) vs) ∧
    (rw ≠ WRITE ∨ us = [] → m' = memory s).
Proof.
  induction 1 as [|v vs Hv Hvs IH]; intros s pl Hisa Epl Hnd Hdis Hlen.
  { exists [], pl, [], (memory s). split_and!; try done; [constructor|].
    cbn. subst pl. destruct s; cbn in *. by rewrite <-set_pool_id at 1. }
  unfold out_of_reach in *. rewrite filter_cons in Hlen. cbn [bounce_vecs].
  destruct (decide (queue_bounce_pfn q < bv_page v)) as [Hhi|Hlo].
  - destruct (Z.leb_spec (bv_page v) (queue_bounce_pfn q)); [lia|].
    destruct pl as [|p pl]; cbn [length] in Hlen; [lia|]. apply NoDup_cons in Hnd as [Hp Hnd].
    set (to := BioVec p (bv_len v) (bv_offset v)).
    set (m1 := if rw =? WRITE then memcpy (page_address p + bv_offset v)
                 (page_address (bv_page v) + bv_offset v) (bv_len v) (memory s) else memory s).
    destruct (IH (set_pool isa pl (set_memory m1 s)) pl)
      as (us & rest & tos & m' & Ep & Hr & E & Hout & Hw & Hnw); try done.
    { by destruct isa. }
    { apply pool_set. }
    { intros u Hu Hin. apply (Hdis u); by right. }
    { lia. }
    rewrite memory_set_pool in Hout, Hw, Hnw. cbn [memory set_memory] in *.
    assert (∀ a, ¬ in_page p a → m1 a = memory s a) as Hm1.
    { intros a Ha. unfold m1. destruct (rw =? WRITE); [|done]. apply memcpy_out.
      destruct Hv as (? & ? & ? & ?). change PAGE_CACHE_SIZE with 4096 in *. unfold in_page in Ha. lia. }
    exists (p :: us), rest, (Some to :: tos), m'. split_and!.
    + by rewrite Ep.
    + by constructor.
    + st_step (mempool_alloc_ok isa s p pl Epl).
      assert (∀ st : ST bounce_state unit, st (set_pool isa pl s) = Ok (tt, set_pool isa pl (set_memory m1 s)) →
        (st;; tos ← bounce_vecs q isa rw vs; mret (Some to :: tos)) (set_pool isa pl s)
        = Ok (Some to :: tos, set_pool isa rest (set_memory m' s))) as Hgo.
      { intros st Est. st_step Est. st_step E. by destruct isa, s. }
      apply Hgo. unfold m1. destruct (rw =? WRITE); cbn [when]; by destruct isa, s.
    + intros a Ha. rewrite Hout, Hm1; [done|apply Ha; by left|intros p' Hp'; apply Ha; by right].
    + intros Erw. cbn [chosen zip_with default]. rewrite !data_cons. f_equal.
      * apply (copied_vec v p (memory s) m' us); [done|set_solver|].
        intros a Ha. rewrite Hout by done. unfold m1. by rewrite Erw.
      * etransitivity; [by apply Hw|]. apply data_ext. intros u a Hu Ha. apply Hm1. intros Hin.
        rewrite Forall_forall in Hvs. apply (bytes_in_page u u) in Ha; [|by apply Hvs|done..].
        apply (Hdis u); [by right|]. rewrite (in_page_inj _ _ _ Ha Hin). by left.
    + intros [Erw|[=]]. rewrite Hnw by by left. unfold m1. by destruct (Z.eqb_spec rw WRITE).
  - destruct (Z.leb_spec (bv_page v) (queue_bounce_pfn q)); [|lia].
    destruct (IH s pl) as (us & rest & tos & m' & Ep & Hr & E & Hout & Hw & Hnw); try done.
    { intros u Hu. apply Hdis. by right. }
    exists us, rest, (None :: tos), m'. split_and!; try done; [by constructor|by st_step E|].
    intros Erw. cbn [chosen zip_with default]. rewrite !data_cons. f_equal; [|by apply Hw].
    apply list_fmap_ext. intros i a Ha. apply Hout. intros p Hp Hin.
    apply list_elem_of_lookup_2, (bytes_in_page v v) in Ha; [|done..].
    apply (Hdis v); [by left|]. rewrite Ep, (in_page_inj _ _ _ Ha Hin). set_solver.
Qed.

Lemma replaced_length q vs us tos : replaced q vs us tos → length tos = length vs.
Proof. induction 1; cbn; congruence. Qed.
Lemma replaced_none q vs us tos : replaced q vs us tos →
  forallb (λ to, bool_decide (to = None)) tos = true → us = [] ∧ chosen tos vs = vs.
Proof.
  induction 1 as [|v vs us tos Hv Hr IH|v vs p us tos Hv Hr IH]; cbn; [done| |done].
  intros Ht. destruct IH as [-> IH]; [done|]. unfold chosen in *. cbn. by rewrite IH.
Qed.
Lemma replaced_some q vs us tos : replaced q vs us tos →
  forallb (λ to, bool_decide (to = None)) tos = false → us ≠ [].
Proof. by induction 1. Qed.

(** A chosen vector covers the same part of a page in reach. *)
Definition same_part (v u : bio_vec) : Prop := bv_len u = bv_len v ∧ bv_offset u = bv_offset v.
Lemma chosen_spec q vs us tos : replaced q vs us tos →
  Forall2 (λ v u, same_part v u ∧ ((u = v ∧ bv_page v ≤ queue_bounce_pfn q) ∨
                    (bv_page u ∈ us ∧ queue_bounce_pfn q < bv_page v))) vs (chosen tos vs).
Proof.
  induction 1 as [|v vs us tos Hv Hr IH|v vs p us tos Hv Hr IH]; cbn; [constructor|..]; constructor.
  - split; [done|]. by left.
  - done.
  - split; [done|]. right. split; [by left|done].
  - eapply Forall2_impl; [exact IH|]. cbn. intros x y [? [?|[? ?]]]; split; [done|by left|done|].
    right. split; [by right|done].
Qed.

Lemma chosen_split tos vs n : (n ≤ length vs)%nat →
  zip_with (λ to from, default from to) (replicate n None ++ tos) vs = take n vs ++ chosen tos (drop n vs).
Proof.
  revert n. induction vs as [|v vs IH]; intros [|n] Hn; cbn in *; try done; [lia|]. rewrite IH by lia. done.
Qed.

(** What [__blk_queue_bounce] relies on: vectors within their pages, and a pool
    with enough pages, none of them in use by the bio. *)
Record bounce_ready (q : request_queue) (isa : bool) (s : bounce_state) (b : bio) : Prop := {
  ready_vecs : Forall bvec_ok (bi_io_vec b);
  ready_isa : is_Some (isa_page_pool s);
  ready_nodup : NoDup (pool_of isa s);
  ready_reach : Forall (λ p, p ≤ queue_bounce_pfn q) (pool_of isa s);
  ready_unused : ∀ v, v ∈ bi_io_vec b → bv_page v ∉ pool_of isa s;
  ready_enough : (length (out_of_reach q (bio_segs b)) ≤ length (pool_of isa s))%nat
}.

Lemma segs_elem b v : v ∈ bio_segs b → v ∈ bi_io_vec b.
Proof. unfold bio_segs. rewrite <-(take_drop (Z.to_nat (bi_idx b)) (bi_io_vec b)) at 2. set_solver. Qed.

(** The bounced bio and the state it leaves. *)
Lemma queue_bounce_ok id q b isa s : bounce_ready q isa s b →
  ∃ us rest tos m', pool_of isa s = us ++ rest ∧ replaced q (bio_segs b) us tos ∧
    (∀ a, (∀ p, p ∈ us → ¬ in_page p a) → m' a = memory s a) ∧
    (bio_data_dir b = WRITE → data m' (chosen tos (bio_segs b)) = data (memory s) (bio_segs b)) ∧
    (bio_data_dir b ≠ WRITE ∨ us = [] → m' = memory s) ∧
    __blk_queue_bounce id q b isa s =
      if decide (us = []) then Ok (b, s)
      else Ok (bounce_bio id b (take (Z.to_nat (bi_idx b)) (bi_io_vec b) ++ chosen tos (bio_segs b)),
               set_originals (<[id := (b, isa)]> (originals s)) (set_pool isa rest (set_memory m' s))).
Proof.
  intros [Hok Hisa Hnd _ Hun Hen].
  destruct (bounce_vecs_ok q isa (bio_data_dir b) (bio_segs b)) with (s := s) (pl := pool_of isa s)
    as (us & rest & tos & m' & Epl & Hr & E & Hout & Hw & Hnw); try done.
  { by apply Forall_drop. }
  { intros v Hv. by apply Hun, segs_elem. }
  exists us, rest, tos, m'. split_and!; try done. unfold __blk_queue_bounce. st_step E.
  destruct (forallb _ tos) eqn:Ef.
  - destruct (replaced_none _ _ _ _ Hr Ef) as [-> _]. cbn in Epl. subst rest.
    rewrite Hnw, decide_True by auto.
    assert (set_memory (memory s) s = s) as -> by by destruct s. by rewrite set_pool_id.
  - pose proof (replaced_some _ _ _ _ Hr Ef). rewrite decide_False by done.
    rewrite chosen_split; [by destruct isa|]. apply replaced_length in Hr. unfold bio_segs in Hr.
    rewrite length_drop in Hr. destruct tos; [done|]. cbn in Hr. lia.
Qed.

(** ** Data that is read comes back *)

(** Where the copy takes the data of [to] from, when [from] has the page. *)
Definition source (to from : bio_vec) : bio_vec := BioVec (bv_page from) (bv_len to) (bv_offset to).

Lemma source_same v u : bv_page v = bv_page u → source v u = v.
Proof. intros E. destruct v as [p l o]. unfold source. cbn in *. by subst. Qed.

Lemma copy_vecs_ok tos froms : length tos = length froms → Forall bvec_ok tos →
  NoDup (concat (bv_bytes <$> tos)) →
  (∀ i v u, tos !! i = Some v → froms !! i = Some u → bv_page v ≠ bv_page u → bv_page u ∉ bv_page <$> tos) → ∀ s,
  ∃ m', copy_vecs tos froms s = Ok (tt, set_memory m' s) ∧
    data m' tos = data (memory s) (zip_with source tos froms) ∧
    (∀ a, a ∉ concat (bv_bytes <$> tos) → m' a = memory s a).
Proof.
  revert froms. induction tos as [|v tos IH]; intros [|u froms] Hl Hok Hnd Hsrc s; try discriminate Hl.
  { exists (memory s). split_and!; try done. by destruct s. }
  injection Hl as Hl. apply Forall_cons in Hok as [Hv Hok]. rewrite fmap_cons in Hnd. cbn [concat] in Hnd.
  apply NoDup_app in Hnd as (_ & Hd & Hnd).
  set (m1 := if bv_page v =? bv_page u then memory s else
               memcpy (page_address (bv_page v) + bv_offset v) (page_address (bv_page u) + bv_offset v) (bv_len v) (memory s)).
  assert (∀ a, a ∉ bv_bytes v → m1 a = memory s a) as Hm1.
  { intros a Ha. unfold m1. destruct (_ =? _); [done|]. apply memcpy_out. intros Hin. apply Ha, elem_of_seqZ. done. }
  assert (m1 <$> bv_bytes v = memory s <$> bv_bytes (source v u)) as Hdv.
  { unfold m1. destruct (Z.eqb_spec (bv_page v) (bv_page u)); [by rewrite source_same|].
    by apply (memcpy_vec (memory s) _ v (source v u)). }
  destruct (IH froms Hl Hok Hnd) with (s := set_memory m1 s) as (m' & E & Hdat & Hout).
  { intros i v' u' Hv' Hu' Hne. pose proof (Hsrc (S i) v' u' Hv' Hu' Hne). set_solver. }
  exists m'. cbn [copy_vecs concat]. split_and!.
  - assert (when (negb (bv_page v =? bv_page u)) (modify (λ s, set_memory (memcpy (page_address (bv_page v) + bv_offset v)
      (page_address (bv_page u) + bv_offset v) (bv_len v) (memory s)) s)) s = Ok (tt, set_memory m1 s)) as E1.
    { unfold m1. destruct (_ =? _); cbn [negb when]; by destruct s. }
    st_step E1. rewrite E. by destruct s.
  - cbn [zip_with]. rewrite !data_cons, <-Hdv, Hdat. f_equal.
    + apply list_fmap_ext. intros i a Ha. apply Hout. apply Hd. by eapply list_elem_of_lookup_2.
    + apply data_ext. intros x a [i Hx]%list_elem_of_lookup Ha. apply Hm1. intros Hin.
      rewrite lookup_zip_with in Hx. destruct (tos !! i) as [v'|] eqn:Ev; [|done].
      destruct (froms !! i) as [u'|] eqn:Eu; [|done]. cbn in Hx. injection Hx as <-.
      destruct (decide (bv_page v' = bv_page u')) as [Ep|Ep].
      * rewrite source_same in Ha by done. apply (Hd a Hin). apply list_elem_of_In, in_concat.
        exists (bv_bytes v'). split; apply list_elem_of_In; [|done].
        apply list_elem_of_fmap_2. by eapply list_elem_of_lookup_2.
      * apply (Hsrc (S i) v' u' Ev Eu Ep). rewrite fmap_cons.
        apply (bytes_in_page v v) in Hin; [|done..].
        apply (bytes_in_page v' (source v' u')) in Ha; [|by eapply Forall_lookup_1|done..].
        cbn in Ha. rewrite (in_page_inj _ _ _ Ha Hin). by left.
  - intros a Ha. rewrite fmap_cons in Ha. cbn [concat] in Ha.
    apply not_elem_of_app in Ha as [Ha1 Ha2]. by rewrite Hout, Hm1.
Qed.

(** The pages that differ between two lists of vectors. *)
Fixpoint differing (vs ws : list bio_vec) : list Z :=
  match vs, ws with
  | v :: vs, w :: ws => if bv_page v =? bv_page w then differing vs ws else bv_page v :: differing vs ws
  | _, _ => []
  end.

Lemma free_vecs_ok isa vs ws : length vs = length ws → ∀ s, is_Some (isa_page_pool s) →
  free_vecs isa vs ws s = Ok (tt, set_pool isa (rev (differing vs ws) ++ pool_of isa s) s).
Proof.
  revert ws. induction vs as [|v vs IH]; intros [|w ws] Hl s Hs; try discriminate Hl.
  { cbn. by rewrite set_pool_id. }
  injection Hl as Hl. cbn [free_vecs differing]. destruct (bv_page v =? bv_page w); cbn [negb when].
  { erewrite st_bind_ok by reflexivity. by apply IH. }
  erewrite st_bind_ok by reflexivity. rewrite IH; [|done|by destruct isa].
  cbn [rev]. by rewrite pool_set, set_pool_twice, <-app_assoc.
Qed.

Lemma differing_app vs ws vs' ws' : length vs = length ws →
  differing (vs ++ vs') (ws ++ ws') = differing vs ws ++ differing vs' ws'.
Proof.
  revert ws. induction vs as [|v vs IH]; intros [|w ws] Hl; try discriminate Hl; [done|].
  injection Hl as Hl. cbn. rewrite IH by done. by destruct (_ =? _).
Qed.
Lemma differing_same vs : differing vs vs = [].
Proof. induction vs as [|v vs IH]; cbn; [done|]. by rewrite Z.eqb_refl. Qed.
Lemma differing_chosen q vs us tos : replaced q vs us tos → (∀ v, v ∈ vs → bv_page v ∉ us) →
  differing (chosen tos vs) vs = us.
Proof.
  induction 1 as [|v vs us tos Hv Hr IH|v vs p us tos Hv Hr IH]; intros Hd; cbn; [done|..].
  - rewrite Z.eqb_refl. apply IH. intros u Hu. apply Hd. by right.
  - destruct (Z.eqb_spec p (bv_page v)) as [->|_]; [exfalso; apply (Hd v); by left|].
    f_equal. apply IH. intros u Hu Hin. apply (Hd u); by right.
Qed.
(** Only the pages matter. *)
Lemma differing_pages vs vs' ws : bv_page <$> vs = bv_page <$> vs' → differing vs ws = differing vs' ws.
Proof.
  revert vs' ws. induction vs as [|v vs IH]; intros [|v' vs'] ws; cbn; try done.
  intros [= Ep Epp]. destruct ws as [|w ws]; [done|]. rewrite Ep, (IH vs' ws Epp). done.
Qed.

(** ** The properties *)

Definition in_reach (q : request_queue) (v : bio_vec) : Prop := bv_page v ≤ queue_bounce_pfn q.

(** Either the bio is in reach and stays as it is, or it is replaced. *)
Lemma blk_queue_bounce_cases max_pfn id q b s : let isa := tst (bounce_gfp (conf q)) GFP_DMA in
  bounce_ready q isa s b → bio_has_data b = true → (∀ v, v ∈ bi_io_vec b → bv_page v ≤ max_pfn) →
  (blk_queue_bounce max_pfn id q b s = Ok (b, s) ∧ Forall (in_reach q) (bio_segs b)) ∨
  ∃ us rest tos m', pool_of isa s = us ++ rest ∧ replaced q (bio_segs b) us tos ∧
    let b' := bounce_bio id b (take (Z.to_nat (bi_idx b)) (bi_io_vec b) ++ chosen tos (bio_segs b)) in
    let s' := set_originals (<[id := (b, isa)]> (originals s)) (set_pool isa rest (set_memory m' s)) in
    blk_queue_bounce max_pfn id q b s = Ok (b', s') ∧
    bio_segs b' = chosen tos (bio_segs b) ∧ Forall (in_reach q) (bio_segs b') ∧
    (∀ a, (∀ p, p ∈ us → ¬ in_page p a) → m' a = memory s a) ∧
    (bio_data_dir b = WRITE → data m' (chosen tos (bio_segs b)) = data (memory s) (bio_segs b)) ∧
    (bio_data_dir b ≠ WRITE → m' = memory s).
Proof.
  intros isa Hr Hd Hmax.
  destruct (queue_bounce_ok id q b isa s Hr) as (us & rest & tos & m' & Epl & Hrep & Hout & Hw & Hnw & E).
  pose proof (chosen_spec _ _ _ _ Hrep) as Hch.
  assert (Forall (in_reach q) (chosen tos (bio_segs b))) as Hreach.
  { eapply Forall2_Forall_r; [exact Hch|]. apply Forall_forall. intros v _ u [_ [[-> ?]|[Hu _]]]; [done|].
    pose proof (ready_reach _ _ _ _ Hr) as Hp. rewrite Epl in Hp. rewrite Forall_forall in Hp. apply Hp. set_solver. }
  assert (blk_queue_bounce max_pfn id q b s = __blk_queue_bounce id q b isa s ∨
    (blk_queue_bounce max_pfn id q b s = Ok (b, s) ∧ max_pfn ≤ queue_bounce_pfn q)) as [->|[-> Hp]].
  { unfold blk_queue_bounce. rewrite Hd. cbn [negb]. subst isa. destruct (tst _ _); cbn [negb].
    - left. destruct (ready_isa _ _ _ _ Hr) as [l El]. unfold gets. erewrite (st_bind_ok _ _ _ _ _ eq_refl).
      rewrite bool_decide_false by (by rewrite El). done.
    - destruct (Z.geb_spec (queue_bounce_pfn q) max_pfn); [right; by split|by left]. }
  2: { left. split; [done|]. apply Forall_forall. intros v Hv%segs_elem. pose proof (Hmax v Hv). unfold in_reach. lia. }
  rewrite E. destruct (decide (us = [])) as [->|Hne]; [left|right].
  - split; [done|]. eapply Forall2_Forall_l; [exact Hch|]. apply Forall_forall.
    intros u _ v [_ [[_ ?]|[Hu%elem_of_nil _]]]; done.
  - exists us, rest, tos, m'. split; [done|]. split; [done|]. cbn zeta. split; [done|].
    assert (bio_segs (bounce_bio id b (take (Z.to_nat (bi_idx b)) (bi_io_vec b) ++ chosen tos (bio_segs b)))
            = chosen tos (bio_segs b)) as ->.
    { unfold bio_segs at 1. cbn [bi_idx bi_io_vec bounce_bio]. rewrite drop_app_length'; [done|].
      rewrite length_take. destruct (decide (Z.to_nat (bi_idx b) ≤ length (bi_io_vec b))%nat); [lia|].
      exfalso. apply Hne. inversion Hrep as [|v vs us' tos' ? ? Hv|v vs p us' tos' ? ? Hv]; [done|..];
        apply (f_equal length) in Hv; unfold bio_segs in Hv; rewrite length_drop in Hv; cbn in Hv; lia. }
    split_and!; try done. auto.
Qed.

(** A device that is given the result of [blk_queue_bounce] for a write
    reaches every page of it and finds the bytes of the original bio there; memory
    outside the pages of the pool is not changed. *)
Theorem bounce_write_transparent max_pfn id q b s :
  bounce_ready q (tst (bounce_gfp (conf q)) GFP_DMA) s b → bio_has_data b = true →
  (∀ v, v ∈ bi_io_vec b → bv_page v ≤ max_pfn) → bio_data_dir b = WRITE →
  ∃ b' s', blk_queue_bounce max_pfn id q b s = Ok (b', s') ∧ Forall (in_reach q) (bio_segs b') ∧
    bi_sector b' = bi_sector b ∧ bi_size b' = bi_size b ∧ bi_rw b' = bi_rw b ∧
    data (memory s') (bio_segs b') = data (memory s) (bio_segs b) ∧
    (∀ a, (∀ p, p ∈ pool_of (tst (bounce_gfp (conf q)) GFP_DMA) s → ¬ in_page p a) →
          memory s' a = memory s a).
Proof.
  intros Hr Hd Hmax Hw. destruct (blk_queue_bounce_cases max_pfn id q b s Hr Hd Hmax)
    as [[E Hin]|(us & rest & tos & m' & Epl & _ & E & Hs & Hin & Hout & Hdat & _)].
  { exists b, s. by split_and!. }
  eexists _, _. split; [exact E|]. rewrite Hs. cbn [memory set_originals]. rewrite memory_set_pool.
  split_and!; try done; [by rewrite <-Hs|by apply Hdat|].
  intros a Ha. apply Hout. intros p Hp. apply Ha. rewrite Epl. set_solver.
Qed.

Lemma zip_source_pages vs us us' : bv_page <$> us = bv_page <$> us' →
  zip_with source vs us = zip_with source vs us'.
Proof.
  revert us us'. induction vs as [|v vs IH]; intros [|u us] [|u' us']; cbn; try done.
  intros [= Ep Epp]. f_equal; [|by apply IH]. unfold source. by rewrite Ep.
Qed.
Lemma zip_source_id vs us : Forall2 (λ v u, source v u = u) vs us → zip_with source vs us = us.
Proof. induction 1 as [|v u vs us E H IH]; cbn; [done|]. by rewrite E, IH. Qed.

(** The vectors of the bounced bio against those of the original. *)
Lemma bounced_vecs q b us tos n : replaced q (drop n (bi_io_vec b)) us tos →
  Forall2 (λ v u, source v u = u ∧ (bv_page v ≠ bv_page u → bv_page u ∈ us))
    (bi_io_vec b) (take n (bi_io_vec b) ++ chosen tos (drop n (bi_io_vec b))).
Proof.
  intros Hrep. rewrite <-(take_drop n (bi_io_vec b)) at 1. apply Forall2_app.
  - apply Forall_Forall2_diag, Forall_forall. intros v _. split; [by apply source_same|done].
  - eapply Forall2_impl; [apply (chosen_spec _ _ _ _ Hrep)|].
    intros v u [[El Eo] H]. split; [destruct u; unfold source; cbn in *; by subst|].
    destruct H as [[-> _]|[? _]]; done.
Qed.

(** The bio that is ended, with the flag taken over from the bounced one. *)
Definition ended_orig (b2 b : bio) : bio :=
  if test_bit BIO_EOPNOTSUPP (bi_flags b2)
  then set_bi_flags (Z.setbit (bi_flags b) BIO_EOPNOTSUPP) b else b.
Lemma ended_orig_same b2 b : bi_io_vec (ended_orig b2 b) = bi_io_vec b ∧ bi_id (ended_orig b2 b) = bi_id b.
Proof. unfold ended_orig. by destruct (test_bit BIO_EOPNOTSUPP (bi_flags b2)). Qed.

Lemma bounced_read_eval isa b s2 b2 err m' pl : originals s2 !! bi_id b2 = Some (b, isa) →
  bio_data_dir b = READ → test_bit BIO_UPTODATE (bi_flags b2) = true →
  copy_vecs (bi_io_vec b) (bi_io_vec b2) s2 = Ok (tt, set_memory m' s2) →
  free_vecs isa (bi_io_vec b2) (bi_io_vec b) (set_memory m' s2) = Ok (tt, set_pool isa pl (set_memory m' s2)) →
  ∃ s3, bounced_end_io b2 err s2 = Ok (tt, s3) ∧ memory s3 = m' ∧ pool_of isa s3 = pl ∧
    originals s3 = delete (bi_id b2) (originals s2) ∧ finished s3 = end_flags (ended_orig b2 b) err :: finished s2.
Proof.
  intros Horig Hdir Hup Ec Ef. eexists. split.
  - unfold bounced_end_io, __bounce_end_io_read, copy_to_high_bio_irq, bounce_end_io, gets.
    do 2 (erewrite st_bind_ok by (unfold lift; rewrite ?Horig; reflexivity)). cbn beta iota.
    rewrite Hdir. cbn [Z.eqb READ].
    do 2 (erewrite st_bind_ok by (unfold lift; rewrite ?Horig; reflexivity)). cbn beta iota.
    rewrite Hup. cbn [when]. st_step Ec.
    do 2 (erewrite st_bind_ok by (unfold lift; cbn; rewrite ?Horig; reflexivity)). cbn beta iota.
    fold (ended_orig b2 b). rewrite (proj1 (ended_orig_same b2 b)). st_step Ef. reflexivity.
  - by destruct isa.
Qed.

(** The end of a bounced read. *)
Lemma bounced_read_end id isa b s2 b2 err us rest q tos :
  let b' := bounce_bio id b (take (Z.to_nat (bi_idx b)) (bi_io_vec b) ++ chosen tos (bio_segs b)) in
  replaced q (bio_segs b) us tos → Forall bvec_ok (bi_io_vec b) → NoDup (concat (bv_bytes <$> bi_io_vec b)) →
  (∀ v, v ∈ bi_io_vec b → bv_page v ∉ us) → bio_data_dir b = READ → is_Some (isa_page_pool s2) →
  originals s2 !! id = Some (b, isa) → pool_of isa s2 = rest → bi_id b2 = id →
  bv_page <$> bi_io_vec b2 = bv_page <$> bi_io_vec b' → test_bit BIO_UPTODATE (bi_flags b2) = true →
  ∃ s3, bounced_end_io b2 err s2 = Ok (tt, s3) ∧
    data (memory s3) (bi_io_vec b) = data (memory s2) (bi_io_vec b') ∧
    (∀ a, a ∉ concat (bv_bytes <$> bi_io_vec b) → memory s3 a = memory s2 a) ∧
    pool_of isa s3 = rev us ++ rest ∧ originals s3 = delete id (originals s2) ∧
    ∃ b0, bi_id b0 = bi_id b ∧ finished s3 = end_flags b0 err :: finished s2.
Proof.
  intros b' Hrep Hok Hnd Hun Hdir Hisa Horig Hpool Hid Hpages Hup.
  pose proof (bounced_vecs q b us tos (Z.to_nat (bi_idx b)) Hrep) as Hv. fold (bio_segs b) in Hv.
  change (take _ _ ++ _) with (bi_io_vec b') in Hv.
  assert (length (bi_io_vec b) = length (bi_io_vec b2)) as Hlen.
  { rewrite (Forall2_length _ _ _ Hv). apply (f_equal length) in Hpages. by rewrite !length_fmap in Hpages. }
  destruct (copy_vecs_ok (bi_io_vec b) (bi_io_vec b2)) with (s := s2) as (m' & Ec & Hdat & Hout); try done.
  { intros i v u2 Hvi Hui Hne. destruct (Forall2_lookup_l _ _ _ _ _ Hv Hvi) as (u & Hu & _ & Hin).
    apply (f_equal (lookup i)) in Hpages. rewrite !list_lookup_fmap, Hui, Hu in Hpages. injection Hpages as Ep.
    rewrite Ep in *. intros [w [Ew Hw]]%list_elem_of_fmap. apply (Hun w Hw). rewrite <-Ew. by apply Hin. }
  rewrite (zip_source_pages _ _ _ Hpages), zip_source_id in Hdat
    by (eapply Forall2_impl; [exact Hv|]; by intros ?? []).
  pose proof (free_vecs_ok isa (bi_io_vec b2) (bi_io_vec b) (eq_sym Hlen) (set_memory m' s2) Hisa) as Ef.
  rewrite (differing_pages _ (bi_io_vec b') _ Hpages) in Ef.
  assert (differing (bi_io_vec b') (bi_io_vec b) = us) as Hdiff.
  { unfold b'. cbn [bi_io_vec bounce_bio]. rewrite <-(take_drop (Z.to_nat (bi_idx b)) (bi_io_vec b)) at 2.
    rewrite differing_app, differing_same by done. apply (differing_chosen q); [done|].
    intros v Hv'%segs_elem. by apply Hun. }
  rewrite Hdiff in Ef. rewrite <-Hid in Horig.
  destruct (bounced_read_eval isa b s2 b2 err _ _ Horig Hdir Hup Ec Ef) as (s3 & E & Em & Epl & Eo & Efin).
  exists s3. rewrite Em, Epl, Eo, Efin, Hid, <-Hpool. split_and!; try done.
  eexists. split; [|done]. apply ended_orig_same.
Qed.

(** C23: A read through bounce buffers is transparent: the device reaches all pages
    it is given, and when it has stored its data there, ending the bio puts the
    same bytes where the original bio wanted them, changes no other memory,
    returns all pages to the pool and ends the original once; also when the
    vectors of the bounced bio were advanced on the way. *)
Theorem bounce_read_roundtrip max_pfn id q b s :
  let isa := tst (bounce_gfp (conf q)) GFP_DMA in
  bounce_ready q isa s b → bio_has_data b = true → (∀ v, v ∈ bi_io_vec b → bv_page v ≤ max_pfn) →
  bio_data_dir b = READ → NoDup (concat (bv_bytes <$> bi_io_vec b)) → originals s !! id = None →
  ∃ b' s', blk_queue_bounce max_pfn id q b s = Ok (b', s') ∧ Forall (in_reach q) (bio_segs b') ∧
    memory s' = memory s ∧
    ((b' = b ∧ s' = s) ∨
     ∀ m2 b2 err, bi_id b2 = id → bv_page <$> bi_io_vec b2 = bv_page <$> bi_io_vec b' →
       test_bit BIO_UPTODATE (bi_flags b2) = true →
       ∃ s3, bounced_end_io b2 err (set_memory m2 s') = Ok (tt, s3) ∧
         data (memory s3) (bi_io_vec b) = data m2 (bi_io_vec b') ∧
         (∀ a, a ∉ concat (bv_bytes <$> bi_io_vec b) → memory s3 a = m2 a) ∧
         pool_of isa s3 ≡ₚ pool_of isa s ∧ originals s3 = originals s ∧
         ∃ b0, bi_id b0 = bi_id b ∧ finished s3 = end_flags b0 err :: finished s).
Proof.
  intros isa Hr Hd Hmax Hdir Hnd Hfresh. destruct (blk_queue_bounce_cases max_pfn id q b s Hr Hd Hmax)
    as [[E Hin]|(us & rest & tos & m' & Epl & Hrep & E & Hs & Hin & _ & _ & Hm)].
  { exists b, s. split_and!; try done. by left. }
  fold isa in E, Epl. rewrite Hm in E by (by rewrite Hdir). eexists _, _. split; [exact E|].
  split; [done|]. split; [by destruct isa|]. right. intros m2 b2 err Hid Hpages Hup.
  set (s' := set_originals _ _).
  destruct (bounced_read_end id isa b (set_memory m2 s') b2 err us rest q tos)
    as (s3 & E3 & Hdat & Hout & Hpool & Ho & b0 & Hb0 & Hf); try done.
  - apply (ready_vecs _ _ _ _ Hr).
  - intros v Hv Hu. apply (ready_unused _ _ _ _ Hr v Hv). fold isa. rewrite Epl. set_solver.
  - destruct (ready_isa _ _ _ _ Hr) as [l El]. unfold s'. by destruct isa; eexists.
  - unfold s'. cbn. apply lookup_insert_eq.
  - unfold s'. by destruct isa.
  - exists s3. split_and!; try done.
    + rewrite Hpool, Epl. by rewrite <-Permutation_rev.
    + rewrite Ho. unfold s'. cbn. by rewrite delete_insert_id.
    + exists b0. split; [done|]. rewrite Hf. unfold s'. by destruct isa.
Qed.

(** A transfer of eight bytes of which the first page is out of reach. *)
Definition bounce_queue : request_queue := limits_upd (set_bounce_pfn 10) sample_queue.
Definition high_bio (rw : Z) : bio :=
  {| bi_id := 1; bi_sector := 0; bi_disk := 1; bi_flags := 1; bi_rw := rw; bi_idx := 0;
     bi_phys_segments := 0; bi_size := 8; bi_seg_front_size := 0; bi_seg_back_size := 0;
     bi_has_vec := true; bi_io_vec := [BioVec 20 4 8; BioVec 5 4 0]; bi_comp_cpu := 0; bi_integrity := false |}.
Definition bounce_sample : bounce_state := BounceState (λ a, a mod 251) [1; 2] (Some []) ∅ [].

Lemma bounce_sample_ready rw : bounce_ready bounce_queue false bounce_sample (high_bio rw).
Proof.
  split; cbn.
  - apply Forall_cons. split; [|apply Forall_singleton]; unfold bvec_ok; cbn; change PAGE_CACHE_SIZE with 4096; lia.
  - by eexists.
  - apply (bool_decide_unpack _). vm_compute. exact I.
  - apply (bool_decide_unpack _). vm_compute. exact I.
  - intros v Hv. apply elem_of_cons in Hv as [->|Hv%list_elem_of_singleton]; [|subst v];
      apply (bool_decide_unpack _); vm_compute; exact I.
  - vm_compute. lia.
Qed.

Lemma high_bio_pages rw v : v ∈ bi_io_vec (high_bio rw) → bv_page v ≤ 100.
Proof. intros [->|Hv%list_elem_of_singleton]%elem_of_cons; [|subst v]; cbn; lia. Qed.

Lemma bounce_write_transparent_witness :
  ∃ b' s', blk_queue_bounce 100 2 bounce_queue (high_bio 1) bounce_sample = Ok (b', s') ∧
    Forall (in_reach bounce_queue) (bio_segs b') ∧
    data (memory s') (bio_segs b') = data (memory bounce_sample) (bio_segs (high_bio 1)).
Proof.
  destruct (bounce_write_transparent 100 2 bounce_queue (high_bio 1) bounce_sample)
    as (b' & s' & E & Hin & _ & _ & _ & Hd & _).
  - apply bounce_sample_ready.
  - reflexivity.
  - apply high_bio_pages.
  - reflexivity.
  - exists b', s'. split; [exact E|]. split; [exact Hin|exact Hd].
Defined.

Lemma bounce_read_roundtrip_witness :
  ∃ b' s', blk_queue_bounce 100 2 bounce_queue (high_bio 0) bounce_sample = Ok (b', s') ∧
    Forall (in_reach bounce_queue) (bio_segs b') ∧ memory s' = memory bounce_sample.
Proof.
  destruct (bounce_read_roundtrip 100 2 bounce_queue (high_bio 0) bounce_sample)
    as (b' & s' & E & Hin & Hm & _).
  - apply bounce_sample_ready.
  - reflexivity.
  - apply high_bio_pages.
  - reflexivity.
  - apply (bool_decide_unpack _). vm_compute. exact I.
  - reflexivity.
  - exists b', s'. split; [exact E|]. split; [exact Hin|exact Hm].
Defined.
