(* ===== verification/Barrier.v ===== *)
(** * Barriers and the driver's side of the queue ([block/blk-barrier.c],
    [block/blk-core.c], [block/blk.h])

    A barrier request is replaced by a sequence of up to three requests that
    the queue embeds: a cache flush, the write itself through a proxy request,
    and another flush.  This file has the functions that start such a sequence
    and gate the requests behind it, and those by which a driver takes requests
    from the queue.  The driver's functions that set up a flush and that prepare
    a request are parameters. *)

From S2P Require Import Prelude KList Request Samples Elevator Settings Segments ReqList Softirq.
From S2P Require Import Timeout Tags Complete.

Local Open Scope Z_scope.

(** How a queue orders the requests around a barrier. *)
Definition QUEUE_ORDERED_BY_DRAIN : Z := 0x01.
Definition QUEUE_ORDERED_BY_TAG : Z := 0x02.
Definition QUEUE_ORDERED_DO_PREFLUSH : Z := 0x10.
Definition QUEUE_ORDERED_DO_BAR : Z := 0x20.
Definition QUEUE_ORDERED_DO_POSTFLUSH : Z := 0x40.
Definition QUEUE_ORDERED_DO_FUA : Z := 0x80.
Definition QUEUE_ORDERED_NONE : Z := 0x00.
Definition QUEUE_ORDERED_DRAIN : Z := Z.lor QUEUE_ORDERED_BY_DRAIN QUEUE_ORDERED_DO_BAR.
Definition QUEUE_ORDERED_DRAIN_FLUSH : Z :=
  Z.lor (Z.lor QUEUE_ORDERED_DRAIN QUEUE_ORDERED_DO_PREFLUSH) QUEUE_ORDERED_DO_POSTFLUSH.
Definition QUEUE_ORDERED_DRAIN_FUA : Z :=
  Z.lor (Z.lor QUEUE_ORDERED_DRAIN QUEUE_ORDERED_DO_PREFLUSH) QUEUE_ORDERED_DO_FUA.
Definition QUEUE_ORDERED_TAG : Z := Z.lor QUEUE_ORDERED_BY_TAG QUEUE_ORDERED_DO_BAR.
Definition QUEUE_ORDERED_TAG_FLUSH : Z :=
  Z.lor (Z.lor QUEUE_ORDERED_TAG QUEUE_ORDERED_DO_PREFLUSH) QUEUE_ORDERED_DO_POSTFLUSH.
Definition QUEUE_ORDERED_TAG_FUA : Z :=
  Z.lor (Z.lor QUEUE_ORDERED_TAG QUEUE_ORDERED_DO_PREFLUSH) QUEUE_ORDERED_DO_FUA.

(** What [prep_rq_fn] may return. *)
Definition BLKPREP_OK : Z := 0.
Definition BLKPREP_KILL : Z := 1.
Definition BLKPREP_DEFER : Z := 2.

Section ordered.
Context {D : Type} (ops : elevator_ops D) (request_fn : ST (world D) unit).
Context (call_end_io : positive → rqid → Z → ST (world D) unit).
Context (call_prepare_flush : positive → rqid → ST (world D) unit).
Context (call_prep_rq : positive → rqid → ST (world D) Z).
Context (this_cpu : nat).

Definition blk_queue_ordered (ord : Z) (prepare : option positive) : ST (world D) Z :=
  if bool_decide (prepare = None) &&
     tst ord (Z.lor QUEUE_ORDERED_DO_PREFLUSH QUEUE_ORDERED_DO_POSTFLUSH)
  then mret (- EINVAL)
  else if negb (existsb (Z.eqb ord)
    [QUEUE_ORDERED_NONE; QUEUE_ORDERED_DRAIN; QUEUE_ORDERED_DRAIN_FLUSH; QUEUE_ORDERED_DRAIN_FUA;
     QUEUE_ORDERED_TAG; QUEUE_ORDERED_TAG_FLUSH; QUEUE_ORDERED_TAG_FUA])
  then mret (- EINVAL)
  else
    q_upd (set_ordered ord);;
    q_upd (set_next_ordered ord);;
    q_upd (λ q, set_conf (set_prepare_flush_fn prepare (conf q)) q);;
    mret 0.

(** ** A request for a bio ([block/blk-core.c]) *)

(** [nxt] is the chain behind [b].  [b] is written when its segments are counted. *)
Definition blk_rq_bio_prep (r : rqid) (b : bio) (nxt : list bio) : ST (world D) unit :=
  rq_upd r (λ rq, set_cmd_flags (Z.lor (cmd_flags rq) (Z.land (bi_rw b) REQ_RW)) rq);;
  q ← q_get;
  b ← (if bio_has_data b then
         let '(n, b) := bio_phys_segments q b in
         rq_upd r (set_nr_phys_segments (u16 n));;
         bio_write b;;
         mret b
       else mret b);
  rq_upd r (set___data_len (bi_size b));;
  rq_upd r (set_bios (b :: nxt));;
  rq_upd r (set_rq_disk (Some (bi_disk b))).

(** The flags a request inherits from its bio. *)
Definition flags_from_bio (b : bio) : Z :=
  let f := if bio_rw_flagged b BIO_RW_AHEAD then REQ_FAILFAST_MASK
           else Z.land (bi_rw b) REQ_FAILFAST_MASK in
  let f := if bio_rw_flagged b BIO_RW_DISCARD then
             let f := Z.lor f REQ_DISCARD in
             if bio_rw_flagged b BIO_RW_BARRIER then Z.lor f REQ_SOFTBARRIER else f
           else if bio_rw_flagged b BIO_RW_BARRIER then Z.lor f REQ_HARDBARRIER else f in
  let f := if bio_rw_flagged b BIO_RW_SYNCIO then Z.lor f REQ_RW_SYNC else f in
  let f := if bio_rw_flagged b BIO_RW_META then Z.lor f REQ_RW_META else f in
  if bio_rw_flagged b BIO_RW_NOIDLE then Z.lor f REQ_NOIDLE else f.

Definition init_request_from_bio (r : rqid) (b : bio) (nxt : list bio) : ST (world D) unit :=
  rq_upd r (set_cpu (bi_comp_cpu b));;
  rq_upd r (set_cmd_type REQ_TYPE_FS);;
  rq_upd r (λ rq, set_cmd_flags (Z.lor (cmd_flags rq) (flags_from_bio b)) rq);;
  rq_upd r (set_errors 0);;
  rq_upd r (set___sector (bi_sector b));;
  rq_upd r (set_ioprio (u16 (bio_prio b)));;
  blk_rq_bio_prep r b nxt.

(** ** Starting an ordered sequence *)
Definition queue_flush (which : Z) : ST (world D) unit :=
  let '(r, fn) := if which =? QUEUE_ORDERED_DO_PREFLUSH
                  then (pre_flush_rq, pre_flush_end_io) else (post_flush_rq, post_flush_end_io) in
  blk_rq_init r;;
  rq_upd r (set_cmd_flags REQ_HARDBARRIER);;
  bar ← rq_get bar_rq;
  rq_upd r (set_rq_disk (rq_disk bar));;
  rq_upd r (set_end_io (Some fn));;
  q ← q_get;
  prepare ← lift (deref (prepare_flush_fn (conf q)));
  call_prepare_flush prepare r;;
  elv_insert ops request_fn r ELEVATOR_INSERT_FRONT.

(** Queue the proxy of the barrier request [orig]. *)
Definition queue_bar (orig : rqid) : ST (world D) unit :=
  blk_rq_init bar_rq;;
  o ← rq_get orig;
  b ← lift (deref (head (bios o)));
  when (bio_data_dir b =? 1)
    (rq_upd bar_rq (λ rq, set_cmd_flags (Z.lor (cmd_flags rq) REQ_RW) rq));;
  q ← q_get;
  when (tst (ordered q) QUEUE_ORDERED_DO_FUA)
    (rq_upd bar_rq (λ rq, set_cmd_flags (Z.lor (cmd_flags rq) REQ_FUA) rq));;
  init_request_from_bio bar_rq b (tail (bios o));;
  rq_upd bar_rq (set_end_io (Some bar_end_io));;
  elv_insert ops request_fn bar_rq ELEVATOR_INSERT_FRONT.

(** [q->ordered] for the barrier: an empty one has no request of its own and
    needs no second flush, and nothing to order by tag without a first one. *)
Definition ordered_for (empty : bool) (ord : Z) : Z :=
  if empty then
    let ord := Z.ldiff ord (Z.lor QUEUE_ORDERED_DO_BAR QUEUE_ORDERED_DO_POSTFLUSH) in
    if tst ord QUEUE_ORDERED_BY_TAG && negb (tst ord QUEUE_ORDERED_DO_PREFLUSH)
    then Z.lor (Z.ldiff ord QUEUE_ORDERED_BY_TAG) QUEUE_ORDERED_BY_DRAIN
    else ord
  else ord.

(** Queue the steps [ord] asks for, the last one first; the first of them and the
    steps that are skipped. *)
Definition queue_steps (r : rqid) (ord : Z) : ST (world D) (option rqid * Z) :=
  '(rq, skip) ← (if tst ord QUEUE_ORDERED_DO_POSTFLUSH
                 then queue_flush QUEUE_ORDERED_DO_POSTFLUSH;; mret (Some post_flush_rq, 0)
                 else mret (None, QUEUE_ORDSEQ_POSTFLUSH));
  '(rq, skip) ← (if tst ord QUEUE_ORDERED_DO_BAR
                 then queue_bar r;; mret (Some bar_rq, skip)
                 else mret (rq, Z.lor skip QUEUE_ORDSEQ_BAR));
  (if tst ord QUEUE_ORDERED_DO_PREFLUSH
   then queue_flush QUEUE_ORDERED_DO_PREFLUSH;; mret (Some pre_flush_rq, skip)
   else mret (rq, Z.lor skip QUEUE_ORDSEQ_PREFLUSH)).

(** The request the elevator may hand out now, and whether the one it asked about
    is still there. *)
Definition start_ordered (r : rqid) : ST (world D) (option rqid * bool) :=
  q_upd (set_orderr 0);;
  q_upd (λ q, set_ordered (next_ordered q) q);;
  q_upd (λ q, set_ordseq (Z.lor (ordseq q) QUEUE_ORDSEQ_STARTED) q);;
  rq ← rq_get r;
  q_upd (λ q, set_ordered (ordered_for (blk_rq_sectors rq =? 0) (ordered q)) q);;
  blk_dequeue_request r;;
  q_upd (set_orig_bar_rq (Some r));;
  q ← q_get;
  let ord := ordered q in
  '(rq, skip) ← queue_steps r ord;
  q ← q_get;
  let '(rq, skip) := if tst ord QUEUE_ORDERED_BY_DRAIN && negb (queue_in_flight q =? 0)
                     then (None, skip) else (rq, Z.lor skip QUEUE_ORDSEQ_DRAIN) in
  complete ← blk_ordered_complete_seq (__blk_end_request_all ops request_fn call_end_io) skip 0;
  mret (rq, negb complete).

Definition blk_do_ordered (r : rqid) : ST (world D) (option rqid * bool) :=
  rq ← rq_get r;
  let is_barrier := blk_fs_request rq && blk_barrier_rq rq in
  q ← q_get;
  if ordseq q =? 0 then
    if negb is_barrier then mret (Some r, true)
    else if negb (next_ordered q =? QUEUE_ORDERED_NONE) then start_ordered r
    else
      blk_dequeue_request r;;
      __blk_end_request_all ops request_fn call_end_io r (- EOPNOTSUPP);;
      mret (None, false)
  else if negb (blk_fs_request rq) && negb (bool_decide (r = pre_flush_rq)) &&
          negb (bool_decide (r = post_flush_rq)) then mret (Some r, true)
  else if tst (ordered q) QUEUE_ORDERED_BY_TAG then
    if is_barrier && negb (bool_decide (r = bar_rq)) then mret (None, true) else mret (Some r, true)
  else
    tbl ← gets rqs;
    seq ← lift (blk_ordered_req_seq r rq q tbl);
    if seq >? blk_ordered_cur_seq q then mret (None, true) else mret (Some r, true).

(** ** Handing requests to the driver *)
Fixpoint next_loop (fuel : nat) : ST (world D) (option rqid) :=
  match fuel with
  | O => raise HANG
  | S fuel =>
    e ← on_links (list_empty (Ptr queue_head));
    if negb e then
      n ← on_links (get_next (Ptr queue_head));
      r ← lift (list_entry_rq n);
      '(rq, here) ← blk_do_ordered r;
      if (here : bool) then mret rq else next_loop fuel
    else
      dispatch ← lift (deref (elevator_dispatch_fn ops));
      n ← dispatch 0;
      if n =? 0 then mret None else next_loop fuel
  end.
Definition __elv_next_request : ST (world D) (option rqid) :=
  w ← get; next_loop (S (2 * size (rqs w))).

(** Asking [prep_rq_fn], if there is one; [None] goes on with the next request. *)
Definition peek_prep (r : rqid) : ST (world D) (option (option rqid)) :=
  rq ← rq_get r;
  if tst (cmd_flags rq) REQ_DONTPREP then mret (Some (Some r)) else
  q ← q_get;
  let drain (rq : request) := negb (dma_drain_size (conf q) =? 0) && negb (blk_rq_bytes rq =? 0) in
  when (drain rq) (rq_upd r (λ rq, set_nr_phys_segments (u16 (nr_phys_segments rq + 1)) rq));;
  match prep_rq_fn (conf q) with
  | None => mret (Some (Some r))
  | Some f =>
    ret ← call_prep_rq f r;
    if ret =? BLKPREP_OK then mret (Some (Some r))
    else if ret =? BLKPREP_DEFER then
      rq ← rq_get r;
      when (drain rq && negb (tst (cmd_flags rq) REQ_DONTPREP))
        (rq_upd r (λ rq, set_nr_phys_segments (u16 (nr_phys_segments rq - 1)) rq));;
      mret (Some None)
    else if ret =? BLKPREP_KILL then
      rq_upd r (λ rq, set_cmd_flags (Z.lor (cmd_flags rq) REQ_QUIET) rq);;
      blk_start_request this_cpu r;;
      __blk_end_request_all ops request_fn call_end_io r (- EIO);;
      mret None
    else mret (Some (Some r))
  end.

Fixpoint peek_loop (fuel : nat) : ST (world D) (option rqid) :=
  match fuel with
  | O => raise HANG
  | S fuel =>
    next ← __elv_next_request;
    match next with
    | None => mret None
    | Some r =>
      rq ← rq_get r;
      when (negb (tst (cmd_flags rq) REQ_STARTED))
        (when (blk_sorted_rq rq) (elv_activate_rq ops r);;
         rq_upd r (λ rq, set_cmd_flags (Z.lor (cmd_flags rq) REQ_STARTED) rq));;
      q ← q_get;
      when (bool_decide (boundary_rq q = None) || bool_decide (boundary_rq q = Some r))
        (rq ← rq_get r;
         q_upd (set_end_sector (rq_end_sector rq));;
         q_upd (set_boundary_rq None));;
      ret ← peek_prep r;
      match ret with
      | Some rq => mret rq
      | None => peek_loop fuel
      end
    end
  end.
Definition blk_peek_request : ST (world D) (option rqid) :=
  w ← get; peek_loop (S (size (rqs w))).

Definition blk_fetch_request : ST (world D) (option rqid) :=
  r ← blk_peek_request;
  match r with
  | Some r => blk_start_request this_cpu r;; mret (Some r)
  | None => mret None
  end.

(** ** Aborting a queue ([block/elevator.c]) *)
Fixpoint abort_loop (fuel : nat) : ST (world D) unit :=
  match fuel with
  | O => raise HANG
  | S fuel =>
    e ← on_links (list_empty (Ptr queue_head));
    if (e : bool) then mret tt else
    n ← on_links (get_next (Ptr queue_head));
    r ← lift (list_entry_rq n);
    rq_upd r (λ rq, set_cmd_flags (Z.lor (cmd_flags rq) REQ_QUIET) rq);;
    blk_start_request this_cpu r;;
    __blk_end_request_all ops request_fn call_end_io r (- EIO);;
    abort_loop fuel
  end.
Definition elv_abort_queue : ST (world D) unit :=
  w ← get; abort_loop (S (size (rqs w))).
End ordered.

(** ** The steps of a sequence *)
Definition step_seq (r : rqid) : Z :=
  match r with
  | pre_flush_rq => QUEUE_ORDSEQ_PREFLUSH
  | bar_rq => QUEUE_ORDSEQ_BAR
  | post_flush_rq => QUEUE_ORDSEQ_POSTFLUSH
  | Rq _ => 0
  end.
Definition step_fn (r : rqid) : end_io_fn :=
  match r with
  | pre_flush_rq => pre_flush_end_io
  | post_flush_rq => post_flush_end_io
  | _ => bar_end_io
  end.
(** The steps a mode asks for, in their order. *)
Definition steps_of (ord : Z) : list rqid :=
  (if tst ord QUEUE_ORDERED_DO_PREFLUSH then [pre_flush_rq] else []) ++
  (if tst ord QUEUE_ORDERED_DO_BAR then [bar_rq] else []) ++
  (if tst ord QUEUE_ORDERED_DO_POSTFLUSH then [post_flush_rq] else []).
Definition step_lists : list (list rqid) :=
  [[]; [post_flush_rq]; [bar_rq]; [bar_rq; post_flush_rq]; [pre_flush_rq];
   [pre_flush_rq; post_flush_rq]; [pre_flush_rq; bar_rq]; [pre_flush_rq; bar_rq; post_flush_rq]].
(** [q->ordseq] while the steps [todo] are left. *)
Definition seq_left (todo : list rqid) : Z :=
  0x1f - foldr (λ r n, step_seq r + n) 0 todo.
Definition cur_of (seq : Z) : Z := Z.shiftl 1 (ffz 64 seq).
(** The error a sequence ends with: the first one that a step met. *)
Definition first_err (err e : Z) : Z := if err =? 0 then e else err.

Lemma first_err_twice a e : first_err (first_err a e) e = first_err a e.
Proof. unfold first_err. destruct (a =? 0) eqn:E; [by destruct (e =? 0)|by rewrite E]. Qed.
Lemma steps_of_lists ord : steps_of ord ∈ step_lists.
Proof.
  unfold steps_of. destruct (tst ord QUEUE_ORDERED_DO_PREFLUSH), (tst ord QUEUE_ORDERED_DO_BAR),
    (tst ord QUEUE_ORDERED_DO_POSTFLUSH); cbn; unfold step_lists; set_solver.
Qed.

Lemma seq_step h t : h :: t ∈ step_lists →
  let s := seq_left (h :: t) in
  s ≠ 0 ∧ cur_of s = step_seq h ∧ step_seq h ≠ QUEUE_ORDSEQ_DRAIN ∧ tst s (step_seq h) = false ∧
  Z.lor s (step_seq h) = seq_left t ∧ seq_left t ≠ 0 ∧ t ∈ step_lists ∧
  ((cur_of (seq_left t) =? QUEUE_ORDSEQ_DONE) = bool_decide (t = [])) ∧
  (h = pre_flush_rq ∨ h = bar_rq ∨ h = post_flush_rq) ∧ h ∉ t.
Proof.
  unfold step_lists. intros Hin.
  repeat (apply elem_of_cons in Hin as [Hin|Hin]; [simplify_eq;
    (split_and!; [vm_compute; congruence..|set_solver|vm_compute; congruence|tauto|set_solver])|]).
  by apply not_elem_of_nil in Hin.
Qed.

(** Flags the requests of a sequence do not have. *)
Definition step_mask : Z :=
  Z.lor (Z.lor (Z.lor REQ_QUEUED REQ_DONTPREP) REQ_SORTED) REQ_DISCARD.

Lemma step_mask_off f : tst f step_mask = false →
  tst f REQ_QUEUED = false ∧ tst f REQ_DONTPREP = false ∧ tst f REQ_SORTED = false ∧
  tst f REQ_DISCARD = false.
Proof. unfold step_mask. rewrite !tst_mask_lor, !orb_false_iff. tauto. Qed.

(** A request that stands for a step: a flush without data, or the proxy of the
    barrier with its one bio. *)
Record step_rq (r : rqid) (rq : request) : Prop := {
  sq_end : end_io rq = Some (step_fn r);
  sq_next : next_rq rq = None;
  sq_flags : tst (cmd_flags rq) step_mask = false;
  sq_kind : if bool_decide (r = bar_rq)
            then blk_fs_request rq = true ∧
                 ∃ b, bios rq = [b] ∧ bi_size b = blk_rq_bytes rq ∧ 0 ≤ bi_size b < 2 ^ 31
            else blk_fs_request rq = false ∧ bios rq = []
}.

Definition seq_now (todo : list rqid) : Z := if bool_decide (todo = []) then 0 else seq_left todo.

(** The sequence for the barrier [orig] has the steps [todo] left and has met the
    error [err]; the requests [rest] wait behind it. *)
Record ord_state {D} (w : world D) (todo rest : list rqid) (orig : rqid) (err : Z) : Prop := {
  os_list : is_list (links w) queue_head (queuelist <$> todo ++ rest);
  os_seq : ordseq (queue w) = seq_now todo;
  os_err : orderr (queue w) = err;
  os_orig : orig_bar_rq (queue w) = Some orig;
  os_steps : todo ∈ step_lists;
  os_ready : ∀ r, r ∈ todo → ∃ rq, rqs w !! r = Some rq ∧ step_rq r rq ∧
    is_list (links w) (timeout_list r) [] ∧ ELV_ON_HASH r (hash w) = false;
  os_conf : prep_rq_fn (conf (queue w)) = None ∧ dma_drain_size (conf (queue w)) = 0 ∧
    rq_timed_out_fn (conf (queue w)) = None
}.

Section sequence.
Context {D : Type} (ops : elevator_ops D) (request_fn : ST (world D) unit).
Context (call_end_io : positive → rqid → Z → ST (world D) unit).
Context (call_prepare_flush : positive → rqid → ST (world D) unit).
Context (call_prep_rq : positive → rqid → ST (world D) Z).
Context (this_cpu : nat).
Implicit Types (w : world D).

(** *** Completing a step *)
Section completing.
Context (end_all : rqid → Z → ST (world D) unit).

Definition note_err (e : Z) (q : request_queue) : request_queue :=
  if negb (e =? 0) && (orderr q =? 0) then set_orderr e q else q.
Definition finished (rq : request) (q : request_queue) : request_queue :=
  if blk_account_rq rq
  then set_in_flight (upd_sync (λ n, u32 (n - 1)) (rq_is_sync rq) (in_flight q)) q else q.

Lemma note_err_when e w q : queue w = q →
  when (negb (e =? 0) && (orderr q =? 0)) (q_upd (set_orderr e)) w
  = Ok (tt, set_queue (note_err e q) w).
Proof. intros <-. unfold when, note_err. destruct (negb _ && _); by destruct w. Qed.
Lemma note_err_orderr e q : orderr (note_err e q) = first_err (orderr q) e.
Proof.
  unfold note_err, first_err. destruct (Z.eqb_spec e 0), (Z.eqb_spec (orderr q) 0); cbn; congruence.
Qed.

(** The proxy ends at once and its bio stays with the barrier request. *)
Lemma update_bar_ok w rq e :
  rqs w !! bar_rq = Some rq → step_rq bar_rq rq →
  ∃ rq', blk_update_request bar_rq e (blk_rq_bytes rq) w
    = Ok (false, set_queue (note_err e (queue w)) (set_rqs (<[bar_rq := rq']> (rqs w)) w)) ∧
    end_io rq' = end_io rq ∧ next_rq rq' = next_rq rq ∧ cmd_flags rq' = cmd_flags rq ∧
    bios rq' = [].
Proof.
  intros Hr [_ _ _ Hk]. rewrite bool_decide_true in Hk by done. destruct Hk as (Hfs & b & Hb & Es & Hsz).
  exists (set___data_len 0 (set_bios [] (set_errors 0 rq))). split; [|done].
  unfold blk_update_request. erewrite st_bind_ok by (apply rq_get_ok; exact Hr). rewrite Hb.
  cbn [bool_decide]. rewrite bool_decide_false by done. rewrite Hfs. cbn [when].
  erewrite st_bind_ok by (apply rq_upd_ok; exact Hr). unfold loop_fuel. cbn [sum_list_with].
  rewrite Nat.add_0_r. cbn [update_loop].
  erewrite st_bind_ok. 2: {
    erewrite st_bind_ok by (apply rq_get_ok; wcbn; apply lookup_insert_eq). cbn [bios set_errors]. rewrite Hb.
    cbn [nr_bytes total_bytes]. rewrite <-Es. destruct (Z.geb_spec (bi_size b) (bi_size b)); [|lia].
    erewrite st_bind_ok by (apply rq_upd_ok; wcbn; apply lookup_insert_eq). wcbn. rewrite insert_insert_eq.
    unfold req_bio_endio. rewrite bool_decide_false by (intros Hne; by apply Hne).
    rewrite <-st_bind_assoc. erewrite (st_bind_ok q_get) by reflexivity. wcbn.
    erewrite st_bind_ok by (apply note_err_when; reflexivity). wcbn.
    erewrite st_bind_ok by (apply rq_get_ok; wcbn; apply lookup_insert_eq). cbn [bios set_bios].
    rewrite bool_decide_true by done. cbn [negb andb].
    erewrite st_bind_ok by (apply rq_get_ok; wcbn; apply lookup_insert_eq). cbn [bios set_bios]. reflexivity. }
  unfold update_rest. erewrite st_bind_ok by (apply rq_get_ok; wcbn; apply lookup_insert_eq). cbn [bios set_bios].
  erewrite st_bind_ok by (apply rq_upd_ok; wcbn; apply lookup_insert_eq). wcbn. by rewrite insert_insert_eq.
Qed.

Lemma queue_next_ok w l :
  is_list (links w) queue_head (queuelist <$> l) →
  (e ← on_links (list_empty (Ptr queue_head));
   (if (e : bool) then mret None
    else n ← on_links (get_next (Ptr queue_head)); n ← lift (list_entry_rq n); mret (Some n))) w
  = Ok (head l, w).
Proof.
  intros Hl. erewrite st_bind_ok by (apply on_links_read; apply (list_empty_spec _ _ _ Hl)).
  destruct l as [|r l]; [by rewrite bool_decide_true by done|]. rewrite bool_decide_false by done.
  destruct Hl as [_ Hs%seg_head].
  erewrite st_bind_ok by (apply on_links_read; apply get_next_ok; exact Hs). done.
Qed.

Lemma completed_step w r rq l :
  is_list (links w) queue_head (queuelist <$> l) → rqs w !! r = Some rq →
  blk_sorted_rq rq = false → ordseq (queue w) ≠ 0 →
  blk_ordered_cur_seq (queue w) ≠ QUEUE_ORDSEQ_DRAIN →
  elv_completed_request ops request_fn end_all r w = Ok (tt, set_queue (finished rq (queue w)) w).
Proof.
  intros Hl Hr Hs Hz Hc. unfold elv_completed_request.
  erewrite st_bind_ok by (apply rq_get_ok; exact Hr).
  erewrite (st_bind_ok (when _ _)). 2: {
    instantiate (1 := set_queue (finished rq (queue w)) w). instantiate (1 := tt).
    unfold finished, when. rewrite Hs. destruct (blk_account_rq rq); [|by destruct w].
    erewrite st_bind_ok by reflexivity. by destruct (elevator_completed_req_fn ops). }
  assert (ordseq (finished rq (queue w)) = ordseq (queue w)) as E by (unfold finished; by destruct (blk_account_rq rq)).
  erewrite (st_bind_ok q_get) by reflexivity. wcbn. rewrite E. destruct (Z.eqb_spec (ordseq (queue w)) 0); [done|].
  rewrite st_bind_assoc. erewrite st_bind_ok by (apply queue_next_ok; exact Hl).
  destruct (negb (queue_in_flight _ =? 0)); [done|].
  unfold blk_ordered_cur_seq in *. rewrite E. destruct (Z.eqb_spec (ordseq (queue w)) 0); [done|].
  by destruct (Z.eqb_spec (Z.shiftl 1 (ffz 64 (ordseq (queue w)))) QUEUE_ORDSEQ_DRAIN).
Qed.

(** The queue after the step [h] was done, with [t] still to do. *)
Definition step_queue (h : rqid) (t : list rqid) (e : Z) (q : request_queue) : request_queue :=
  set_ordseq (seq_now t) (note_err e q).

Lemma complete_seq_step w h t orig e :
  h :: t ∈ step_lists → ordseq (queue w) = seq_left (h :: t) → orig_bar_rq (queue w) = Some orig →
  (_ ← blk_ordered_complete_seq end_all (step_seq h) e; mret tt) w
  = when (bool_decide (t = [])) (end_all orig (first_err (orderr (queue w)) e))
      (set_queue (step_queue h t e (queue w)) w).
Proof.
  intros Hin Hs Ho. destruct (seq_step h t Hin) as (_ & _ & _ & Ht & El & Hz & _ & Ed & _ & _).
  unfold blk_ordered_complete_seq, step_queue, seq_now. rewrite <-!st_bind_assoc.
  erewrite (st_bind_ok q_get) by reflexivity. rewrite <-!st_bind_assoc.
  erewrite st_bind_ok by (apply note_err_when; reflexivity).
  assert (ordseq (note_err e (queue w)) = seq_left (h :: t) ∧ orig_bar_rq (note_err e (queue w)) = Some orig)
    as [E1 E2] by (unfold note_err; by destruct (negb _ && _)).
  pose proof (note_err_orderr e (queue w)) as E3.
  set (q1 := note_err e (queue w)) in *. rewrite <-!st_bind_assoc.
  erewrite (st_bind_ok q_get) by reflexivity. wcbn. rewrite E1, Ht. rewrite <-!st_bind_assoc.
  erewrite (st_bind_ok (bug_on _)) by reflexivity. rewrite <-!st_bind_assoc.
  erewrite (st_bind_ok (q_upd _)) by reflexivity. rewrite <-!st_bind_assoc.
  erewrite (st_bind_ok q_get) by reflexivity. wcbn. rewrite E1, El.
  unfold blk_ordered_cur_seq. cbn [ordseq set_ordseq]. destruct (Z.eqb_spec (seq_left t) 0); [done|].
  fold (cur_of (seq_left t)). rewrite Ed. destruct (bool_decide (t = [])); cbn [negb when]; [|done].
  rewrite <-!st_bind_assoc. erewrite (st_bind_ok (q_upd _)) by reflexivity. rewrite <-!st_bind_assoc.
  erewrite (st_bind_ok q_get) by reflexivity. wcbn. cbn [orig_bar_rq set_ordseq orderr]. rewrite E2, E3.
  rewrite <-!st_bind_assoc. erewrite (st_bind_ok (lift _)) by reflexivity. rewrite <-!st_bind_assoc.
  unfold mbind, st_bind. by destruct (end_all _ _ _) as [[[] ?]|].
Qed.

(** What completions do not change in a request, and in the queue. *)
Definition same_step (rq rq' : request) : Prop :=
  end_io rq' = end_io rq ∧ next_rq rq' = next_rq rq ∧ cmd_flags rq' = cmd_flags rq ∧
  bios rq' = [].
Definition same_queue (q q' : request_queue) : Prop :=
  ordseq q' = ordseq q ∧ orig_bar_rq q' = orig_bar_rq q ∧ conf q' = conf q.

Lemma update_step w h rq e :
  h = pre_flush_rq ∨ h = bar_rq ∨ h = post_flush_rq →
  rqs w !! h = Some rq → step_rq h rq →
  ∃ rq' q', blk_update_request h e (blk_rq_bytes rq) w
      = Ok (false, set_queue q' (set_rqs (<[h := rq']> (rqs w)) w)) ∧
    same_step rq rq' ∧ same_queue (queue w) q' ∧ (q' = queue w ∨ q' = note_err e (queue w)).
Proof.
  intros Hh Hr Hs. destruct (decide (h = bar_rq)) as [->|Hne].
  - destruct (update_bar_ok w rq e Hr Hs) as (rq' & E & H). exists rq', (note_err e (queue w)).
    split_and!; try done; try apply H; unfold note_err; try (by destruct (negb _ && _)). by right.
  - pose proof (sq_kind _ _ Hs) as Hk. rewrite bool_decide_false in Hk by done. destruct Hk as [_ Hb].
    exists rq, (queue w). split_and!; try done; [|by left].
    unfold blk_update_request. erewrite st_bind_ok by (apply rq_get_ok; exact Hr).
    rewrite bool_decide_true, insert_id by done. by destruct w.
Qed.

Lemma run_step_fn h e :
  h = pre_flush_rq ∨ h = bar_rq ∨ h = post_flush_rq →
  run_end_io ops request_fn call_end_io end_all (step_fn h) h e
  = (elv_completed_request ops request_fn end_all h;;
     _ ← blk_ordered_complete_seq end_all (step_seq h) e; mret tt).
Proof. by intros [->|[->| ->]]. Qed.

Lemma finish_step w h t l orig e rq :
  h :: t ∈ step_lists → is_list (links w) queue_head (queuelist <$> l) →
  is_list (links w) (queuelist h) [] → is_list (links w) (timeout_list h) [] →
  rqs w !! h = Some rq → end_io rq = Some (step_fn h) → tst (cmd_flags rq) step_mask = false →
  ordseq (queue w) = seq_left (h :: t) → orig_bar_rq (queue w) = Some orig →
  ∃ h', frame (links w) h' [timeout_list h] ∧
    blk_finish_request ops request_fn call_end_io end_all h e w
    = when (bool_decide (t = [])) (end_all orig (first_err (orderr (queue w)) e))
        (set_queue (step_queue h t e (finished rq (queue w))) (set_links h' w)).
Proof.
  intros Hin Hl Hself Hto Hr He Hf Hs Ho. destruct (step_mask_off _ Hf) as (Fq & _ & Fs & _).
  destruct (seq_step h t Hin) as (Hz & Hc & Hd & _ & _ & _ & _ & _ & Hh & _).
  destruct (list_del_init_self _ _ Hto) as (h' & E & _ & F). exists h'. split; [done|].
  unfold blk_finish_request. erewrite st_bind_ok by (apply rq_get_ok; exact Hr). rewrite Fq.
  erewrite (st_bind_ok (when _ _)) by reflexivity.
  erewrite st_bind_ok by (apply on_links_read; apply (list_empty_spec _ _ _ Hself)).
  rewrite bool_decide_true by done. erewrite (st_bind_ok (bug_on _)) by reflexivity.
  erewrite st_bind_ok by (apply on_links_ok; exact E).
  erewrite st_bind_ok by (apply rq_get_ok; exact Hr). rewrite He, run_step_fn by done.
  assert (ordseq (finished rq (queue w)) = seq_left (h :: t) ∧ orderr (finished rq (queue w)) = orderr (queue w) ∧
    orig_bar_rq (finished rq (queue w)) = Some orig) as (E1 & E2 & E3) by (unfold finished; by destruct (blk_account_rq rq)).
  erewrite st_bind_ok.
  2: { apply (completed_step _ _ rq l); wcbn; [|done|done|by rewrite Hs|].
       - eapply frame_is_list; [done..|]. intros y Hy. apply elem_of_cons in Hy as [->|Hy]; [lelem|].
         apply list_elem_of_fmap in Hy as (? & -> & _). lelem.
       - unfold blk_ordered_cur_seq. rewrite Hs. destruct (Z.eqb_spec (seq_left (h :: t)) 0); [done|].
         by rewrite <-Hc in Hd. }
  rewrite (complete_seq_step _ h t orig e Hin); wcbn; [|done..]. by rewrite E2.
Qed.

Lemma end_step w h t l orig e rq :
  h :: t ∈ step_lists → is_list (links w) queue_head (queuelist <$> l) →
  is_list (links w) (queuelist h) [] → is_list (links w) (timeout_list h) [] →
  rqs w !! h = Some rq → step_rq h rq →
  ordseq (queue w) = seq_left (h :: t) → orig_bar_rq (queue w) = Some orig →
  let err := first_err (orderr (queue w)) e in
  ∃ h' rq' q', frame (links w) h' [timeout_list h] ∧ bios rq' = [] ∧
    ordseq q' = seq_now t ∧ orderr q' = err ∧ orig_bar_rq q' = Some orig ∧ conf q' = conf (queue w) ∧
    end_request_all ops request_fn call_end_io end_all h e w
    = when (bool_decide (t = [])) (end_all orig err)
        (set_queue q' (set_rqs (<[h := rq']> (rqs w)) (set_links h' w))).
Proof.
  intros Hin Hl Hself Hto Hr Hsr Hs Ho err.
  destruct (seq_step h t Hin) as (_ & _ & _ & _ & _ & _ & _ & _ & Hh & _).
  destruct (update_step w h rq e Hh Hr Hsr) as (rq' & q1 & E1 & (R1 & R2 & R3 & R4) & (Q1 & Q2 & Q3) & Hq1).
  set (w1 := set_queue q1 (set_rqs (<[h := rq']> (rqs w)) w)) in *.
  destruct (finish_step w1 h t l orig e rq') as (h' & F & E2); unfold w1; wcbn; try done.
  { apply lookup_insert_eq. } { by rewrite R1, (sq_end _ _ Hsr). } { by rewrite R3, (sq_flags _ _ Hsr). }
  { by rewrite Q1. } { by rewrite Q2. }
  exists h', rq', (step_queue h t e (finished rq' q1)).
  assert (orig_bar_rq (finished rq' q1) = Some orig ∧ conf (finished rq' q1) = conf (queue w) ∧
    orderr (finished rq' q1) = orderr q1) as (F1 & F2 & F3)
    by (unfold finished; destruct (blk_account_rq rq'); cbn; rewrite ?Q2, ?Q3; done).
  assert (first_err (orderr q1) e = err) as Ee.
  { unfold err. destruct Hq1 as [->| ->]; [done|]. by rewrite note_err_orderr, first_err_twice. }
  split; [done|]. split; [done|]. split; [done|]. split_and!.
  - unfold step_queue. cbn. by rewrite note_err_orderr, F3.
  - unfold step_queue, note_err. cbn. by destruct (negb _ && _).
  - unfold step_queue, note_err. cbn. by destruct (negb _ && _).
  - unfold end_request_all. erewrite st_bind_ok by (apply rq_get_ok; exact Hr). rewrite (sq_next _ _ Hsr).
    erewrite (st_bind_ok (mret 0)) by reflexivity. unfold __blk_end_bidi_request, blk_update_bidi_request.
    rewrite <-!st_bind_assoc, (st_bind_ok _ _ _ _ _ E1). rewrite <-!st_bind_assoc.
    erewrite (st_bind_ok (rq_get h)) by (apply rq_get_ok; unfold w1; wcbn; apply lookup_insert_eq).
    rewrite R2, (sq_next _ _ Hsr). erewrite (st_bind_ok (mret false)) by reflexivity.
    cbn iota. unfold mbind, st_bind at 1 2. rewrite E2. unfold w1. wcbn. rewrite Ee.
    by destruct (when (bool_decide (t = [])) (end_all orig err) _) as [[[] ?]|].
Qed.
End completing.

(** *** Handing a step to the driver *)
Lemma do_ordered_step w h t rest orig err :
  ord_state w (h :: t) rest orig err →
  blk_do_ordered ops request_fn call_end_io call_prepare_flush h w = Ok ((Some h, true), w).
Proof.
  intros H. destruct (os_ready _ _ _ _ _ H h) as (rq & Hr & Hs & _); [by left|].
  destruct (seq_step h t (os_steps _ _ _ _ _ H)) as (Hz & Hc & _ & _ & _ & _ & _ & _ & Hh & _).
  assert (ordseq (queue w) = seq_left (h :: t)) as Es by apply H.
  unfold blk_do_ordered. erewrite st_bind_ok by (apply rq_get_ok; exact Hr).
  erewrite (st_bind_ok q_get) by reflexivity. rewrite Es. destruct (Z.eqb_spec (seq_left (h :: t)) 0); [done|].
  assert (negb (blk_fs_request rq) && negb (bool_decide (h = pre_flush_rq)) &&
    negb (bool_decide (h = post_flush_rq)) = false ∧
    blk_fs_request rq && blk_barrier_rq rq && negb (bool_decide (h = bar_rq)) = false) as [-> ->].
  { pose proof (sq_kind _ _ Hs) as Hk. destruct Hh as [->|[->| ->]]; destruct Hk as [-> _]; cbn;
      by rewrite ?andb_false_r. }
  destruct (tst (ordered (queue w)) QUEUE_ORDERED_BY_TAG); [done|].
  erewrite (st_bind_ok (gets _)) by reflexivity.
  assert (blk_ordered_req_seq h rq (queue w) (rqs w) = Ok (step_seq h)) as ->.
  { unfold blk_ordered_req_seq. rewrite Es. destruct (Z.eqb_spec (seq_left (h :: t)) 0); [done|].
    by destruct Hh as [->|[->| ->]]. }
  erewrite (st_bind_ok (lift _)) by reflexivity. unfold blk_ordered_cur_seq. rewrite Es.
  destruct (Z.eqb_spec (seq_left (h :: t)) 0); [done|]. fold (cur_of (seq_left (h :: t))). rewrite Hc.
  by destruct (Z.gtb_spec (step_seq h) (step_seq h)); [lia|].
Qed.

Lemma next_head w r l res w' :
  is_list (links w) queue_head (queuelist <$> r :: l) →
  blk_do_ordered ops request_fn call_end_io call_prepare_flush r w = Ok ((res, true), w') →
  __elv_next_request ops request_fn call_end_io call_prepare_flush w = Ok (res, w').
Proof.
  intros Hl E. unfold __elv_next_request. erewrite (st_bind_ok get) by reflexivity. cbn [next_loop].
  erewrite st_bind_ok by (apply on_links_read; apply (list_empty_spec _ _ _ Hl)).
  rewrite bool_decide_false by done. cbn [negb]. destruct Hl as [_ Hs%seg_head].
  erewrite st_bind_ok by (apply on_links_read; apply get_next_ok; exact Hs).
  erewrite (st_bind_ok (lift _)) by reflexivity. by rewrite (st_bind_ok _ _ _ _ _ E).
Qed.

Lemma step_rq_flags h rq f : step_rq h rq → tst f step_mask = false →
  step_rq h (set_cmd_flags (Z.lor (cmd_flags rq) f) rq).
Proof.
  intros [S1 S2 S3 S4] Hf. split; try done. cbn. by rewrite tst_lor, S3.
Qed.

Lemma peek_step w w0 h t rest orig err :
  __elv_next_request ops request_fn call_end_io call_prepare_flush w0 = Ok (Some h, w) →
  ord_state w (h :: t) rest orig err →
  ∃ rq q, blk_peek_request ops request_fn call_end_io call_prepare_flush call_prep_rq this_cpu w0
      = Ok (Some h, set_queue q (set_rqs (<[h := rq]> (rqs w)) w)) ∧
    step_rq h rq ∧ same_queue (queue w) q ∧ orderr q = orderr (queue w).
Proof.
  intros En H. destruct (os_ready _ _ _ _ _ H h) as (rq & Hr & Hs & _); [by left|].
  destruct (step_mask_off _ (sq_flags _ _ Hs)) as (_ & Fp & Fs & _).
  destruct (os_conf _ _ _ _ _ H) as (Hprep & Hdrain & _).
  set (rq1 := if negb (tst (cmd_flags rq) REQ_STARTED)
              then set_cmd_flags (Z.lor (cmd_flags rq) REQ_STARTED) rq else rq).
  assert (step_rq h rq1) as Hs1 by (unfold rq1; destruct (negb _); [by apply step_rq_flags|done]).
  destruct (step_mask_off _ (sq_flags _ _ Hs1)) as (_ & Fp1 & _).
  set (b := bool_decide (boundary_rq (queue w) = None) || bool_decide (boundary_rq (queue w) = Some h)).
  set (q1 := if b then set_boundary_rq None (set_end_sector (rq_end_sector rq1) (queue w)) else queue w).
  exists rq1, q1. split_and!; [|done|unfold q1; by destruct b|unfold q1; by destruct b].
  unfold blk_peek_request. erewrite (st_bind_ok get) by reflexivity. cbn [peek_loop].
  rewrite (st_bind_ok _ _ _ _ _ En). erewrite st_bind_ok by (apply rq_get_ok; exact Hr).
  erewrite (st_bind_ok (when _ _)).
  2: { instantiate (1 := set_rqs (<[h := rq1]> (rqs w)) w). instantiate (1 := tt). unfold when, rq1.
       unfold blk_sorted_rq. rewrite Fs. destruct (negb _).
       - erewrite st_bind_ok by reflexivity. exact (rq_upd_ok _ _ w rq Hr).
       - rewrite insert_id by done. by destruct w. }
  erewrite (st_bind_ok q_get) by reflexivity. wcbn. fold b.
  erewrite (st_bind_ok (when _ _)).
  2: { instantiate (1 := set_queue q1 (set_rqs (<[h := rq1]> (rqs w)) w)). instantiate (1 := tt).
       unfold when, q1. destruct b; [|by destruct w].
       erewrite st_bind_ok by (apply rq_get_ok; wcbn; apply lookup_insert_eq). done. }
  assert (conf q1 = conf (queue w)) as Ec by (unfold q1; by destruct b).
  unfold peek_prep. rewrite <-st_bind_assoc.
  erewrite st_bind_ok by (apply rq_get_ok; wcbn; apply lookup_insert_eq). rewrite Fp1.
  rewrite <-st_bind_assoc. erewrite (st_bind_ok q_get) by reflexivity. wcbn. rewrite Ec, Hdrain, Hprep.
  cbn [Z.eqb negb andb]. rewrite <-st_bind_assoc. by erewrite (st_bind_ok (when _ _)) by reflexivity.
Qed.

(** The nodes that change when [s] is queued or taken off in front of [l]. *)
Definition touched (s : rqid) (l : list rqid) : list laddr :=
  timeout_list s :: queue_head :: queuelist s :: (queuelist <$> l).

(** *** One step, from the queue to its completion *)
Lemma ord_state_next w w' h t rest orig err err' :
  ord_state w (h :: t) rest orig err → is_list (links w') queue_head (queuelist <$> t ++ rest) →
  (∀ r, r ≠ h → is_list (links w) (timeout_list r) [] → is_list (links w') (timeout_list r) []) →
  (∀ r, r ≠ h → rqs w' !! r = rqs w !! r) → hash w' = hash w →
  ordseq (queue w') = seq_now t → orderr (queue w') = err' → orig_bar_rq (queue w') = Some orig →
  conf (queue w') = conf (queue w) → ord_state w' t rest orig err'.
Proof.
  intros H Hl Ht Hrq Hh Hs He Ho Hc.
  destruct (seq_step h t (os_steps _ _ _ _ _ H)) as (_ & _ & _ & _ & _ & _ & Hin & _ & _ & Hni).
  split; try done; [|by rewrite Hc; apply H].
  intros r Hr. assert (r ≠ h) by (by intros ->).
  destruct (os_ready _ _ _ _ _ H r) as (rq & R1 & R2 & R3 & R4); [by right|].
  exists rq. rewrite Hrq, Hh by done. split_and!; auto.
Qed.

Lemma ordered_step w w0 h t rest orig err end_all e :
  __elv_next_request ops request_fn call_end_io call_prepare_flush w0 = Ok (Some h, w) →
  ord_state w (h :: t) rest orig err →
  let err' := first_err err e in
  ∃ w1 w2, blk_fetch_request ops request_fn call_end_io call_prepare_flush call_prep_rq this_cpu w0
      = Ok (Some h, w1) ∧
    end_request_all ops request_fn call_end_io end_all h e w1
      = when (bool_decide (t = [])) (end_all orig err') w2 ∧
    ended w2 = ended w ∧ hash w2 = hash w ∧ ord_state w2 t rest orig err' ∧
    (∃ rq', rqs w2 = <[h := rq']> (rqs w) ∧ bios rq' = []) ∧
    frame (links w) (links w2) (touched h (t ++ rest)).
Proof.
  intros En H err'. destruct (peek_step w w0 h t rest orig err En H) as (rq & q & Ep & Hs & (Q1 & Q2 & Q3) & Q4).
  destruct (os_ready _ _ _ _ _ H h) as (_ & _ & _ & Hto & Hh); [by left|].
  destruct (os_conf _ _ _ _ _ H) as (_ & _ & Hfn).
  assert (ordseq (queue w) = seq_left (h :: t) ∧ orderr (queue w) = err ∧ orig_bar_rq (queue w) = Some orig)
    as (Es & Ee & Eo) by (split_and!; apply H).
  set (w1 := set_queue q (set_rqs (<[h := rq]> (rqs w)) w)) in *.
  destruct (blk_start_request_ok this_cpu w1 queue_head [] (queuelist <$> t ++ rest) h rq)
    as (h2 & E2 & L1 & L2 & F2); unfold w1; wcbn; [apply H|done|apply lookup_insert_eq|apply Hs|by rewrite Q3|].
  set (rq2 := set_resid_len (blk_rq_bytes rq) rq) in *.
  set (w2 := set_rqs _ _) in E2. cbn [app] in *.
  assert (same_queue q (started rq q) ∧ orderr (started rq q) = orderr q) as [(S1 & S2 & S3) S4]
    by (unfold started; by destruct (blk_account_rq rq)).
  assert (∀ r, is_list (links w) (timeout_list r) [] → is_list h2 (timeout_list r) []) as Hto2.
  { intros r Hr. eapply frame_is_list; [done..|]. intros y ->%list_elem_of_singleton Hy.
    apply elem_of_cons in Hy as [?|Hy]; [done|]. apply elem_of_cons in Hy as [?|Hy]; [done|].
    apply list_elem_of_fmap in Hy as (? & ? & _). done. }
  destruct (end_step end_all w2 h t (t ++ rest) orig e rq2) as (h3 & rq3 & q3 & F3 & Hb3 & T1 & T2 & T3 & T4 & E3);
    unfold w2, w1; wcbn; try done.
  { apply H. } { by apply Hto2. } { apply lookup_insert_eq. } { destruct Hs. by split. }
  { by rewrite S1, Q1. } { by rewrite S2, Q2. }
  unfold w2, w1 in E3, T2. wcbn in E3. wcbn in T2. rewrite S4, Q4, Ee in E3, T2.
  eexists w2, _. split_and!; [|exact E3|done|done| | |].
  - unfold blk_fetch_request. rewrite (st_bind_ok _ _ _ _ _ Ep). by rewrite (st_bind_ok _ _ _ _ _ E2).
  - apply (ord_state_next w _ h t rest orig err); wcbn; try done.
    + eapply frame_is_list; [done..|]. intros y Hy ->%list_elem_of_singleton.
      apply elem_of_cons in Hy as [?|Hy]; [done|]. apply list_elem_of_fmap in Hy as (? & ? & _). done.
    + intros r Hr Hl. eapply frame_is_list; [done|by apply Hto2|].
      intros y ->%list_elem_of_singleton [= ->]%list_elem_of_singleton. done.
    + intros r Hr. by rewrite !lookup_insert_ne by done.
    + etransitivity; [exact T4|]. change (conf (started rq q) = conf (queue w)). by rewrite S3, Q3.
  - exists rq3. split; [|done]. wcbn. by rewrite !insert_insert_eq.
  - wcbn. eapply frame_trans; eapply frame_weaken; [exact F2|unfold touched; lelem|exact F3|unfold touched; lelem].
Qed.

(** *** Queueing the steps *)
Definition embedded : list rqid := [pre_flush_rq; bar_rq; post_flush_rq].

(** The steps [todo] are queued in front of [l]; the other requests embedded in
    the queue are not queued. *)
Record staging w (todo l : list rqid) : Prop := {
  sg_list : is_list (links w) queue_head (queuelist <$> todo ++ l);
  sg_ready : ∀ r, r ∈ todo → ∃ rq, rqs w !! r = Some rq ∧ step_rq r rq ∧
    is_list (links w) (timeout_list r) [] ∧ ELV_ON_HASH r (hash w) = false;
  sg_emb : ∀ s, s ∈ embedded → is_Some (rqs w !! s) ∧ mapped (links w) (queuelist s) ∧
    mapped (links w) (timeout_list s) ∧ s ∉ l ∧ ELV_ON_HASH s (hash w) = false;
  sg_plug : blk_queue_plugged (queue w) = false
}.

Lemma staging_upd w todo l s rq :
  staging w todo l → s ∉ todo → staging (set_rqs (<[s := rq]> (rqs w)) w) todo l.
Proof.
  intros [S1 S2 S3 S4] Hs. split; wcbn; try done.
  - intros r Hr. destruct (S2 r Hr) as (rq' & R1 & R). exists rq'. split; [|done].
    rewrite lookup_insert_ne; [done|]. by intros ->.
  - intros s' Hs'. destruct (S3 s' Hs') as (R1 & R). split; [|done].
    destruct (decide (s = s')) as [->|]; [by rewrite lookup_insert_eq|by rewrite lookup_insert_ne].
Qed.

Lemma staging_queue w todo l q :
  staging w todo l → queue_flags q = queue_flags (queue w) → staging (set_queue q w) todo l.
Proof. intros [S1 S2 S3 S4] Hq. split; try done. unfold blk_queue_plugged in *. wcbn. by rewrite Hq. Qed.

(** The memory of the lists changes outside the queued nodes. *)
Lemma staging_links w todo l h ns :
  staging w todo l → frame (links w) h ns →
  (∀ a, a ∈ ns → a ∉ queue_head :: (queuelist <$> todo ++ l)) → (∀ r, r ∈ todo → timeout_list r ∉ ns) →
  staging (set_links h w) todo l.
Proof.
  intros [S1 S2 S3 S4] F Hn Ht. split; wcbn; try done.
  - eapply frame_is_list; [done..|]. intros y Hy Hy'. by apply (Hn y).
  - intros r Hr. destruct (S2 r Hr) as (rq' & R1 & R2 & R3 & R4). exists rq'. split_and!; try done.
    eapply frame_is_list; [done..|]. intros y ->%list_elem_of_singleton. by apply Ht.
  - intros s Hs. destruct (S3 s Hs) as (R1 & R2 & R3 & R4 & R5). split_and!; try done; by eapply frame_mapped.
Qed.

Lemma queuelist_off_queue (s : rqid) (l : list rqid) : s ∉ l → queuelist s ∉ queue_head :: (queuelist <$> l).
Proof. intros Hs [?|(? & [= ->] & ?)%list_elem_of_fmap]%elem_of_cons; done. Qed.
Lemma timeout_notin (s : rqid) (l : list rqid) : timeout_list s ∉ queue_head :: (queuelist <$> l).
Proof. intros [?|(? & ? & ?)%list_elem_of_fmap]%elem_of_cons; done. Qed.

Lemma stage_init w todo l s :
  staging w todo l → s ∈ embedded → s ∉ todo →
  ∃ h, blk_rq_init s w = Ok (tt, set_rqs (<[s := init_rq (jiffies w)]> (rqs w)) (set_links h w)) ∧
    is_list h (timeout_list s) [] ∧ frame (links w) h (touched s (todo ++ l)) ∧
    staging (set_rqs (<[s := init_rq (jiffies w)]> (rqs w)) (set_links h w)) todo l.
Proof.
  intros H Hs Hn. destruct (sg_emb _ _ _ H s Hs) as (R1 & R2 & R3 & R4 & _).
  destruct (blk_rq_init_ok s w R1 R2 R3) as (h & E & _ & L & F). exists h. split; [done|]. split; [done|].
  split; [eapply frame_weaken; [exact F|unfold touched; lelem]|].
  apply (staging_upd (set_links h w)); [|done]. eapply staging_links; [done..| |].
  - intros a [->|[->|[]%not_elem_of_nil]%elem_of_cons]%elem_of_cons; [|apply timeout_notin].
    apply queuelist_off_queue. intros [?|?]%elem_of_app; done.
  - intros r Hr [?|[[= ->]|[]%not_elem_of_nil]%elem_of_cons]%elem_of_cons; done.
Qed.

Lemma stage_push w todo l s rq :
  staging w todo l → s ∈ embedded → s ∉ todo → rqs w !! s = Some rq → step_rq s rq →
  is_list (links w) (timeout_list s) [] →
  ∃ h rq', elv_insert ops request_fn s ELEVATOR_INSERT_FRONT w
      = Ok (tt, set_links h (set_rqs (<[s := rq']> (rqs w)) w)) ∧
    bios rq' = bios rq ∧ frame (links w) h (touched s (todo ++ l)) ∧
    staging (set_links h (set_rqs (<[s := rq']> (rqs w)) w)) (s :: todo) l.
Proof.
  intros H Hs Hn Hr Hq Hto. destruct (sg_emb _ _ _ H s Hs) as (_ & R2 & _ & R4 & R5).
  set (rq' := set_cmd_flags (Z.lor (cmd_flags rq) REQ_SOFTBARRIER) rq).
  assert (step_rq s rq') as Hq' by (by apply step_rq_flags).
  destruct (list_add_spec (links w) queue_head [] (queuelist <$> todo ++ l) (queuelist s)) as (h & E & L & F);
    [apply H| |done|].
  { apply queuelist_off_queue. intros [?|?]%elem_of_app; done. }
  exists h, rq'. split; [|split; [done|split; [eapply frame_weaken; [exact F|unfold touched; lelem]|]]].
  - unfold elv_insert, elv_insert_front. rewrite Z.eqb_refl. rewrite <-st_bind_assoc.
    erewrite (st_bind_ok (_ ≫= _)).
    2: { erewrite st_bind_ok by (apply rq_upd_ok; exact Hr). apply on_links_ok. exact E. }
    erewrite (st_bind_ok (mret _)) by reflexivity. erewrite (st_bind_ok q_get) by reflexivity. wcbn.
    by rewrite (sg_plug _ _ _ H).
  - assert (∀ r, is_list (links w) (timeout_list r) [] → is_list h (timeout_list r) []) as Ht.
    { intros r Hl. eapply frame_is_list; [done..|]. intros y ->%list_elem_of_singleton.
      intros [?|Hy]%elem_of_cons; [done|]. by apply timeout_notin in Hy. }
    destruct H as [S1 S2 S3 S4]. split; wcbn; [done| | |done].
    + intros r [->|Hin]%elem_of_cons; [exists rq'; rewrite lookup_insert_eq; auto|].
      destruct (S2 r Hin) as (rq1 & ? & ? & ? & ?). exists rq1. rewrite lookup_insert_ne by (by intros ->). auto.
    + intros s' Hs'. destruct (S3 s' Hs') as (T1 & T2 & T3 & T4 & T5).
      split_and!; try done; [|by eapply frame_mapped..].
      destruct (decide (s = s')) as [->|]; [by rewrite lookup_insert_eq|by rewrite lookup_insert_ne].
Qed.

(** What the driver promises of [prepare_flush_fn]: it sets up the command of the
    request it is given and nothing else. *)
Definition prepares_flush : Prop := ∀ f r w rq, rqs w !! r = Some rq →
  ∃ rq', call_prepare_flush f r w = Ok (tt, set_rqs (<[r := rq']> (rqs w)) w) ∧
    end_io rq' = end_io rq ∧ next_rq rq' = next_rq rq ∧ bios rq' = bios rq ∧
    blk_fs_request rq' = false ∧ (tst (cmd_flags rq) step_mask = false → tst (cmd_flags rq') step_mask = false).

(** What counting the segments leaves of a bio. *)
Definition same_bio (b b' : bio) : Prop :=
  bi_id b' = bi_id b ∧ bi_size b' = bi_size b ∧ bi_rw b' = bi_rw b ∧
  test_bit BIO_UPTODATE (bi_flags b') = test_bit BIO_UPTODATE (bi_flags b).

(** The other requests after the bio of a new request was written. *)
Definition stored (ob : option bio) (rq : request) : request :=
  match ob with Some b => set_bios (store_bio b <$> bios rq) rq | None => rq end.

(** The step [s] for the bio [b] was queued in front of [l]. *)
Definition queued_step (b : bio) (s : rqid) (l : list rqid) (w w' : world D) : Prop :=
  queue w' = queue w ∧ ended w' = ended w ∧ hash w' = hash w ∧ frame (links w) (links w') (touched s l) ∧
  ∃ ob rq', rqs w' = <[s := rq']> (stored ob <$> rqs w) ∧ ∀ b', ob = Some b' → same_bio b b'.

Lemma queue_flush_ok w todo l which r b :
  prepares_flush → staging w todo l → r ∉ todo → is_Some (prepare_flush_fn (conf (queue w))) →
  (which, r) ∈ [(QUEUE_ORDERED_DO_PREFLUSH, pre_flush_rq); (QUEUE_ORDERED_DO_POSTFLUSH, post_flush_rq)] →
  ∃ w', queue_flush ops request_fn call_prepare_flush which w = Ok (tt, w') ∧
    staging w' (r :: todo) l ∧ queued_step b r (todo ++ l) w w'.
Proof.
  intros Hp H Hn [f Hf] Hin.
  assert (r ∈ embedded ∧ r ≠ bar_rq ∧
    (if which =? QUEUE_ORDERED_DO_PREFLUSH then (pre_flush_rq, pre_flush_end_io)
     else (post_flush_rq, post_flush_end_io)) = (r, step_fn r)) as (Hr & Hbar & Ew).
  { apply elem_of_cons in Hin as [[= -> ->]|[[= -> ->]|[]%not_elem_of_nil]%elem_of_cons];
      (split; [unfold embedded; set_solver|done]). }
  unfold queue_flush. rewrite Ew.
  destruct (stage_init w todo l r H Hr Hn) as (h & E & L & F1 & H1). rewrite (st_bind_ok _ _ _ _ _ E).
  destruct (sg_emb _ _ _ H bar_rq ltac:(unfold embedded; set_solver)) as ([bar Hb] & _).
  erewrite st_bind_ok by (apply rq_upd_ok; wcbn; apply lookup_insert_eq). wcbn. rewrite insert_insert_eq.
  erewrite st_bind_ok by (apply rq_get_ok; wcbn; rewrite lookup_insert_ne by done; exact Hb).
  do 2 (erewrite st_bind_ok by (apply rq_upd_ok; wcbn; apply lookup_insert_eq); wcbn; rewrite insert_insert_eq).
  erewrite (st_bind_ok q_get) by reflexivity. wcbn. rewrite Hf. erewrite (st_bind_ok (lift _)) by reflexivity.
  set (rq1 := set_end_io _ _). set (w1 := set_rqs _ _).
  destruct (Hp f r w1 rq1) as (rq2 & E2 & P1 & P2 & P3 & P4 & P5); [unfold w1; wcbn; apply lookup_insert_eq|].
  rewrite (st_bind_ok _ _ _ _ _ E2). unfold w1. wcbn. rewrite insert_insert_eq.
  set (w2 := set_rqs _ _).
  assert (staging w2 todo l) as H2.
  { pose proof (staging_upd _ todo l r rq2 H1 Hn) as HS. wcbn in HS. by rewrite insert_insert_eq in HS. }
  assert (step_rq r rq2) as Hs2.
  { split; [by rewrite P1|by rewrite P2|by apply P5|]. rewrite bool_decide_false by done. by rewrite P3, P4. }
  destruct (stage_push w2 todo l r rq2 H2 Hr Hn) as (h3 & rq3 & E3 & B3 & F3 & H3);
    [unfold w2; wcbn; apply lookup_insert_eq|done|done|].
  rewrite E3. eexists. split; [reflexivity|]. split; [exact H3|]. unfold w2. do 3 (split; [done|]).
  split; [by eapply frame_trans|]. exists None, rq3. split; [|done]. wcbn. unfold stored.
  by rewrite map_fmap_id, insert_insert_eq.
Qed.

Lemma flags_from_bio_step b : bio_rw_flagged b BIO_RW_DISCARD = false →
  tst (flags_from_bio b) step_mask = false.
Proof.
  intros Hd. unfold flags_from_bio. rewrite Hd.
  assert (tst (if bio_rw_flagged b BIO_RW_AHEAD then REQ_FAILFAST_MASK
               else Z.land (bi_rw b) REQ_FAILFAST_MASK) step_mask = false) as Hf.
  { destruct (bio_rw_flagged b BIO_RW_AHEAD); [done|]. unfold tst. rewrite <-Z.land_assoc.
    change (Z.land REQ_FAILFAST_MASK step_mask) with 0. by rewrite Z.land_0_r. }
  set (f := if bio_rw_flagged b BIO_RW_AHEAD then _ else _) in *.
  destruct (bio_rw_flagged b BIO_RW_BARRIER), (bio_rw_flagged b BIO_RW_SYNCIO),
    (bio_rw_flagged b BIO_RW_META), (bio_rw_flagged b BIO_RW_NOIDLE); rewrite ?tst_lor, Hf; done.
Qed.

Lemma bio_phys_segments_keep q b : same_bio b (snd (bio_phys_segments q b)).
Proof.
  unfold bio_phys_segments. destruct (negb _); [|done]. unfold blk_recount_segments, __blk_recalc_rq_segments.
  assert (∀ f, test_bit BIO_UPTODATE (Z.lor f (Z.shiftl 1 BIO_SEG_VALID)) = test_bit BIO_UPTODATE f) as Hf.
  { intros f. unfold test_bit. by rewrite Z.lor_spec, orb_false_r. }
  cbn. destruct (_ >? _); split_and!; try done; apply Hf.
Qed.

Lemma bio_phys_segments_sector q b : bi_sector (snd (bio_phys_segments q b)) = bi_sector b.
Proof.
  unfold bio_phys_segments. destruct (negb _); [|done]. unfold blk_recount_segments, __blk_recalc_rq_segments.
  cbn. by destruct (_ >? _).
Qed.
Lemma init_request_from_bio_ok w r rq b :
  rqs w !! r = Some rq → bios rq = [] →
  ∃ ob rq' b', init_request_from_bio r b [] w
      = Ok (tt, set_rqs (<[r := rq']> (stored ob <$> rqs w)) w) ∧
    bios rq' = [b'] ∧ bi_size b' = bi_size b ∧ (∀ c, ob = Some c → same_bio b c) ∧
    blk_rq_bytes rq' = bi_size b ∧
    blk_fs_request rq' = true ∧ end_io rq' = end_io rq ∧ next_rq rq' = next_rq rq ∧
    cmd_flags rq' = Z.lor (Z.lor (cmd_flags rq) (flags_from_bio b)) (Z.land (bi_rw b) REQ_RW) ∧
    __sector rq' = bi_sector b ∧ bi_sector b' = bi_sector b ∧ bi_id b' = bi_id b.
Proof.
  intros Hr Hb. unfold init_request_from_bio.
  erewrite st_bind_ok by (apply rq_upd_ok; exact Hr).
  do 5 (erewrite st_bind_ok by (apply rq_upd_ok; wcbn; apply lookup_insert_eq); wcbn; rewrite insert_insert_eq).
  unfold blk_rq_bio_prep.
  erewrite st_bind_ok by (apply rq_upd_ok; wcbn; apply lookup_insert_eq). wcbn. rewrite insert_insert_eq.
  erewrite (st_bind_ok q_get) by reflexivity. wcbn.
  pose proof (bio_phys_segments_keep (queue w) b) as K. pose proof K as (K0 & K1 & _).
  pose proof (bio_phys_segments_sector (queue w) b) as Ks.
  destruct (bio_has_data b).
  - destruct (bio_phys_segments (queue w) b) as [n b'] eqn:E. cbn [snd] in *.
    erewrite (st_bind_ok (_ ≫= _)).
    2: { erewrite st_bind_ok by (apply rq_upd_ok; wcbn; apply lookup_insert_eq). wcbn. rewrite insert_insert_eq.
         erewrite st_bind_ok by reflexivity. reflexivity. }
    wcbn. rewrite fmap_insert.
    do 2 (erewrite st_bind_ok by (apply rq_upd_ok; wcbn; apply lookup_insert_eq); wcbn; rewrite insert_insert_eq).
    erewrite rq_upd_ok by (wcbn; apply lookup_insert_eq). wcbn. rewrite insert_insert_eq.
    exists (Some b'). eexists _, b'. split; [reflexivity|]. cbn. rewrite K1. split_and!; try done.
    by intros c [= <-].
  - erewrite (st_bind_ok (mret _)) by reflexivity.
    do 2 (erewrite st_bind_ok by (apply rq_upd_ok; wcbn; apply lookup_insert_eq); wcbn; rewrite insert_insert_eq).
    erewrite rq_upd_ok by (wcbn; apply lookup_insert_eq). wcbn. rewrite insert_insert_eq.
    exists None. eexists _, b. split; [unfold stored; rewrite map_fmap_id; reflexivity|done].
Qed.

Lemma staging_stored w todo l ob :
  staging w todo l → bar_rq ∉ todo → staging (set_rqs (stored ob <$> rqs w) w) todo l.
Proof.
  intros [S1 S2 S3 S4] Hb. split; wcbn; try done.
  - intros r Hr. destruct (S2 r Hr) as (rq & R1 & R2 & R). exists rq. split; [|done].
    rewrite lookup_fmap, R1. cbn. f_equal. pose proof (sq_kind _ _ R2) as Hk.
    rewrite bool_decide_false in Hk by (by intros ->). destruct Hk as [_ Hk].
    unfold stored. destruct ob; [|done]. rewrite Hk. cbn. rewrite <-Hk. apply set_bios_id.
  - intros s Hs. destruct (S3 s Hs) as (R1 & R). split; [|done]. by rewrite lookup_fmap, fmap_is_Some.
Qed.

Lemma queue_bar_ok w todo l orig o b :
  staging w todo l → bar_rq ∉ todo → orig ≠ bar_rq → rqs w !! orig = Some o → bios o = [b] →
  0 ≤ bi_size b < 2 ^ 31 → bio_rw_flagged b BIO_RW_DISCARD = false →
  ∃ w', queue_bar ops request_fn orig w = Ok (tt, w') ∧ staging w' (bar_rq :: todo) l ∧
    queued_step b bar_rq (todo ++ l) w w'.
Proof.
  intros H Hn Ho Hr Hb Hsz Hd. assert (bar_rq ∈ embedded) as He by (unfold embedded; set_solver).
  unfold queue_bar. destruct (stage_init w todo l bar_rq H He Hn) as (h & E & L & F1 & H1).
  rewrite (st_bind_ok _ _ _ _ _ E).
  erewrite st_bind_ok by (apply rq_get_ok; wcbn; rewrite lookup_insert_ne by done; exact Hr).
  rewrite Hb. erewrite (st_bind_ok (lift _)) by reflexivity.
  set (rq1 := if bio_data_dir b =? 1 then set_cmd_flags (Z.lor 0 REQ_RW) (init_rq (jiffies w)) else init_rq (jiffies w)).
  erewrite (st_bind_ok (when _ _)).
  2: { instantiate (1 := set_rqs (<[bar_rq := rq1]> (rqs w)) (set_links h w)). instantiate (1 := tt).
       unfold when, rq1. destruct (bio_data_dir b =? 1); [|done].
       erewrite rq_upd_ok by (wcbn; apply lookup_insert_eq). wcbn. by rewrite insert_insert_eq. }
  erewrite (st_bind_ok q_get) by reflexivity. wcbn.
  set (rq2 := if tst (ordered (queue w)) QUEUE_ORDERED_DO_FUA
              then set_cmd_flags (Z.lor (cmd_flags rq1) REQ_FUA) rq1 else rq1).
  erewrite (st_bind_ok (when _ _)).
  2: { instantiate (1 := set_rqs (<[bar_rq := rq2]> (rqs w)) (set_links h w)). instantiate (1 := tt).
       unfold when, rq2. destruct (tst _ QUEUE_ORDERED_DO_FUA); [|done].
       erewrite rq_upd_ok by (wcbn; apply lookup_insert_eq). wcbn. by rewrite insert_insert_eq. }
  assert (bios rq2 = [] ∧ next_rq rq2 = None ∧ tst (cmd_flags rq2) step_mask = false) as (B2 & N2 & F2).
  { unfold rq2, rq1. destruct (tst (ordered (queue w)) QUEUE_ORDERED_DO_FUA), (bio_data_dir b =? 1); done. }
  cbn [tail]. set (w2 := set_rqs (<[bar_rq := rq2]> (rqs w)) (set_links h w)).
  assert (staging w2 todo l) as H2.
  { pose proof (staging_upd _ todo l bar_rq rq2 H1 Hn) as HS. wcbn in HS. by rewrite insert_insert_eq in HS. }
  destruct (init_request_from_bio_ok w2 bar_rq rq2 b) as (ob & rq3 & b' & E3 & I1 & I2 & I8 & I3 & I4 & I5 & I6 & I7 & _);
    [unfold w2; wcbn; apply lookup_insert_eq|done|].
  rewrite (st_bind_ok _ _ _ _ _ E3).
  erewrite st_bind_ok by (apply rq_upd_ok; wcbn; apply lookup_insert_eq). wcbn. rewrite insert_insert_eq.
  set (rq4 := set_end_io _ rq3). set (w4 := set_rqs (<[bar_rq := rq4]> _) _).
  assert (staging w4 todo l) as H4.
  { pose proof (staging_upd _ todo l bar_rq rq4 (staging_stored w2 todo l ob H2 Hn) Hn) as HS. exact HS. }
  assert (step_rq bar_rq rq4) as Hs4.
  { split; [done|by unfold rq4; cbn; rewrite I6| |].
    - unfold rq4. cbn. rewrite I7, !tst_lor, F2, (flags_from_bio_step b Hd). unfold tst.
      rewrite <-Z.land_assoc. change (Z.land REQ_RW step_mask) with 0. by rewrite Z.land_0_r.
    - rewrite bool_decide_true by done. unfold rq4, blk_fs_request, blk_rq_bytes in *. cbn.
      split; [done|]. exists b'. rewrite I3, I2. done. }
  destruct (stage_push w4 todo l bar_rq rq4 H4 He Hn) as (h5 & rq5 & E5 & B5 & F5 & H5);
    [unfold w4; wcbn; apply lookup_insert_eq|done|done|].
  rewrite E5. eexists. split; [reflexivity|]. split; [exact H5|]. do 3 (split; [done|]).
  split; [by eapply frame_trans|]. exists ob, rq5. split; [|done]. unfold w4, w2. wcbn.
  by rewrite fmap_insert, !insert_insert_eq.
Qed.

(** *** The barrier request itself *)
Definition quiet_rq (o : request) : Prop :=
  end_io o = None ∧ next_rq o = None ∧ ref_count o = 1 ∧ tst (cmd_flags o) REQ_QUEUED = false ∧
  blk_rq_started o = false.

(** The barrier request [r] keeps its bio [b], which only the requests [X] share,
    and is on no list. *)
Record barrier_ready w (r : rqid) (X : list rqid) (b : bio) : Prop := {
  br_rq : ∃ o b', rqs w !! r = Some o ∧ bios o = [b'] ∧ same_bio b b' ∧ bi_size b = blk_rq_bytes o ∧ quiet_rq o;
  br_own : ∀ r' rq', r' ≠ r → r' ∉ X → rqs w !! r' = Some rq' → bi_id b ∉ chain_ids (bios rq');
  br_self : is_list (links w) (queuelist r) [];
  br_timer : is_list (links w) (timeout_list r) [];
  br_hash : ELV_ON_HASH r (hash w) = false
}.

Lemma touched_other r s l : s ≠ r → r ∉ l → queuelist r ∉ touched s l ∧ timeout_list r ∉ touched s l.
Proof.
  intros Hs Hl. unfold touched. split; rewrite !not_elem_of_cons; split_and!; try congruence.
  - intros (? & [= ->] & ?)%list_elem_of_fmap. done.
  - intros (? & ? & ?)%list_elem_of_fmap. done.
Qed.
Lemma touched_self_linked (h h' : gmap laddr (list_head laddr)) a ns : is_list h a [] → frame h h' ns → a ∉ ns → is_list h' a [].
Proof. intros Hl F Ha. eapply frame_is_list; [done..|]. by intros y ->%list_elem_of_singleton. Qed.

Lemma stored_ids ob rq : chain_ids (bios (stored ob rq)) = chain_ids (bios rq).
Proof.
  unfold stored. destruct ob as [c|]; [|done]. cbn. unfold chain_ids. rewrite <-list_fmap_compose.
  apply list_fmap_ext. intros _ b _. cbn. unfold store_bio. destruct (decide _); congruence.
Qed.

Lemma barrier_queued w w' r X b s l :
  barrier_ready w r X b → queued_step b s l w w' → s ≠ r → r ∉ l → barrier_ready w' r (s :: X) b.
Proof.
  intros [(o & b' & R1 & R2 & R3 & R4 & R5) Own Self Tm Hh] (_ & _ & Eh & F & ob & rq' & Er & Hob) Hs Hl.
  destruct (touched_other r s l Hs Hl) as [T1 T2]. split.
  - exists (stored ob o). rewrite Er, lookup_insert_ne, lookup_fmap, R1 by done. cbn.
    unfold stored. destruct ob as [c|]; [|by exists b'].
    pose proof (Hob c eq_refl) as Hc. exists c. split_and!; try done; [|apply Hc..].
    cbn. rewrite R2. cbn. unfold store_bio. rewrite decide_True; [done|].
    destruct Hc as [-> _]. by destruct R3 as [-> _].
  - intros r' rq1 Hr' [Hs' HX]%not_elem_of_cons. rewrite Er, lookup_insert_ne, lookup_fmap by done.
    intros (rq0 & Hr0 & ->)%fmap_Some. rewrite stored_ids. by apply (Own r').
  - by eapply touched_self_linked.
  - by eapply touched_self_linked.
  - by rewrite Eh.
Qed.

Lemma barrier_done w w' r h t b rq' l :
  barrier_ready w r (h :: t) b → rqs w' = <[h := rq']> (rqs w) → bios rq' = [] →
  frame (links w) (links w') (touched h l) → hash w' = hash w → h ≠ r → r ∉ l → barrier_ready w' r t b.
Proof.
  intros [(o & b' & R1 & R) Own Self Tm Hh] Er Hb F Eh Hs Hl. destruct (touched_other r h l Hs Hl) as [T1 T2]. split.
  - exists o, b'. by rewrite Er, lookup_insert_ne.
  - intros r' rq1 Hr' HX. rewrite Er. destruct (decide (h = r')) as [->|Hne].
    + rewrite lookup_insert_eq. intros [= <-]. rewrite Hb. by apply not_elem_of_nil.
    + rewrite lookup_insert_ne by done. apply Own; [done|]. by apply not_elem_of_cons.
  - by eapply touched_self_linked.
  - by eapply touched_self_linked.
  - by rewrite Eh.
Qed.

(** Ending the barrier request: its bio ends with the error of the sequence. *)
Lemma ended_bio_err e o b : test_bit BIO_UPTODATE (bi_flags b) = true → snd (ended_bio e o b) = e.
Proof.
  intros Hu. unfold ended_bio, end_flags. destruct (Z.eqb_spec e 0) as [->|He]; cbn [negb].
  - rewrite Hu. cbn [negb fst snd].
    set (b' := if tst (cmd_flags o) REQ_QUIET then _ else _).
    assert (test_bit BIO_UPTODATE (bi_flags b') = true) as Hb.
    { unfold b', test_bit in *. destruct (tst _ _); [|done]. cbn [bi_flags set_bi_flags].
      by rewrite Z.setbit_neq, Hu by done. }
    cbn [bi_flags set_bi_sector set_bi_size]. by rewrite Hb.
  - cbn. by destruct (Z.eqb_spec e 0).
Qed.

Lemma update_barrier w r b e :
  r ≠ bar_rq → barrier_ready w r [] b → 0 ≤ bi_size b < 2 ^ 31 →
  test_bit BIO_UPTODATE (bi_flags b) = true →
  ∃ o o' b', rqs w !! r = Some o ∧ next_rq o = None ∧ quiet_rq o' ∧ bi_id b' = bi_id b ∧
    blk_update_request r e (blk_rq_bytes o) w
    = Ok (false, set_ended ((b', e) :: ended w) (set_rqs (<[r := o']> (rqs w)) w)).
Proof.
  intros Hbar [(o & b0 & R1 & R2 & R3 & R4 & R5) Own _ _] Hsz Hu. destruct R3 as (I1 & I2 & _ & I4).
  set (o1 := if blk_fs_request o then set_errors 0 o else o).
  assert (quiet_rq o1 ∧ bios o1 = [b0]) as [Q1 B1] by (unfold o1; by destruct (blk_fs_request o)).
  exists o, (set___data_len 0 (set_bios [] o1)), (fst (ended_bio e (set_bios [] o1) b0)).
  split; [done|]. split; [apply R5|]. split; [done|]. split; [by rewrite ended_bio_id|].
  assert ((fst (ended_bio e (set_bios [] o1) b0), e) = ended_bio e (set_bios [] o1) b0) as ->.
  { rewrite (surjective_pairing (ended_bio _ _ _)) at 2. by rewrite ended_bio_err by (by rewrite I4). }
  unfold blk_update_request. erewrite st_bind_ok by (apply rq_get_ok; exact R1).
  rewrite R2, bool_decide_false by done.
  erewrite (st_bind_ok (when _ _)).
  2: { instantiate (1 := set_rqs (<[r := o1]> (rqs w)) w). instantiate (1 := tt). unfold when, o1.
       destruct (blk_fs_request o); [by apply rq_upd_ok|]. rewrite insert_id by done. by destruct w. }
  unfold loop_fuel. cbn [sum_list_with]. rewrite Nat.add_0_r. cbn [update_loop].
  assert (∀ w', rqs w' = <[r := set_bios [] o1]> (rqs w) → private r w' [bi_id b0]) as Hp.
  { intros w' Ew r' rq' Hr' Hne i ->%list_elem_of_singleton. rewrite Ew, lookup_insert_ne in Hr' by done.
    rewrite I1. apply (Own r'); [done|by apply not_elem_of_nil|done]. }
  erewrite st_bind_ok. 2: {
    erewrite st_bind_ok by (apply rq_get_ok; wcbn; apply lookup_insert_eq). rewrite B1.
    cbn [nr_bytes total_bytes]. rewrite <-R4, <-I2. destruct (Z.geb_spec (bi_size b0) (bi_size b0)); [|lia].
    erewrite st_bind_ok by (apply rq_upd_ok; wcbn; apply lookup_insert_eq). wcbn. rewrite insert_insert_eq.
    erewrite st_bind_ok by (eapply req_bio_endio_whole; [done|wcbn; apply lookup_insert_eq|by apply Hp|apply not_elem_of_nil]).
    erewrite st_bind_ok by (apply rq_get_ok; wcbn; apply lookup_insert_eq). cbn [bios set_bios].
    rewrite bool_decide_true by done. cbn [negb andb].
    erewrite st_bind_ok by (apply rq_get_ok; wcbn; apply lookup_insert_eq). cbn [bios set_bios]. reflexivity. }
  unfold update_rest. erewrite st_bind_ok by (apply rq_get_ok; wcbn; apply lookup_insert_eq). cbn [bios set_bios].
  erewrite st_bind_ok by (apply rq_upd_ok; wcbn; apply lookup_insert_eq). wcbn. by rewrite insert_insert_eq.
Qed.

(** What the scheduler promises of [elevator_put_req_fn]: it returns, having
    changed its own data only. *)
Definition puts_own_data : Prop := ∀ r w, ∃ d, elv_put_request ops r w = Ok (tt, set_elevator_data d w).

Lemma freed_request_ordseq sync priv q : ordseq (freed_request sync priv q) = ordseq q.
Proof.
  assert (∀ s q', ordseq (__freed_request s q') = ordseq q') as H.
  { intros s q'. unfold __freed_request. destruct s, (_ <? _); cbn zeta; case_match; reflexivity. }
  unfold freed_request. cbn zeta. destruct priv, (negb _); by rewrite ?H.
Qed.

Lemma freed_request_last_merge sync priv q : last_merge (freed_request sync priv q) = last_merge q.
Proof.
  assert (∀ s q', last_merge (__freed_request s q') = last_merge q') as H.
  { intros s q'. unfold __freed_request. destruct s, (_ <? _); cbn zeta; case_match; reflexivity. }
  unfold freed_request. cbn zeta. destruct priv, (negb _); by rewrite ?H.
Qed.

(** A request off every list goes back to the pool. *)
Lemma put_alloced_run r w rq :
  puts_own_data → rqs w !! r = Some rq → is_list (links w) (queuelist r) [] → ELV_ON_HASH r (hash w) = false →
  is_alloced rq = true →
  ∃ d, put_alloced ops r w = Ok (tt, set_queue (freed_request (rq_is_sync rq) (tst (cmd_flags rq) REQ_ELVPRIV) (queue w))
    (set_rqs (delete r (rqs w))
      (set_links (delete (queuelist r) (delete (timeout_list r) (delete (csd_list r) (links w))))
        (set_elevator_data d w)))).
Proof.
  intros Hput Hr Hs Hh Ha. unfold put_alloced. erewrite st_bind_ok by (apply rq_get_ok; exact Hr).
  unfold is_alloced in Ha. rewrite Ha. cbn [when].
  erewrite st_bind_ok by (apply on_links_read; apply (list_empty_spec _ _ _ Hs)).
  rewrite bool_decide_true by done. erewrite (st_bind_ok (bug_on _)) by reflexivity.
  erewrite (st_bind_ok (gets hash)) by reflexivity. rewrite Hh.
  erewrite (st_bind_ok (bug_on _)) by reflexivity. unfold blk_free_request.
  rewrite <-!st_bind_assoc. erewrite st_bind_ok by (apply rq_get_ok; exact Hr).
  assert (∃ d, when (tst (cmd_flags rq) REQ_ELVPRIV) (elv_put_request ops r) w = Ok (tt, set_elevator_data d w))
    as [d Ed] by (destruct (tst _ REQ_ELVPRIV); [apply Hput|by exists (elevator_data w); destruct w]).
  rewrite <-!st_bind_assoc, (st_bind_ok _ _ _ _ _ Ed). erewrite (st_bind_ok (mempool_free r)) by reflexivity.
  exists d. reflexivity.
Qed.

Lemma put_alloced_ok r w rq l :
  puts_own_data → rqs w !! r = Some rq → is_list (links w) (queuelist r) [] → ELV_ON_HASH r (hash w) = false →
  is_list (links w) queue_head (queuelist <$> l) → r ∉ l →
  ∃ w', put_alloced ops r w = Ok (tt, w') ∧ ended w' = ended w ∧ ordseq (queue w') = ordseq (queue w) ∧
    is_list (links w') queue_head (queuelist <$> l).
Proof.
  intros Hput Hr Hs Hh Hl Hrl. destruct (is_alloced rq) eqn:Ha.
  2: { exists w. split; [|done]. unfold put_alloced. erewrite st_bind_ok by (apply rq_get_ok; exact Hr).
       unfold is_alloced in Ha. by rewrite Ha. }
  destruct (put_alloced_run r w rq Hput Hr Hs Hh Ha) as (d & E). eexists. split; [exact E|]. wcbn.
  split; [done|]. split; [apply freed_request_ordseq|]. destruct Hl as [Hnd Hseg]. split; [done|].
  assert (∀ y, y ∈ queue_head :: (queuelist <$> l) →
    delete (queuelist r) (delete (timeout_list r) (delete (csd_list r) (links w))) !! y = links w !! y) as Hy.
  { intros y Hy. rewrite !lookup_delete_ne; [done|..]; intros <-;
      apply elem_of_cons in Hy as [?|(? & [= <-] & ?)%list_elem_of_fmap]; done. }
  eapply seg_frame; [done| |]; intros y Hin; unfold nxt, prv; rewrite Hy; set_solver.
Qed.

Lemma end_barrier w r b e end_all l :
  puts_own_data → is_list (links w) queue_head (queuelist <$> l) → r ∉ l → r ≠ bar_rq → barrier_ready w r [] b → 0 ≤ bi_size b < 2 ^ 31 →
  test_bit BIO_UPTODATE (bi_flags b) = true → ordseq (queue w) = 0 →
  ∃ w3 b', end_request_all ops request_fn call_end_io end_all r e w = Ok (tt, w3) ∧ bi_id b' = bi_id b ∧
    ended w3 = (b', e) :: ended w ∧ ordseq (queue w3) = 0 ∧
    is_list (links w3) queue_head (queuelist <$> l).
Proof.
  intros Hput Hl Hrl Hbar H Hsz Hu Hz. destruct (update_barrier w r b e Hbar H Hsz Hu) as (o & o' & b' & R & N & Q & I & E).
  destruct H as [_ _ Hself Hto Hh]. destruct (list_del_init_self _ _ Hto) as (h & Eh & _ & F).
  destruct Q as (Q1 & Q2 & Q3 & Q4 & Q5).
  set (o2 := set_ref_count (s32 (ref_count o' - 1)) o').
  destruct (put_alloced_ok r (set_rqs (<[r := o2]> (rqs w)) (set_links h (set_ended ((b', e) :: ended w) w))) o2 l)
    as (w3 & Ep & Le & Qe & Ll); wcbn; try done.
  { apply lookup_insert_eq. } { eapply touched_self_linked; [done..|]. by intros ?%list_elem_of_singleton. }
  { eapply frame_is_list; [done..|]. intros y [->|(? & -> & _)%list_elem_of_fmap]%elem_of_cons; lelem. }
  exists w3, b'. split; [|split; [done|split; [done|split; [etransitivity; [exact Qe|exact Hz]|done]]]].
  unfold end_request_all. erewrite st_bind_ok by (apply rq_get_ok; exact R). rewrite N.
  erewrite (st_bind_ok (mret 0)) by reflexivity. unfold __blk_end_bidi_request, blk_update_bidi_request.
  rewrite <-!st_bind_assoc, (st_bind_ok _ _ _ _ _ E). rewrite <-!st_bind_assoc.
  erewrite (st_bind_ok (rq_get r)) by (apply rq_get_ok; wcbn; apply lookup_insert_eq). rewrite Q2.
  erewrite (st_bind_ok (mret false)) by reflexivity. cbn iota.
  assert (blk_finish_request ops request_fn call_end_io end_all r e
    (set_ended ((b', e) :: ended w) (set_rqs (<[r := o']> (rqs w)) w)) = Ok (tt, w3)) as Ef.
  { unfold blk_finish_request. erewrite st_bind_ok by (apply rq_get_ok; wcbn; apply lookup_insert_eq). rewrite Q4.
    erewrite (st_bind_ok (when _ _)) by reflexivity.
    erewrite st_bind_ok by (apply on_links_read; apply (list_empty_spec _ _ _ Hself)).
    rewrite bool_decide_true by done. erewrite (st_bind_ok (bug_on _)) by reflexivity.
    erewrite st_bind_ok by (apply on_links_ok; exact Eh).
    erewrite st_bind_ok by (apply rq_get_ok; wcbn; apply lookup_insert_eq). rewrite Q1, Q2.
    erewrite (st_bind_ok (mret tt)) by reflexivity. unfold __blk_put_request.
    erewrite st_bind_ok by (apply rq_upd_ok; wcbn; apply lookup_insert_eq). wcbn. rewrite insert_insert_eq.
    erewrite st_bind_ok by (apply rq_get_ok; wcbn; apply lookup_insert_eq). cbn [ref_count set_ref_count].
    assert ((s32 (ref_count o' - 1) =? 0) = true) as -> by (by rewrite Q3). cbn [negb].
    erewrite st_bind_ok; [exact Ep|]. unfold elv_completed_request.
    erewrite st_bind_ok by (apply rq_get_ok; wcbn; apply lookup_insert_eq).
    fold o2. assert (blk_account_rq o2 = false) as ->.
    { unfold blk_account_rq. change (blk_rq_started o2) with (blk_rq_started o'). by rewrite Q5. }
    erewrite (st_bind_ok (when _ _)) by reflexivity. erewrite (st_bind_ok q_get) by reflexivity. wcbn.
    rewrite Hz. done. }
  unfold mbind, st_bind at 1 2. by rewrite Ef.
Qed.

(** *** Starting the sequence *)

(** Unless [c], the step is skipped. *)
Definition stage_skip (c : bool) (r : rqid) (skip : Z) : Z := if c then skip else Z.lor skip (step_seq r).
Definition stage_todo (c : bool) (r : rqid) (todo : list rqid) : list rqid := if c then r :: todo else todo.

Lemma stage_step (c : bool) (m : ST (world D) unit) w todo l r o skip x b :
  o = head todo → staging w todo l → barrier_ready w x todo b →
  (c = true → ∃ w', m w = Ok (tt, w') ∧ staging w' (r :: todo) l ∧ queue w' = queue w ∧
     ended w' = ended w ∧ barrier_ready w' x (r :: todo) b) →
  ∃ w', (if c then m;; mret (Some r, skip) else mret (o, Z.lor skip (step_seq r))) w
      = Ok ((head (stage_todo c r todo), stage_skip c r skip), w') ∧
    staging w' (stage_todo c r todo) l ∧ queue w' = queue w ∧ ended w' = ended w ∧
    barrier_ready w' x (stage_todo c r todo) b.
Proof.
  intros -> H HP Hm. destruct c; [|by exists w].
  destruct Hm as (w' & E & H1 & H2 & H3 & H4); [done|]. exists w'. by rewrite (st_bind_ok _ _ _ _ _ E).
Qed.

Lemma skip_seq (pre bar post : bool) :
  let skip := Z.lor (stage_skip pre pre_flush_rq (stage_skip bar bar_rq (stage_skip post post_flush_rq 0)))
                QUEUE_ORDSEQ_DRAIN in
  let todo := stage_todo pre pre_flush_rq (stage_todo bar bar_rq (stage_todo post post_flush_rq [])) in
  tst QUEUE_ORDSEQ_STARTED skip = false ∧ Z.lor QUEUE_ORDSEQ_STARTED skip = seq_left todo ∧
  seq_left todo ≠ 0 ∧ (todo ≠ [] → (cur_of (seq_left todo) =? QUEUE_ORDSEQ_DONE) = false).
Proof. destruct pre, bar, post; split_and!; vm_compute; congruence. Qed.

Lemma steps_of_stage ord : steps_of ord
  = stage_todo (tst ord QUEUE_ORDERED_DO_PREFLUSH) pre_flush_rq
      (stage_todo (tst ord QUEUE_ORDERED_DO_BAR) bar_rq
        (stage_todo (tst ord QUEUE_ORDERED_DO_POSTFLUSH) post_flush_rq [])).
Proof. unfold steps_of. by destruct (tst ord _), (tst ord _), (tst ord _). Qed.

(** A barrier request [r] with the bio [b] is the first of the dispatch queue, and
    no sequence is in progress. *)
Record barrier_head w (r : rqid) (rest : list rqid) (rq : request) (b : bio) : Prop := {
  bh_stage : staging w [] (r :: rest);
  bh_rq : rqs w !! r = Some rq ∧ bios rq = [b] ∧ bi_size b = blk_rq_bytes rq ∧ quiet_rq rq;
  bh_kind : blk_fs_request rq = true ∧ blk_barrier_rq rq = true;
  bh_bio : 0 ≤ bi_size b < 2 ^ 31 ∧ bio_rw_flagged b BIO_RW_DISCARD = false ∧
    test_bit BIO_UPTODATE (bi_flags b) = true;
  bh_own : ∀ r' rq', r' ≠ r → rqs w !! r' = Some rq' → bi_id b ∉ chain_ids (bios rq');
  bh_timer : is_list (links w) (timeout_list r) [];
  bh_hash : ELV_ON_HASH r (hash w) = false;
  bh_seq : ordseq (queue w) = 0;
  bh_conf : prep_rq_fn (conf (queue w)) = None ∧ dma_drain_size (conf (queue w)) = 0 ∧
    rq_timed_out_fn (conf (queue w)) = None
}.
Definition mode (q : request_queue) (rq : request) : Z :=
  ordered_for (blk_rq_sectors rq =? 0) (next_ordered q).

Lemma dequeue_barrier w r rest rq b q :
  barrier_head w r rest rq b → queue_flags q = queue_flags (queue w) →
  ∃ h, blk_dequeue_request r (set_queue q w) = Ok (tt, set_links h (set_queue q w)) ∧
    staging (set_links h (set_queue q w)) [] rest ∧ barrier_ready (set_links h (set_queue q w)) r [] b ∧
    r ∉ embedded ∧ r ∉ rest.
Proof.
  intros [S (B1 & B2 & B3 & B4) _ _ Own Tm B5 _ _] Hq.
  assert (r ∉ embedded) as Hre.
  { intros Hr. destruct (sg_emb _ _ _ S r Hr) as (_ & _ & _ & Hn & _). apply Hn. by left. }
  destruct S as [S1 S2 S3 S4].
  assert (r ∉ rest) as Hrr.
  { destruct S1 as [[_ Hnd]%NoDup_cons _]. apply NoDup_cons in Hnd as [Hnd _]. intros Hr. apply Hnd.
    by apply (list_elem_of_fmap_2 queuelist). }
  destruct (blk_dequeue_request_ok (set_queue q w) queue_head [] (fmap (M:=list) queuelist rest) r rq S1 B5 B1)
    as (h & E & L1 & L2 & F).
  exists h. split.
  { rewrite E. unfold started, blk_account_rq. destruct B4 as (_ & _ & _ & _ & ->). cbn. by destruct w. }
  split; [|split; [|done]].
  - split; wcbn; [done|by intros ? ?%not_elem_of_nil| |].
    + intros s Hs. destruct (S3 s Hs) as (R1 & R2 & R3 & R4 & R5).
      assert (s ∉ rest) by (by apply not_elem_of_cons in R4 as [_ ?]).
      split_and!; try done; by eapply frame_mapped.
    + unfold blk_queue_plugged in *. by rewrite Hq.
  - split; wcbn; [by exists rq, b|by intros; eapply Own|done| |done].
    eapply touched_self_linked; [done..|]. cbn. rewrite !not_elem_of_cons. split_and!; try done.
    intros (? & ? & ?)%list_elem_of_fmap. done.
Qed.

Definition skip_of (ord : Z) : Z :=
  stage_skip (tst ord QUEUE_ORDERED_DO_PREFLUSH) pre_flush_rq
    (stage_skip (tst ord QUEUE_ORDERED_DO_BAR) bar_rq
      (stage_skip (tst ord QUEUE_ORDERED_DO_POSTFLUSH) post_flush_rq 0)).

Lemma flush_stage w todo l r x b which :
  prepares_flush → staging w todo l → barrier_ready w x todo b → r ∉ todo → x ∉ todo → x ∉ l → r ≠ x →
  is_Some (prepare_flush_fn (conf (queue w))) →
  (which, r) ∈ [(QUEUE_ORDERED_DO_PREFLUSH, pre_flush_rq); (QUEUE_ORDERED_DO_POSTFLUSH, post_flush_rq)] →
  ∃ w', queue_flush ops request_fn call_prepare_flush which w = Ok (tt, w') ∧ staging w' (r :: todo) l ∧
    queue w' = queue w ∧ ended w' = ended w ∧ barrier_ready w' x (r :: todo) b.
Proof.
  intros Hp S B Hn Hx Hl Hne Hf Hw. destruct (queue_flush_ok w todo l which r b Hp S Hn Hf Hw) as (w' & E & S' & Q).
  exists w'. split_and!; try done; [apply Q..|]. eapply barrier_queued; try done.
  by intros [?|?]%elem_of_app.
Qed.
Lemma bar_stage w todo l x b :
  staging w todo l → barrier_ready w x todo b → bar_rq ∉ todo → x ∉ todo → x ∉ l → bar_rq ≠ x →
  0 ≤ bi_size b < 2 ^ 31 → bio_rw_flagged b BIO_RW_DISCARD = false →
  ∃ w', queue_bar ops request_fn x w = Ok (tt, w') ∧ staging w' (bar_rq :: todo) l ∧
    queue w' = queue w ∧ ended w' = ended w ∧ barrier_ready w' x (bar_rq :: todo) b.
Proof.
  intros S B Hn Hx Hl Hne Hsz Hd. destruct (br_rq _ _ _ _ B) as (o & b' & R1 & R2 & R3 & _).
  pose proof R3 as (I1 & I2 & I3 & I4).
  destruct (queue_bar_ok w todo l x o b' S) as (w' & E & S' & Q); try done; [by rewrite I2| |].
  { unfold bio_rw_flagged in *. by rewrite I3. }
  exists w'. split_and!; try done; [apply Q..|]. apply (barrier_queued w w' x todo b bar_rq (todo ++ l)); try done.
  - destruct Q as (Q1 & Q2 & Q3 & Qh & ob & rq' & Q4 & Q5). split_and!; try done. exists ob, rq'. split; [done|].
    intros c Hc. destruct (Q5 c Hc) as (J1 & J2 & J3 & J4). unfold same_bio. split_and!; congruence.
  - by intros [?|?]%elem_of_app.
Qed.

Lemma queue_steps_ok w r rest b ord :
  prepares_flush → staging w [] rest → barrier_ready w r [] b → r ∉ embedded → r ∉ rest →
  0 ≤ bi_size b < 2 ^ 31 → bio_rw_flagged b BIO_RW_DISCARD = false →
  is_Some (prepare_flush_fn (conf (queue w))) →
  ∃ w', queue_steps ops request_fn call_prepare_flush r ord w = Ok ((head (steps_of ord), skip_of ord), w') ∧
    staging w' (steps_of ord) rest ∧ queue w' = queue w ∧ ended w' = ended w ∧
    barrier_ready w' r (steps_of ord) b.
Proof.
  intros Hp S2 B2 Hre Hrr Hsz Hd Hf. unfold queue_steps.
  assert (r ≠ pre_flush_rq ∧ r ≠ bar_rq ∧ r ≠ post_flush_rq) as (N1 & N2 & N3) by (unfold embedded in Hre; set_solver).
  set (c1 := tst ord QUEUE_ORDERED_DO_POSTFLUSH). set (t1 := stage_todo c1 post_flush_rq []).
  set (c2 := tst ord QUEUE_ORDERED_DO_BAR). set (t2 := stage_todo c2 bar_rq t1).
  assert (r ∉ t1 ∧ bar_rq ∉ t1 ∧ r ∉ t2 ∧ pre_flush_rq ∉ t2) as (T1 & T2 & T3 & T4)
    by (unfold t2, t1; destruct c1, c2; cbn; set_solver).
  destruct (stage_step c1 (queue_flush ops request_fn call_prepare_flush QUEUE_ORDERED_DO_POSTFLUSH)
    w [] rest post_flush_rq None 0 r b eq_refl S2 B2) as (w3 & E3 & S3 & Q3 & L3 & B3).
  { intros _. apply flush_stage; try done; [apply not_elem_of_nil..|]. right; left. }
  rewrite (st_bind_ok _ _ _ _ _ E3).
  destruct (stage_step c2 (queue_bar ops request_fn r) w3 t1 rest bar_rq _
    (stage_skip c1 post_flush_rq 0) r b eq_refl S3 B3) as (w4 & E4 & S4 & Q4 & L4 & B4).
  { intros _. by apply bar_stage. }
  rewrite (st_bind_ok _ _ _ _ _ E4).
  destruct (stage_step (tst ord QUEUE_ORDERED_DO_PREFLUSH)
    (queue_flush ops request_fn call_prepare_flush QUEUE_ORDERED_DO_PREFLUSH) w4 t2 rest pre_flush_rq _
    (stage_skip c2 bar_rq (stage_skip c1 post_flush_rq 0)) r b eq_refl S4 B4) as (w5 & E5 & S5 & Q5 & L5 & B5).
  { intros _. apply flush_stage; try done; [by rewrite Q4, Q3|]. left. }
  exists w5. rewrite steps_of_stage. split; [exact E5|]. split_and!; try done; congruence.
Qed.

Lemma complete_skipped w todo ord end_all :
  todo = steps_of ord → todo ≠ [] → ordseq (queue w) = QUEUE_ORDSEQ_STARTED → orderr (queue w) = 0 →
  blk_ordered_complete_seq end_all (Z.lor (skip_of ord) QUEUE_ORDSEQ_DRAIN) 0 w
  = Ok (false, set_queue (set_ordseq (seq_now todo) (queue w)) w).
Proof.
  intros -> Ht Hs He. destruct (skip_seq (tst ord QUEUE_ORDERED_DO_PREFLUSH) (tst ord QUEUE_ORDERED_DO_BAR)
    (tst ord QUEUE_ORDERED_DO_POSTFLUSH)) as (K1 & K2 & K3 & K4).
  rewrite <-steps_of_stage in K2, K3, K4. fold (skip_of ord) in K1, K2. specialize (K4 Ht).
  unfold blk_ordered_complete_seq, seq_now. rewrite bool_decide_false by done.
  erewrite (st_bind_ok q_get) by reflexivity. erewrite (st_bind_ok (when _ _)) by reflexivity.
  erewrite (st_bind_ok q_get) by reflexivity. rewrite Hs, K1. erewrite (st_bind_ok (bug_on _)) by reflexivity.
  erewrite (st_bind_ok (q_upd _)) by reflexivity. erewrite (st_bind_ok q_get) by reflexivity. wcbn.
  rewrite Hs, K2. unfold blk_ordered_cur_seq. cbn [ordseq set_ordseq].
  destruct (Z.eqb_spec (seq_left (steps_of ord)) 0); [done|].
  fold (cur_of (seq_left (steps_of ord))). by rewrite K4.
Qed.

Lemma start_ordered_ok w r rest rq b :
  prepares_flush → barrier_head w r rest rq b →
  let todo := steps_of (mode (queue w) rq) in
  todo ≠ [] → (tst (mode (queue w) rq) QUEUE_ORDERED_BY_DRAIN = true → queue_in_flight (queue w) = 0) →
  is_Some (prepare_flush_fn (conf (queue w))) →
  ∃ w', start_ordered ops request_fn call_end_io call_prepare_flush r w = Ok ((head todo, true), w') ∧
    ended w' = ended w ∧ ord_state w' todo rest r 0 ∧ barrier_ready w' r todo b.
Proof.
  intros Hp B todo Htodo Hdrain Hprep.
  pose proof B as [_ (B1 & _) _ (B4 & B4' & _) _ _ _ B6 B7]. unfold start_ordered.
  do 3 (erewrite (st_bind_ok (q_upd _)) by reflexivity). wcbn.
  erewrite st_bind_ok by (apply rq_get_ok; exact B1). erewrite (st_bind_ok (q_upd _)) by reflexivity. wcbn.
  set (q1 := set_ordered _ _).
  destruct (dequeue_barrier w r rest rq b q1 B eq_refl) as (h & Ed & S0 & R0 & Hre & Hrr).
  rewrite (st_bind_ok _ _ _ _ _ Ed). erewrite (st_bind_ok (q_upd _)) by reflexivity. wcbn.
  set (q2 := set_orig_bar_rq (Some r) q1). erewrite (st_bind_ok q_get) by reflexivity. wcbn.
  change (ordered q2) with (mode (queue w) rq). set (ord := mode (queue w) rq) in *.
  set (w2 := set_queue q2 _).
  destruct (queue_steps_ok w2 r rest b ord Hp) as (w5 & E5 & S5 & Q5 & L5 & R5); try done;
    [by apply (staging_queue _ _ _ q2 S0)|by destruct R0|].
  rewrite (st_bind_ok _ _ _ _ _ E5). fold todo in S5, R5 |- *. erewrite (st_bind_ok q_get) by reflexivity.
  change (queue w2) with q2 in Q5. rewrite Q5.
  assert (tst ord QUEUE_ORDERED_BY_DRAIN && negb (queue_in_flight q2 =? 0) = false) as ->.
  { change (queue_in_flight q2) with (queue_in_flight (queue w)).
    destruct (tst ord QUEUE_ORDERED_BY_DRAIN); [|done]. by rewrite Hdrain. }
  assert (ordseq q2 = QUEUE_ORDSEQ_STARTED) as Es by (cbn; by rewrite B6).
  erewrite st_bind_ok by (apply (complete_skipped w5 todo ord); rewrite ?Q5; done).
  eexists. split; [reflexivity|]. rewrite Q5. split; [done|]. split; [|by destruct R5].
  destruct S5 as [T1 T2 T3 T4]. split; wcbn; try done. apply steps_of_lists.
Qed.

(** *** A driver that serves the sequence *)

(** The driver takes the next request and completes it with the error [e], for
    each [e] in turn; the requests it was given. *)
Fixpoint serve (errs : list Z) : ST (world D) (list rqid) :=
  match errs with
  | [] => mret []
  | e :: errs =>
    r ← blk_fetch_request ops request_fn call_end_io call_prepare_flush call_prep_rq this_cpu;
    match r with
    | None => mret []
    | Some r =>
      __blk_end_request_all ops request_fn call_end_io r e;;
      l ← serve errs;
      mret (r :: l)
    end
  end.

Lemma serve_steps errs : puts_own_data → ∀ w w0 h t rest r b err,
  __elv_next_request ops request_fn call_end_io call_prepare_flush w0 = Ok (Some h, w) →
  ord_state w (h :: t) rest r err → barrier_ready w r (h :: t) b → r ∉ embedded → r ∉ rest →
  0 ≤ bi_size b < 2 ^ 31 → test_bit BIO_UPTODATE (bi_flags b) = true →
  length errs = length (h :: t) →
  ∃ w3 b', serve errs w0 = Ok (h :: t, w3) ∧ bi_id b' = bi_id b ∧
    ended w3 = (b', foldl first_err err errs) :: ended w ∧
    ordseq (queue w3) = 0 ∧ is_list (links w3) queue_head (queuelist <$> rest).
Proof.
  intros Hput.
  induction errs as [|e errs IH]; intros w w0 h t rest r b err En H B Hre Hrr Hsz Hu Hlen; [done|].
  destruct (ordered_step w w0 h t rest r err (end_all_rec ops request_fn call_end_io 2) e En H)
    as (w1 & w2 & E1 & E2 & L2 & Eh & H2 & (rq' & Er & Hb) & F).
  destruct (seq_step h t (os_steps _ _ _ _ _ H)) as (_ & _ & _ & _ & _ & _ & Hin & _ & Hh & _).
  assert (h ≠ r ∧ r ≠ bar_rq ∧ r ∉ t) as (Hhr & Hbar & Hrt).
  { unfold embedded in Hre. split_and!; [by intros ->; destruct Hh as [->|[->| ->]]; set_solver|set_solver|].
    unfold step_lists in Hin. set_unfold in Hin. naive_solver set_solver. }
  assert (barrier_ready w2 r t b) as B2.
  { eapply (barrier_done w w2 r h t b rq' (t ++ rest)); try done. by intros [?|?]%elem_of_app. }
  cbn [foldl]. destruct t as [|h' t].
  - destruct errs as [|e' errs]; [|done]. cbn [when foldl] in E2 |- *. rewrite bool_decide_true in E2 by done.
    destruct (end_barrier w2 r b (first_err err e) (end_all_rec ops request_fn call_end_io 1) rest Hput
      (os_list _ _ _ _ _ H2) Hrr Hbar B2 Hsz Hu) as (w3 & b' & Ee & I & L & Q & Hl); [apply H2|].
    exists w3, b'. rewrite L, L2. split; [|done]. cbn [serve]. rewrite (st_bind_ok _ _ _ _ _ E1).
    assert (__blk_end_request_all ops request_fn call_end_io h e w1 = Ok (tt, w3)) as E3
      by (etransitivity; [exact E2|exact Ee]).
    rewrite (st_bind_ok _ _ _ _ _ E3). done.
  - rewrite bool_decide_false in E2 by done. cbn [when] in E2.
    destruct (IH w2 w2 h' t rest r b (first_err err e)) as (w4 & b' & Es & I & L & Q & Hl); try done.
    { eapply next_head; [apply H2|]. by eapply do_ordered_step. }
    { cbn in Hlen |- *. lia. }
    exists w4, b'. rewrite L, L2. split; [|done]. cbn [serve].
    rewrite (st_bind_ok _ _ _ _ _ E1).
    assert (__blk_end_request_all ops request_fn call_end_io h e w1 = Ok (tt, w2)) as E3 by exact E2.
    rewrite (st_bind_ok _ _ _ _ _ E3). by rewrite (st_bind_ok _ _ _ _ _ Es).
Qed.

Lemma barrier_first w r rest rq b :
  prepares_flush → barrier_head w r rest rq b →
  let todo := steps_of (mode (queue w) rq) in
  todo ≠ [] → (tst (mode (queue w) rq) QUEUE_ORDERED_BY_DRAIN = true → queue_in_flight (queue w) = 0) →
  is_Some (prepare_flush_fn (conf (queue w))) →
  ∃ w', __elv_next_request ops request_fn call_end_io call_prepare_flush w = Ok (head todo, w') ∧
    ended w' = ended w ∧ ord_state w' todo rest r 0 ∧ barrier_ready w' r todo b.
Proof.
  intros Hp B todo Htodo Hdrain Hprep.
  destruct (start_ordered_ok w r rest rq b Hp B Htodo Hdrain Hprep) as (w' & E & H). exists w'. split; [|done].
  destruct B as [S (B1 & _) (B3 & B3') _ _ _ _ B6 _]. eapply next_head; [apply S|].
  unfold blk_do_ordered. erewrite st_bind_ok by (apply rq_get_ok; exact B1).
  erewrite (st_bind_ok q_get) by reflexivity. rewrite B6, B3, B3'. cbn [negb andb Z.eqb].
  destruct (Z.eqb_spec (next_ordered (queue w)) QUEUE_ORDERED_NONE) as [E0|]; [|exact E].
  destruct Htodo. unfold todo, mode, ordered_for. rewrite E0. by destruct (blk_rq_sectors rq =? 0).
Qed.
End sequence.

(** C1: A barrier at the head of a drained queue is carried out as its mode says:
    the driver is given the cache flush, the write and the second flush, as far as
    the mode has them, one after the other and in this order, and nothing else
    until they are done; when the last one is completed the bio of the barrier is
    ended, exactly once, with the first error any step met, the sequence is over
    and the requests behind the barrier are next.  The scheduler's hook for a
    request that is released may change its own data; the queue has no
    [prep_rq_fn], drain buffer or [rq_timed_out_fn]. *)
Theorem barrier_sequence {D} (ops : elevator_ops D) request_fn call_end_io call_prepare_flush call_prep_rq
    this_cpu (w : world D) r rest rq b errs :
  puts_own_data ops → prepares_flush call_prepare_flush → barrier_head w r rest rq b →
  let todo := steps_of (mode (queue w) rq) in
  todo ≠ [] → (tst (mode (queue w) rq) QUEUE_ORDERED_BY_DRAIN = true → queue_in_flight (queue w) = 0) →
  is_Some (prepare_flush_fn (conf (queue w))) → length errs = length todo →
  ∃ w' b', serve ops request_fn call_end_io call_prepare_flush call_prep_rq this_cpu errs w = Ok (todo, w') ∧
    bi_id b' = bi_id b ∧ ended w' = (b', foldl first_err 0 errs) :: ended w ∧
    ordseq (queue w') = 0 ∧ is_list (links w') queue_head (queuelist <$> rest).
Proof.
  intros Hput Hp B todo Htodo Hdrain Hprep Hlen.
  destruct (barrier_first ops request_fn call_end_io call_prepare_flush call_prep_rq w r rest rq b Hp B Htodo
    Hdrain Hprep)
    as (w' & E & L & H & R). fold todo in E, H, R.
  destruct (dequeue_barrier w r rest rq b (queue w) B eq_refl) as (_ & _ & _ & _ & Hre & Hrr).
  destruct B as [_ _ _ (Hsz & _ & Hu) _ _ _ _ _]. destruct todo as [|h t]; [done|]. rewrite <-L.
  eapply serve_steps; done.
Qed.

(** A write barrier of one page in front of a read, on a queue with a write-back
    cache; the driver turns the flushes into packet commands. *)
Definition barrier_bio : bio := set_bi_rw (Z.lor 1 (Z.shiftl 1 BIO_RW_BARRIER)) (page_bio 1 0).
Definition barrier_rq : request :=
  set_cmd_flags (Z.lor REQ_RW REQ_HARDBARRIER) (set_bios [barrier_bio] (sample_rq 1 0 8)).
Definition flush_command (_ : positive) (r : rqid) : ST (world unit) unit :=
  rq_upd r (set_cmd_type REQ_TYPE_BLOCK_PC).
Definition barrier_world : world unit :=
  {| rqs := {[ Rq 1 := barrier_rq; Rq 2 := set_bios [page_bio 2 8] (sample_rq 0 8 8); pre_flush_rq := zero_rq;
               bar_rq := zero_rq; post_flush_rq := zero_rq ]};
     links := ring_heap queue_head [queuelist (Rq 1); queuelist (Rq 2)] ∪
              list_to_map (self_linked <$> [timeout_list (Rq 1); queuelist pre_flush_rq; queuelist bar_rq;
                queuelist post_flush_rq; timeout_list pre_flush_rq; timeout_list bar_rq; timeout_list post_flush_rq]);
     hash := [];
     queue := set_next_ordered QUEUE_ORDERED_DRAIN_FLUSH
                (set_conf (set_prepare_flush_fn (Some 1%positive) sample_conf) sample_queue);
     elevator_data := tt; jiffies := 0; kblockd := 0; ended := []; irqs := [] |}.

Lemma flush_command_ok : prepares_flush flush_command.
Proof.
  intros f r w rq Hr. eexists. split; [apply rq_upd_ok; exact Hr|]. done.
Qed.

Lemma barrier_world_head :
  barrier_head barrier_world (Rq 1) [Rq 2] barrier_rq barrier_bio.
Proof.
  split.
  - split; [by apply (bool_decide_eq_true_1 _); vm_compute|by intros ? ?%not_elem_of_nil| |reflexivity].
    intros s Hs. unfold embedded in Hs.
    repeat (apply elem_of_cons in Hs as [->|Hs]; [split_and!;
      [by eexists|by eexists|by eexists|by apply (bool_decide_eq_true_1 _)|reflexivity]|]).
    by apply not_elem_of_nil in Hs.
  - repeat split.
  - split; reflexivity.
  - split_and!; [done|done|reflexivity|reflexivity].
  - intros r' rq' Hne Hr'. cbn in Hr'.
    repeat (apply lookup_insert_Some in Hr' as [[<- <-]|[_ Hr']];
      [first [done|by apply (bool_decide_eq_true_1 _)]|]).
    apply lookup_singleton_Some in Hr' as [<- <-]. by apply (bool_decide_eq_true_1 _).
  - by apply (bool_decide_eq_true_1 _); vm_compute.
  - reflexivity.
  - reflexivity.
  - split_and!; reflexivity.
Qed.

Lemma no_put_hook : puts_own_data (D:=unit) no_ops.
Proof. intros r w. exists (elevator_data w). by destruct w. Qed.

Lemma barrier_sequence_witness :
  ∃ w' b', serve no_ops (mret tt) (λ _ _ _, mret tt) flush_command (λ _ _, mret 0) 0 [0; - EIO; 0] barrier_world
      = Ok ([pre_flush_rq; bar_rq; post_flush_rq], w') ∧
    bi_id b' = 1%positive ∧ ended w' = [(b', - EIO)] ∧
    ordseq (queue w') = 0 ∧ is_list (links w') queue_head [queuelist (Rq 2)].
Proof.
  apply (barrier_sequence no_ops (mret tt) (λ _ _ _, mret tt) flush_command (λ _ _, mret 0) 0 barrier_world
    (Rq 1) [Rq 2] barrier_rq barrier_bio [0; - EIO; 0] no_put_hook flush_command_ok barrier_world_head).
  - done.
  - reflexivity.
  - by eexists.
  - reflexivity.
Defined.

Lemma land_bit f n : 0 ≤ n → Z.land f (2 ^ n) = if Z.testbit f n then 2 ^ n else 0.
Proof.
  intros Hn. apply Z.bits_inj'. intros i Hi. rewrite Z.land_spec, Z.pow2_bits_eqb by lia.
  destruct (Z.eqb_spec n i) as [<-|Hne].
  - rewrite andb_true_r. destruct (Z.testbit f n) eqn:E; [|by rewrite Z.bits_0].
    by rewrite Z.pow2_bits_eqb, Z.eqb_refl by lia.
  - rewrite andb_false_r. destruct (Z.testbit f n); [|by rewrite Z.bits_0].
    rewrite Z.pow2_bits_eqb by lia. by destruct (Z.eqb_spec n i).
Qed.

(** While a sequence ordered by draining is in progress, a file system request is
    handed out when it has the colour of the barrier, and is held back otherwise. *)
Lemma do_ordered_gate {D} (ops : elevator_ops D) request_fn call_end_io call_prepare_flush
    (w : world D) p rq o orig :
  rqs w !! Rq p = Some rq → blk_fs_request rq = true → orig_bar_rq (queue w) = Some o →
  rqs w !! o = Some orig → tst (ordered (queue w)) QUEUE_ORDERED_BY_TAG = false →
  tst (ordseq (queue w)) QUEUE_ORDSEQ_STARTED = true → 0 ≤ ordseq (queue w) < 0x1f →
  blk_do_ordered ops request_fn call_end_io call_prepare_flush (Rq p) w
  = Ok ((if eqb (tst (cmd_flags rq) REQ_ORDERED_COLOR) (tst (cmd_flags orig) REQ_ORDERED_COLOR)
         then Some (Rq p) else None, true), w).
Proof.
  intros Hr Hfs Ho Horig Htag Hst Hseq. unfold blk_do_ordered.
  erewrite st_bind_ok by (apply rq_get_ok; exact Hr). erewrite (st_bind_ok q_get) by reflexivity.
  assert (ordseq (queue w) ≠ 0 ∧ QUEUE_ORDSEQ_DRAIN ≤ cur_of (ordseq (queue w)) < QUEUE_ORDSEQ_DONE) as [Hz Hcur].
  { revert Hst Hseq. generalize (ordseq (queue w)). intros s Hst Hs.
    assert (Forall (λ s, tst s QUEUE_ORDSEQ_STARTED = true →
      s ≠ 0 ∧ QUEUE_ORDSEQ_DRAIN ≤ cur_of s < QUEUE_ORDSEQ_DONE) (seqZ 0 0x1f)) as Hall.
    { apply (bool_decide_eq_true_1 _). vm_compute. reflexivity. }
    rewrite Forall_forall in Hall. apply Hall; [|done]. apply elem_of_seqZ. lia. }
  destruct (Z.eqb_spec (ordseq (queue w)) 0); [done|]. rewrite Hfs, Htag. cbn [negb andb].
  erewrite (st_bind_ok (gets _)) by reflexivity. unfold blk_ordered_req_seq.
  destruct (Z.eqb_spec (ordseq (queue w)) 0); [done|]. rewrite Hfs, Ho. cbn [negb deref mbind res_bind]. rewrite Horig.
  cbn [deref mbind res_bind].
  unfold blk_ordered_cur_seq. destruct (Z.eqb_spec (ordseq (queue w)) 0); [done|].
  fold (cur_of (ordseq (queue w))).
  assert (∀ f, Z.land f REQ_ORDERED_COLOR = if tst f REQ_ORDERED_COLOR then REQ_ORDERED_COLOR else 0) as Hc.
  { intros f. unfold tst. change REQ_ORDERED_COLOR with (2 ^ 17). rewrite land_bit by done.
    by destruct (Z.testbit f 17). }
  rewrite !Hc. destruct (tst (cmd_flags rq) REQ_ORDERED_COLOR), (tst (cmd_flags orig) REQ_ORDERED_COLOR);
    cbn [Z.eqb eqb Pos.eqb]; (erewrite (st_bind_ok (lift _)) by reflexivity);
    unfold QUEUE_ORDSEQ_DRAIN, QUEUE_ORDSEQ_DONE in *;
    lazymatch goal with |- context [?x >? ?y] => destruct (Z.gtb_spec x y) end; first [done|lia].
Qed.
