(* ===== verification/Colour.v ===== *)
(** * The colour of the requests around a barrier ([block/elevator.c],
    [block/blk-barrier.c])

    [__elv_add_request] gives each request the colour the queue has, and a
    barrier turns the colour of the queue.  [blk_do_ordered] compares colours to
    tell the requests in front of a barrier from those behind it.  This file
    relates the colours to the order in which the requests were added. *)

From S2P Require Import Prelude KList Request Samples Elevator Iosched Settings Segments ReqList Softirq.
From S2P Require Import Timeout Tags Complete Noop Dispatch Barrier.

Local Open Scope Z_scope.

Definition colour (rq : request) : bool := tst (cmd_flags rq) REQ_ORDERED_COLOR.

(** ** Code that leaves the colours alone *)
Section keeping.
Context {D : Type}.
Implicit Types (w : world D) (r : rqid).

(** The colour of the queue and of the requests is the same, and no request is
    new. *)
Definition colours_kept w w' : Prop :=
  ordcolor (queue w') = ordcolor (queue w) ∧
  ∀ r rq', rqs w' !! r = Some rq' → ∃ rq, rqs w !! r = Some rq ∧ colour rq' = colour rq.

#[export] Instance colours_kept_preorder : PreOrder colours_kept.
Proof.
  split.
  - intros w. split; [done|]. by intros r rq Hr; exists rq.
  - intros w1 w2 w3 [C1 H1] [C2 H2]. split; [congruence|]. intros r rq Hr.
    destruct (H2 r rq Hr) as (rq2 & Hr2 & E2). destruct (H1 r rq2 Hr2) as (rq1 & Hr1 & E1).
    exists rq1. split; congruence.
Qed.

Definition keeps {A} (m : ST (world D) A) : Prop := ∀ w a w', m w = Ok (a, w') → colours_kept w w'.

Lemma same_kept w w' : ordcolor (queue w') = ordcolor (queue w) → rqs w' = rqs w → colours_kept w w'.
Proof. intros Hq Hr. split; [done|]. rewrite Hr. by intros r rq Hrq; exists rq. Qed.

Lemma keeps_ret {A} (a : A) : keeps (mret a).
Proof. intros w b w' [= _ <-]. reflexivity. Qed.
Lemma keeps_bind {A B} (m : ST (world D) A) (f : A → ST (world D) B) :
  keeps m → (∀ a, keeps (f a)) → keeps (m ≫= f).
Proof. intros Hm Hf w b w' (a & w1 & E1 & E2)%st_bind_inv. etransitivity; [by eapply Hm|by eapply Hf]. Qed.
Lemma keeps_gets {A} (f : world D → A) : keeps (gets f).
Proof. intros w a w' [= _ <-]. reflexivity. Qed.
Lemma keeps_get : keeps get.
Proof. intros w a w' [= _ <-]. reflexivity. Qed.
Lemma keeps_raise {A} e : keeps (raise (A:=A) e).
Proof. by intros w a w'. Qed.
Lemma keeps_lift {A} (x : res A) : keeps (lift x).
Proof. intros w a w'. unfold lift. destruct x; [|done]. intros [= _ <-]. reflexivity. Qed.
Lemma keeps_deref {A B} (o : option A) (f : A → ST (world D) B) :
  (∀ a, o = Some a → keeps (f a)) → keeps (lift (deref o) ≫= f).
Proof. intros Hf. destruct o as [a|]; [|by intros w b w']. intros w b w'. apply (Hf a eq_refl). Qed.
Lemma keeps_bug_on b : keeps (bug_on b).
Proof. destruct b; [apply keeps_raise|apply keeps_ret]. Qed.
Lemma keeps_when (b : bool) m : keeps m → keeps (when b m).
Proof. intros Hm. destruct b; [done|apply keeps_ret]. Qed.
Lemma keeps_modify f : (∀ w, ordcolor (queue (f w)) = ordcolor (queue w) ∧ rqs (f w) = rqs w) → keeps (modify f).
Proof. intros Hf w a w' [= _ <-]. by apply same_kept; apply Hf. Qed.
Lemma keeps_q_upd f : (∀ q, ordcolor (f q) = ordcolor q) → keeps (q_upd f).
Proof. intros Hf. apply keeps_modify. intros w. split; [apply Hf|done]. Qed.
Lemma keeps_on_links {A} (m : ST (gmap laddr (list_head laddr)) A) : keeps (on_links m).
Proof.
  intros w a w'. unfold on_links, zoom. destruct (m (links w)) as [[? ?]|]; [|done].
  intros [= _ <-]. by apply same_kept.
Qed.
Lemma keeps_rq_get r : keeps (rq_get r).
Proof. intros w a w'. unfold rq_get. destruct (rqs w !! r); [|done]. intros [= _ <-]. reflexivity. Qed.
Lemma keeps_rq_upd r f : (∀ rq, colour (f rq) = colour rq) → keeps (rq_upd r f).
Proof.
  intros Hf w a w'. unfold rq_upd. destruct (rqs w !! r) as [rq|] eqn:E; [|done]. intros [= _ <-].
  split; [done|]. intros r' rq'. wcbn. destruct (decide (r = r')) as [<-|Hne].
  - rewrite lookup_insert_eq. intros [= <-]. by exists rq.
  - rewrite lookup_insert_ne by done. intros Hr. by exists rq'.
Qed.
Lemma keeps_flags r f : tst f REQ_ORDERED_COLOR = false →
  keeps (rq_upd r (λ rq, set_cmd_flags (Z.lor (cmd_flags rq) f) rq)).
Proof. intros Hf. apply keeps_rq_upd. intros rq. unfold colour. cbn. by rewrite tst_lor, Hf, orb_false_r. Qed.
End keeping.

Create HintDb keeps.
#[export] Hint Resolve keeps_ret keeps_gets keeps_get keeps_raise keeps_lift keeps_bug_on keeps_on_links
  keeps_rq_get : keeps.
#[export] Hint Extern 1 (keeps (rq_upd _ _)) => apply keeps_flags; reflexivity : keeps.
#[export] Hint Extern 1 (keeps (modify _)) => apply keeps_modify; done : keeps.
#[export] Hint Extern 1 (keeps (q_upd _)) => apply keeps_q_upd; reflexivity : keeps.

(** Walk through the statements of a program. *)
Ltac keep :=
  repeat first
    [ solve [auto with keeps]
    | apply keeps_deref; intros ? ?
    | apply keeps_bind; [|intros ?]
    | apply keeps_when
    | match goal with
      | |- keeps (match ?x with _ => _ end) => destruct x eqn:?
      | |- keeps (let _ := _ in _) => cbv zeta
      end ].

(** What is asked of the functions of a scheduler that adding a request calls. *)
Class KeepsColours {D} (ops : elevator_ops D) := {
  kc_dispatch : ∀ f n, elevator_dispatch_fn ops = Some f → keeps (f n);
  kc_add : ∀ f r, elevator_add_req_fn ops = Some f → keeps (f r);
  kc_empty : ∀ f, elevator_queue_empty_fn ops = Some f → keeps f
}.

Section inserting.
Context {D : Type} (ops : elevator_ops D) `{!KeepsColours ops} (request_fn : ST (world D) unit).
Hypothesis driver_keeps : keeps request_fn.

Lemma keeps_flag_set flag : keeps (D:=D) (queue_flag_set flag).
Proof. by apply keeps_q_upd. Qed.
Lemma keeps_flag_clear flag : keeps (D:=D) (queue_flag_clear flag).
Proof. by apply keeps_q_upd. Qed.
#[local] Hint Resolve driver_keeps keeps_flag_set keeps_flag_clear : keeps.

Lemma keeps_run_queue : keeps (__blk_run_queue ops request_fn).
Proof.
  assert (keeps (elv_queue_empty ops)) as He.
  { unfold elv_queue_empty. keep. by eapply kc_empty. }
  unfold __blk_run_queue, blk_remove_plug, queue_flag_test_and_clear, queue_flag_test_and_set, q_get.
  keep.
Qed.
Lemma keeps_drain : keeps (elv_drain_elevator ops).
Proof.
  unfold elv_drain_elevator. apply keeps_deref. intros f Hf. apply keeps_bind; [keep|]. intros w.
  generalize (S (size (rqs w))). intros n. induction n; cbn [drain_loop]; keep. by eapply kc_dispatch.
Qed.
Lemma keeps_insert r wher : keeps (elv_insert ops request_fn r wher).
Proof.
  pose proof keeps_run_queue. pose proof keeps_drain.
  assert (∀ r, keeps (elv_rqhash_add (D:=D) r)) by (intros; unfold elv_rqhash_add; keep).
  assert (keeps (__generic_unplug_device request_fn)).
  { unfold __generic_unplug_device, blk_remove_plug, queue_flag_test_and_clear, q_get. keep. }
  unfold elv_insert, elv_insert_front, elv_insert_back, elv_insert_sort, elv_insert_requeue, q_get. keep.
  by eapply kc_add.
Qed.
End inserting.

(** ** The order of arrival *)

Lemma snoc_inv_app_cons {A} (l l1 : list A) x y l2 :
  l ++ [x] = l1 ++ y :: l2 → (l = l1 ∧ x = y ∧ l2 = []) ∨ ∃ l2', l = l1 ++ y :: l2' ∧ l2 = l2' ++ [x].
Proof.
  destruct l2 as [|z l2 _] using rev_ind.
  - intros [-> [= ->]]%app_inj_2; [|done]. by left.
  - rewrite app_comm_cons, app_assoc. intros [-> [= ->]]%app_inj_2; [|done]. right. by exists l2.
Qed.

(** The requests added in some stretch of time, in the order they came in, and
    which of them are barriers. *)
Definition history : Type := list (rqid * bool).
Definition turns (l : history) : bool := foldr (λ e c, xorb e.2 c) false l.

Section arrivals.
Context {D : Type} (ops : elevator_ops D) (request_fn : ST (world D) unit).
Implicit Types (w : world D) (l : history).

(** Nothing but [__elv_add_request] writes the colour of the queue or of a request
    that was added. *)
Definition others_keep l w w' : Prop :=
  ordcolor (queue w') = ordcolor (queue w) ∧
  ∀ r rq', r ∈ l.*1 → rqs w' !! r = Some rq' → ∃ rq, rqs w !! r = Some rq ∧ colour rq' = colour rq.

Inductive arrivals : world D → history → Prop :=
| arrivals_start w c : ordcolor (queue w) = Z.b2z c → arrivals w []
| arrivals_add w w' l r rq wher plug :
    arrivals w l → r ∉ l.*1 → rqs w !! r = Some rq → colour rq = false →
    __elv_add_request ops request_fn r wher plug w = Ok (tt, w') →
    arrivals w' (l ++ [(r, blk_barrier_rq rq)])
| arrivals_other w w' l : arrivals w l → others_keep l w w' → arrivals w' l.

(** Each request has the colour the barriers before it make. *)
Definition coloured_since (c : bool) w l : Prop :=
  ordcolor (queue w) = Z.b2z (xorb c (turns l)) ∧
  ∀ l1 r k l2 rq, l = l1 ++ (r, k) :: l2 → rqs w !! r = Some rq → colour rq = xorb c (turns l1).

Lemma turns_app l1 l2 : turns (l1 ++ l2) = xorb (turns l1) (turns l2).
Proof.
  unfold turns. induction l1 as [|[r k] l1 IH]; [by destruct (foldr _ _ l2)|].
  cbn [foldr app]. by rewrite IH, xorb_assoc.
Qed.
Lemma turns_plain l : Forall (λ e, e.2 = false) l → turns l = false.
Proof. unfold turns. induction 1 as [|[r k] l Hk _ IH]; cbn in *; [done|]. by rewrite Hk, IH. Qed.

Lemma coloured_since_kept c w w' l : coloured_since c w l → others_keep l w w' → coloured_since c w' l.
Proof.
  intros [H1 H2] [K1 K2]. split; [by rewrite K1|]. intros l1 r k l2 rq El Hr.
  destruct (K2 r rq) as (rq0 & Hr0 & Ec); [|done|].
  { rewrite El, fmap_app. apply elem_of_app. right. by left. }
  rewrite Ec. by eapply H2.
Qed.

Lemma colours_kept_others l w w' : colours_kept w w' → others_keep l w w'.
Proof. intros [K1 K2]. split; [done|]. intros r rq' _. apply K2. Qed.

(** Up to the insertion, adding a request gives it the colour of the queue, and
    turns that for a barrier. *)
Lemma add_request_pre r wher plug w rq : rqs w !! r = Some rq →
  ∃ q wher', __elv_add_request ops request_fn r wher plug w
      = elv_insert ops request_fn r wher' (set_queue q (set_rqs (<[r := coloured (queue w) rq]> (rqs w)) w)) ∧
    ordcolor q = if blk_barrier_rq rq then Z.lxor (ordcolor (queue w)) 1 else ordcolor (queue w).
Proof.
  intros Hr. unfold __elv_add_request. set (w1 := set_rqs (<[r := coloured (queue w) rq]> (rqs w)) w).
  assert (rqs w1 !! r = Some (coloured (queue w) rq)) as Hr1 by apply lookup_insert_eq.
  assert (blk_barrier_rq (coloured (queue w) rq) = blk_barrier_rq rq) as Hb.
  { unfold coloured, blk_barrier_rq. destruct (_ =? 0); [done|]. cbn. by rewrite tst_lor, orb_false_r. }
  erewrite (st_bind_ok q_get) by reflexivity.
  assert (when (negb (ordcolor (queue w) =? 0))
    (rq_upd r (λ rq, set_cmd_flags (Z.lor (cmd_flags rq) REQ_ORDERED_COLOR) rq)) w = Ok (tt, w1)) as E1.
  { unfold w1, coloured. destruct (ordcolor (queue w) =? 0); cbn [negb when]; [|by rewrite (rq_upd_ok _ _ _ _ Hr)].
    rewrite insert_id by done. by destruct w. }
  st_step E1. st_step (rq_get_ok _ _ _ Hr1).
  set (pos := if tst _ _ then _ else _).
  assert (∃ q2 wher', pos w1 = Ok (wher', set_queue q2 w1) ∧ ordcolor q2 = if blk_barrier_rq rq
    then Z.lxor (ordcolor (queue w)) 1 else ordcolor (queue w)) as (q2 & wher' & E2 & C2).
  { unfold pos. rewrite tst_mask_lor. unfold blk_barrier_rq in *. rewrite Hb.
    destruct (tst (cmd_flags rq) REQ_HARDBARRIER) eqn:Eb; [rewrite orb_true_r|rewrite orb_false_r].
    - unfold elv_add_barrier, blk_barrier_rq. st_step (rq_get_ok _ _ _ Hr1). rewrite Hb. cbn [when].
      erewrite st_bind_ok by reflexivity.
      destruct (blk_fs_request _ || _); cbn [when]; eexists _, _; (split; [reflexivity|]); done.
    - destruct (tst _ REQ_SOFTBARRIER).
      + unfold elv_add_barrier, blk_barrier_rq. st_step (rq_get_ok _ _ _ Hr1). rewrite Hb. cbn [when].
        erewrite st_bind_ok by reflexivity. destruct (blk_fs_request _ || _); cbn [when].
        * eexists _, _. by split; [reflexivity|].
        * exists (queue w1). eexists. split; [by destruct w|done].
      + exists (queue w1). destruct (negb _ && _); eexists; (split; [by destruct w|done]). }
  st_step E2. destruct (plug_ok (set_queue q2 w1) plug) as (q3 & E3 & C3 & _). st_step E3.
  exists q3, wher'. split; [done|]. by rewrite C3.
Qed.

Lemma coloured_colour q rq c : ordcolor q = Z.b2z c → colour rq = false → colour (coloured q rq) = c.
Proof.
  unfold coloured, colour. intros -> Hc. destruct c; cbn; [|done]. by rewrite tst_lor, orb_true_r.
Qed.

Context `{!KeepsColours ops}.

Lemma coloured_since_add c w w' l r rq wher plug :
  keeps request_fn → coloured_since c w l → r ∉ l.*1 → rqs w !! r = Some rq → colour rq = false →
  __elv_add_request ops request_fn r wher plug w = Ok (tt, w') →
  coloured_since c w' (l ++ [(r, blk_barrier_rq rq)]).
Proof.
  intros Hfn [H1 H2] Hn Hr Hc Ea. destruct (add_request_pre r wher plug w rq Hr) as (q & wher' & E & Cq).
  rewrite E in Ea. eapply coloured_since_kept; [|by eapply colours_kept_others, (keeps_insert ops request_fn)].
  split; wcbn.
  - rewrite Cq, H1, turns_app. cbn. destruct (blk_barrier_rq rq), c, (turns l); done.
  - intros l1 r' k l2 rq' El Hr'. destruct (snoc_inv_app_cons l l1 (r, blk_barrier_rq rq) (r', k) l2)
      as [(-> & [= -> <-] & ->)|(l2' & -> & ->)]; [done|..].
    + rewrite lookup_insert_eq in Hr'. injection Hr' as <-. by apply coloured_colour.
    + rewrite lookup_insert_ne in Hr'; [by eapply H2|]. intros ->. apply Hn.
      rewrite fmap_app. apply elem_of_app. right. by left.
Qed.

Lemma arrivals_coloured w l : keeps request_fn → arrivals w l → ∃ c, coloured_since c w l.
Proof.
  intros Hfn. induction 1 as [w c Hw|w w' l r rq wher plug _ [c IH]|w w' l _ [c IH]].
  - exists c. split; [by rewrite xorb_false_r|]. by intros [].
  - exists c. by eapply coloured_since_add.
  - exists c. by eapply coloured_since_kept.
Qed.
End arrivals.

#[export] Instance noop_keeps_colours : KeepsColours elevator_noop.
Proof.
  split.
  - intros f n [= <-].
    assert (∀ r, keeps (elv_dispatch_sort (D:=noop_data) r)) as Hs.
    { intros r. unfold elv_dispatch_sort, elv_rqhash_del, __elv_rqhash_del, q_get. keep. }
    unfold noop_dispatch. keep.
  - intros f r [= <-]. unfold noop_add_request. keep.
  - intros f [= <-]. unfold noop_queue_empty. keep.
Qed.

Lemma behind_colour c {D} (w : world D) l1 r1 m r2 k l2 rq1 rq2 :
  coloured_since c w (l1 ++ (r1, true) :: m ++ (r2, k) :: l2) → Forall (λ e, e.2 = false) m →
  rqs w !! r1 = Some rq1 → rqs w !! r2 = Some rq2 → colour rq2 = negb (colour rq1).
Proof.
  intros [_ H] Hm H1 H2. rewrite (H l1 r1 true (m ++ (r2, k) :: l2) rq1) by done.
  rewrite (H (l1 ++ (r1, true) :: m) r2 k l2 rq2); [|by rewrite <-app_assoc|done].
  rewrite turns_app. change (turns ((r1, true) :: m)) with (negb (turns m)). rewrite (turns_plain m) by done.
  by destruct c, (turns l1).
Qed.

Lemma before_colour c {D} (w : world D) l1 r1 m r2 k l2 rq1 rq2 :
  coloured_since c w (l1 ++ (r1, false) :: m ++ (r2, k) :: l2) → Forall (λ e, e.2 = false) m →
  rqs w !! r1 = Some rq1 → rqs w !! r2 = Some rq2 → colour rq2 = colour rq1.
Proof.
  intros [_ H] Hm H1 H2. rewrite (H l1 r1 false (m ++ (r2, k) :: l2) rq1) by done.
  rewrite (H (l1 ++ (r1, false) :: m) r2 k l2 rq2); [|by rewrite <-app_assoc|done].
  rewrite turns_app. change (turns ((r1, false) :: m)) with (turns m). rewrite (turns_plain m) by done.
  by destruct c, (turns l1).
Qed.

(** C25: Order around a barrier.  While the sequence of a barrier, ordered by
    draining, is in progress, a file system request added before it, but after the
    barrier before that, is handed to the driver when it comes to the head of the
    queue; one added behind it is held back, up to and including the next
    barrier. *)
Theorem barrier_gates {D} (ops : elevator_ops D) `{!KeepsColours ops} request_fn call_end_io
    call_prepare_flush (w : world D) before o after orig :
  keeps request_fn → arrivals ops request_fn w (before ++ (o, true) :: after) →
  orig_bar_rq (queue w) = Some o → rqs w !! o = Some orig →
  tst (ordered (queue w)) QUEUE_ORDERED_BY_TAG = false →
  tst (ordseq (queue w)) QUEUE_ORDSEQ_STARTED = true → 0 ≤ ordseq (queue w) < 0x1f →
  ∀ p rq, rqs w !! Rq p = Some rq → blk_fs_request rq = true →
    let answer := blk_do_ordered ops request_fn call_end_io call_prepare_flush (Rq p) w in
    (∀ l m, before = l ++ (Rq p, false) :: m → Forall (λ e, e.2 = false) m → answer = Ok ((Some (Rq p), true), w)) ∧
    (∀ m k l, after = m ++ (Rq p, k) :: l → Forall (λ e, e.2 = false) m → answer = Ok ((None, true), w)).
Proof.
  intros Hfn Ha Ho Horig Ht Hs Hq p rq Hr Hfs answer.
  destruct (arrivals_coloured ops request_fn w _ Hfn Ha) as [c Hc].
  assert (answer = _) as -> by (by eapply do_ordered_gate).
  fold (colour rq). fold (colour orig). split.
  - intros l m -> Hm. rewrite <-app_assoc in Hc.
    by rewrite (before_colour c w l (Rq p) m o true after rq orig), eqb_reflx.
  - intros m k l -> Hm. rewrite (behind_colour c w before o m (Rq p) k l orig rq) by done.
    by destruct (colour orig).
Qed.

(** A read, a barrier, another read, and a second barrier are added; the driver
    takes the first read, and finds the barrier in front of the queue. *)
Definition read_rq (n : Z) : request := set_bios [page_bio 1 n] (sample_rq 0 n 8).
Definition colour_world : world noop_data :=
  let tbl := [(Rq 1, read_rq 0); (Rq 2, barrier_rq); (Rq 3, read_rq 16); (Rq 4, barrier_rq);
              (pre_flush_rq, zero_rq); (bar_rq, zero_rq); (post_flush_rq, zero_rq)] in
  let w := sample_world NoopData tbl [] [] in
  set_links (links w ∪ list_to_map ((λ p, self_linked (timeout_list p.1)) <$> tbl))
    (set_queue (set_next_ordered QUEUE_ORDERED_DRAIN_FLUSH
      (set_conf (set_prepare_flush_fn (Some 1%positive) sample_conf) sample_queue)) w).

Definition after_run {S A} (m : ST S A) (s : S) : S := match m s with Ok (_, s') => s' | Err _ => s end.
Definition add_to (r : rqid) : ST (world noop_data) unit :=
  __elv_add_request elevator_noop (mret tt) r ELEVATOR_INSERT_SORT false.
Definition flush_packet (_ : positive) (r : rqid) : ST (world noop_data) unit :=
  rq_upd r (set_cmd_type REQ_TYPE_BLOCK_PC).
Definition added_world : world noop_data :=
  after_run (add_to (Rq 1);; add_to (Rq 2);; add_to (Rq 3);; add_to (Rq 4)) colour_world.
Definition next_for_driver : ST (world noop_data) (option rqid) :=
  blk_fetch_request elevator_noop (mret tt) (λ _ _ _, mret tt) flush_packet (λ _ _, mret 0) 0.
Definition sequence_world : world noop_data := after_run (next_for_driver;; next_for_driver) added_world.

Lemma others_keep_compute {D} l (w w' : world D) :
  ordcolor (queue w') = ordcolor (queue w) →
  ((λ r, colour <$> rqs w' !! r) <$> l.*1) = ((λ r, colour <$> rqs w !! r) <$> l.*1) → others_keep l w w'.
Proof.
  intros Hq Hl. split; [done|]. intros r rq' Hr Hr'. induction l as [|[x k] l IH]; [by apply elem_of_nil in Hr|].
  cbn in Hl, Hr. injection Hl as Hx Hl. apply elem_of_cons in Hr as [->|Hr]; [|by apply IH].
  rewrite Hr' in Hx. cbn in Hx. symmetry in Hx. apply fmap_Some in Hx as (rq & ? & Hc). by exists rq.
Qed.

Lemma sequence_world_arrivals :
  arrivals elevator_noop (mret tt) sequence_world [(Rq 1, false); (Rq 2, true); (Rq 3, false); (Rq 4, true)].
Proof.
  apply (arrivals_other _ _ added_world); [|apply others_keep_compute; vm_compute; reflexivity].
  pose (w1 := after_run (add_to (Rq 1)) colour_world). pose (w2 := after_run (add_to (Rq 2)) w1).
  pose (w3 := after_run (add_to (Rq 3)) w2).
  assert (arrivals elevator_noop (mret tt) w1 [(Rq 1, false)]) as H1.
  { eapply (arrivals_add _ _ colour_world w1 [] (Rq 1) (read_rq 0) ELEVATOR_INSERT_SORT false);
      [by apply (arrivals_start _ _ _ false)|by apply not_elem_of_nil|vm_compute; reflexivity..]. }
  assert (arrivals elevator_noop (mret tt) w2 [(Rq 1, false); (Rq 2, true)]) as H2.
  { eapply (arrivals_add _ _ w1 w2 _ (Rq 2) barrier_rq ELEVATOR_INSERT_SORT false H1);
      [by apply (bool_decide_eq_true_1 _)|vm_compute; reflexivity..]. }
  assert (arrivals elevator_noop (mret tt) w3 [(Rq 1, false); (Rq 2, true); (Rq 3, false)]) as H3.
  { eapply (arrivals_add _ _ w2 w3 _ (Rq 3) (read_rq 16) ELEVATOR_INSERT_SORT false H2);
      [by apply (bool_decide_eq_true_1 _)|vm_compute; reflexivity..]. }
  eapply (arrivals_add _ _ w3 added_world _ (Rq 4) barrier_rq ELEVATOR_INSERT_SORT false H3);
    [by apply (bool_decide_eq_true_1 _)|vm_compute; reflexivity..].
Qed.

Lemma barrier_gates_witness :
  blk_do_ordered elevator_noop (mret tt) (λ _ _ _, mret tt) flush_packet (Rq 1) sequence_world
    = Ok ((Some (Rq 1), true), sequence_world) ∧
  blk_do_ordered elevator_noop (mret tt) (λ _ _ _, mret tt) flush_packet (Rq 3) sequence_world
    = Ok ((None, true), sequence_world) ∧
  blk_do_ordered elevator_noop (mret tt) (λ _ _ _, mret tt) flush_packet (Rq 4) sequence_world
    = Ok ((None, true), sequence_world).
Proof.
  destruct (rqs sequence_world !! Rq 2) as [orig|] eqn:E2; [|by vm_compute in E2].
  pose proof (barrier_gates elevator_noop (mret tt) (λ _ _ _, mret tt) flush_packet sequence_world
    [(Rq 1, false)] (Rq 2) [(Rq 3, false); (Rq 4, true)] orig (keeps_ret tt) sequence_world_arrivals
    ltac:(vm_compute; reflexivity) E2 ltac:(vm_compute; reflexivity) ltac:(vm_compute; reflexivity)
    ltac:(vm_compute; split; congruence)) as H. clear E2 orig.
  destruct (rqs sequence_world !! Rq 1) as [rq1|] eqn:E1; [|by vm_compute in E1].
  destruct (rqs sequence_world !! Rq 3) as [rq3|] eqn:E3; [|by vm_compute in E3].
  destruct (rqs sequence_world !! Rq 4) as [rq4|] eqn:E4; [|by vm_compute in E4].
  split_and!.
  - refine (proj1 (H 1%positive rq1 E1 _) [] [] eq_refl (Forall_nil_2 _)).
    vm_compute in E1. injection E1 as <-. reflexivity.
  - refine (proj2 (H 3%positive rq3 E3 _) [] false [(Rq 4, true)] eq_refl (Forall_nil_2 _)).
    vm_compute in E3. injection E3 as <-. reflexivity.
  - refine (proj2 (H 4%positive rq4 E4 _) [(Rq 3, false)] true [] eq_refl _); [|by repeat constructor].
    vm_compute in E4. injection E4 as <-. reflexivity.
Defined.
