(* ===== verification/BioList.v ===== *)
(** * Singly linked lists of bios ([include/linux/bio.h])

    [struct bio_list] is a pair of pointers to the first and the last bio of a
    chain through [bi_next].  The heap maps the address of a bio to its
    [bi_next]; an operation returns the updated structure.  The file shows that
    sequences of operations on two lists act on them as on plain sequences. *)

From S2P Require Import Prelude.

Local Open Scope Z_scope.

Abbreviation nexts := (gmap positive (option positive)).

Record bio_list := BioList { bl_head : option positive; bl_tail : option positive }.

Definition get_bi_next (b : positive) : ST nexts (option positive) :=
  h ← get; lift (deref (h !! b)).
Definition set_bi_next (b : positive) (n : option positive) : ST nexts unit :=
  h ← get; lift (deref (h !! b));; put (<[b := n]> h).

Definition bio_list_empty (bl : bio_list) : bool := bool_decide (bl_head bl = None).
Definition bio_list_init : bio_list := BioList None None.

(** The loop of [bio_list_size] from [b] on. *)
Fixpoint bio_list_count (fuel : nat) (b : option positive) (sz : Z) : ST nexts Z :=
  match b with
  | None => mret sz
  | Some b =>
    match fuel with
    | O => raise HANG
    | S fuel => n ← get_bi_next b; bio_list_count fuel n (u32 (sz + 1))
    end
  end.
Definition bio_list_size (bl : bio_list) : ST nexts Z :=
  h ← get; bio_list_count (size h) (bl_head bl) 0.

Definition bio_list_add (bl : bio_list) (b : positive) : ST nexts bio_list :=
  set_bi_next b None;;
  head ← match bl_tail bl with
         | Some t => set_bi_next t (Some b);; mret (bl_head bl)
         | None => mret (Some b)
         end;
  mret (BioList head (Some b)).

Definition bio_list_add_head (bl : bio_list) (b : positive) : ST nexts bio_list :=
  set_bi_next b (bl_head bl);;
  mret (BioList (Some b) (if bl_tail bl is Some t then Some t else Some b)).

Definition bio_list_merge (bl bl2 : bio_list) : ST nexts bio_list :=
  match bl_head bl2 with
  | None => mret bl
  | Some _ =>
    head ← match bl_tail bl with
           | Some t => set_bi_next t (bl_head bl2);; mret (bl_head bl)
           | None => mret (bl_head bl2)
           end;
    mret (BioList head (bl_tail bl2))
  end.

Definition bio_list_merge_head (bl bl2 : bio_list) : ST nexts bio_list :=
  match bl_head bl2 with
  | None => mret bl
  | Some _ =>
    tail ← match bl_head bl with
           | Some _ => t ← lift (deref (bl_tail bl2));
                       set_bi_next t (bl_head bl);; mret (bl_tail bl)
           | None => mret (bl_tail bl2)
           end;
    mret (BioList (bl_head bl2) tail)
  end.

Definition bio_list_peek (bl : bio_list) : option positive := bl_head bl.

Definition bio_list_pop (bl : bio_list) : ST nexts (option positive * bio_list) :=
  match bl_head bl with
  | None => mret (None, bl)
  | Some b =>
    n ← get_bi_next b;
    set_bi_next b None;;
    mret (Some b, BioList n (if n is Some _ then bl_tail bl else None))
  end.

Definition bio_list_get (bl : bio_list) : option positive * bio_list := (bl_head bl, bio_list_init).

(** ** Programs on two lists *)

(** The list with the number [i]; merging empties the other list, as callers
    do with [bio_list_init]. *)
Inductive bl_op :=
| OpAdd (i : bool) (b : positive)
| OpAddHead (i : bool) (b : positive)
| OpPop (i : bool)
| OpPeek (i : bool)
| OpSize (i : bool)
| OpMerge (i : bool)
| OpMergeHead (i : bool)
| OpGet (i : bool).

(** What an operation returns to its caller. *)
Inductive bl_out := OutNone | OutBio (b : option positive) | OutSize (n : Z).

Definition pick {A} (i : bool) (p : A * A) : A := if i then snd p else fst p.
Definition place {A} (i : bool) (x : A) (p : A * A) : A * A :=
  if i then (fst p, x) else (x, snd p).

Definition bl_step (o : bl_op) (p : bio_list * bio_list) :
    ST nexts (bl_out * (bio_list * bio_list)) :=
  match o with
  | OpAdd i b => bl ← bio_list_add (pick i p) b; mret (OutNone, place i bl p)
  | OpAddHead i b => bl ← bio_list_add_head (pick i p) b; mret (OutNone, place i bl p)
  | OpPop i => '(b, bl) ← bio_list_pop (pick i p); mret (OutBio b, place i bl p)
  | OpPeek i => mret (OutBio (bio_list_peek (pick i p)), p)
  | OpSize i => n ← bio_list_size (pick i p); mret (OutSize n, p)
  | OpMerge i =>
    bl ← bio_list_merge (pick i p) (pick (negb i) p);
    mret (OutNone, place (negb i) bio_list_init (place i bl p))
  | OpMergeHead i =>
    bl ← bio_list_merge_head (pick i p) (pick (negb i) p);
    mret (OutNone, place (negb i) bio_list_init (place i bl p))
  | OpGet i => let '(b, bl) := bio_list_get (pick i p) in mret (OutBio b, place i bl p)
  end.

(** The same on sequences. *)
Definition seq_step (o : bl_op) (p : list positive * list positive) :
    bl_out * (list positive * list positive) :=
  match o with
  | OpAdd i b => (OutNone, place i (pick i p ++ [b]) p)
  | OpAddHead i b => (OutNone, place i (b :: pick i p) p)
  | OpPop i => (OutBio (head (pick i p)), place i (tail (pick i p)) p)
  | OpPeek i => (OutBio (head (pick i p)), p)
  | OpSize i => (OutSize (u32 (Z.of_nat (length (pick i p)))), p)
  | OpMerge i => (OutNone, place (negb i) [] (place i (pick i p ++ pick (negb i) p) p))
  | OpMergeHead i => (OutNone, place (negb i) [] (place i (pick (negb i) p ++ pick i p) p))
  | OpGet i => (OutBio (head (pick i p)), place i [] p)
  end.

(** Only bios that exist and are on neither list may be added. *)
Definition bl_legal (h : nexts) (o : bl_op) (p : list positive * list positive) : bool :=
  match o with
  | OpAdd _ b | OpAddHead _ b =>
    bool_decide (is_Some (h !! b)) && bool_decide (b ∉ fst p) && bool_decide (b ∉ snd p)
  | _ => true
  end.

Fixpoint bl_run (os : list bl_op) (p : bio_list * bio_list) :
    ST nexts (list bl_out * (bio_list * bio_list)) :=
  match os with
  | [] => mret ([], p)
  | o :: os => '(out, p) ← bl_step o p; '(outs, p) ← bl_run os p; mret (out :: outs, p)
  end.
Fixpoint seq_run (os : list bl_op) (p : list positive * list positive) :
    list bl_out * (list positive * list positive) :=
  match os with
  | [] => ([], p)
  | o :: os => let '(out, p) := seq_step o p in
               let '(outs, p) := seq_run os p in (out :: outs, p)
  end.
Fixpoint bl_legal_run (h : nexts) (os : list bl_op) (p : list positive * list positive) : bool :=
  match os with
  | [] => true
  | o :: os => bl_legal h o p && bl_legal_run h os (snd (seq_step o p))
  end.

(** ** Chains *)

(** Following [bi_next] from [p] meets [xs] and then [q]. *)
Fixpoint chain (h : nexts) (p : option positive) (xs : list positive) (q : option positive) : Prop :=
  match xs with
  | [] => p = q
  | x :: xs => p = Some x ∧ ∃ n, h !! x = Some n ∧ chain h n xs q
  end.

Record bl_rep (h : nexts) (bl : bio_list) (xs : list positive) : Prop := {
  rep_seg : chain h (bl_head bl) xs None;
  rep_tail : bl_tail bl = last xs;
  rep_nodup : NoDup xs
}.

Lemma chain_app h p xs ys q : chain h p (xs ++ ys) q ↔ ∃ n, chain h p xs n ∧ chain h n ys q.
Proof.
  revert p. induction xs as [|x xs IH]; intros p; simpl; [naive_solver|].
  setoid_rewrite IH. naive_solver.
Qed.

Lemma chain_insert h p xs q b n : b ∉ xs → chain h p xs q → chain (<[b := n]> h) p xs q.
Proof.
  revert p. induction xs as [|x xs IH]; intros p Hb; simpl; [done|].
  apply not_elem_of_cons in Hb as [Hx Hb]. intros (-> & m & Hm & Hs).
  split; [done|]. exists m. rewrite lookup_insert_ne by done. auto.
Qed.

Lemma chain_dom h p xs q x : chain h p xs q → x ∈ xs → is_Some (h !! x).
Proof.
  revert p. induction xs as [|y xs IH]; intros p Hs Hx; [by apply elem_of_nil in Hx|].
  destruct Hs as (_ & n & Hn & Hs). apply elem_of_cons in Hx as [->|Hx]; eauto.
Qed.

Lemma chain_head h p xs : chain h p xs None → p = head xs.
Proof. destruct xs; simpl; naive_solver. Qed.

(** Storing to the [bi_next] of the last bio extends the chain. *)
Lemma chain_relink h p xs t q : NoDup (xs ++ [t]) → chain h p (xs ++ [t]) None →
  chain (<[t := q]> h) p (xs ++ [t]) q.
Proof.
  intros (_ & Ht & _)%NoDup_app (n & Hs & -> & _)%chain_app. apply chain_app. exists (Some t). split.
  - apply chain_insert; [|done]. intros Hin. apply (Ht t Hin). by left.
  - split; [done|]. exists q. by rewrite lookup_insert_eq.
Qed.

Lemma set_bi_next_ok b n h : is_Some (h !! b) → set_bi_next b n h = Ok (tt, <[b := n]> h).
Proof.
  intros [m Hm]. unfold set_bi_next. erewrite st_bind_ok by reflexivity.
  erewrite st_bind_ok; [reflexivity|]. unfold lift. by rewrite Hm.
Qed.

Lemma get_bi_next_ok b n h : h !! b = Some n → get_bi_next b h = Ok (n, h).
Proof.
  intros Hn. unfold get_bi_next. erewrite st_bind_ok by reflexivity. unfold lift. by rewrite Hn.
Qed.

(** ** Each operation on the sequence it represents *)

Lemma rep_init h : bl_rep h bio_list_init [].
Proof. split; [done|done|constructor]. Qed.

Lemma rep_head h bl xs : bl_rep h bl xs → bl_head bl = head xs.
Proof. intros []. by eapply chain_head. Qed.

Lemma count_ok h p xs fuel sz : chain h p xs None → (length xs ≤ fuel)%nat →
  bio_list_count fuel p (u32 sz) h = Ok (u32 (sz + Z.of_nat (length xs)), h).
Proof.
  revert p fuel sz. induction xs as [|x xs IH]; intros p fuel sz Hs Hf.
  - simpl in Hs. subst p. rewrite Z.add_0_r. by destruct fuel.
  - destruct Hs as (-> & n & Hn & Hs). destruct fuel as [|fuel]; [simpl in Hf; lia|].
    simpl bio_list_count. rewrite (st_bind_ok _ _ _ _ _ (get_bi_next_ok _ _ _ Hn)).
    replace (u32 (u32 sz + 1)) with (u32 (sz + 1)) by (unfold u32; by rewrite Zplus_mod_idemp_l).
    rewrite (IH n fuel (sz + 1) Hs) by (simpl in Hf; lia). do 3 f_equal. simpl length. lia.
Qed.

Lemma size_ok h bl xs : bl_rep h bl xs →
  bio_list_size bl h = Ok (u32 (Z.of_nat (length xs)), h).
Proof.
  intros [Hs _ Hnd]. unfold bio_list_size. erewrite st_bind_ok by reflexivity.
  change 0 with (u32 0) at 1. erewrite count_ok; [reflexivity|done|].
  rewrite <-size_dom, <-(size_list_to_set (C:=gset positive)) by done.
  apply subseteq_size. intros x Hx%elem_of_list_to_set. apply elem_of_dom.
  by eapply chain_dom.
Qed.

(** Only the bios of [T] are written. *)
Definition touches_only (T : list positive) (h h' : nexts) : Prop :=
  (∀ x, is_Some (h' !! x) ↔ is_Some (h !! x)) ∧ ∀ x, x ∉ T → h' !! x = h !! x.

Lemma touches_only_refl T h : touches_only T h h.
Proof. done. Qed.

Lemma touches_insert T h h' b n : touches_only T h h' → is_Some (h !! b) → b ∈ T →
  touches_only T h (<[b := n]> h').
Proof.
  intros [Hd Hv] Hb HT. split; intros x.
  - destruct (decide (x = b)) as [->|]; [rewrite lookup_insert_eq; naive_solver|].
    by rewrite lookup_insert_ne.
  - intros Hx. rewrite lookup_insert_ne by (by intros ->). auto.
Qed.

Lemma chain_frame T h h' p xs q : touches_only T h h' → (∀ x, x ∈ xs → x ∉ T) →
  chain h p xs q → chain h' p xs q.
Proof.
  intros [_ Hv]. revert p. induction xs as [|x xs IH]; intros p HT; simpl; [done|].
  intros (-> & n & Hn & Hs). split; [done|]. exists n. rewrite Hv by (apply HT; by left).
  split; [done|]. apply IH; [|done]. intros y ?. apply HT. by right.
Qed.

Lemma rep_frame T h h' bl xs : touches_only T h h' → (∀ x, x ∈ xs → x ∉ T) →
  bl_rep h bl xs → bl_rep h' bl xs.
Proof. intros Ht HT []. split; [by eapply chain_frame|done|done]. Qed.

Lemma add_ok h bl xs b : bl_rep h bl xs → is_Some (h !! b) → b ∉ xs →
  ∃ bl' h', bio_list_add bl b h = Ok (bl', h') ∧ bl_rep h' bl' (xs ++ [b]) ∧
    touches_only (b :: xs) h h'.
Proof.
  intros Hrep Hb Hx. pose proof Hrep as [Hs Htl Hnd]. unfold bio_list_add.
  rewrite (st_bind_ok _ _ _ _ _ (set_bi_next_ok _ None _ Hb)).
  assert (Hnd' : NoDup (xs ++ [b])).
  { apply NoDup_app. split; [done|]. split; [|apply NoDup_singleton].
    intros y ? ->%list_elem_of_singleton. done. }
  destruct xs as [|x xs _] using rev_ind.
  - rewrite Htl. simpl. erewrite st_bind_ok by reflexivity. eexists _, _. split; [reflexivity|].
    split; [|by apply touches_insert; [|done|left]]. split; [|done|done].
    simpl. split; [done|]. exists None. by rewrite lookup_insert_eq.
  - rewrite last_snoc in Htl. rewrite Htl.
    assert (Hxb : x ≠ b) by (intros ->; apply Hx, elem_of_app; right; by left).
    assert (is_Some (<[b := None]> h !! x)) as Hxd.
    { rewrite lookup_insert_ne by done. eapply chain_dom; [done|]. apply elem_of_app. right. by left. }
    rewrite <-st_bind_assoc. rewrite (st_bind_ok _ _ _ _ _ (set_bi_next_ok _ (Some b) _ Hxd)).
    erewrite st_bind_ok by reflexivity. eexists _, _. split; [reflexivity|]. split.
    + split; simpl; [|by rewrite last_snoc|done]. apply chain_app. exists (Some b). split.
      * apply chain_relink; [done|]. by apply chain_insert.
      * split; [done|]. exists None. rewrite lookup_insert_ne by done. by rewrite lookup_insert_eq.
    + apply touches_insert; [|eapply chain_dom; [done|]; apply elem_of_app; right; by left|].
      * by apply touches_insert; [|done|left].
      * right. apply elem_of_app. right. by left.
Qed.

Lemma add_head_ok h bl xs b : bl_rep h bl xs → is_Some (h !! b) → b ∉ xs →
  ∃ bl' h', bio_list_add_head bl b h = Ok (bl', h') ∧ bl_rep h' bl' (b :: xs) ∧
    touches_only (b :: xs) h h'.
Proof.
  intros [Hs Htl Hnd] Hb Hx. unfold bio_list_add_head.
  rewrite (st_bind_ok _ _ _ _ _ (set_bi_next_ok _ _ _ Hb)). eexists _, _. split; [reflexivity|].
  split; [|by apply touches_insert; [|done|left]]. split; simpl.
  - split; [done|]. eexists. rewrite lookup_insert_eq. split; [done|]. by apply chain_insert.
  - by rewrite Htl, last_cons.
  - by constructor.
Qed.

Lemma pop_ok h bl xs : bl_rep h bl xs →
  ∃ bl' h', bio_list_pop bl h = Ok (head xs, bl', h') ∧ bl_rep h' bl' (tail xs) ∧
    touches_only xs h h'.
Proof.
  intros Hrep. pose proof Hrep as [Hs Htl Hnd]. unfold bio_list_pop.
  rewrite (rep_head _ _ _ Hrep). destruct xs as [|x xs]; cbn [head].
  - eexists _, _. by split; [reflexivity|].
  - simpl in Hs. destruct Hs as (Hh & n & Hn & Hs).
    rewrite (st_bind_ok _ _ _ _ _ (get_bi_next_ok _ _ _ Hn)).
    rewrite (st_bind_ok _ _ _ _ _ (set_bi_next_ok _ None _ (mk_is_Some _ _ Hn))).
    apply NoDup_cons in Hnd as [Hx Hnd]. eexists _, _. split; [reflexivity|].
    split; [|apply touches_insert; [done|by eexists|by left]].
    split; simpl; [by apply chain_insert| |done].
    rewrite Htl. destruct xs as [|y xs]; simpl in Hs; [by subst n|].
    destruct Hs as (-> & _). by rewrite last_cons_cons.
Qed.

Lemma merge_ok h bl bl2 xs ys : bl_rep h bl xs → bl_rep h bl2 ys → NoDup (xs ++ ys) →
  ∃ bl' h', bio_list_merge bl bl2 h = Ok (bl', h') ∧ bl_rep h' bl' (xs ++ ys) ∧
    touches_only xs h h'.
Proof.
  intros Hrep Hrep2 Hnd. pose proof Hrep as [Hs Htl Hnd1]. pose proof Hrep2 as [Hs2 Htl2 Hnd2].
  unfold bio_list_merge. rewrite (rep_head _ _ _ Hrep2). destruct ys as [|y ys]; cbn [head].
  { rewrite app_nil_r. eexists _, _. by split; [reflexivity|]. }
  destruct xs as [|x xs _] using rev_ind.
  - rewrite Htl. erewrite st_bind_ok by reflexivity. eexists _, _. split; [reflexivity|].
    split; [|done]. split; [|done|done]. by rewrite (rep_head _ _ _ Hrep2) in Hs2.
  - rewrite last_snoc in Htl. rewrite Htl. rewrite <-st_bind_assoc.
    assert (is_Some (h !! x)) as Hx by (eapply chain_dom; [exact Hs|]; apply elem_of_app; right; by left).
    rewrite (st_bind_ok _ _ _ _ _ (set_bi_next_ok _ _ _ Hx)).
    erewrite st_bind_ok by reflexivity. eexists _, _. split; [reflexivity|]. split.
    + split; simpl; [|by rewrite last_app, Htl2; destruct (last_is_Some (y :: ys)) as [_ [? ->]]|done].
      apply chain_app. exists (Some y). split; [by apply chain_relink|].
      rewrite (rep_head _ _ _ Hrep2) in Hs2. apply chain_insert; [|done].
      apply NoDup_app in Hnd as (_ & Hd & _). apply Hd, elem_of_app. right. by left.
    + apply touches_insert; [done|done|]. apply elem_of_app. right. by left.
Qed.

Lemma merge_head_ok h bl bl2 xs ys : bl_rep h bl xs → bl_rep h bl2 ys → NoDup (xs ++ ys) →
  ∃ bl' h', bio_list_merge_head bl bl2 h = Ok (bl', h') ∧ bl_rep h' bl' (ys ++ xs) ∧
    touches_only ys h h'.
Proof.
  intros Hrep Hrep2 Hnd. pose proof Hrep as [Hs Htl Hnd1]. pose proof Hrep2 as [Hs2 Htl2 Hnd2].
  assert (Hnd' : NoDup (ys ++ xs)) by (by rewrite (Permutation_app_comm ys xs)).
  unfold bio_list_merge_head. rewrite (rep_head _ _ _ Hrep2), (rep_head _ _ _ Hrep).
  destruct ys as [|y ys _] using rev_ind; simpl.
  { eexists _, _. by split; [reflexivity|]. }
  destruct (head (ys ++ [y])) as [z|] eqn:Ez; [|by destruct ys].
  rewrite <-Ez, <-(rep_head _ _ _ Hrep2). destruct xs as [|x xs]; cbn [head].
  - erewrite st_bind_ok by reflexivity. eexists _, _. split; [reflexivity|].
    split; [|done]. split; simpl; by rewrite app_nil_r.
  - rewrite last_snoc in Htl2. rewrite Htl2. rewrite <-!st_bind_assoc.
    erewrite st_bind_ok by reflexivity.
    assert (is_Some (h !! y)) as Hy by (eapply chain_dom; [exact Hs2|]; apply elem_of_app; right; by left).
    rewrite <-st_bind_assoc. rewrite (st_bind_ok _ _ _ _ _ (set_bi_next_ok _ _ _ Hy)).
    erewrite st_bind_ok by reflexivity. eexists _, _. split; [reflexivity|]. split.
    + split; simpl; [|by rewrite last_app, Htl; destruct (last_is_Some (x :: xs)) as [_ [? ->]]|done].
      apply chain_app. exists (Some x). split; [by apply chain_relink|].
      rewrite (rep_head _ _ _ Hrep) in Hs. apply chain_insert; [|done].
      apply NoDup_app in Hnd' as (_ & Hd & _). apply Hd, elem_of_app. right. by left.
    + apply touches_insert; [done|done|]. apply elem_of_app. right. by left.
Qed.

(** ** Two lists that share no bio *)

Record bl_rep2 (h : nexts) (p : bio_list * bio_list) (q : list positive * list positive) : Prop := {
  rep2_rep : ∀ i, bl_rep h (pick i p) (pick i q);
  rep2_disj : ∀ i x, x ∈ pick i q → x ∉ pick (negb i) q
}.

Lemma rep2_place i T h h' p q bl xs : bl_rep2 h p q → touches_only T h h' → bl_rep h' bl xs →
  (∀ x, x ∈ pick (negb i) q → x ∉ T ∧ x ∉ xs) →
  bl_rep2 h' (place i bl p) (place i xs q).
Proof.
  intros [Hr Hd] Ht Hb Hx.
  assert (Ho : bl_rep h' (pick (negb i) p) (pick (negb i) q))
    by (eapply rep_frame; [done| |done]; naive_solver).
  split; intros j; destruct i, j; simpl in *; try done; naive_solver.
Qed.

Lemma rep2_nodup h p q i : bl_rep2 h p q → NoDup (pick i q ++ pick (negb i) q).
Proof.
  intros [Hr Hd]. apply NoDup_app. split; [apply (Hr i)|]. split; [apply Hd|apply (Hr (negb i))].
Qed.

(** Both lists become one. *)
Lemma rep2_moved i h' p q bl xs : bl_rep h' bl xs →
  bl_rep2 h' (place (negb i) bio_list_init (place i bl p)) (place (negb i) [] (place i xs q)).
Proof.
  intros Hb. split; intros j; destruct i, j; simpl; try done; try apply rep_init;
    intros x Hx; try set_solver.
Qed.

Lemma bl_step_ok h o p q : bl_rep2 h p q → bl_legal h o q = true →
  ∃ p' h', bl_step o p h = Ok (fst (seq_step o q), p', h') ∧
    bl_rep2 h' p' (snd (seq_step o q)) ∧ ∀ x, is_Some (h' !! x) ↔ is_Some (h !! x).
Proof.
  intros H2 Hl. pose proof (rep2_rep _ _ _ H2) as Hr. pose proof (rep2_disj _ _ _ H2) as Hd.
  destruct o as [i b|i b|i|i|i|i|i|i]; simpl bl_step; simpl fst; simpl snd; simpl bl_legal in Hl.
  1,2: apply andb_true_iff in Hl as [[Hb H1%bool_decide_eq_true]%andb_true_iff H0%bool_decide_eq_true];
    apply bool_decide_eq_true in Hb;
    assert (Hbi : b ∉ pick i q) by (by destruct i);
    assert (Hbo : b ∉ pick (negb i) q) by (by destruct i).
  - destruct (add_ok _ _ _ b (Hr i) Hb Hbi) as (bl & h' & E & Hb' & Ht).
    rewrite (st_bind_ok _ _ _ _ _ E). eexists _, _. split; [reflexivity|]. split; [|apply Ht].
    eapply rep2_place; [done..|]. set_solver.
  - destruct (add_head_ok _ _ _ b (Hr i) Hb Hbi) as (bl & h' & E & Hb' & Ht).
    rewrite (st_bind_ok _ _ _ _ _ E). eexists _, _. split; [reflexivity|]. split; [|apply Ht].
    eapply rep2_place; [done..|]. set_solver.
  - destruct (pop_ok _ _ _ (Hr i)) as (bl & h' & E & Hb' & Ht).
    rewrite (st_bind_ok _ _ _ _ _ E). eexists _, _. split; [reflexivity|]. split; [|apply Ht].
    eapply rep2_place; [done..|]. intros x Hx.
    assert (x ∉ pick i q) by (intros Hi; by apply (Hd i x Hi)).
    split; [done|]. destruct (pick i q); set_solver.
  - eexists _, _. split; [by rewrite <-(rep_head _ _ _ (Hr i))|done].
  - rewrite (st_bind_ok _ _ _ _ _ (size_ok _ _ _ (Hr i))). eexists _, _. by split.
  - destruct (merge_ok _ _ _ _ _ (Hr i) (Hr (negb i)) (rep2_nodup _ _ _ _ H2))
      as (bl & h' & E & Hb' & Ht).
    rewrite (st_bind_ok _ _ _ _ _ E). eexists _, _. split; [reflexivity|].
    split; [by apply rep2_moved|apply Ht].
  - destruct (merge_head_ok _ _ _ _ _ (Hr i) (Hr (negb i)) (rep2_nodup _ _ _ _ H2))
      as (bl & h' & E & Hb' & Ht).
    rewrite (st_bind_ok _ _ _ _ _ E). eexists _, _. split; [reflexivity|].
    split; [by apply rep2_moved|apply Ht].
  - eexists _, _. split; [by rewrite <-(rep_head _ _ _ (Hr i))|]. split; [|done].
    eapply rep2_place; [done|apply (touches_only_refl [])|apply rep_init|]. set_solver.
Qed.

Lemma bl_legal_dom h h' o q : (∀ x, is_Some (h' !! x) ↔ is_Some (h !! x)) →
  bl_legal h o q = bl_legal h' o q.
Proof.
  intros Hd. destruct o as [i b|i b|i|i|i|i|i|i]; simpl; try done;
    by rewrite (bool_decide_ext _ _ (Hd b)).
Qed.

Lemma bl_legal_run_dom h h' os q : (∀ x, is_Some (h' !! x) ↔ is_Some (h !! x)) →
  bl_legal_run h os q = bl_legal_run h' os q.
Proof.
  intros Hd. revert q. induction os as [|o os IH]; intros q; [done|].
  simpl. by rewrite IH, (bl_legal_dom h h').
Qed.

(** C26: Every sequence of operations on two lists of bios that adds only
    unlinked bios runs without a fault, returns what the same operations return
    on plain sequences, and leaves lists that represent the resulting
    sequences. *)
Theorem bio_list_refines h os p q : bl_rep2 h p q → bl_legal_run h os q = true →
  ∃ p' h', bl_run os p h = Ok (fst (seq_run os q), p', h') ∧ bl_rep2 h' p' (snd (seq_run os q)).
Proof.
  revert h p q. induction os as [|o os IH]; intros h p q H2 Hl; [by eexists _, _|].
  simpl in Hl. apply andb_true_iff in Hl as [Ho Hos].
  destruct (bl_step_ok h o p q H2 Ho) as (p1 & h1 & E1 & H21 & Hd).
  rewrite (bl_legal_run_dom h h1) in Hos by done.
  destruct (seq_step o q) as [out q1] eqn:Eq. simpl in *.
  destruct (IH _ _ _ H21 Hos) as (p2 & h2 & E2 & H22).
  rewrite Eq. destruct (seq_run os q1) as [outs q2]. simpl in *.
  rewrite (st_bind_ok _ _ _ _ _ E1). simpl. rewrite (st_bind_ok _ _ _ _ _ E2).
  by eexists _, _.
Qed.

Definition five_bios : nexts :=
  list_to_map ((λ b, (b, Some b)) <$> [1; 2; 3; 4; 5]%positive).
Definition merge_script : list bl_op :=
  [OpAdd false 1%positive; OpAdd false 2%positive; OpAddHead true 3%positive;
   OpAdd true 4%positive; OpMerge false; OpPop false; OpSize false; OpAddHead true 1%positive;
   OpMergeHead false; OpPop false; OpPop false; OpGet false; OpPeek false].

Lemma bio_list_refines_witness :
  ∃ p' h', bl_run merge_script (bio_list_init, bio_list_init) five_bios =
      Ok ([OutNone; OutNone; OutNone; OutNone; OutNone; OutBio (Some 1%positive); OutSize 3;
           OutNone; OutNone; OutBio (Some 1%positive); OutBio (Some 2%positive);
           OutBio (Some 3%positive); OutBio None], p', h') ∧ bl_rep2 h' p' ([], []).
Proof.
  apply (bio_list_refines five_bios merge_script (bio_list_init, bio_list_init) ([], [])).
  - split; intros []; simpl; try apply rep_init; intros x []%elem_of_nil.
  - vm_compute. reflexivity.
Defined.
