(* ===== verification/Generic.v ===== *)
(** * From [submit_bio] to the driver ([block/blk-core.c])

    [generic_make_request] checks a bio, maps it from its partition to the disk
    and hands it to the [make_request_fn] of its queue.  A stacking driver may
    send it on to another device, or submit further bios; those are collected on
    [current->bio_list] and handled by the outermost call.  The block devices are
    a table; a bio is paired with the device it is for ([bi_bdev]) and linked to
    no other ([bi_next] is [NULL], as all callers ensure).  [S] is the drivers'
    own state.  The list of the task is a sequence here (see [BioList]).  Integrity
    metadata and fault injection are not configured; accounting and traces are
    not modelled. *)

From S2P Require Import Prelude KList Request Samples Elevator Settings Segments Complete Barrier.

Local Open Scope Z_scope.

(** [struct block_device] with its [struct hd_struct]: the device that contains
    it, where it starts there, its size in bytes ([bd_inode->i_size]), and the
    queue of its disk. *)
Record block_device := BlockDevice {
  bd_contains : positive;
  start_sect : Z;
  i_size : Z;
  bd_queue : option request_queue
}.

(** A bio and its [bi_bdev]. *)
Definition dbio : Type := positive * bio.

(** [current_bio_list]: [current->bio_list], [None] when no call is active;
    [bios_ended]: the bios ended, with the error, the last one first. *)
Record task (S : Type) := Task {
  current_bio_list : option (list dbio);
  bios_ended : list (bio * Z);
  drivers : S
}.
Arguments Task {S}.
Arguments current_bio_list {S}.
Arguments bios_ended {S}.
Arguments drivers {S}.

(** What a driver does in a call: submit a bio, end one, use its own state. *)
Inductive driver (S A : Type) :=
| Return (a : A)
| Submits (x : dbio) (k : driver S A)
| EndsBio (b : bio) (err : Z) (k : driver S A)
| Access (f : S → S) (k : S → driver S A).
Arguments Return {S A}.
Arguments Submits {S A}.
Arguments EndsBio {S A}.
Arguments Access {S A}.

(** ** Checks *)
Section checks.
Context (devs : gmap positive block_device).

Definition blk_partition_remap (x : dbio) : res dbio :=
  let '(d, b) := x in
  bdev ← deref (devs !! d);
  if negb (bio_sectors b =? 0) && bool_decide (d ≠ bd_contains bdev) then
    Ok (bd_contains bdev, set_bi_sector (u64 (bi_sector b + start_sect bdev)) b)
  else Ok x.

Definition handle_bad_sector (b : bio) : bio := set_bi_flags (Z.setbit (bi_flags b) BIO_EOF) b.

(** Whether the bio reaches beyond its device, and the bio. *)
Definition bio_check_eod (x : dbio) (nr_sectors : Z) : res (bool * bio) :=
  let '(d, b) := x in
  if nr_sectors =? 0 then Ok (false, b) else
  bdev ← deref (devs !! d);
  let maxsector := u64 (Z.shiftr (i_size bdev) 9) in
  if negb (maxsector =? 0) &&
     ((maxsector <? nr_sectors) || (u64 (maxsector - nr_sectors) <? bi_sector b))
  then Ok (true, handle_bad_sector b) else Ok (false, b).

(** What becomes of a bio: it ends with an error, or goes to the queue [q] as
    [x]. *)
Inductive verdict := Ends (b : bio) (err : Z) | Goes (q : request_queue) (x : dbio).

(** The body of the loop of [__generic_make_request] up to the call. *)
Definition vet_bio (nr_sectors : Z) (x : dbio) : res verdict :=
  let '(d, b) := x in
  bdev ← deref (devs !! d);
  match bd_queue bdev with
  | None => Ok (Ends b (- EIO))
  | Some q =>
    if negb (bio_rw_flagged b BIO_RW_DISCARD) && (nr_sectors >? queue_max_hw_sectors q)
    then Ok (Ends b (- EIO)) else
    if test_bit QUEUE_FLAG_DEAD (queue_flags q) then Ok (Ends b (- EIO)) else
    x ← blk_partition_remap x;
    '(bad, b) ← bio_check_eod x nr_sectors;
    if (bad : bool) then Ok (Ends b (- EIO)) else
    if bio_rw_flagged b BIO_RW_DISCARD && negb (blk_queue_discard q)
    then Ok (Ends b (- EOPNOTSUPP))
    else Ok (Goes q (fst x, b))
  end.

End checks.

(** ** Calls *)
Section generic.
Context {S : Type} (devs : gmap positive block_device).
Context (make_request_fn : request_queue → dbio → driver S (Z * dbio)).

Definition set_current_bio_list (l : option (list dbio)) (t : task S) : task S :=
  Task l (bios_ended t) (drivers t).

(** [bio_list_add] and [bio_list_pop] on [current->bio_list]. *)
Definition task_bio_add (x : dbio) : ST (task S) unit :=
  l ← gets current_bio_list;
  l ← lift (deref l);
  modify (set_current_bio_list (Some (l ++ [x]))).
Definition task_bio_pop : ST (task S) (option dbio) :=
  l ← gets current_bio_list;
  l ← lift (deref l);
  match l with
  | [] => mret None
  | x :: l => modify (set_current_bio_list (Some l));; mret (Some x)
  end.

Definition task_endio (b : bio) (err : Z) : ST (task S) unit :=
  modify (λ t, Task (current_bio_list t) (end_flags b err :: bios_ended t) (drivers t)).

(** A call of a driver, given [generic_make_request]. *)
Fixpoint call_driver {A} (submit : dbio → ST (task S) unit) (p : driver S A) : ST (task S) A :=
  match p with
  | Return a => mret a
  | Submits x k => submit x;; call_driver submit k
  | EndsBio b err k => task_endio b err;; call_driver submit k
  | Access f k =>
    s ← gets drivers;
    modify (λ t, Task (current_bio_list t) (bios_ended t) (f (drivers t)));;
    call_driver submit (k s)
  end.

Section loops.
Context (submit : dbio → ST (task S) unit).

(** The loop of [__generic_make_request]. *)
Fixpoint vet_loop (fuel : nat) (nr_sectors : Z) (x : dbio) : ST (task S) unit :=
  match fuel with
  | O => raise HANG
  | Datatypes.S fuel =>
    v ← lift (vet_bio devs nr_sectors x);
    match v with
    | Ends b err => task_endio b err
    | Goes q x =>
      '(ret, x) ← call_driver submit (make_request_fn q x);
      if negb (ret =? 0) then vet_loop fuel nr_sectors x else mret tt
    end
  end.

Definition __generic_make_request (fuel : nat) (x : dbio) : ST (task S) unit :=
  let nr_sectors := bio_sectors (snd x) in
  '(bad, b) ← lift (bio_check_eod devs x nr_sectors);
  if (bad : bool) then task_endio b (- EIO) else vet_loop fuel nr_sectors (fst x, b).

(** The loop of [generic_make_request]: this bio, then those collected. *)
Fixpoint collect_loop (fuel : nat) (x : dbio) : ST (task S) unit :=
  match fuel with
  | O => raise HANG
  | Datatypes.S fuel' =>
    __generic_make_request fuel x;;
    next ← task_bio_pop;
    match next with
    | Some x => collect_loop fuel' x
    | None => mret tt
    end
  end.
End loops.

(** [depth] bounds the nesting of calls that run the loop, [fuel] the loops. *)
Fixpoint generic_make_request (depth fuel : nat) (x : dbio) : ST (task S) unit :=
  l ← gets current_bio_list;
  match l with
  | Some _ => task_bio_add x
  | None =>
    match depth with
    | O => raise HANG
    | Datatypes.S depth =>
      modify (set_current_bio_list (Some []));;
      collect_loop (generic_make_request depth fuel) fuel x;;
      modify (set_current_bio_list None)
    end
  end.

Definition submit_bio (depth fuel : nat) (rw : Z) (x : dbio) : ST (task S) unit :=
  generic_make_request depth fuel (fst x, set_bi_rw (u64 (Z.lor (bi_rw (snd x)) rw)) (snd x)).
End generic.

(** ** What a driver does, without the surrounding calls *)

(** The result of a call, the bios submitted (in order), the bios ended (the
    last one first), and the new state of the drivers. *)
Fixpoint perform {S A} (p : driver S A) (s : S) : A * list dbio * list (bio * Z) * S :=
  match p with
  | Return a => (a, [], [], s)
  | Submits x k => let '(a, xs, es, s) := perform k s in (a, x :: xs, es, s)
  | EndsBio b err k => let '(a, xs, es, s) := perform k s in (a, xs, es ++ [end_flags b err], s)
  | Access f k => perform (k s) (f s)
  end.

Section serving.
Context {S : Type} (devs : gmap positive block_device).
Context (make_request_fn : request_queue → dbio → driver S (Z * dbio)).

(** One bio on its way through the devices: [passes nr x s xs es s'] when
    handling [x] submits [xs], ends [es] and takes the drivers from [s] to
    [s']. *)
Inductive passes (nr : Z) : dbio → S → list dbio → list (bio * Z) → S → Prop :=
| passes_ends x s b err :
    vet_bio devs nr x = Ok (Ends b err) → passes nr x s [] [end_flags b err] s
| passes_taken x s q y z xs es s' :
    vet_bio devs nr x = Ok (Goes q y) → perform (make_request_fn q y) s = (0, z, xs, es, s') →
    passes nr x s xs es s'
| passes_on x s q y ret z xs es s' xs' es' s'' :
    vet_bio devs nr x = Ok (Goes q y) → perform (make_request_fn q y) s = (ret, z, xs, es, s') →
    ret ≠ 0 → passes nr z s' xs' es' s'' →
    passes nr x s (xs ++ xs') (es' ++ es) s''.

Inductive handles : dbio → S → list dbio → list (bio * Z) → S → Prop :=
| handles_beyond x s b :
    bio_check_eod devs x (bio_sectors (snd x)) = Ok (true, b) →
    handles x s [] [end_flags b (- EIO)] s
| handles_within x s b xs es s' :
    bio_check_eod devs x (bio_sectors (snd x)) = Ok (false, b) →
    passes (bio_sectors (snd x)) (fst x, b) s xs es s' → handles x s xs es s'.

(** First in, first out: the bios submitted by a driver wait behind those that
    wait already. *)
Inductive serves : list dbio → S → list (bio * Z) → S → Prop :=
| serves_none s : serves [] s [] s
| serves_one x l s xs es s' es' s'' :
    handles x s xs es s' → serves (l ++ xs) s' es' s'' → serves (x :: l) s (es' ++ es) s''.

(** While a call is active, a driver's submissions are only collected, however
    deep calls may nest. *)
Lemma call_driver_ok {A} depth fuel (p : driver S A) l es s :
  let '(a, xs, es', s') := perform p s in
  call_driver (generic_make_request devs make_request_fn depth fuel) p (Task (Some l) es s) =
    Ok (a, Task (Some (l ++ xs)) (es' ++ es) s').
Proof.
  revert l es s. induction p as [a|x k IH|b err k IH|f k IH]; intros l es s; simpl.
  - by rewrite app_nil_r.
  - specialize (IH (l ++ [x]) es s). destruct (perform k s) as [[[a xs] es'] s'].
    rewrite <-app_assoc in IH. erewrite st_bind_ok; [exact IH|]. by destruct depth.
  - specialize (IH l (end_flags b err :: es) s). destruct (perform k s) as [[[a xs] es'] s'].
    rewrite <-app_assoc. erewrite st_bind_ok by reflexivity. exact IH.
  - specialize (IH s l es (f s)). destruct (perform (k s) (f s)) as [[[a xs] es'] s'].
    erewrite st_bind_ok by reflexivity. erewrite st_bind_ok by reflexivity. exact IH.
Qed.

(** Devices stacked on one another: [rank] counts the levels.  A call submits
    at most [k] bios, all for lower levels, and passes a bio on only to a lower
    level. *)
Record stacked_devices (rank : positive → nat) (k : nat) : Prop := {
  stk_contains d bdev : devs !! d = Some bdev →
    is_Some (devs !! bd_contains bdev) ∧ (rank (bd_contains bdev) ≤ rank d)%nat;
  stk_calls nr x q y s ret z xs es s' : vet_bio devs nr x = Ok (Goes q y) →
    perform (make_request_fn q y) s = (ret, z, xs, es, s') →
    (length xs ≤ k)%nat ∧
    (∀ x', x' ∈ xs → is_Some (devs !! fst x') ∧ (rank (fst x') < rank (fst y))%nat) ∧
    (ret ≠ 0 → is_Some (devs !! fst z) ∧ (rank (fst z) < rank (fst y))%nat)
}.

Section returns.
Context (rank : positive → nat) (k : nat) (Hstk : stacked_devices rank k).
Local Open Scope nat_scope.

Definition weight (x : dbio) : nat := (k + 2) ^ rank (fst x).
Definition weights (xs : list dbio) : nat := sum_list_with weight xs.

Lemma eod_ok x nr : is_Some (devs !! fst x) →
  ∃ bad b, bio_check_eod devs x nr = Ok (bad, b).
Proof.
  destruct x as [d b]. intros [bdev Hd]. unfold bio_check_eod. simpl in Hd.
  destruct (nr =? 0)%Z; [by eexists _, _|]. rewrite Hd. simpl. case_match; by eexists _, _.
Qed.

Lemma remap_ok x : is_Some (devs !! fst x) →
  ∃ y, blk_partition_remap devs x = Ok y ∧ is_Some (devs !! fst y) ∧ rank (fst y) ≤ rank (fst x).
Proof.
  destruct x as [d b]. intros [bdev Hd]. simpl in Hd. unfold blk_partition_remap. rewrite Hd. simpl.
  destruct (stk_contains _ _ Hstk _ _ Hd). destruct (_ && _); eexists; (split; [reflexivity|]);
    simpl; [done|by rewrite Hd].
Qed.

Lemma vet_ok nr x : is_Some (devs !! fst x) →
  ∃ v, vet_bio devs nr x = Ok v ∧
    match v with
    | Ends _ _ => True
    | Goes q y => is_Some (devs !! fst y) ∧ rank (fst y) ≤ rank (fst x)
    end.
Proof.
  intros Hx. destruct (remap_ok x Hx) as (y & Ey & Hy & Hr). destruct (eod_ok y nr Hy) as (bad & b' & Eb).
  destruct x as [d b], Hx as [bdev Hd]. simpl in Hd. unfold vet_bio. rewrite Hd, Ey. cbn [mbind res_bind deref].
  destruct (bd_queue bdev) as [q|]; [|by eexists]. destruct (negb _ && _); [by eexists|].
  destruct (test_bit QUEUE_FLAG_DEAD _); [by eexists|]. rewrite Eb. cbn [mbind res_bind].
  destruct bad; [by eexists|]. destruct (_ && _); by eexists.
Qed.

Lemma weights_below xs r : (∀ x, x ∈ xs → rank (fst x) < r) →
  (k + 2) * weights xs ≤ length xs * (k + 2) ^ r.
Proof.
  induction xs as [|x xs IH]; intros Hr; [simpl; lia|].
  assert (IH' : (k + 2) * weights xs ≤ length xs * (k + 2) ^ r).
  { apply IH. intros y ?. apply Hr. by right. }
  assert ((k + 2) * weight x ≤ (k + 2) ^ r).
  { unfold weight. rewrite <-Nat.pow_succ_r'. apply Nat.pow_le_mono_r; [lia|]. apply Hr. by left. }
  change (weights (x :: xs)) with (weight x + weights xs). simpl length. lia.
Qed.

Lemma weight_lower x y : rank (fst x) < rank (fst y) → (k + 2) * weight x ≤ weight y.
Proof.
  intros Hr. unfold weight. rewrite <-Nat.pow_succ_r'. apply Nat.pow_le_mono_r; lia.
Qed.

Lemma weight_mono x y : rank (fst x) ≤ rank (fst y) → weight x ≤ weight y.
Proof. intros Hr. unfold weight. apply Nat.pow_le_mono_r; lia. Qed.

Lemma weight_pos x : 0 < weight x.
Proof. unfold weight. apply Nat.neq_0_lt_0, Nat.pow_nonzero. lia. Qed.

Lemma weights_app xs ys : weights (xs ++ ys) = weights xs + weights ys.
Proof. apply sum_list_with_app. Qed.

Lemma rank_lt_weight x : rank (fst x) < weight x.
Proof. apply Nat.pow_gt_lin_r. lia. Qed.

Local Abbreviation submit depth fuel := (generic_make_request devs make_request_fn depth fuel).

(** Handling one bio; what it submits weighs less. *)
Lemma vet_loop_ok depth fuel' fuel nr x l es s : is_Some (devs !! fst x) → rank (fst x) < fuel →
  ∃ xs es' s', passes nr x s xs es' s' ∧ (∀ y, y ∈ xs → is_Some (devs !! fst y)) ∧
    weights xs < weight x ∧
    vet_loop devs make_request_fn (submit depth fuel') fuel nr x (Task (Some l) es s) =
      Ok (tt, Task (Some (l ++ xs)) (es' ++ es) s').
Proof.
  revert x l es s. induction fuel as [|fuel IH]; intros x l es s Hx Hf; [lia|]. simpl vet_loop.
  destruct (vet_ok nr x Hx) as (v & Ev & Hv).
  erewrite (st_bind_ok (lift _)) by (unfold lift; rewrite Ev; reflexivity).
  destruct v as [b err|q y].
  { eexists [], _, s. split; [by apply passes_ends|]. split; [by intros ? ?%elem_of_nil|].
    split; [apply weight_pos|]. by rewrite app_nil_r. }
  destruct Hv as [Hy Hr]. pose proof (weight_mono y x Hr).
  pose proof (call_driver_ok depth fuel' (make_request_fn q y) l es s) as Hc.
  destruct (perform (make_request_fn q y) s) as [[[[ret z] xs] es'] s'] eqn:Ep.
  destruct (stk_calls _ _ Hstk _ _ _ _ _ _ _ _ _ _ Ev Ep) as (Hk & Hlow & Hz).
  rewrite (st_bind_ok _ _ _ _ _ Hc). simpl.
  assert (Hwx : (k + 2) * weights xs ≤ k * weight y).
  { etrans; [apply (weights_below xs (rank (fst y)))|]; [by intros ? []%Hlow|].
    by apply Nat.mul_le_mono_r. }
  assert (Hin : ∀ y, y ∈ xs → is_Some (devs !! fst y)) by (by intros ? []%Hlow).
  pose proof (weight_pos y). destruct (Z.eqb_spec ret 0) as [->|Hne]; simpl.
  { exists xs, es', s'. split; [by eapply passes_taken|]. split; [done|]. split; [nia|done]. }
  destruct (Hz Hne) as [Hzd Hzr]. pose proof (weight_lower z y Hzr).
  destruct (IH z (l ++ xs) (es' ++ es) s' Hzd) as (xs2 & es2 & s2 & Hp & Hin2 & Hw2 & E); [lia|].
  exists (xs ++ xs2), (es2 ++ es'), s2. split; [by eapply passes_on|].
  split; [intros ? [?|?]%elem_of_app; auto|]. split; [rewrite weights_app; nia|].
  by rewrite E, !app_assoc.
Qed.

Lemma handles_ok depth fuel' fuel x l es s : is_Some (devs !! fst x) → weight x ≤ fuel →
  ∃ xs es' s', handles x s xs es' s' ∧ (∀ y, y ∈ xs → is_Some (devs !! fst y)) ∧
    weights xs < weight x ∧
    __generic_make_request devs make_request_fn (submit depth fuel') fuel x (Task (Some l) es s) =
      Ok (tt, Task (Some (l ++ xs)) (es' ++ es) s').
Proof.
  intros Hx Hf. unfold __generic_make_request.
  destruct (eod_ok x (bio_sectors (snd x)) Hx) as (bad & b & Eb).
  erewrite (st_bind_ok (lift _)) by (unfold lift; rewrite Eb; reflexivity). destruct bad.
  - eexists [], _, s. split; [by apply handles_beyond|]. split; [by intros ? ?%elem_of_nil|].
    split; [apply weight_pos|]. by rewrite app_nil_r.
  - pose proof (rank_lt_weight x).
    destruct (vet_loop_ok depth fuel' fuel (bio_sectors (snd x)) (fst x, b) l es s)
      as (xs & es' & s' & Hp & Hin & Hw & E); [done|simpl; lia|].
    exists xs, es', s'. split; [by eapply handles_within|done].
Qed.

Lemma collect_ok depth fuel' fuel x l es s :
  (∀ y, y ∈ x :: l → is_Some (devs !! fst y)) → weights (x :: l) ≤ fuel →
  ∃ es' s', serves (x :: l) s es' s' ∧
    collect_loop devs make_request_fn (submit depth fuel') fuel x (Task (Some l) es s) =
      Ok (tt, Task (Some []) (es' ++ es) s').
Proof.
  revert x l es s. induction fuel as [|fuel IH]; intros x l es s Hin Hf;
    change (weights (x :: l)) with (weight x + weights l) in Hf; pose proof (weight_pos x); [lia|].
  destruct (handles_ok depth fuel' (Datatypes.S fuel) x l es s)
    as (xs & es1 & s1 & Hh & Hin1 & Hw & E); [apply Hin; by left|lia|].
  simpl collect_loop. rewrite (st_bind_ok _ _ _ _ _ E).
  assert (Hin2 : ∀ y, y ∈ l ++ xs → is_Some (devs !! fst y)).
  { intros y [?|?]%elem_of_app; [|by apply Hin1]. apply Hin. by right. }
  assert (Hw2 : weights (l ++ xs) ≤ fuel) by (rewrite weights_app; lia).
  destruct (l ++ xs) as [|y l'] eqn:El.
  - eexists _, s1. split; [|reflexivity]. apply (serves_one x l s xs es1 s1 [] s1); [done|].
    rewrite El. constructor.
  - destruct (IH y l' (es1 ++ es) s1 Hin2 Hw2) as (es2 & s2 & Hs & E2).
    exists (es2 ++ es1), s2. split; [eapply serves_one; [done|]; by rewrite El|].
    erewrite st_bind_ok by reflexivity. etrans; [exact E2|by rewrite app_assoc].
Qed.

End returns.
End serving.

(** C10: On stacked devices [generic_make_request] returns, with no call left
    active, and serves the bio and all bios the drivers submit on its behalf
    first in, first out: each is ended with an error or taken by one driver.
    One level of calls suffices, however many levels of devices there are. *)
Theorem generic_make_request_serves {S} devs make_request_fn rank k depth fuel (x : dbio) es (s : S) :
  stacked_devices devs make_request_fn rank k → is_Some (devs !! fst x) →
  ((k + 2) ^ rank (fst x) ≤ fuel)%nat →
  ∃ es' s', serves devs make_request_fn [x] s es' s' ∧
    generic_make_request devs make_request_fn (Datatypes.S depth) fuel x (Task None es s) =
      Ok (tt, Task None (es' ++ es) s').
Proof.
  intros Hstk Hx Hf.
  destruct (collect_ok devs make_request_fn rank k Hstk depth fuel fuel x [] es s)
    as (es' & s' & Hs & E).
  { by intros y ->%list_elem_of_singleton. }
  { unfold weights, weight. simpl. lia. }
  exists es', s'. split; [done|]. simpl generic_make_request. erewrite st_bind_ok by reflexivity.
  cbn [current_bio_list]. erewrite st_bind_ok by reflexivity. by rewrite (st_bind_ok _ _ _ _ _ E).
Qed.

(** ** Which bios reach a driver *)

(** The device has room for the sectors, or its size is not known. *)
Definition has_room (bdev : block_device) (sector nr : Z) : bool :=
  (Z.shiftr (i_size bdev) 9 =? 0) || (sector + nr <=? Z.shiftr (i_size bdev) 9).

(** Sizes are in range, and partitions have a known size and lie in the range
    of sector numbers. *)
Record geometry (d : positive) (bdev : block_device) : Prop := {
  geo_size : 0 ≤ i_size bdev < 2 ^ 63;
  geo_part : d ≠ bd_contains bdev →
    512 ≤ i_size bdev ∧ 0 ≤ start_sect bdev ∧ start_sect bdev + Z.shiftr (i_size bdev) 9 ≤ 2 ^ 64
}.

(** Where a bio is to go: to the same place on the disk. *)
Definition on_disk (bdev : block_device) (x : dbio) : dbio :=
  let '(d, b) := x in
  if (bio_sectors b =? 0) || bool_decide (d = bd_contains bdev) then x
  else (bd_contains bdev, set_bi_sector (bi_sector b + start_sect bdev) b).

(** The conditions under which a bio for [bdev] on [disk] may go to [q]. *)
Definition admissible (bdev disk : block_device) (q : request_queue) (x : dbio) : bool :=
  let nr := bio_sectors (snd x) in
  let discard := bio_rw_flagged (snd x) BIO_RW_DISCARD in
  (discard || (nr <=? queue_max_hw_sectors q)) &&
  negb (test_bit QUEUE_FLAG_DEAD (queue_flags q)) &&
  ((nr =? 0) || has_room bdev (bi_sector (snd x)) nr && has_room disk (bi_sector (snd (on_disk bdev x))) nr) &&
  (negb discard || blk_queue_discard q).

Section verdicts.
Context (devs : gmap positive block_device).

(** The statements before the loop, and the first pass up to the call. *)
Definition first_pass (x : dbio) : res verdict :=
  let nr_sectors := bio_sectors (snd x) in
  '(bad, b) ← bio_check_eod devs x nr_sectors;
  if (bad : bool) then Ok (Ends b (- EIO)) else vet_bio devs nr_sectors (fst x, b).

Lemma eod_spec d b bdev nr : devs !! d = Some bdev → 0 ≤ i_size bdev < 2 ^ 63 →
  0 ≤ nr → 0 ≤ bi_sector b →
  bio_check_eod devs (d, b) nr =
    Ok (if (nr =? 0) || has_room bdev (bi_sector b) nr then (false, b) else (true, handle_bad_sector b)).
Proof.
  intros Hd Hs Hn Hb. unfold bio_check_eod, has_room. destruct (nr =? 0); [done|]. rewrite Hd.
  cbn [mbind res_bind deref orb]. rewrite Z.shiftr_div_pow2 by lia. change (2 ^ 9) with 512.
  pose proof (Z.div_pos (i_size bdev) 512). pose proof (Z.div_lt_upper_bound (i_size bdev) 512 (2 ^ 63)).
  rewrite u64_id by lia. set (m := i_size bdev / 512) in *.
  destruct (Z.eqb_spec m 0); [done|]. destruct (Z.ltb_spec m nr).
  { destruct (Z.leb_spec (bi_sector b + nr) m); [lia|done]. }
  rewrite u64_id by lia. cbn [negb andb orb].
  destruct (Z.ltb_spec (m - nr) (bi_sector b)), (Z.leb_spec (bi_sector b + nr) m); lia || done.
Qed.

Lemma remap_spec d b bdev : devs !! d = Some bdev → geometry d bdev → 0 ≤ bi_sector b →
  0 ≤ bio_sectors b → has_room bdev (bi_sector b) (bio_sectors b) = true →
  blk_partition_remap devs (d, b) = Ok (on_disk bdev (d, b)).
Proof.
  intros Hd [Hs Hp] Hb Hn Hf. unfold blk_partition_remap, on_disk. rewrite Hd.
  cbn [mbind res_bind deref]. destruct (Z.eqb_spec (bio_sectors b) 0); [done|].
  destruct (decide (d = bd_contains bdev)) as [->|Hne].
  { by rewrite bool_decide_eq_false_2, bool_decide_eq_true_2 by naive_solver. }
  rewrite bool_decide_eq_true_2, bool_decide_eq_false_2 by done. cbn [negb andb orb].
  destruct (Hp Hne) as (? & ? & Hend). unfold has_room in Hf.
  rewrite Z.shiftr_div_pow2 in Hend, Hf by lia. change (2 ^ 9) with 512 in *.
  assert (1 ≤ i_size bdev / 512) by (apply Z.div_le_lower_bound; lia).
  apply orb_true_iff in Hf as [?%Z.eqb_eq|?%Z.leb_le]; [lia|]. by rewrite u64_id by lia.
Qed.

Lemma on_disk_keeps bdev d b : geometry d bdev → 0 ≤ bi_sector b →
  bio_sectors (snd (on_disk bdev (d, b))) = bio_sectors b ∧
  bi_rw (snd (on_disk bdev (d, b))) = bi_rw b ∧ 0 ≤ bi_sector (snd (on_disk bdev (d, b))).
Proof.
  intros [_ Hp] Hb. unfold on_disk. destruct (_ =? 0); [done|].
  destruct (decide (d = bd_contains bdev)) as [->|Hne].
  { by rewrite bool_decide_eq_true_2. }
  rewrite bool_decide_eq_false_2 by done. simpl. split; [done|]. split; [done|].
  destruct (Hp Hne) as (_ & ? & _). lia.
Qed.

Lemma partition_confined d b bdev : geometry d bdev → 0 ≤ bi_sector b → d ≠ bd_contains bdev →
  bio_sectors b ≠ 0 → has_room bdev (bi_sector b) (bio_sectors b) = true →
  fst (on_disk bdev (d, b)) = bd_contains bdev ∧
  start_sect bdev ≤ bi_sector (snd (on_disk bdev (d, b))) ∧
  bi_sector (snd (on_disk bdev (d, b))) + bio_sectors b ≤ start_sect bdev + Z.shiftr (i_size bdev) 9.
Proof.
  intros [_ Hp] Hb Hne Hn Hf. unfold on_disk. rewrite bool_decide_eq_false_2 by done.
  rewrite (proj2 (Z.eqb_neq _ _) Hn). cbn [orb fst snd]. destruct (Hp Hne) as (Hs & Hst & _).
  unfold has_room in Hf. rewrite Z.shiftr_div_pow2 in * by lia. change (2 ^ 9) with 512 in *.
  assert (1 ≤ i_size bdev / 512) by (apply Z.div_le_lower_bound; lia).
  apply orb_true_iff in Hf as [?%Z.eqb_eq|?%Z.leb_le]; [lia|]. split; [done|].
  change (bi_sector (set_bi_sector ?s b)) with s. lia.
Qed.

(** The checks of [vet_bio] for a bio that lies within its device. *)
Lemma vet_spec d b bdev disk q : devs !! d = Some bdev → devs !! bd_contains bdev = Some disk →
  geometry d bdev → 0 ≤ i_size disk < 2 ^ 63 → 0 ≤ bi_sector b → 0 ≤ bio_sectors b →
  bd_queue bdev = Some q → (bio_sectors b =? 0) || has_room bdev (bi_sector b) (bio_sectors b) = true →
  if admissible bdev disk q (d, b)
  then vet_bio devs (bio_sectors b) (d, b) = Ok (Goes q (on_disk bdev (d, b)))
  else ∃ b' err, vet_bio devs (bio_sectors b) (d, b) = Ok (Ends b' err) ∧
    err ∈ [- EIO; - EOPNOTSUPP] ∧ bi_id b' = bi_id b.
Proof.
  intros Hd Hc Hg Hs Hb Hn Hq Hf. destruct (on_disk_keeps bdev d b Hg Hb) as (Hsec & Hrw & Hpos).
  assert (Hid : bi_id (snd (on_disk bdev (d, b))) = bi_id b)
    by (unfold on_disk; case_match; reflexivity).
  assert (Ey : blk_partition_remap devs (d, b) = Ok (on_disk bdev (d, b))).
  { destruct (Z.eqb_spec (bio_sectors b) 0) as [E|]; [|by apply remap_spec].
    unfold blk_partition_remap, on_disk. rewrite Hd, E. done. }
  assert (Eb : bio_check_eod devs (on_disk bdev (d, b)) (bio_sectors b) =
    Ok (if (bio_sectors b =? 0) || has_room disk (bi_sector (snd (on_disk bdev (d, b)))) (bio_sectors b)
        then (false, snd (on_disk bdev (d, b)))
        else (true, handle_bad_sector (snd (on_disk bdev (d, b)))))).
  { destruct (Z.eqb_spec (bio_sectors b) 0) as [E|E].
    { rewrite E. by destruct (on_disk bdev (d, b)). }
    rewrite <-Z.eqb_neq in E. pose proof (eod_spec (bd_contains bdev) (snd (on_disk bdev (d, b)))
      disk (bio_sectors b) Hc Hs Hn Hpos) as He. rewrite E in He. rewrite <-He. f_equal.
    unfold on_disk. rewrite E. destruct (decide (d = bd_contains bdev)) as [->|].
    - by rewrite bool_decide_eq_true_2.
    - by rewrite bool_decide_eq_false_2. }
  unfold vet_bio, admissible. rewrite Hd. cbn [mbind res_bind deref snd]. rewrite Hq, Ey.
  cbn [mbind res_bind]. rewrite Z.gtb_ltb, Z.ltb_antisym.
  destruct (bio_rw_flagged b BIO_RW_DISCARD) eqn:Ed, (bio_sectors b <=? queue_max_hw_sectors q);
    cbn [negb andb orb]; try (eexists _, _; split; [reflexivity|]; set_solver).
  all: destruct (test_bit QUEUE_FLAG_DEAD _); cbn [negb andb];
    [eexists _, _; split; [reflexivity|]; set_solver|].
  all: rewrite Eb; cbn [mbind res_bind];
    destruct (bio_sectors b =? 0); cbn [orb] in *; rewrite ?Hf; cbn [andb];
    try (destruct (has_room disk _ _); [|eexists _, _; split; [reflexivity|]; set_solver]);
    unfold bio_rw_flagged in *; rewrite Hrw, Ed; cbn [andb negb orb]; try by destruct (on_disk _ _).
  all: destruct (blk_queue_discard q); cbn [negb]; [by destruct (on_disk _ _)|].
  all: eexists _, _; split; [reflexivity|]; set_solver.
Qed.
End verdicts.

Lemma first_pass_spec devs d b bdev disk :
  devs !! d = Some bdev → devs !! bd_contains bdev = Some disk →
  geometry d bdev → geometry (bd_contains bdev) disk → 0 ≤ bi_sector b → 0 ≤ bi_size b →
  (∃ q, bd_queue bdev = Some q ∧ admissible bdev disk q (d, b) = true ∧
     first_pass devs (d, b) = Ok (Goes q (on_disk bdev (d, b))) ∧
     (d ≠ bd_contains bdev → bio_sectors b ≠ 0 →
        fst (on_disk bdev (d, b)) = bd_contains bdev ∧
        start_sect bdev ≤ bi_sector (snd (on_disk bdev (d, b))) ∧
        bi_sector (snd (on_disk bdev (d, b))) + bio_sectors b ≤
          start_sect bdev + Z.shiftr (i_size bdev) 9)) ∨
  (∃ b' err, (∀ q, bd_queue bdev = Some q → admissible bdev disk q (d, b) = false) ∧
     first_pass devs (d, b) = Ok (Ends b' err) ∧
     err ∈ [- EIO; - EOPNOTSUPP] ∧ bi_id b' = bi_id b).
Proof.
  intros Hd Hc Hg Hgd Hb Hsz.
  assert (Hn : 0 ≤ bio_sectors b) by (by apply Z.shiftr_nonneg).
  pose proof (eod_spec devs d b bdev (bio_sectors b) Hd (geo_size _ _ Hg) Hn Hb) as E.
  unfold first_pass. cbn [fst snd]. rewrite E. cbn [mbind res_bind].
  destruct ((bio_sectors b =? 0) || has_room bdev (bi_sector b) (bio_sectors b)) eqn:Hf.
  2: { right. eexists _, _. split; [|split; [reflexivity|]; set_solver]. intros q _.
       apply orb_false_iff in Hf as [E0 Ef]. unfold admissible. cbn [snd].
       rewrite E0, Ef. cbn [orb andb]. by rewrite andb_false_r. }
  destruct (bd_queue bdev) as [q|] eqn:Hq.
  2: { right. exists b, (- EIO). split; [done|]. unfold vet_bio. rewrite Hd. simpl. rewrite Hq.
       set_solver. }
  pose proof (vet_spec devs d b bdev disk q Hd Hc Hg (geo_size _ _ Hgd) Hb Hn Hq Hf) as Hv.
  destruct (admissible bdev disk q (d, b)) eqn:Ha.
  - left. exists q. split; [done|]. split; [done|]. split; [exact Hv|]. intros Hne Hnz.
    apply (partition_confined _ _ _ Hg Hb Hne Hnz).
    apply orb_true_iff in Hf as [?%Z.eqb_eq|?]; done.
  - right. destruct Hv as (b' & err & Ev & He). exists b', err. split; [by intros ? [= ->]|done].
Qed.

(** The verdict of the first pass is carried out. *)
Section first_run.
Context {S : Type} (devs : gmap positive block_device).
Context (make_request_fn : request_queue → dbio → driver S (Z * dbio)).
Context (submit : dbio → ST (task S) unit) (fuel : nat).

Lemma first_pass_run x v t : first_pass devs x = Ok v →
  __generic_make_request devs make_request_fn submit (Datatypes.S fuel) x t =
    match v with
    | Ends b err => task_endio b err t
    | Goes q y =>
      ('(ret, z) ← call_driver submit (make_request_fn q y);
       if negb (ret =? 0) then vet_loop devs make_request_fn submit fuel (bio_sectors (snd x)) z
       else mret tt) t
    end.
Proof.
  unfold first_pass, __generic_make_request. intros Hv.
  destruct (bio_check_eod devs x (bio_sectors (snd x))) as [[bad b]|] eqn:E; [|done].
  cbn [mbind res_bind] in Hv.
  erewrite (st_bind_ok (lift _)) by (unfold lift; reflexivity). destruct bad; [by injection Hv as <-|].
  cbn [vet_loop]. rewrite Hv. by destruct v.
Qed.
End first_run.

(** C21: A bio reaches the driver of its device exactly when the device exists
    and is not dead, the bio is not too big, a discard is supported, and the bio
    lies within its device and, at its place there, within the disk; one for a
    partition then arrives at the disk, inside the partition, and nothing has
    happened before the call.  Any other bio is ended with an error, without a
    call. *)
Theorem make_request_checks {S} devs (make_request_fn : request_queue → dbio → driver S (Z * dbio))
    submit fuel d b bdev disk t :
  devs !! d = Some bdev → devs !! bd_contains bdev = Some disk →
  geometry d bdev → geometry (bd_contains bdev) disk → 0 ≤ bi_sector b → 0 ≤ bi_size b →
  let run := __generic_make_request devs make_request_fn submit (Datatypes.S fuel) (d, b) t in
  let y := on_disk bdev (d, b) in
  (∃ q, bd_queue bdev = Some q ∧ admissible bdev disk q (d, b) = true ∧
     run = ('(ret, z) ← call_driver submit (make_request_fn q y);
            if negb (ret =? 0) then vet_loop devs make_request_fn submit fuel (bio_sectors b) z
            else mret tt) t ∧
     (d ≠ bd_contains bdev → bio_sectors b ≠ 0 →
        fst y = bd_contains bdev ∧ start_sect bdev ≤ bi_sector (snd y) ∧
        bi_sector (snd y) + bio_sectors b ≤ start_sect bdev + Z.shiftr (i_size bdev) 9)) ∨
  (∃ b' err, (∀ q, bd_queue bdev = Some q → admissible bdev disk q (d, b) = false) ∧
     run = task_endio b' err t ∧ err ∈ [- EIO; - EOPNOTSUPP] ∧ bi_id b' = bi_id b).
Proof.
  intros Hd Hc Hg Hgd Hb Hsz run y.
  destruct (first_pass_spec devs d b bdev disk Hd Hc Hg Hgd Hb Hsz)
    as [(q & Hq & Ha & E & Hin)|(b' & err & Ha & E & He)].
  - left. exists q. split_and!; [done|done| |done]. exact (first_pass_run devs make_request_fn submit fuel _ _ t E).
  - right. exists b', err. split_and!; [done| |apply He|apply He]. exact (first_pass_run devs make_request_fn submit fuel _ _ t E).
Qed.

(** ** A disk, a partition, a linear volume and a mirror *)

Definition sample_devs : gmap positive block_device :=
  list_to_map
    [(1%positive, BlockDevice 1 0 1048576 (Some sample_queue));
     (2%positive, BlockDevice 1 63 512000 (Some sample_queue));
     (3%positive, BlockDevice 3 0 0 (Some sample_queue));
     (4%positive, BlockDevice 4 0 512000 (Some sample_queue))].

(** The linear volume passes its bios on to the partition, the mirror submits
    two bios; the disk counts what it is given. *)
Definition sample_driver (q : request_queue) (x : dbio) : driver Z (Z * dbio) :=
  if bool_decide (fst x = 3%positive) then Return (1, (2%positive, snd x))
  else if bool_decide (fst x = 4%positive) then
    Submits (1%positive, snd x) (Submits (2%positive, snd x) (Return (0, x)))
  else Access (λ n, n + bio_sectors (snd x)) (λ _, Return (0, x)).
Definition sample_rank (d : positive) : nat :=
  if bool_decide (d = 3%positive) || bool_decide (d = 4%positive) then 1 else 0.

Definition sector_bio (sector n : Z) : bio :=
  Bio 1 sector 1 1 0 0 0 (n * 512) 0 0 true [BioVec 0 (n * 512) 0] 0 false.

Lemma sample_stacked : stacked_devices sample_devs sample_driver sample_rank 2.
Proof.
  split.
  - intros d bdev Hd. apply elem_of_list_to_map_2 in Hd.
    repeat (apply elem_of_cons in Hd as [Hd|Hd]; [injection Hd as -> ->|]); [..|by apply elem_of_nil in Hd].
    all: split; [vm_compute; by eexists|vm_compute; lia].
  - intros nr x q [d b] s ret z xs es s' _ Hp. unfold sample_driver, sample_rank in *. simpl fst in *.
    destruct (decide (d = 3%positive)) as [->|].
    { simpl in Hp. injection Hp as <- <- <- <- <-. split; [simpl; lia|].
      split; [by intros ? ?%elem_of_nil|]. intros _. split; [vm_compute; by eexists|vm_compute; lia]. }
    destruct (decide (d = 4%positive)) as [->|].
    { simpl in Hp. injection Hp as <- <- <- <- <-. split; [simpl; lia|]. split; [|done].
      intros x' Hx'. repeat (apply elem_of_cons in Hx' as [->|Hx']); [..|by apply elem_of_nil in Hx'].
      all: split; [vm_compute; by eexists|vm_compute; lia]. }
    rewrite !bool_decide_eq_false_2 in Hp by done. simpl in Hp. injection Hp as <- <- <- <- <-.
    split; [simpl; lia|]. by split; [intros ? ?%elem_of_nil|].
Qed.

Lemma generic_make_request_serves_witness :
  (∃ es s, serves sample_devs sample_driver [(4%positive, sector_bio 8 16)] 0 es s ∧
    generic_make_request sample_devs sample_driver 1 4 (4%positive, sector_bio 8 16) (Task None [] 0) =
      Ok (tt, Task None (es ++ []) s)) ∧
  generic_make_request sample_devs sample_driver 1 4 (4%positive, sector_bio 8 16) (Task None [] 0) =
    Ok (tt, Task None [] 32).
Proof.
  split; [|vm_compute; reflexivity].
  apply (generic_make_request_serves sample_devs sample_driver sample_rank 2 0 4
           (4%positive, sector_bio 8 16) [] 0).
  - exact sample_stacked.
  - vm_compute. by eexists.
  - vm_compute. lia.
Defined.

Lemma part_geometry : geometry 2 (BlockDevice 1 63 512000 (Some sample_queue)).
Proof. split; simpl; [lia|]. intros _. vm_compute. intuition discriminate. Qed.
Lemma disk_geometry : geometry 1 (BlockDevice 1 0 1048576 (Some sample_queue)).
Proof. split; simpl; [lia|done]. Qed.

Lemma make_request_checks_witness :
  let run x := __generic_make_request sample_devs sample_driver (λ _, raise BUG) 1 x (Task None [] 0) in
  run (2%positive, sector_bio 992 8) = Ok (tt, Task None [] 8) ∧
  ∃ b err, run (2%positive, sector_bio 993 8) = task_endio b err (Task None [] 0).
Proof.
  pose proof (λ b, make_request_checks sample_devs sample_driver (λ _, raise BUG) 0 2%positive b
    (BlockDevice 1 63 512000 (Some sample_queue)) (BlockDevice 1 0 1048576 (Some sample_queue))
    (Task None [] 0) eq_refl eq_refl part_geometry disk_geometry) as H.
  split.
  - destruct (H (sector_bio 992 8)) as [(q & Hq & _ & E & _)|(b & err & Ha & _)]; [simpl; lia|simpl; lia|..].
    + injection Hq as <-. exact E.
    + specialize (Ha sample_queue eq_refl). vm_compute in Ha. discriminate.
  - destruct (H (sector_bio 993 8)) as [(q & Hq & Ha & _)|(b & err & _ & E & _)]; [simpl; lia|simpl; lia|..].
    + injection Hq as <-. vm_compute in Ha. discriminate.
    + exists b, err. exact E.
Defined.
