(* ===== verification/Merge.v ===== *)
(** * Merging ([block/blk-merge.c], second part; [fs/ioprio.c])

    Whether a bio may join a request or two requests may become one, and joining
    them.  A bio that belongs to no request yet is a value that the functions
    return updated; the others are written through the chains that hold them.
    The statistics of the disk are not modelled. *)

From S2P Require Import Prelude KList Request Samples Elevator Settings Sysfs Segments ReqList.
From S2P Require Import Softirq Timeout Tags Complete Barrier Iosched Noop.

Local Open Scope Z_scope.

(** ** I/O priorities *)
Definition IOPRIO_PRIO_CLASS (p : Z) : Z := Z.shiftr p 13.
Definition IOPRIO_CLASS_NONE : Z := 0.
Definition IOPRIO_CLASS_BE : Z := 2.

Definition ioprio_best (aprio bprio : Z) : Z :=
  let aclass := u16 (IOPRIO_PRIO_CLASS aprio) in
  let bclass := u16 (IOPRIO_PRIO_CLASS bprio) in
  let aclass := if aclass =? IOPRIO_CLASS_NONE then IOPRIO_CLASS_BE else aclass in
  let bclass := if bclass =? IOPRIO_CLASS_NONE then IOPRIO_CLASS_BE else bclass in
  if aclass =? bclass then Z.min aprio bprio
  else if aclass >? bclass then bprio
  else aprio.

Definition blk_pc_request (rq : request) : bool := cmd_type rq =? REQ_TYPE_BLOCK_PC.
Definition blk_rq_cpu_valid (rq : request) : bool := negb (cpu rq =? -1).

(** ** A bio joins a request *)
Section bio_merge.
Context {D : Type}.

(** The request takes no more merges. *)
Definition no_merge (r : rqid) : ST (world D) unit :=
  rq_upd r (λ rq, set_cmd_flags (Z.lor (cmd_flags rq) REQ_NOMERGE) rq);;
  q ← q_get;
  when (bool_decide (last_merge q = Some r)) (q_upd (set_last_merge None)).

Definition ll_new_hw_segment (r : rqid) (b : bio) : ST (world D) (bool * bio) :=
  q ← q_get;
  let '(nr_phys_segs, b) := bio_phys_segments q b in
  rq ← rq_get r;
  if nr_phys_segments rq + nr_phys_segs >? queue_max_segments q then
    no_merge r;; mret (false, b)
  else
    rq_upd r (λ rq, set_nr_phys_segments (u16 (nr_phys_segments rq + nr_phys_segs)) rq);;
    mret (true, b).

(** [unsigned short max_sectors] of both functions below. *)
Definition merge_max_sectors (q : request_queue) (rq : request) : Z :=
  u16 (if blk_pc_request rq then queue_max_hw_sectors q else queue_max_sectors q).

(** Count the segments of [b] unless that was done before. *)
Definition recounted (q : request_queue) (b : bio) : bio :=
  if negb (bio_flagged b BIO_SEG_VALID) then blk_recount_segments q b else b.

Definition ll_back_merge_fn (r : rqid) (b : bio) : ST (world D) (bool * bio) :=
  q ← q_get;
  rq ← rq_get r;
  if u32 (blk_rq_sectors rq + bio_sectors b) >? merge_max_sectors q rq then
    no_merge r;; mret (false, b)
  else
    biotail ← lift (deref (last (bios rq)));
    when (negb (bio_flagged biotail BIO_SEG_VALID)) (bio_write (blk_recount_segments q biotail));;
    ll_new_hw_segment r (recounted q b).

Definition ll_front_merge_fn (r : rqid) (b : bio) : ST (world D) (bool * bio) :=
  q ← q_get;
  rq ← rq_get r;
  if u32 (blk_rq_sectors rq + bio_sectors b) >? merge_max_sectors q rq then
    no_merge r;; mret (false, b)
  else
    bio0 ← lift (deref (head (bios rq)));
    when (negb (bio_flagged bio0 BIO_SEG_VALID)) (bio_write (blk_recount_segments q bio0));;
    ll_new_hw_segment r (recounted q b).

(** The bios of a request get the attributes the request had for all of them. *)
Definition blk_rq_set_mixed_merge (r : rqid) : ST (world D) unit :=
  rq ← rq_get r;
  let ff := Z.land (cmd_flags rq) REQ_FAILFAST_MASK in
  if tst (cmd_flags rq) REQ_MIXED_MERGE then mret tt else
  mapM (λ b, bio_write (set_bi_rw (Z.lor (bi_rw b) ff) b)) (bios rq);;
  rq_upd r (λ rq, set_cmd_flags (Z.lor (cmd_flags rq) REQ_MIXED_MERGE) rq).

(** ** Two requests become one *)
Definition ll_merge_requests_fn (r n : rqid) : ST (world D) bool :=
  q ← q_get;
  req ← rq_get r;
  next ← rq_get n;
  biotail ← lift (deref (last (bios req)));
  nbio ← lift (deref (head (bios next)));
  let seg_size := u32 (bi_seg_back_size biotail + bi_seg_front_size nbio) in
  if special req || special next then mret false else
  if u32 (blk_rq_sectors req + blk_rq_sectors next) >? queue_max_sectors q then mret false else
  let total := nr_phys_segments req + nr_phys_segments next in
  contig ← lift (blk_phys_contig_segment q biotail nbio);
  total ← (if (contig : bool) then
             when (nr_phys_segments req =? 1)
               (b ← lift (deref (head (bios req))); bio_write (set_bi_seg_front_size seg_size b));;
             when (nr_phys_segments next =? 1)
               (next ← rq_get n;
                b ← lift (deref (last (bios next))); bio_write (set_bi_seg_back_size seg_size b));;
             mret (total - 1)
           else mret total);
  if total >? queue_max_segments q then mret false else
  rq_upd r (set_nr_phys_segments (u16 total));;
  mret true.
End bio_merge.

Section attempt.
Context {D : Type} (ops : elevator_ops D) (request_fn : ST (world D) unit).
Context (call_end_io : positive → rqid → Z → ST (world D) unit).

(** May the two requests be joined, apart from their sizes? *)
Definition merge_candidates (req next : request) : bool :=
  rq_mergeable req && rq_mergeable next &&
  (u64 (blk_rq_pos req + blk_rq_sectors req) =? blk_rq_pos next) &&
  (rq_data_dir req =? rq_data_dir next) && bool_decide (rq_disk req = rq_disk next) &&
  negb (special next) && eqb (blk_integrity_rq req) (blk_integrity_rq next).

Definition attempt_merge (r n : rqid) : ST (world D) bool :=
  req ← rq_get r;
  next ← rq_get n;
  if negb (merge_candidates req next) then mret false else
  ok ← ll_merge_requests_fn r n;
  if negb ok then mret false else
  when (tst (Z.lor (cmd_flags req) (cmd_flags next)) REQ_MIXED_MERGE ||
        negb (Z.land (cmd_flags req) REQ_FAILFAST_MASK =? Z.land (cmd_flags next) REQ_FAILFAST_MASK))
    (blk_rq_set_mixed_merge r;; blk_rq_set_mixed_merge n);;
  when (time_after (start_time req) (start_time next))
    (rq_upd r (set_start_time (start_time next)));;
  next ← rq_get n;
  rq_upd r (λ rq, set_bios (bios rq ++ bios next) rq);;
  rq_upd r (λ rq, set___data_len (u32 (blk_rq_bytes rq + blk_rq_bytes next)) rq);;
  elv_merge_requests ops r n;;
  next ← rq_get n;
  rq_upd r (λ rq, set_ioprio (u16 (ioprio_best (ioprio rq) (ioprio next))) rq);;
  when (blk_rq_cpu_valid next) (rq_upd r (set_cpu (cpu next)));;
  rq_upd n (set_bios []);;
  __blk_put_request ops request_fn (__blk_end_request_all ops request_fn call_end_io) n;;
  mret true.

Definition attempt_back_merge (r : rqid) : ST (world D) bool :=
  next ← elv_latter_request ops r;
  match next with
  | Some n => attempt_merge r n
  | None => mret false
  end.
Definition attempt_front_merge (r : rqid) : ST (world D) bool :=
  prev ← elv_former_request ops r;
  match prev with
  | Some p => attempt_merge p r
  | None => mret false
  end.
End attempt.

(** ** Counting the segments of joined chains *)

(** The number of physical segments of the vectors [vs]. *)
Definition seg_start : recalc_state := RecalcState 0 0 None true 0.
Definition segs_of (q : request_queue) (vs : list bio_vec) : Z :=
  nr_phys_segs (foldl (recalc_step q) seg_start vs).

(** The first segment's size does not matter for the count. *)
Definition same_count (s t : recalc_state) : Prop :=
  seg_size s = seg_size t ∧ nr_phys_segs s = nr_phys_segs t ∧ bvprv s = bvprv t ∧ highprv s = highprv t.
Lemma same_count_fold q vs s t : same_count s t →
  same_count (foldl (recalc_step q) s vs) (foldl (recalc_step q) t vs).
Proof.
  revert s t. induction vs as [|v vs IH]; intros s t H; [done|]. cbn. apply IH.
  destruct H as (E1 & E2 & E3 & E4). unfold recalc_step. rewrite E1, E2, E3, E4.
  by destruct (negb _ && _ && _).
Qed.

Lemma seg_start_inv q : seg_limits_ok q → recalc_inv q None seg_start.
Proof.
  intros Hq. destruct (seg_ok_size _ Hq). change PAGE_CACHE_SIZE with 4096 in *. split_and!; cbn; done || lia.
Qed.

(** Counting on from the end of another chain, in the state [t], is never behind
    counting afresh, in the state [s]. *)
Definition not_behind (c : Z) (s t : recalc_state) : Prop :=
  bvprv s = bvprv t ∧ highprv s = highprv t ∧
  (nr_phys_segs t < c + nr_phys_segs s ∨
   (nr_phys_segs t = c + nr_phys_segs s ∧ seg_size t ≤ seg_size s)).

Lemma not_behind_step q c p s t v :
  seg_limits_ok q → bvec_ok v → bvec_ok p → recalc_inv q (Some p) s → recalc_inv q (Some p) t →
  nr_phys_segs s < 2 ^ 32 - 1 → nr_phys_segs t < 2 ^ 32 - 1 →
  not_behind c s t → not_behind c (recalc_step q s v) (recalc_step q t v).
Proof.
  intros Hq Hv Hp (P1 & S1 & S2 & _) (P2 & T1 & T2 & _) Hs Ht (E1 & E2 & H).
  destruct (seg_ok_size _ Hq). pose proof Hv as (? & ? & ? & ?). change PAGE_CACHE_SIZE with 4096 in *.
  unfold recalc_step. rewrite P1, P2, E2. unfold extends.
  rewrite (u32_id (seg_size s + bv_len v)), (u32_id (seg_size t + bv_len v)),
    (u32_id (nr_phys_segs s + 1)), (u32_id (nr_phys_segs t + 1)) by lia.
  set (a := negb (_ || _) && _). set (m := BIOVEC_PHYS_MERGEABLE p v). set (g := BIOVEC_SEG_BOUNDARY q p v).
  destruct (Z.gtb_spec (seg_size s + bv_len v) (queue_max_segment_size q)),
    (Z.gtb_spec (seg_size t + bv_len v) (queue_max_segment_size q)); unfold not_behind; cbn [negb andb];
    rewrite ?andb_false_r; cbn [bvprv highprv nr_phys_segs seg_size];
    destruct a eqn:Ea, m, g; cbn [andb bvprv highprv nr_phys_segs seg_size]; split_and!; try done; try lia.
  all: unfold a in Ea; apply andb_prop in Ea as [Ea _]; apply negb_true_iff, orb_false_iff in Ea as [? ?]; congruence.
Qed.

Lemma not_behind_fold q c vs : seg_limits_ok q → Forall bvec_ok vs → ∀ p s t,
  bvec_ok p → recalc_inv q (Some p) s → recalc_inv q (Some p) t →
  nr_phys_segs s + Z.of_nat (length vs) < 2 ^ 32 - 1 → nr_phys_segs t + Z.of_nat (length vs) < 2 ^ 32 - 1 →
  not_behind c s t → not_behind c (foldl (recalc_step q) s vs) (foldl (recalc_step q) t vs).
Proof.
  intros Hq. induction 1 as [|v vs Hv Hvs IH]; intros p s t Hp Hs Ht Ls Lt H; cbn [foldl length] in *; [done|].
  destruct (recalc_step_spec q (Some p) s v Hq Hv) as [Hs' Cs]; [by intros ? [= <-]|done|lia|].
  destruct (recalc_step_spec q (Some p) t v Hq Hv) as [Ht' Ct]; [by intros ? [= <-]|done|lia|].
  apply (IH v); try done.
  - destruct Cs as [(_ & _ & _ & _ & -> & _)|[-> _]]; lia.
  - destruct Ct as [(_ & _ & _ & _ & -> & _)|[-> _]]; lia.
  - apply (not_behind_step q c p); try done; lia.
Qed.

(** The states the count passes through. *)
Lemma recalc_fold_inv q vs : seg_limits_ok q → Forall bvec_ok vs →
  Z.of_nat (length vs) < 2 ^ 32 - 1 →
  recalc_inv q (last vs) (foldl (recalc_step q) seg_start vs) ∧ 0 ≤ segs_of q vs ≤ Z.of_nat (length vs).
Proof.
  intros Hq. unfold segs_of. induction vs as [|v vs IH] using rev_ind; intros Hvs Hlen.
  { split; [by apply seg_start_inv|cbn; lia]. }
  apply Forall_app in Hvs as [Hvs Hv]. rewrite Forall_singleton in Hv. rewrite length_app in Hlen |- *. cbn in Hlen |- *.
  destruct (IH Hvs) as [Hi Hc]; [lia|]. rewrite foldl_app, last_snoc. cbn [foldl].
  destruct (recalc_step_spec q (last vs) (foldl (recalc_step q) seg_start vs) v Hq Hv) as [Hi' Hcase]; [|done|lia|].
  { intros p Hp. rewrite Forall_forall in Hvs. apply Hvs. by apply last_Some_elem_of. }
  split; [done|]. destruct Hcase as [(_ & _ & _ & _ & -> & _)|[-> _]]; lia.
Qed.

Lemma first_high q t u : highprv (recalc_step q seg_start u) = highprv (recalc_step q t u).
Proof.
  unfold recalc_step. cbn [highprv seg_start bvprv]. rewrite orb_true_r. cbn [negb andb].
  destruct (negb _ && _ && _) eqn:E; [|done]. cbn. bprop. congruence.
Qed.

(** Joining two chains never takes more segments than they had. *)
Lemma segs_of_app q vs us : seg_limits_ok q → Forall bvec_ok (vs ++ us) →
  Z.of_nat (length (vs ++ us)) < 2 ^ 31 → segs_of q (vs ++ us) ≤ segs_of q vs + segs_of q us.
Proof.
  intros Hq [Hvs Hus]%Forall_app Hlen. rewrite length_app in Hlen.
  destruct (recalc_fold_inv q vs Hq Hvs ltac:(lia)) as [Ht Ct]. pose proof (seg_start_inv q Hq) as Hs.
  unfold segs_of in *. rewrite foldl_app. set (t := foldl (recalc_step q) seg_start vs) in *.
  destruct us as [|u us]; [cbn; lia|]. cbn [foldl length] in *. apply Forall_cons in Hus as [Hu Hus].
  assert (∀ p, last vs = Some p → bvec_ok p) as Hlast.
  { intros p Hp. rewrite Forall_forall in Hvs. apply Hvs. by apply last_Some_elem_of. }
  destruct (recalc_step_spec q None seg_start u Hq Hu) as [Hs1 Cs]; [done|done|cbn; lia|].
  destruct (recalc_step_spec q (last vs) t u Hq Hu Hlast Ht) as [Ht1 Ct1]; [lia|].
  destruct Cs as [(? & [=] & _)|[Ns Zs]]. cbn [nr_phys_segs seg_start] in Ns.
  assert (not_behind (nr_phys_segs t) (recalc_step q seg_start u) (recalc_step q t u)) as H0.
  { split; [by rewrite (proj1 Hs1), (proj1 Ht1)|]. split; [apply first_high|].
    destruct Ct1 as [(_ & _ & _ & _ & E1 & E2)|[E1 E2]]; rewrite ?E1, ?E2, Ns, Zs; lia. }
  pose proof (not_behind_fold q (nr_phys_segs t) us Hq Hus u _ _ Hu Hs1 Ht1) as Hf.
  destruct Hf as (_ & _ & Hf); [lia|destruct Ct1 as [(_ & _ & _ & _ & -> & _)|[-> _]]; lia|done|lia].
Qed.

(** A cached count of segments is not too small. *)
Definition counted (q : request_queue) (b : bio) : Prop :=
  bio_flagged b BIO_SEG_VALID = true → segs_of q (bio_segs b) ≤ bi_phys_segments b.

Lemma recount_ok q b : let b' := blk_recount_segments q b in
  bi_phys_segments b' = segs_of q (bio_segs b) ∧ bio_segs b' = bio_segs b ∧ bi_id b' = bi_id b.
Proof.
  unfold blk_recount_segments, __blk_recalc_rq_segments. cbn [fmap list_fmap concat]. rewrite app_nil_r.
  set (s := foldl _ _ _). cbn zeta.
  assert (nr_phys_segs s = segs_of q (bio_segs b)) as Es by (apply same_count_fold; done).
  unfold alter_last. cbn. destruct (_ >? _); split_and!; done.
Qed.

Lemma bio_phys_segments_ok q b : counted q b →
  segs_of q (bio_segs b) ≤ fst (bio_phys_segments q b) ∧ bio_segs (snd (bio_phys_segments q b)) = bio_segs b.
Proof.
  intros Hc. unfold bio_phys_segments. destruct (bio_flagged b BIO_SEG_VALID) eqn:E; cbn [negb fst snd].
  - split; [by apply Hc|done].
  - destruct (recount_ok q b) as (-> & -> & _). done.
Qed.
Lemma recounted_ok q b : counted q b → counted q (recounted q b) ∧ bio_segs (recounted q b) = bio_segs b.
Proof.
  intros Hc. unfold recounted. destruct (bio_flagged b BIO_SEG_VALID) eqn:E; cbn [negb]; [done|].
  destruct (recount_ok q b) as (E1 & E2 & _). split; [|done]. intros _. rewrite E2, E1. done.
Qed.

Section fits.
Context {D : Type} (r : rqid).
Implicit Types (w : world D).

Lemma no_merge_ok w rq : rqs w !! r = Some rq →
  ∃ w' rq', no_merge r w = Ok (tt, w') ∧ rqs w' !! r = Some rq' ∧ bios rq' = bios rq ∧
    tst (cmd_flags rq') REQ_NOMERGE = true ∧ last_merge (queue w') ≠ Some r.
Proof.
  intros Hr. unfold no_merge. erewrite st_bind_ok by (apply rq_upd_ok; exact Hr).
  erewrite (st_bind_ok q_get) by reflexivity. wcbn. set (rq' := set_cmd_flags _ rq).
  assert (tst (cmd_flags rq') REQ_NOMERGE = true) as Hf by (cbn; rewrite tst_lor; apply orb_true_r).
  destruct (bool_decide _) eqn:E; cbn [when]; eexists _, rq'; (split; [reflexivity|]); wcbn;
    rewrite lookup_insert_eq; split_and!; try done. by apply bool_decide_eq_false in E.
Qed.

Lemma ll_new_hw_segment_ok w rq b :
  rqs w !! r = Some rq → counted (queue w) b → 0 ≤ nr_phys_segments rq → 0 ≤ segs_of (queue w) (bio_segs b) →
  queue_max_segments (queue w) < 2 ^ 16 →
  ∃ ok b' w' rq', ll_new_hw_segment r b w = Ok ((ok, b'), w') ∧ rqs w' !! r = Some rq' ∧
    bios rq' = bios rq ∧ bio_segs b' = bio_segs b ∧
    if (ok : bool)
    then nr_phys_segments rq + segs_of (queue w) (bio_segs b) ≤ nr_phys_segments rq' ≤ queue_max_segments (queue w)
    else tst (cmd_flags rq') REQ_NOMERGE = true ∧ last_merge (queue w') ≠ Some r.
Proof.
  intros Hr Hc Hn Hsb Hm. destruct (bio_phys_segments_ok _ _ Hc) as [Hs Hb].
  unfold ll_new_hw_segment. erewrite (st_bind_ok q_get) by reflexivity.
  destruct (bio_phys_segments (queue w) b) as [n b']. cbn [fst snd] in *.
  erewrite st_bind_ok by (apply rq_get_ok; exact Hr).
  destruct (Z.gtb_spec (nr_phys_segments rq + n) (queue_max_segments (queue w))).
  - destruct (no_merge_ok w rq Hr) as (w' & rq' & E & R1 & R2 & R3 & R4).
    rewrite (st_bind_ok _ _ _ _ _ E). exists false, b', w', rq'. done.
  - erewrite st_bind_ok by (apply rq_upd_ok; exact Hr). exists true, b'. eexists _, _. split; [reflexivity|].
    wcbn. rewrite lookup_insert_eq. split; [done|]. split; [done|]. split; [done|]. cbn.
    unfold u16. rewrite Z.mod_small by lia. lia.
Qed.

Lemma elem_by_id (bs : list bio) a b : NoDup (chain_ids bs) → a ∈ bs → b ∈ bs → bi_id a = bi_id b → a = b.
Proof.
  intros Hn [i Ha]%list_elem_of_lookup [j Hb]%list_elem_of_lookup E.
  assert (i = j) as ->; [|congruence].
  apply (NoDup_lookup (chain_ids bs) i j (bi_id a)); [done|..]; unfold chain_ids; rewrite list_lookup_fmap.
  - by rewrite Ha.
  - by rewrite Hb, E.
Qed.

Lemma store_segs (bs : list bio) t t' : NoDup (chain_ids bs) → t ∈ bs →
  bio_segs t' = bio_segs t → bi_id t' = bi_id t →
  concat (bio_segs <$> (store_bio t' <$> bs)) = concat (bio_segs <$> bs).
Proof.
  intros Hn Ht E1 E2. f_equal. rewrite <-list_fmap_compose. apply list_fmap_ext. intros i c Hc.
  unfold compose, store_bio. destruct (decide _) as [E|]; [|done]. rewrite E1. f_equal.
  apply (elem_by_id bs); [done|done|by eapply list_elem_of_lookup_2|congruence].
Qed.

(** Counting the segments of a bio of the request does not change its vectors. *)
Lemma recount_member w rq t :
  rqs w !! r = Some rq → NoDup (chain_ids (bios rq)) → t ∈ bios rq →
  ∃ w1 rq1, when (negb (bio_flagged t BIO_SEG_VALID)) (bio_write (blk_recount_segments (queue w) t)) w
      = Ok (tt, w1) ∧ rqs w1 !! r = Some rq1 ∧ rq_segs rq1 = rq_segs rq ∧ queue w1 = queue w ∧
    nr_phys_segments rq1 = nr_phys_segments rq.
Proof.
  intros Hr Hn Ht. destruct (bio_flagged t BIO_SEG_VALID); cbn [negb when]; [by exists w, rq|].
  destruct (recount_ok (queue w) t) as (_ & E1 & E2). revert E1 E2.
  generalize (blk_recount_segments (queue w) t). intros t' E1 E2.
  eexists _, _. split; [reflexivity|]. cbn [rqs set_rqs queue]. rewrite lookup_fmap, Hr. split; [reflexivity|].
  split; [|done]. unfold rq_segs. cbn [bios set_bios]. by apply (store_segs _ t).
Qed.
(** The common part of both functions, after the limit on the sectors. *)
Lemma count_and_join w rq b t joined : let q := queue w in
  rqs w !! r = Some rq → NoDup (chain_ids (bios rq)) → t ∈ bios rq → counted q b →
  0 ≤ segs_of q (rq_segs rq) ≤ nr_phys_segments rq → 0 ≤ segs_of q (bio_segs b) →
  segs_of q joined ≤ segs_of q (rq_segs rq) + segs_of q (bio_segs b) → queue_max_segments q < 2 ^ 16 →
  ∃ ok b' w' rq', (when (negb (bio_flagged t BIO_SEG_VALID)) (bio_write (blk_recount_segments q t));;
     ll_new_hw_segment r (recounted q b)) w = Ok ((ok, b'), w') ∧ rqs w' !! r = Some rq' ∧
    if (ok : bool)
    then rq_segs rq' = rq_segs rq ∧ bio_segs b' = bio_segs b ∧
         segs_of q joined ≤ nr_phys_segments rq' ≤ queue_max_segments q
    else tst (cmd_flags rq') REQ_NOMERGE = true ∧ last_merge (queue w') ≠ Some r.
Proof.
  intros q Hr Hnd Ht Hc N1 N2 Happ Hmax.
  destruct (recount_member w rq t Hr Hnd Ht) as (w1 & rq1 & E1 & R1 & S1 & Q1 & P1).
  rewrite (st_bind_ok _ _ _ _ _ E1). destruct (recounted_ok q b Hc) as [Hc' Hs'].
  pose proof (ll_new_hw_segment_ok w1 rq1 (recounted q b) R1) as Hll.
  rewrite Q1, Hs', P1 in Hll. fold q in Hll.
  destruct Hll as (ok & b' & w' & rq' & E & R & B1 & B2 & C); [done|lia|done|done|].
  exists ok, b', w', rq'. split_and!; [done..|]. destruct ok; [|done].
  split_and!; [|congruence|lia|lia]. unfold rq_segs in *. congruence.
Qed.

Lemma merge_fn_eq (back : bool) w rq b : rqs w !! r = Some rq → bios rq ≠ [] →
  ∃ t, t ∈ bios rq ∧ (if back then ll_back_merge_fn r b else ll_front_merge_fn r b) w =
    (if u32 (blk_rq_sectors rq + bio_sectors b) >? merge_max_sectors (queue w) rq then
       no_merge r;; mret (false, b)
     else
       when (negb (bio_flagged t BIO_SEG_VALID)) (bio_write (blk_recount_segments (queue w) t));;
       ll_new_hw_segment r (recounted (queue w) b)) w.
Proof.
  intros Hr Hne.
  assert (∃ t : bio, t ∈ bios rq ∧ deref (if back then last (bios rq) else head (bios rq)) = Ok t) as (t & Ht & Et).
  { destruct back.
    - destruct (last (bios rq)) as [t|] eqn:E; [|by apply last_None in E].
      exists t. split; [by apply last_Some_elem_of|done].
    - destruct (bios rq) as [|t bs]; [done|]. exists t. split; [left|done]. }
  exists t. split; [done|].
  destruct back; [unfold ll_back_merge_fn|unfold ll_front_merge_fn];
    erewrite (st_bind_ok q_get) by reflexivity; erewrite st_bind_ok by (apply rq_get_ok; exact Hr);
    (destruct (_ >? _); [done|]); by erewrite st_bind_ok by (unfold lift; rewrite Et; reflexivity).
Qed.

(** A scatter list with an entry for each counted segment is large enough. *)
Lemma segs_of_map q vs cap : seg_limits_ok q → Forall bvec_ok vs → Z.of_nat (length vs) < 2 ^ 31 →
  segs_of q vs ≤ Z.of_nat cap → ∃ sgs, map_sg_loop q cap None vs [] = Ok sgs.
Proof.
  intros Hq Hvs Hlen Hcap.
  destruct (map_sg_loop_fits q cap vs None seg_start []) as (sgs & E & _);
    [done|done|done|by apply seg_start_inv|by split|by right|cbn; lia|done|by exists sgs].
Qed.
End fits.

(** C19: When a bio is accepted into a request, at its back or at its front, the
    number of segments noted for the request covers the joined chain and is
    within the limit of the queue, so that a scatter list of that many entries
    is large enough to map it, and the limit on the sectors holds; when it is
    refused, no later bio will be tried with the request. *)
Theorem bio_merge_fits {D} (back : bool) r (w : world D) rq b :
  let q := queue w in
  let joined := if back then rq_segs rq ++ bio_segs b else bio_segs b ++ rq_segs rq in
  seg_limits_ok q → rqs w !! r = Some rq → bios rq ≠ [] → NoDup (chain_ids (bios rq)) →
  Forall bvec_ok joined → Z.of_nat (length joined) < 2 ^ 31 →
  segs_of q (rq_segs rq) ≤ nr_phys_segments rq → counted q b → queue_max_segments q < 2 ^ 16 →
  ∃ ok b' w' rq', (if back then ll_back_merge_fn r b else ll_front_merge_fn r b) w = Ok ((ok, b'), w') ∧
    rqs w' !! r = Some rq' ∧
    if (ok : bool)
    then rq_segs rq' = rq_segs rq ∧ bio_segs b' = bio_segs b ∧
         segs_of q joined ≤ nr_phys_segments rq' ≤ queue_max_segments q ∧
         (∃ sgs, map_sg_loop q (Z.to_nat (nr_phys_segments rq')) None joined [] = Ok sgs) ∧
         u32 (blk_rq_sectors rq + bio_sectors b) ≤ merge_max_sectors q rq
    else tst (cmd_flags rq') REQ_NOMERGE = true ∧ last_merge (queue w') ≠ Some r.
Proof.
  intros q joined Hq Hr Hne Hnd Hvs Hlen Hcnt Hc Hmax.
  assert (Forall bvec_ok (rq_segs rq) ∧ Forall bvec_ok (bio_segs b) ∧
    Z.of_nat (length (rq_segs rq) + length (bio_segs b)) < 2 ^ 31 ∧
    segs_of q joined ≤ segs_of q (rq_segs rq) + segs_of q (bio_segs b)) as (Hv1 & Hv2 & Hl & Happ).
  { subst joined. pose proof (segs_of_app q (if back then rq_segs rq else bio_segs b)
      (if back then bio_segs b else rq_segs rq) Hq) as Happ.
    destruct back; rewrite length_app in Hlen; specialize (Happ Hvs); rewrite length_app in Happ;
      apply Forall_app in Hvs as [? ?]; split_and!; try done; lia. }
  destruct (recalc_fold_inv q (rq_segs rq) Hq Hv1 ltac:(lia)) as [_ N1].
  destruct (recalc_fold_inv q (bio_segs b) Hq Hv2 ltac:(lia)) as [_ N2].
  pose proof (λ t Ht, count_and_join r w rq b t joined Hr Hnd Ht Hc
    (conj (proj1 N1) Hcnt) (proj1 N2) Happ Hmax) as Hgo.
  fold q in Hgo. destruct (merge_fn_eq r back w rq b Hr Hne) as (t & Ht & ->). fold q.
  destruct (Z.gtb_spec (u32 (blk_rq_sectors rq + bio_sectors b)) (merge_max_sectors q rq)) as [Hgt|Hle].
  - destruct (no_merge_ok r w rq Hr) as (w' & rq' & E & R1 & _ & R3).
    exists false, b, w', rq'. by rewrite (st_bind_ok _ _ _ _ _ E).
  - destruct (Hgo t Ht) as (ok & b' & w' & rq' & E & R & C). exists ok, b', w', rq'. split_and!; [done..|].
    destruct ok; [|done]. destruct C as (C1 & C2 & C3 & C4). split_and!; try done.
    apply segs_of_map; try done. lia.
Qed.

Lemma page_bvec_ok i : Zpos i < 2 ^ 40 → bvec_ok (BioVec (Zpos i) 4096 0).
Proof. intros Hi. unfold bvec_ok. cbn. change PAGE_CACHE_SIZE with 4096. lia. Qed.

(** A page is read behind the one a request is for, in the next page of memory
    and with one segment for both. *)
Definition one_bio_rq : request := set_bios [page_bio 1 0] (sample_rq 0 0 8).
Lemma bio_merge_fits_witness :
  let w := rq_world (Rq 1) one_bio_rq in
  let joined := rq_segs one_bio_rq ++ bio_segs (page_bio 2 8) in
  ∃ ok b' w' rq', ll_back_merge_fn (Rq 1) (page_bio 2 8) w = Ok ((ok, b'), w') ∧
    rqs w' !! Rq 1 = Some rq' ∧
    if (ok : bool)
    then rq_segs rq' = rq_segs one_bio_rq ∧ bio_segs b' = bio_segs (page_bio 2 8) ∧
         segs_of (queue w) joined ≤ nr_phys_segments rq' ≤ queue_max_segments (queue w) ∧
         (∃ sgs, map_sg_loop (queue w) (Z.to_nat (nr_phys_segments rq')) None joined [] = Ok sgs) ∧
         u32 (blk_rq_sectors one_bio_rq + bio_sectors (page_bio 2 8)) ≤ merge_max_sectors (queue w) one_bio_rq
    else tst (cmd_flags rq') REQ_NOMERGE = true ∧ last_merge (queue w') ≠ Some (Rq 1).
Proof.
  apply (bio_merge_fits true (Rq 1) (rq_world (Rq 1) one_bio_rq) one_bio_rq (page_bio 2 8)).
  - split; [by split|]. exists 32. split; [lia|reflexivity].
  - reflexivity.
  - done.
  - repeat constructor; set_solver.
  - apply Forall_cons. split; [by apply page_bvec_ok|]. apply Forall_singleton. by apply page_bvec_ok.
  - reflexivity.
  - vm_compute. congruence.
  - intros E. discriminate E.
  - reflexivity.
Defined.

(** The limit is kept in 16 bits while it is compared.  An administrator who
    raises [max_sectors_kb] to a multiple of 32768, which a device with a large
    enough hardware limit accepts, turns merging off: no file system request
    takes a bio with data any more. *)
Theorem merge_limit_truncated {D} (back : bool) r (w : world D) rq b q0 k count :
  rqs w !! r = Some rq → bios rq ≠ [] → blk_pc_request rq = false →
  1 ≤ k < 2 ^ 16 → 65536 * k ≤ queue_max_hw_sectors q0 →
  queue_max_sectors_store q0 (queue_var_show (32768 * k)) count = (count, queue w) →
  0 < u32 (blk_rq_sectors rq + bio_sectors b) →
  queue_max_sectors (queue w) = 65536 * k ∧
  ∃ w', (if back then ll_back_merge_fn r b else ll_front_merge_fn r b) w = Ok ((false, b), w').
Proof.
  intros Hr Hne Hpc Hk Hhw Hst Hpos.
  assert (queue_max_sectors (queue w) = 65536 * k) as Hq.
  { revert Hst. unfold queue_max_sectors_store. rewrite var_store_show by lia.
    rewrite Z.shiftr_div_pow2 by done. change (Z.shiftl 1 _) with 4. change (2 ^ 1) with 2.
    pose proof (Z.div_le_mono _ _ 2 eq_refl Hhw) as Hd.
    replace (65536 * k / 2) with (32768 * k) in Hd by (apply Z.div_unique_exact; lia).
    destruct (Z.gtb_spec (32768 * k) (queue_max_hw_sectors q0 / 2)); [lia|].
    destruct (Z.ltb_spec (32768 * k) 4); [lia|]. intros [= <-].
    change (u32 (Z.shiftl (32768 * k) 1) = 65536 * k).
    rewrite Z.shiftl_mul_pow2, u32_id by lia. lia. }
  split; [done|]. destruct (merge_fn_eq r back w rq b Hr Hne) as (t & _ & ->).
  unfold merge_max_sectors. rewrite Hpc, Hq. unfold u16. change (2 ^ 16) with 65536.
  rewrite Z.mul_comm, Z_mod_mult. destruct (Z.gtb_spec (u32 (blk_rq_sectors rq + bio_sectors b)) 0); [|lia].
  destruct (no_merge_ok r w rq Hr) as (w' & rq' & E & _). exists w'. by rewrite (st_bind_ok _ _ _ _ _ E).
Qed.

Definition big_queue : request_queue := limits_upd (set_max_hw_sectors 131072) sample_queue.
Lemma merge_limit_truncated_witness :
  let w := set_queue (limits_upd (set_max_sectors 65536) big_queue) (rq_world (Rq 1) one_bio_rq) in
  queue_max_sectors (queue w) = 65536 * 1 ∧
  ∃ w', ll_back_merge_fn (Rq 1) (page_bio 2 8) w = Ok ((false, page_bio 2 8), w').
Proof.
  apply (merge_limit_truncated true (Rq 1)
    (set_queue (limits_upd (set_max_sectors 65536) big_queue) (rq_world (Rq 1) one_bio_rq))
    one_bio_rq (page_bio 2 8) big_queue 1 6).
  - reflexivity.
  - done.
  - reflexivity.
  - lia.
  - vm_compute. congruence.
  - reflexivity.
  - reflexivity.
Defined.

(** A write, and a discard of the sectors behind it. *)
Definition write_rq : request := set_bios [set_bi_rw 1 (page_bio 1 0)] (sample_rq 1 0 8).
Definition discard_rq : request :=
  set_bios [set_bi_rw (Z.lor 1 (Z.shiftl 1 BIO_RW_DISCARD)) (page_bio 2 8)]
    (set_cmd_flags (Z.lor (Z.lor 1 REQ_ELVPRIV) REQ_DISCARD) (sample_rq 1 8 8)).
Definition discard_world : world noop_data :=
  sample_world NoopData [(Rq 1, write_rq); (Rq 2, discard_rq)] [] [Rq 1; Rq 2].

(** A bio to discard sectors is never added to a request to write them, but
    a request to discard joins the write in front of it: the write then covers
    16 sectors, half of which were to be discarded. *)
Theorem discard_joins_write :
  elv_rq_merge_ok elevator_noop (Rq 1) (set_bi_rw (Z.lor 1 (Z.shiftl 1 BIO_RW_DISCARD)) (page_bio 2 8))
    discard_world = Ok (false, discard_world) ∧
  ∃ w' rq', attempt_back_merge elevator_noop (mret tt) (λ _ _ _, mret tt) (Rq 1) discard_world = Ok (true, w') ∧
    rqs w' !! Rq 1 = Some rq' ∧ blk_discard_rq rq' = false ∧ rq_data_dir rq' = 1 ∧
    blk_rq_sectors rq' = 16 ∧
    (λ b, bio_rw_flagged b BIO_RW_DISCARD) <$> bios rq' = [false; true].
Proof.
  split; [vm_compute; reflexivity|].
  let x := eval vm_compute in (attempt_back_merge elevator_noop (mret tt) (λ _ _ _, mret tt) (Rq 1) discard_world) in
  lazymatch x with Ok (_, ?w) => exists w end.
  eexists. split; [vm_compute; reflexivity|]. split; [vm_compute; reflexivity|]. split_and!; reflexivity.
Qed.
