(* ===== verification/Submit.v ===== *)
(** * Submission of a bio to a queue ([__make_request] of [block/blk-core.c])

    A bio joins a request that is queued already, or a new request is made for
    it and handed to the I/O scheduler.  [bounce] is [blk_queue_bounce] (see
    [Bounce]); [mem] and [sleeps] are the memory and the waits of the allocation
    of a request, as in [ReqList].  Statistics and traces are not modelled. *)

From S2P Require Import Prelude KList Request Samples Elevator Iosched Settings Segments ReqList.
From S2P Require Import Softirq Timeout Tags Complete Noop Dispatch Bounce Barrier Merge.

Local Open Scope Z_scope.

Definition queue_should_plug (q : request_queue) : bool := negb (blk_queue_nonrot q && blk_queue_tagged q).

Section submit.
Context {D : Type} (ops : elevator_ops D) (request_fn : ST (world D) unit).
Context (call_end_io : positive → rqid → Z → ST (world D) unit).
Context (bounce : bio → ST (world D) bio) (this_group : Z).

Definition add_request (r : rqid) : ST (world D) unit :=
  __elv_add_request ops request_fn r ELEVATOR_INSERT_SORT false.

(** [ELEVATOR_BACK_MERGE]: whether the bio was taken, and the bio.  [orig] is the
    bio before bouncing. *)
Definition make_back_merge (orig : bio) (r : rqid) (b : bio) : ST (world D) (bool * bio) :=
  let bytes := bi_size orig in
  let prio := u16 (bio_prio orig) in
  let ff := Z.land (bi_rw orig) REQ_FAILFAST_MASK in
  rq ← rq_get r;
  bug_on (negb (rq_mergeable rq));;
  '(ok, b) ← ll_back_merge_fn r b;
  if negb ok then mret (false, b) else
  rq ← rq_get r;
  when (negb (Z.land (cmd_flags rq) REQ_FAILFAST_MASK =? ff)) (blk_rq_set_mixed_merge r);;
  rq_upd r (λ rq, set_bios (bios rq ++ [b]) rq);;
  rq_upd r (λ rq, set___data_len (u32 (__data_len rq + bytes)) rq);;
  rq_upd r (λ rq, set_ioprio (u16 (ioprio_best (ioprio rq) prio)) rq);;
  rq ← rq_get r;
  when (negb (blk_rq_cpu_valid rq)) (rq_upd r (set_cpu (bi_comp_cpu b)));;
  merged ← attempt_back_merge ops request_fn call_end_io r;
  when (negb merged) (elv_merged_request ops r ELEVATOR_BACK_MERGE);;
  mret (true, b).

(** [ELEVATOR_FRONT_MERGE].  [req->buffer] is not modelled. *)
Definition make_front_merge (orig : bio) (r : rqid) (b : bio) : ST (world D) (bool * bio) :=
  let bytes := bi_size orig in
  let prio := u16 (bio_prio orig) in
  let ff := Z.land (bi_rw orig) REQ_FAILFAST_MASK in
  rq ← rq_get r;
  bug_on (negb (rq_mergeable rq));;
  '(ok, b) ← ll_front_merge_fn r b;
  if negb ok then mret (false, b) else
  rq ← rq_get r;
  when (negb (Z.land (cmd_flags rq) REQ_FAILFAST_MASK =? ff))
    (blk_rq_set_mixed_merge r;;
     rq_upd r (λ rq, set_cmd_flags (Z.lor (Z.ldiff (cmd_flags rq) REQ_FAILFAST_MASK) ff) rq));;
  rq_upd r (λ rq, set_bios (b :: bios rq) rq);;
  rq_upd r (set___sector (bi_sector b));;
  rq_upd r (λ rq, set___data_len (u32 (__data_len rq + bytes)) rq);;
  rq_upd r (λ rq, set_ioprio (u16 (ioprio_best (ioprio rq) prio)) rq);;
  rq ← rq_get r;
  when (negb (blk_rq_cpu_valid rq)) (rq_upd r (set_cpu (bi_comp_cpu b)));;
  merged ← attempt_front_merge ops request_fn call_end_io r;
  when (negb merged) (elv_merged_request ops r ELEVATOR_FRONT_MERGE);;
  mret (true, b).

(** From the label [get_rq]: a new request for the bio. *)
Definition make_get_rq (cur : option io_context) (mem : option positive) (sleeps : list sleep)
    (orig b : bio) : ST (world D) (option io_context) :=
  let rw_flags := bio_data_dir b in
  let rw_flags := if bio_rw_flagged orig BIO_RW_SYNCIO then Z.lor rw_flags REQ_RW_SYNC else rw_flags in
  '(r, cur) ← get_request_wait ops request_fn cur mem rw_flags sleeps;
  init_request_from_bio r b [];;
  q ← q_get;
  when (test_bit QUEUE_FLAG_SAME_COMP (queue_flags q) || bio_flagged b BIO_CPU_AFFINE)
    (rq_upd r (set_cpu this_group));;
  empty ← (if queue_should_plug q then elv_queue_empty ops else mret false);
  when empty blk_plug_device;;
  add_request r;;
  mret cur.

(** Try to merge: whether the bio was taken, and the bio. *)
Definition make_merge (orig b : bio) : ST (world D) (bool * bio) :=
  empty ← (if bio_rw_flagged b BIO_RW_BARRIER then mret true else elv_queue_empty ops);
  if (empty : bool) then mret (false, b) else
  '(el_ret, req) ← elv_merge ops b;
  match req with
  | Some r =>
    if el_ret =? ELEVATOR_BACK_MERGE then make_back_merge orig r b
    else if el_ret =? ELEVATOR_FRONT_MERGE then make_front_merge orig r b
    else mret (false, b)
  | None => mret (false, b)
  end.

Definition __make_request (cur : option io_context) (mem : option positive) (sleeps : list sleep)
    (orig : bio) : ST (world D) (Z * option io_context) :=
  let unplug := bio_rw_flagged orig BIO_RW_UNPLUG in
  q ← q_get;
  if bio_rw_flagged orig BIO_RW_BARRIER && (next_ordered q =? QUEUE_ORDERED_NONE) then
    bio_endio orig (- EOPNOTSUPP);;
    mret (0, cur)
  else
  b ← bounce orig;
  '(taken, b) ← make_merge orig b;
  cur ← (if (taken : bool) then mret cur else make_get_rq cur mem sleeps orig b);
  q ← q_get;
  when (unplug || negb (queue_should_plug q)) (__generic_unplug_device request_fn);;
  mret (0, cur).
End submit.

(** ** The sectors of a request *)

(** Where each bio of a chain starts and how many bytes it has. *)
Definition spans (bs : list bio) : list (Z * Z) := (λ b, (bi_sector b, bi_size b)) <$> bs.
Fixpoint span_bytes (l : list (Z * Z)) : Z :=
  match l with [] => 0 | (_, n) :: l => n + span_bytes l end.

(** The spans are whole sectors without gaps from [pos]. *)
Fixpoint seamless (pos : Z) (l : list (Z * Z)) : Prop :=
  match l with
  | [] => True
  | (s, n) :: l => s = pos ∧ 0 < n ∧ n mod 512 = 0 ∧ seamless (pos + n / 512) l
  end.

(** A request stands for the sectors of its bios: they follow each other from
    its position, and its length is their sum. *)
Record covers (rq : request) : Prop := {
  covers_bios : bios rq ≠ [];
  covers_seam : seamless (__sector rq) (spans (bios rq));
  covers_len : __data_len rq = span_bytes (spans (bios rq));
  covers_small : span_bytes (spans (bios rq)) < 2 ^ 32;
  covers_pos : 0 ≤ __sector rq ∧ __sector rq + span_bytes (spans (bios rq)) / 512 < 2 ^ 64
}.

Lemma span_bytes_app l k : span_bytes (l ++ k) = span_bytes l + span_bytes k.
Proof. induction l as [|[s n] l IH]; cbn; [done|]. rewrite IH. lia. Qed.

Lemma seamless_bytes l : ∀ pos, seamless pos l → 0 ≤ span_bytes l ∧ span_bytes l mod 512 = 0.
Proof.
  induction l as [|[s n] l IH]; intros pos; cbn; [done|]. intros (_ & Hn & Hm & Hl).
  destruct (IH _ Hl) as [? E]. split; [lia|]. rewrite Z.add_mod, Hm, E by lia. done.
Qed.

Lemma seamless_app l : ∀ pos k, seamless pos l → seamless (pos + span_bytes l / 512) k → seamless pos (l ++ k).
Proof.
  induction l as [|[s n] l IH]; intros pos k; cbn [app seamless span_bytes].
  { by rewrite Z.add_0_r. }
  intros (-> & Hn & Hm & Hl) Hk. split_and!; try done. apply IH; [done|].
  destruct (seamless_bytes _ _ Hl).
  assert ((n + span_bytes l) / 512 = n / 512 + span_bytes l / 512) as E.
  { rewrite (Z.div_mod n 512) at 1 by lia. rewrite Hm, Z.add_0_r, Z.mul_comm, Z.div_add_l by lia. done. }
  rewrite E, Z.add_assoc in Hk. done.
Qed.

(** What identifies a bio and says which sectors it is for. *)
Definition bio_key (b : bio) : positive * Z * Z := (bi_id b, bi_sector b, bi_size b).

Lemma keys_spans (bs cs : list bio) : bio_key <$> bs = bio_key <$> cs → spans bs = spans cs.
Proof.
  intros E. unfold spans. change (λ b, (bi_sector b, bi_size b)) with ((λ k, (k.1.2, k.2)) ∘ bio_key).
  by rewrite !list_fmap_compose, E.
Qed.
Lemma covers_same rq rq' : covers rq → __sector rq' = __sector rq → __data_len rq' = __data_len rq →
  bio_key <$> bios rq' = bio_key <$> bios rq → covers rq'.
Proof.
  intros [Hne Hs Hl Hsm Hp] E1 E2 E3. split; rewrite ?E1, ?E2, ?(keys_spans _ _ E3); try done.
  intros E. rewrite E in E3. by destruct (bios rq).
Qed.

(** A bio of whole sectors within the range of sector numbers. *)
Record bio_fits (b : bio) : Prop := {
  fits_size : 0 < bi_size b < 2 ^ 32 ∧ bi_size b mod 512 = 0;
  fits_pos : 0 ≤ bi_sector b ∧ bi_sector b + bi_size b / 512 < 2 ^ 64
}.

(** Off the hash, the position and the length of a request may change. *)
Lemma hash_wf_off r tbl h rq : hash_wf tbl (hash_del r h) → hash_wf (<[r := rq]> tbl) (hash_del r h).
Proof.
  intros [H1 H2 H3]. split; [done| |done]. intros i c p Hi Hp.
  destruct (H2 i c p Hi Hp) as (prq & Hprq & E). exists prq. split; [|done]. rewrite lookup_insert_ne; [done|].
  intros <-. assert (ELV_ON_HASH r (hash_del r h) = true) as Hon by (apply on_hash_spec; eauto).
  by rewrite hash_del_off in Hon.
Qed.

(** ** A new request *)

Definition barrier_flags : Z := Z.lor REQ_SOFTBARRIER REQ_HARDBARRIER.

Lemma flags_from_bio_plain b : bio_rw_flagged b BIO_RW_BARRIER = false →
  tst (flags_from_bio b) barrier_flags = false.
Proof.
  intros Hb. unfold flags_from_bio. rewrite Hb.
  assert (∀ m, tst (Z.land (bi_rw b) m) barrier_flags = true → tst m barrier_flags = true) as Hm.
  { intros m. unfold tst. rewrite <-Z.land_assoc, !negb_true_iff, !Z.eqb_neq. intros H E. rewrite E, Z.land_0_r in H. done. }
  destruct (tst _ _) eqn:E; [|done]. exfalso. revert E.
  repeat (destruct (bio_rw_flagged b _)); rewrite ?tst_lor; intros E; repeat (apply orb_true_iff in E as [E|E]);
    try done; apply Hm in E; done.
Qed.

(** The flags of a new request for a bio that is no barrier. *)
Lemma fresh_flags rq rq' b : cmd_flags rq' = Z.lor (Z.lor (cmd_flags rq) (flags_from_bio b)) (Z.land (bi_rw b) REQ_RW) →
  tst (cmd_flags rq) barrier_flags = false → tst (cmd_flags rq) REQ_ELVPRIV = true →
  bio_rw_flagged b BIO_RW_BARRIER = false →
  tst (cmd_flags rq') barrier_flags = false ∧ tst (cmd_flags rq') REQ_ELVPRIV = true.
Proof.
  intros E Hbar Hpriv Hnb. rewrite E, !tst_lor, Hbar, Hpriv, (flags_from_bio_plain b Hnb). split; [|done]. unfold tst.
  rewrite <-Z.land_assoc. change (Z.land REQ_RW barrier_flags) with 0. by rewrite Z.land_0_r.
Qed.

Section new_request.
Context {D : Type} (ops : elevator_ops D) (sched : world D → list rqid → Prop)
  (ready : world D → rqid → Prop) `{!IoSched ops sched ready}.
Implicit Types (w : world D).

(** The new request, with the bio as its only one. *)
Lemma init_fresh w r rq b : rqs w !! r = Some rq → bios rq = [] → bio_fits b →
  (∀ p prq, rqs w !! p = Some prq → bi_id b ∉ chain_ids (bios prq)) →
  ∃ rq', init_request_from_bio r b [] w = Ok (tt, set_rqs (<[r := rq']> (rqs w)) w) ∧ covers rq' ∧
    bio_key <$> bios rq' = [bio_key b] ∧ blk_fs_request rq' = true ∧
    cmd_flags rq' = Z.lor (Z.lor (cmd_flags rq) (flags_from_bio b)) (Z.land (bi_rw b) REQ_RW).
Proof.
  intros Hr Hb Hf Hnew.
  destruct (init_request_from_bio_ok w r rq b Hr Hb)
    as (ob & rq' & b' & E & I1 & I2 & I8 & I3 & I4 & _ & _ & I7 & I9 & I10 & I11).
  exists rq'. assert (stored ob <$> rqs w = rqs w) as Est.
  { apply map_eq. intros p. rewrite lookup_fmap. destruct (rqs w !! p) as [prq|] eqn:Ep; [|done]. cbn. f_equal.
    destruct ob as [c|]; [|done]. cbn. rewrite store_bio_absent; [apply set_bios_id|].
    destruct (I8 c eq_refl) as [-> _]. by apply (Hnew p). }
  rewrite Est in E. split; [done|]. unfold blk_rq_bytes in I3. destruct Hf as [[Hn Hm] Hp].
  split; [|rewrite I1; cbn; unfold bio_key; by rewrite I2, I10, I11].
  split; rewrite ?I1, ?I9, ?I3; cbn; rewrite ?I2, ?I10, ?Z.add_0_r; try done; lia.
Qed.
(** Adding a request that is no barrier hands it to the scheduler. *)
Lemma add_request_ok w ds xs r rq : dispatch_rep w ds → sched w xs → NoDup (ds ++ xs) → r ∉ ds ++ xs →
  rqs w !! r = Some rq → tst (cmd_flags rq) barrier_flags = false → tst (cmd_flags rq) REQ_ELVPRIV = true →
  blk_fs_request rq = true → hash_wf (rqs w) (hash w) → ELV_ON_HASH r (hash w) = false →
  (∀ rq', ready (set_rqs (<[r := set_cmd_flags rq' rq]> (rqs w)) w) r) →
  ∃ w' moved rest xs' f, (∀ request_fn, add_request ops request_fn r w = after_insert request_fn w') ∧
    xs ≡ₚ moved ++ rest ∧ dispatch_rep w' (ds ++ moved) ∧ sched w' xs' ∧ xs' ≡ₚ r :: rest ∧
    nr_sorted (queue w') = u32 (nr_sorted (queue w) + 1 - Z.of_nat (length moved)) ∧ queue_flags (queue w') = queue_flags (queue w) ∧
    rqs w' = <[r := set_cmd_flags f rq]> (rqs w).
Proof.
  intros Hd Hs Hnd Hn Hr Hbar Hpriv Hfs Hh Hoff Hrdy. set (rq1 := coloured (queue w) rq).
  assert (∃ f, rq1 = set_cmd_flags f rq) as [f Ef].
  { unfold rq1, coloured. destruct (_ =? 0); [exists (cmd_flags rq); by destruct rq|by eexists]. }
  assert (tst (cmd_flags rq1) barrier_flags = false ∧ tst (cmd_flags rq1) REQ_ELVPRIV = true ∧
    blk_fs_request rq1 = true) as (B1 & P1 & F1).
  { unfold rq1, coloured. destruct (_ =? 0); [done|]. cbn. rewrite !tst_lor, Hbar, Hpriv. done. }
  set (w1 := set_rqs (<[r := rq1]> (rqs w)) w).
  destruct (holds_upd w ds xs r rq rq1) as [Hd1 Hs1]; [done..|].
  assert (rqs w1 !! r = Some rq1) as Hr1 by apply lookup_insert_eq.
  destruct (elv_insert_sort_ok w1 ds xs r rq1) as (w2 & moved & rest & xs' & E2 & Hmv & Hd2 & Hs2 & Hp & Hnr & Erq & Efl & _); try done.
  { unfold w1. rewrite Ef. apply Hrdy. }
  { by rewrite F1. }
  { unfold w1. cbn. rewrite Ef. by apply hash_wf_upd. }
  exists w2, moved, rest, xs', (Z.lor (cmd_flags rq1) REQ_SORTED). split_and!; try done.
  2: { rewrite Erq. unfold w1. cbn. rewrite insert_insert_eq, Ef. done. }
  intros request_fn. unfold add_request, __elv_add_request. erewrite (st_bind_ok q_get) by reflexivity.
  assert (when (negb (ordcolor (queue w) =? 0))
    (rq_upd r (λ rq, set_cmd_flags (Z.lor (cmd_flags rq) REQ_ORDERED_COLOR) rq)) w = Ok (tt, w1)) as E1.
  { unfold w1, rq1, coloured. destruct (ordcolor (queue w) =? 0); cbn [negb when]; [|by rewrite (rq_upd_ok _ _ _ _ Hr)].
    rewrite insert_id by done. by destruct w. }
  st_step E1. st_step (rq_get_ok _ _ _ Hr1). fold barrier_flags. rewrite B1, P1. cbn [negb andb].
  do 2 erewrite st_bind_ok by reflexivity.
  unfold elv_insert. rewrite (st_bind_ok _ _ w1 true w2); [done|].
  change (ELEVATOR_INSERT_SORT =? ELEVATOR_INSERT_FRONT) with false.
  change (ELEVATOR_INSERT_SORT =? ELEVATOR_INSERT_BACK) with false.
  change (ELEVATOR_INSERT_SORT =? ELEVATOR_INSERT_SORT) with true. cbv iota. by st_step E2.
Qed.
End new_request.

(** C34: A bio that no request took gets one of its own: the new request covers
    exactly the sectors of the bio and is held by the scheduler beside what it
    had, less what the scheduler sent on to the driver on its account; when the queue held nothing it is plugged, so that the driver is not
    run before more requests came in or the plug is pulled. *)
Theorem new_request_queued {D} (ops : elevator_ops D) sched ready `{!IoSched ops sched ready}
    request_fn this_group cur mem sleeps orig b w r cur' w1 rq ds xs :
  get_request_wait ops request_fn cur mem
    (if bio_rw_flagged orig BIO_RW_SYNCIO then Z.lor (bio_data_dir b) REQ_RW_SYNC else bio_data_dir b)
    sleeps w = Ok ((r, cur'), w1) →
  rqs w1 !! r = Some rq → bios rq = [] →
  tst (cmd_flags rq) barrier_flags = false → tst (cmd_flags rq) REQ_ELVPRIV = true →
  dispatch_rep w1 ds → sched w1 xs → NoDup (ds ++ xs) → r ∉ ds ++ xs →
  hash_wf (rqs w1) (hash w1) → ELV_ON_HASH r (hash w1) = false →
  (∀ w2 rq2, links w2 = links w1 → elevator_data w2 = elevator_data w1 →
     rqs w2 !! r = Some rq2 → bios rq2 ≠ [] → ready w2 r) →
  bio_fits b → bio_rw_flagged b BIO_RW_BARRIER = false →
  (∀ p prq, rqs w1 !! p = Some prq → bi_id b ∉ chain_ids (bios prq)) →
  ∃ w' moved rest xs' rq', make_get_rq ops request_fn this_group cur mem sleeps orig b w
      = (after_insert request_fn;; mret cur') w' ∧
    xs ≡ₚ moved ++ rest ∧ dispatch_rep w' (ds ++ moved) ∧ sched w' xs' ∧ xs' ≡ₚ r :: rest ∧
    rqs w' !! r = Some rq' ∧ covers rq' ∧ bio_key <$> bios rq' = [bio_key b] ∧
    (∀ p, p ≠ r → rqs w' !! p = rqs w1 !! p) ∧ 
    nr_sorted (queue w') = u32 (nr_sorted (queue w1) + 1 - Z.of_nat (length moved)) ∧
    (ds = [] → xs = [] → queue_should_plug (queue w1) = true → blk_queue_stopped (queue w1) = false →
     blk_queue_plugged (queue w') = true).
Proof.
  intros Eget Hr Hb Hbar Hpriv Hd Hs Hnd Hn Hh Hoff Hrdy Hf Hnb Hnew.
  destruct (init_fresh w1 r rq b Hr Hb Hf Hnew) as (rq2 & E2 & Hc & Hk & Hfs & Hfl).
  unfold make_get_rq. st_step Eget. st_step E2. erewrite (st_bind_ok q_get) by reflexivity. cbn [queue set_rqs].
  set (w2 := set_rqs (<[r := rq2]> (rqs w1)) w1).
  assert (rqs w2 !! r = Some rq2) as Hr2 by apply lookup_insert_eq.
  assert (∃ rq3, when (test_bit QUEUE_FLAG_SAME_COMP (queue_flags (queue w1)) || bio_flagged b BIO_CPU_AFFINE)
    (rq_upd r (set_cpu this_group)) w2 = Ok (tt, set_rqs (<[r := rq3]> (rqs w1)) w1) ∧
    (rq3 = rq2 ∨ rq3 = set_cpu this_group rq2)) as (rq3 & E3 & H3).
  { destruct (test_bit _ _ || _); cbn [when]; [exists (set_cpu this_group rq2)|exists rq2]; split; auto.
    rewrite (rq_upd_ok _ _ _ _ Hr2). unfold w2. wcbn. by rewrite insert_insert_eq. }
  st_step E3. set (w3 := set_rqs (<[r := rq3]> (rqs w1)) w1).
  assert (covers rq3 ∧ bio_key <$> bios rq3 = [bio_key b] ∧ blk_fs_request rq3 = true ∧
    tst (cmd_flags rq3) barrier_flags = false ∧ tst (cmd_flags rq3) REQ_ELVPRIV = true) as (Hc3 & Hk3 & Hfs3 & B3 & P3).
  { destruct (fresh_flags rq rq2 b) as [? ?]; [done..|]. destruct H3 as [->| ->]; split_and!; try done. by apply (covers_same rq2). }
  destruct (holds_upd w1 ds xs r rq rq3) as [Hd3 Hs3]; [done..|].
  assert ((if queue_should_plug (queue w1) then elv_queue_empty ops else mret false) w3 =
    Ok (queue_should_plug (queue w1) && (bool_decide (ds = []) && bool_decide (xs = [])), w3)) as Ee.
  { destruct (queue_should_plug (queue w1)); [|done]. by apply elv_queue_empty_ok. }
  st_step Ee. destruct (plug_ok w3 (queue_should_plug (queue w1) && (bool_decide (ds = []) && bool_decide (xs = []))))
    as (q4 & E4 & _ & N4 & Hplug).
  st_step E4. set (w4 := set_queue q4 w3).
  assert (rqs w4 !! r = Some rq3) as Hr4 by apply lookup_insert_eq.
  destruct (add_request_ok ops sched ready w4 ds xs r rq3) as (w5 & moved & rest & xs' & f & E5 & Hm5 & Hd5 & Hs5 & Hp5 & N5 & F5 & R5); try done.
  { by destruct Hd3. }
  { by apply (sched_frame w3 w4 xs []); [done..|apply frame_refl|lelem]. }
  { cbn. rewrite <-(hash_del_id r (hash w1)) by done. apply hash_wf_off. by rewrite hash_del_id. }
  { intros f. apply (Hrdy _ (set_cmd_flags f rq3)); [done|done|apply lookup_insert_eq|]. apply Hc3. }
  exists w5, moved, rest, xs', (set_cmd_flags f rq3). rewrite R5. split_and!; try done.
  - unfold mbind, st_bind. by rewrite E5.
  - apply lookup_insert_eq.
  - by apply (covers_same rq3).
  - intros p Hp. cbn. by rewrite !lookup_insert_ne.
  - rewrite N5. change (queue w4) with q4. by rewrite N4.
  - intros -> -> Hsp Hst. unfold blk_queue_plugged. rewrite F5. apply Hplug; [by rewrite Hsp|done].
Qed.

Definition empty_world : world noop_data := sample_world NoopData [] [] [].
(** The empty queue after the allocation of a request. *)
Definition allocated_world : world noop_data :=
  match get_request_wait elevator_noop (mret tt) None (Some 7%positive) 0 [] empty_world with
  | Ok (_, w) => w
  | Err _ => empty_world
  end.
Definition allocated_rq : request := fresh_rq 0 0 true.

Lemma new_request_queued_witness :
  ∃ w' xs' rq', make_get_rq elevator_noop (mret tt) 0 None (Some 7%positive) [] merge_bio merge_bio empty_world
      = (after_insert (mret tt);; mret None) w' ∧
    one_list 0 w' xs' ∧ xs' ≡ₚ [Rq 7] ∧ rqs w' !! Rq 7 = Some rq' ∧ covers rq' ∧
    bio_key <$> bios rq' = [bio_key merge_bio] ∧ blk_queue_plugged (queue w') = true.
Proof.
  destruct (new_request_queued elevator_noop (one_list 0) noop_ready (mret tt) 0 None (Some 7%positive) []
    merge_bio merge_bio empty_world (Rq 7) None allocated_world allocated_rq [] [])
    as (w' & moved & rest & xs' & rq' & E & Hm & Hd & Hs & Hp & Hr & Hc & Hk & _ & _ & Hpl).
  - vm_compute. reflexivity.
  - vm_compute. reflexivity.
  - reflexivity.
  - reflexivity.
  - reflexivity.
  - apply (bool_decide_unpack _). vm_compute. exact I.
  - apply (bool_decide_unpack _). vm_compute. exact I.
  - apply NoDup_nil_2.
  - apply not_elem_of_nil.
  - assert (hash allocated_world = replicate 64 []) as -> by (vm_compute; reflexivity). apply hash_wf_empty.
  - vm_compute. reflexivity.
  - intros w2 rq2 Hl _ Hr2 _. split; [|by exists rq2]. rewrite Hl. vm_compute. eexists. reflexivity.
  - split; vm_compute; repeat split; try done.
  - reflexivity.
  - assert (rqs allocated_world = {[ Rq 7 := allocated_rq ]}) as -> by (vm_compute; reflexivity).
    intros p prq [_ <-]%lookup_singleton_Some. apply not_elem_of_nil.
  - exists w', xs', rq'. split; [exact E|]. split; [exact Hs|].
    split; [|split; [exact Hr|]].
    { symmetry in Hm. apply Permutation_nil_r, app_nil in Hm as [_ ->]. exact Hp. }
   
    split; [exact Hc|]. split; [exact Hk|]. by apply Hpl.
Defined.
