(* ===== verification/Joining.v ===== *)
(** * Bios and requests that join ([__make_request] of [block/blk-core.c],
    [block/blk-merge.c])

    A bio that continues a queued request is added to it, and the request may
    then meet a neighbour, which it absorbs.  This file follows the sectors
    through both steps. *)

From S2P Require Import Prelude KList Request Samples Elevator Iosched Settings Segments ReqList.
From S2P Require Import Softirq Timeout Tags Complete Noop Look Dispatch Bounce Barrier Merge Submit.

Local Open Scope Z_scope.

(** ** Steps that leave the sectors alone *)



(** The sectors of a request, and what decides on its release. *)
Record same_place (rq rq' : request) : Prop := {
  place_sector : __sector rq' = __sector rq;
  place_len : __data_len rq' = __data_len rq;
  place_ref : ref_count rq' = ref_count rq;
  place_alloced : is_alloced rq' = is_alloced rq;
  place_started : blk_rq_started rq' = blk_rq_started rq
}.
#[global] Instance same_place_preorder : PreOrder same_place.
Proof. split; [by split|]. intros a b c [] []. split; congruence. Qed.



Section touching.
Context {D : Type} (X : list rqid).
Implicit Types (w : world D) (r : rqid).












End touching.

(** ** Absorbing a neighbour *)





Section absorbing.
Context {D : Type} (X : list rqid).
Implicit Types (w : world D) (r n : rqid).






End absorbing.

(** ** Sectors that join *)





(** ** What the core asks of a scheduler that leaves merging to it *)
Class CoreMerging {D} (ops : elevator_ops D) (sched : world D → list rqid → Prop) := {
  cm_allow : elevator_allow_merge_fn ops = None;
  cm_merge : elevator_merge_fn ops = None;
  cm_merged : elevator_merged_fn ops = None;
  cm_put : puts_own_data ops;
  (** It holds requests; what else there is to them is of no importance. *)
  cm_keep : ∀ w w' xs, sched w xs → links w' = links w → elevator_data w' = elevator_data w →
    (∀ r, r ∈ xs → ∃ rq, rqs w' !! r = Some rq ∧ bios rq ≠ []) → sched w' xs;
  cm_neighbours : ∀ w xs r, sched w xs → r ∈ xs →
    ∃ n p, elv_latter_request ops r w = Ok (n, w) ∧ elv_former_request ops r w = Ok (p, w) ∧
      ∀ x, n = Some x ∨ p = Some x → x ∈ xs ∧ x ≠ r;
  (** A request that is absorbed leaves the scheduler. *)
  cm_absorb : ∀ w xs r n, sched w xs → r ∈ xs → n ∈ xs → r ≠ n →
    ∃ h d, match elevator_merge_req_fn ops with Some f => f r n | None => mret tt end w
        = Ok (tt, set_elevator_data d (set_links h w)) ∧ is_list h (queuelist n) []
}.

Section attempt.
Context {D : Type} (ops : elevator_ops D) (sched : world D → list rqid → Prop) `{!CoreMerging ops sched}.
Context (request_fn : ST (world D) unit) (call_end_io : positive → rqid → Z → ST (world D) unit) (X : list rqid).
Implicit Types (w : world D).













(** ** Joining a bio with a request *)





















End attempt.

(** ** Schedulers that keep their requests on a list *)
Section listed.
Context {D : Type} (i : nat).
Implicit Types (w : world D).

(** The request a pointer to a neighbour leads to. *)
Definition neighbour_at (p : ptr laddr) : ST (world D) (option rqid) :=
  if bool_decide (p = Ptr (sched_head i)) then mret None else r ← lift (list_entry_rq p); mret (Some r).

Lemma neighbour_at_ok w (l : list rqid) a : a ∈ sched_head i :: (queuelist <$> l) →
  ∃ n, neighbour_at (Ptr a) w = Ok (n, w) ∧ ∀ x, n = Some x → x ∈ l.
Proof.
  unfold neighbour_at. intros [->|(x & -> & Hx)%list_elem_of_fmap]%elem_of_cons.
  - exists None. by rewrite bool_decide_true.
  - exists (Some x). rewrite bool_decide_false by done. split; [done|]. by intros ? [= <-].
Qed.

Lemma hd_elem {A} (d : A) l : List.hd d l ∈ d :: l.
Proof. destruct l; cbn; [by left|]. right. by left. Qed.

Lemma one_list_neighbours w xs r : one_list i w xs → r ∈ xs →
  ∃ n p, (a ← on_links (get_next (Ptr (queuelist r))); neighbour_at a) w = Ok (n, w) ∧
    (a ← on_links (get_prev (Ptr (queuelist r))); neighbour_at a) w = Ok (p, w) ∧
    ∀ x, n = Some x ∨ p = Some x → x ∈ xs ∧ x ≠ r.
Proof.
  intros Ho Hr. pose proof (one_list_nodup _ _ _ Ho) as Hnd. destruct Ho as [Hl _].
  apply list_elem_of_split in Hr as (l1 & l2 & ->). rewrite fmap_app in Hl.
  destruct (is_list_at _ _ _ _ _ Hl) as [Hp Hn].
  destruct (neighbour_at_ok w l2 (List.hd (sched_head i) (queuelist <$> l2))) as (n & En & H1); [apply hd_elem|].
  destruct (neighbour_at_ok w l1 (List.last (queuelist <$> l1) (sched_head i))) as (p & Ep & H2); [apply last_default_elem|].
  exists n, p. erewrite !st_bind_ok by (apply on_links_read; first [apply get_next_ok; exact Hn|apply get_prev_ok; exact Hp]).
  split_and!; [done..|]. apply NoDup_app in Hnd as (_ & Hd & [H3 _]%NoDup_cons).
  intros x [Hx|Hx]; [apply H1 in Hx|apply H2 in Hx]; (split; [set_solver|]); intros ->; [done|].
  apply (Hd r Hx). by left.
Qed.

Lemma one_list_absorb w xs n : one_list i w xs → n ∈ xs →
  ∃ h, on_links (list_del_init (Ptr (queuelist n))) w = Ok (tt, set_elevator_data (elevator_data w) (set_links h w)) ∧
    is_list h (queuelist n) [].
Proof.
  intros [Hl _] Hn. apply list_elem_of_split in Hn as (l1 & l2 & ->). rewrite fmap_app in Hl.
  destruct (list_del_init_spec _ _ _ _ _ Hl) as (h & E & [_ H2] & _). exists h. split; [|done].
  rewrite (on_links_ok _ _ _ _ E). by destruct w.
Qed.

Lemma one_list_keep w w' xs : one_list i w xs → links w' = links w → (∀ r, r ∈ xs → is_Some (rqs w' !! r)) →
  one_list i w' xs.
Proof. intros [Hl _] El Hr. split; [by rewrite El|done]. Qed.
End listed.

#[export] Instance noop_core_merging : CoreMerging elevator_noop (one_list 0).
Proof.
  split; try done.
  - intros r w. exists (elevator_data w). by destruct w.
  - intros w w' xs Ho El _ Hr. apply (one_list_keep 0 w); [done..|]. intros r Hin. destruct (Hr r Hin) as (rq & ? & _). eauto.
  - apply one_list_neighbours.
  - intros w xs r n Ho _ Hn _. destruct (one_list_absorb 0 w xs n Ho Hn) as (h & E & Hl). by exists h, (elevator_data w).
Qed.

#[export] Instance look_core_merging : CoreMerging elevator_look look_rep.
Proof.
  split; try done.
  - intros r w. exists (elevator_data w). by destruct w.
  - intros w w' xs [Ho Hb Hd] El Ed Hr. split; [| |by rewrite Ed].
    + apply (one_list_keep 0 w); [done..|]. intros r Hin. destruct (Hr r Hin) as (rq & ? & _). eauto.
    + intros r rq Hin Hrq. destruct (Hr r Hin) as (rq' & ? & ?). by simplify_eq.
  - intros w xs r [Ho _ _]. by apply one_list_neighbours.
  - intros w xs r n [Ho _ _] _ Hn _. destruct (one_list_absorb 0 w xs n Ho Hn) as (h & E & Hl). by exists h, (elevator_data w).
Qed.


(** A read of the first eight sectors and one of the third eight are queued; a bio
    for those between them comes in. *)
Definition pool_rq (id : positive) (pos : Z) : request :=
  set_cmd_flags (Z.lor REQ_ELVPRIV REQ_ALLOCED) (set_bios [page_bio id pos] (sample_rq 0 pos 8)).
Definition gap_world : world noop_data :=
  let w := sample_world NoopData [(Rq 1, pool_rq 1 0); (Rq 2, pool_rq 3 16)] [] [Rq 1; Rq 2] in
  set_hash (<[Z.to_nat (ELV_HASH_FN 24) := [Rq 2]]> (<[Z.to_nat (ELV_HASH_FN 8) := [Rq 1]]> (hash w))) w.
Definition gap_bio : bio := page_bio 2 8.
Definition fill_gap : res (bool * bio * world noop_data) :=
  make_merge elevator_noop (mret tt) (λ _ _ _, mret tt) gap_bio gap_bio gap_world.



(** The gap is filled: one request of 24 sectors is left. *)
Example gap_filled :
  match fill_gap with
  | Ok (_, w) => rqs w !! Rq 2 = None ∧ last_merge (queue w) = Some (Rq 1) ∧
      (λ rq, (__sector rq, __data_len rq, bi_id <$> bios rq)) <$> rqs w !! Rq 1
        = Some (0, 24 * 512, [1; 2; 3]%positive)
  | Err _ => False
  end.
Proof. vm_compute. repeat split. Qed.
