(* ===== verification/RbTree.v ===== *)
(** * Red-black trees ([lib/rbtree.c], [include/linux/rbtree.h])

    The heap maps the address of every [struct rb_node] to its parent, colour and
    children; the parent and the colour are kept in one word by the C code, in
    separate fields here.  Functions that are mirror images of one another
    ([__rb_rotate_left] and [__rb_rotate_right], the two halves of the loops,
    [rb_first] and [rb_last], [rb_next] and [rb_prev]) are one definition that
    takes the side.  The proofs relate the heap to a tree with a hole ([zrep]) and
    each C operation to an operation on that tree.  This file has the code of
    insertion and of the walks, the relation and the rotations; [RbInsert],
    [RbWalk] and [RbErase] have the operations, [RbFoot] what they leave alone,
    [RbTheorems] the results. *)

From S2P Require Import Prelude.

Inductive side := LEFT | RIGHT.
Definition opp (d : side) : side := match d with LEFT => RIGHT | RIGHT => LEFT end.
#[global] Instance side_eq_dec : EqDecision side.
Proof. solve_decision. Defined.

Inductive rb_colour := RB_RED | RB_BLACK.
#[global] Instance rb_colour_eq_dec : EqDecision rb_colour.
Proof. solve_decision. Defined.

Record rb_node (A : Type) := RbNode {
  rb_parent : option A;
  rb_color : rb_colour;
  rb_right : option A;
  rb_left : option A
}.
Arguments RbNode {A}.
Arguments rb_parent {A}.
Arguments rb_color {A}.
Arguments rb_right {A}.
Arguments rb_left {A}.

(** [struct rb_root] and the heap. *)
Record rb_state (A : Type) `{Countable A} := RbState {
  rb_root : option A;
  rb_heap : gmap A (rb_node A)
}.
Arguments RbState {A _ _}.
Arguments rb_root {A _ _}.
Arguments rb_heap {A _ _}.

(** ** The C functions *)
Section code.
Context {A : Type} `{Countable A}.
Implicit Types (n : rb_node A) (x node parent : A) (p : option A).

Definition child (d : side) n : option A := match d with LEFT => rb_left n | RIGHT => rb_right n end.
Definition set_child (d : side) p n : rb_node A :=
  match d with
  | LEFT => RbNode (rb_parent n) (rb_color n) (rb_right n) p
  | RIGHT => RbNode (rb_parent n) (rb_color n) p (rb_left n)
  end.
Definition rb_set_parent p n : rb_node A := RbNode p (rb_color n) (rb_right n) (rb_left n).
Definition rb_set_color (c : rb_colour) n : rb_node A := RbNode (rb_parent n) c (rb_right n) (rb_left n).
Definition rb_is_red n : bool := bool_decide (rb_color n = RB_RED).
Definition rb_is_black n : bool := bool_decide (rb_color n = RB_BLACK).

Definition rb_get x : ST (rb_state A) (rb_node A) := s ← get; lift (deref (rb_heap s !! x)).
Definition rb_upd x (f : rb_node A → rb_node A) : ST (rb_state A) unit :=
  n ← rb_get x; modify (λ s, RbState (rb_root s) (<[x := f n]> (rb_heap s))).
Definition set_root p : ST (rb_state A) unit := modify (λ s, RbState p (rb_heap s)).

(** The pointer in [parent] (or the root) that leads to [node] is made [p];
    [d] is the side looked at first. *)
Definition rb_replace_link (d : side) (parent : option A) (node : A) p : ST (rb_state A) unit :=
  match parent with
  | Some parent =>
    pn ← rb_get parent;
    if bool_decide (child d pn = Some node) then rb_upd parent (set_child d p)
    else rb_upd parent (set_child (opp d) p)
  | None => set_root p
  end.

(** [__rb_rotate_left] is [rb_rotate LEFT], [__rb_rotate_right] [rb_rotate RIGHT]. *)
Definition rb_rotate (d : side) node : ST (rb_state A) unit :=
  n ← rb_get node;
  right ← lift (deref (child (opp d) n));
  let parent := rb_parent n in
  rn ← rb_get right;
  rb_upd node (set_child (opp d) (child d rn));;
  match child d rn with
  | Some b => rb_upd b (rb_set_parent (Some node))
  | None => mret tt
  end;;
  rb_upd right (set_child d (Some node));;
  rb_upd right (rb_set_parent parent);;
  rb_replace_link d parent node (Some right);;
  rb_upd node (rb_set_parent (Some right)).

(** The part of the loop of [rb_insert_color] after the test of the uncle;
    [parent] is the child of [gparent] on the side [d].  Returns [node]. *)
Definition insert_rotate (d : side) node parent gparent : ST (rb_state A) A :=
  pn ← rb_get parent;
  '(node, parent) ← (if bool_decide (child (opp d) pn = Some node)
                     then rb_rotate d parent;; mret (parent, node) else mret (node, parent));
  rb_upd parent (rb_set_color RB_BLACK);;
  rb_upd gparent (rb_set_color RB_RED);;
  rb_rotate (opp d) gparent;;
  mret node.

Fixpoint insert_color_loop (fuel : nat) node : ST (rb_state A) unit :=
  match fuel with
  | O => raise HANG
  | S fuel =>
    n ← rb_get node;
    match rb_parent n with
    | None => mret tt
    | Some parent =>
      pn ← rb_get parent;
      if negb (rb_is_red pn) then mret tt else
      gparent ← lift (deref (rb_parent pn));
      gn ← rb_get gparent;
      let d := if bool_decide (rb_left gn = Some parent) then LEFT else RIGHT in
      red_uncle ← match child (opp d) gn with
                  | Some uncle => un ← rb_get uncle; mret (if rb_is_red un then Some uncle else None)
                  | None => mret None
                  end;
      match red_uncle with
      | Some uncle =>
        rb_upd uncle (rb_set_color RB_BLACK);;
        rb_upd parent (rb_set_color RB_BLACK);;
        rb_upd gparent (rb_set_color RB_RED);;
        insert_color_loop fuel gparent
      | None => node ← insert_rotate d node parent gparent; insert_color_loop fuel node
      end
    end
  end.

Definition rb_insert_color node : ST (rb_state A) unit :=
  s ← get;
  insert_color_loop (S (S (size (rb_heap s)))) node;;
  s ← get;
  root ← lift (deref (rb_root s));
  rb_upd root (rb_set_color RB_BLACK).

(** [struct rb_node **]: the root or a child of a node. *)
Inductive rb_link := LinkRoot | LinkChild (x : A) (d : side).

Definition rb_link_get (l : rb_link) : ST (rb_state A) (option A) :=
  match l with
  | LinkRoot => gets rb_root
  | LinkChild x d => n ← rb_get x; mret (child d n)
  end.

Definition rb_link_node node p (l : rb_link) : ST (rb_state A) unit :=
  modify (λ s, RbState (rb_root s) (<[node := RbNode p RB_RED None None]> (rb_heap s)));;
  match l with
  | LinkRoot => set_root (Some node)
  | LinkChild x d => rb_upd x (set_child d (Some node))
  end.

(** As far as one can get on the side [d] from [x]. *)
Fixpoint rb_extreme (d : side) (fuel : nat) x : ST (rb_state A) A :=
  match fuel with
  | O => raise HANG
  | S fuel =>
    n ← rb_get x;
    match child d n with Some y => rb_extreme d fuel y | None => mret x end
  end.

Definition rb_end (d : side) : ST (rb_state A) (option A) :=
  s ← get;
  match rb_root s with
  | None => mret None
  | Some x => y ← rb_extreme d (size (rb_heap s)) x; mret (Some y)
  end.
Definition rb_first : ST (rb_state A) (option A) := rb_end LEFT.
Definition rb_last : ST (rb_state A) (option A) := rb_end RIGHT.

Fixpoint rb_climb (d : side) (fuel : nat) x : ST (rb_state A) (option A) :=
  match fuel with
  | O => raise HANG
  | S fuel =>
    n ← rb_get x;
    match rb_parent n with
    | None => mret None
    | Some parent =>
      pn ← rb_get parent;
      if bool_decide (child d pn = Some x) then rb_climb d fuel parent else mret (Some parent)
    end
  end.

(** The neighbour of [x] on the side [d] in sort order. *)
Definition rb_neighbour (d : side) x : ST (rb_state A) (option A) :=
  n ← rb_get x;
  if bool_decide (rb_parent n = Some x) then mret None else
  s ← get;
  match child d n with
  | Some y => z ← rb_extreme (opp d) (size (rb_heap s)) y; mret (Some z)
  | None => rb_climb d (size (rb_heap s)) x
  end.
Definition rb_next x : ST (rb_state A) (option A) := rb_neighbour RIGHT x.
Definition rb_prev x : ST (rb_state A) (option A) := rb_neighbour LEFT x.

Definition RB_EMPTY_ROOT (s : rb_state A) : bool := bool_decide (rb_root s = None).
Definition RB_EMPTY_NODE x : ST (rb_state A) bool :=
  n ← rb_get x; mret (bool_decide (rb_parent n = Some x)).
Definition RB_CLEAR_NODE x : ST (rb_state A) unit := rb_upd x (rb_set_parent (Some x)).
End code.
Arguments rb_link A : clear implicits.

(** ** Trees and trees with a hole *)
Section trees.
Context {A : Type} `{Countable A}.

Inductive tree := Leaf | Node (c : rb_colour) (l : tree) (x : A) (r : tree).

Definition tree_root (t : tree) : option A := match t with Leaf => None | Node _ _ x _ => Some x end.
Fixpoint inorder (t : tree) : list A :=
  match t with Leaf => [] | Node _ l x r => inorder l ++ x :: inorder r end.

(** A node whose subtree on the side [d] is [a]. *)
Definition mk (d : side) (c : rb_colour) (a : tree) (x : A) (b : tree) : tree :=
  match d with LEFT => Node c a x b | RIGHT => Node c b x a end.
Definition mkn (d : side) (p : option A) (c : rb_colour) (a b : option A) : rb_node A :=
  match d with LEFT => RbNode p c b a | RIGHT => RbNode p c a b end.

(** The way to a hole, innermost node first: the side of the hole, the colour and
    address of the node, and its other subtree. *)
Record rb_frame := RbFrame { f_side : side; f_colour : rb_colour; f_node : A; f_other : tree }.
Abbreviation rb_ctx := (list rb_frame).
Implicit Types (k : rb_ctx) (f : rb_frame) (t a b e : tree) (s : rb_state A).

Definition plug1 f t : tree := mk (f_side f) (f_colour f) t (f_node f) (f_other f).
Fixpoint plug k t : tree := match k with [] => t | f :: k => plug k (plug1 f t) end.

Definition hole_parent k : option A := f_node <$> head k.
Fixpoint ctx_root k (p : option A) : option A :=
  match k with [] => p | f :: k => ctx_root k (Some (f_node f)) end.

(** What the heap holds. *)
Fixpoint tree_nodes (p : option A) t : list (A * rb_node A) :=
  match t with
  | Leaf => []
  | Node c l x r =>
    (x, RbNode p c (tree_root r) (tree_root l)) :: tree_nodes (Some x) l ++ tree_nodes (Some x) r
  end.
Fixpoint ctx_nodes k (p : option A) : list (A * rb_node A) :=
  match k with
  | [] => []
  | f :: k =>
    (f_node f, mkn (f_side f) (hole_parent k) (f_colour f) p (tree_root (f_other f)))
      :: tree_nodes (Some (f_node f)) (f_other f) ++ ctx_nodes k (Some (f_node f))
  end.
Fixpoint ctx_elems k : list A :=
  match k with [] => [] | f :: k => f_node f :: inorder (f_other f) ++ ctx_elems k end.

(** The state [s] holds [t] in the hole of [k]; the nodes are among [D], and the
    heap agrees with [h0] elsewhere. *)
Record zrep (D : list A) (h0 : gmap A (rb_node A)) k t s : Prop := {
  z_root : rb_root s = ctx_root k (tree_root t);
  z_tree : ∀ x n, (x, n) ∈ tree_nodes (hole_parent k) t → rb_heap s !! x = Some n;
  z_ctx : ∀ x n, (x, n) ∈ ctx_nodes k (tree_root t) → rb_heap s !! x = Some n;
  z_nodup : NoDup (inorder t ++ ctx_elems k);
  z_dom : ∀ x, x ∈ inorder t ++ ctx_elems k → x ∈ D;
  z_frame : ∀ x, x ∉ D → rb_heap s !! x = h0 !! x
}.

Lemma mk_opp d c a x b : mk (opp d) c b x a = mk d c a x b.
Proof. by destruct d. Qed.
Lemma opp_opp d : opp (opp d) = d.
Proof. by destruct d. Qed.
Lemma node_mk c l x r : Node c l x r = mk LEFT c l x r.
Proof. done. Qed.

Lemma inorder_mk d c a x b : inorder (mk d c a x b) ≡ₚ x :: inorder a ++ inorder b.
Proof.
  destruct d; simpl; [by rewrite Permutation_middle|].
  by rewrite <-Permutation_middle, (Permutation_app_comm (inorder b)).
Qed.

Lemma tree_nodes_mk d p c a x b : ∀ y n, (y, n) ∈ tree_nodes p (mk d c a x b) ↔
  (y = x ∧ n = mkn d p c (tree_root a) (tree_root b)) ∨
  (y, n) ∈ tree_nodes (Some x) a ∨ (y, n) ∈ tree_nodes (Some x) b.
Proof.
  intros y n. destruct d; simpl; rewrite elem_of_cons, elem_of_app; naive_solver.
Qed.

Lemma tree_root_mk d c a x b : tree_root (mk d c a x b) = Some x.
Proof. by destruct d. Qed.

Lemma tree_nodes_elem p t x n : (x, n) ∈ tree_nodes p t → x ∈ inorder t.
Proof.
  revert p. induction t as [|c l IHl y r IHr]; intros p; simpl; [by intros ?%elem_of_nil|].
  rewrite elem_of_cons, !elem_of_app, elem_of_cons. intros [[= -> ->]|[?|?]]; naive_solver.
Qed.
Lemma tree_nodes_some p t x : x ∈ inorder t → ∃ n, (x, n) ∈ tree_nodes p t.
Proof.
  revert p. induction t as [|c l IHl y r IHr]; intros p; simpl; [by intros ?%elem_of_nil|].
  rewrite elem_of_app, elem_of_cons. setoid_rewrite elem_of_cons. setoid_rewrite elem_of_app.
  intros [[n ?]%(IHl (Some y))|[->|[n ?]%(IHr (Some y))]]; naive_solver.
Qed.
Lemma ctx_nodes_elem k p x n : (x, n) ∈ ctx_nodes k p → x ∈ ctx_elems k.
Proof.
  revert p. induction k as [|f k IH]; intros p; simpl; [by intros ?%elem_of_nil|].
  rewrite !elem_of_cons, !elem_of_app. intros [[= -> ->]|[?%tree_nodes_elem|?]]; naive_solver.
Qed.

(** Moving the hole up or down. *)
Lemma zrep_move D h0 f k t s : zrep D h0 (f :: k) t s ↔ zrep D h0 k (plug1 f t) s.
Proof.
  assert (Hp : inorder (plug1 f t) ++ ctx_elems k ≡ₚ inorder t ++ ctx_elems (f :: k)).
  { unfold plug1. rewrite inorder_mk. simpl. rewrite <-Permutation_middle. simpl.
    by rewrite app_assoc. }
  unfold plug1 in *. split; intros [Hr Ht Hc Hn Hd Hf].
  - split; [by rewrite tree_root_mk| | |by rewrite Hp|intros x; rewrite Hp; apply Hd|done].
    + intros x n [[-> ->]|[?|?]]%tree_nodes_mk; [apply Hc; by left|by apply Ht|].
      apply Hc. simpl. rewrite elem_of_cons, elem_of_app. tauto.
    + rewrite tree_root_mk. intros x n ?. apply Hc. simpl. rewrite elem_of_cons, elem_of_app. tauto.
  - rewrite tree_root_mk in *.
    split; [done| | |by rewrite <-Hp|intros x; rewrite <-Hp; apply Hd|done].
    + intros x n ?. apply Ht, tree_nodes_mk. tauto.
    + intros x n. simpl. rewrite elem_of_cons, elem_of_app. intros [[= -> ->]|[?|?]].
      * apply Ht, tree_nodes_mk. by left.
      * apply Ht, tree_nodes_mk. tauto.
      * by apply Hc.
Qed.

Lemma zrep_down D h0 k d c a x b s :
  zrep D h0 k (mk d c a x b) s ↔ zrep D h0 (RbFrame d c x b :: k) a s.
Proof. by rewrite zrep_move. Qed.
Lemma zrep_down_opp D h0 k d c a x b s :
  zrep D h0 k (mk d c a x b) s ↔ zrep D h0 (RbFrame (opp d) c x a :: k) b s.
Proof. by rewrite <-mk_opp, zrep_down. Qed.

Lemma zrep_plug D h0 k t s : zrep D h0 k t s ↔ zrep D h0 [] (plug k t) s.
Proof. revert t. induction k as [|f k IH]; intros t; [done|]. by rewrite zrep_move, IH. Qed.

(** ** Reading and writing *)
Definition holds (l : list (A * rb_node A)) (h : gmap A (rb_node A)) : Prop :=
  ∀ x n, (x, n) ∈ l → h !! x = Some n.

Lemma holds_insert l h x n : (∀ m, (x, m) ∉ l) → holds l h → holds l (<[x := n]> h).
Proof.
  intros Hx Hl y m Hy. rewrite lookup_insert_ne; [by apply Hl|]. intros ->. by apply (Hx m).
Qed.

Lemma rb_get_ok x n s : rb_heap s !! x = Some n → rb_get x s = Ok (n, s).
Proof.
  intros Hx. unfold rb_get. erewrite st_bind_ok by reflexivity. unfold lift. by rewrite Hx.
Qed.
Lemma rb_upd_node_ok x (g : rb_node A → rb_node A) n s : rb_heap s !! x = Some n →
  rb_upd x g s = Ok (tt, RbState (rb_root s) (<[x := g n]> (rb_heap s))).
Proof. intros Hx. unfold rb_upd. by rewrite (st_bind_ok _ _ _ _ _ (rb_get_ok _ _ _ Hx)). Qed.

Lemma child_mkn d p c u v : child d (mkn d p c u v) = u.
Proof. by destruct d. Qed.
Lemma child_mkn_opp d p c u v : child (opp d) (mkn d p c u v) = v.
Proof. by destruct d. Qed.
Lemma set_child_mkn d p c u v w : set_child d w (mkn d p c u v) = mkn d p c w v.
Proof. by destruct d. Qed.
Lemma set_child_mkn_opp d p c u v w : set_child (opp d) w (mkn d p c u v) = mkn d p c u w.
Proof. by destruct d. Qed.
Lemma set_parent_mkn d p c u v q : rb_set_parent q (mkn d p c u v) = mkn d q c u v.
Proof. by destruct d. Qed.
Lemma set_color_mkn d p c u v c' : rb_set_color c' (mkn d p c u v) = mkn d p c' u v.
Proof. by destruct d. Qed.
Lemma parent_mkn d p c u v : rb_parent (mkn d p c u v) = p.
Proof. by destruct d. Qed.
Lemma color_mkn d p c u v : rb_color (mkn d p c u v) = c.
Proof. by destruct d. Qed.

Lemma z_focus D h0 k d c a x b s : zrep D h0 k (mk d c a x b) s →
  rb_heap s !! x = Some (mkn d (hole_parent k) c (tree_root a) (tree_root b)).
Proof. intros Hz. apply (z_tree _ _ _ _ _ Hz), tree_nodes_mk. by left. Qed.

Lemma z_parent D h0 f k t s : zrep D h0 (f :: k) t s →
  rb_heap s !! f_node f =
    Some (mkn (f_side f) (hole_parent k) (f_colour f) (tree_root t) (tree_root (f_other f))).
Proof. intros Hz. apply (z_ctx _ _ _ _ _ Hz). by left. Qed.

(** The two subtrees of a node have different roots. *)
Lemma z_other_root D h0 f k t x s : zrep D h0 (f :: k) t s → x ∈ inorder t →
  tree_root (f_other f) ≠ Some x.
Proof.
  intros Hz Hx Ho. pose proof (z_nodup _ _ _ _ _ Hz) as Hn. apply NoDup_app in Hn as (_ & Hn & _).
  apply (Hn x Hx). simpl. rewrite elem_of_cons, elem_of_app. right. left.
  destruct (f_other f); [done|]. injection Ho as ->. simpl. apply elem_of_app. right. by left.
Qed.

Lemma tree_root_in t x : tree_root t = Some x → x ∈ inorder t.
Proof. destruct t; [done|]. intros [= ->]. simpl. apply elem_of_app. right. by left. Qed.

(** Changing a colour. *)
Lemma set_color_ok D h0 k d c a x b c' s : zrep D h0 k (mk d c a x b) s →
  ∃ s', rb_upd x (rb_set_color c') s = Ok (tt, s') ∧ zrep D h0 k (mk d c' a x b) s'.
Proof.
  intros Hz. pose proof Hz as [Hr Ht Hc Hn Hd Hf]. eexists.
  split; [by apply rb_upd_node_ok, (z_focus _ _ _ _ _ _ _ _ _ Hz)|].
  rewrite inorder_mk in Hn. simpl in Hn. apply NoDup_cons in Hn as [Hx Hn].
  assert (x ∈ D) as HxD by (apply Hd, elem_of_app; left; rewrite inorder_mk; by left).
  rewrite <-app_assoc, !elem_of_app in Hx. rewrite tree_root_mk in *. rewrite set_color_mkn.
  split; simpl; rewrite ?tree_root_mk; [done| | | | |].
  - intros y n [[-> ->]|[Hy|Hy]]%tree_nodes_mk; [by rewrite lookup_insert_eq|..].
    all: rewrite lookup_insert_ne by (intros <-; apply tree_nodes_elem in Hy; tauto).
    all: apply Ht, tree_nodes_mk; tauto.
  - intros y n Hy. rewrite lookup_insert_ne; [by apply Hc|].
    intros <-. apply ctx_nodes_elem in Hy. tauto.
  - rewrite inorder_mk. simpl. apply NoDup_cons. rewrite <-app_assoc, !elem_of_app. split; [tauto|].
    by rewrite app_assoc.
  - intros y. rewrite inorder_mk. intros Hy. apply Hd. by rewrite inorder_mk.
  - intros y Hy. rewrite lookup_insert_ne; [by apply Hf|]. by intros ->.
Qed.

(** ** Rotations *)
Definition changes (X : list A) (h h' : gmap A (rb_node A)) : Prop := ∀ z, z ∉ X → h' !! z = h !! z.
Definition opt_list (p : option A) : list A := match p with Some x => [x] | None => [] end.

Lemma changes_trans X Y h1 h2 h3 : changes X h1 h2 → changes Y h2 h3 → changes (X ++ Y) h1 h3.
Proof. intros H1 H2 z Hz. apply not_elem_of_app in Hz as [? ?]. by rewrite H2, H1. Qed.
Lemma changes_insert x n h : changes [x] h (<[x := n]> h).
Proof. intros z Hz. apply lookup_insert_ne. intros ->. apply Hz. by left. Qed.

Lemma tree_holds_changes X p t h h' : changes X h h' → (∀ z, z ∈ inorder t → z ∉ X) →
  holds (tree_nodes p t) h → holds (tree_nodes p t) h'.
Proof. intros Hc HX Hh z n Hz. rewrite Hc; [by apply Hh|]. by eapply HX, tree_nodes_elem. Qed.
Lemma ctx_holds_changes X k p h h' : changes X h h' → (∀ z, z ∈ ctx_elems k → z ∉ X) →
  holds (ctx_nodes k p) h → holds (ctx_nodes k p) h'.
Proof. intros Hc HX Hh z n Hz. rewrite Hc; [by apply Hh|]. by eapply HX, ctx_nodes_elem. Qed.

Lemma set_parent_ok p q t s : holds (tree_nodes p t) (rb_heap s) → NoDup (inorder t) →
  ∃ s', match tree_root t with Some z => rb_upd z (rb_set_parent q) | None => mret tt end s = Ok (tt, s') ∧
    rb_root s' = rb_root s ∧ holds (tree_nodes q t) (rb_heap s') ∧
    changes (opt_list (tree_root t)) (rb_heap s) (rb_heap s').
Proof.
  destruct t as [|c l x r]; intros Hh Hn; simpl tree_root; cbv iota.
  { exists s. split_and!; [done|done|by intros ?? ?%elem_of_nil|done]. }
  eexists. split; [by apply rb_upd_node_ok, Hh; left|]. simpl in Hn.
  rewrite <-Permutation_middle in Hn. apply NoDup_cons in Hn as [Hx Hn]. rewrite elem_of_app in Hx.
  split_and!; [done| |apply changes_insert]. intros z n. simpl. rewrite elem_of_cons, elem_of_app.
  intros [[= -> ->]|Hz]; [by rewrite lookup_insert_eq|].
  assert (z ≠ x) by (intros ->; destruct Hz as [?%tree_nodes_elem|?%tree_nodes_elem]; tauto).
  rewrite lookup_insert_ne by done. apply Hh. simpl. rewrite elem_of_cons, elem_of_app. tauto.
Qed.

Lemma replace_link_ok d k node p s :
  rb_root s = ctx_root k (Some node) → holds (ctx_nodes k (Some node)) (rb_heap s) →
  NoDup (ctx_elems k) → node ∉ ctx_elems k →
  ∃ s', rb_replace_link d (hole_parent k) node p s = Ok (tt, s') ∧ rb_root s' = ctx_root k p ∧
    holds (ctx_nodes k p) (rb_heap s') ∧ changes (opt_list (hole_parent k)) (rb_heap s) (rb_heap s').
Proof.
  destruct k as [|f k]; simpl; intros Hr Hh Hn Hx.
  { eexists. split; [reflexivity|]. split_and!; [done|by intros ?? ?%elem_of_nil|done]. }
  apply NoDup_cons in Hn as [Hf Hn]. rewrite elem_of_app in Hf.
  apply not_elem_of_cons in Hx as [Hxf [Hxo Hxk]%not_elem_of_app].
  assert (Hp : rb_heap s !! f_node f =
    Some (mkn (f_side f) (hole_parent k) (f_colour f) (Some node) (tree_root (f_other f)))) by (apply Hh; by left).
  rewrite (st_bind_ok _ _ _ _ _ (rb_get_ok _ _ _ Hp)).
  exists (RbState (rb_root s) (<[f_node f := mkn (f_side f) (hole_parent k) (f_colour f) p
    (tree_root (f_other f))]> (rb_heap s))). split; [|split_and!].
  - destruct (decide (d = f_side f)) as [->|Hd].
    + rewrite child_mkn, bool_decide_eq_true_2 by done.
      by rewrite (rb_upd_node_ok _ _ _ _ Hp), set_child_mkn.
    + assert (d = opp (f_side f)) as -> by (by destruct d, (f_side f)).
      rewrite child_mkn_opp, bool_decide_eq_false_2 by (intros ?%tree_root_in; done).
      by rewrite opp_opp, (rb_upd_node_ok _ _ _ _ Hp), set_child_mkn.
  - done.
  - intros z n. cbn [rb_heap]. rewrite elem_of_cons. intros [[= -> ->]|Hz]; [by rewrite lookup_insert_eq|].
    rewrite lookup_insert_ne; [apply Hh; by right|].
    intros <-. apply elem_of_app in Hz as [?%tree_nodes_elem|?%ctx_nodes_elem]; tauto.
  - apply changes_insert.
Qed.

Lemma hole_parent_in k x : hole_parent k = Some x → x ∈ ctx_elems k.
Proof. destruct k; [done|]. intros [= <-]. by left. Qed.
Lemma opt_list_elem p (z : A) : z ∈ opt_list p ↔ p = Some z.
Proof. destruct p; simpl; rewrite ?list_elem_of_singleton, ?elem_of_nil; naive_solver. Qed.

(** The nodes of a subtree and its context are distinct. *)
Lemma rotate_perm d c a x c2 b y e (l : list A) :
  inorder (mk d c a x (mk d c2 b y e)) ++ l ≡ₚ x :: y :: inorder a ++ inorder b ++ inorder e ++ l ∧
  inorder (mk d c2 (mk d c a x b) y e) ++ l ≡ₚ x :: y :: inorder a ++ inorder b ++ inorder e ++ l.
Proof. rewrite !inorder_mk. split; solve_Permutation. Qed.

(** The state after the local part of a rotation and the new link. *)
Lemma rotate_ok D h0 k d c a x c2 b y e s :
  zrep D h0 k (mk d c a x (mk d c2 b y e)) s →
  ∃ s', rb_rotate d x s = Ok (tt, s') ∧ zrep D h0 k (mk d c2 (mk d c a x b) y e) s'.
Proof.
  intros Hz. pose proof Hz as [Hr Ht Hc Hn Hd Hf]. rewrite tree_root_mk in *.
  destruct (rotate_perm d c a x c2 b y e (ctx_elems k)) as [Hperm Hperm'].
  assert (Hdom : ∀ z, z ∈ x :: y :: inorder a ++ inorder b ++ inorder e ++ ctx_elems k → z ∈ D)
    by (intros z Hz'; apply Hd; by rewrite Hperm).
  rewrite Hperm in Hn. pose proof Hn as Hn'.
  apply NoDup_cons in Hn as [Hx Hn]. apply NoDup_cons in Hn as [Hy Hn].
  apply NoDup_app in Hn as (Hna & Hab & Hn). apply NoDup_app in Hn as (Hnb & Hbe & Hn).
  apply NoDup_app in Hn as (Hne & Hek & Hnk).
  pose proof (z_focus _ _ _ _ _ _ _ _ _ Hz) as Hnx. rewrite tree_root_mk in Hnx.
  assert (Hny : rb_heap s !! y = Some (mkn d (Some x) c2 (tree_root b) (tree_root e))).
  { apply Ht, tree_nodes_mk. right. right. apply tree_nodes_mk. by left. }
  assert (Hha : holds (tree_nodes (Some x) a) (rb_heap s))
    by (intros z n ?; apply Ht, tree_nodes_mk; tauto).
  assert (Hhb : holds (tree_nodes (Some y) b) (rb_heap s))
    by (intros z n ?; apply Ht, tree_nodes_mk; right; right; apply tree_nodes_mk; tauto).
  assert (Hhe : holds (tree_nodes (Some y) e) (rb_heap s))
    by (intros z n ?; apply Ht, tree_nodes_mk; right; right; apply tree_nodes_mk; tauto).
  unfold rb_rotate. rewrite (st_bind_ok _ _ _ _ _ (rb_get_ok _ _ _ Hnx)), child_mkn_opp.
  erewrite (st_bind_ok (lift _)) by reflexivity. rewrite parent_mkn.
  rewrite (st_bind_ok _ _ _ _ _ (rb_get_ok _ _ _ Hny)), child_mkn.
  rewrite (st_bind_ok _ _ _ _ _ (rb_upd_node_ok _ _ _ _ Hnx)), set_child_mkn_opp.
  set (s1 := RbState _ _).
  assert (Hc1 : changes [x] (rb_heap s) (rb_heap s1)) by apply changes_insert.
  destruct (set_parent_ok (Some y) (Some x) b s1) as (s2 & E2 & R2 & H2 & C2);
    [apply (tree_holds_changes [x] _ _ (rb_heap s)); [done| |done]; set_solver|done|].
  rewrite (st_bind_ok _ _ _ _ _ E2).
  assert (Hyb : y ∉ opt_list (tree_root b)) by (rewrite opt_list_elem; intros ?%tree_root_in; set_solver).
  assert (Hxb : x ∉ opt_list (tree_root b)) by (rewrite opt_list_elem; intros ?%tree_root_in; set_solver).
  assert (Hny2 : rb_heap s2 !! y = Some (mkn d (Some x) c2 (tree_root b) (tree_root e))).
  { rewrite C2 by done. simpl. rewrite lookup_insert_ne; [done|set_solver]. }
  rewrite (st_bind_ok _ _ _ _ _ (rb_upd_node_ok _ _ _ _ Hny2)), set_child_mkn.
  erewrite st_bind_ok by (apply rb_upd_node_ok; simpl; apply lookup_insert_eq).
  rewrite set_parent_mkn. simpl rb_root. simpl rb_heap. rewrite insert_insert_eq. set (s3 := RbState _ _).
  assert (C3 : changes ([x] ++ opt_list (tree_root b) ++ [y]) (rb_heap s) (rb_heap s3)).
  { eapply changes_trans; [done|]. eapply changes_trans; [done|]. apply changes_insert. }
  assert (Hb_in : ∀ z, z ∈ opt_list (tree_root b) → z ∈ inorder b)
    by (intros z; rewrite opt_list_elem; apply tree_root_in).
  assert (Hh_in : ∀ z, z ∈ opt_list (hole_parent k) → z ∈ ctx_elems k)
    by (intros z; rewrite opt_list_elem; apply hole_parent_in).
  destruct (replace_link_ok d k x (Some y) s3) as (s4 & E4 & R4 & H4 & C4).
  { simpl. by rewrite R2. }
  { apply (ctx_holds_changes _ _ _ _ _ C3); [set_solver|done]. }
  { done. }
  { set_solver. }
  rewrite (st_bind_ok _ _ _ _ _ E4).
  assert (Hnx4 : rb_heap s4 !! x = Some (mkn d (hole_parent k) c (tree_root a) (tree_root b))).
  { rewrite C4 by set_solver. simpl. rewrite lookup_insert_ne by set_solver.
    rewrite C2 by done. simpl. apply lookup_insert_eq. }
  eexists. split; [by apply (rb_upd_node_ok _ _ _ _ Hnx4)|]. rewrite set_parent_mkn.
  assert (C5 : changes (([x] ++ opt_list (tree_root b) ++ [y]) ++ opt_list (hole_parent k) ++ [x])
    (rb_heap s) (<[x := mkn d (Some y) c (tree_root a) (tree_root b)]> (rb_heap s4))).
  { eapply changes_trans; [done|]. eapply changes_trans; [done|]. apply changes_insert. }
  split; simpl; rewrite ?tree_root_mk; [done| | |by rewrite Hperm'| |].
  - intros z n [[-> ->]|[Hz'|Hz']]%tree_nodes_mk.
    + rewrite tree_root_mk, lookup_insert_ne by set_solver. rewrite C4 by set_solver. simpl.
      apply lookup_insert_eq.
    + apply tree_nodes_mk in Hz' as [[-> ->]|[Hz'|Hz']]; [apply lookup_insert_eq|..].
      * revert z n Hz'. apply (tree_holds_changes _ _ _ _ _ C5); [set_solver|done].
      * pose proof (tree_nodes_elem _ _ _ _ Hz'). rewrite lookup_insert_ne by set_solver.
        rewrite C4 by set_solver. simpl. rewrite lookup_insert_ne by set_solver. by apply H2.
    + revert z n Hz'. apply (tree_holds_changes _ _ _ _ _ C5); [set_solver|done].
  - intros z n Hz'. pose proof (ctx_nodes_elem _ _ _ _ Hz').
    rewrite lookup_insert_ne by set_solver. by apply H4.
  - intros z. rewrite Hperm'. apply Hdom.
  - intros z Hz'. rewrite C5; [by apply Hf|]. set_solver.
Qed.

(** ** The invariant of red-black trees *)
Definition colour_of t : rb_colour := match t with Node RB_RED _ _ _ => RB_RED | _ => RB_BLACK end.

Fixpoint no_red_red t : Prop :=
  match t with
  | Leaf => True
  | Node c l _ r =>
    (c = RB_RED → colour_of l = RB_BLACK ∧ colour_of r = RB_BLACK) ∧ no_red_red l ∧ no_red_red r
  end.

Definition up (c : rb_colour) (n : nat) : nat := match c with RB_RED => n | RB_BLACK => S n end.

(** Every way down meets [n] black nodes. *)
Inductive black_height : tree → nat → Prop :=
| bh_leaf : black_height Leaf 0
| bh_node c l x r n : black_height l n → black_height r n → black_height (Node c l x r) (up c n).

Record red_black t (n : nat) : Prop := {
  rb_reds : no_red_red t;
  rb_top : colour_of t = RB_BLACK;
  rb_height : black_height t n
}.

(** The same for a tree with a hole, for a subtree of a colour and a height. *)
Fixpoint ctx_ok k (c : rb_colour) : Prop :=
  match k with
  | [] => c = RB_BLACK
  | f :: k =>
    (f_colour f = RB_RED → c = RB_BLACK ∧ colour_of (f_other f) = RB_BLACK) ∧
    no_red_red (f_other f) ∧ ctx_ok k (f_colour f)
  end.
Inductive ctx_height : rb_ctx → nat → nat → Prop :=
| ch_nil n : ctx_height [] n n
| ch_cons f k m n : black_height (f_other f) m → ctx_height k (up (f_colour f) m) n →
    ctx_height (f :: k) m n.

Lemma colour_mk d c a x b : colour_of (mk d c a x b) = c.
Proof. by destruct d, c. Qed.
Lemma no_red_red_mk d c a x b : no_red_red (mk d c a x b) ↔
  (c = RB_RED → colour_of a = RB_BLACK ∧ colour_of b = RB_BLACK) ∧ no_red_red a ∧ no_red_red b.
Proof. destruct d; simpl; tauto. Qed.
Lemma height_mk d c a x b n : black_height a n → black_height b n →
  black_height (mk d c a x b) (up c n).
Proof. destruct d; by constructor. Qed.
Lemma height_mk_inv d c a x b m : black_height (mk d c a x b) m →
  ∃ n, m = up c n ∧ black_height a n ∧ black_height b n.
Proof. destruct d; simpl; inversion 1; subst; eauto. Qed.

Lemma plug_red_black k t m n : no_red_red t → black_height t m → ctx_ok k (colour_of t) →
  ctx_height k m n → red_black (plug k t) n.
Proof.
  revert t m. induction k as [|f k IH]; intros t m Hn Hb Hok Hh; simpl in *.
  { inversion Hh; subst. by split. }
  inversion Hh; subst. destruct Hok as (Hf & Ho & Hok). eapply IH; [..|done].
  - apply no_red_red_mk. naive_solver.
  - by apply height_mk.
  - unfold plug1. by rewrite colour_mk.
Qed.

Lemma unplug_red_black k t n : red_black (plug k t) n →
  ∃ m, no_red_red t ∧ black_height t m ∧ ctx_ok k (colour_of t) ∧ ctx_height k m n.
Proof.
  revert t. induction k as [|f k IH]; intros t Hrb; simpl in *.
  { destruct Hrb. exists n. split_and!; [done|done|done|constructor]. }
  destruct (IH _ Hrb) as (m & Hn & Hb & Hok & Hh). unfold plug1 in *. rewrite colour_mk in Hok.
  apply no_red_red_mk in Hn as (Hr & Hn & Ho). apply height_mk_inv in Hb as (m' & -> & Hb & Hbo).
  exists m'. split_and!; [done|done|naive_solver|done|done|by constructor].
Qed.

(** The order of the nodes. *)
Lemma plug_inorder k t t' : inorder t' = inorder t → inorder (plug k t') = inorder (plug k t).
Proof.
  revert t t'. induction k as [|f k IH]; intros t t' Ht; [done|]. simpl. apply IH.
  unfold plug1. destruct (f_side f); simpl; by rewrite Ht.
Qed.
Lemma inorder_recolour d c c' a x b : inorder (mk d c a x b) = inorder (mk d c' a x b).
Proof. by destruct d. Qed.
Lemma inorder_rotate d c a x c2 b y e :
  inorder (mk d c2 (mk d c a x b) y e) = inorder (mk d c a x (mk d c2 b y e)).
Proof. destruct d; simpl; by rewrite <-!app_assoc. Qed.

Definition black (t : tree) : tree :=
  match t with Leaf => Leaf | Node _ l x r => Node RB_BLACK l x r end.
Lemma black_red_black t m : no_red_red t → black_height t m → ∃ n, red_black (black t) n.
Proof.
  destruct t as [|c l x r]; [by exists 0; split; [..|constructor]|].
  intros (_ & Hl & Hr) Hb. inversion Hb; subst. eexists. split; [done|done|by constructor].
Qed.
End trees.
Arguments tree A : clear implicits.
Arguments rb_frame A : clear implicits.
