(* ===== verification/RbInsert.v ===== *)
(** * Insertion into red-black trees

    [rb_link_node] and [rb_insert_color] keep a red-black tree and its order. *)

From S2P Require Import Prelude RbTree.

Section insertion.
Context {A : Type} `{Countable A}.
Implicit Types (k : list (rb_frame A)) (t a b : tree A) (s : rb_state A).

(** The side of the hole, as the code finds it out. *)
Lemma side_test D h0 f k t x s : zrep D h0 (f :: k) t s → tree_root t = Some x →
  bool_decide (child LEFT (mkn (f_side f) (hole_parent k) (f_colour f) (Some x) (tree_root (f_other f)))
    = Some x) = bool_decide (f_side f = LEFT).
Proof.
  intros Hz Hx. pose proof (z_other_root _ _ _ _ _ x _ Hz (tree_root_in _ _ Hx)).
  apply bool_decide_ext. destruct (f_side f); simpl; naive_solver.
Qed.

(** Nothing to do: the node is the root or its parent is black. *)
Lemma insert_stop D h0 k t x fuel s : zrep D h0 k t s → tree_root t = Some x →
  match k with [] => True | f :: _ => f_colour f = RB_BLACK end →
  insert_color_loop (S fuel) x s = Ok (tt, s).
Proof.
  intros Hz Hx Hk. destruct t as [|c l y r]; [done|]. injection Hx as ->. rewrite node_mk in Hz.
  simpl insert_color_loop. rewrite (st_bind_ok _ _ _ _ _ (rb_get_ok _ _ _ (z_focus _ _ _ _ _ _ _ _ _ Hz))).
  rewrite parent_mkn. destruct k as [|f k]; [done|]. change (hole_parent (f :: k)) with (Some (f_node f)). cbn iota.
  rewrite (st_bind_ok _ _ _ _ _ (rb_get_ok _ _ _ (z_parent _ _ _ _ _ _ Hz))).
  unfold rb_is_red. by rewrite color_mkn, Hk.
Qed.

(** Recolouring when parent and uncle are red. *)
Lemma insert_recolour D h0 d e k p g t sib ul u ur s :
  zrep D h0 (RbFrame e RB_RED p sib :: RbFrame d RB_BLACK g (Node RB_RED ul u ur) :: k) t s →
  ∃ s1 s2 s3, rb_upd u (rb_set_color RB_BLACK) s = Ok (tt, s1) ∧
    rb_upd p (rb_set_color RB_BLACK) s1 = Ok (tt, s2) ∧ rb_upd g (rb_set_color RB_RED) s2 = Ok (tt, s3) ∧
    zrep D h0 k (mk d RB_RED (mk e RB_BLACK t p sib) g (Node RB_BLACK ul u ur)) s3.
Proof.
  rewrite <-!zrep_down. intros Hz. rewrite zrep_down_opp, node_mk in Hz.
  destruct (set_color_ok _ _ _ _ _ _ _ _ RB_BLACK _ Hz) as (s1 & E1 & Hz1).
  rewrite <-zrep_down_opp, zrep_down in Hz1.
  destruct (set_color_ok _ _ _ _ _ _ _ _ RB_BLACK _ Hz1) as (s2 & E2 & Hz2).
  rewrite <-zrep_down in Hz2.
  destruct (set_color_ok _ _ _ _ _ _ _ _ RB_RED _ Hz2) as (s3 & E3 & Hz3).
  by exists s1, s2, s3.
Qed.

(** The rotations when the uncle is black. *)
Lemma insert_rotate_outer D h0 d k p g t sib u s x :
  zrep D h0 (RbFrame d RB_RED p sib :: RbFrame d RB_BLACK g u :: k) t s → tree_root t = Some x →
  ∃ s', insert_rotate d x p g s = Ok (x, s') ∧
    zrep D h0 k (mk d RB_BLACK t p (mk d RB_RED sib g u)) s'.
Proof.
  intros Hz Hx. unfold insert_rotate. rewrite (st_bind_ok _ _ _ _ _ (rb_get_ok _ _ _ (z_parent _ _ _ _ _ _ Hz))).
  cbn [f_side f_colour f_node f_other]. rewrite child_mkn_opp, bool_decide_eq_false_2
    by (by apply (z_other_root _ _ _ _ _ _ _ Hz), tree_root_in).
  erewrite st_bind_ok by reflexivity. rewrite <-zrep_down in Hz.
  destruct (set_color_ok _ _ _ _ _ _ _ _ RB_BLACK _ Hz) as (s1 & E1 & Hz1).
  rewrite (st_bind_ok _ _ _ _ _ E1). rewrite <-zrep_down in Hz1.
  destruct (set_color_ok _ _ _ _ _ _ _ _ RB_RED _ Hz1) as (s2 & E2 & Hz2).
  rewrite (st_bind_ok _ _ _ _ _ E2). rewrite <-mk_opp, <-(mk_opp d RB_BLACK) in Hz2.
  destruct (rotate_ok _ _ _ _ _ _ _ _ _ _ _ _ Hz2) as (s3 & E3 & Hz3).
  rewrite (st_bind_ok _ _ _ _ _ E3). exists s3. split; [done|]. by rewrite !mk_opp in Hz3.
Qed.

Lemma insert_rotate_inner D h0 d k p g t1 x t2 sib u s :
  zrep D h0 (RbFrame (opp d) RB_RED p sib :: RbFrame d RB_BLACK g u :: k) (mk d RB_RED t1 x t2) s →
  ∃ s', insert_rotate d x p g s = Ok (p, s') ∧
    zrep D h0 k (mk d RB_BLACK (mk d RB_RED sib p t1) x (mk d RB_RED t2 g u)) s'.
Proof.
  intros Hz. unfold insert_rotate. rewrite (st_bind_ok _ _ _ _ _ (rb_get_ok _ _ _ (z_parent _ _ _ _ _ _ Hz))).
  cbn [f_side f_colour f_node f_other]. rewrite tree_root_mk, child_mkn, bool_decide_eq_true_2 by done.
  rewrite <-zrep_down, mk_opp in Hz. rewrite <-st_bind_assoc.
  destruct (rotate_ok _ _ _ _ _ _ _ _ _ _ _ _ Hz) as (s1 & E1 & Hz1).
  rewrite (st_bind_ok _ _ _ _ _ E1). erewrite st_bind_ok by reflexivity.
  destruct (set_color_ok _ _ _ _ _ _ _ _ RB_BLACK _ Hz1) as (s2 & E2 & Hz2).
  rewrite (st_bind_ok _ _ _ _ _ E2). rewrite <-zrep_down in Hz2.
  destruct (set_color_ok _ _ _ _ _ _ _ _ RB_RED _ Hz2) as (s3 & E3 & Hz3).
  rewrite (st_bind_ok _ _ _ _ _ E3). rewrite <-mk_opp, <-(mk_opp d RB_BLACK) in Hz3.
  destruct (rotate_ok _ _ _ _ _ _ _ _ _ _ _ _ Hz3) as (s4 & E4 & Hz4).
  rewrite (st_bind_ok _ _ _ _ _ E4). exists s4. split; [done|]. by rewrite !mk_opp in Hz4.
Qed.

(** One round of the loop up to the test of the uncle. *)
Definition red_root_of t : option A := match t with Node RB_RED _ u _ => Some u | _ => None end.

Lemma insert_round D h0 f g k t x fuel s : zrep D h0 (f :: g :: k) t s → tree_root t = Some x →
  f_colour f = RB_RED →
  insert_color_loop (S fuel) x s =
    match red_root_of (f_other g) with
    | Some u =>
      rb_upd u (rb_set_color RB_BLACK);; rb_upd (f_node f) (rb_set_color RB_BLACK);;
      rb_upd (f_node g) (rb_set_color RB_RED);; insert_color_loop fuel (f_node g)
    | None => y ← insert_rotate (f_side g) x (f_node f) (f_node g); insert_color_loop fuel y
    end s.
Proof.
  intros Hz Hx Hf. pose proof Hz as Hz'. rewrite zrep_move in Hz'.
  destruct t as [|c l y r]; [done|]. injection Hx as ->. cbn [insert_color_loop].
  rewrite (st_bind_ok _ _ _ _ _ (rb_get_ok _ _ _ (z_focus _ _ _ LEFT _ _ _ _ _ Hz))).
  rewrite parent_mkn. change (hole_parent (f :: g :: k)) with (Some (f_node f)). cbn iota.
  rewrite (st_bind_ok _ _ _ _ _ (rb_get_ok _ _ _ (z_parent _ _ _ _ _ _ Hz))).
  unfold rb_is_red at 1. rewrite color_mkn, Hf, bool_decide_eq_true_2 by done. cbn [negb].
  rewrite parent_mkn. erewrite (st_bind_ok (lift _)) by reflexivity.
  rewrite (st_bind_ok _ _ _ _ _ (rb_get_ok _ _ _ (z_parent _ _ _ _ _ _ Hz'))).
  assert (Hr : tree_root (plug1 f (Node c l x r)) = Some (f_node f)) by apply tree_root_mk.
  change (rb_left ?n) with (child LEFT n). rewrite Hr, (side_test _ _ _ _ _ _ _ Hz' Hr).
  assert ((if bool_decide (f_side g = LEFT) then LEFT else RIGHT) = f_side g) as -> by (by destruct (f_side g)).
  rewrite child_mkn_opp. destruct (f_other g) as [|cu ul u ur] eqn:Ho.
  { reflexivity. }
  cbn [tree_root]. rewrite <-!st_bind_assoc.
  assert (Hu : rb_heap s !! u = Some (RbNode (Some (f_node g)) cu (tree_root ur) (tree_root ul))).
  { apply (z_ctx _ _ _ _ _ Hz'). simpl. rewrite Ho. right. by left. }
  rewrite (st_bind_ok _ _ _ _ _ (rb_get_ok _ _ _ Hu)). erewrite st_bind_ok by reflexivity.
  by destruct cu.
Qed.

Lemma node_side d c l x r : ∃ a b, Node c l x r = mk d c a x b.
Proof. destruct d; [by exists l, r|by exists r, l]. Qed.
Lemma red_root t : colour_of t = RB_RED → ∃ l x r, t = Node RB_RED l x r.
Proof. destruct t as [|[] l x r]; try done. intros _. by exists l, x, r. Qed.

Definition insert_done D h0 (w : list A) (m : ST (rb_state A) unit) s : Prop :=
  ∃ s' t' n, m s = Ok (tt, s') ∧ zrep D h0 [] t' s' ∧ inorder t' = w ∧
    no_red_red t' ∧ black_height t' n.

(** The fixed-up tree is sound, and the loop ends. *)
Lemma insert_fixed D h0 d k a p b g u m n fuel s w :
  zrep D h0 k (mk d RB_BLACK a p (mk d RB_RED b g u)) s →
  inorder (plug k (mk d RB_BLACK a p (mk d RB_RED b g u))) = w →
  no_red_red a → no_red_red b → no_red_red u → colour_of b = RB_BLACK → colour_of u = RB_BLACK →
  black_height a m → black_height b m → black_height u m → ctx_height k (S m) n → ctx_ok k RB_BLACK →
  ∀ x, tree_root a = Some x → insert_done D h0 w (insert_color_loop (S fuel) x) s.
Proof.
  intros Hz Hw Ha Hb Hu Cb Cu Ba Bb Bu Hh Hok x Hx.
  destruct (plug_red_black k (mk d RB_BLACK a p (mk d RB_RED b g u)) (S m) n) as [R1 _ R3].
  - apply no_red_red_mk. split; [done|]. split; [done|]. by apply no_red_red_mk.
  - apply (height_mk d RB_BLACK a p _ m); [done|]. by apply (height_mk d RB_RED b g u m).
  - by rewrite colour_mk.
  - done.
  - exists s, (plug k (mk d RB_BLACK a p (mk d RB_RED b g u))), n.
    split; [|split; [by apply (proj1 (zrep_plug _ _ _ _ _))|done]].
    apply (insert_stop D h0 (RbFrame d RB_BLACK p (mk d RB_RED b g u) :: k) a); [|done|done].
    by apply zrep_down.
Qed.

Lemma insert_loop_ok D h0 fuel k t x m n s : zrep D h0 k t s → colour_of t = RB_RED →
  tree_root t = Some x → no_red_red t → black_height t m → ctx_height k m n → ctx_ok k RB_BLACK →
  (S (length k) < fuel)%nat → insert_done D h0 (inorder (plug k t)) (insert_color_loop fuel x) s.
Proof.
  revert k t x m s. induction (lt_wf fuel) as [fuel _ IH]; intros k t x m s Hz Hc Hx Hn Hb Hh Hok Hf.
  destruct fuel as [|fuel]; [lia|].
  destruct k as [|f k]; [|destruct (f_colour f) eqn:Hfc].
  - exists s, t, m. split; [by apply (insert_stop D h0 [] t)|]. done.
  - destruct k as [|g k]; simpl in Hok; [destruct Hok as (_ & _ & ?); congruence|].
    destruct Hok as (Hf1 & Hf2 & Hg1 & Hg2 & Hok). specialize (Hf1 Hfc) as [_ Hsib].
    assert (f_colour g = RB_BLACK) as Hgc by (destruct (f_colour g); [destruct (Hg1 eq_refl); congruence|done]).
    inversion Hh as [|f' k' m' n' Hbs Hh']; subst. inversion Hh' as [|g' k' m' n' Hbu Hh'']; subst.
    rewrite Hfc, Hgc in *. simpl in Hbu, Hh''.
    unfold insert_done. rewrite (insert_round D h0 f g k t x fuel s Hz Hx Hfc).
    destruct f as [e fc p sib], g as [d gc gp u]. cbn [f_side f_colour f_node f_other] in *. subst fc gc.
    destruct (colour_of u) eqn:Hu.
    + destruct (red_root u Hu) as (ul & y & ur & ->).
      destruct (insert_recolour D h0 d e k p gp t sib ul y ur s Hz) as (s1 & s2 & s3 & E1 & E2 & E3 & Hz3).
      cbn [red_root_of]. rewrite (st_bind_ok _ _ _ _ _ E1), (st_bind_ok _ _ _ _ _ E2), (st_bind_ok _ _ _ _ _ E3).
      simpl in Hg2. apply (height_mk_inv LEFT) in Hbu as (m0 & Em & Hul & Hur). simpl in Em. subst m0.
      destruct (IH fuel ltac:(lia) k _ gp (S m) s3 Hz3) as (s' & t' & n' & E & Hz' & Hi & Hr);
        [by rewrite colour_mk|by rewrite tree_root_mk| | |done|done|simpl in Hf; lia|].
      * apply no_red_red_mk. split; [by rewrite colour_mk|]. split; [|naive_solver].
        by apply no_red_red_mk.
      * apply (height_mk d RB_RED _ gp _ (S m)); [by apply (height_mk e RB_BLACK t p sib m)|].
        by apply (bh_node RB_BLACK).
      * exists s', t', n'. split; [done|]. split; [done|]. split; [|done]. rewrite Hi.
        simpl. apply plug_inorder. unfold plug1. simpl. destruct d, e; done.
    + replace (red_root_of u) with (@None A) by (by destruct u as [|[] ???]). destruct (red_root t Hc) as (tl & tx & tr & ->). injection Hx as ->.
      destruct (decide (e = d)) as [->|Hed].
      * destruct (insert_rotate_outer D h0 d k p gp (Node RB_RED tl x tr) sib u s x Hz eq_refl) as (s1 & E1 & Hz1).
        rewrite (st_bind_ok _ _ _ _ _ E1). destruct fuel as [|fuel]; [simpl in Hf; lia|].
        eapply (insert_fixed D h0 d k _ p sib gp u m n); try done.
        simpl. apply plug_inorder. destruct d; simpl; by rewrite <-!app_assoc.
      * assert (e = opp d) as -> by (by destruct d, e).
        destruct (node_side d RB_RED tl x tr) as (t1 & t2 & Et).
        rewrite Et in *. apply no_red_red_mk in Hn as (Ht & Hn1 & Hn2). specialize (Ht eq_refl) as [C1 C2].
        apply height_mk_inv in Hb as (m' & -> & Hb1 & Hb2). simpl up in *.
        destruct (insert_rotate_inner D h0 d k p gp t1 x t2 sib u s Hz) as (s1 & E1 & Hz1).
        rewrite (st_bind_ok _ _ _ _ _ E1). destruct fuel as [|fuel]; [simpl in Hf; lia|].
        eapply (insert_fixed D h0 d k _ x t2 gp u m' n); try done.
        -- simpl. apply plug_inorder. destruct d; simpl; rewrite <-?app_assoc; simpl; by rewrite <-?app_assoc.
        -- by apply no_red_red_mk.
        -- by apply (height_mk d RB_RED _ _ _ m').
        -- by rewrite tree_root_mk.
  - exists s, (plug (f :: k) t). simpl in Hok. destruct Hok as (_ & Hf2 & Hok).
    destruct (plug_red_black (f :: k) t m n) as [R1 _ R3]; [done|done| |done|].
    { simpl. rewrite Hfc in *. done. }
    exists n. split; [by apply (insert_stop D h0 (f :: k) t)|].
    split; [by apply (proj1 (zrep_plug _ _ _ _ _))|done].
Qed.

(** ** Linking and balancing together *)

(** What comes before and after the hole. *)
Fixpoint ctx_left k : list A :=
  match k with
  | [] => []
  | f :: k => match f_side f with
              | LEFT => ctx_left k
              | RIGHT => ctx_left k ++ inorder (f_other f) ++ [f_node f]
              end
  end.
Fixpoint ctx_right k : list A :=
  match k with
  | [] => []
  | f :: k => match f_side f with
              | LEFT => f_node f :: inorder (f_other f) ++ ctx_right k
              | RIGHT => ctx_right k
              end
  end.
Lemma inorder_plug k t : inorder (plug k t) = ctx_left k ++ inorder t ++ ctx_right k.
Proof.
  revert t. induction k as [|f k IH]; intros t; simpl; [by rewrite app_nil_r|].
  rewrite IH. unfold plug1. destruct (f_side f); simpl; rewrite <-?app_assoc; simpl; by rewrite <-?app_assoc.
Qed.
Lemma ctx_elems_perm k : ctx_elems k ≡ₚ ctx_left k ++ ctx_right k.
Proof.
  induction k as [|f k IH]; [done|]. simpl. rewrite IH. destruct (f_side f); solve_Permutation.
Qed.

Definition link_of k : rb_link A :=
  match k with [] => LinkRoot | f :: _ => LinkChild (f_node f) (f_side f) end.

Lemma link_node_ok D h0 k x s : zrep D h0 k Leaf s → x ∉ ctx_elems k → x ∈ D →
  ∃ s', rb_link_node x (hole_parent k) (link_of k) s = Ok (tt, s') ∧
    zrep D h0 k (Node RB_RED Leaf x Leaf) s'.
Proof.
  intros [Hr _ Hc Hn Hd Hf] Hx HxD. unfold rb_link_node. erewrite st_bind_ok by reflexivity.
  set (h1 := <[x := _]> (rb_heap s)).
  assert (Hc1 : holds (ctx_nodes k None) h1)
    by (apply holds_insert; [by intros m ?%ctx_nodes_elem|done]).
  assert (∃ s', match link_of k with LinkRoot => set_root (Some x)
      | LinkChild y d => rb_upd y (set_child d (Some x)) end (RbState (rb_root s) h1) = Ok (tt, s') ∧
    rb_root s' = ctx_root k (Some x) ∧ holds (ctx_nodes k (Some x)) (rb_heap s') ∧
    changes (opt_list (hole_parent k)) h1 (rb_heap s')) as (s' & E & R' & H' & C').
  { destruct k as [|f k]; simpl in *.
    - eexists. split; [reflexivity|]. split_and!; [done|by intros ?? ?%elem_of_nil|done].
    - assert (Hp : h1 !! f_node f = Some (mkn (f_side f) (hole_parent k) (f_colour f) None (tree_root (f_other f))))
        by (apply Hc1; by left).
      eexists. split; [by apply (rb_upd_node_ok _ _ _ (RbState (rb_root s) h1) Hp)|].
      apply NoDup_cons in Hn as [Hfn _]. rewrite elem_of_app in Hfn.
      split_and!; [done| |apply changes_insert]. rewrite set_child_mkn. intros z n. simpl.
      rewrite elem_of_cons. intros [[= -> ->]|Hz]; [by rewrite lookup_insert_eq|].
      rewrite lookup_insert_ne; [apply Hc1; by right|].
      intros <-. apply elem_of_app in Hz as [?%tree_nodes_elem|?%ctx_nodes_elem]; tauto. }
  assert (Hh : ∀ z, z ∈ opt_list (hole_parent k) → z ∈ ctx_elems k)
    by (intros z; rewrite opt_list_elem; apply hole_parent_in).
  exists s'. split; [exact E|]. split; simpl; [done| |done|by constructor|set_solver|].
  - intros z n [= -> ->]%list_elem_of_singleton. rewrite C' by set_solver. subst h1. apply lookup_insert_eq.
  - intros z Hz. rewrite C' by set_solver. subst h1. rewrite lookup_insert_ne by (by intros ->). by apply Hf.
Qed.

Lemma ctx_nodes_some k p x : x ∈ ctx_elems k → ∃ n, (x, n) ∈ ctx_nodes k p.
Proof.
  revert p. induction k as [|f k IH]; intros p; simpl; [by intros ?%elem_of_nil|].
  setoid_rewrite elem_of_cons. setoid_rewrite elem_of_app.
  intros [->|[[n ?]%(tree_nodes_some (Some (f_node f)))|[n ?]%(IH (Some (f_node f)))]]; naive_solver.
Qed.
Lemma zrep_size D h0 k t s : zrep D h0 k t s →
  (length (inorder t) + length k ≤ size (rb_heap s))%nat.
Proof.
  intros Hz. trans (length (inorder t ++ ctx_elems k)).
  { clear Hz. rewrite length_app. induction k as [|f k IH]; simpl; [lia|]. rewrite length_app. lia. }
  rewrite <-size_dom, <-(size_list_to_set (C:=gset A)) by apply (z_nodup _ _ _ _ _ Hz).
  apply subseteq_size. intros x Hx%elem_of_list_to_set. apply elem_of_dom.
  apply elem_of_app in Hx as [[n ?]%(tree_nodes_some (hole_parent k))|[n ?]%(ctx_nodes_some k (tree_root t))];
    exists n; [by apply (z_tree _ _ _ _ _ Hz)|by apply (z_ctx _ _ _ _ _ Hz)].
Qed.

(** The tree [t] is held by [s]. *)
Definition rb_rep t s : Prop := zrep (inorder t) (rb_heap s) [] t s.

(** From any set of nodes that holds the tree. *)
Lemma zrep_rep D h0 t s : zrep D h0 [] t s → rb_rep t s.
Proof.
  intros [Hr Ht Hc Hn Hd Hf]. split; [done|done|done|done| |done]. intros x. simpl. by rewrite app_nil_r.
Qed.
Lemma rep_zrep D t s : rb_rep t s → (∀ x, x ∈ inorder t → x ∈ D) → zrep D (rb_heap s) [] t s.
Proof.
  intros [Hr Ht Hc Hn Hd Hf] HD. split; [done|done|done|done| |done]. intros x. simpl.
  rewrite app_nil_r. apply HD.
Qed.

Lemma insert_color_ok D h0 k x s n : zrep D h0 k (Node RB_RED Leaf x Leaf) s →
  red_black (plug k Leaf) n →
  ∃ s' t' n', rb_insert_color x s = Ok (tt, s') ∧ zrep D h0 [] t' s' ∧
    inorder t' = ctx_left k ++ x :: ctx_right k ∧ red_black t' n'.
Proof.
  intros Hz Hrb. destruct (unplug_red_black _ _ _ Hrb) as (m & _ & Hb & Hok & Hh).
  inversion Hb; subst. unfold rb_insert_color. erewrite st_bind_ok by reflexivity.
  pose proof (zrep_size _ _ _ _ _ Hz) as Hl.
  destruct (insert_loop_ok D h0 (S (S (size (rb_heap s)))) k (Node RB_RED Leaf x Leaf) x 0 n s)
    as (s1 & t1 & n1 & E1 & Hz1 & Hi & Hr & Hb1); [done..| |done|done|lia|].
  { apply (bh_node RB_RED); constructor. }
  rewrite inorder_plug in Hi. simpl in Hi. rewrite (st_bind_ok _ _ _ _ _ E1).
  erewrite st_bind_ok by reflexivity. destruct t1 as [|c l y r]; [by destruct (ctx_left k)|].
  rewrite (z_root _ _ _ _ _ Hz1). simpl ctx_root. erewrite (st_bind_ok (lift _)) by reflexivity.
  destruct (set_color_ok D h0 [] LEFT c l y r RB_BLACK s1 Hz1) as (s2 & E2 & Hz2).
  destruct (black_red_black _ _ Hr Hb1) as [n2 Hrb2].
  by exists s2, (Node RB_BLACK l y r), n2.
Qed.

Lemma rb_insert_ok k x s n : rb_rep (plug k Leaf) s → red_black (plug k Leaf) n →
  x ∉ inorder (plug k Leaf) →
  ∃ s' t' n', (rb_link_node x (hole_parent k) (link_of k);; rb_insert_color x) s = Ok (tt, s') ∧
    rb_rep t' s' ∧ red_black t' n' ∧ inorder t' = ctx_left k ++ x :: ctx_right k ∧
    ∀ z, z ≠ x → z ∉ inorder (plug k Leaf) → rb_heap s' !! z = rb_heap s !! z.
Proof.
  intros Hrep Hrb Hx. set (D := x :: inorder (plug k Leaf)).
  assert (Hz : zrep D (rb_heap s) k Leaf s).
  { apply zrep_plug, rep_zrep; [done|]. intros z ?. by right. }
  rewrite inorder_plug in Hx. simpl in Hx.
  destruct (link_node_ok D (rb_heap s) k x s Hz) as (s1 & E1 & Hz1); [by rewrite ctx_elems_perm|by left|].
  destruct (insert_color_ok D (rb_heap s) k x s1 n Hz1 Hrb) as (s2 & t2 & n2 & E2 & Hz2 & Hi & Hrb2).
  exists s2, t2, n2. split; [by rewrite (st_bind_ok _ _ _ _ _ E1)|]. split; [by eapply zrep_rep|].
  split; [done|]. split; [done|]. intros z Hzx Hzi. apply (z_frame _ _ _ _ _ Hz2).
  by apply not_elem_of_cons.
Qed.
End insertion.
