(* ===== verification/RbWalk.v ===== *)
(** * Walks along red-black trees

    [rb_first], [rb_last], [rb_next] and [rb_prev] follow the order of the tree. *)

From S2P Require Import Prelude RbTree RbInsert.

Section walks.
Context {A : Type} `{Countable A}.
Implicit Types (k : list (rb_frame A)) (t a b : tree A) (s : rb_state A).

(** The element of a list at the side [d]. *)
Definition at_end (d : side) (l : list A) : option A :=
  match d with LEFT => head l | RIGHT => last l end.

Lemma at_end_app d (l1 l2 : list A) :
  at_end d (l1 ++ l2) = match d with LEFT => match l1 with [] => head l2 | y :: _ => Some y end
                        | RIGHT => match last l2 with Some y => Some y | None => last l1 end end.
Proof. destruct d; simpl; [by destruct l1|]. rewrite last_app. by destruct (last l2). Qed.

Lemma at_end_mk d c a x b :
  at_end d (inorder (mk d c a x b)) = match tree_root a with
                                      | Some _ => at_end d (inorder a) | None => Some x end.
Proof.
  destruct d; simpl.
  - destruct a as [|c' l y r]; [done|]. simpl. destruct (inorder l); done.
  - rewrite last_app. simpl. destruct a as [|c' l y r]; [done|].
    simpl. destruct (inorder l ++ y :: inorder r) eqn:E; [by destruct (inorder l)|].
    rewrite <-E, last_cons. rewrite E. by destruct (last (a :: l0)) eqn:E'; [|by apply last_None in E'].
Qed.

Lemma tree_root_side d t x : tree_root t = Some x → ∃ c a b, t = mk d c a x b.
Proof.
  destruct t as [|c l y r]; [done|]. intros [= ->].
  destruct d; [by exists c, l, r|by exists c, r, l].
Qed.

Lemma extreme_ok D h0 d fuel k t x s : zrep D h0 k t s → tree_root t = Some x →
  (length (inorder t) ≤ fuel)%nat →
  ∃ y, rb_extreme d fuel x s = Ok (y, s) ∧ at_end d (inorder t) = Some y.
Proof.
  revert k t x. induction fuel as [|fuel IH]; intros k t x Hz Hx Hl.
  { apply tree_root_in in Hx. destruct (inorder t); [by apply elem_of_nil in Hx|simpl in Hl; lia]. }
  destruct (tree_root_side d t x Hx) as (c & a & b & ->). simpl rb_extreme.
  rewrite (st_bind_ok _ _ _ _ _ (rb_get_ok _ _ _ (z_focus _ _ _ _ _ _ _ _ _ Hz))), child_mkn.
  rewrite at_end_mk. destruct (tree_root a) as [y|] eqn:Ha; [|by exists x].
  rewrite zrep_down in Hz. apply (IH _ a y Hz Ha).
  rewrite (Permutation_length (inorder_mk d c a x b)) in Hl. simpl in Hl. rewrite length_app in Hl. lia.
Qed.

Lemma end_ok D h0 d t s : zrep D h0 [] t s → rb_end d s = Ok (at_end d (inorder t), s).
Proof.
  intros Hz. unfold rb_end. erewrite st_bind_ok by reflexivity. rewrite (z_root _ _ _ _ _ Hz). simpl.
  destruct (tree_root t) as [x|] eqn:Hx; [|by destruct t, d].
  pose proof (zrep_size _ _ _ _ _ Hz) as Hs. rewrite Nat.add_0_r in Hs.
  destruct (extreme_ok _ _ d _ _ _ _ _ Hz Hx Hs) as (y & Ey & Hy).
  by rewrite (st_bind_ok _ _ _ _ _ Ey), Hy.
Qed.

(** What comes on the side [d] of the hole. *)
Definition ctx_side (d : side) k : list A := match d with LEFT => ctx_left k | RIGHT => ctx_right k end.

Lemma climb_ok D h0 d fuel k t x s : zrep D h0 k t s → tree_root t = Some x → (length k < fuel)%nat →
  rb_climb d fuel x s = Ok (at_end (opp d) (ctx_side d k), s).
Proof.
  revert k t x. induction fuel as [|fuel IH]; intros k t x Hz Hx Hl; [lia|].
  destruct (tree_root_side LEFT t x Hx) as (c & a & b & ->). simpl rb_climb.
  rewrite (st_bind_ok _ _ _ _ _ (rb_get_ok _ _ _ (z_focus _ _ _ _ _ _ _ _ _ Hz))), parent_mkn.
  destruct k as [|f k]; [by destruct d|]. change (hole_parent (f :: k)) with (Some (f_node f)). cbn iota.
  rewrite (st_bind_ok _ _ _ _ _ (rb_get_ok _ _ _ (z_parent _ _ _ _ _ _ Hz))), tree_root_mk.
  pose proof (z_other_root _ _ _ _ _ x _ Hz (tree_root_in _ _ Hx)) as Ho.
  destruct (decide (d = f_side f)) as [->|Hd].
  - rewrite child_mkn, bool_decide_eq_true_2 by done. rewrite zrep_move in Hz.
    rewrite (IH _ _ (f_node f) Hz) by (try apply tree_root_mk; simpl in Hl; lia).
    simpl. by destruct (f_side f) eqn:Hf; simpl; rewrite Hf.
  - assert (d = opp (f_side f)) as -> by (by destruct d, (f_side f)).
    rewrite child_mkn_opp, bool_decide_eq_false_2 by done.
    destruct (f_side f) eqn:Hf; simpl; rewrite Hf; simpl; [done|].
    by rewrite app_assoc, last_snoc.
Qed.

Lemma neighbour_ok D h0 d c a x b k s : zrep D h0 k (mk d c a x b) s →
  rb_neighbour d x s = Ok (at_end (opp d) (match d with LEFT => ctx_left k ++ inorder a
                                           | RIGHT => inorder a ++ ctx_right k end), s).
Proof.
  intros Hz. unfold rb_neighbour.
  rewrite (st_bind_ok _ _ _ _ _ (rb_get_ok _ _ _ (z_focus _ _ _ _ _ _ _ _ _ Hz))), parent_mkn, child_mkn.
  pose proof (z_nodup _ _ _ _ _ Hz) as Hn. rewrite inorder_mk in Hn. simpl in Hn.
  apply NoDup_cons in Hn as [Hxk _]. rewrite bool_decide_eq_false_2
    by (intros ?%hole_parent_in; apply Hxk, elem_of_app; by right).
  erewrite st_bind_ok by reflexivity. pose proof (zrep_size _ _ _ _ _ Hz) as Hs.
  rewrite (Permutation_length (inorder_mk d c a x b)) in Hs. simpl in Hs. rewrite length_app in Hs.
  destruct (tree_root a) as [y|] eqn:Ha.
  - rewrite zrep_down in Hz.
    destruct (extreme_ok _ _ (opp d) (size (rb_heap s)) _ _ _ _ Hz Ha ltac:(lia)) as (z & Ez & Hy).
    rewrite (st_bind_ok _ _ _ _ _ Ez). destruct d; rewrite at_end_app; simpl in *.
    + by rewrite Hy.
    + destruct (inorder a); by simplify_eq/=.
  - rewrite (climb_ok _ _ d _ _ _ _ _ Hz) by (try apply tree_root_mk; lia).
    destruct a; [|done]. destruct d; simpl; by rewrite ?app_nil_r.
Qed.

(** A node of a tree, found. *)
Lemma find_node t x : x ∈ inorder t → ∃ k c l r, t = plug k (Node c l x r).
Proof.
  induction t as [|c l IHl y r IHr]; simpl; [by intros ?%elem_of_nil|].
  assert (Hsnoc : ∀ k f t, plug (k ++ [f]) t = plug1 f (plug k t))
    by (clear; intros k f; induction k as [|g k IH]; intros t; [done|apply IH]).
  rewrite elem_of_app, elem_of_cons. intros [Hx|[->|Hx]].
  - destruct (IHl Hx) as (k & c' & l' & r' & ->).
    by exists (k ++ [RbFrame LEFT c y r]), c', l', r'; rewrite Hsnoc.
  - by exists [], c, l, r.
  - destruct (IHr Hx) as (k & c' & l' & r' & ->).
    by exists (k ++ [RbFrame RIGHT c y l]), c', l', r'; rewrite Hsnoc.
Qed.

(** Where an element is in a list without duplicates. *)
Lemma nodup_split (l1 l2 l1' l2' : list A) x : NoDup (l1 ++ x :: l2) →
  l1 ++ x :: l2 = l1' ++ x :: l2' → l1 = l1' ∧ l2 = l2'.
Proof.
  revert l1'. induction l1 as [|y l1 IH]; intros [|y' l1'] Hn Heq; simpl in *.
  - by injection Heq.
  - injection Heq as -> ->. apply NoDup_cons in Hn as [Hn _]. destruct Hn.
    apply elem_of_app. right. by left.
  - injection Heq as -> <-. apply NoDup_cons in Hn as [Hn _]. destruct Hn.
    apply elem_of_app. right. by left.
  - injection Heq as -> Heq. apply NoDup_cons in Hn as [_ Hn].
    by destruct (IH _ Hn Heq) as [-> ->].
Qed.

Lemma rep_split t s l1 x l2 : rb_rep t s → inorder t = l1 ++ x :: l2 →
  ∃ k c l r, t = plug k (Node c l x r) ∧ l1 = ctx_left k ++ inorder l ∧ l2 = inorder r ++ ctx_right k.
Proof.
  intros Hz Hi. destruct (find_node t x) as (k & c & l & r & ->).
  { rewrite Hi. apply elem_of_app. right. by left. }
  exists k, c, l, r. split; [done|].
  pose proof (z_nodup _ _ _ _ _ Hz) as Hn. simpl in Hn. rewrite app_nil_r in Hn.
  rewrite inorder_plug in Hn, Hi. simpl in Hn, Hi. rewrite <-!app_assoc, app_assoc in Hn, Hi. simpl in Hn, Hi.
  destruct (nodup_split _ _ _ _ _ Hn Hi) as [<- <-]. done.
Qed.

Lemma rb_next_ok t s l1 x l2 : rb_rep t s → inorder t = l1 ++ x :: l2 → rb_next x s = Ok (head l2, s).
Proof.
  intros Hz Hi. destruct (rep_split _ _ _ _ _ Hz Hi) as (k & c & l & r & -> & -> & ->).
  apply zrep_plug in Hz. by apply (neighbour_ok _ _ RIGHT c r x l k s Hz).
Qed.
Lemma rb_prev_ok t s l1 x l2 : rb_rep t s → inorder t = l1 ++ x :: l2 → rb_prev x s = Ok (last l1, s).
Proof.
  intros Hz Hi. destruct (rep_split _ _ _ _ _ Hz Hi) as (k & c & l & r & -> & -> & ->).
  apply zrep_plug in Hz. by apply (neighbour_ok _ _ LEFT c l x r k s Hz).
Qed.

(** The walks do not look at the root. *)
Lemma get_root x p q (h : gmap A (rb_node A)) :
  rb_get x (RbState p h) = match rb_get x (RbState q h) with Ok (n, _) => Ok (n, RbState p h) | Err e => Err e end.
Proof. unfold rb_get, mbind, st_bind, get, lift, deref. simpl. by destruct (h !! x). Qed.
Lemma get_same x (s : rb_state A) n s' : rb_get x s = Ok (n, s') → s' = s.
Proof. unfold rb_get, mbind, st_bind, get, lift, deref. by destruct (rb_heap s !! x); intros [= <- <-]. Qed.

Lemma bind_get_root {B} x (f g : rb_node A → ST (rb_state A) B) p q (h : gmap A (rb_node A)) :
  (∀ n, f n (RbState p h) = match g n (RbState q h) with Ok (b, _) => Ok (b, RbState p h) | Err e => Err e end) →
  (rb_get x ≫= f) (RbState p h) =
    match (rb_get x ≫= g) (RbState q h) with Ok (b, _) => Ok (b, RbState p h) | Err e => Err e end.
Proof.
  intros Hfg. unfold mbind, st_bind. rewrite (get_root x p q). destruct (rb_get x (RbState q h)) as [[n s']|] eqn:E; [|done].
  apply get_same in E as ->. apply Hfg.
Qed.

Lemma extreme_root d fuel x p q (h : gmap A (rb_node A)) : rb_extreme d fuel x (RbState p h) =
  match rb_extreme d fuel x (RbState q h) with Ok (b, _) => Ok (b, RbState p h) | Err e => Err e end.
Proof.
  revert x. induction fuel as [|fuel IH]; intros x; [done|]. simpl. apply bind_get_root.
  intros n. by destruct (child d n).
Qed.
Lemma climb_root d fuel x p q (h : gmap A (rb_node A)) : rb_climb d fuel x (RbState p h) =
  match rb_climb d fuel x (RbState q h) with Ok (b, _) => Ok (b, RbState p h) | Err e => Err e end.
Proof.
  revert x. induction fuel as [|fuel IH]; intros x; [done|]. simpl. apply bind_get_root.
  intros n. destruct (rb_parent n); [|done]. apply bind_get_root. intros m. by case_bool_decide.
Qed.
Lemma neighbour_root d x p q (h : gmap A (rb_node A)) : rb_neighbour d x (RbState p h) =
  match rb_neighbour d x (RbState q h) with Ok (b, _) => Ok (b, RbState p h) | Err e => Err e end.
Proof.
  apply bind_get_root. intros n. case_bool_decide; [done|]. destruct (child d n) as [y|]; [|apply climb_root].
  unfold mbind, st_bind, get. simpl. rewrite (extreme_root _ _ _ p q).
  by destruct (rb_extreme (opp d) (size h) y (RbState q h)) as [[]|].
Qed.

Lemma rb_next_nodes t s l1 x l2 p : rb_rep t s → inorder t = l1 ++ x :: l2 →
  rb_next x (RbState p (rb_heap s)) = Ok (head l2, RbState p (rb_heap s)).
Proof.
  intros Hz Hi. unfold rb_next. rewrite (neighbour_root _ _ _ (rb_root s)).
  pose proof (rb_next_ok _ _ _ _ _ Hz Hi) as E. unfold rb_next in E. destruct s. simpl in *. by rewrite E.
Qed.
Lemma rb_prev_nodes t s l1 x l2 p : rb_rep t s → inorder t = l1 ++ x :: l2 →
  rb_prev x (RbState p (rb_heap s)) = Ok (last l1, RbState p (rb_heap s)).
Proof.
  intros Hz Hi. unfold rb_prev. rewrite (neighbour_root _ _ _ (rb_root s)).
  pose proof (rb_prev_ok _ _ _ _ _ Hz Hi) as E. unfold rb_prev in E. destruct s. simpl in *. by rewrite E.
Qed.
End walks.
