(* ===== verification/RbErase.v ===== *)
(** * Removal from red-black trees ([rb_erase], [rb_replace_node] of [lib/rbtree.c])

    The two halves of the loop of [__rb_erase_color] are mirror images and one
    definition here; the loop works on a tree with a hole whose filling misses a
    black node ([deficient]). *)

From S2P Require Import Prelude RbTree RbInsert RbWalk.

(** ** The C functions *)
Section code.
Context {A : Type} `{Countable A}.
Implicit Types (node parent other : A).

(** [!p || rb_is_black(p)] *)
Definition black_or_null (p : option A) : ST (rb_state A) bool :=
  match p with
  | None => mret true
  | Some x => n ← rb_get x; mret (rb_is_black n)
  end.

(** [other], made black by a rotation where it is red; the missing black node is
    below the side [d] of [parent]. *)
Definition erase_sibling (d : side) parent : ST (rb_state A) A :=
  pn ← rb_get parent;
  other ← lift (deref (child (opp d) pn));
  on ← rb_get other;
  if rb_is_red on then
    rb_upd other (rb_set_color RB_BLACK);;
    rb_upd parent (rb_set_color RB_RED);;
    rb_rotate d parent;;
    pn ← rb_get parent;
    lift (deref (child (opp d) pn))
  else mret other.

(** [other], after a rotation where its red child is on the near side. *)
Definition erase_far (d : side) parent other : ST (rb_state A) A :=
  on ← rb_get other;
  far_black ← black_or_null (child (opp d) on);
  if (far_black : bool) then
    near ← lift (deref (child d on));
    rb_upd near (rb_set_color RB_BLACK);;
    rb_upd other (rb_set_color RB_RED);;
    rb_rotate (opp d) other;;
    pn ← rb_get parent;
    lift (deref (child (opp d) pn))
  else mret other.

(** The case where [other] has a red child. *)
Definition erase_rotate (d : side) parent other : ST (rb_state A) unit :=
  other ← erase_far d parent other;
  pn ← rb_get parent;
  rb_upd other (rb_set_color (rb_color pn));;
  rb_upd parent (rb_set_color RB_BLACK);;
  on ← rb_get other;
  far ← lift (deref (child (opp d) on));
  rb_upd far (rb_set_color RB_BLACK);;
  rb_rotate d parent.

Definition both_black other : ST (rb_state A) bool :=
  on ← rb_get other;
  left_black ← black_or_null (rb_left on);
  if (left_black : bool) then black_or_null (rb_right on) else mret false.

(** Returns [node]. *)
Fixpoint erase_color_loop (fuel : nat) (node parent : option A) : ST (rb_state A) (option A) :=
  match fuel with
  | O => raise HANG
  | S fuel =>
    b ← black_or_null node;
    s ← get;
    if negb b || bool_decide (node = rb_root s) then mret node else
    parent ← lift (deref parent);
    pn ← rb_get parent;
    let d := if bool_decide (rb_left pn = node) then LEFT else RIGHT in
    other ← erase_sibling d parent;
    b ← both_black other;
    if (b : bool) then
      rb_upd other (rb_set_color RB_RED);;
      pn ← rb_get parent;
      erase_color_loop fuel (Some parent) (rb_parent pn)
    else erase_rotate d parent other;; gets rb_root
  end.

Definition __rb_erase_color (node parent : option A) : ST (rb_state A) unit :=
  s ← get;
  node ← erase_color_loop (S (size (rb_heap s))) node parent;
  match node with
  | Some x => rb_upd x (rb_set_color RB_BLACK)
  | None => mret tt
  end.

(** The node has at most one child: what becomes of the local variables [child],
    [parent] and [color]. *)
Definition erase_single node (child : option A) : ST (rb_state A) (option A * option A * rb_colour) :=
  n ← rb_get node;
  let parent := rb_parent n in
  match child with Some c => rb_upd c (rb_set_parent parent) | None => mret tt end;;
  rb_replace_link LEFT parent node child;;
  mret (child, parent, rb_color n).

(** The successor [node] of [old], whose fields are [nn], is taken out of the
    right subtree; returns the node where rebalancing starts. *)
Definition erase_take_out (old node : A) (nn : rb_node A) : ST (rb_state A) (option A) :=
  let child := rb_right nn in
  if bool_decide (rb_parent nn = Some old) then mret (Some node) else
  match child with Some c => rb_upd c (rb_set_parent (rb_parent nn)) | None => mret tt end;;
  parent ← lift (deref (rb_parent nn));
  rb_upd parent (set_child LEFT child);;
  on ← rb_get old;
  rb_upd node (set_child RIGHT (rb_right on));;
  right ← lift (deref (rb_right on));
  rb_upd right (rb_set_parent (Some node));;
  mret (Some parent).

(** [node] takes over the place of [old] and its left subtree. *)
Definition erase_relink (old node : A) : ST (rb_state A) unit :=
  on ← rb_get old;
  rb_upd node (λ n, RbNode (rb_parent on) (rb_color on) (rb_right n) (rb_left n));;
  rb_upd node (set_child LEFT (rb_left on));;
  left ← lift (deref (rb_left on));
  rb_upd left (rb_set_parent (Some node)).

(** The node has two children: its successor takes its place. *)
Definition erase_double (old : A) : ST (rb_state A) (option A * option A * rb_colour) :=
  on ← rb_get old;
  right ← lift (deref (rb_right on));
  s ← get;
  node ← rb_extreme LEFT (size (rb_heap s)) right;
  rb_replace_link LEFT (rb_parent on) old (Some node);;
  nn ← rb_get node;
  parent ← erase_take_out old node nn;
  erase_relink old node;;
  mret (rb_right nn, parent, rb_color nn).

Definition rb_erase node : ST (rb_state A) unit :=
  n ← rb_get node;
  '(child, parent, color) ← match rb_left n, rb_right n with
                            | None, child => erase_single node child
                            | Some l, None => erase_single node (Some l)
                            | Some _, Some _ => erase_double node
                            end;
  when (bool_decide (color = RB_BLACK)) (__rb_erase_color child parent).

Definition rb_replace_node (victim new : A) : ST (rb_state A) unit :=
  vn ← rb_get victim;
  rb_replace_link LEFT (rb_parent vn) victim (Some new);;
  match rb_left vn with Some l => rb_upd l (rb_set_parent (Some new)) | None => mret tt end;;
  match rb_right vn with Some r => rb_upd r (rb_set_parent (Some new)) | None => mret tt end;;
  vn ← rb_get victim;
  modify (λ s, RbState (rb_root s) (<[new := vn]> (rb_heap s))).
End code.

(** ** The loop that restores the black heights *)
Section erase_colour.
Context {A : Type} `{Countable A}.
Implicit Types (k : list (rb_frame A)) (t a b o : tree A) (s : rb_state A).

(** The filling [t] misses a black node. *)
Record deficient k t (n : nat) : Prop := {
  de_reds : no_red_red (black t);
  de_height : black_height t n;
  de_ctx : ctx_ok k RB_BLACK;
  de_above : ∃ m, ctx_height k (S n) m
}.

Lemma ctx_ok_black k c : ctx_ok k c → ctx_ok k RB_BLACK.
Proof. destruct k; simpl; [done|]. tauto. Qed.

Lemma black_or_null_ok p t s : holds (tree_nodes p t) (rb_heap s) →
  black_or_null (tree_root t) s = Ok (bool_decide (colour_of t = RB_BLACK), s).
Proof.
  destruct t as [|c l x r]; intros Hh; [done|]. simpl tree_root. unfold black_or_null.
  rewrite (st_bind_ok _ _ _ _ _ (rb_get_ok x (RbNode p c (tree_root r) (tree_root l)) _ (Hh _ _ ltac:(by left)))).
  by destruct c.
Qed.

(** A tree that has black nodes has a root. *)
Lemma height_node d t n : black_height t (S n) → ∃ c a x b, t = mk d c a x b.
Proof.
  inversion 1; subst. destruct d; [by eexists _, _, _, _|]. eexists c, r, x, l. done.
Qed.

Lemma deficient_inv d cp p o k t n : deficient (RbFrame d cp p o :: k) t n →
  (cp = RB_RED → colour_of o = RB_BLACK) ∧ no_red_red o ∧ ctx_ok k cp ∧ black_height o (S n) ∧
  ∃ m, ctx_height k (up cp (S n)) m.
Proof.
  intros [_ _ (Hf & Ho & Hk) [m Hm]]. inversion Hm; subst. simpl in *. naive_solver.
Qed.

(** A red sibling is rotated away. *)
Lemma red_sibling D h0 d p a y b k t s : zrep D h0 (RbFrame d RB_BLACK p (mk d RB_RED a y b) :: k) t s →
  ∃ s1 s2 s3, rb_upd y (rb_set_color RB_BLACK) s = Ok (tt, s1) ∧
    rb_upd p (rb_set_color RB_RED) s1 = Ok (tt, s2) ∧ rb_rotate d p s2 = Ok (tt, s3) ∧
    zrep D h0 (RbFrame d RB_RED p a :: RbFrame d RB_BLACK y b :: k) t s3.
Proof.
  rewrite <-zrep_down. intros Hz. rewrite zrep_down_opp in Hz.
  destruct (set_color_ok _ _ _ _ _ _ _ _ RB_BLACK _ Hz) as (s1 & E1 & Hz1).
  rewrite <-zrep_down_opp in Hz1.
  destruct (set_color_ok _ _ _ _ _ _ _ _ RB_RED _ Hz1) as (s2 & E2 & Hz2).
  destruct (rotate_ok _ _ _ _ _ _ _ _ _ _ _ _ Hz2) as (s3 & E3 & Hz3).
  exists s1, s2, s3. split_and!; [done..|]. by rewrite <-!zrep_down.
Qed.

Lemma red_sibling_deficient d p a y b k t n :
  deficient (RbFrame d RB_BLACK p (mk d RB_RED a y b) :: k) t n →
  deficient (RbFrame d RB_RED p a :: RbFrame d RB_BLACK y b :: k) t n.
Proof.
  intros Hd. destruct (deficient_inv _ _ _ _ _ _ _ Hd) as (_ & Ho & Hk & Hh & m & Hm).
  apply no_red_red_mk in Ho as (Hab & Ha & Hb). destruct (Hab eq_refl) as [Hac Hbc].
  apply height_mk_inv in Hh as (n' & Hn & Hha & Hhb). simpl in Hn. subst n'.
  destruct Hd as [Hr Ht _ _]. split; [done|done|simpl; naive_solver|].
  exists m. by repeat constructor.
Qed.

Lemma sibling_ok D h0 d cp p o k t n s :
  zrep D h0 (RbFrame d cp p o :: k) t s → deficient (RbFrame d cp p o :: k) t n →
  ∃ s' cp' a y b k', erase_sibling d p s = Ok (y, s') ∧
    zrep D h0 (RbFrame d cp' p (mk d RB_BLACK a y b) :: k') t s' ∧
    deficient (RbFrame d cp' p (mk d RB_BLACK a y b) :: k') t n ∧
    inorder (plug (RbFrame d cp' p (mk d RB_BLACK a y b) :: k') t) = inorder (plug (RbFrame d cp p o :: k) t) ∧
    (k' = k ∧ cp' = cp ∨ cp' = RB_RED).
Proof.
  intros Hz Hd. destruct (deficient_inv _ _ _ _ _ _ _ Hd) as (Hc & _ & _ & Hh & _).
  destruct (height_node d _ _ Hh) as (c & a & y & b & ->). unfold erase_sibling.
  rewrite (st_bind_ok _ _ _ _ _ (rb_get_ok _ _ _ (z_parent _ _ _ _ _ _ Hz))).
  cbn [f_side f_colour f_node f_other]. rewrite child_mkn_opp, tree_root_mk.
  erewrite (st_bind_ok (lift _)) by reflexivity.
  pose proof Hz as Hy. rewrite <-zrep_down, zrep_down_opp in Hy. apply z_focus in Hy.
  rewrite (st_bind_ok _ _ _ _ _ (rb_get_ok _ _ _ Hy)). unfold rb_is_red. rewrite color_mkn.
  destruct c; [|exists s, cp, a, y, b, k; split_and!; [done..|by left]].
  rewrite bool_decide_eq_true_2 by done. rewrite colour_mk in Hc. destruct cp; [by specialize (Hc eq_refl)|].
  destruct (red_sibling _ _ _ _ _ _ _ _ _ _ Hz) as (s1 & s2 & s3 & E1 & E2 & E3 & Hz1).
  apply red_sibling_deficient in Hd. rewrite (st_bind_ok _ _ _ _ _ E1), (st_bind_ok _ _ _ _ _ E2), (st_bind_ok _ _ _ _ _ E3).
  rewrite (st_bind_ok _ _ _ _ _ (rb_get_ok _ _ _ (z_parent _ _ _ _ _ _ Hz1))).
  destruct (deficient_inv _ _ _ _ _ _ _ Hd) as (Hc' & _ & _ & Hh' & _).
  destruct (height_node d _ _ Hh') as (c & a1 & z & a2 & ->). specialize (Hc' eq_refl). rewrite colour_mk in Hc'.
  subst c. cbn [f_side f_colour f_node f_other]. rewrite child_mkn_opp, tree_root_mk.
  eexists s3, RB_RED, a1, z, a2, _. split; [done|]. split; [done|]. split; [done|]. split; [|by right].
  cbn [plug]. apply plug_inorder. unfold plug1. cbn [f_side f_colour f_node f_other].
  rewrite inorder_rotate. by destruct d.
Qed.

(** The sibling with a red child on the far side. *)
Lemma rotate_far D h0 d cp p a y bl bx br k t s :
  zrep D h0 (RbFrame d cp p (mk d RB_BLACK a y (mk d RB_RED bl bx br)) :: k) t s →
  ∃ s1 s2 s3 s4, rb_upd y (rb_set_color cp) s = Ok (tt, s1) ∧
    rb_upd p (rb_set_color RB_BLACK) s1 = Ok (tt, s2) ∧
    rb_heap s2 !! y = Some (mkn d (Some p) cp (tree_root a) (Some bx)) ∧
    rb_upd bx (rb_set_color RB_BLACK) s2 = Ok (tt, s3) ∧ rb_rotate d p s3 = Ok (tt, s4) ∧
    zrep D h0 k (mk d cp (mk d RB_BLACK t p a) y (mk d RB_BLACK bl bx br)) s4.
Proof.
  rewrite <-zrep_down. intros Hz. rewrite zrep_down_opp in Hz.
  destruct (set_color_ok _ _ _ _ _ _ _ _ cp _ Hz) as (s1 & E1 & Hz1).
  rewrite <-zrep_down_opp in Hz1.
  destruct (set_color_ok _ _ _ _ _ _ _ _ RB_BLACK _ Hz1) as (s2 & E2 & Hz2).
  rewrite zrep_down_opp in Hz2. pose proof (z_focus _ _ _ _ _ _ _ _ _ Hz2) as Hy.
  rewrite tree_root_mk in Hy. rewrite zrep_down_opp in Hz2.
  destruct (set_color_ok _ _ _ _ _ _ _ _ RB_BLACK _ Hz2) as (s3 & E3 & Hz3).
  rewrite <-!zrep_down_opp in Hz3.
  destruct (rotate_ok _ _ _ _ _ _ _ _ _ _ _ _ Hz3) as (s4 & E4 & Hz4).
  by exists s1, s2, s3, s4.
Qed.

(** A red child on the near side is brought to the far side. *)
Lemma rotate_near D h0 d cp p al ax ar y b k t s :
  zrep D h0 (RbFrame d cp p (mk d RB_BLACK (mk d RB_RED al ax ar) y b) :: k) t s →
  ∃ s1 s2 s3, rb_upd ax (rb_set_color RB_BLACK) s = Ok (tt, s1) ∧
    rb_upd y (rb_set_color RB_RED) s1 = Ok (tt, s2) ∧ rb_rotate (opp d) y s2 = Ok (tt, s3) ∧
    zrep D h0 (RbFrame d cp p (mk d RB_BLACK al ax (mk d RB_RED ar y b)) :: k) t s3.
Proof.
  rewrite <-zrep_down. intros Hz. rewrite zrep_down_opp, zrep_down in Hz.
  destruct (set_color_ok _ _ _ _ _ _ _ _ RB_BLACK _ Hz) as (s1 & E1 & Hz1).
  rewrite <-zrep_down in Hz1.
  destruct (set_color_ok _ _ _ _ _ _ _ _ RB_RED _ Hz1) as (s2 & E2 & Hz2).
  assert (Hz2' : zrep D h0 (RbFrame (opp d) cp p t :: k)
    (mk (opp d) RB_RED b y (mk (opp d) RB_BLACK ar ax al)) s2) by (by rewrite !mk_opp).
  destruct (rotate_ok _ _ _ _ _ _ _ _ _ _ _ _ Hz2') as (s3 & E3 & Hz3).
  exists s1, s2, s3. split_and!; [done..|]. rewrite !mk_opp in Hz3. by rewrite <-zrep_down, zrep_down_opp.
Qed.

Lemma red_node d t : colour_of t = RB_RED → ∃ a x b, t = mk d RB_RED a x b.
Proof. destruct t as [|[] l x r]; [done| |done]. intros _. destruct d; by eexists _, _, _. Qed.

Lemma deficient_black k t n : deficient k t n → colour_of t = RB_BLACK → no_red_red t.
Proof. intros [Hr _ _ _]. by destruct t as [|[] l x r]. Qed.

Lemma far_balanced d cp p a y bl bx br k t n :
  deficient (RbFrame d cp p (mk d RB_BLACK a y (mk d RB_RED bl bx br)) :: k) t n →
  colour_of t = RB_BLACK →
  ∃ m, red_black (plug k (mk d cp (mk d RB_BLACK t p a) y (mk d RB_BLACK bl bx br))) m.
Proof.
  intros Hd Ht. pose proof (deficient_black _ _ _ Hd Ht) as Hnt.
  destruct (deficient_inv _ _ _ _ _ _ _ Hd) as (_ & Ho & Hk & Hh & m & Hm).
  apply no_red_red_mk in Ho as (_ & Ha & Hb). apply no_red_red_mk in Hb as (_ & Hbl & Hbr).
  apply height_mk_inv in Hh as (n' & [= <-] & Hha & Hhb).
  apply height_mk_inv in Hhb as (n' & Hn' & Hhbl & Hhbr). simpl in Hn'. subst n'.
  exists m. eapply plug_red_black; [| |by rewrite colour_mk|exact Hm].
  - rewrite !no_red_red_mk, !colour_mk. naive_solver.
  - apply height_mk; [by apply (height_mk _ RB_BLACK), Hha; apply (de_height _ _ _ Hd)|].
    by apply (height_mk _ RB_BLACK).
Qed.

Lemma near_deficient d cp p al ax ar y b k t n :
  deficient (RbFrame d cp p (mk d RB_BLACK (mk d RB_RED al ax ar) y b) :: k) t n →
  colour_of b = RB_BLACK →
  deficient (RbFrame d cp p (mk d RB_BLACK al ax (mk d RB_RED ar y b)) :: k) t n.
Proof.
  intros Hd Hbc. destruct (deficient_inv _ _ _ _ _ _ _ Hd) as (_ & Ho & Hk & Hh & m & Hm).
  apply no_red_red_mk in Ho as (_ & Ha & Hb). apply no_red_red_mk in Ha as (Hac & Hal & Har).
  apply height_mk_inv in Hh as (n' & [= <-] & Hha & Hhb).
  apply height_mk_inv in Hha as (n' & Hn' & Hhal & Hhar). simpl in Hn'. subst n'.
  destruct Hd as [Hr Ht _ _]. split; [done|done| |].
  - simpl. rewrite !no_red_red_mk, !colour_mk. naive_solver.
  - exists m. constructor; [|done]. apply (height_mk _ RB_BLACK); [done|]. by apply (height_mk _ RB_RED).
Qed.

Lemma erase_far_ok D h0 d cp p a y b k t n s :
  zrep D h0 (RbFrame d cp p (mk d RB_BLACK a y b) :: k) t s →
  deficient (RbFrame d cp p (mk d RB_BLACK a y b) :: k) t n →
  ¬ (colour_of a = RB_BLACK ∧ colour_of b = RB_BLACK) →
  ∃ s1 a' y' bl bx br, erase_far d p y s = Ok (y', s1) ∧
    zrep D h0 (RbFrame d cp p (mk d RB_BLACK a' y' (mk d RB_RED bl bx br)) :: k) t s1 ∧
    deficient (RbFrame d cp p (mk d RB_BLACK a' y' (mk d RB_RED bl bx br)) :: k) t n ∧
    inorder (mk d RB_BLACK a' y' (mk d RB_RED bl bx br)) = inorder (mk d RB_BLACK a y b).
Proof.
  intros Hz Hd Hred. pose proof Hz as Hy. rewrite <-zrep_down, zrep_down_opp in Hy. unfold erase_far.
  rewrite (st_bind_ok _ _ _ _ _ (rb_get_ok _ _ _ (z_focus _ _ _ _ _ _ _ _ _ Hy))), child_mkn_opp, child_mkn.
  rewrite (st_bind_ok _ _ _ _ _ (black_or_null_ok (Some y) b s
    ltac:(intros ???; apply (z_tree _ _ _ _ _ Hy), tree_nodes_mk; tauto))).
  destruct (colour_of b) eqn:Hbc.
  { destruct (red_node d b Hbc) as (bl & bx & br & ->). by exists s, a, y, bl, bx, br. }
  rewrite bool_decide_eq_true_2 by done.
  destruct (colour_of a) eqn:Hac; [|by destruct Hred].
  destruct (red_node d a Hac) as (al & ax & ar & ->). rewrite tree_root_mk.
  erewrite (st_bind_ok (lift _)) by reflexivity.
  destruct (rotate_near _ _ _ _ _ _ _ _ _ _ _ _ _ Hz) as (s1 & s2 & s3 & E1 & E2 & E3 & Hz3).
  rewrite (st_bind_ok _ _ _ _ _ E1), (st_bind_ok _ _ _ _ _ E2), (st_bind_ok _ _ _ _ _ E3).
  rewrite (st_bind_ok _ _ _ _ _ (rb_get_ok _ _ _ (z_parent _ _ _ _ _ _ Hz3))).
  cbn [f_side f_colour f_node f_other]. rewrite child_mkn_opp, tree_root_mk.
  exists s3, al, ax, ar, y, b. split; [done|]. split; [done|]. split; [by apply near_deficient|].
  rewrite <-inorder_rotate. by destruct d.
Qed.

(** The last step: the tree is balanced again. *)
Lemma erase_rotate_ok D h0 d cp p a y b k t n s :
  zrep D h0 (RbFrame d cp p (mk d RB_BLACK a y b) :: k) t s →
  deficient (RbFrame d cp p (mk d RB_BLACK a y b) :: k) t n → colour_of t = RB_BLACK →
  ¬ (colour_of a = RB_BLACK ∧ colour_of b = RB_BLACK) →
  ∃ s' t' m, erase_rotate d p y s = Ok (tt, s') ∧ zrep D h0 [] t' s' ∧ red_black t' m ∧
    inorder t' = inorder (plug (RbFrame d cp p (mk d RB_BLACK a y b) :: k) t).
Proof.
  intros Hz Hd Ht Hred.
  destruct (erase_far_ok _ _ _ _ _ _ _ _ _ _ _ _ Hz Hd Hred) as (s0 & a' & y' & bl & bx & br & E & Hz0 & Hd0 & Hi).
  unfold erase_rotate. rewrite (st_bind_ok _ _ _ _ _ E).
  rewrite (st_bind_ok _ _ _ _ _ (rb_get_ok _ _ _ (z_parent _ _ _ _ _ _ Hz0))), color_mkn.
  destruct (rotate_far _ _ _ _ _ _ _ _ _ _ _ _ _ Hz0) as (s1 & s2 & s3 & s4 & E1 & E2 & Hy & E3 & E4 & Hz4).
  cbn [f_side f_colour f_node f_other].
  rewrite (st_bind_ok _ _ _ _ _ E1), (st_bind_ok _ _ _ _ _ E2), (st_bind_ok _ _ _ _ _ (rb_get_ok _ _ _ Hy)).
  rewrite child_mkn_opp. erewrite (st_bind_ok (lift _)) by reflexivity. rewrite (st_bind_ok _ _ _ _ _ E3).
  destruct (far_balanced _ _ _ _ _ _ _ _ _ _ _ Hd0 Ht) as [m Hm].
  eexists s4, _, m. split; [done|]. split; [by apply (proj1 (zrep_plug _ _ _ _ _) Hz4)|]. split; [done|].
  cbn [plug]. apply plug_inorder. unfold plug1. cbn [f_side f_colour f_node f_other].
  rewrite inorder_rotate.
  destruct d; simpl in *; by rewrite Hi.
Qed.

(** A black sibling with black children is made red, and the hole moves up. *)
Lemma climb_deficient d cp p a y b k t n :
  deficient (RbFrame d cp p (mk d RB_BLACK a y b) :: k) t n → colour_of t = RB_BLACK →
  colour_of a = RB_BLACK → colour_of b = RB_BLACK →
  deficient k (mk d cp t p (mk d RB_RED a y b)) (up cp n).
Proof.
  intros Hd Ht Ha Hb. pose proof (deficient_black _ _ _ Hd Ht) as Hnt.
  destruct (deficient_inv _ _ _ _ _ _ _ Hd) as (_ & Ho & Hk & Hh & m & Hm).
  apply height_mk_inv in Hh as (n' & [= <-] & Hha & Hhb). apply no_red_red_mk in Ho as (_ & Hra & Hrb).
  split.
  - assert (black (mk d cp t p (mk d RB_RED a y b)) = mk d RB_BLACK t p (mk d RB_RED a y b)) as -> by (by destruct d).
    rewrite !no_red_red_mk. naive_solver.
  - apply height_mk; [apply (de_height _ _ _ Hd)|]. by apply (height_mk _ RB_RED).
  - by eapply ctx_ok_black.
  - exists m. by destruct cp.
Qed.

Lemma colour_red D h0 k t s : zrep D h0 k t s →
  black_or_null (tree_root t) s = Ok (bool_decide (colour_of t = RB_BLACK), s).
Proof. intros Hz. apply (black_or_null_ok (hole_parent k)). intros ???. by apply (z_tree _ _ _ _ _ Hz). Qed.

(** The loop stops at the root or at a red node. *)
Lemma erase_stop D h0 fuel k t s par : zrep D h0 k t s → k = [] ∨ colour_of t = RB_RED →
  erase_color_loop (S fuel) (tree_root t) par s = Ok (tree_root t, s).
Proof.
  intros Hz Hk. simpl erase_color_loop. rewrite (st_bind_ok _ _ _ _ _ (colour_red _ _ _ _ _ Hz)).
  erewrite st_bind_ok by reflexivity. rewrite (z_root _ _ _ _ _ Hz).
  destruct Hk as [->|Hk]; simpl; [by rewrite (bool_decide_eq_true_2 (tree_root t = _)), orb_true_r|].
  by rewrite bool_decide_eq_false_2 by (by rewrite Hk).
Qed.

Lemma root_not_inner D h0 f k t s : zrep D h0 (f :: k) t s → tree_root t ≠ rb_root s.
Proof.
  intros Hz Hr. rewrite (z_root _ _ _ _ _ Hz) in Hr. pose proof (z_nodup _ _ _ _ _ Hz) as Hn.
  assert (∃ x, ctx_root (f :: k) (tree_root t) = Some x ∧ x ∈ ctx_elems (f :: k)) as (x & Hx & Hin).
  { clear. simpl. revert f. induction k as [|g k IH]; intros f; simpl; [eexists; split; [done|by left]|].
    destruct (IH g) as (x & ? & ?). exists x. split; [done|]. set_solver. }
  rewrite Hx in Hr. apply tree_root_in in Hr. apply NoDup_app in Hn as (_ & Hn & _). by apply (Hn x).
Qed.

Lemma stop_balanced k t n : deficient k t n → k = [] ∨ colour_of t = RB_RED →
  ∃ m, red_black (plug k (black t)) m.
Proof.
  intros Hd Hk. destruct (colour_of t) eqn:Ht.
  - destruct (red_node LEFT t Ht) as (a & x & b & ->). destruct Hd as [Hr Hh Hok [m Hm]].
    apply (height_mk_inv LEFT) in Hh as (n' & Hn & Ha & Hb). simpl in Hn. subst n'.
    exists m. eapply plug_red_black; [done| |done|done]. by apply (bh_node RB_BLACK).
  - destruct Hk as [->|?]; [|done]. apply (black_red_black _ n); [by eapply deficient_black|].
    apply (de_height _ _ _ Hd).
Qed.

(** The test of the side, with [NULL] for [node] as well. *)
Lemma erase_side_test D h0 f k t n s : zrep D h0 (f :: k) t s → black_height (f_other f) (S n) →
  bool_decide (child LEFT (mkn (f_side f) (hole_parent k) (f_colour f) (tree_root t) (tree_root (f_other f)))
    = tree_root t) = bool_decide (f_side f = LEFT).
Proof.
  intros Hz Hh. apply bool_decide_ext. destruct (f_side f) eqn:Hf; simpl; [naive_solver|].
  destruct (height_node LEFT _ _ Hh) as (c & a & x & b & Ho). rewrite Ho, tree_root_mk.
  split; [|done]. intros Hx. symmetry in Hx. destruct (z_other_root _ _ _ _ _ x _ Hz (tree_root_in _ _ Hx)).
  by rewrite Ho, tree_root_mk.
Qed.

(** Both children of the sibling are looked at. *)
Lemma both_black_ok D h0 k d c a y b s : zrep D h0 k (mk d c a y b) s →
  both_black y s = Ok (bool_decide (colour_of a = RB_BLACK ∧ colour_of b = RB_BLACK), s).
Proof.
  intros Hz. unfold both_black.
  rewrite (st_bind_ok _ _ _ _ _ (rb_get_ok _ _ _ (z_focus _ _ _ _ _ _ _ _ _ Hz))).
  pose proof (colour_red D h0 _ a s (proj1 (zrep_down _ _ _ _ _ _ _ _ _) Hz)) as Ha.
  pose proof (colour_red D h0 _ b s (proj1 (zrep_down_opp _ _ _ _ _ _ _ _ _) Hz)) as Hb.
  destruct d; simpl.
  - rewrite (st_bind_ok _ _ _ _ _ Ha). destruct (colour_of a); simpl; [done|].
    rewrite Hb. by destruct (colour_of b).
  - rewrite (st_bind_ok _ _ _ _ _ Hb). destruct (colour_of b); simpl.
    + by rewrite (bool_decide_eq_false_2 (_ ∧ _)) by naive_solver.
    + rewrite Ha. by destruct (colour_of a).
Qed.

Lemma erase_loop_ok D h0 fuel k t n s : zrep D h0 k t s → deficient k t n → (length k < fuel)%nat →
  ∃ s' k' t' m, erase_color_loop fuel (tree_root t) (hole_parent k) s = Ok (tree_root t', s') ∧
    zrep D h0 k' t' s' ∧ red_black (plug k' (black t')) m ∧ inorder (plug k' t') = inorder (plug k t).
Proof.
  revert k t n s. induction fuel as [|fuel IH]; intros k t n s Hz Hd Hl; [lia|].
  destruct (decide (k = [] ∨ colour_of t = RB_RED)) as [Hk|Hk].
  { destruct (stop_balanced _ _ _ Hd Hk) as [m Hm]. exists s, k, t, m. by rewrite (erase_stop _ _ _ _ _ _ _ Hz Hk). }
  destruct k as [|[d cp p o] k]; [by destruct Hk; left|].
  assert (Ht : colour_of t = RB_BLACK) by (destruct (colour_of t); [by destruct Hk; right|done]).
  simpl erase_color_loop. rewrite (st_bind_ok _ _ _ _ _ (colour_red _ _ _ _ _ Hz)).
  erewrite st_bind_ok by reflexivity. rewrite (bool_decide_eq_true_2 (colour_of t = _)) by done.
  rewrite (bool_decide_eq_false_2 (tree_root t = _)) by (by eapply root_not_inner).
  change (negb true || false) with false. cbv iota.
  erewrite (st_bind_ok (lift _)) by reflexivity.
  rewrite (st_bind_ok _ _ _ _ _ (rb_get_ok _ _ _ (z_parent _ _ _ _ _ _ Hz))).
  destruct (deficient_inv _ _ _ _ _ _ _ Hd) as (_ & _ & _ & Hh & _).
  pose proof (erase_side_test _ _ _ _ _ _ _ Hz Hh) as Hside. simpl child in Hside.
  cbn [f_side f_colour f_node f_other]. rewrite Hside. clear Hside. cbn [f_side].
  assert ((if bool_decide (d = LEFT) then LEFT else RIGHT) = d) as -> by (by destruct d).
  destruct (sibling_ok _ _ _ _ _ _ _ _ _ _ Hz Hd) as (s1 & cp' & a & y & b & k' & E1 & Hz1 & Hd1 & Hi & Hk').
  rewrite (st_bind_ok _ _ _ _ _ E1). rewrite <-Hi. clear Hi Hd Hz E1.
  pose proof Hz1 as Hy. rewrite <-zrep_down, zrep_down_opp in Hy.
  rewrite (st_bind_ok _ _ _ _ _ (both_black_ok _ _ _ _ _ _ _ _ _ Hy)).
  case_bool_decide as Hb.
  - destruct Hb as [Ha Hb]. destruct (set_color_ok _ _ _ _ _ _ _ _ RB_RED _ Hy) as (s2 & E2 & Hz2).
    rewrite (st_bind_ok _ _ _ _ _ E2). rewrite <-zrep_down_opp in Hz2.
    rewrite (st_bind_ok _ _ _ _ _ (rb_get_ok _ _ _ (z_focus _ _ _ _ _ _ _ _ _ Hz2))), parent_mkn.
    pose proof (climb_deficient _ _ _ _ _ _ _ _ _ Hd1 Ht Ha Hb) as Hd2.
    assert (Hi : inorder (plug k' (mk d cp' t p (mk d RB_RED a y b))) =
      inorder (plug (RbFrame d cp' p (mk d RB_BLACK a y b) :: k') t))
      by (cbn [plug]; apply plug_inorder; by destruct d).
    rewrite <-Hi. rewrite <-(tree_root_mk d cp' t p (mk d RB_RED a y b)).
    destruct Hk' as [[-> ->]| -> ]; [by eapply IH; [done..|simpl in Hl; lia]|].
    destruct (stop_balanced _ _ _ Hd2) as [m Hm]; [right; apply colour_mk|].
    destruct fuel; [simpl in Hl; lia|]. eexists s2, k', _, m.
    by rewrite (erase_stop _ _ _ _ _ _ _ Hz2) by (right; apply colour_mk).
  - destruct (erase_rotate_ok _ _ _ _ _ _ _ _ _ _ _ _ Hz1 Hd1 Ht Hb) as (s2 & t2 & m & E2 & Hz2 & Hm & Hi).
    rewrite (st_bind_ok _ _ _ _ _ E2). destruct (black_red_black t2 m) as [m' Hm']; [apply Hm..|].
    exists s2, [], t2, m'. split; [|done]. unfold gets. by rewrite (z_root _ _ _ _ _ Hz2).
Qed.

Lemma erase_color_ok D h0 k t n s : zrep D h0 k t s → deficient k t n →
  ∃ s' t' m, __rb_erase_color (tree_root t) (hole_parent k) s = Ok (tt, s') ∧
    zrep D h0 [] t' s' ∧ red_black t' m ∧ inorder t' = inorder (plug k t).
Proof.
  intros Hz Hd. unfold __rb_erase_color. erewrite st_bind_ok by reflexivity.
  destruct (erase_loop_ok D h0 (S (size (rb_heap s))) k t n s Hz Hd) as (s1 & k1 & t1 & m & E1 & Hz1 & Hm & Hi);
    [pose proof (zrep_size _ _ _ _ _ Hz); lia|].
  rewrite (st_bind_ok _ _ _ _ _ E1).
  destruct t1 as [|c l x r]; [by exists s1, (plug k1 Leaf), m; rewrite <-zrep_plug|].
  destruct (set_color_ok D h0 k1 LEFT c l x r RB_BLACK s1 Hz1) as (s2 & E2 & Hz2).
  exists s2, (plug k1 (Node RB_BLACK l x r)), m. rewrite <-zrep_plug. split; [done|]. split; [done|]. split; [done|].
  rewrite <-Hi. by apply plug_inorder.
Qed.
End erase_colour.

(** ** Taking a node out *)
Section splice.
Context {A : Type} `{Countable A}.
Implicit Types (k : list (rb_frame A)) (t a b o l r : tree A) (s : rb_state A).

Lemma erase_single_ok D h0 d c t x k s : zrep D h0 k (mk d c t x Leaf) s →
  ∃ s', erase_single x (tree_root t) s = Ok ((tree_root t, hole_parent k, c), s') ∧ zrep D h0 k t s'.
Proof.
  intros Hz. pose proof Hz as [Hr Ht Hc Hn Hd Hf]. unfold erase_single.
  rewrite (st_bind_ok _ _ _ _ _ (rb_get_ok _ _ _ (z_focus _ _ _ _ _ _ _ _ _ Hz))), parent_mkn, color_mkn.
  rewrite tree_root_mk in Hr, Hc.
  assert (Hp : inorder (mk d c t x Leaf) ++ ctx_elems k ≡ₚ x :: inorder t ++ ctx_elems k)
    by (rewrite inorder_mk; simpl; by rewrite app_nil_r).
  rewrite Hp in Hn. apply NoDup_cons in Hn as [Hx Hn]. rewrite elem_of_app in Hx.
  pose proof Hn as (Hnt & Htk & Hnk)%NoDup_app.
  destruct (set_parent_ok (Some x) (hole_parent k) t s) as (s1 & E1 & R1 & H1 & C1);
    [intros ???; apply Ht, tree_nodes_mk; tauto|done|].
  assert (Hti : ∀ z, z ∈ opt_list (tree_root t) → z ∈ inorder t)
    by (intros z; rewrite opt_list_elem; apply tree_root_in).
  assert (Hki : ∀ z, z ∈ opt_list (hole_parent k) → z ∈ ctx_elems k)
    by (intros z; rewrite opt_list_elem; apply hole_parent_in).
  destruct (replace_link_ok LEFT k x (tree_root t) s1) as (s2 & E2 & R2 & H2 & C2);
    [by rewrite R1|by apply (ctx_holds_changes _ _ _ _ _ C1); [set_solver|]|done|tauto|].
  rewrite (st_bind_ok _ _ _ _ _ E1), (st_bind_ok _ _ _ _ _ E2). exists s2. split; [done|].
  assert (Hd' : ∀ z, z ∈ inorder t ++ ctx_elems k → z ∈ D) by (intros z ?; apply Hd; rewrite Hp; by right).
  split; [done| |done|done|done|].
  - apply (tree_holds_changes _ _ _ _ _ C2); [set_solver|done].
  - intros z Hz'. rewrite (changes_trans _ _ _ _ _ C1 C2); [by apply Hf|set_solver].
Qed.

(** What is left when a node with at most one child is gone. *)
Lemma spliced k d c t x n : red_black (plug k (mk d c t x Leaf)) n →
  match c with
  | RB_RED => ∃ m, red_black (plug k t) m
  | RB_BLACK => ∃ m, deficient k t m
  end.
Proof.
  intros Hrb. destruct (unplug_red_black _ _ _ Hrb) as (m & Hn & Hb & Hok & Hh). rewrite colour_mk in Hok.
  apply no_red_red_mk in Hn as (Hc & Hn & _). apply height_mk_inv in Hb as (m' & -> & Hb & _). destruct c.
  - destruct (Hc eq_refl) as [Ht _]. exists n. eapply plug_red_black; [done..| |done]. rewrite Ht.
    by eapply ctx_ok_black.
  - exists m'. split; [|done|done|by exists n]. destruct t as [|[] l y r]; [done| |done]. simpl in *. naive_solver.
Qed.

(** The colours do not depend on the addresses. *)
Lemma rename_red_black k c l x y r n : red_black (plug k (Node c l x r)) n → red_black (plug k (Node c l y r)) n.
Proof.
  intros Hrb. destruct (unplug_red_black _ _ _ Hrb) as (m & Hn & Hb & Hok & Hh).
  inversion Hb; subst. eapply plug_red_black; [done|by constructor|by destruct c|done].
Qed.

Lemma plug_app k1 k2 t : plug (k1 ++ k2) t = plug k2 (plug k1 t).
Proof. revert t. by induction k1; simpl. Qed.

(** The leftmost node of a subtree. *)
Lemma leftmost t : t ≠ Leaf → ∃ k c x r, t = plug k (Node c Leaf x r) ∧ ctx_left k = [] ∧
  Forall (λ f, f_side f = LEFT) k.
Proof.
  induction t as [|c l IHl y r _]; [done|]. intros _. destruct l as [|c' l' y' r'].
  { by exists [], c, y, r. }
  destruct IHl as (k & c2 & x & r2 & Hl & Hk & Hf); [done|].
  exists (k ++ [RbFrame LEFT c y r]), c2, x, r2. rewrite plug_app, <-Hl. split; [done|]. split.
  - clear -Hk Hf. induction Hf as [|f k Hf Hk' IH]; [done|]. simpl in *. rewrite Hf in *. by apply IH.
  - apply Forall_app. split; [done|]. by repeat constructor.
Qed.

(** The way from a subtree, whose parent is [top], to a hole in it. *)
Definition seg_parent (top : option A) k : option A :=
  match k with [] => top | f :: _ => Some (f_node f) end.
Fixpoint seg_nodes (top : option A) k (p : option A) : list (A * rb_node A) :=
  match k with
  | [] => []
  | f :: k =>
    (f_node f, mkn (f_side f) (seg_parent top k) (f_colour f) p (tree_root (f_other f)))
      :: tree_nodes (Some (f_node f)) (f_other f) ++ seg_nodes top k (Some (f_node f))
  end.

Lemma seg_tree top k t h : holds (tree_nodes top (plug k t)) h ↔
  holds (tree_nodes (seg_parent top k) t) h ∧ holds (seg_nodes top k (tree_root t)) h.
Proof.
  revert t. induction k as [|f k IH]; intros t; simpl.
  { unfold holds. setoid_rewrite elem_of_nil. naive_solver. }
  rewrite IH. unfold plug1, holds. setoid_rewrite tree_nodes_mk. setoid_rewrite elem_of_cons.
  setoid_rewrite elem_of_app. rewrite tree_root_mk. split.
  - intros [H1 H2]. split; [naive_solver|]. intros x n [[= -> ->]|[?|?]]; [apply H1; by left|naive_solver..].
  - intros [H1 H2]. split; [|naive_solver]. intros x n [[-> ->]|[?|?]]; [apply H2; by left|naive_solver..].
Qed.

Lemma seg_nodes_elem top k p x n : (x, n) ∈ seg_nodes top k p → x ∈ ctx_elems k.
Proof.
  revert p. induction k as [|f k IH]; intros p; simpl; [by intros ?%elem_of_nil|].
  rewrite !elem_of_cons, !elem_of_app. intros [[= -> ->]|[?%tree_nodes_elem|?]]; naive_solver.
Qed.

Lemma seg_link top f k p q h : holds (seg_nodes top (f :: k) p) h →
  f_node f ∉ inorder (f_other f) → f_node f ∉ ctx_elems k →
  holds (seg_nodes top (f :: k) q)
    (<[f_node f := mkn (f_side f) (seg_parent top k) (f_colour f) q (tree_root (f_other f))]> h).
Proof.
  intros Hh Ho Hk x n. simpl. rewrite elem_of_cons. intros [[= -> ->]|Hx]; [by rewrite lookup_insert_eq|].
  rewrite lookup_insert_ne; [apply Hh; by right|].
  intros <-. apply elem_of_app in Hx as [?%tree_nodes_elem|?%seg_nodes_elem]; tauto.
Qed.

Lemma inorder_plug_perm k t : inorder (plug k t) ≡ₚ inorder t ++ ctx_elems k.
Proof. rewrite inorder_plug, ctx_elems_perm. solve_Permutation. Qed.

Lemma tree_root_plug k t t' : tree_root t = tree_root t' ∨ k ≠ [] → tree_root (plug k t) = tree_root (plug k t').
Proof.
  revert t t'. induction k as [|f k IH]; intros t t' Hk; simpl; [tauto|].
  apply IH. left. unfold plug1. by rewrite !tree_root_mk.
Qed.

(** The leftmost node is left out of a subtree. *)
Lemma seg_splice top f k2 cn node rn s : f_side f = LEFT →
  holds (tree_nodes top (plug (f :: k2) (Node cn Leaf node rn))) (rb_heap s) →
  NoDup (inorder (plug (f :: k2) (Node cn Leaf node rn))) →
  ∃ s1 s2, match tree_root rn with Some z => rb_upd z (rb_set_parent (Some (f_node f))) | None => mret tt end s
      = Ok (tt, s1) ∧
    rb_upd (f_node f) (set_child LEFT (tree_root rn)) s1 = Ok (tt, s2) ∧ rb_root s2 = rb_root s ∧
    holds (tree_nodes top (plug (f :: k2) rn)) (rb_heap s2) ∧
    changes (inorder rn ++ [f_node f]) (rb_heap s) (rb_heap s2).
Proof.
  intros Hf [Hht Hhs]%seg_tree Hn. rewrite inorder_plug_perm in Hn. simpl in Hn.
  apply NoDup_cons in Hn as [Hnode Hn]. apply NoDup_app in Hn as (Hnr & Hrk & Hn).
  apply NoDup_cons in Hn as [[Hfo Hfk]%not_elem_of_app Hn]. simpl tree_root in Hhs. simpl seg_parent in Hht.
  destruct (set_parent_ok (Some node) (Some (f_node f)) rn s) as (s1 & E1 & R1 & H1 & C1);
    [intros ???; apply Hht; simpl; by right|done|].
  assert (Hti : ∀ z, z ∈ opt_list (tree_root rn) → z ∈ inorder rn)
    by (intros z; rewrite opt_list_elem; apply tree_root_in).
  assert (Hhs1 : holds (seg_nodes top (f :: k2) (Some node)) (rb_heap s1)).
  { intros z m Hz. rewrite C1; [by apply Hhs|]. apply seg_nodes_elem in Hz. simpl in Hz. set_solver. }
  pose proof (Hhs1 _ _ ltac:(by left)) as Hf1.
  exists s1. eexists. split; [done|]. split; [by apply (rb_upd_node_ok _ _ _ _ Hf1)|].
  rewrite <-Hf, set_child_mkn. split; [done|]. split.
  - apply seg_tree. split; [apply holds_insert; [|done]; intros m ?%tree_nodes_elem; set_solver|].
    by apply (seg_link _ _ _ (Some node)).
  - intros z Hz. cbn [rb_heap]. rewrite lookup_insert_ne by set_solver. apply C1. set_solver.
Qed.

Lemma inorder_plug_root k f t : tree_root (plug (f :: k) t) ≠ None.
Proof.
  revert f t. induction k as [|g k IH]; intros f t; [|apply IH]. simpl. unfold plug1. by rewrite tree_root_mk.
Qed.

Lemma take_out_ok k2 cn node rn old on s :
  let r := plug k2 (Node cn Leaf node rn) in
  holds (tree_nodes (Some old) r) (rb_heap s) → NoDup (inorder r) → old ∉ inorder r →
  Forall (λ f, f_side f = LEFT) k2 → rb_heap s !! old = Some on → rb_right on = tree_root r →
  ∃ s' q, erase_take_out old node (RbNode (seg_parent (Some old) k2) cn (tree_root rn) None) s =
      Ok (seg_parent (Some node) k2, s') ∧
    rb_root s' = rb_root s ∧ holds (tree_nodes (Some node) (plug k2 rn)) (rb_heap s') ∧
    rb_heap s' !! node = Some (RbNode q cn (tree_root (plug k2 rn)) None) ∧
    changes (inorder r) (rb_heap s) (rb_heap s').
Proof.
  intros r Hh Hn Hold Hk Hon Hron. unfold erase_take_out. simpl rb_parent. simpl rb_right.
  destruct k2 as [|f k2].
  { rewrite bool_decide_eq_true_2 by done. exists s, (Some old). split_and!; [done|done| | |done].
    - intros ???. apply Hh. simpl. by right.
    - apply Hh. by left. }
  subst r. set (r' := plug (f :: k2) rn).
  assert (Hr' : tree_root r' = rb_right on) by (rewrite Hron; apply tree_root_plug; by right).
  assert (Hmem : ∀ z, z ∈ inorder (plug (f :: k2) (Node cn Leaf node rn)) ↔ z = node ∨ z ∈ inorder r').
  { intros z. unfold r'. rewrite !inorder_plug_perm. simpl. rewrite elem_of_cons, !elem_of_app. tauto. }
  destruct (seg_splice (Some old) f k2 cn node rn s) as (s1 & s2 & E1 & E2 & R2 & H2 & C2); [by apply (Forall_inv Hk)|done..|].
  rewrite inorder_plug_perm in Hn. simpl in Hn. apply NoDup_cons in Hn as [Hnode Hn].
  assert (Hn' : node ∉ inorder r') by (unfold r'; by rewrite inorder_plug_perm).
  rewrite <-inorder_plug_perm with (k := f :: k2) in Hn. fold r' in Hn.
  rewrite bool_decide_eq_false_2.
  2:{ simpl. intros [= <-]. apply Hold, Hmem. right. unfold r'. rewrite inorder_plug_perm. simpl. set_solver. }
  rewrite (st_bind_ok _ _ _ _ _ E1). erewrite (st_bind_ok (lift _)) by reflexivity. rewrite (st_bind_ok _ _ _ _ _ E2).
  assert (Hk2 : ∀ z, z ∈ inorder rn ++ [f_node f] → z ∈ inorder r').
  { intros z. unfold r'. rewrite inorder_plug_perm. simpl. set_solver. }
  assert (Hon2 : rb_heap s2 !! old = Some on) by (rewrite C2; [done|]; set_solver).
  rewrite (st_bind_ok _ _ _ _ _ (rb_get_ok _ _ _ Hon2)).
  assert (Hnode2 : rb_heap s2 !! node = Some (RbNode (Some (f_node f)) cn (tree_root rn) None)).
  { rewrite C2 by set_solver. apply seg_tree in Hh as [Hht _]. apply Hht. by left. }
  rewrite (st_bind_ok _ _ _ _ _ (rb_upd_node_ok _ _ _ _ Hnode2)), <-Hr'. set (s3 := RbState _ _).
  destruct (set_parent_ok (Some old) (Some node) r' s3) as (s4 & E4 & R4 & H4 & C4);
    [by apply holds_insert; [intros m ?%tree_nodes_elem|]|done|].
  destruct (tree_root r') as [rx|] eqn:Hrx; [|by destruct (inorder_plug_root k2 f rn)].
  erewrite (st_bind_ok (lift _)) by reflexivity. rewrite (st_bind_ok _ _ _ _ _ E4).
  assert (Hrx' : rx ∈ inorder r') by (by apply tree_root_in).
  exists s4, (Some (f_node f)). split; [done|]. split; [by rewrite R4|]. split; [done|]. split.
  - rewrite C4 by set_solver. apply lookup_insert_eq.
  - intros z Hz. rewrite Hmem in Hz. rewrite C4 by set_solver. simpl. rewrite lookup_insert_ne by set_solver.
    apply C2. set_solver.
Qed.

Lemma zrep_plug_app D h0 k1 k2 t s : zrep D h0 (k1 ++ k2) t s ↔ zrep D h0 k2 (plug k1 t) s.
Proof. revert t. induction k1 as [|f k1 IH]; intros t; [done|]. simpl. by rewrite zrep_move, IH. Qed.

Lemma seg_parent_hole f k2 k : seg_parent (Some (f_node f)) k2 = hole_parent (k2 ++ f :: k).
Proof. by destruct k2. Qed.

(** The successor, with the fields of the node it replaces. *)
Lemma erase_relink_ok D h0 k co l old r r' node q cn s :
  l ≠ Leaf → NoDup (node :: inorder l ++ inorder r' ++ ctx_elems k) →
  (∀ z, z ∈ node :: inorder l ++ inorder r' ++ ctx_elems k → z ∈ D) →
  rb_root s = ctx_root k (Some node) → holds (ctx_nodes k (Some node)) (rb_heap s) →
  holds (tree_nodes (Some node) r') (rb_heap s) → holds (tree_nodes (Some old) l) (rb_heap s) →
  rb_heap s !! node = Some (RbNode q cn (tree_root r') None) →
  rb_heap s !! old = Some (RbNode (hole_parent k) co (tree_root r) (tree_root l)) →
  (∀ z, z ∉ D → rb_heap s !! z = h0 !! z) →
  ∃ s', erase_relink old node s = Ok (tt, s') ∧ zrep D h0 k (Node co l node r') s'.
Proof.
  intros Hl Hn HD Hroot Hk Hhr Hhl Hnode Hold Hfr. unfold erase_relink.
  rewrite (st_bind_ok _ _ _ _ _ (rb_get_ok _ _ _ Hold)). cbn [rb_parent rb_color rb_left].
  rewrite (st_bind_ok _ _ _ _ _ (rb_upd_node_ok _ _ _ _ Hnode)).
  erewrite st_bind_ok by (apply rb_upd_node_ok; apply lookup_insert_eq).
  cbn [set_child rb_parent rb_color rb_left rb_right rb_root rb_heap]. rewrite insert_insert_eq.
  set (s1 := RbState _ _). pose proof Hn as Hn'. apply NoDup_cons in Hn as [Hx Hn].
  rewrite !elem_of_app in Hx. apply NoDup_app in Hn as (Hnl & Hlr & Hn).
  assert (Hin : ∀ p t, node ∉ inorder t → holds (tree_nodes p t) (rb_heap s) → holds (tree_nodes p t) (rb_heap s1))
    by (intros p t Ht; apply holds_insert; by intros m ?%tree_nodes_elem).
  destruct (set_parent_ok (Some old) (Some node) l s1) as (s2 & E2 & R2 & H2 & C2); [by apply Hin; [tauto|]|done|].
  assert (Hli : ∀ z, z ∈ opt_list (tree_root l) → z ∈ inorder l)
    by (intros z; rewrite opt_list_elem; apply tree_root_in).
  destruct (tree_root l) as [lx|] eqn:Hlx; [|by destruct l].
  erewrite (st_bind_ok (lift _)) by reflexivity. exists s2. split; [done|].
  split; [by rewrite R2| | | | |].
  - intros z n. simpl. rewrite elem_of_cons, elem_of_app. intros [[= -> ->]|[Hz|Hz]].
    + rewrite C2 by set_solver. rewrite Hlx. apply lookup_insert_eq.
    + by apply H2.
    + revert z n Hz. apply (tree_holds_changes _ _ _ _ _ C2); [set_solver|]. by apply Hin; [tauto|].
  - apply (ctx_holds_changes _ _ _ _ _ C2); [set_solver|]. apply holds_insert; [|done].
    intros m ?%ctx_nodes_elem. tauto.
  - simpl. rewrite <-app_assoc. simpl. by rewrite <-Permutation_middle.
  - intros z Hz. apply HD. simpl in Hz. set_solver.
  - intros z Hz. rewrite C2 by set_solver. simpl. rewrite lookup_insert_ne by set_solver. by apply Hfr.
Qed.

Lemma successor_ok D h0 k k2 cn node rn rx s :
  zrep D h0 k (plug k2 (Node cn Leaf node rn)) s → ctx_left k2 = [] →
  tree_root (plug k2 (Node cn Leaf node rn)) = Some rx → rb_extreme LEFT (size (rb_heap s)) rx s = Ok (node, s).
Proof.
  intros Hz Hl Hrx. destruct (extreme_ok _ _ LEFT (size (rb_heap s)) _ _ _ _ Hz Hrx) as (y & Ey & Hy);
    [pose proof (zrep_size _ _ _ _ _ Hz); lia|].
  rewrite inorder_plug, Hl in Hy. injection Hy as <-. done.
Qed.

Lemma erase_double_ok D h0 k co l old k2 cn node rn s :
  zrep D h0 k (Node co l old (plug k2 (Node cn Leaf node rn))) s → l ≠ Leaf →
  ctx_left k2 = [] → Forall (λ f, f_side f = LEFT) k2 →
  ∃ s', erase_double old s = Ok ((tree_root rn, hole_parent (k2 ++ RbFrame RIGHT co node l :: k), cn), s') ∧
    zrep D h0 (k2 ++ RbFrame RIGHT co node l :: k) rn s'.
Proof.
  intros Hz Hl Hleft Hk2. set (r := plug k2 (Node cn Leaf node rn)) in *. pose proof Hz as [Hr Ht Hc Hn Hd Hf].
  pose proof (z_focus _ _ _ LEFT _ _ _ _ _ Hz) as Hoc. unfold erase_double.
  rewrite (st_bind_ok _ _ _ _ _ (rb_get_ok _ _ _ Hoc)). cbn [mkn rb_right rb_parent] in *.
  destruct (tree_root r) as [rx|] eqn:Hrx; [|by destruct k2; [|destruct (inorder_plug_root k2 r0 (Node cn Leaf node rn))]].
  erewrite (st_bind_ok (lift _)) by reflexivity. erewrite st_bind_ok by reflexivity.
  assert (Hzr : zrep D h0 (RbFrame RIGHT co old l :: k) r s) by (by rewrite zrep_move).
  rewrite (st_bind_ok _ _ _ _ _ (successor_ok _ _ _ _ _ _ _ _ _ Hzr Hleft Hrx)).
  assert (Hp : inorder (Node co l old r) ++ ctx_elems k ≡ₚ old :: inorder l ++ inorder r ++ ctx_elems k)
    by (simpl; rewrite <-app_assoc; simpl; by rewrite <-Permutation_middle).
  assert (HD : ∀ z, z ∈ old :: inorder l ++ inorder r ++ ctx_elems k → z ∈ D) by (intros z; rewrite <-Hp; apply Hd).
  rewrite Hp in Hn. apply NoDup_cons in Hn as [Hold Hn]. rewrite !elem_of_app in Hold.
  pose proof Hn as (Hnl & Hlr & Hnr)%NoDup_app. pose proof Hnr as (Hnr' & Hrk & Hnk)%NoDup_app.
  destruct (replace_link_ok LEFT k old (Some node) s) as (s1 & E1 & R1 & H1 & C1); [done..|tauto|].
  rewrite (st_bind_ok _ _ _ _ _ E1).
  assert (Hki : ∀ z, z ∈ opt_list (hole_parent k) → z ∈ ctx_elems k)
    by (intros z; rewrite opt_list_elem; apply hole_parent_in).
  assert (Hr1 : holds (tree_nodes (Some old) r) (rb_heap s1)).
  { apply (tree_holds_changes _ _ _ _ _ C1); [set_solver|]. intros ???. apply Ht. simpl. set_solver. }
  pose proof (proj1 (proj1 (seg_tree _ _ _ _) Hr1) node _ ltac:(by left)) as Hnode.
  rewrite (st_bind_ok _ _ _ _ _ (rb_get_ok _ _ _ Hnode)). cbn [tree_root].
  assert (Hoc1 : rb_heap s1 !! old = Some (RbNode (hole_parent k) co (Some rx) (tree_root l)))
    by (rewrite C1; [done|]; set_solver).
  destruct (take_out_ok k2 cn node rn old _ s1 Hr1 Hnr' ltac:(tauto) Hk2 Hoc1) as (s2 & q & E2 & R2 & H2 & Hn2 & C2); [done|].
  rewrite (st_bind_ok _ _ _ _ _ E2).
  assert (Hperm : inorder r ≡ₚ node :: inorder (plug k2 rn)) by (unfold r; by rewrite !inorder_plug_perm).
  fold r in C2. assert (Hmem : ∀ z, z ∈ inorder r ↔ z = node ∨ z ∈ inorder (plug k2 rn))
    by (intros z; by rewrite Hperm, elem_of_cons).
  destruct (erase_relink_ok D h0 k co l old r (plug k2 rn) node q cn s2) as (s3 & E3 & Hz3); [done|..|done| |done| | |].
  - rewrite Hperm in Hn. simpl in Hn. by rewrite <-Permutation_middle in Hn.
  - intros z Hz'. apply HD. set_solver.
  - by rewrite R2.
  - apply (ctx_holds_changes _ _ _ _ _ C2); [set_solver|done].
  - apply (tree_holds_changes _ _ _ _ _ C2); [set_solver|]. apply (tree_holds_changes _ _ _ _ _ C1); [set_solver|].
    intros ???. apply Ht. simpl. set_solver.
  - rewrite C2 by tauto. by rewrite Hrx.
  - intros z Hz'. rewrite C2 by set_solver. rewrite C1 by set_solver. by apply Hf.
  - rewrite (st_bind_ok _ _ _ _ _ E3). exists s3. split; [by rewrite <-seg_parent_hole|].
    by rewrite zrep_plug_app, zrep_move.
Qed.

Lemma after_splice D h0 k c t s : zrep D h0 k t s →
  match c with RB_RED => ∃ m, red_black (plug k t) m | RB_BLACK => ∃ m, deficient k t m end →
  ∃ s' t' m, when (bool_decide (c = RB_BLACK)) (__rb_erase_color (tree_root t) (hole_parent k)) s = Ok (tt, s') ∧
    zrep D h0 [] t' s' ∧ red_black t' m ∧ inorder t' = inorder (plug k t).
Proof.
  intros Hz. destruct c; intros [m Hm]; [|by eapply erase_color_ok].
  exists s, (plug k t), m. by rewrite <-zrep_plug.
Qed.

Lemma erase_ok D h0 t s n (l1 : list A) x (l2 : list A) : zrep D h0 [] t s → red_black t n → inorder t = l1 ++ x :: l2 →
  ∃ s' t' m, rb_erase x s = Ok (tt, s') ∧ zrep D h0 [] t' s' ∧ red_black t' m ∧ inorder t' = l1 ++ l2.
Proof.
  intros Hz Hrb Hi. destruct (rep_split _ _ _ _ _ (zrep_rep _ _ _ _ Hz) Hi) as (k & c & l & r & -> & -> & ->).
  clear Hi. rewrite <-app_assoc. apply zrep_plug in Hz. unfold rb_erase.
  rewrite (st_bind_ok _ _ _ _ _ (rb_get_ok _ _ _ (z_focus _ _ _ LEFT _ _ _ _ _ Hz))). cbn [mkn rb_left rb_right].
  destruct l as [|lc ll lx lr].
  { destruct (erase_single_ok D h0 RIGHT c r x k s Hz) as (s1 & E1 & Hz1). simpl tree_root.
    rewrite (st_bind_ok _ _ _ _ _ E1). cbv beta iota.
    destruct (after_splice _ _ _ _ _ _ Hz1 (spliced _ RIGHT _ _ _ _ Hrb)) as (s2 & t2 & m & E2 & Hz2 & Hm & Hi).
    exists s2, t2, m. by rewrite Hi, inorder_plug. }
  set (l := Node lc ll lx lr) in *. change (tree_root l) with (Some lx).
  destruct r as [|rc rl rx rr].
  { destruct (erase_single_ok D h0 LEFT c l x k s Hz) as (s1 & E1 & Hz1). simpl tree_root.
    rewrite (st_bind_ok _ _ _ _ _ E1). cbv beta iota.
    destruct (after_splice _ _ _ _ _ _ Hz1 (spliced _ LEFT _ _ _ _ Hrb)) as (s2 & t2 & m & E2 & Hz2 & Hm & Hi).
    exists s2, t2, m. by rewrite Hi, inorder_plug. }
  destruct (leftmost (Node rc rl rx rr) ltac:(done)) as (k2 & cn & node & rn & Hr & Hk & Hf). simpl tree_root. rewrite Hr in *.
  destruct (erase_double_ok _ _ _ _ _ _ _ _ _ _ _ Hz ltac:(done) Hk Hf) as (s1 & E1 & Hz1).
  rewrite (st_bind_ok _ _ _ _ _ E1). cbv beta iota.
  apply (rename_red_black _ _ _ _ node) in Hrb.
  assert (Hrb' : red_black (plug (k2 ++ RbFrame RIGHT c node l :: k) (mk RIGHT cn rn node Leaf)) n)
    by (by rewrite plug_app).
  destruct (after_splice _ _ _ _ _ _ Hz1 (spliced _ _ _ _ _ _ Hrb')) as (s2 & t2 & m & E2 & Hz2 & Hm & Hi).
  exists s2, t2, m. split; [done|]. split; [done|]. split; [done|].
  rewrite Hi, plug_app. cbn [plug]. rewrite !inorder_plug. simpl. rewrite !inorder_plug, Hk. simpl.
  rewrite <-!app_assoc. simpl. by rewrite <-!app_assoc.
Qed.

Lemma replace_node_ok D h0 k c l v new r s : zrep D h0 k (Node c l v r) s →
  new ∈ D → new ∉ inorder (Node c l v r) ++ ctx_elems k →
  ∃ s', rb_replace_node v new s = Ok (tt, s') ∧ zrep D h0 k (Node c l new r) s'.
Proof.
  intros Hz HnD Hnew. pose proof Hz as [Hr Ht Hc Hn Hd Hf]. unfold rb_replace_node.
  pose proof (z_focus _ _ _ LEFT _ _ _ _ _ Hz) as Hv. cbn [mkn] in Hv.
  rewrite (st_bind_ok _ _ _ _ _ (rb_get_ok _ _ _ Hv)). cbn [rb_parent rb_left rb_right].
  assert (Hp : ∀ x, inorder (Node c l x r) ++ ctx_elems k ≡ₚ x :: inorder l ++ inorder r ++ ctx_elems k)
    by (intros x; simpl; rewrite <-app_assoc; simpl; by rewrite <-Permutation_middle).
  assert (HD : ∀ z, z ∈ v :: inorder l ++ inorder r ++ ctx_elems k → z ∈ D) by (intros z; rewrite <-Hp; apply Hd).
  rewrite Hp in Hn, Hnew. pose proof Hn as [Hvn Hn']%NoDup_cons. pose proof Hn' as (Hnl & Hlr & Hnr)%NoDup_app.
  pose proof Hnr as (Hnr' & Hrk & Hnk)%NoDup_app.
  destruct (replace_link_ok LEFT k v (Some new) s) as (s1 & E1 & R1 & H1 & C1); [done..|set_solver|].
  assert (Hki : ∀ z, z ∈ opt_list (hole_parent k) → z ∈ ctx_elems k)
    by (intros z; rewrite opt_list_elem; apply hole_parent_in).
  assert (Hti : ∀ (t : tree A) z, z ∈ opt_list (tree_root t) → z ∈ inorder t)
    by (intros t z; rewrite opt_list_elem; apply tree_root_in).
  destruct (set_parent_ok (Some v) (Some new) l s1) as (s2 & E2 & R2 & H2 & C2); [|done|].
  { apply (tree_holds_changes _ _ _ _ _ C1); [set_solver|]. intros ???. apply Ht. simpl. set_solver. }
  destruct (set_parent_ok (Some v) (Some new) r s2) as (s3 & E3 & R3 & H3 & C3); [|done|].
  { apply (tree_holds_changes _ _ _ _ _ C2); [set_solver|].
    apply (tree_holds_changes _ _ _ _ _ C1); [set_solver|]. intros ???. apply Ht. simpl. set_solver. }
  rewrite (st_bind_ok _ _ _ _ _ E1), (st_bind_ok _ _ _ _ _ E2), (st_bind_ok _ _ _ _ _ E3).
  assert (Hv3 : rb_heap s3 !! v = Some (RbNode (hole_parent k) c (tree_root r) (tree_root l)))
    by (rewrite C3, C2, C1 by set_solver; done).
  rewrite (st_bind_ok _ _ _ _ _ (rb_get_ok _ _ _ Hv3)). eexists. split; [reflexivity|].
  assert (Hin : ∀ p t, new ∉ inorder t → holds (tree_nodes p t) (rb_heap s3) →
    holds (tree_nodes p t) (<[new := RbNode (hole_parent k) c (tree_root r) (tree_root l)]> (rb_heap s3)))
    by (intros p t Ht'; apply holds_insert; by intros m ?%tree_nodes_elem).
  split; cbn [rb_heap rb_root]; [by rewrite R3, R2| | | | |].
  - intros z m. simpl. rewrite elem_of_cons, elem_of_app. intros [[= -> ->]|[Hz'|Hz']]; [apply lookup_insert_eq| |].
    + revert z m Hz'. apply Hin; [set_solver|]. apply (tree_holds_changes _ _ _ _ _ C3); [set_solver|done].
    + revert z m Hz'. by apply Hin; [set_solver|].
  - apply holds_insert; [intros m ?%ctx_nodes_elem; set_solver|]. apply (ctx_holds_changes _ _ _ _ _ C3); [set_solver|].
    apply (ctx_holds_changes _ _ _ _ _ C2); [set_solver|done].
  - rewrite Hp. apply NoDup_cons. set_solver.
  - intros z. rewrite Hp. set_solver.
  - intros z Hz'. rewrite lookup_insert_ne by set_solver. rewrite C3, C2, C1 by set_solver. by apply Hf.
Qed.

Lemma zrep_other D h0 k t s x n : zrep D h0 k t s → x ∈ D → x ∉ inorder t ++ ctx_elems k →
  zrep D h0 k t (RbState (rb_root s) (<[x := n]> (rb_heap s))).
Proof.
  intros [Hr Ht Hc Hn Hd Hf] HxD Hx. rewrite not_elem_of_app in Hx. split; simpl; [done| | |done|done|].
  - apply holds_insert; [|done]. intros m ?%tree_nodes_elem. tauto.
  - apply holds_insert; [|done]. intros m ?%ctx_nodes_elem. tauto.
  - intros y Hy. rewrite lookup_insert_ne by (by intros ->). by apply Hf.
Qed.
End splice.
