(* ===== verification/RbFoot.v ===== *)
(** * What the operations on red-black trees leave in the heap

    Removal takes no node from the heap: the node taken out of the tree is still
    there, for [RB_CLEAR_NODE] to mark it. *)

From S2P Require Import Prelude RbTree RbErase.

(** No operation takes a node from the heap. *)
Section grows.
Context {A : Type} `{Countable A}.

Definition grows {B} (m : ST (rb_state A) B) : Prop :=
  ∀ s b s', m s = Ok (b, s') → dom (rb_heap s) ⊆ dom (rb_heap s').

Lemma grows_bind {B C} (m : ST (rb_state A) B) (f : B → ST (rb_state A) C) :
  grows m → (∀ b, grows (f b)) → grows (m ≫= f).
Proof. intros Hm Hf s c s' (b & s1 & E1 & E2)%st_bind_inv. etrans; [by eapply Hm|by eapply Hf]. Qed.
Lemma grows_ret {B} (b : B) : grows (mret b).
Proof. by intros s b' s' [= <- <-]. Qed.
Lemma grows_lift {B} (b : res B) : grows (lift b).
Proof. intros s b' s'. unfold lift. destruct b; [|done]. by intros [= <- <-]. Qed.
Lemma grows_raise {B} e : grows (raise e : ST (rb_state A) B).
Proof. by intros s b' s'. Qed.
Lemma grows_get : grows get.
Proof. by intros s b' s' [= <- <-]. Qed.
Lemma grows_gets {B} (f : rb_state A → B) : grows (gets f).
Proof. by intros s b' s' [= <- <-]. Qed.
Lemma grows_set_root p : grows (set_root p).
Proof. by intros s b' s' [= <- <-]. Qed.
Lemma grows_rb_get x : grows (rb_get x).
Proof. apply grows_bind; [apply grows_get|intros; apply grows_lift]. Qed.
Lemma grows_rb_upd x f : grows (rb_upd x f).
Proof.
  apply grows_bind; [apply grows_rb_get|]. intros n s b' s' [= <- <-]. simpl. rewrite dom_insert. set_solver.
Qed.
End grows.

Create HintDb grows.
#[export] Hint Resolve grows_ret grows_lift grows_raise grows_get grows_gets grows_set_root
  grows_rb_get grows_rb_upd : grows.
Ltac grows := intros; first
  [ solve [eauto 2 with grows nocore]
  | apply grows_bind; grows
  | case_match; grows ].

Section footprint.
Context {A : Type} `{Countable A}.

Lemma grows_replace_link d p (x : A) q : grows (rb_replace_link d p x q).
Proof. unfold rb_replace_link. grows. Qed.
Hint Resolve grows_replace_link : grows.
Lemma grows_rotate d (x : A) : grows (rb_rotate d x).
Proof. unfold rb_rotate. grows. Qed.
Hint Resolve grows_rotate : grows.
Lemma grows_black_or_null (p : option A) : grows (black_or_null p).
Proof. unfold black_or_null. grows. Qed.
Hint Resolve grows_black_or_null : grows.
Lemma grows_erase_color (p q : option A) : grows (__rb_erase_color p q).
Proof.
  assert (∀ fuel p q, grows (erase_color_loop fuel p q (A := A))).
  { induction fuel; intros; simpl; unfold erase_sibling, both_black, erase_rotate, erase_far; grows. }
  unfold __rb_erase_color. grows.
Qed.
Hint Resolve grows_erase_color : grows.
Lemma grows_erase (x : A) : grows (rb_erase x).
Proof.
  assert (∀ fuel d (y : A), grows (rb_extreme d fuel y)) by (induction fuel; intros; simpl; grows).
  unfold rb_erase, erase_single, erase_double, erase_take_out, erase_relink, when. grows.
Qed.
End footprint.
