(* ===== verification/RbTheorems.v ===== *)
(** * Red-black trees: balance, order and depth

    Executable tests for the representation of a tree in a heap, the bound on the
    depth of a red-black tree, and what the operations of [lib/rbtree.c] do. *)

From S2P Require Import Prelude RbTree RbInsert RbWalk RbErase RbFoot.

(** ** Tests *)
#[global] Instance rb_node_eq_dec {A} `{EqDecision A} : EqDecision (rb_node A).
Proof. solve_decision. Defined.

Section tests.
Context {A : Type} `{Countable A}.
Implicit Types (t : tree A) (s : rb_state A).

Definition rb_rep_test t s : bool :=
  bool_decide (rb_root s = tree_root t) &&
  forallb (λ p, bool_decide (rb_heap s !! p.1 = Some p.2)) (tree_nodes None t) &&
  bool_decide (NoDup (inorder t)).

Lemma rb_rep_intro t s : rb_rep_test t s = true → rb_rep t s.
Proof.
  unfold rb_rep_test. rewrite !andb_true_iff, !bool_decide_eq_true, forallb_forall. intros [[Hr Ht] Hn].
  split; simpl; [done| |by intros ?? ?%elem_of_nil|by rewrite app_nil_r|intros x; by rewrite app_nil_r|done].
  intros x n Hx. specialize (Ht (x, n) (proj1 (list_elem_of_In _ _) Hx)). by apply bool_decide_eq_true in Ht.
Qed.

Fixpoint height_test t : option nat :=
  match t with
  | Leaf => Some 0
  | Node c l _ r =>
    match height_test l, height_test r with
    | Some m, Some n => if bool_decide (m = n) then Some (up c m) else None
    | _, _ => None
    end
  end.
Fixpoint reds_test t : bool :=
  match t with
  | Leaf => true
  | Node c l _ r =>
    (bool_decide (c = RB_BLACK) || (bool_decide (colour_of l = RB_BLACK) && bool_decide (colour_of r = RB_BLACK))) &&
    reds_test l && reds_test r
  end.
Definition red_black_test t : bool :=
  reds_test t && bool_decide (colour_of t = RB_BLACK) && bool_decide (is_Some (height_test t)).

Lemma height_test_sound t n : height_test t = Some n → black_height t n.
Proof.
  revert n. induction t as [|c l IHl x r IHr]; simpl; intros n; [intros [= <-]; constructor|].
  destruct (height_test l) as [m|]; [|done]. destruct (height_test r) as [m'|]; [|done].
  case_bool_decide; [subst|done]. intros [= <-]. constructor; auto.
Qed.
Lemma reds_test_sound t : reds_test t = true → no_red_red t.
Proof.
  induction t as [|c l IHl x r IHr]; simpl; [done|]. rewrite !andb_true_iff, orb_true_iff, andb_true_iff, !bool_decide_eq_true.
  intros [[Hc Hl] Hr]. split_and!; auto. intros ->. naive_solver.
Qed.
Lemma red_black_intro t : red_black_test t = true → ∃ n, red_black t n.
Proof.
  unfold red_black_test. rewrite !andb_true_iff, !bool_decide_eq_true. intros [[Hr Hc] [n Hn]].
  exists n. split; [by apply reds_test_sound|done|by apply height_test_sound].
Qed.

(** ** Depth *)
Fixpoint depth t : nat := match t with Leaf => 0 | Node _ l _ r => S (depth l `max` depth r) end.

Lemma depth_height t n : no_red_red t → black_height t n →
  (depth t ≤ 2 * n + match colour_of t with RB_RED => 1 | RB_BLACK => 0 end)%nat.
Proof.
  revert n. induction t as [|c l IHl x r IHr]; simpl; intros n Hr Hb; [lia|].
  destruct Hr as (Hc & Hl & Hr). inversion Hb; subst. specialize (IHl _ Hl ltac:(done)). specialize (IHr _ Hr ltac:(done)).
  destruct c; simpl.
  - destruct (Hc eq_refl) as [El Er]. rewrite El in IHl. rewrite Er in IHr. lia.
  - destruct (colour_of l), (colour_of r); lia.
Qed.
Lemma height_nodes t n : black_height t n → (2 ^ n ≤ S (length (inorder t)))%nat.
Proof.
  induction 1 as [|c l x r n Hl IHl Hr IHr]; simpl; [lia|]. rewrite length_app. simpl. destruct c; simpl; lia.
Qed.
Lemma red_black_depth t n : red_black t n → (depth t ≤ 2 * Nat.log2 (S (length (inorder t))))%nat.
Proof.
  intros [Hr Hc Hb]. pose proof (depth_height t n Hr Hb) as Hd. rewrite Hc in Hd.
  assert (n ≤ Nat.log2 (S (length (inorder t))))%nat; [|lia].
  apply Nat.log2_le_pow2; [lia|]. by apply height_nodes.
Qed.
Lemma depth_length t : (depth t ≤ length (inorder t))%nat.
Proof. induction t as [|c l IHl x r IHr]; simpl; [lia|]. rewrite length_app. simpl. lia. Qed.
End tests.

(** ** What the operations do *)

(** C9: Linking a new node into the place found for it and calling
    [rb_insert_color] never faults and returns; the result is again a red-black
    tree (no red node has a red child, every way down meets the same number of
    black nodes, the root is black), its order is the old one with the node in
    that place, and no other node of the heap changed. *)
Theorem rb_insert_balanced {A} `{Countable A} (k : list (rb_frame A)) x s n :
  rb_rep (plug k Leaf) s → red_black (plug k Leaf) n → x ∉ inorder (plug k Leaf) →
  ∃ s' t' n', (rb_link_node x (hole_parent k) (link_of k);; rb_insert_color x) s = Ok (tt, s') ∧
    rb_rep t' s' ∧ red_black t' n' ∧ inorder t' = ctx_left k ++ x :: ctx_right k ∧
    inorder (plug k Leaf) = ctx_left k ++ ctx_right k ∧
    (depth t' ≤ 2 * Nat.log2 (S (length (inorder t'))))%nat ∧
    ∀ z, z ≠ x → z ∉ inorder (plug k Leaf) → rb_heap s' !! z = rb_heap s !! z.
Proof.
  intros Hr Hb Hx. destruct (rb_insert_ok k x s n Hr Hb Hx) as (s' & t' & n' & E & Hr' & Hb' & Hi & Hf).
  exists s', t', n'. split_and!; try done; [by rewrite inorder_plug|by eapply red_black_depth].
Qed.

(** The heap after the insertion of [l] in ascending order. *)
Definition insert_right (x : nat) : ST (rb_state nat) unit :=
  p ← rb_last;
  rb_link_node x p match p with Some y => LinkChild y RIGHT | None => LinkRoot end;;
  rb_insert_color x.
Fixpoint insert_all (l : list nat) : ST (rb_state nat) unit :=
  match l with [] => mret tt | x :: l => insert_right x;; insert_all l end.
Definition sample_tree (l : list nat) : rb_state nat :=
  match insert_all l (RbState None ∅) with Ok (_, s) => s | Err _ => RbState None ∅ end.

(** The place to the right of everything in the tree that holds 1, ..., 6. *)
Definition sample_place : list (rb_frame nat) :=
  [RbFrame RIGHT RB_RED 6 Leaf; RbFrame RIGHT RB_BLACK 5 Leaf; RbFrame RIGHT RB_RED 4 (Node RB_BLACK Leaf 3 Leaf);
   RbFrame RIGHT RB_BLACK 2 (Node RB_BLACK Leaf 1 Leaf)].

Lemma rb_insert_balanced_witness : ∃ s' t' n',
  (rb_link_node 7 (Some 6) (LinkChild 6 RIGHT);; rb_insert_color 7) (sample_tree [1; 2; 3; 4; 5; 6]) = Ok (tt, s') ∧
  rb_rep t' s' ∧ red_black t' n' ∧ inorder t' = [1; 2; 3; 4; 5; 6; 7].
Proof.
  destruct (red_black_intro (plug sample_place Leaf)) as [n Hn]; [vm_compute; reflexivity|].
  destruct (rb_insert_balanced sample_place 7 (sample_tree [1; 2; 3; 4; 5; 6]) n) as (s' & t' & n' & E & Hr & Hb & Hi & _).
  - apply rb_rep_intro. vm_compute. reflexivity.
  - exact Hn.
  - apply (bool_decide_unpack _). vm_compute. exact I.
  - exists s', t', n'. split; [exact E|]. split; [exact Hr|]. split; [exact Hb|]. exact Hi.
Defined.

(** C3: [rb_erase] of a node of the tree never faults and returns; the result is
    again a red-black tree, of the other nodes in their old order, and no node
    outside the tree changed. *)
Theorem rb_erase_balanced {A} `{Countable A} (t : tree A) s n l1 x l2 :
  rb_rep t s → red_black t n → inorder t = l1 ++ x :: l2 →
  ∃ s' t' n', rb_erase x s = Ok (tt, s') ∧ rb_rep t' s' ∧ red_black t' n' ∧ inorder t' = l1 ++ l2 ∧
    (∀ z, z ∉ inorder t → rb_heap s' !! z = rb_heap s !! z) ∧ dom (rb_heap s) ⊆ dom (rb_heap s').
Proof.
  intros Hr Hb Hi. destruct (erase_ok _ _ t s n l1 x l2 Hr Hb Hi) as (s' & t' & n' & E & Hz & Hb' & Hi').
  exists s', t', n'. split_and!; try done; [by eapply zrep_rep|apply (z_frame _ _ _ _ _ Hz)|by apply (grows_erase x _ _ _ E)].
Qed.

Lemma rb_erase_balanced_witness : ∃ s' t' n',
  rb_erase 2 (sample_tree [1; 2; 3; 4; 5; 6]) = Ok (tt, s') ∧ rb_rep t' s' ∧ red_black t' n' ∧ inorder t' = [1; 3; 4; 5; 6].
Proof.
  destruct (red_black_intro (plug sample_place Leaf)) as [n Hn]; [vm_compute; reflexivity|].
  destruct (rb_erase_balanced (plug sample_place Leaf) (sample_tree [1; 2; 3; 4; 5; 6]) n [1] 2 [3; 4; 5; 6])
    as (s' & t' & n' & E & Hr & Hb & Hi & _).
  - apply rb_rep_intro. vm_compute. reflexivity.
  - exact Hn.
  - reflexivity.
  - exists s', t', n'. split; [exact E|]. split; [exact Hr|]. split; [exact Hb|]. exact Hi.
Defined.

(** The walks follow the order of the tree: [rb_first] and [rb_last] give its
    ends, [rb_next] and [rb_prev] of a node its neighbours, [NULL] at the ends;
    none of them faults or changes anything. *)
Theorem rb_walks_in_order {A} `{Countable A} (t : tree A) s : rb_rep t s →
  rb_first s = Ok (head (inorder t), s) ∧ rb_last s = Ok (last (inorder t), s) ∧
  ∀ l1 x l2, inorder t = l1 ++ x :: l2 →
    rb_next x s = Ok (head l2, s) ∧ rb_prev x s = Ok (last l1, s).
Proof.
  intros Hr. split_and!; [by apply (end_ok _ _ LEFT _ _ Hr)|by apply (end_ok _ _ RIGHT _ _ Hr)|].
  intros l1 x l2 Hi. split; [by eapply rb_next_ok|by eapply rb_prev_ok].
Qed.

Lemma rb_walks_in_order_witness :
  rb_next 3 (sample_tree [1; 2; 3; 4; 5; 6]) = Ok (Some 4, sample_tree [1; 2; 3; 4; 5; 6]).
Proof.
  destruct (rb_walks_in_order (plug sample_place Leaf) (sample_tree [1; 2; 3; 4; 5; 6])) as (_ & _ & Hw).
  - apply rb_rep_intro. vm_compute. reflexivity.
  - destruct (Hw [1; 2] 3 [4; 5; 6] eq_refl) as [E _]. exact E.
Defined.

(** [rb_replace_node] puts another node in the place of one, without a look at
    the order. *)
Theorem rb_replace_in_place {A} `{Countable A} (t : tree A) s n l1 x l2 new :
  rb_rep t s → red_black t n → inorder t = l1 ++ x :: l2 → new ∉ inorder t →
  ∃ s' t', rb_replace_node x new s = Ok (tt, s') ∧ rb_rep t' s' ∧ red_black t' n ∧ inorder t' = l1 ++ new :: l2.
Proof.
  intros Hr Hb Hi Hnew. destruct (rep_split _ _ _ _ _ Hr Hi) as (k & c & l & r & -> & -> & ->).
  assert (Hz : zrep (new :: inorder (plug k (Node c l x r))) (rb_heap s) k (Node c l x r) s).
  { apply zrep_plug, rep_zrep; [done|]. intros z ?. by right. }
  destruct (replace_node_ok _ _ k c l x new r s Hz) as (s' & E & Hz').
  { by left. }
  { by rewrite <-inorder_plug_perm. }
  exists s', (plug k (Node c l new r)). split; [done|]. split; [apply (zrep_rep _ _ _ _ (proj1 (zrep_plug _ _ _ _ _) Hz'))|].
  split; [by eapply rename_red_black|]. rewrite inorder_plug. simpl. by rewrite <-!app_assoc.
Qed.
