(* ===== verification/ElvRb.v ===== *)
(** * Requests in a tree sorted by sector ([elv_rb_add] and its kin of [block/elevator.c])

    The nodes of the tree are requests ([rb_entry_rq]); the order is by
    [blk_rq_pos], so that a tree holds at most one request of a start sector. *)

From Stdlib Require Import Sorting.Sorted.
From S2P Require Import Prelude KList Request Samples RbTree RbInsert RbWalk RbErase RbFoot RbTheorems.

Local Open Scope Z_scope.

(** ** The C functions *)
Abbreviation rq_tree := (rb_state rqid).
Implicit Types (tbl : gmap rqid request) (s : rq_tree).

(** The loop of [elv_rb_add]: an alias, or the link to fill and its parent. *)
Fixpoint rb_add_search tbl (pos : Z) (fuel : nat) (p : rb_link rqid) (parent : option rqid)
    : ST rq_tree (rqid + option rqid * rb_link rqid) :=
  match fuel with
  | O => raise HANG
  | S fuel =>
    c ← rb_link_get p;
    match c with
    | None => mret (inr (parent, p))
    | Some x =>
      __rq ← lift (deref (tbl !! x));
      if pos <? blk_rq_pos __rq then rb_add_search tbl pos fuel (LinkChild x LEFT) (Some x)
      else if pos >? blk_rq_pos __rq then rb_add_search tbl pos fuel (LinkChild x RIGHT) (Some x)
      else mret (inl x)
    end
  end.

Definition elv_rb_add tbl (r : rqid) : ST rq_tree (option rqid) :=
  rq ← lift (deref (tbl !! r));
  s ← get;
  res ← rb_add_search tbl (blk_rq_pos rq) (S (size (rb_heap s))) LinkRoot None;
  match res with
  | inl alias => mret (Some alias)
  | inr (parent, p) =>
    rb_link_node r parent p;;
    rb_insert_color r;;
    mret None
  end.

Definition elv_rb_del (r : rqid) : ST rq_tree unit :=
  e ← RB_EMPTY_NODE r;
  bug_on e;;
  rb_erase r;;
  RB_CLEAR_NODE r.

Fixpoint rb_find_loop tbl (sector : Z) (fuel : nat) (n : option rqid) : ST rq_tree (option rqid) :=
  match fuel, n with
  | O, _ => raise HANG
  | S fuel, None => mret None
  | S fuel, Some x =>
    rq ← lift (deref (tbl !! x));
    nx ← rb_get x;
    if sector <? blk_rq_pos rq then rb_find_loop tbl sector fuel (rb_left nx)
    else if sector >? blk_rq_pos rq then rb_find_loop tbl sector fuel (rb_right nx)
    else mret (Some x)
  end.

Definition elv_rb_find tbl (sector : Z) : ST rq_tree (option rqid) :=
  s ← get;
  rb_find_loop tbl sector (S (size (rb_heap s))) (rb_root s).

Definition elv_rb_former_request (r : rqid) : ST rq_tree (option rqid) := rb_prev r.
Definition elv_rb_latter_request (r : rqid) : ST rq_tree (option rqid) := rb_next r.

(** ** Sorted trees *)
Definition sector_of tbl (r : rqid) : Z :=
  match tbl !! r with Some rq => blk_rq_pos rq | None => 0 end.

Definition by_sector tbl : list rqid → Prop := StronglySorted (λ x y, sector_of tbl x < sector_of tbl y).
Definition live tbl (l : list rqid) : Prop := ∀ x, x ∈ l → is_Some (tbl !! x).

Fixpoint by_sector_test tbl (l : list rqid) : bool :=
  match l with
  | [] => true
  | x :: l => forallb (λ y, sector_of tbl x <? sector_of tbl y) l && by_sector_test tbl l
  end.
Lemma by_sector_intro tbl l : by_sector_test tbl l = true → by_sector tbl l.
Proof.
  unfold by_sector. induction l as [|x l IH]; simpl; [constructor|].
  rewrite andb_true_iff, forallb_forall. intros [Hx Hl]. constructor; [by apply IH|].
  apply Forall_forall. intros y Hy%list_elem_of_In%Hx. by apply Z.ltb_lt.
Qed.

Lemma by_sector_app tbl l1 l2 : by_sector tbl (l1 ++ l2) ↔
  by_sector tbl l1 ∧ by_sector tbl l2 ∧ ∀ x y, x ∈ l1 → y ∈ l2 → sector_of tbl x < sector_of tbl y.
Proof.
  unfold by_sector. induction l1 as [|z l1 IH]; simpl.
  { split; [|tauto]. intros. split_and!; [constructor|done|]. by intros ?? ?%elem_of_nil. }
  split.
  - intros Hs. apply StronglySorted_inv in Hs as [(H1 & H2 & H3)%IH Hz]. rewrite Forall_app, !Forall_forall in Hz.
    split_and!; [|done|].
    + constructor; [done|]. apply Forall_forall. apply Hz.
    + intros x y [->|?]%elem_of_cons ?; [by apply Hz|by apply H3].
  - intros (H1 & H2 & H3). apply StronglySorted_inv in H1 as [H1 Hz]. constructor.
    + apply IH. split_and!; [done..|]. intros x y ??. apply H3; [by right|done].
    + rewrite Forall_app. split; [done|]. apply Forall_forall. intros y ?. apply H3; [by left|done].
Qed.

Lemma by_sector_middle tbl l1 r l2 : by_sector tbl (l1 ++ r :: l2) ↔
  by_sector tbl (l1 ++ l2) ∧ (∀ x, x ∈ l1 → sector_of tbl x < sector_of tbl r) ∧
  (∀ x, x ∈ l2 → sector_of tbl r < sector_of tbl x).
Proof.
  rewrite !by_sector_app. split.
  - intros (H1 & H2 & H3). apply StronglySorted_inv in H2 as [H2 Hr]. rewrite Forall_forall in Hr.
    split_and!; [done|done| |intros; apply H3; [done|by left]|done].
    intros x y ??. apply H3; [done|by right].
  - intros ((H1 & H2 & H3) & H4 & H5). split_and!; [done| |].
    + constructor; [done|]. by apply Forall_forall.
    + intros x y ? [->|?]%elem_of_cons; [by apply H4|by apply H3].
Qed.

Lemma by_sector_inj tbl l x y : by_sector tbl l → x ∈ l → y ∈ l → sector_of tbl x = sector_of tbl y → x = y.
Proof.
  intros Hs (l1 & l2 & ->)%list_elem_of_split Hy E. apply by_sector_middle in Hs as (_ & H1 & H2).
  apply elem_of_app in Hy as [Hy%H1|[->|Hy%H2]%elem_of_cons]; [lia|done|lia].
Qed.

Lemma by_sector_ext tbl tbl' l : (∀ x, x ∈ l → sector_of tbl' x = sector_of tbl x) →
  by_sector tbl l → by_sector tbl' l.
Proof.
  intros Hx Hs. unfold by_sector in *. induction Hs as [|z l Hs IH Hz]; [constructor|].
  constructor; [apply IH; intros; apply Hx; by right|]. rewrite Forall_forall in *. intros y Hy.
  rewrite !Hx by (by left + by right). by apply Hz.
Qed.

(** ** The search *)
Lemma link_get_ok D h0 k t s : zrep D h0 k t s → rb_link_get (link_of k) s = Ok (tree_root t, s).
Proof.
  intros Hz. destruct k as [|f k]; simpl.
  - unfold gets. by rewrite (z_root _ _ _ _ _ Hz).
  - rewrite (st_bind_ok _ _ _ _ _ (rb_get_ok _ _ _ (z_parent _ _ _ _ _ _ Hz))). by rewrite child_mkn.
Qed.

Lemma add_search_ok tbl pos D h0 s fuel k t : zrep D h0 k t s → live tbl (inorder t) → by_sector tbl (inorder t) →
  (∀ x, x ∈ ctx_left k → sector_of tbl x < pos) → (∀ x, x ∈ ctx_right k → pos < sector_of tbl x) →
  (length (inorder t) < fuel)%nat →
  ∃ res, rb_add_search tbl pos fuel (link_of k) (hole_parent k) s = Ok (res, s) ∧
    match res with
    | inl x => x ∈ inorder t ∧ sector_of tbl x = pos
    | inr (p, l) => ∃ k', plug k' Leaf = plug k t ∧ p = hole_parent k' ∧ l = link_of k' ∧
        (∀ x, x ∈ ctx_left k' → sector_of tbl x < pos) ∧ (∀ x, x ∈ ctx_right k' → pos < sector_of tbl x)
    end.
Proof.
  revert k t. induction fuel as [|fuel IH]; intros k t Hz Hlv Hs Hl Hr Hf; [lia|].
  simpl rb_add_search. rewrite (st_bind_ok _ _ _ _ _ (link_get_ok _ _ _ _ _ Hz)).
  destruct t as [|c l x r]; simpl tree_root.
  { eexists. split; [reflexivity|]. by exists k. }
  simpl in *. rewrite length_app in Hf. simpl in Hf.
  destruct (Hlv x) as [rq Hrq]; [apply elem_of_app; right; by left|].
  rewrite Hrq. erewrite st_bind_ok by reflexivity. apply by_sector_middle in Hs as (Hs & Hs1 & Hs2).
  apply by_sector_app in Hs as (Hsl & Hsr & Hsx).
  assert (Hx : sector_of tbl x = blk_rq_pos rq) by (unfold sector_of; by rewrite Hrq). rewrite <-Hx.
  destruct (Z.ltb_spec pos (sector_of tbl x)); [|rewrite Z.gtb_ltb; destruct (Z.ltb_spec (sector_of tbl x) pos)].
  - destruct (IH (RbFrame LEFT c x r :: k) l) as (res & E & Hres); [by rewrite zrep_move| |done|done| |lia|].
    + intros y ?. apply Hlv, elem_of_app. by left.
    + simpl. intros y [->|[?|?]%elem_of_app]%elem_of_cons; [done|specialize (Hs2 y); naive_solver lia|by apply Hr].
    + exists res. split; [done|]. destruct res as [y|[p l']]; [|done]. split; [|tauto].
      apply elem_of_app. tauto.
  - destruct (IH (RbFrame RIGHT c x l :: k) r) as (res & E & Hres); [by rewrite zrep_move| |done| |done|lia|].
    + intros y ?. apply Hlv, elem_of_app. right. by right.
    + simpl. intros y [?|[?| ->%list_elem_of_singleton]%elem_of_app]%elem_of_app; [by apply Hl| |done].
      specialize (Hs1 y). naive_solver lia.
    + exists res. split; [done|]. destruct res as [y|[p l']]; [|done]. split; [|tauto].
      apply elem_of_app. right. right. tauto.
  - exists (inl x). split; [done|]. split; [|lia]. apply elem_of_app. right. by left.
Qed.

(** ** Adding and removing *)
Lemma elv_rb_add_ok tbl D h0 t s n r rq : zrep D h0 [] t s → red_black t n → live tbl (inorder t) →
  by_sector tbl (inorder t) → tbl !! r = Some rq → r ∈ D → r ∉ inorder t →
  (∃ a, elv_rb_add tbl r s = Ok (Some a, s) ∧ a ∈ inorder t ∧ sector_of tbl a = blk_rq_pos rq) ∨
  (∃ s' t' m, elv_rb_add tbl r s = Ok (None, s') ∧ zrep D h0 [] t' s' ∧ red_black t' m ∧
     by_sector tbl (inorder t') ∧ inorder t' ≡ₚ r :: inorder t ∧
     ∀ a, a ∈ inorder t → sector_of tbl a ≠ blk_rq_pos rq).
Proof.
  intros Hz Hrb Hlv Hs Hr HrD Hri. unfold elv_rb_add. rewrite Hr. do 2 erewrite st_bind_ok by reflexivity.
  assert (Hpos : sector_of tbl r = blk_rq_pos rq) by (unfold sector_of; by rewrite Hr).
  destruct (add_search_ok tbl (blk_rq_pos rq) D h0 s (S (size (rb_heap s))) [] t) as (res & E & Hres);
    [done|done|done|by intros ? ?%elem_of_nil|by intros ? ?%elem_of_nil|pose proof (zrep_size _ _ _ _ _ Hz); lia|].
  simpl link_of in E. simpl hole_parent in E. rewrite (st_bind_ok _ _ _ _ _ E).
  destruct res as [a|[p l]]; [left; by exists a|]. right.
  destruct Hres as (k & Hk & -> & -> & Hl & Hg). simpl in Hk. subst t.
  rewrite inorder_plug in *. simpl in *. apply zrep_plug in Hz.
  destruct (link_node_ok D h0 k r s Hz) as (s1 & E1 & Hz1); [by rewrite ctx_elems_perm|done|].
  destruct (insert_color_ok D h0 k r s1 n Hz1 Hrb) as (s2 & t2 & m & E2 & Hz2 & Hi & Hm).
  rewrite (st_bind_ok _ _ _ _ _ E1), (st_bind_ok _ _ _ _ _ E2).
  exists s2, t2, m. split_and!; [done|done|done| | |].
  - rewrite Hi. apply by_sector_middle. rewrite Hpos. done.
  - rewrite Hi. by rewrite Permutation_middle.
  - intros a [?%Hl|?%Hg]%elem_of_app; lia.
Qed.


Lemma elv_rb_del_ok D h0 t s n l1 r l2 : zrep D h0 [] t s → red_black t n → inorder t = l1 ++ r :: l2 →
  ∃ s' t' m, elv_rb_del r s = Ok (tt, s') ∧ zrep D h0 [] t' s' ∧ red_black t' m ∧ inorder t' = l1 ++ l2.
Proof.
  intros Hz Hrb Hi. destruct (rep_split _ _ _ _ _ (zrep_rep _ _ _ _ Hz) Hi) as (k & c & l & x & Ht & _).
  pose proof Hz as Hzk. rewrite Ht in Hzk. apply zrep_plug in Hzk. unfold elv_rb_del, RB_EMPTY_NODE.
  pose proof (z_focus _ _ _ LEFT _ _ _ _ _ Hzk) as Hr. pose proof (z_nodup _ _ _ _ _ Hzk) as Hn.
  assert (Hnp : hole_parent k ≠ Some r).
  { intros Hp%hole_parent_in. apply NoDup_app in Hn as (_ & Hn & _). apply (Hn r); [|done].
    simpl. apply elem_of_app. right. by left. }
  rewrite (st_bind_ok _ _ _ (bool_decide (hole_parent k = Some r)) s)
    by (by rewrite (st_bind_ok _ _ _ _ _ (rb_get_ok _ _ _ Hr))).
  rewrite bool_decide_eq_false_2 by done. erewrite st_bind_ok by reflexivity.
  destruct (erase_ok _ _ _ _ _ _ _ _ Hz Hrb Hi) as (s1 & t1 & m & E1 & Hz1 & Hm & Hi1).
  rewrite (st_bind_ok _ _ _ _ _ E1).
  assert (is_Some (rb_heap s1 !! r)) as [nd Hnd].
  { apply elem_of_dom, (grows_erase r _ _ _ E1), elem_of_dom. rewrite Hr. eauto. }
  unfold RB_CLEAR_NODE. rewrite (rb_upd_node_ok _ _ _ _ Hnd). eexists _, t1, m. split; [reflexivity|].
  split; [|done]. pose proof (z_nodup _ _ _ _ _ Hz) as Hnt. simpl in Hnt. rewrite app_nil_r, Hi in Hnt.
  apply zrep_other; [done| |].
  - apply (z_dom _ _ _ _ _ Hz). simpl. rewrite app_nil_r, Hi. apply elem_of_app. right. by left.
  - simpl. rewrite app_nil_r, Hi1. rewrite <-Permutation_middle in Hnt. by apply NoDup_cons in Hnt as [? _].
Qed.

Lemma find_loop_ok tbl pos D h0 s fuel k t : zrep D h0 k t s → live tbl (inorder t) → by_sector tbl (inorder t) →
  (depth t < fuel)%nat →
  ∃ o, rb_find_loop tbl pos fuel (tree_root t) s = Ok (o, s) ∧
    match o with
    | Some x => x ∈ inorder t ∧ sector_of tbl x = pos
    | None => ∀ x, x ∈ inorder t → sector_of tbl x ≠ pos
    end.
Proof.
  revert k t. induction fuel as [|fuel IH]; intros k t Hz Hlv Hs Hf; [lia|].
  destruct t as [|c l x r]; simpl.
  { exists None. split; [done|]. by intros ? ?%elem_of_nil. }
  simpl in *.
  destruct (Hlv x) as [rq Hrq]; [apply elem_of_app; right; by left|].
  rewrite Hrq. erewrite st_bind_ok by reflexivity.
  rewrite (st_bind_ok _ _ _ _ _ (rb_get_ok _ _ _ (z_focus _ _ _ LEFT _ _ _ _ _ Hz))). cbn [mkn rb_left rb_right].
  apply by_sector_middle in Hs as (Hs & Hs1 & Hs2). apply by_sector_app in Hs as (Hsl & Hsr & Hsx).
  assert (Hx : sector_of tbl x = blk_rq_pos rq) by (unfold sector_of; by rewrite Hrq). rewrite <-Hx.
  assert (Hsub : ∀ y, y ∈ inorder l ∨ y ∈ inorder r → y ∈ inorder l ++ x :: inorder r) by set_solver.
  destruct (Z.ltb_spec pos (sector_of tbl x)); [|rewrite Z.gtb_ltb; destruct (Z.ltb_spec (sector_of tbl x) pos)].
  - destruct (IH (RbFrame LEFT c x r :: k) l) as (o & E & Ho); [by rewrite zrep_move|by intros y ?; apply Hlv, Hsub; left|done|lia|].
    exists o. split; [done|]. destruct o as [y|]; [destruct Ho; split; [apply Hsub; tauto|done]|].
    intros y [?|[->|?]%elem_of_cons]%elem_of_app; [by apply Ho|lia|specialize (Hs2 y); naive_solver lia].
  - destruct (IH (RbFrame RIGHT c x l :: k) r) as (o & E & Ho); [by rewrite zrep_move|by intros y ?; apply Hlv, Hsub; right|done|lia|].
    exists o. split; [done|]. destruct o as [y|]; [destruct Ho; split; [apply Hsub; tauto|done]|].
    intros y [?|[->|?]%elem_of_cons]%elem_of_app; [specialize (Hs1 y); naive_solver lia|lia|by apply Ho].
  - exists (Some x). split; [done|]. split; [set_solver|lia].
Qed.

Lemma elv_rb_find_ok tbl pos D h0 t s : zrep D h0 [] t s → live tbl (inorder t) → by_sector tbl (inorder t) →
  ∃ o, elv_rb_find tbl pos s = Ok (o, s) ∧
    match o with
    | Some x => x ∈ inorder t ∧ sector_of tbl x = pos
    | None => ∀ x, x ∈ inorder t → sector_of tbl x ≠ pos
    end.
Proof.
  intros Hz Hlv Hs. unfold elv_rb_find. erewrite st_bind_ok by reflexivity. rewrite (z_root _ _ _ _ _ Hz).
  apply (find_loop_ok _ _ D h0 _ _ []); [done..|]. pose proof (zrep_size _ _ _ _ _ Hz).
  pose proof (depth_length t). simpl in *. lia.
Qed.

(** ** A finite map from sectors to requests *)
Definition sector_map tbl (l : list rqid) : gmap Z rqid := list_to_map ((λ r, (sector_of tbl r, r)) <$> l).

(** The tree in [s] is balanced and sorted and holds the requests of [M]. *)
Definition rq_map_rep tbl (M : gmap Z rqid) s : Prop :=
  ∃ t n, rb_rep t s ∧ red_black t n ∧ live tbl (inorder t) ∧ by_sector tbl (inorder t) ∧ M = sector_map tbl (inorder t).

Lemma by_sector_nodup tbl l : by_sector tbl l → NoDup (sector_of tbl <$> l).
Proof.
  induction l as [|x l IH]; [constructor|]. intros [Hs Hx]%StronglySorted_inv. rewrite fmap_cons. constructor; [|by apply IH].
  intros (y & Hy & Hin)%list_elem_of_fmap. rewrite Forall_forall in Hx. specialize (Hx y Hin). simpl in Hx. lia.
Qed.
Lemma sector_map_lookup tbl l p r : by_sector tbl l → sector_map tbl l !! p = Some r ↔ r ∈ l ∧ sector_of tbl r = p.
Proof.
  intros Hs. unfold sector_map. rewrite <-elem_of_list_to_map.
  - rewrite list_elem_of_fmap. naive_solver.
  - rewrite <-list_fmap_compose. by apply by_sector_nodup.
Qed.
Lemma sector_map_eq tbl l M : by_sector tbl l → (∀ p r, M !! p = Some r ↔ r ∈ l ∧ sector_of tbl r = p) → M = sector_map tbl l.
Proof.
  intros Hs HM. apply map_eq. intros p. apply option_eq. intros r. by rewrite HM, sector_map_lookup.
Qed.
Lemma sector_map_none tbl l p : by_sector tbl l → sector_map tbl l !! p = None ↔ ∀ r, r ∈ l → sector_of tbl r ≠ p.
Proof.
  intros Hs. rewrite eq_None_not_Some. split.
  - intros Hn r Hr E. apply Hn. exists r. by apply sector_map_lookup.
  - intros Hn [r [Hr E]%sector_map_lookup]; [|done]. by apply (Hn r).
Qed.
Lemma sector_map_size tbl l : by_sector tbl l → size (sector_map tbl l) = length l.
Proof.
  intros Hs. unfold sector_map. rewrite map_size_list_to_map; [by rewrite length_fmap|].
  rewrite <-list_fmap_compose. by apply by_sector_nodup.
Qed.

(** The entries next to one. *)
Definition next_above (M : gmap Z rqid) (p : Z) (o : option rqid) : Prop :=
  match o with
  | Some r => ∃ p', M !! p' = Some r ∧ p < p' ∧ ∀ q, is_Some (M !! q) → q ≤ p ∨ p' ≤ q
  | None => ∀ q, is_Some (M !! q) → q ≤ p
  end.
Definition next_below (M : gmap Z rqid) (p : Z) (o : option rqid) : Prop :=
  match o with
  | Some r => ∃ p', M !! p' = Some r ∧ p' < p ∧ ∀ q, is_Some (M !! q) → q ≤ p' ∨ p ≤ q
  | None => ∀ q, is_Some (M !! q) → p ≤ q
  end.

Lemma rq_map_find tbl M s p : rq_map_rep tbl M s → elv_rb_find tbl p s = Ok (M !! p, s).
Proof.
  intros (t & n & Ht & Hb & Hl & Hs & ->). destruct (elv_rb_find_ok tbl p _ _ t s Ht Hl Hs) as (o & E & Ho).
  rewrite E. do 2 f_equal. symmetry. destruct o as [r|]; [by apply sector_map_lookup|by apply sector_map_none].
Qed.

Lemma rq_map_add tbl M s r rq : rq_map_rep tbl M s → tbl !! r = Some rq → (∀ p, M !! p ≠ Some r) →
  match M !! blk_rq_pos rq with
  | Some a => elv_rb_add tbl r s = Ok (Some a, s)
  | None => ∃ s', elv_rb_add tbl r s = Ok (None, s') ∧ rq_map_rep tbl (<[blk_rq_pos rq := r]> M) s'
  end.
Proof.
  intros (t & n & Ht & Hb & Hl & Hs & ->) Hr Hnew.
  assert (Hri : r ∉ inorder t).
  { intros Hin. apply (Hnew (sector_of tbl r)). by apply sector_map_lookup. }
  assert (Hz : zrep (r :: inorder t) (rb_heap s) [] t s) by (apply rep_zrep; [done|intros x ?; by right]).
  assert (Hrs : sector_of tbl r = blk_rq_pos rq) by (unfold sector_of; by rewrite Hr).
  destruct (elv_rb_add_ok tbl _ _ t s n r rq Hz) as [(a & E & Ha & Hsec)|(s' & t' & m & E & Hz' & Hb' & Hs' & Hi & Hno)];
    [done|done|done|done|by left|done| |].
  - assert (sector_map tbl (inorder t) !! blk_rq_pos rq = Some a) as -> by (by apply sector_map_lookup). done.
  - assert (sector_map tbl (inorder t) !! blk_rq_pos rq = None) as -> by (by apply sector_map_none).
    exists s'. split; [done|]. exists t', m. split_and!; [by eapply zrep_rep|done| |done|].
    + intros x. rewrite Hi. intros [->|?]%elem_of_cons; [by exists rq|by apply Hl].
    + apply sector_map_eq; [done|]. intros p x. rewrite Hi, elem_of_cons, lookup_insert_Some, sector_map_lookup by done.
      split; [naive_solver|]. intros [[->|Hx] Hp]; [left; by rewrite <-Hp|right]. split_and!; [|done|done].
      intros <-. by apply (Hno x).
Qed.

Lemma rq_map_del tbl M s p r : rq_map_rep tbl M s → M !! p = Some r →
  ∃ s', elv_rb_del r s = Ok (tt, s') ∧ rq_map_rep tbl (delete p M) s'.
Proof.
  intros (t & n & Ht & Hb & Hl & Hs & ->) [Hr Hp]%sector_map_lookup; [|done].
  destruct (list_elem_of_split _ _ Hr) as (l1 & l2 & Hi).
  destruct (elv_rb_del_ok _ _ t s n l1 r l2 Ht Hb Hi) as (s' & t' & m & E & Hz & Hb' & Hi').
  pose proof Hs as Hs0. rewrite Hi in Hs. apply by_sector_middle in Hs as (Hs & H1 & H2).
  exists s'. split; [done|]. exists t', m. rewrite Hi'. split_and!; [by eapply zrep_rep|done| |done|].
  - intros x Hx. apply Hl. rewrite Hi. lelem.
  - apply sector_map_eq; [done|]. intros q x. rewrite lookup_delete_Some, sector_map_lookup, Hi by done.
    rewrite !elem_of_app, elem_of_cons. split.
    + intros (Hq & [Hx|[->|Hx]] & Hqx); [tauto|congruence|tauto].
    + intros [Hx Hqx]. split; [|tauto]. intros <-. destruct Hx as [Hx%H1|Hx%H2]; lia.
Qed.

Lemma rq_map_latter tbl M s p r : rq_map_rep tbl M s → M !! p = Some r →
  ∃ o, elv_rb_latter_request r s = Ok (o, s) ∧ next_above M p o.
Proof.
  intros (t & n & Ht & Hb & Hl & Hs & ->) [Hr Hp]%sector_map_lookup; [|done].
  destruct (list_elem_of_split _ _ Hr) as (l1 & l2 & Hi). exists (head l2). split; [by eapply rb_next_ok|].
  pose proof Hs as Hs0. rewrite Hi in Hs. apply by_sector_middle in Hs as (Hs & H1 & H2).
  apply by_sector_app in Hs as (_ & Hs2 & _). unfold next_above. destruct l2 as [|y l2]; simpl.
  - intros q [x [Hx Hq]%sector_map_lookup]; [|done]. rewrite Hi in Hx.
    apply elem_of_app in Hx as [Hx%H1|[->|Hx%elem_of_nil]%elem_of_cons]; [lia|lia|done].
  - exists (sector_of tbl y). split; [apply sector_map_lookup; [done|]; rewrite Hi; split; [lelem|done]|].
    split; [rewrite <-Hp; apply H2; by left|]. intros q [x [Hx Hq]%sector_map_lookup]; [|done]. rewrite Hi in Hx.
    apply StronglySorted_inv in Hs2 as [_ Hy]. rewrite Forall_forall in Hy.
    apply elem_of_app in Hx as [Hx%H1|[->|[->|Hx%Hy]%elem_of_cons]%elem_of_cons]; simpl in *; lia.
Qed.

Lemma rq_map_former tbl M s p r : rq_map_rep tbl M s → M !! p = Some r →
  ∃ o, elv_rb_former_request r s = Ok (o, s) ∧ next_below M p o.
Proof.
  intros (t & n & Ht & Hb & Hl & Hs & ->) [Hr Hp]%sector_map_lookup; [|done].
  destruct (list_elem_of_split _ _ Hr) as (l1 & l2 & Hi). exists (last l1). split; [by eapply rb_prev_ok|].
  pose proof Hs as Hs0. rewrite Hi in Hs. apply by_sector_middle in Hs as (Hs & H1 & H2).
  apply by_sector_app in Hs as (Hs1 & _ & _). unfold next_below. destruct l1 as [|y l1 _] using rev_ind; simpl.
  - intros q [x [Hx Hq]%sector_map_lookup]; [|done]. rewrite Hi in Hx. simpl in Hx.
    apply elem_of_cons in Hx as [->|Hx%H2]; lia.
  - rewrite last_snoc. exists (sector_of tbl y). split; [apply sector_map_lookup; [done|]; rewrite Hi; split; [lelem|done]|].
    split; [rewrite <-Hp; apply H1; lelem|]. intros q [x [Hx Hq]%sector_map_lookup]; [|done]. rewrite Hi in Hx.
    apply by_sector_app in Hs1 as (_ & _ & Hy).
    apply elem_of_app in Hx as [[Hx| ->%list_elem_of_singleton]%elem_of_app|[->|Hx%H2]%elem_of_cons].
    + specialize (Hy x y Hx ltac:(by left)). lia.
    + lia.
    + lia.
    + lia.
Qed.

(** C8: The tree of requests implements a finite map from start sectors to
    requests: a lookup answers as the map does; adding a request whose sector is
    taken returns the request there and changes nothing, otherwise enters it;
    removal deletes the entry; the latter and former requests are the nearest
    entries above and below.  No operation faults, and the tree stays balanced
    and sorted. *)
Theorem elv_rb_refines tbl M s : rq_map_rep tbl M s →
  (∀ p, elv_rb_find tbl p s = Ok (M !! p, s)) ∧
  (∀ r rq, tbl !! r = Some rq → (∀ p, M !! p ≠ Some r) →
     match M !! blk_rq_pos rq with
     | Some a => elv_rb_add tbl r s = Ok (Some a, s)
     | None => ∃ s', elv_rb_add tbl r s = Ok (None, s') ∧ rq_map_rep tbl (<[blk_rq_pos rq := r]> M) s'
     end) ∧
  (∀ p r, M !! p = Some r → ∃ s', elv_rb_del r s = Ok (tt, s') ∧ rq_map_rep tbl (delete p M) s') ∧
  (∀ p r, M !! p = Some r → ∃ o, elv_rb_latter_request r s = Ok (o, s) ∧ next_above M p o) ∧
  (∀ p r, M !! p = Some r → ∃ o, elv_rb_former_request r s = Ok (o, s) ∧ next_below M p o).
Proof.
  intros Hm. split_and!.
  - intros p. by apply rq_map_find.
  - intros r rq. by apply rq_map_add.
  - intros p r. by apply rq_map_del.
  - intros p r. by apply (rq_map_latter tbl).
  - intros p r. by apply (rq_map_former tbl).
Qed.

Definition sector_table : gmap rqid request :=
  list_to_map [(Rq 1, sample_rq 0 80 8); (Rq 2, sample_rq 0 16 8); (Rq 3, sample_rq 0 48 8); (Rq 4, sample_rq 0 48 8)].
(** The tree with the requests at 80, 16 and 48. *)
Definition sector_tree : rq_tree :=
  match (elv_rb_add sector_table (Rq 1);; elv_rb_add sector_table (Rq 2);; elv_rb_add sector_table (Rq 3)) (RbState None ∅) with
  | Ok (_, s) => s
  | Err _ => RbState None ∅
  end.
Definition sector_shape : tree rqid := Node RB_BLACK (Node RB_RED Leaf (Rq 2) Leaf) (Rq 3) (Node RB_RED Leaf (Rq 1) Leaf).

Lemma sector_tree_rep : rq_map_rep sector_table (sector_map sector_table [Rq 2; Rq 3; Rq 1]) sector_tree.
Proof.
  destruct (red_black_intro sector_shape) as [n Hn]; [vm_compute; reflexivity|].
  exists sector_shape, n. split_and!; [apply rb_rep_intro; vm_compute; reflexivity|done| | |done].
  - intros x. simpl. intros [->|[->|[->|?%elem_of_nil]%elem_of_cons]%elem_of_cons]%elem_of_cons; [by eexists..|done].
  - apply by_sector_intro. vm_compute. reflexivity.
Qed.

Lemma elv_rb_refines_witness : elv_rb_add sector_table (Rq 4) sector_tree = Ok (Some (Rq 3), sector_tree).
Proof.
  destruct (elv_rb_refines sector_table _ sector_tree sector_tree_rep) as (_ & Hadd & _).
  specialize (Hadd (Rq 4) (sample_rq 0 48 8) eq_refl).
  assert (sector_map sector_table [Rq 2; Rq 3; Rq 1] !! blk_rq_pos (sample_rq 0 48 8) = Some (Rq 3)) as E by (vm_compute; reflexivity).
  rewrite E in Hadd. apply Hadd. intros p Hp.
  apply sector_map_lookup in Hp as [Hp _]; [|apply by_sector_intro; vm_compute; reflexivity].
  repeat (apply elem_of_cons in Hp as [Hp|Hp]; [discriminate Hp|]). by apply elem_of_nil in Hp.
Defined.

(** A lookup among [n] requests looks at no more than [2 * log2 (n + 1)] of
    them, and at one more pointer: the loop of [elv_rb_find] is done after that
    many rounds. *)
Theorem elv_rb_find_logarithmic tbl M s sector fuel : rq_map_rep tbl M s →
  (2 * Nat.log2 (S (size M)) < fuel)%nat → rb_find_loop tbl sector fuel (rb_root s) s = Ok (M !! sector, s).
Proof.
  intros (t & n & Ht & Hb & Hl & Hs & ->) Hf. rewrite sector_map_size in Hf by done.
  pose proof (red_black_depth t n Hb). rewrite (z_root _ _ _ _ _ Ht).
  destruct (find_loop_ok tbl sector _ _ s fuel [] t Ht Hl Hs) as (o & E & Ho); [lia|].
  simpl ctx_root. rewrite E. do 2 f_equal. symmetry.
  destruct o as [r|]; [by apply sector_map_lookup|by apply sector_map_none].
Qed.

Lemma elv_rb_find_logarithmic_witness :
  rb_find_loop sector_table 16 5 (rb_root sector_tree) sector_tree = Ok (Some (Rq 2), sector_tree).
Proof.
  apply (elv_rb_find_logarithmic sector_table (sector_map sector_table [Rq 2; Rq 3; Rq 1]) sector_tree 16 5 sector_tree_rep).
  vm_compute. lia.
Defined.
