(* ===== verification/Deadline.v ===== *)
(** * The deadline scheduler ([block/deadline-iosched.c])

    For each data direction the scheduler keeps its requests twice: in a
    red-black tree sorted by sector ([sort_list], the operations of [ElvRb]) and
    on a list in order of arrival ([fifo_list], the list heads [sched_head 0] for
    reads and [sched_head 1] for writes).  A dispatch continues a batch in sector
    order, or starts a new one: reads before writes unless writes have waited
    long enough, at the oldest request when that has expired.

    The node [rq->rb_node] of every request is in [rb_nodes].  The expiry time of
    a request, which the code keeps in [rq->csd.list.next], is in [fifo_times];
    it is gone when [rq_fifo_clear] has made that word a list pointer again.

    This file has the code and the representation of its state; [DeadlineOps]
    and [DeadlineMerge] have what the operations do, [DeadlineFair] what follows
    for the order of service, [DeadlineSysfs] the tunables. *)

From S2P Require Import Prelude KList Request Elevator Settings Iosched RbTree RbInsert RbWalk RbErase ElvRb.

Local Open Scope Z_scope.

Definition READ : Z := 0.
Definition WRITE : Z := 1.

(** Arrays indexed by the data direction. *)
Definition per_dir (A : Type) : Type := A * A.
Definition at_dir {A} (d : Z) (p : per_dir A) : A := if d =? READ then fst p else snd p.
Definition set_at_dir {A} (d : Z) (v : A) (p : per_dir A) : per_dir A :=
  if d =? READ then (v, snd p) else (fst p, v).

Record deadline_data := DeadlineData {
  sort_list : per_dir (option rqid);
  rb_nodes : gmap rqid (rb_node rqid);
  dd_next_rq : per_dir (option rqid);
  batching : Z;
  last_sector : Z;
  starved : Z;
  fifo_expire : per_dir Z;
  fifo_batch : Z;
  writes_starved : Z;
  front_merges : Z;
  fifo_times : gmap rqid Z
}.

Definition set_trees (s : per_dir (option rqid)) (n : gmap rqid (rb_node rqid)) (d : deadline_data) : deadline_data :=
  DeadlineData s n (dd_next_rq d) (batching d) (last_sector d) (starved d) (fifo_expire d)
    (fifo_batch d) (writes_starved d) (front_merges d) (fifo_times d).
Definition set_dd_next_rq (v : per_dir (option rqid)) (d : deadline_data) : deadline_data :=
  DeadlineData (sort_list d) (rb_nodes d) v (batching d) (last_sector d) (starved d) (fifo_expire d)
    (fifo_batch d) (writes_starved d) (front_merges d) (fifo_times d).
Definition set_batching (v : Z) (d : deadline_data) : deadline_data :=
  DeadlineData (sort_list d) (rb_nodes d) (dd_next_rq d) v (last_sector d) (starved d) (fifo_expire d)
    (fifo_batch d) (writes_starved d) (front_merges d) (fifo_times d).
Definition set_last_sector (v : Z) (d : deadline_data) : deadline_data :=
  DeadlineData (sort_list d) (rb_nodes d) (dd_next_rq d) (batching d) v (starved d) (fifo_expire d)
    (fifo_batch d) (writes_starved d) (front_merges d) (fifo_times d).
Definition set_starved (v : Z) (d : deadline_data) : deadline_data :=
  DeadlineData (sort_list d) (rb_nodes d) (dd_next_rq d) (batching d) (last_sector d) v (fifo_expire d)
    (fifo_batch d) (writes_starved d) (front_merges d) (fifo_times d).
Definition set_fifo_expire (v : per_dir Z) (d : deadline_data) : deadline_data :=
  DeadlineData (sort_list d) (rb_nodes d) (dd_next_rq d) (batching d) (last_sector d) (starved d) v
    (fifo_batch d) (writes_starved d) (front_merges d) (fifo_times d).
Definition set_fifo_batch (v : Z) (d : deadline_data) : deadline_data :=
  DeadlineData (sort_list d) (rb_nodes d) (dd_next_rq d) (batching d) (last_sector d) (starved d)
    (fifo_expire d) v (writes_starved d) (front_merges d) (fifo_times d).
Definition set_writes_starved (v : Z) (d : deadline_data) : deadline_data :=
  DeadlineData (sort_list d) (rb_nodes d) (dd_next_rq d) (batching d) (last_sector d) (starved d)
    (fifo_expire d) (fifo_batch d) v (front_merges d) (fifo_times d).
Definition set_front_merges (v : Z) (d : deadline_data) : deadline_data :=
  DeadlineData (sort_list d) (rb_nodes d) (dd_next_rq d) (batching d) (last_sector d) (starved d)
    (fifo_expire d) (fifo_batch d) (writes_starved d) v (fifo_times d).
Definition set_fifo_times (v : gmap rqid Z) (d : deadline_data) : deadline_data :=
  DeadlineData (sort_list d) (rb_nodes d) (dd_next_rq d) (batching d) (last_sector d) (starved d)
    (fifo_expire d) (fifo_batch d) (writes_starved d) (front_merges d) v.

Definition read_expire : Z := HZ / 2.
Definition write_expire : Z := 5 * HZ.

(** ** The C functions *)
Abbreviation dworld := (world deadline_data).

(** [dd->fifo_list[d]] *)
Definition fifo_list (d : Z) : laddr := sched_head (Z.to_nat d).

(** An operation on the tree of the direction [d], and one that looks at nodes
    only. *)
Definition tree_of (d : Z) (w : dworld) : rq_tree :=
  RbState (at_dir d (sort_list (elevator_data w))) (rb_nodes (elevator_data w)).
Definition on_tree {A} (d : Z) (m : ST rq_tree A) : ST dworld A :=
  zoom (tree_of d)
    (λ s w, set_elevator_data
       (set_trees (set_at_dir d (rb_root s) (sort_list (elevator_data w))) (rb_heap s) (elevator_data w)) w) m.
Definition on_nodes {A} (m : ST rq_tree A) : ST dworld A :=
  zoom (λ w, RbState None (rb_nodes (elevator_data w)))
    (λ s w, set_elevator_data
       (set_trees (sort_list (elevator_data w)) (rb_heap s) (elevator_data w)) w) m.

(** [rq_fifo_time], [rq_set_fifo_time] and [rq_fifo_clear] of [elevator.h]. *)
Definition rq_fifo_time (r : rqid) : ST dworld Z :=
  dd ← data_get; lift (deref (fifo_times dd !! r)).
Definition rq_set_fifo_time (r : rqid) (exp : Z) : ST dworld unit :=
  data_upd (λ dd, set_fifo_times (<[r := exp]> (fifo_times dd)) dd).
Definition rq_fifo_clear (r : rqid) : ST dworld unit :=
  on_links (list_del_init (Ptr (queuelist r)));;
  on_links (INIT_LIST_HEAD (Ptr (csd_list r)));;
  data_upd (λ dd, set_fifo_times (delete r (fifo_times dd)) dd).

Definition deadline_latter_request (r : rqid) : ST dworld (option rqid) := on_nodes (rb_next r).

Definition deadline_del_rq_rb (r : rqid) : ST dworld unit :=
  rq ← rq_get r;
  let data_dir := rq_data_dir rq in
  dd ← data_get;
  when (bool_decide (at_dir data_dir (dd_next_rq dd) = Some r))
    (l ← deadline_latter_request r;
     data_upd (λ dd, set_dd_next_rq (set_at_dir data_dir l (dd_next_rq dd)) dd));;
  on_tree data_dir (elv_rb_del r).

Definition deadline_remove_request (r : rqid) : ST dworld unit :=
  rq_fifo_clear r;;
  deadline_del_rq_rb r.

Definition deadline_move_to_dispatch (r : rqid) : ST dworld unit :=
  deadline_remove_request r;;
  elv_dispatch_add_tail r.

Definition deadline_move_request (r : rqid) : ST dworld unit :=
  rq ← rq_get r;
  let data_dir := rq_data_dir rq in
  data_upd (λ dd, set_dd_next_rq (set_at_dir READ None (dd_next_rq dd)) dd);;
  data_upd (λ dd, set_dd_next_rq (set_at_dir WRITE None (dd_next_rq dd)) dd);;
  l ← deadline_latter_request r;
  data_upd (λ dd, set_dd_next_rq (set_at_dir data_dir l (dd_next_rq dd)) dd);;
  data_upd (set_last_sector (rq_end_sector rq));;
  deadline_move_to_dispatch r.

Fixpoint add_rq_rb_loop (fuel : nat) (data_dir : Z) (r : rqid) : ST dworld unit :=
  match fuel with
  | O => raise HANG
  | S fuel =>
    tbl ← gets rqs;
    alias ← on_tree data_dir (elv_rb_add tbl r);
    match alias with
    | Some a => deadline_move_request a;; add_rq_rb_loop fuel data_dir r
    | None => mret tt
    end
  end.
Definition deadline_add_rq_rb (r : rqid) : ST dworld unit :=
  rq ← rq_get r;
  tbl ← gets rqs;
  add_rq_rb_loop (S (size tbl)) (rq_data_dir rq) r.

Definition deadline_add_request (r : rqid) : ST dworld unit :=
  rq ← rq_get r;
  let data_dir := rq_data_dir rq in
  deadline_add_rq_rb r;;
  now ← gets jiffies;
  dd ← data_get;
  rq_set_fifo_time r (u64 (now + at_dir data_dir (fifo_expire dd)));;
  on_links (list_add_tail (Ptr (queuelist r)) (Ptr (fifo_list data_dir))).

(** The callbacks of the scheduler as far as [elv_rq_merge_ok] looks at them. *)
Definition deadline_allow_merge : elevator_ops deadline_data :=
  ElevatorOps None None None None None None None None None None None None None None None None None.

Definition deadline_merge (b : bio) : ST dworld (Z * option rqid) :=
  dd ← data_get;
  if front_merges dd =? 0 then mret (ELEVATOR_NO_MERGE, None) else
  let sector := u64 (bi_sector b + bio_sectors b) in
  tbl ← gets rqs;
  __rq ← on_tree (bio_data_dir b) (elv_rb_find tbl sector);
  match __rq with
  | None => mret (ELEVATOR_NO_MERGE, None)
  | Some r =>
    rq ← rq_get r;
    bug_on (negb (sector =? blk_rq_pos rq));;
    ok ← elv_rq_merge_ok deadline_allow_merge r b;
    mret (if (ok : bool) then (ELEVATOR_FRONT_MERGE, Some r) else (ELEVATOR_NO_MERGE, None))
  end.

Definition deadline_merged_request (r : rqid) (type : Z) : ST dworld unit :=
  when (type =? ELEVATOR_FRONT_MERGE)
    (rq ← rq_get r;
     on_tree (rq_data_dir rq) (elv_rb_del r);;
     deadline_add_rq_rb r).

Definition deadline_merged_requests (req next : rqid) : ST dworld unit :=
  e1 ← on_links (list_empty (Ptr (queuelist req)));
  linked ← (if (e1 : bool) then mret false
            else e2 ← on_links (list_empty (Ptr (queuelist next))); mret (negb e2));
  when linked
    (tn ← rq_fifo_time next;
     tr ← rq_fifo_time req;
     when (time_before tn tr)
       (on_links (list_move (Ptr (queuelist req)) (Ptr (queuelist next)));;
        t ← rq_fifo_time next;
        rq_set_fifo_time req t));;
  deadline_remove_request next.

Definition deadline_check_fifo (ddir : Z) : ST dworld bool :=
  p ← on_links (get_next (Ptr (fifo_list ddir)));
  r ← lift (list_entry_rq p);
  now ← gets jiffies;
  t ← rq_fifo_time r;
  mret (time_after now t).

(** The code from the label [dispatch_request] on, and from
    [dispatch_find_request] and [dispatch_writes] on. *)
Definition dispatch_request (r : rqid) : ST dworld Z :=
  data_upd (λ dd, set_batching (u32 (batching dd + 1)) dd);;
  deadline_move_request r;;
  mret 1.
Definition dispatch_find_request (data_dir : Z) : ST dworld Z :=
  expired ← deadline_check_fifo data_dir;
  dd ← data_get;
  r ← match (if (expired : bool) then None else at_dir data_dir (dd_next_rq dd)) with
      | Some r => mret r
      | None => p ← on_links (get_next (Ptr (fifo_list data_dir))); lift (list_entry_rq p)
      end;
  data_upd (set_batching 0);;
  dispatch_request r.
Definition dispatch_writes : ST dworld Z :=
  dd ← data_get;
  bug_on (RB_EMPTY_ROOT (RbState (at_dir WRITE (sort_list dd)) (rb_nodes dd)));;
  data_upd (set_starved 0);;
  dispatch_find_request WRITE.

Definition deadline_dispatch_requests (force : Z) : ST dworld Z :=
  no_reads ← on_links (list_empty (Ptr (fifo_list READ)));
  no_writes ← on_links (list_empty (Ptr (fifo_list WRITE)));
  dd ← data_get;
  let rq := match at_dir WRITE (dd_next_rq dd) with
            | Some r => Some r
            | None => at_dir READ (dd_next_rq dd)
            end in
  match (if batching dd <? u32 (fifo_batch dd) then rq else None) with
  | Some r => dispatch_request r
  | None =>
    if negb no_reads then
      bug_on (RB_EMPTY_ROOT (RbState (at_dir READ (sort_list dd)) (rb_nodes dd)));;
      waited ← (if (no_writes : bool) then mret false
                else data_upd (set_starved (u32 (starved dd + 1)));;
                     mret (starved dd >=? u32 (writes_starved dd)));
      if (waited : bool) then dispatch_writes else dispatch_find_request READ
    else if negb no_writes then dispatch_writes
    else mret 0
  end.

Definition deadline_queue_empty : ST dworld bool :=
  e ← on_links (list_empty (Ptr (fifo_list WRITE)));
  if (e : bool) then on_links (list_empty (Ptr (fifo_list READ))) else mret false.

Definition deadline_exit_queue : ST dworld unit :=
  e ← on_links (list_empty (Ptr (fifo_list READ)));
  bug_on (negb e);;
  e ← on_links (list_empty (Ptr (fifo_list WRITE)));
  bug_on (negb e);;
  on_links (modify (λ h, delete (fifo_list WRITE) (delete (fifo_list READ) h))).

(** [alloc]: whether [kmalloc_node] returns memory. *)
Definition deadline_init_queue (alloc : bool) : ST (gmap laddr (list_head laddr)) (option deadline_data) :=
  if negb alloc then mret None else
  modify (<[fifo_list READ := ListHead (Ptr (fifo_list READ)) (Ptr (fifo_list READ))]>);;
  modify (<[fifo_list WRITE := ListHead (Ptr (fifo_list WRITE)) (Ptr (fifo_list WRITE))]>);;
  INIT_LIST_HEAD (Ptr (fifo_list READ));;
  INIT_LIST_HEAD (Ptr (fifo_list WRITE));;
  mret (Some (DeadlineData (None, None) ∅ (None, None) 0 0 0 (read_expire, write_expire) 16 2 1 ∅)).

Definition iosched_deadline : elevator_ops deadline_data := {|
  elevator_merge_fn := Some deadline_merge;
  elevator_merged_fn := Some deadline_merged_request;
  elevator_merge_req_fn := Some deadline_merged_requests;
  elevator_allow_merge_fn := None;
  elevator_dispatch_fn := Some deadline_dispatch_requests;
  elevator_add_req_fn := Some deadline_add_request;
  elevator_activate_req_fn := None;
  elevator_deactivate_req_fn := None;
  elevator_queue_empty_fn := Some deadline_queue_empty;
  elevator_completed_req_fn := None;
  elevator_former_req_fn := Some (λ r, on_nodes (elv_rb_former_request r));
  elevator_latter_req_fn := Some (λ r, on_nodes (elv_rb_latter_request r));
  elevator_set_req_fn := None;
  elevator_put_req_fn := None;
  elevator_may_queue_fn := None;
  elevator_init_fn := Some deadline_init_queue;
  elevator_exit_fn := Some deadline_exit_queue
|}.

(** ** Representation of the state *)
Implicit Types (w : dworld) (t : tree rqid) (d : Z).

Definition is_dir (d : Z) : Prop := d = READ ∨ d = WRITE.

(** The requests [fs] of one direction in order of arrival, and their tree, from
    which [ps] are missing for the moment. *)
Record dir_rep d w (fs ps : list rqid) t : Prop := {
  dr_list : one_list (Z.to_nat d) w fs;
  dr_dir : ∀ r rq, r ∈ fs → rqs w !! r = Some rq → rq_data_dir rq = d;
  dr_tree : rb_rep t (tree_of d w);
  dr_black : ∃ n, red_black t n;
  dr_perm : ps ++ inorder t ≡ₚ fs;
  dr_next : ∀ r, at_dir d (dd_next_rq (elevator_data w)) = Some r → r ∈ fs;
  dr_times : ∀ r, r ∈ fs → is_Some (fifo_times (elevator_data w) !! r);
  dr_csd : ∀ r, r ∈ fs → mapped (links w) (csd_list r)
}.

(** Both directions. *)
Definition dl_rep w (F P : Z → list rqid) (T : Z → tree rqid) : Prop :=
  ∀ d, is_dir d → dir_rep d w (F d) (P d) (T d).
Definition dl_sorted w (T : Z → tree rqid) : Prop := ∀ d, is_dir d → by_sector (rqs w) (inorder (T d)).

(** The scheduler's state represents the requests [xs], reads first. *)
Definition deadline_rep w (xs : list rqid) : Prop :=
  ∃ F T, dl_rep w F (λ _, []) T ∧ dl_sorted w T ∧ xs = F READ ++ F WRITE.

Definition with_dir {A} d (v : A) (F : Z → A) : Z → A := λ d', if d' =? d then v else F d'.

Lemma with_dir_eq {A} d (v : A) F : with_dir d v F d = v.
Proof. unfold with_dir. by rewrite Z.eqb_refl. Qed.
Lemma with_dir_ne {A} d d' (v : A) F : d' ≠ d → with_dir d v F d' = F d'.
Proof. unfold with_dir. intros. by rewrite (proj2 (Z.eqb_neq _ _)). Qed.

Lemma at_set_eq {A} d (v : A) p : at_dir d (set_at_dir d v p) = v.
Proof. unfold at_dir, set_at_dir. by destruct (d =? READ). Qed.
Lemma at_set_ne {A} d d' (v : A) p : is_dir d → is_dir d' → d' ≠ d → at_dir d' (set_at_dir d v p) = at_dir d' p.
Proof. by intros [->| ->] [->| ->]. Qed.

Lemma rq_dir_is_dir rq : is_dir (rq_data_dir rq).
Proof.
  unfold is_dir, rq_data_dir, READ, WRITE.
  assert (Z.land (cmd_flags rq) 1 = cmd_flags rq mod 2) as -> by (by apply (Z.land_ones _ 1)).
  pose proof (Z.mod_pos_bound (cmd_flags rq) 2 ltac:(done)). lia.
Qed.

(** A tree whose nodes are left alone. *)
Lemma rb_rep_nodes t p h h' : rb_rep t (RbState p h) → (∀ x, x ∈ inorder t → h' !! x = h !! x) → rb_rep t (RbState p h').
Proof.
  intros [Hr Ht Hc Hn Hd _] Hx. split; [done| |by intros ?? ?%elem_of_nil|done|done|done].
  intros x n Hxn. simpl. rewrite Hx by (by eapply tree_nodes_elem). by apply Ht.
Qed.

(** What keeps the requests of one direction as they are. *)
Lemma dir_rep_frame d w w' fs ps t ns : dir_rep d w fs ps t →
  (∀ r, r ∈ fs → rqs w' !! r = rqs w !! r) →
  frame (links w) (links w') ns → (∀ a, a ∈ ns → a ∉ fifo_list d :: (queuelist <$> fs)) →
  at_dir d (sort_list (elevator_data w')) = at_dir d (sort_list (elevator_data w)) →
  (∀ r, r ∈ fs → rb_nodes (elevator_data w') !! r = rb_nodes (elevator_data w) !! r) →
  (∀ r, at_dir d (dd_next_rq (elevator_data w')) = Some r → r ∈ fs) →
  (∀ r, r ∈ fs → fifo_times (elevator_data w') !! r = fifo_times (elevator_data w) !! r) →
  dir_rep d w' fs ps t.
Proof.
  intros [Hl Hdir Ht Hb Hp Hn Hti Hcs] Hrq Hf Hns Hroot Hnodes Hnx Hft. split.
  - destruct Hl as [Hl Hv]. split; [|intros r Hr; rewrite Hrq by done; by apply Hv].
    eapply frame_is_list; [exact Hf|exact Hl|]. intros a Ha Ha'. by apply (Hns a).
  - intros r rq Hr. rewrite Hrq by done. by apply Hdir.
  - unfold tree_of. rewrite Hroot. eapply rb_rep_nodes; [exact Ht|]. intros x Hx.
    apply Hnodes. rewrite <-Hp. apply elem_of_app. by right.
  - done.
  - done.
  - done.
  - intros r Hr. rewrite Hft by done. by apply Hti.
  - intros r Hr. eapply frame_mapped; [exact Hf|by apply Hcs].
Qed.

Lemma dl_disjoint w F P T d d' r : dl_rep w F P T → is_dir d → is_dir d' → d ≠ d' → r ∈ F d → r ∉ F d'.
Proof.
  intros Hrep Hd Hd' Hne Hr Hr'. destruct (one_live _ _ _ (dr_list _ _ _ _ _ (Hrep d Hd)) r Hr) as [rq Hrq].
  apply Hne. rewrite <-(dr_dir _ _ _ _ _ (Hrep d Hd) r rq Hr Hrq). by apply (dr_dir _ _ _ _ _ (Hrep d' Hd')) with r.
Qed.

(** The nodes of one direction, as the other one sees them. *)
Lemma fifo_nodes_disjoint w F P T d d' a : dl_rep w F P T → is_dir d → is_dir d' → d ≠ d' →
  a ∈ fifo_list d :: (queuelist <$> F d) → a ∉ fifo_list d' :: (queuelist <$> F d').
Proof.
  intros Hrep Hd Hd' Hne. apply nodes_disjoint; [done|done| |intros r; by apply (dl_disjoint w F P T)].
  unfold fifo_list. intros [= E]. destruct Hd as [->| ->], Hd' as [->| ->]; done.
Qed.
