(* ===== verification/DeadlineOps.v ===== *)
(** * What the operations of the deadline scheduler do

    Every operation keeps the representation of [Deadline]: the trees stay
    balanced, sorted and in step with the lists.  The file ends with the proof
    that the scheduler meets the contract of [Iosched]. *)

From S2P Require Import Prelude KList Request Elevator Settings Iosched RbTree RbInsert RbWalk RbErase ElvRb Deadline.

Local Open Scope Z_scope.
Implicit Types (w : dworld) (t : tree rqid) (d : Z) (F P : Z → list rqid) (T : Z → tree rqid).

(** ** Taking a request out *)
Lemma on_tree_ok {A} d (m : ST rq_tree A) w a s : m (tree_of d w) = Ok (a, s) →
  on_tree d m w = Ok (a, set_elevator_data (set_trees (set_at_dir d (rb_root s) (sort_list (elevator_data w)))
    (rb_heap s) (elevator_data w)) w).
Proof. intros E. unfold on_tree. by rewrite (zoom_ok _ _ _ _ _ _ E). Qed.

Lemma latter_ok d w t l1 r l2 : rb_rep t (tree_of d w) → inorder t = l1 ++ r :: l2 →
  deadline_latter_request r w = Ok (head l2, w).
Proof.
  intros Ht Hi. unfold deadline_latter_request, on_nodes, zoom.
  pose proof (rb_next_nodes _ _ _ _ _ None Ht Hi) as E. simpl in E. rewrite E. by destruct w as [? ? ? ? []].
Qed.

Lemma fifo_clear_ok w F P T d l1 r l2 : dl_rep w F P T → is_dir d → F d = l1 ++ r :: l2 →
  ∃ h, rq_fifo_clear r w = Ok (tt, set_elevator_data
      (set_fifo_times (delete r (fifo_times (elevator_data w))) (elevator_data w)) (set_links h w)) ∧
    is_list h (fifo_list d) (queuelist <$> l1 ++ l2) ∧
    frame (links w) h (csd_list r :: fifo_list d :: (queuelist <$> F d)).
Proof.
  intros Hrep Hd HF. destruct (Hrep d Hd) as [[Hl Hv] _ _ _ _ _ _ Hcs]. rewrite HF in *.
  rewrite fmap_app, fmap_cons in Hl.
  destruct (list_del_init_spec _ _ _ _ _ Hl) as (h1 & E1 & [Hl1 _] & Hf1).
  destruct (INIT_LIST_HEAD_spec h1 (csd_list r)) as (h2 & E2 & _ & Hf2).
  { eapply frame_mapped; [exact Hf1|]. apply Hcs. lelem. }
  exists h2. unfold rq_fifo_clear. st_step (on_links_ok _ _ _ _ E1). st_step (on_links_ok _ (set_links h1 w) _ _ E2).
  rewrite <-fmap_app in Hl1. split; [done|]. split.
  - eapply frame_is_list; [exact Hf2|exact Hl1|].
    intros a Ha ->%list_elem_of_singleton. by apply elem_of_cons in Ha as [?|(? & ? & ?)%queuelist_elem].
  - rewrite fmap_app, fmap_cons. eapply frame_trans.
    + eapply frame_weaken; [exact Hf1|]. intros a Ha. by right.
    + eapply frame_weaken; [exact Hf2|]. intros a ->%list_elem_of_singleton. by left.
Qed.

(** The pointer to the next request moves on when its request leaves. *)
Definition next_without d (r : rqid) (after : list rqid) (nx : per_dir (option rqid)) : per_dir (option rqid) :=
  if bool_decide (at_dir d nx = Some r) then set_at_dir d (head after) nx else nx.

Lemma del_rq_rb_ok d w t n l1 r l2 rq : rb_rep t (tree_of d w) → red_black t n → inorder t = l1 ++ r :: l2 →
  rqs w !! r = Some rq → rq_data_dir rq = d →
  ∃ s' t' m, deadline_del_rq_rb r w = Ok (tt, set_elevator_data
      (set_trees (set_at_dir d (rb_root s') (sort_list (elevator_data w))) (rb_heap s')
        (set_dd_next_rq (next_without d r l2 (dd_next_rq (elevator_data w))) (elevator_data w))) w) ∧
    rb_rep t' s' ∧ red_black t' m ∧ inorder t' = l1 ++ l2 ∧
    ∀ x, x ∉ inorder t → rb_heap s' !! x = rb_nodes (elevator_data w) !! x.
Proof.
  intros Ht Hb Hi Hr Hdir. destruct (elv_rb_del_ok _ _ _ _ _ _ _ _ Ht Hb Hi) as (s' & t' & m & E & Hz & Hb' & Hi').
  exists s', t', m. split; [|split_and!; [by eapply zrep_rep|done|done|apply (z_frame _ _ _ _ _ Hz)]].
  unfold deadline_del_rq_rb. st_step (rq_get_ok _ _ _ Hr). rewrite Hdir. erewrite (st_bind_ok data_get) by reflexivity.
  unfold next_without. case_bool_decide as Hn; cbn [when].
  - assert ((l ← deadline_latter_request r;
      data_upd (λ dd, set_dd_next_rq (set_at_dir d l (dd_next_rq dd)) dd)) w = Ok (tt, set_elevator_data
        (set_dd_next_rq (set_at_dir d (head l2) (dd_next_rq (elevator_data w))) (elevator_data w)) w)) as E1
      by (by st_step (latter_ok _ _ _ _ _ _ Ht Hi)).
    st_step E1. by rewrite (on_tree_ok d _ (set_elevator_data _ w) tt s').
  - erewrite (st_bind_ok (mret tt)) by reflexivity. rewrite (on_tree_ok d _ w tt s') by done.
    by destruct w as [? ? ? ? []].
Qed.

Lemma next_without_elem d r after nx y : at_dir d (next_without d r after nx) = Some y → y ∈ after ∨ at_dir d nx = Some y ∧ y ≠ r.
Proof.
  unfold next_without. case_bool_decide as Hn.
  - rewrite at_set_eq. destruct after; [done|]. intros [= ->]. left. by left.
  - intros Hy. right. split; [done|]. by intros ->.
Qed.
Lemma next_without_other d d' r after nx : is_dir d → is_dir d' → d' ≠ d →
  at_dir d' (next_without d r after nx) = at_dir d' nx.
Proof. intros. unfold next_without. case_bool_decide; [by apply at_set_ne|done]. Qed.

(** The world after [r] was taken out of the direction [d]. *)
Definition removed d (r : rqid) (after : list rqid) (h : gmap laddr (list_head laddr)) (s : rq_tree) w : dworld :=
  let dd := elevator_data w in
  set_elevator_data (set_trees (set_at_dir d (rb_root s) (sort_list dd)) (rb_heap s)
    (set_dd_next_rq (next_without d r after (dd_next_rq dd))
      (set_fifo_times (delete r (fifo_times dd)) dd))) (set_links h w).

Lemma dl_removed w F P T d l1 r l2 m1 m2 h s t n : dl_rep w F P T → is_dir d →
  F d = l1 ++ r :: l2 → inorder (T d) = m1 ++ r :: m2 →
  is_list h (fifo_list d) (queuelist <$> l1 ++ l2) →
  frame (links w) h (csd_list r :: fifo_list d :: (queuelist <$> F d)) →
  rb_rep t s → red_black t n → inorder t = m1 ++ m2 →
  (∀ x, x ∉ inorder (T d) → rb_heap s !! x = rb_nodes (elevator_data w) !! x) →
  dl_rep (removed d r m2 h s w) (with_dir d (l1 ++ l2) F) P (with_dir d t T).
Proof.
  intros Hrep Hd HF HT Hl Hf Ht Hb Hi Hh d' Hd'. pose proof (Hrep d Hd) as [Hol Hdir _ _ Hp Hn Hti Hcs].
  assert (Hsub : ∀ y, y ∈ l1 ++ l2 → y ∈ F d) by (rewrite HF; lelem).
  assert (Hnr : r ∉ l1 ++ l2).
  { pose proof (one_list_nodup _ _ _ Hol) as Hnd. rewrite HF in Hnd. by apply NoDup_middle in Hnd as [? _]. }
  assert (Hpm : P d ++ m1 ++ m2 ≡ₚ l1 ++ l2).
  { rewrite HF, HT, app_assoc in Hp. rewrite <-!Permutation_middle, <-app_assoc in Hp. by apply Permutation_cons_inv in Hp. }
  destruct (decide (d' = d)) as [->|Hne].
  - rewrite !with_dir_eq. split.
    + split; [done|]. intros y Hy. by apply (one_live _ _ _ Hol), Hsub.
    + intros y rq Hy. by apply Hdir, Hsub.
    + unfold tree_of, removed. simpl. rewrite at_set_eq. by destruct s.
    + by exists n.
    + by rewrite Hi.
    + unfold removed. simpl. intros y [Hy|[Hy Hyr]]%next_without_elem.
      * rewrite <-Hpm. lelem.
      * apply Hn in Hy. rewrite HF in Hy. rewrite <-Permutation_middle in Hy. by apply elem_of_cons in Hy as [?|?].
    + intros y Hy. unfold removed. simpl. rewrite lookup_delete_ne by (by intros ->). by apply Hti, Hsub.
    + intros y Hy. eapply frame_mapped; [exact Hf|]. by apply Hcs, Hsub.
  - rewrite !with_dir_ne by done.
    assert (Hr : r ∉ F d').
    { apply (dl_disjoint w F P T d d'); [done..|]. rewrite HF. lelem. }
    apply (dir_rep_frame d' w _ _ _ _ (csd_list r :: fifo_list d :: (queuelist <$> F d))); [by apply Hrep|done|done| | | | |].
    + intros a [->|Ha]%elem_of_cons.
      * intros [?|(? & ? & ?)%queuelist_elem]%elem_of_cons; done.
      * by apply (fifo_nodes_disjoint w F P T d).
    + unfold removed. simpl. by apply at_set_ne.
    + intros y Hy. unfold removed. simpl. apply Hh. intros HyT.
      apply (dl_disjoint w F P T d' d y); [done..|]. rewrite <-Hp. lelem.
    + unfold removed. simpl. intros y. rewrite next_without_other by done. apply (dr_next _ _ _ _ _ (Hrep d' Hd')).
    + intros y Hy. unfold removed. simpl. apply lookup_delete_ne. by intros ->.
Qed.

Lemma remove_ok w F P T d l1 r l2 m1 m2 : dl_rep w F P T → is_dir d →
  F d = l1 ++ r :: l2 → inorder (T d) = m1 ++ r :: m2 →
  ∃ h s t, deadline_remove_request r w = Ok (tt, removed d r m2 h s w) ∧
    dl_rep (removed d r m2 h s w) (with_dir d (l1 ++ l2) F) P (with_dir d t T) ∧ inorder t = m1 ++ m2 ∧
    frame (links w) h (csd_list r :: fifo_list d :: (queuelist <$> F d)).
Proof.
  intros Hrep Hd HF HT. pose proof (Hrep d Hd) as [Hol Hdir Htr [n Hb] _ _ _ _].
  destruct (fifo_clear_ok w F P T d l1 r l2) as (h & E1 & Hl & Hf); [done..|].
  destruct (one_live _ _ _ Hol r) as [rq Hrq]; [rewrite HF; lelem|].
  assert (rq_data_dir rq = d) as Hrd by (apply (Hdir r rq); [rewrite HF; lelem|done]).
  set (w1 := set_elevator_data _ (set_links h w)) in E1.
  destruct (del_rq_rb_ok d w1 (T d) n m1 r m2 rq) as (s & t & m & E2 & Ht & Hb' & Hi & Hh); [done..|].
  exists h, s, t. unfold deadline_remove_request. st_step E1. rewrite E2. split; [done|].
  split; [by eapply dl_removed|done].
Qed.

(** ** Moving a request to the dispatch queue *)

(** Changes of the scheduler's data that the requests do not see. *)
Lemma dl_rep_data w w' F P T : dl_rep w F P T → rqs w' = rqs w → links w' = links w →
  sort_list (elevator_data w') = sort_list (elevator_data w) →
  rb_nodes (elevator_data w') = rb_nodes (elevator_data w) →
  fifo_times (elevator_data w') = fifo_times (elevator_data w) →
  (∀ d r, is_dir d → at_dir d (dd_next_rq (elevator_data w')) = Some r → r ∈ F d) →
  dl_rep w' F P T.
Proof.
  intros Hrep Erq El Es En Et Hn d Hd. apply (dir_rep_frame d w w' _ _ _ []); [by apply Hrep|by rewrite Erq| | | | |by apply (λ r, Hn d r Hd)|].
  - rewrite El. apply frame_refl.
  - by intros a ?%elem_of_nil.
  - by rewrite Es.
  - by rewrite En.
  - by rewrite Et.
Qed.

(** What stays when requests come and go. *)
Record same_counters (dd dd' : deadline_data) : Prop := {
  sc_batching : batching dd' = batching dd;
  sc_starved : starved dd' = starved dd;
  sc_expire : fifo_expire dd' = fifo_expire dd;
  sc_batch : fifo_batch dd' = fifo_batch dd;
  sc_writes : writes_starved dd' = writes_starved dd;
  sc_front : front_merges dd' = front_merges dd
}.

Lemma same_counters_trans dd1 dd2 dd3 : same_counters dd1 dd2 → same_counters dd2 dd3 → same_counters dd1 dd3.
Proof. intros [] []. split; congruence. Qed.

(** The requests held, and the dispatch queue beside them. *)
Record held w (ds : list rqid) F P T : Prop := {
  held_dispatch : dispatch_rep w ds;
  held_rep : dl_rep w F P T;
  held_disjoint : ∀ d r, is_dir d → r ∈ ds → r ∉ F d
}.

Definition only_next d (o : option rqid) : per_dir (option rqid) := set_at_dir d o (None, None).

Lemma only_next_elem d d' o r : is_dir d → is_dir d' → at_dir d' (only_next d o) = Some r → d' = d ∧ o = Some r.
Proof. by intros [->| ->] [->| ->]. Qed.

Lemma sent_on_live tbl q r rq : tbl !! r = Some rq → sent_on tbl q r =
  set_boundary_rq (Some r) (set_end_sector (rq_end_sector rq)
    (set_nr_sorted (u32 (nr_sorted q - 1))
      (set_last_merge (if bool_decide (last_merge q = Some r) then None else last_merge q) q))).
Proof. intros Hr. unfold sent_on. by rewrite Hr. Qed.

Lemma dl_gone w F P T d l1 r l2 d' : dl_rep w F P T → is_dir d → is_dir d' → F d = l1 ++ r :: l2 →
  r ∉ with_dir d (l1 ++ l2) F d' ∧ ∀ y, y ∈ with_dir d (l1 ++ l2) F d' → y ∈ F d'.
Proof.
  intros Hrep Hd Hd' HF. destruct (decide (d' = d)) as [->|Hne].
  - rewrite with_dir_eq, HF. split; [|lelem]. pose proof (one_list_nodup _ _ _ (dr_list _ _ _ _ _ (Hrep d Hd))) as Hnd.
    rewrite HF in Hnd. by apply NoDup_middle in Hnd as [? _].
  - rewrite with_dir_ne by done. split; [|done]. apply (dl_disjoint w F P T d d'); [done..|]. rewrite HF. lelem.
Qed.

(** The last part of [deadline_move_request], once the next request is known. *)
Lemma move_to_dispatch_ok w ds F P T d l1 r l2 m1 m2 rq : held w ds F P T → is_dir d →
  F d = l1 ++ r :: l2 → inorder (T d) = m1 ++ r :: m2 → rqs w !! r = Some rq →
  at_dir d (dd_next_rq (elevator_data w)) ≠ Some r →
  ∃ w' t, deadline_move_to_dispatch r w = Ok (tt, w') ∧
    held w' (ds ++ [r]) (with_dir d (l1 ++ l2) F) P (with_dir d t T) ∧ inorder t = m1 ++ m2 ∧
    rqs w' = rqs w ∧ queue w' = sent_on (rqs w) (queue w) r ∧ hash w' = hash_del r (hash w) ∧
    jiffies w' = jiffies w ∧ (∀ a, mapped (links w) a ↔ mapped (links w') a) ∧
    same_counters (elevator_data w) (elevator_data w') ∧
    dd_next_rq (elevator_data w') = dd_next_rq (elevator_data w) ∧
    fifo_times (elevator_data w') = delete r (fifo_times (elevator_data w)).
Proof.
  intros [Hds Hrep Hdis] Hd HF HT Hrq Hnx.
  destruct (remove_ok w F P T d l1 r l2 m1 m2) as (h & s & t & E1 & Hrep1 & Hi & Hf); [done..|].
  set (w1 := removed d r m2 h s w) in *.
  assert (Hrd : r ∉ ds) by (intros Hr; apply (Hdis d r Hd Hr); rewrite HF; lelem).
  assert (Hdl : ∀ d' a, is_dir d' → a ∈ queue_head :: (queuelist <$> ds) → a ∉ fifo_list d' :: (queuelist <$> F d')).
  { intros d' a Hd'. apply nodes_disjoint; [done|done|done|]. intros y Hy. by apply Hdis. }
  assert (Hd1 : dispatch_rep w1 ds).
  { eapply (dispatch_rep_frame w); [done|apply (dispatch_live _ _ Hds)|exact Hf|].
    intros a Ha. apply not_elem_of_cons. split; [|by apply Hdl].
    intros ->. by apply elem_of_cons in Ha as [?|(? & ? & ?)%queuelist_elem]. }
  destruct (elv_dispatch_add_tail_ok w1 ds r rq) as (h2 & E2 & Hl2 & Hf2); [apply Hd1|done|done| |].
  { eapply frame_mapped; [exact Hf|]. apply (is_list_mapped _ _ _ (one_is_list _ _ _ (dr_list _ _ _ _ _ (Hrep d Hd)))).
    right. apply queuelist_in. rewrite HF. lelem. }
  eexists _, t. unfold deadline_move_to_dispatch. st_step E1. rewrite E2. split; [reflexivity|].
  split; [split|].
  - split; [exact Hl2|]. intros p [Hp| ->%list_elem_of_singleton]%elem_of_app; [by apply (dispatch_live _ _ Hds)|by exists rq].
  - intros d' Hd'. eapply (dir_rep_frame d' w1); [by apply Hrep1|done|exact Hf2| |done|done| |done].
    + intros a [->|Ha]%elem_of_cons.
      * apply not_elem_of_cons. split; [done|]. by apply queuelist_notin, (dl_gone w F P T).
      * intros [->|(y & -> & Hy)%queuelist_elem]%elem_of_cons; [by apply (Hdl d' _ Hd' Ha); left|].
        apply (Hdl d' _ Hd' Ha). right. by apply queuelist_in, (dl_gone w F P T d l1 r l2).
    + apply (dr_next _ _ _ _ _ (Hrep1 d' Hd')).
  - intros d' y Hd' [Hy| ->%list_elem_of_singleton]%elem_of_app; [|by apply (dl_gone w F P T)].
    intros Hy'. apply (Hdis d' y Hd' Hy). by apply (dl_gone w F P T d l1 r l2).
  - split_and!; try done.
    + symmetry. by apply sent_on_live.
    + intros a. simpl. destruct Hf as [-> _]. apply Hf2.
    + simpl. unfold next_without. by rewrite bool_decide_eq_false_2.
Qed.

Lemma move_ok w ds F P T d l1 r l2 m1 m2 rq : held w ds F P T → is_dir d →
  F d = l1 ++ r :: l2 → inorder (T d) = m1 ++ r :: m2 → rqs w !! r = Some rq →
  ∃ w' t, deadline_move_request r w = Ok (tt, w') ∧
    held w' (ds ++ [r]) (with_dir d (l1 ++ l2) F) P (with_dir d t T) ∧ inorder t = m1 ++ m2 ∧
    rqs w' = rqs w ∧ queue w' = sent_on (rqs w) (queue w) r ∧ hash w' = hash_del r (hash w) ∧
    jiffies w' = jiffies w ∧ (∀ a, mapped (links w) a ↔ mapped (links w') a) ∧
    same_counters (elevator_data w) (elevator_data w') ∧
    dd_next_rq (elevator_data w') = only_next d (head m2) ∧
    fifo_times (elevator_data w') = delete r (fifo_times (elevator_data w)).
Proof.
  intros [Hds Hrep Hdis] Hd HF HT Hrq. pose proof (Hrep d Hd) as [Hol Hdir Htr [n Hb] Hp _ _ _].
  assert (rq_data_dir rq = d) as Hrd by (apply (Hdir r rq); [rewrite HF; lelem|done]).
  unfold deadline_move_request. st_step (rq_get_ok _ _ _ Hrq). rewrite Hrd.
  do 2 erewrite (st_bind_ok (data_upd _)) by reflexivity.
  match goal with |- context [(deadline_latter_request r ≫= _) ?x] => set (w1 := x) end.
  st_step (latter_ok d w1 (T d) m1 r m2 Htr HT). do 2 erewrite (st_bind_ok (data_upd _)) by reflexivity.
  match goal with |- context [deadline_move_to_dispatch r ?x] => set (w2 := x) end.
  assert (Hnx : dd_next_rq (elevator_data w2) = only_next d (head m2)) by (by destruct Hd as [->| ->]).
  assert (Hr2 : r ∉ m2).
  { pose proof (one_list_nodup _ _ _ Hol) as Hnd. rewrite <-Hp, HT in Hnd.
    apply NoDup_app in Hnd as (_ & _ & Hnd). apply NoDup_middle in Hnd as [Hnd _]. lelem. }
  assert (held w2 ds F P T) as Hh2.
  { split; [by destruct Hds|apply (dl_rep_data w); [done..|]|done].
    intros d' y Hd'. rewrite Hnx. intros [-> Hy]%only_next_elem; [|done..]. rewrite <-Hp, HT.
    destruct m2 as [|z m2]; [done|]. injection Hy as ->. lelem. }
  destruct (move_to_dispatch_ok w2 ds F P T d l1 r l2 m1 m2 rq)
    as (w' & t & E & Hh & Hi & Erq & Eq & Eha & Ej & Hm & [] & En & Et); [done..| |].
  { rewrite Hnx. intros [_ Hy]%only_next_elem; [|done..]. destruct m2; [done|]. injection Hy as ->. lelem. }
  exists w', t. split; [exact E|]. by split_and!.
Qed.


(** ** Putting a request into a tree *)
Definition tree_set d (s : rq_tree) w : dworld :=
  set_elevator_data (set_trees (set_at_dir d (rb_root s) (sort_list (elevator_data w))) (rb_heap s) (elevator_data w)) w.

(** What is left when the requests [moved] have been sent on from [w] to [w'] and
    expiry times have been set for [timed]. *)
Record sent w w' (moved timed : list rqid) : Prop := {
  sent_rqs : rqs w' = rqs w;
  sent_queue : queue w' = foldl (sent_on (rqs w)) (queue w) moved;
  sent_hash : hash w' = foldl (λ h a, hash_del a h) (hash w) moved;
  sent_jiffies : jiffies w' = jiffies w;
  sent_mapped : ∀ a, mapped (links w) a ↔ mapped (links w') a;
  sent_counters : same_counters (elevator_data w) (elevator_data w');
  sent_times : ∀ x, x ∉ moved ++ timed → fifo_times (elevator_data w') !! x = fifo_times (elevator_data w) !! x
}.

Lemma sent_none w : sent w w [] [].
Proof. by split. Qed.

(** At most the request [moved] of the same sector is in the way. *)
Definition alias_of w d (rq : request) F (moved : list rqid) F' : Prop :=
  match moved with
  | [] => F' = F
  | [a] => sector_of (rqs w) a = blk_rq_pos rq ∧ ∃ l1 l2, F d = l1 ++ a :: l2 ∧ F' = with_dir d (l1 ++ l2) F
  | _ => False
  end.

Lemma tree_add_ok w ds F P T d r rq : held w ds F P T → dl_sorted w T → is_dir d → rqs w !! r = Some rq →
  r ∉ inorder (T d) →
  (∃ a, on_tree d (elv_rb_add (rqs w) r) w = Ok (Some a, w) ∧ a ∈ inorder (T d) ∧ sector_of (rqs w) a = blk_rq_pos rq) ∨
  (∃ s t n, on_tree d (elv_rb_add (rqs w) r) w = Ok (None, tree_set d s w) ∧ rb_rep t s ∧ red_black t n ∧
     by_sector (rqs w) (inorder t) ∧ inorder t ≡ₚ r :: inorder (T d) ∧
     (∀ x, x ≠ r → x ∉ inorder (T d) → rb_heap s !! x = rb_nodes (elevator_data w) !! x) ∧
     ∀ a, a ∈ inorder (T d) → sector_of (rqs w) a ≠ blk_rq_pos rq).
Proof.
  intros [_ Hrep _] Hs Hd Hr Hri. pose proof (Hrep d Hd) as [Hol _ Htr [n Hb] Hp _ _ _].
  assert (live (rqs w) (inorder (T d))) as Hlv.
  { intros x Hx. apply (one_live _ _ _ Hol). rewrite <-Hp. lelem. }
  assert (Hz : zrep (r :: inorder (T d)) (rb_nodes (elevator_data w)) [] (T d) (tree_of d w)).
  { apply (rep_zrep _ _ _ Htr). intros x ?. by right. }
  destruct (elv_rb_add_ok (rqs w) _ _ _ _ n r rq Hz) as [(a & E & Ha & Hsec)|(s & t & m & E & Hz' & Hb' & Hs' & Hi & Hno)];
    [done|done|by apply Hs|done|by left|done| |].
  - left. exists a. split; [|done]. rewrite (on_tree_ok _ _ _ _ _ E). do 2 f_equal.
    destruct w as [? ? ? ? dd ? ? ? ?], dd as [[]]. by destruct Hd as [->| ->].
  - right. exists s, t, m. split; [by apply on_tree_ok|]. split_and!; [by eapply zrep_rep|done..| |done].
    intros x Hx Hx'. apply (z_frame _ _ _ _ _ Hz'). by apply not_elem_of_cons.
Qed.

Lemma add_rq_rb_ok w ds F P T d r rq : held w ds F P T → dl_sorted w T → rqs w !! r = Some rq → d = rq_data_dir rq →
  r ∉ inorder (T d) →
  ∃ moved w1 F1 T1 s t n, deadline_add_rq_rb r w = Ok (tt, tree_set d s w1) ∧
    held w1 (ds ++ moved) F1 P T1 ∧ dl_sorted w1 T1 ∧ sent w w1 moved [] ∧ alias_of w d rq F moved F1 ∧
    rb_rep t s ∧ red_black t n ∧ by_sector (rqs w) (inorder t) ∧ inorder t ≡ₚ r :: inorder (T1 d) ∧
    (∀ x, x ≠ r → x ∉ inorder (T1 d) → rb_heap s !! x = rb_nodes (elevator_data w1) !! x).
Proof.
  intros Hh Hs Hr -> Hri. pose proof (rq_dir_is_dir rq) as Hd. set (d := rq_data_dir rq) in *.
  unfold deadline_add_rq_rb. st_step (rq_get_ok _ _ _ Hr). erewrite (st_bind_ok (gets rqs)) by reflexivity.
  simpl add_rq_rb_loop. erewrite (st_bind_ok (gets rqs)) by reflexivity.
  destruct (tree_add_ok w ds F P T d r rq) as [(a & E & Ha & Hsec)|(s & t & n & E & Ht & Hb & Hs' & Hi & Hx & _)]; [done..| |].
  2: { exists [], w, F, T, s, t, n. st_step E. rewrite app_nil_r. split_and!; try done. }
  st_step E. pose proof (dr_perm _ _ _ _ _ (held_rep _ _ _ _ _ Hh d Hd)) as Hp.
  assert (a ∈ F d) as HaF by (rewrite <-Hp; lelem).
  destruct (one_live _ _ _ (dr_list _ _ _ _ _ (held_rep _ _ _ _ _ Hh d Hd)) a HaF) as [arq Harq].
  destruct (list_elem_of_split _ _ HaF) as (l1 & l2 & HF). destruct (list_elem_of_split _ _ Ha) as (m1 & m2 & HT).
  destruct (move_ok w ds F P T d l1 a l2 m1 m2 arq)
    as (w1 & t1 & E1 & Hh1 & Hi1 & Erq & Eq & Eha & Ej & Hm & Hc & En & Et); [done..|].
  st_step E1. pose proof (Hs d Hd) as Hsd. rewrite HT in Hsd. apply by_sector_middle in Hsd as (Hsd & Hlt & Hgt).
  assert (Hs1 : dl_sorted w1 (with_dir d t1 T)).
  { intros d' Hd'. rewrite Erq. destruct (decide (d' = d)) as [->|Hne]; [by rewrite with_dir_eq, Hi1|].
    rewrite with_dir_ne by done. by apply Hs. }
  destruct (size (rqs w)) eqn:Hsz; [apply map_size_empty_iff in Hsz; by rewrite Hsz in Hr|].
  simpl add_rq_rb_loop. erewrite (st_bind_ok (gets rqs)) by reflexivity.
  destruct (tree_add_ok w1 (ds ++ [a]) (with_dir d (l1 ++ l2) F) P (with_dir d t1 T) d r rq)
    as [(b & E2 & Hb & Hsec2)|(s & t & m & E2 & Ht & Hb & Hs' & Hi & Hx & _)]; [done|done|done|by rewrite Erq| | |].
  { rewrite with_dir_eq, Hi1. rewrite HT in Hri. lelem. }
  { exfalso. rewrite with_dir_eq, Hi1 in Hb. rewrite Erq, <-Hsec in Hsec2.
    apply elem_of_app in Hb as [Hb%Hlt|Hb%Hgt]; lia. }
  st_step E2. exists [a], w1, (with_dir d (l1 ++ l2) F), (with_dir d t1 T), s, t, m.
  rewrite Erq in Hs'. split_and!; try done.
  - split; try done. intros x Hx'%not_elem_of_cons. rewrite Et. apply lookup_delete_ne. naive_solver.
  - split; [done|]. by exists l1, l2.
Qed.

(** ** Adding a request *)
Lemma alias_sub w d rq F moved F' : alias_of w d rq F moved F' →
  (∀ d' y, y ∈ F' d' → y ∈ F d') ∧ (∀ y, y ∈ moved → y ∈ F d).
Proof.
  destruct moved as [|a [|? ?]]; simpl; [|intros (_ & l1 & l2 & HF & ->)|done].
  { intros ->. split; [done|]. by intros ? ?%elem_of_nil. }
  split; [|rewrite HF; lelem]. intros d' y. unfold with_dir.
  destruct (Z.eqb_spec d' d) as [->|]; [rewrite HF; lelem|done].
Qed.

(** The world when [r] has been put into the tree and linked to its list. *)
Definition added d (r : rqid) (exp : Z) (h : gmap laddr (list_head laddr)) (s : rq_tree) w : dworld :=
  let w := tree_set d s w in
  set_links h (set_elevator_data (set_fifo_times (<[r := exp]> (fifo_times (elevator_data w))) (elevator_data w)) w).

Lemma dl_added w F T d r rq exp h s t n : dl_rep w F (λ _, []) T → is_dir d →
  rqs w !! r = Some rq → d = rq_data_dir rq → (∀ d', is_dir d' → r ∉ F d') → mapped (links w) (csd_list r) →
  rb_rep t s → red_black t n → inorder t ≡ₚ r :: inorder (T d) →
  (∀ x, x ≠ r → x ∉ inorder (T d) → rb_heap s !! x = rb_nodes (elevator_data w) !! x) →
  is_list h (fifo_list d) (queuelist <$> F d ++ [r]) →
  frame (links w) h (queuelist r :: fifo_list d :: (queuelist <$> F d)) →
  dl_rep (added d r exp h s w) (with_dir d (F d ++ [r]) F) (λ _, []) (with_dir d t T).
Proof.
  intros Hrep Hd Hr Hdr HrF Hcs Ht Hb Hi Hh Hl Hf d' Hd'.
  pose proof (Hrep d Hd) as [Hol Hdir _ _ Hp Hn Hti Hc].
  destruct (decide (d' = d)) as [->|Hne].
  - rewrite !with_dir_eq. split.
    + split; [done|]. intros y [Hy| ->%list_elem_of_singleton]%elem_of_app; [by apply (one_live _ _ _ Hol)|by exists rq].
    + intros y yrq [Hy| ->%list_elem_of_singleton]%elem_of_app Hyrq; [by apply (Hdir y)|].
      simpl in Hyrq. rewrite Hr in Hyrq. by injection Hyrq as <-.
    + unfold tree_of. simpl. rewrite at_set_eq. by destruct s.
    + by exists n.
    + simpl. rewrite Hi. simpl in Hp. rewrite Hp. by rewrite Permutation_app_comm.
    + intros y Hy. apply elem_of_app. left. by apply Hn.
    + intros y Hy. simpl. destruct (decide (y = r)) as [->|]; [rewrite lookup_insert_eq; eauto|].
      rewrite lookup_insert_ne by done. apply elem_of_app in Hy as [Hy| ->%list_elem_of_singleton]; [by apply Hti|done].
    + intros y Hy. eapply frame_mapped; [exact Hf|].
      apply elem_of_app in Hy as [Hy| ->%list_elem_of_singleton]; [by apply Hc|done].
  - rewrite !with_dir_ne by done.
    eapply (dir_rep_frame d' w); [by apply Hrep|done|exact Hf| | | | |].
    + intros a [->|Ha]%elem_of_cons.
      * apply not_elem_of_cons. split; [done|]. by apply queuelist_notin, HrF.
      * by apply (fifo_nodes_disjoint w F (λ _, []) T d).
    + simpl. by apply at_set_ne.
    + intros y Hy. simpl. apply Hh; [intros ->; by apply (HrF d')|]. intros HyT.
      apply (dl_disjoint w F (λ _, []) T d' d y); [done..|]. rewrite <-Hp. lelem.
    + apply (dr_next _ _ _ _ _ (Hrep d' Hd')).
    + intros y Hy. simpl. apply lookup_insert_ne. intros ->. by apply (HrF d').
Qed.

Lemma deadline_add_ok w ds F T r rq d : held w ds F (λ _, []) T → dl_sorted w T →
  rqs w !! r = Some rq → d = rq_data_dir rq → r ∉ ds → (∀ d', is_dir d' → r ∉ F d') →
  mapped (links w) (queuelist r) → mapped (links w) (csd_list r) →
  ∃ moved w' F1 T', deadline_add_request r w = Ok (tt, w') ∧
    held w' (ds ++ moved) (with_dir d (F1 d ++ [r]) F1) (λ _, []) T' ∧ dl_sorted w' T' ∧
    alias_of w d rq F moved F1 ∧ sent w w' moved [r] ∧
    fifo_times (elevator_data w') !! r = Some (u64 (jiffies w + at_dir d (fifo_expire (elevator_data w)))).
Proof.
  intros Hh Hs Hr Hdr Hrd HrF Hmq Hmc. pose proof (rq_dir_is_dir rq) as Hd. rewrite <-Hdr in Hd.
  destruct (add_rq_rb_ok w ds F (λ _, []) T d r rq) as (moved & w1 & F1 & T1 & s & t & n & E1 & Hh1 & Hs1 & Hsent & Hal &
    Ht & Hb & Hst & Hi & Hx); [done..| |].
  { intros Hin. apply (HrF d Hd). rewrite <-(dr_perm _ _ _ _ _ (held_rep _ _ _ _ _ Hh d Hd)). lelem. }
  destruct (alias_sub _ _ _ _ _ _ Hal) as [HF1 Hmv]. destruct Hsent as [Srq Sq Sh Sj Sm Sc St].
  destruct Hh1 as [Hds1 Hrep1 Hdis1].
  destruct (list_add_tail_spec (links w1) (fifo_list d) (queuelist <$> F1 d) [] (queuelist r)) as (h & Ea & Hl & Hf).
  { rewrite app_nil_r. apply (one_is_list _ _ _ (dr_list _ _ _ _ _ (Hrep1 d Hd))). }
  { rewrite app_nil_r. apply not_elem_of_cons. split; [done|]. apply queuelist_notin. intros Hy%HF1. by apply (HrF d). }
  { by apply Sm. }
  rewrite app_nil_r in Hf. set (exp := u64 (jiffies w + at_dir d (fifo_expire (elevator_data w)))).
  exists moved, (added d r exp h s w1), F1, (with_dir d t T1).
  assert (HrF1 : ∀ d', is_dir d' → r ∉ F1 d') by (intros d' Hd' Hy%HF1; by apply (HrF d')).
  assert (Hrm : r ∉ ds ++ moved) by (intros [?|Hy%Hmv]%elem_of_app; [done|by apply (HrF d)]).
  split; [|split; [split|split; [|split; [done|split]]]].
  - unfold deadline_add_request. st_step (rq_get_ok _ _ _ Hr). rewrite <-Hdr. st_step E1.
    erewrite (st_bind_ok (gets jiffies)) by reflexivity. erewrite (st_bind_ok data_get) by reflexivity.
    erewrite (st_bind_ok (rq_set_fifo_time _ _)) by reflexivity.
    match goal with |- on_links _ ?x = _ => etrans; [exact (on_links_ok _ x _ _ Ea)|] end.
    unfold added, exp. cbn. by rewrite Sj, (sc_expire _ _ Sc).
  - eapply (dispatch_rep_frame w1); [done|apply (dispatch_live _ _ Hds1)|exact Hf|].
    intros a Ha. apply not_elem_of_cons. split.
    + intros ->. apply elem_of_cons in Ha as [?|(y & [= ->] & Hy)%queuelist_elem]; done.
    + revert a Ha. apply nodes_disjoint; [done|done|done|]. intros y Hy. by apply Hdis1.
  - apply (dl_added w1 F1 T1 d r rq exp h s t n); try done; [by rewrite Srq|by apply Sm|by rewrite fmap_app].
  - intros d' y Hd' Hy. unfold with_dir. destruct (Z.eqb_spec d' d) as [->|]; [|by apply Hdis1].
    intros [Hy'| ->%list_elem_of_singleton]%elem_of_app; [by apply (Hdis1 d y)|done].
  - intros d' Hd'. simpl. rewrite Srq. destruct (decide (d' = d)) as [->|Hne]; [by rewrite with_dir_eq|].
    rewrite with_dir_ne by done. rewrite <-Srq. by apply Hs1.
  - split; try done.
    + intros a. rewrite Sm. apply Hf.
    + by destruct Sc.
    + intros x Hx'. simpl. rewrite lookup_insert_ne by lelem. apply St. lelem.
  - simpl. by rewrite lookup_insert_eq.
Qed.

(** ** Dispatching *)

(** The request a dispatch takes: [None] when there is none, otherwise whether a
    new batch starts, the direction and the request. *)
Definition batch_next (dd : deadline_data) : option (Z * rqid) :=
  if batching dd <? u32 (fifo_batch dd) then
    match at_dir WRITE (dd_next_rq dd) with
    | Some r => Some (WRITE, r)
    | None => (λ r, (READ, r)) <$> at_dir READ (dd_next_rq dd)
    end
  else None.
Definition writes_due (dd : deadline_data) : bool := starved dd >=? u32 (writes_starved dd).
Definition new_dir (dd : deadline_data) F : Z :=
  match F READ, F WRITE with
  | [], _ => WRITE
  | _, [] => READ
  | _, _ => if writes_due dd then WRITE else READ
  end.
Definition expired w (r : rqid) : bool :=
  match fifo_times (elevator_data w) !! r with Some t => time_after (jiffies w) t | None => false end.
Definition deadline_pick w F : option (bool * Z * rqid) :=
  match batch_next (elevator_data w) with
  | Some (d, r) => Some (false, d, r)
  | None =>
    let d := new_dir (elevator_data w) F in
    e ← head (F d);
    Some (true, d, if expired w e then e else default e (at_dir d (dd_next_rq (elevator_data w))))
  end.

(** The counters after it. *)
Definition batching_after (new : bool) (dd : deadline_data) : Z := if new then 1 else u32 (batching dd + 1).
Definition starved_after (new : bool) (dd : deadline_data) F : Z :=
  if negb new then starved dd else
  match F READ, F WRITE with
  | [], _ => 0
  | _, [] => starved dd
  | _, _ => if writes_due dd then 0 else u32 (starved dd + 1)
  end.

(** What a dispatch of [r] from [w] to [w'] leaves. *)
Record dispatched w w' d (r : rqid) (after : list rqid) : Prop := {
  dp_rqs : rqs w' = rqs w;
  dp_queue : queue w' = sent_on (rqs w) (queue w) r;
  dp_hash : hash w' = hash_del r (hash w);
  dp_jiffies : jiffies w' = jiffies w;
  dp_mapped : ∀ a, mapped (links w) a ↔ mapped (links w') a;
  dp_next : dd_next_rq (elevator_data w') = only_next d (head after);
  dp_times : fifo_times (elevator_data w') = delete r (fifo_times (elevator_data w));
  dp_expire : fifo_expire (elevator_data w') = fifo_expire (elevator_data w);
  dp_batch : fifo_batch (elevator_data w') = fifo_batch (elevator_data w);
  dp_writes : writes_starved (elevator_data w') = writes_starved (elevator_data w)
}.

Lemma dispatch_request_ok w ds F T d l1 r l2 m1 m2 : held w ds F (λ _, []) T → dl_sorted w T → is_dir d →
  F d = l1 ++ r :: l2 → inorder (T d) = m1 ++ r :: m2 →
  ∃ w' t, dispatch_request r w = Ok (1, w') ∧
    held w' (ds ++ [r]) (with_dir d (l1 ++ l2) F) (λ _, []) (with_dir d t T) ∧
    dl_sorted w' (with_dir d t T) ∧ inorder t = m1 ++ m2 ∧ dispatched w w' d r m2 ∧
    batching (elevator_data w') = u32 (batching (elevator_data w) + 1) ∧
    starved (elevator_data w') = starved (elevator_data w).
Proof.
  intros [Hds Hrep Hdis] Hs Hd HF HT. unfold dispatch_request. erewrite (st_bind_ok (data_upd _)) by reflexivity.
  match goal with |- context [(deadline_move_request r ≫= _) ?x] => set (w1 := x) end.
  destruct (one_live _ _ _ (dr_list _ _ _ _ _ (Hrep d Hd)) r) as [rq Hrq]; [rewrite HF; lelem|].
  assert (held w1 ds F (λ _, []) T) as Hh1.
  { split; [by destruct Hds|apply (dl_rep_data w); [done..|]|done]. intros d' y Hd'. apply (dr_next _ _ _ _ _ (Hrep d' Hd')). }
  destruct (move_ok w1 ds F (λ _, []) T d l1 r l2 m1 m2 rq)
    as (w' & t & E & Hh & Hi & Erq & Eq & Eha & Ej & Hm & [] & En & Et); [done..|].
  st_step E. exists w', t. split_and!; try done.
  intros d' Hd'. rewrite Erq. destruct (decide (d' = d)) as [->|Hne].
  - rewrite with_dir_eq, Hi. pose proof (Hs d Hd) as Hsd. rewrite HT in Hsd. by apply by_sector_middle in Hsd as [? _].
  - rewrite with_dir_ne by done. by apply Hs.
Qed.

(** The request at the head of the list, and whether it has expired. *)
Lemma fifo_head_ok w F T d e l : dl_rep w F (λ _, []) T → is_dir d → F d = e :: l →
  on_links (get_next (Ptr (fifo_list d))) w = Ok (Ptr (queuelist e), w) ∧
  deadline_check_fifo d w = Ok (expired w e, w).
Proof.
  intros Hrep Hd HF. pose proof (Hrep d Hd) as [[Hl _] _ _ _ _ _ Hti _]. rewrite HF in Hl, Hti.
  assert (on_links (get_next (Ptr (fifo_list d))) w = Ok (Ptr (queuelist e), w)) as E.
  { apply on_links_read, get_next_ok. destruct Hl as [_ Hl]. apply (seg_head _ _ _ _ Hl). }
  split; [done|]. unfold deadline_check_fifo. st_step E. rewrite (st_bind_ok _ _ w e w eq_refl).
  erewrite (st_bind_ok (gets jiffies)) by reflexivity. destruct (Hti e) as [x Hx]; [lelem|].
  unfold rq_fifo_time, expired. erewrite (st_bind_ok _ _ _ x w); [by rewrite Hx|].
  erewrite (st_bind_ok data_get) by reflexivity. unfold lift. by rewrite Hx.
Qed.

(** What a dispatch of [r] does to the requests held. *)
Definition takes w w' (ds : list rqid) F T d (r : rqid) : Prop :=
  ∃ l1 l2 m1 m2 t, F d = l1 ++ r :: l2 ∧ inorder (T d) = m1 ++ r :: m2 ∧ inorder t = m1 ++ m2 ∧
    held w' (ds ++ [r]) (with_dir d (l1 ++ l2) F) (λ _, []) (with_dir d t T) ∧
    dl_sorted w' (with_dir d t T) ∧ dispatched w w' d r m2.

Lemma take_request w ds F T d r : held w ds F (λ _, []) T → dl_sorted w T → is_dir d → r ∈ F d →
  ∃ w', dispatch_request r w = Ok (1, w') ∧ takes w w' ds F T d r ∧
    batching (elevator_data w') = u32 (batching (elevator_data w) + 1) ∧
    starved (elevator_data w') = starved (elevator_data w).
Proof.
  intros Hh Hs Hd Hr. pose proof (dr_perm _ _ _ _ _ (held_rep _ _ _ _ _ Hh d Hd)) as Hp. simpl in Hp.
  destruct (list_elem_of_split _ _ Hr) as (l1 & l2 & HF). rewrite <-Hp in Hr.
  destruct (list_elem_of_split _ _ Hr) as (m1 & m2 & HT).
  destruct (dispatch_request_ok w ds F T d l1 r l2 m1 m2) as (w' & t & E & Hh' & Hs' & Hi & Hdp & Hb & Hst); [done..|].
  exists w'. split_and!; [done| |done|done]. by exists l1, l2, m1, m2, t.
Qed.

(** The data a dispatch sets before it takes a request do not matter to the rest. *)
Lemma held_data w dd ds F T : held w ds F (λ _, []) T →
  sort_list dd = sort_list (elevator_data w) → rb_nodes dd = rb_nodes (elevator_data w) →
  fifo_times dd = fifo_times (elevator_data w) → dd_next_rq dd = dd_next_rq (elevator_data w) →
  held (set_elevator_data dd w) ds F (λ _, []) T.
Proof.
  intros [Hds Hrep Hdis] Es En Et Enx. split; [by destruct Hds|apply (dl_rep_data w); try done|done].
  intros d r Hd. simpl. rewrite Enx. apply (dr_next _ _ _ _ _ (Hrep d Hd)).
Qed.

Lemma takes_data w w' dd ds F T d r : takes (set_elevator_data dd w) w' ds F T d r →
  fifo_times dd = fifo_times (elevator_data w) → fifo_expire dd = fifo_expire (elevator_data w) →
  fifo_batch dd = fifo_batch (elevator_data w) → writes_starved dd = writes_starved (elevator_data w) →
  takes w w' ds F T d r.
Proof.
  intros (l1 & l2 & m1 & m2 & t & HF & HT & Hi & Hh & Hs & []) E1 E2 E3 E4. exists l1, l2, m1, m2, t.
  split_and!; [done..|]. simpl in *. split; first [done|congruence].
Qed.

Lemma find_request_ok w ds F T d e l : held w ds F (λ _, []) T → dl_sorted w T → is_dir d → F d = e :: l →
  ∃ w', dispatch_find_request d w = Ok (1, w') ∧
    takes w w' ds F T d (if expired w e then e else default e (at_dir d (dd_next_rq (elevator_data w)))) ∧
    batching (elevator_data w') = 1 ∧ starved (elevator_data w') = starved (elevator_data w).
Proof.
  intros Hh Hs Hd HF. destruct (fifo_head_ok w F T d e l) as [E1 E2]; [apply Hh|done|done|].
  set (r := if expired w e then e else default e (at_dir d (dd_next_rq (elevator_data w)))).
  assert (Hr : r ∈ F d).
  { subst r. destruct (expired w e); [rewrite HF; by left|].
    destruct (at_dir d _) as [y|] eqn:Hy; [|rewrite HF; by left].
    by apply (dr_next _ _ _ _ _ (held_rep _ _ _ _ _ Hh d Hd)). }
  unfold dispatch_find_request. st_step E2. erewrite (st_bind_ok data_get) by reflexivity.
  rewrite (st_bind_ok _ _ w r w).
  2: { subst r. destruct (expired w e); [st_step E1; done|]. destruct (at_dir d _); [done|]. by st_step E1. }
  erewrite (st_bind_ok (data_upd _)) by reflexivity.
  destruct (take_request (set_elevator_data (set_batching 0 (elevator_data w)) w) ds F T d r)
    as (w' & E & Htk & Hb & Hst); [by apply held_data|done|done|done|].
  exists w'. split; [exact E|]. split; [|done]. by apply (takes_data w w' _ _ _ _ _ _ Htk).
Qed.

(** The test for an empty tree. *)
Lemma root_nonempty w F T d : dl_rep w F (λ _, []) T → is_dir d → F d ≠ [] →
  RB_EMPTY_ROOT (RbState (at_dir d (sort_list (elevator_data w))) (rb_nodes (elevator_data w))) = false.
Proof.
  intros Hrep Hd HF. pose proof (Hrep d Hd) as [_ _ Htr _ Hp _ _ _]. simpl in Hp. unfold RB_EMPTY_ROOT.
  apply bool_decide_eq_false_2. pose proof (z_root _ _ _ _ _ Htr) as Hz. simpl in *. rewrite Hz.
  destruct (T d); [|done]. simpl in Hp. by apply Permutation_nil_l in Hp.
Qed.

Lemma dispatch_writes_ok w ds F T e l : held w ds F (λ _, []) T → dl_sorted w T → F WRITE = e :: l →
  ∃ w', dispatch_writes w = Ok (1, w') ∧
    takes w w' ds F T WRITE (if expired w e then e else default e (at_dir WRITE (dd_next_rq (elevator_data w)))) ∧
    batching (elevator_data w') = 1 ∧ starved (elevator_data w') = 0.
Proof.
  intros Hh Hs HF. unfold dispatch_writes. erewrite (st_bind_ok data_get) by reflexivity.
  rewrite (root_nonempty w F T) by (try apply Hh; rewrite ?HF; by try right).
  erewrite (st_bind_ok (bug_on _)) by reflexivity. erewrite (st_bind_ok (data_upd _)) by reflexivity.
  destruct (find_request_ok (set_elevator_data (set_starved 0 (elevator_data w)) w) ds F T WRITE e l)
    as (w' & E & Htk & Hb & Hst); [by apply held_data|done|by right|done|].
  exists w'. split; [exact E|]. split; [|done]. by apply (takes_data w w' _ _ _ _ _ _ Htk).
Qed.

Lemma fifo_empty_ok w F T d : dl_rep w F (λ _, []) T → is_dir d →
  on_links (list_empty (Ptr (fifo_list d))) w = Ok (bool_decide (F d = []), w).
Proof. intros Hrep Hd. apply one_list_empty. apply (dr_list _ _ _ _ _ (Hrep d Hd)). Qed.

Lemma dispatch_ok force w ds F T : held w ds F (λ _, []) T → dl_sorted w T →
  match deadline_pick w F with
  | None => deadline_dispatch_requests force w = Ok (0, w) ∧ F READ = [] ∧ F WRITE = []
  | Some (new, d, r) => ∃ w', deadline_dispatch_requests force w = Ok (1, w') ∧ is_dir d ∧
      takes w w' ds F T d r ∧ batching (elevator_data w') = batching_after new (elevator_data w) ∧
      starved (elevator_data w') = starved_after new (elevator_data w) F
  end.
Proof.
  intros Hh Hs. pose proof (held_rep _ _ _ _ _ Hh) as Hrep. unfold deadline_dispatch_requests.
  st_step (fifo_empty_ok w F T READ Hrep ltac:(by left)). st_step (fifo_empty_ok w F T WRITE Hrep ltac:(by right)).
  erewrite (st_bind_ok data_get) by reflexivity. set (dd := elevator_data w).
  assert (Hbn : (if batching dd <? u32 (fifo_batch dd)
           then match at_dir WRITE (dd_next_rq dd) with Some r => Some r | None => at_dir READ (dd_next_rq dd) end
           else None) = snd <$> batch_next dd).
  { unfold batch_next. destruct (batching dd <? _); [|done]. destruct (at_dir WRITE _); [done|]. by destruct (at_dir READ _). }
  rewrite Hbn. unfold deadline_pick. fold dd. destruct (batch_next dd) as [[d r]|] eqn:Hb; simpl.
  { assert (is_dir d ∧ r ∈ F d) as [Hd Hr].
    { unfold batch_next in Hb. destruct (batching dd <? _); [|done].
      destruct (at_dir WRITE _) eqn:Hw; [injection Hb as <- <-; split; [by right|by apply (dr_next _ _ _ _ _ (Hrep WRITE ltac:(by right)))]|].
      destruct (at_dir READ _) eqn:Hr'; [|done]. injection Hb as <- <-. split; [by left|].
      by apply (dr_next _ _ _ _ _ (Hrep READ ltac:(by left))). }
    destruct (take_request w ds F T d r) as (w' & E & Htk & Hbt & Hst); [done..|].
    exists w'. split_and!; done. }
  unfold new_dir, starved_after, batching_after. simpl. destruct (F READ) as [|e l] eqn:HR; simpl.
  - destruct (F WRITE) as [|e l] eqn:HW; simpl; [done|].
    destruct (dispatch_writes_ok w ds F T e l) as (w' & E & Htk & Hbt & Hst); [done..|].
    exists w'. split_and!; try done. by right.
  - assert (bug_on (RB_EMPTY_ROOT (RbState (at_dir READ (sort_list dd)) (rb_nodes dd))) w = Ok (tt, w)) as E0.
    { unfold dd. rewrite (root_nonempty w F T READ); [done|done|by left|by rewrite HR]. }
    erewrite (st_bind_ok (bug_on _)); [|exact E0]. destruct (F WRITE) as [|e' l'] eqn:HW; simpl.
    + erewrite (st_bind_ok (mret false)) by reflexivity. rewrite HR.
      destruct (find_request_ok w ds F T READ e l) as (w' & E & Htk & Hbt & Hst); [done|done|by left|done|].
      exists w'. split_and!; try done. by left.
    + set (dd1 := set_starved (u32 (starved dd + 1)) dd).
      rewrite (st_bind_ok _ _ w (writes_due dd) (set_elevator_data dd1 w)) by reflexivity.
      destruct (writes_due dd).
      * destruct (dispatch_writes_ok (set_elevator_data dd1 w) ds F T e' l') as (w' & E & Htk & Hbt & Hst);
          [by apply held_data|done|done|].
        rewrite HW. exists w'. split_and!; try done; [by right|]. by apply (takes_data w w' _ _ _ _ _ _ Htk).
      * destruct (find_request_ok (set_elevator_data dd1 w) ds F T READ e l) as (w' & E & Htk & Hbt & Hst);
          [by apply held_data|done|by left|done|].
        rewrite HR. exists w'. split_and!; try done; [by left|]. by apply (takes_data w w' _ _ _ _ _ _ Htk).
Qed.

(** ** The contract *)
Lemma held_intro w ds F P T : dispatch_rep w ds → dl_rep w F P T → (∀ r, r ∈ ds → r ∉ F READ ++ F WRITE) → held w ds F P T.
Proof. intros Hds Hrep Hdis. split; [done..|]. intros d r Hd Hr. specialize (Hdis r Hr). destruct Hd as [->| ->]; lelem. Qed.

Lemma with_dir_app d l (F : Z → list rqid) l1 r l2 : is_dir d → F d = l1 ++ r :: l2 → l = l1 ++ l2 →
  F READ ++ F WRITE ≡ₚ r :: with_dir d l F READ ++ with_dir d l F WRITE.
Proof.
  intros [->| ->] HF ->; rewrite HF, with_dir_eq, with_dir_ne by done; [|rewrite app_assoc];
    by rewrite <-Permutation_middle, ?app_assoc.
Qed.

(** A request may be added when it exists and its list nodes do. *)
Definition deadline_ready w (r : rqid) : Prop :=
  mapped (links w) (queuelist r) ∧ mapped (links w) (csd_list r) ∧ is_Some (rqs w !! r).

Lemma deadline_rep_frame w w' xs ns : deadline_rep w xs → elevator_data w' = elevator_data w →
  (∀ r, r ∈ xs → rqs w' !! r = rqs w !! r) → frame (links w) (links w') ns → (∀ a, a ∈ ns → core_node xs a) →
  deadline_rep w' xs.
Proof.
  intros (F & T & Hrep & Hs & ->) Ed Hrq Hf Hns.
  assert (Hsub : ∀ d r, is_dir d → r ∈ F d → r ∈ F READ ++ F WRITE) by (intros d r [->| ->]; lelem).
  exists F, T. split_and!; [| |done]; intros d Hd; pose proof (Hrep d Hd) as Hr.
  - apply (dir_rep_frame d w w' _ _ _ ns); [done| |done| |by rewrite Ed..| |by rewrite Ed].
    + intros r ?. by eapply Hrq, Hsub.
    + intros a [->|(r & -> & Hn)]%Hns; apply not_elem_of_cons; (split; [done|]).
      * by intros (? & ? & _)%queuelist_elem.
      * apply queuelist_notin. intros ?. by eapply Hn, Hsub.
    + rewrite Ed. apply (dr_next _ _ _ _ _ Hr).
  - apply (by_sector_ext (rqs w)); [|by apply Hs]. intros x Hx. unfold sector_of. rewrite Hrq; [done|].
    apply (Hsub d x Hd). rewrite <-(dr_perm _ _ _ _ _ Hr). lelem.
Qed.

Lemma alias_of_perm w d rq F moved F1 r : is_dir d → alias_of w d rq F moved F1 →
  ∃ rest, F READ ++ F WRITE ≡ₚ moved ++ rest ∧
    with_dir d (F1 d ++ [r]) F1 READ ++ with_dir d (F1 d ++ [r]) F1 WRITE ≡ₚ r :: rest.
Proof.
  intros Hd Hal.
  assert (Hadd : ∀ G : Z → list rqid, with_dir d (G d ++ [r]) G READ ++ with_dir d (G d ++ [r]) G WRITE ≡ₚ r :: G READ ++ G WRITE).
  { intros G. destruct Hd as [->| ->]; rewrite with_dir_eq, with_dir_ne by done; solve_Permutation. }
  destruct moved as [|a [|? ?]]; simpl in Hal; [|destruct Hal as (_ & l1 & l2 & HF & ->)|done].
  - subst F1. exists (F READ ++ F WRITE). by rewrite Hadd.
  - exists (with_dir d (l1 ++ l2) F READ ++ with_dir d (l1 ++ l2) F WRITE). split; [by eapply with_dir_app|apply Hadd].
Qed.

#[global] Instance deadline_iosched : IoSched iosched_deadline deadline_rep deadline_ready.
Proof.
  split.
  - intros w xs r (F & T & Hrep & _ & ->) [Hr|Hr]%elem_of_app.
    + apply (one_live _ _ _ (dr_list _ _ _ _ _ (Hrep READ ltac:(by left))) r Hr).
    + apply (one_live _ _ _ (dr_list _ _ _ _ _ (Hrep WRITE ltac:(by right))) r Hr).
  - intros w xs (F & T & Hrep & _ & ->). apply NoDup_app. split_and!.
    + apply (one_list_nodup _ _ _ (dr_list _ _ _ _ _ (Hrep READ ltac:(by left)))).
    + intros r. apply (dl_disjoint w F (λ _, []) T); [done|by left|by right|done].
    + apply (one_list_nodup _ _ _ (dr_list _ _ _ _ _ (Hrep WRITE ltac:(by right)))).
  - intros. by eapply deadline_rep_frame.
  - intros w w' r (Hq & Hc & [rq Hr]) _ El Hrq. unfold deadline_ready. rewrite El. split_and!; [done..|].
    destruct (Hrq rq Hr) as [f ->]. eauto.
  - intros w ds Hds (F & T & Hrep & Hs & [HR HW]%eq_sym%app_nil).
    exists deadline_dispatch_requests. split; [done|].
    assert (held w ds F (λ _, []) T) as Hh by (apply held_intro; [done..|]; rewrite HR, HW; intros ??; apply not_elem_of_nil).
    pose proof (dispatch_ok 1 w ds F T Hh Hs) as Hp. destruct (deadline_pick w F) as [[[new d] r]|]; [|apply Hp].
    destruct Hp as (w' & _ & Hd & (l1 & l2 & _ & _ & _ & HF & _) & _). exfalso.
    destruct Hd as [->| ->]; rewrite ?HR, ?HW in HF; by destruct l1.
  - intros w ds xs Hds (F & T & Hrep & Hs & ->) Hnd Hne. apply NoDup_app in Hnd as (Hnd1 & Hdis & Hnd2).
    assert (held w ds F (λ _, []) T) as Hh by (by apply held_intro).
    pose proof (dispatch_ok 1 w ds F T Hh Hs) as Hp. destruct (deadline_pick w F) as [[[new d] r]|].
    2: { destruct Hp as (_ & HR & HW). by rewrite HR, HW in Hne. }
    destruct Hp as (w' & E & Hd & (l1 & l2 & m1 & m2 & t & HF & HT & Hi & Hh' & Hs' & Hdp) & _).
    exists deadline_dispatch_requests, 1, w', r, (with_dir d (l1 ++ l2) F READ ++ with_dir d (l1 ++ l2) F WRITE), (ds ++ [r]).
    split_and!; try done.
    + by eapply with_dir_app.
    + by rewrite Permutation_app_comm.
    + apply Hh'.
    + eexists _, _. split_and!; [apply Hh'|done|done].
    + apply Hdp.
    + by rewrite (dp_queue _ _ _ _ _ Hdp).
    + intros a. apply (dp_mapped _ _ _ _ _ Hdp).
  - intros w ds xs r Hds (F & T & Hrep & Hs & ->) Hnd Hn (Hq & Hc & rq & Hr).
    apply NoDup_app in Hnd as (Hnd1 & Hdis & Hnd2).
    assert (held w ds F (λ _, []) T) as Hh by (by apply held_intro).
    destruct (deadline_add_ok w ds F T r rq (rq_data_dir rq)) as (moved & w' & F1 & T' & E & Hh' & Hs' & Hal & Hsent & _); try done.
    { lelem. }
    { intros d' [->| ->]; lelem. }
    destruct (alias_of_perm _ _ _ _ _ _ r (rq_dir_is_dir rq) Hal) as (rest & P1 & P2). destruct Hsent.
    eexists deadline_add_request, w', moved, rest, _. split_and!; try done.
    + apply Hh'.
    + eexists _, _. split_and!; [apply Hh'|done|done].
  - intros w ds xs Hds (F & T & Hrep & Hs & ->). exists deadline_queue_empty. split; [done|].
    unfold deadline_queue_empty. st_step (fifo_empty_ok w F T WRITE Hrep ltac:(by right)).
    case_bool_decide as HW; simpl.
    + rewrite (fifo_empty_ok w F T READ Hrep ltac:(by left)), HW, app_nil_r. done.
    + rewrite bool_decide_eq_false_2; [done|]. intros [_ ?]%app_nil. done.
Qed.
