(* ===== verification/DeadlineMerge.v ===== *)
(** * Merging under the deadline scheduler

    [deadline_merge] finds the request a bio can be put in front of;
    [deadline_merged_request] puts a request whose first sector changed back in
    its place; [deadline_merged_requests] forgets a request that another one
    absorbed, which inherits the earlier of the two expiry times. *)

From S2P Require Import Prelude KList Request Elevator Settings Iosched RbTree RbInsert RbWalk RbErase ElvRb Deadline DeadlineOps.

Local Open Scope Z_scope.
Implicit Types (w : dworld) (t : tree rqid) (d : Z) (F P : Z → list rqid) (T : Z → tree rqid).

(** ** A request that grew at the front *)

(** Replacing the tree of one direction. *)
Lemma dl_tree_set w F P T d ps t s n : dl_rep w F P T → is_dir d → rb_rep t s → red_black t n →
  ps ++ inorder t ≡ₚ F d → (∀ x, x ∉ F d → rb_heap s !! x = rb_nodes (elevator_data w) !! x) →
  dl_rep (tree_set d s w) F (with_dir d ps P) (with_dir d t T).
Proof.
  intros Hrep Hd Ht Hb Hp Hx d' Hd'. pose proof (Hrep d' Hd') as Hr. destruct (decide (d' = d)) as [->|Hne].
  - rewrite !with_dir_eq. destruct Hr as [[Hl Hv] Hdir _ _ _ Hn Hti Hcs]. split; [done|done| |by exists n|done..].
    unfold tree_of. simpl. rewrite at_set_eq. by destruct s.
  - rewrite !with_dir_ne by done. apply (dir_rep_frame d' w _ _ _ _ []); [done|done|apply frame_refl| | | | |done].
    + by intros a ?%elem_of_nil.
    + simpl. by apply at_set_ne.
    + intros y Hy. simpl. apply Hx. by apply (dl_disjoint w F P T d' d).
    + apply (dr_next _ _ _ _ _ Hr).
Qed.

Lemma with_dir_same {A} d (F : Z → A) v d' : F d = v → with_dir d v F d' = F d'.
Proof. intros <-. unfold with_dir. by destruct (Z.eqb_spec d' d) as [->|]. Qed.

Lemma dl_rep_ext w F F' P P' T : dl_rep w F P T → (∀ d, is_dir d → F d = F' d) → (∀ d, is_dir d → P d = P' d) →
  dl_rep w F' P' T.
Proof. intros Hrep HF HP d Hd. rewrite <-HF, <-HP by done. by apply Hrep. Qed.

Lemma merged_request_ok w ds F T d r rq m1 m2 : held w ds F (λ _, []) T → d = rq_data_dir rq →
  rqs w !! r = Some rq → inorder (T d) = m1 ++ r :: m2 → by_sector (rqs w) (m1 ++ m2) →
  (∀ d', is_dir d' → d' ≠ d → by_sector (rqs w) (inorder (T d'))) →
  ∃ moved w' F1 T', deadline_merged_request r ELEVATOR_FRONT_MERGE w = Ok (tt, w') ∧
    held w' (ds ++ moved) F1 (λ _, []) T' ∧ dl_sorted w' T' ∧ alias_of w d rq F moved F1 ∧ r ∉ moved ∧ sent w w' moved [].
Proof.
  intros [Hds Hrep Hdis] Hdr Hr HT Hs Hs'. pose proof (rq_dir_is_dir rq) as Hd. rewrite <-Hdr in Hd.
  pose proof (Hrep d Hd) as [Hol Hdir Htr [n Hb] Hp _ _ _]. simpl in Hp.
  destruct (elv_rb_del_ok _ _ _ _ _ _ _ _ Htr Hb HT) as (s & t & m & E1 & Hz & Hb1 & Hi).
  unfold deadline_merged_request. change (ELEVATOR_FRONT_MERGE =? ELEVATOR_FRONT_MERGE) with true. cbn [when].
  st_step (rq_get_ok _ _ _ Hr). rewrite <-Hdr. st_step (on_tree_ok _ _ _ _ _ E1). fold (tree_set d s w).
  assert (HrF : r ∈ F d) by (rewrite <-Hp, HT; lelem).
  assert (Hh1 : held (tree_set d s w) ds F (with_dir d [r] (λ _, [])) (with_dir d t T)).
  { split; [by destruct Hds| |done]. apply (dl_tree_set w F (λ _, []) T d [r] t s m); [done|done|by eapply zrep_rep|done| |].
    - rewrite <-Hp, HT, Hi. simpl. by rewrite Permutation_middle.
    - intros x Hx. apply (z_frame _ _ _ _ _ Hz). by rewrite Hp. }
  destruct (add_rq_rb_ok (tree_set d s w) ds F (with_dir d [r] (λ _, [])) (with_dir d t T) d r rq)
    as (moved & w2 & F1 & T1 & s2 & t2 & n2 & E2 & Hh2 & Hs2 & Hsent & Hal & Ht2 & Hb2 & Hst2 & Hi2 & Hx2);
    [done| |done|done| |].
  { intros d' Hd'. destruct (decide (d' = d)) as [->|Hne]; [by rewrite with_dir_eq, Hi|].
    rewrite with_dir_ne by done. by apply Hs'. }
  { rewrite with_dir_eq, Hi. pose proof (one_list_nodup _ _ _ Hol) as Hnd. rewrite <-Hp, HT in Hnd.
    by apply NoDup_middle in Hnd as [? _]. }
  exists moved, (tree_set d s2 w2), F1, (with_dir d t2 T1). split; [exact E2|].
  destruct Hh2 as [Hds2 Hrep2 Hdis2]. pose proof (dr_perm _ _ _ _ _ (Hrep2 d Hd)) as Hp2. rewrite with_dir_eq in Hp2.
  split; [split; [by destruct Hds2| |done]|].
  { eapply dl_rep_ext; [apply (dl_tree_set w2 F1 _ T1 d [] t2 s2 n2 Hrep2)|done|]; [done|done|done| | |].
    - simpl. by rewrite Hi2, <-Hp2.
    - intros x Hx. apply Hx2; [intros ->; apply Hx; rewrite <-Hp2; by left|]. intros Hx'. apply Hx. rewrite <-Hp2. by right.
    - intros d' Hd'. unfold with_dir. by destruct (d' =? d). }
  destruct Hsent as [Srq Sq Sh Sj Sm Sc St]. split_and!; try done.
  - intros d' Hd'. change (rqs (tree_set d s2 w2)) with (rqs w2). rewrite Srq. destruct (decide (d' = d)) as [->|Hne].
    + by rewrite with_dir_eq.
    + rewrite with_dir_ne, <-Srq by done. by apply Hs2.
  - intros Hrm. apply (Hdis2 d r Hd); [apply elem_of_app; by right|]. rewrite <-Hp2. by left.
  - split; try done. by destruct Sc.
Qed.

(** ** A request absorbed by another *)
Lemma linked_nonempty h (hd : laddr) l1 e l2 : is_list h hd (l1 ++ e :: l2) → list_empty (Ptr e) h = Ok (false, h).
Proof.
  intros Hl. pose proof (is_list_at _ _ _ _ _ Hl) as [_ Hn]. unfold list_empty. st_step (get_next_ok _ _ _ Hn).
  rewrite bool_decide_eq_false_2; [done|]. intros [= E]. destruct Hl as [Hnd _]. rewrite NoDup_cons in Hnd.
  destruct Hnd as [Hh Hnd]. apply NoDup_middle in Hnd as [He _].
  destruct l2 as [|x l2]; simpl in E; subst; [apply Hh|apply He]; lelem.
Qed.

(** Reordering the list of one direction and setting an expiry time. *)
Lemma dl_refifo w F T d l h r x : dl_rep w F (λ _, []) T → is_dir d → l ≡ₚ F d → r ∈ F d →
  is_list h (fifo_list d) (queuelist <$> l) → frame (links w) h (fifo_list d :: (queuelist <$> F d)) →
  dl_rep (set_elevator_data (set_fifo_times (<[r := x]> (fifo_times (elevator_data w))) (elevator_data w)) (set_links h w))
    (with_dir d l F) (λ _, []) T.
Proof.
  intros Hrep Hd Hp Hr Hl Hf d' Hd'. destruct (decide (d' = d)) as [->|Hne].
  - rewrite with_dir_eq. pose proof (Hrep d Hd) as [Hol Hdir Htr Hb Hpm Hn Hti Hcs]. split.
    + split; [done|]. intros y. rewrite Hp. apply (one_live _ _ _ Hol).
    + intros y yrq. rewrite Hp. apply Hdir.
    + done.
    + done.
    + by rewrite Hp.
    + intros y. rewrite Hp. apply Hn.
    + intros y. rewrite Hp. intros Hy. simpl. apply lookup_insert_is_Some'. right. by apply Hti.
    + intros y. rewrite Hp. intros Hy. eapply frame_mapped; [exact Hf|by apply Hcs].
  - rewrite with_dir_ne by done. apply (dir_rep_frame d' w _ _ _ _ (fifo_list d :: (queuelist <$> F d)) (Hrep d' Hd')); try done.
    + intros a. by apply (fifo_nodes_disjoint w F (λ _, []) T).
    + apply (dr_next _ _ _ _ _ (Hrep d' Hd')).
    + intros y Hy. simpl. apply lookup_insert_ne. intros ->. by apply (dl_disjoint w F (λ _, []) T d' d y).
Qed.

(** The list after the merge. *)
Definition merged_fifo (earlier : bool) (req next : rqid) (l : list rqid) : list rqid :=
  if earlier then (λ x, if bool_decide (x = next) then req else x) <$> filter (λ x, x ≠ req) l
  else filter (λ x, x ≠ next) l.

Lemma filter_ne_middle (l1 l2 : list rqid) x : x ∉ l1 ++ l2 → filter (λ y, y ≠ x) (l1 ++ x :: l2) = l1 ++ l2.
Proof.
  intros Hx. rewrite filter_app, filter_cons_False by naive_solver.
  rewrite !filter_all; [done|..]; intros y Hy ->; lelem.
Qed.

Lemma swap_in_place (l1 l2 : list rqid) x y : x ∉ l1 ++ l2 →
  (λ z, if bool_decide (z = x) then y else z) <$> l1 ++ x :: l2 = l1 ++ y :: l2.
Proof.
  intros Hx. rewrite fmap_app, fmap_cons, bool_decide_eq_true_2 by done.
  assert (∀ l : list rqid, x ∉ l → (λ z, if bool_decide (z = x) then y else z) <$> l = l) as Hid.
  { intros l. induction l as [|z l IH]; [done|]. rewrite not_elem_of_cons. intros [Hz Hl].
    rewrite fmap_cons, IH by done. by rewrite bool_decide_eq_false_2. }
  rewrite !Hid by lelem. done.
Qed.

Lemma move_next_to w F T d req next x : dl_rep w F (λ _, []) T → is_dir d → req ∈ F d → next ∈ F d → req ≠ next →
  ∃ h k1 k2, on_links (list_move (Ptr (queuelist req)) (Ptr (queuelist next))) w = Ok (tt, set_links h w) ∧
    filter (λ y, y ≠ req) (F d) = k1 ++ next :: k2 ∧
    dl_rep (set_elevator_data (set_fifo_times (<[req := x]> (fifo_times (elevator_data w))) (elevator_data w)) (set_links h w))
      (with_dir d (k1 ++ next :: req :: k2) F) (λ _, []) T ∧
    frame (links w) h (fifo_list d :: (queuelist <$> F d)).
Proof.
  intros Hrep Hd Hr Hn Hne. pose proof (Hrep d Hd) as [Hol _ _ _ _ _ _ _]. pose proof (one_list_nodup _ _ _ Hol) as Hnd.
  destruct (list_elem_of_split _ _ Hr) as (l1 & l2 & HF). rewrite HF in Hnd. apply NoDup_middle in Hnd as [Hrl Hnd].
  assert (next ∈ l1 ++ l2) as Hn' by (rewrite HF in Hn; lelem).
  destruct (list_elem_of_split _ _ Hn') as (k1 & k2 & Hk).
  pose proof (one_is_list _ _ _ Hol) as Hl. rewrite HF, fmap_app, fmap_cons in Hl.
  destruct (list_move_spec _ _ _ _ _ (queuelist <$> k1 ++ [next]) (queuelist <$> k2) Hl) as (h & E & Hl' & Hf).
  { rewrite <-!fmap_app, Hk, <-app_assoc. done. }
  rewrite fmap_app in E. change (queuelist <$> [next]) with [queuelist next] in E. rewrite last_last in E.
  exists h, k1, k2. split; [by apply on_links_ok|]. split; [by rewrite HF, filter_ne_middle, Hk|].
  rewrite <-fmap_cons, <-fmap_app in Hf. split; [|by rewrite HF].
  apply dl_refifo; [done..| |done| |by rewrite HF].
  - rewrite HF. trans (req :: l1 ++ l2); [rewrite Hk; solve_Permutation|apply Permutation_middle].
  - rewrite <-fmap_cons, <-fmap_app, <-app_assoc in Hl'. exact Hl'.
Qed.

Lemma fifo_time_ok w r x : fifo_times (elevator_data w) !! r = Some x → rq_fifo_time r w = Ok (x, w).
Proof.
  intros Hx. unfold rq_fifo_time. erewrite (st_bind_ok data_get) by reflexivity. unfold lift. by rewrite Hx.
Qed.

(** Forgetting [next]. *)
Lemma forget_ok w ds F T d l1 next l2 : held w ds F (λ _, []) T → dl_sorted w T → is_dir d → F d = l1 ++ next :: l2 →
  ∃ w' T', deadline_remove_request next w = Ok (tt, w') ∧ held w' ds (with_dir d (l1 ++ l2) F) (λ _, []) T' ∧
    dl_sorted w' T' ∧ inorder (T' d) = filter (λ y, y ≠ next) (inorder (T d)) ∧
    rqs w' = rqs w ∧ queue w' = queue w ∧ hash w' = hash w ∧
    fifo_times (elevator_data w') = delete next (fifo_times (elevator_data w)) ∧
    same_counters (elevator_data w) (elevator_data w').
Proof.
  intros [Hds Hrep Hdis] Hs Hd HF. pose proof (Hrep d Hd) as [Hol _ _ _ Hp _ _ _]. simpl in Hp.
  assert (next ∈ inorder (T d)) as Hn by (rewrite Hp, HF; lelem).
  destruct (list_elem_of_split _ _ Hn) as (m1 & m2 & HT).
  destruct (remove_ok w F (λ _, []) T d l1 next l2 m1 m2) as (h & s & t & E & Hrep' & Hi & Hf); [done..|].
  exists (removed d next m2 h s w), (with_dir d t T). split; [done|].
  pose proof (Hs d Hd) as Hsd. rewrite HT in Hsd. apply by_sector_middle in Hsd as [Hsd _].
  split; [split; [|done|]|split_and!; try done].
  - eapply (dispatch_rep_frame w); [done|apply (dispatch_live _ _ Hds)|exact Hf|].
    intros a Ha. apply not_elem_of_cons. split.
    + intros ->. by apply elem_of_cons in Ha as [?|(? & ? & ?)%queuelist_elem].
    + revert a Ha. apply nodes_disjoint; [done|done|done|]. intros y Hy. by apply Hdis.
  - intros d' y Hd' Hy Hy'. apply (Hdis d' y Hd' Hy). by apply (dl_gone w F (λ _, []) T d l1 next l2).
  - intros d' Hd'. simpl. destruct (decide (d' = d)) as [->|Hne]; [by rewrite with_dir_eq, Hi|].
    rewrite with_dir_ne by done. by apply Hs.
  - rewrite with_dir_eq, Hi, HT. rewrite filter_ne_middle; [done|].
    pose proof (one_list_nodup _ _ _ Hol) as Hnd. rewrite <-Hp, HT in Hnd. by apply NoDup_middle in Hnd as [? _].
Qed.

Lemma merged_requests_ok w ds F T d req next tr tn : held w ds F (λ _, []) T → dl_sorted w T → is_dir d →
  req ∈ F d → next ∈ F d → req ≠ next →
  fifo_times (elevator_data w) !! req = Some tr → fifo_times (elevator_data w) !! next = Some tn →
  ∃ w' F' T', deadline_merged_requests req next w = Ok (tt, w') ∧ held w' ds F' (λ _, []) T' ∧ dl_sorted w' T' ∧
    F' d = merged_fifo (time_before tn tr) req next (F d) ∧ (∀ d', d' ≠ d → F' d' = F d') ∧
    inorder (T' d) = filter (λ y, y ≠ next) (inorder (T d)) ∧
    fifo_times (elevator_data w') !! req = Some (if time_before tn tr then tn else tr) ∧
    rqs w' = rqs w ∧ queue w' = queue w ∧ hash w' = hash w ∧ same_counters (elevator_data w) (elevator_data w').
Proof.
  intros Hh Hs Hd Hr Hn Hne Htr Htn. pose proof (held_rep _ _ _ _ _ Hh d Hd) as [[Hl _] _ _ _ _ _ _ _].
  assert (∀ x, x ∈ F d → on_links (list_empty (Ptr (queuelist x))) w = Ok (false, w)) as Hemp.
  { intros x Hx. destruct (list_elem_of_split _ _ Hx) as (k1 & k2 & Hk). rewrite Hk, fmap_app, fmap_cons in Hl.
    by apply on_links_read, (linked_nonempty _ (fifo_list d) (queuelist <$> k1) _ (queuelist <$> k2)). }
  unfold deadline_merged_requests. st_step (Hemp req Hr).
  rewrite (st_bind_ok _ _ w true w) by (by st_step (Hemp next Hn)). cbn [when].
  rewrite <-st_bind_assoc, (st_bind_ok _ _ _ _ _ (fifo_time_ok _ _ _ Htn)), <-st_bind_assoc,
    (st_bind_ok _ _ _ _ _ (fifo_time_ok _ _ _ Htr)).
  pose proof (one_list_nodup _ _ _ (dr_list _ _ _ _ _ (held_rep _ _ _ _ _ Hh d Hd))) as Hnd.
  destruct (time_before tn tr) eqn:Htb; cbn [when].
  - destruct (move_next_to w F T d req next tn) as (h & k1 & k2 & E1 & Hk & Hrep1 & Hf); [apply Hh|done..|].
    set (w1 := set_elevator_data _ (set_links h w)) in Hrep1.
    rewrite (st_bind_ok _ _ w tt w1); last first.
    { st_step E1. st_step (fifo_time_ok (set_links h w) _ _ Htn). done. }
    assert (Hh1 : held w1 ds (with_dir d (k1 ++ next :: req :: k2) F) (λ _, []) T).
    { destruct Hh as [Hds Hrep Hdis]. split; [|done|].
      - eapply (dispatch_rep_frame w); [done|apply (dispatch_live _ _ Hds)|exact Hf|].
        apply nodes_disjoint; [done|done|done|]. intros y Hy. by apply Hdis.
      - intros d' y Hd' Hy. unfold with_dir. destruct (Z.eqb_spec d' d) as [->|]; [|by apply Hdis].
        pose proof (Hdis d y Hd Hy) as Hy'. intros Hy2. apply Hy'. destruct (decide (y = req)) as [->|]; [done|].
        assert (y ∈ filter (λ y, y ≠ req) (F d)) as Hy3 by (rewrite Hk; lelem). by apply list_elem_of_filter in Hy3 as [_ ?]. }
    destruct (forget_ok w1 ds (with_dir d (k1 ++ next :: req :: k2) F) T d k1 next (req :: k2))
      as (w' & T' & E & Hh' & Hs' & Hi & Erq & Eq & Eha & Et & Hc); [done|done|done|by rewrite with_dir_eq|].
    exists w', (with_dir d (k1 ++ req :: k2) F), T'. split; [exact E|]. split; [|split_and!; try done].
    + destruct Hh' as [Hds' Hrep' Hdis']. split; [done| |].
      * eapply dl_rep_ext; [exact Hrep'| |done]. intros d' _. unfold with_dir. by destruct (d' =? d).
      * intros d' y Hd' Hy. specialize (Hdis' d' y Hd' Hy). revert Hdis'. unfold with_dir. by destruct (d' =? d).
    + rewrite with_dir_eq. unfold merged_fifo. rewrite Hk, swap_in_place; [done|].
      apply (NoDup_filter (λ y, y ≠ req)) in Hnd. rewrite Hk in Hnd. by apply NoDup_middle in Hnd as [? _].
    + intros d' Hd'. by apply with_dir_ne.
    + rewrite Et, lookup_delete_ne by done. apply lookup_insert_eq.
    + by destruct Hc.
  - destruct (list_elem_of_split _ _ Hn) as (l1 & l2 & HF).
    destruct (forget_ok w ds F T d l1 next l2) as (w' & T' & E & Hh' & Hs' & Hi & Erq & Eq & Eha & Et & Hc); [done..|].
    exists w', (with_dir d (l1 ++ l2) F), T'. split; [exact E|]. split_and!; try done.
    + rewrite with_dir_eq. unfold merged_fifo. rewrite HF, filter_ne_middle; [done|].
      rewrite HF in Hnd. by apply NoDup_middle in Hnd as [? _].
    + intros d' Hd'. by apply with_dir_ne.
    + by rewrite Et, lookup_delete_ne.
Qed.

(** ** Looking for a request to grow *)
Lemma deadline_merge_ok w ds F T b : held w ds F (λ _, []) T → dl_sorted w T →
  front_merges (elevator_data w) ≠ 0 → is_dir (bio_data_dir b) →
  (∀ r rq, r ∈ F (bio_data_dir b) → rqs w !! r = Some rq → bios rq ≠ []) →
  let sector := u64 (bi_sector b + bio_sectors b) in
  ∃ o ret, deadline_merge b w = Ok ((ret, o), w) ∧
    match o with
    | Some r => ret = ELEVATOR_FRONT_MERGE ∧ r ∈ F (bio_data_dir b) ∧ sector_of (rqs w) r = sector ∧
        elv_rq_merge_ok deadline_allow_merge r b w = Ok (true, w)
    | None => ret = ELEVATOR_NO_MERGE ∧ ∀ r, r ∈ F (bio_data_dir b) → sector_of (rqs w) r = sector →
        elv_rq_merge_ok deadline_allow_merge r b w = Ok (false, w)
    end.
Proof.
  intros Hh Hs Hfm Hd Hbios sector. pose proof (held_rep _ _ _ _ _ Hh _ Hd) as [Hol _ Htr _ Hp _ _ _]. simpl in Hp.
  set (d := bio_data_dir b) in *. unfold deadline_merge. erewrite (st_bind_ok data_get) by reflexivity.
  apply Z.eqb_neq in Hfm as ->. erewrite (st_bind_ok (gets rqs)) by reflexivity.
  destruct (elv_rb_find_ok (rqs w) sector _ _ (T d) (tree_of d w) Htr) as (o & E & Ho); [|by apply Hs|].
  { intros x Hx. apply (one_live _ _ _ Hol). by rewrite <-Hp. }
  assert (on_tree d (elv_rb_find (rqs w) sector) w = Ok (o, w)) as E1.
  { rewrite (on_tree_ok _ _ _ _ _ E). do 2 f_equal. destruct w as [? ? ? ? dd ? ? ? ?], dd as [[]]. by destruct Hd as [->| ->]. }
  fold d sector. st_step E1. assert (Hmo : ∀ r, r ∈ F d → ∃ ok, elv_rq_merge_ok deadline_allow_merge r b w = Ok (ok, w)).
  { intros r Hr. destruct (one_live _ _ _ Hol r Hr) as [rq Hrq]. specialize (Hbios r rq Hr Hrq).
    unfold elv_rq_merge_ok. st_step (rq_get_ok _ _ _ Hrq). destruct (rq_mergeable rq); simpl; [|eauto].
    destruct (bios rq) as [|b0 bs]; [done|]. simpl. erewrite (st_bind_ok (lift _)) by reflexivity.
    destruct (negb (eqb (bio_rw_flagged _ _) _)); [by exists false|]. destruct (negb (_ =? _)); [by exists false|].
    destruct (negb (bool_decide _) || _); [by exists false|]. destruct (negb (eqb _ _)); [by exists false|]. by exists true. }
  destruct o as [r|].
  - destruct Ho as [Hr Hsec]. rewrite Hp in Hr. destruct (one_live _ _ _ Hol r Hr) as [rq Hrq].
    st_step (rq_get_ok _ _ _ Hrq). unfold sector_of in Hsec. rewrite Hrq in Hsec. rewrite Hsec, Z.eqb_refl.
    erewrite (st_bind_ok (bug_on _)) by reflexivity. destruct (Hmo r Hr) as [ok Eok]. st_step Eok.
    destruct ok; eexists _, _; (split; [reflexivity|]); simpl.
    + unfold sector_of. by rewrite Hrq.
    + split; [done|]. intros r' Hr' Hsec'. assert (r' = r) as ->; [|done].
      apply (by_sector_inj (rqs w) (inorder (T d))); [by apply Hs|by rewrite Hp..|].
      rewrite Hsec'. unfold sector_of. by rewrite Hrq.
  - eexists _, _. split; [reflexivity|]. simpl. split; [done|]. intros r Hr Hsec. rewrite <-Hp in Hr. by apply Ho in Hr.
Qed.
