(* ===== verification/DeadlineFair.v ===== *)
(** * The order of service of the deadline scheduler

    Which request a dispatch takes, that a batch goes up in sectors, how long
    reads can hold up writes, and what merging does, as theorems with concrete
    instances. *)

From S2P Require Import Prelude KList Request Samples Elevator Settings Iosched.
From S2P Require Import RbTree RbInsert RbWalk RbErase RbTheorems ElvRb Deadline DeadlineOps DeadlineMerge.

Local Open Scope Z_scope.
Implicit Types (w : dworld) (t : tree rqid) (d : Z) (F P : Z → list rqid) (T : Z → tree rqid).

(** ** Tests *)
Definition both {A} (a b : A) : Z → A := λ d, if d =? READ then a else b.

Definition perm_test (l k : list rqid) : bool :=
  bool_decide (NoDup l) && bool_decide (length l = length k) && forallb (λ x, bool_decide (x ∈ k)) l.
Lemma perm_test_sound l k : perm_test l k = true → l ≡ₚ k.
Proof.
  unfold perm_test. rewrite !andb_true_iff, !bool_decide_eq_true, forallb_forall. intros [[Hn Hl] Hi].
  apply NoDup_Permutation_bis; [by apply NoDup_ListNoDup|lia|]. intros x Hx. specialize (Hi x Hx).
  apply bool_decide_eq_true in Hi. by apply list_elem_of_In.
Qed.

Definition dir_rep_test d w (fs : list rqid) t : bool :=
  bool_decide (one_list (Z.to_nat d) w fs) &&
  forallb (λ r, match rqs w !! r with Some rq => rq_data_dir rq =? d | None => false end) fs &&
  rb_rep_test t (tree_of d w) && red_black_test t && perm_test (inorder t) fs &&
  match at_dir d (dd_next_rq (elevator_data w)) with Some r => bool_decide (r ∈ fs) | None => true end &&
  forallb (λ r, bool_decide (is_Some (fifo_times (elevator_data w) !! r)) && bool_decide (is_Some (links w !! csd_list r))) fs.

Lemma dir_rep_intro d w fs t : dir_rep_test d w fs t = true → dir_rep d w fs [] t.
Proof.
  unfold dir_rep_test. rewrite !andb_true_iff, bool_decide_eq_true, !forallb_forall. intros [[[[[[Hl Hd] Ht] Hb] Hp] Hn] Hc].
  split.
  - done.
  - intros r rq Hr%list_elem_of_In Hrq. specialize (Hd r Hr). simpl in Hd. rewrite Hrq in Hd. by apply Z.eqb_eq in Hd.
  - by apply rb_rep_intro.
  - by apply red_black_intro.
  - by apply perm_test_sound.
  - intros r Hr. rewrite Hr in Hn. by apply bool_decide_eq_true in Hn.
  - intros r Hr%list_elem_of_In. specialize (Hc r Hr). apply andb_true_iff in Hc as [Hc _]. by apply bool_decide_eq_true in Hc.
  - intros r Hr%list_elem_of_In. specialize (Hc r Hr). apply andb_true_iff in Hc as [_ Hc]. by apply bool_decide_eq_true in Hc.
Qed.

Definition held_test w (ds : list rqid) (f0 f1 : list rqid) (t0 t1 : tree rqid) : bool :=
  bool_decide (dispatch_rep w ds) && dir_rep_test READ w f0 t0 && dir_rep_test WRITE w f1 t1 &&
  forallb (λ r, bool_decide (r ∉ f0 ++ f1)) ds.
Lemma held_test_sound w ds f0 f1 t0 t1 : held_test w ds f0 f1 t0 t1 = true → held w ds (both f0 f1) (λ _, []) (both t0 t1).
Proof.
  unfold held_test. rewrite !andb_true_iff, bool_decide_eq_true, forallb_forall. intros [[[Hd H0] H1] Hdis].
  apply held_intro; [done| |].
  - intros d [->| ->]; by apply dir_rep_intro.
  - intros r Hr%list_elem_of_In. specialize (Hdis r Hr). by apply bool_decide_eq_true in Hdis.
Qed.
Lemma sorted_test_sound w t0 t1 : by_sector_test (rqs w) (inorder t0) && by_sector_test (rqs w) (inorder t1) = true →
  dl_sorted w (both t0 t1).
Proof. rewrite andb_true_iff. intros [H0 H1] d [->| ->]; by apply by_sector_intro. Qed.

(** ** A concrete queue *)
Definition own_ring (a : laddr) : laddr * list_head laddr := (a, ListHead (Ptr a) (Ptr a)).
Definition deadline_start (tbl : list (rqid * request)) : dworld :=
  let h := list_to_map (own_ring queue_head :: ((λ p, own_ring (queuelist p.1)) <$> tbl)
             ++ ((λ p, own_ring (csd_list p.1)) <$> tbl)) in
  match deadline_init_queue true h with
  | Ok (Some dd, h) =>
    {| rqs := list_to_map tbl; links := h; hash := replicate 64 []; queue := set_nr_sorted 0 sample_queue;
       elevator_data := dd; jiffies := 1000; kblockd := 0; ended := []; irqs := [] |}
  | _ => sample_world (DeadlineData (None, None) ∅ (None, None) 0 0 0 (0, 0) 0 0 0 ∅) [] [] []
  end.
Fixpoint add_all (l : list rqid) : ST dworld unit :=
  match l with [] => mret tt | r :: l => deadline_add_request r;; add_all l end.
Definition run_to {A} (m : ST dworld A) w : dworld := match m w with Ok (_, w') => w' | Err _ => w end.

Definition deadline_sample : dworld :=
  run_to (add_all [Rq 1; Rq 2; Rq 3; Rq 4])
    (deadline_start [(Rq 1, sample_rq 0 80 8); (Rq 2, sample_rq 1 200 8); (Rq 3, sample_rq 0 16 8); (Rq 4, sample_rq 0 48 8)]).
Definition sample_reads : tree rqid := Node RB_BLACK (Node RB_RED Leaf (Rq 3) Leaf) (Rq 4) (Node RB_RED Leaf (Rq 1) Leaf).
Definition sample_writes : tree rqid := Node RB_BLACK Leaf (Rq 2) Leaf.

Lemma sample_held : held deadline_sample [] (both [Rq 1; Rq 3; Rq 4] [Rq 2]) (λ _, []) (both sample_reads sample_writes).
Proof. apply held_test_sound. vm_compute. reflexivity. Qed.
Lemma sample_sorted : dl_sorted deadline_sample (both sample_reads sample_writes).
Proof. apply sorted_test_sound. vm_compute. reflexivity. Qed.

(** ** The choice *)

(** C4: A dispatch takes exactly the request the specification [deadline_pick]
    names: while a batch lasts the next one in sector order, otherwise from the
    reads, or from the writes when there are no reads or the writes have waited
    [writes_starved] times, the oldest request if it has expired or no next one
    is known, and the next one in sector order otherwise.  It is moved to the end of the
    dispatch queue, everything else stays, and the counters of the batch and of
    the waiting writes are kept; with no request held nothing happens. *)
Theorem deadline_dispatch_picks force w ds F T : held w ds F (λ _, []) T → dl_sorted w T →
  match deadline_pick w F with
  | None => deadline_dispatch_requests force w = Ok (0, w) ∧ F READ = [] ∧ F WRITE = []
  | Some (new, d, r) => ∃ w', deadline_dispatch_requests force w = Ok (1, w') ∧ is_dir d ∧
      takes w w' ds F T d r ∧ batching (elevator_data w') = batching_after new (elevator_data w) ∧
      starved (elevator_data w') = starved_after new (elevator_data w) F
  end.
Proof. apply dispatch_ok. Qed.

Lemma deadline_dispatch_picks_witness : ∃ w',
  deadline_dispatch_requests 0 deadline_sample = Ok (1, w') ∧
  takes deadline_sample w' [] (both [Rq 1; Rq 3; Rq 4] [Rq 2]) (both sample_reads sample_writes) READ (Rq 1) ∧
  starved (elevator_data w') = 1.
Proof.
  pose proof (deadline_dispatch_picks 0 deadline_sample [] _ _ sample_held sample_sorted) as Hp.
  assert (deadline_pick deadline_sample (both [Rq 1; Rq 3; Rq 4] [Rq 2]) = Some (true, READ, Rq 1)) as E by (vm_compute; reflexivity).
  rewrite E in Hp. destruct Hp as (w' & E1 & _ & Ht & _ & Hs). exists w'. split; [exact E1|]. split; [exact Ht|].
  rewrite Hs. vm_compute. reflexivity.
Defined.

(** ** A batch goes up in sectors *)
Fixpoint dispatch_times (k : nat) (force : Z) : ST dworld unit :=
  match k with O => mret tt | S k => deadline_dispatch_requests force;; dispatch_times k force end.

Lemma split_unique (m1 m2 n1 n2 : list rqid) r : NoDup (m1 ++ r :: m2) → m1 ++ r :: m2 = n1 ++ r :: n2 → m1 = n1 ∧ m2 = n2.
Proof.
  revert n1. induction m1 as [|x m1 IH]; intros [|y n1] Hnd E; injection E as; simplify_eq/=; [done| | |].
  - apply NoDup_cons in Hnd as [Hn _]. lelem.
  - apply NoDup_cons in Hnd as [Hn _]. lelem.
  - apply NoDup_cons in Hnd as [_ Hnd]. by edestruct (IH n1 Hnd) as [-> ->].
Qed.

Lemma takes_split w w' ds F T d r m1 m2 : is_dir d → dl_rep w F (λ _, []) T → takes w w' ds F T d r →
  inorder (T d) = m1 ++ r :: m2 →
  ∃ F' T', held w' (ds ++ [r]) F' (λ _, []) T' ∧ dl_sorted w' T' ∧ inorder (T' d) = m1 ++ m2 ∧ dispatched w w' d r m2.
Proof.
  intros Hd Hrep (l1 & l2 & n1 & n2 & t & HF & HT & Hi & Hh & Hs & Hdp) HT'.
  assert (NoDup (inorder (T d))) as Hnd.
  { pose proof (Hrep d Hd) as [Hol _ _ _ Hp _ _ _]. simpl in Hp. rewrite Hp. by apply (one_list_nodup _ _ _ Hol). }
  rewrite HT in Hnd, HT'. destruct (split_unique _ _ _ _ _ Hnd HT') as [-> ->].
  eexists _, _. split_and!; [done|done|by rewrite with_dir_eq|done].
Qed.

Lemma batch_goes_on k force w ds F T d m1 m2 : held w ds F (λ _, []) T → dl_sorted w T → is_dir d →
  inorder (T d) = m1 ++ m2 → dd_next_rq (elevator_data w) = only_next d (head m2) → (k ≤ length m2)%nat →
  0 ≤ batching (elevator_data w) → batching (elevator_data w) + Z.of_nat k ≤ u32 (fifo_batch (elevator_data w)) →
  ∃ w' F' T', dispatch_times k force w = Ok (tt, w') ∧ held w' (ds ++ take k m2) F' (λ _, []) T' ∧ dl_sorted w' T' ∧
    inorder (T' d) = m1 ++ drop k m2 ∧ batching (elevator_data w') = batching (elevator_data w) + Z.of_nat k ∧
    rqs w' = rqs w.
Proof.
  intros Hh Hs Hd. revert w ds F T m2 Hh Hs. induction k as [|k IH]; intros w ds F T m2 Hh Hs HT Hn Hk Hb0 Hb.
  - exists w, F, T. rewrite take_0, drop_0, app_nil_r, Z.add_0_r. done.
  - destruct m2 as [|r m2]; simpl in Hk; [lia|]. pose proof (dispatch_ok force w ds F T Hh Hs) as Hp.
    assert (deadline_pick w F = Some (false, d, r)) as E.
    { unfold deadline_pick, batch_next. rewrite (proj2 (Z.ltb_lt _ _)), Hn by lia. by destruct Hd as [->| ->]. }
    rewrite E in Hp. destruct Hp as (w1 & E1 & _ & Ht & Hb1 & _). unfold batching_after in Hb1.
    destruct (takes_split _ _ _ _ _ _ _ m1 m2 Hd (held_rep _ _ _ _ _ Hh) Ht HT) as (F1 & T1 & Hh1 & Hs1 & HT1 & Hdp).
    assert (u32 (batching (elevator_data w) + 1) = batching (elevator_data w) + 1) as Hu.
    { apply u32_id. pose proof (u32_range (fifo_batch (elevator_data w))). lia. }
    rewrite Hu in Hb1.
    destruct (IH w1 (ds ++ [r]) F1 T1 m2) as (w' & F' & T' & E' & Hh' & Hs' & HT' & Hb' & Hr');
      [done|done|done|apply Hdp|lia|lia|rewrite (dp_batch _ _ _ _ _ Hdp); lia|].
    exists w', F', T'. cbn [dispatch_times]. st_step E1. rewrite <-app_assoc in Hh'. split_and!; try done; [lia|].
    by rewrite Hr', (dp_rqs _ _ _ _ _ Hdp).
Qed.

(** C16: A batch is one sweep of the disk: when a new batch starts at the request
    [r], [k] more dispatches, as long as the batch allows them, take exactly the
    [k] requests of that direction that follow [r] in sector order, one after the
    other and none left out, and leave the others in place. *)
Theorem deadline_batch_sweeps k force w ds F T d r m1 m2 : held w ds F (λ _, []) T → dl_sorted w T →
  deadline_pick w F = Some (true, d, r) → inorder (T d) = m1 ++ r :: m2 → (k ≤ length m2)%nat →
  1 + Z.of_nat k ≤ u32 (fifo_batch (elevator_data w)) →
  ∃ w' F' T', dispatch_times (S k) force w = Ok (tt, w') ∧ held w' (ds ++ r :: take k m2) F' (λ _, []) T' ∧
    dl_sorted w' T' ∧ inorder (T' d) = m1 ++ drop k m2 ∧ by_sector (rqs w) (r :: take k m2) ∧
    batching (elevator_data w') = 1 + Z.of_nat k.
Proof.
  intros Hh Hs Hp HT Hk Hb. pose proof (dispatch_ok force w ds F T Hh Hs) as Hok. rewrite Hp in Hok.
  destruct Hok as (w1 & E1 & Hd & Ht & Hb1 & _). unfold batching_after in Hb1.
  destruct (takes_split _ _ _ _ _ _ _ m1 m2 Hd (held_rep _ _ _ _ _ Hh) Ht HT) as (F1 & T1 & Hh1 & Hs1 & HT1 & Hdp).
  destruct (batch_goes_on k force w1 (ds ++ [r]) F1 T1 d m1 m2) as (w' & F' & T' & E' & Hh' & Hs' & HT' & Hb' & _);
    [done..|apply Hdp|done|lia|rewrite (dp_batch _ _ _ _ _ Hdp); lia|].
  exists w', F', T'. cbn [dispatch_times]. st_step E1. rewrite <-app_assoc in Hh'. split_and!; try done; [|lia].
  specialize (Hs d Hd). rewrite HT in Hs. apply by_sector_app in Hs as (_ & Hs & _).
  rewrite <-(take_drop k m2), app_comm_cons in Hs. by apply by_sector_app in Hs as (? & _ & _).
Qed.

Definition sweep_sample : dworld :=
  run_to (add_all [Rq 3; Rq 1; Rq 2; Rq 4])
    (deadline_start [(Rq 1, sample_rq 0 80 8); (Rq 2, sample_rq 1 200 8); (Rq 3, sample_rq 0 16 8); (Rq 4, sample_rq 0 48 8)]).
Lemma deadline_batch_sweeps_witness : ∃ w' F' T',
  dispatch_times 3 0 sweep_sample = Ok (tt, w') ∧ held w' [Rq 3; Rq 4; Rq 1] F' (λ _, []) T' ∧ inorder (T' READ) = [].
Proof.
  destruct (deadline_batch_sweeps 2 0 sweep_sample [] (both [Rq 3; Rq 1; Rq 4] [Rq 2]) (both sample_reads sample_writes)
    READ (Rq 3) [] [Rq 4; Rq 1]) as (w' & F' & T' & E & Hh & _ & Hi & _).
  - apply held_test_sound. vm_compute. reflexivity.
  - apply sorted_test_sound. vm_compute. reflexivity.
  - vm_compute. reflexivity.
  - reflexivity.
  - simpl. lia.
  - vm_compute. discriminate.
  - exists w', F', T'. split; [exact E|]. split; [exact Hh|exact Hi].
Defined.

(** ** Writes are not starved *)

(** From [w] to [w'] there were [n] dispatches, each of which took a read while a
    write was waiting; anything else that happened kept the counters.  Adding
    requests and merging are such steps ([deadline_add_ok], [merged_request_ok],
    [merged_requests_ok]). *)
Inductive reads_only : dworld → nat → dworld → Prop :=
| reads_none w : reads_only w 0 w
| reads_other w w1 n w' : same_counters (elevator_data w) (elevator_data w1) → reads_only w1 n w' → reads_only w n w'
| reads_dispatch w w1 n w' force ds F T r rq :
    held w ds F (λ _, []) T → dl_sorted w T → F WRITE ≠ [] →
    deadline_dispatch_requests force w = Ok (1, w1) → dispatch_rep w1 (ds ++ [r]) →
    rqs w !! r = Some rq → rq_data_dir rq = READ →
    reads_only w1 n w' → reads_only w (S n) w'.

(** How many more reads can come before the waiting writes. *)
Definition reads_left (dd : deadline_data) : Z :=
  Z.max 0 (u32 (writes_starved dd) - starved dd) * Z.max 1 (u32 (fifo_batch dd)) +
  Z.max 0 (u32 (fifo_batch dd) - batching dd).

Definition counters_ok (dd : deadline_data) : Prop := 0 ≤ batching dd ∧ 0 ≤ starved dd.

Lemma read_dispatch_costs force w ds F T w1 r rq : held w ds F (λ _, []) T → dl_sorted w T → F WRITE ≠ [] →
  deadline_dispatch_requests force w = Ok (1, w1) → dispatch_rep w1 (ds ++ [r]) →
  rqs w !! r = Some rq → rq_data_dir rq = READ → counters_ok (elevator_data w) →
  reads_left (elevator_data w1) + 1 ≤ reads_left (elevator_data w) ∧ counters_ok (elevator_data w1) ∧
  fifo_batch (elevator_data w1) = fifo_batch (elevator_data w) ∧
  writes_starved (elevator_data w1) = writes_starved (elevator_data w).
Proof.
  intros Hh Hs Hw E Hds Hr Hdir [Hb0 Hs0]. pose proof (dispatch_ok force w ds F T Hh Hs) as Hp.
  destruct (deadline_pick w F) as [[[new d] r']|] eqn:Hpick; [|destruct Hp as [Hp _]; rewrite Hp in E; done].
  destruct Hp as (w2 & E2 & Hd & (l1 & l2 & m1 & m2 & t & HF & _ & _ & Hh2 & _ & Hdp) & Hb & Hst).
  rewrite E in E2. injection E2 as <-. destruct Hds as [Hl _]. destruct Hh2 as [[Hl2 _] _ _].
  pose proof (is_list_inj _ _ _ _ Hl Hl2) as Eq. rewrite !fmap_app in Eq. apply app_inv_head in Eq. injection Eq as <-.
  assert (d = READ) as ->.
  { rewrite <-Hdir. symmetry. apply (dr_dir _ _ _ _ _ (held_rep _ _ _ _ _ Hh d Hd) r); [rewrite HF; lelem|done]. }
  unfold reads_left, counters_ok. rewrite Hb, Hst, (dp_batch _ _ _ _ _ Hdp), (dp_writes _ _ _ _ _ Hdp).
  set (dd := elevator_data w) in *. pose proof (u32_range (fifo_batch dd)). pose proof (u32_range (writes_starved dd)).
  unfold deadline_pick in Hpick. fold dd in Hpick. unfold batching_after, starved_after. destruct (batch_next dd) as [[d y]|] eqn:Hbn.
  - injection Hpick as <- _ _. simpl. unfold batch_next in Hbn. destruct (Z.ltb_spec (batching dd) (u32 (fifo_batch dd))); [|done].
    rewrite (u32_id (batching dd + 1)) by lia. split_and!; [nia|lia|lia|done|done].
  - destruct (F (new_dir dd F)) as [|e l] eqn:HFd; [done|]. injection Hpick as <- Hnd _. simpl.
    unfold new_dir in Hnd. destruct (F READ) as [|e1 k1]; [done|]. destruct (F WRITE) as [|e2 k2]; [done|].
    unfold writes_due in *. destruct (Z.geb_spec (starved dd) (u32 (writes_starved dd))); [done|].
    rewrite (u32_id (starved dd + 1)) by lia. split_and!; [nia|lia|lia|done|done].
Qed.

Lemma reads_bounded w n w' : reads_only w n w' → counters_ok (elevator_data w) →
  Z.of_nat n ≤ reads_left (elevator_data w).
Proof.
  induction 1 as [w|w w1 n w' Hc _ IH|w w1 n w' force ds F T r rq Hh Hs Hw E Hds Hr Hdir _ IH]; intros Hok.
  - unfold reads_left. nia.
  - destruct Hc as [Ec Es _ Ef Ew _]. unfold reads_left, counters_ok in *. rewrite Ec, Es, Ef, Ew in IH. by apply IH.
  - destruct (read_dispatch_costs force w ds F T w1 r rq) as (Hc & Hok1 & _); [done..|]. specialize (IH Hok1). lia.
Qed.

(** C6: Reads cannot hold up writes for ever: whatever requests arrive or are
    merged in between, at most [(writes_starved + 1) * fifo_batch] dispatches in
    a row take a read while a write is waiting. *)
Theorem deadline_writes_not_starved w n w' : reads_only w n w' → counters_ok (elevator_data w) →
  Z.of_nat n ≤ (u32 (writes_starved (elevator_data w)) + 1) * Z.max 1 (u32 (fifo_batch (elevator_data w))).
Proof.
  intros Hrun Hok. pose proof (reads_bounded w n w' Hrun Hok) as Hn. destruct Hok as [Hb Hs]. unfold reads_left in Hn.
  pose proof (u32_range (fifo_batch (elevator_data w))). pose proof (u32_range (writes_starved (elevator_data w))). nia.
Qed.

Definition sample_second : dworld := run_to (deadline_dispatch_requests 0) deadline_sample.
Definition sample_third : dworld := run_to (deadline_dispatch_requests 0) sample_second.

Lemma deadline_writes_not_starved_witness : ∃ w', reads_only deadline_sample 2 w' ∧
  2 ≤ (u32 (writes_starved (elevator_data deadline_sample)) + 1) * Z.max 1 (u32 (fifo_batch (elevator_data deadline_sample))).
Proof.
  assert (reads_only deadline_sample 2 sample_third) as Hrun.
  { apply (reads_dispatch _ sample_second _ _ 0 [] (both [Rq 1; Rq 3; Rq 4] [Rq 2]) (both sample_reads sample_writes) (Rq 1) (sample_rq 0 80 8)).
    - exact sample_held.
    - exact sample_sorted.
    - discriminate.
    - vm_compute. reflexivity.
    - apply (bool_decide_eq_true_1 _). vm_compute. reflexivity.
    - vm_compute. reflexivity.
    - reflexivity.
    - apply (reads_dispatch _ sample_third _ _ 0 [Rq 1] (both [Rq 3; Rq 4] [Rq 2])
        (both (Node RB_BLACK (Node RB_RED Leaf (Rq 3) Leaf) (Rq 4) Leaf) sample_writes) (Rq 3) (sample_rq 0 16 8)).
      + apply held_test_sound. vm_compute. reflexivity.
      + apply sorted_test_sound. vm_compute. reflexivity.
      + discriminate.
      + vm_compute. reflexivity.
      + apply (bool_decide_eq_true_1 _). vm_compute. reflexivity.
      + vm_compute. reflexivity.
      + reflexivity.
      + apply reads_none. }
  exists sample_third. split; [exact Hrun|]. apply (deadline_writes_not_starved deadline_sample 2 sample_third Hrun).
  split; vm_compute; discriminate.
Defined.

(** ** Merging *)

(** C18: A request that grew at the front, so that its first sector changed, is put
    back in its place: afterwards the trees are balanced and sorted again and
    hold the same requests, except that a request that starts at the new first
    sector already is sent on to the driver; nothing else changes. *)
Theorem deadline_front_merge_repositions w ds F T r rq m1 m2 : held w ds F (λ _, []) T → rqs w !! r = Some rq →
  inorder (T (rq_data_dir rq)) = m1 ++ r :: m2 → by_sector (rqs w) (m1 ++ m2) →
  (∀ d, is_dir d → d ≠ rq_data_dir rq → by_sector (rqs w) (inorder (T d))) →
  ∃ moved w' F' T', deadline_merged_request r ELEVATOR_FRONT_MERGE w = Ok (tt, w') ∧
    held w' (ds ++ moved) F' (λ _, []) T' ∧ dl_sorted w' T' ∧ alias_of w (rq_data_dir rq) rq F moved F' ∧ r ∉ moved ∧
    sent w w' moved [].
Proof. intros. by eapply merged_request_ok. Qed.

(** The request 1 grew from sector 80 down to sector 8. *)
Definition grown_sample : dworld := set_rqs (<[Rq 1 := sample_rq 0 8 80]> (rqs deadline_sample)) deadline_sample.
Lemma deadline_front_merge_repositions_witness : ∃ moved w' F' T',
  deadline_merged_request (Rq 1) ELEVATOR_FRONT_MERGE grown_sample = Ok (tt, w') ∧ held w' ([] ++ moved) F' (λ _, []) T' ∧
  dl_sorted w' T'.
Proof.
  destruct (deadline_front_merge_repositions grown_sample [] (both [Rq 1; Rq 3; Rq 4] [Rq 2]) (both sample_reads sample_writes)
    (Rq 1) (sample_rq 0 8 80) [Rq 3; Rq 4] []) as (moved & w' & F' & T' & E & Hh & Hs & _).
  - apply held_test_sound. vm_compute. reflexivity.
  - vm_compute. reflexivity.
  - vm_compute. reflexivity.
  - apply by_sector_intro. vm_compute. reflexivity.
  - intros d [->| ->] Hd; [by destruct Hd|]. apply by_sector_intro. vm_compute. reflexivity.
  - exists moved, w', F', T'. split; [exact E|]. split; [exact Hh|exact Hs].
Defined.

(** C17: When one request absorbs the next one, that one is forgotten, and the one
    that stays takes over the earlier of the two expiry times and, if that is the
    other's, its place in the order of arrival; the trees stay balanced and
    sorted, and no counter changes. *)
Theorem deadline_merge_inherits_deadline w ds F T d req next tr tn : held w ds F (λ _, []) T → dl_sorted w T → is_dir d →
  req ∈ F d → next ∈ F d → req ≠ next →
  fifo_times (elevator_data w) !! req = Some tr → fifo_times (elevator_data w) !! next = Some tn →
  ∃ w' F' T', deadline_merged_requests req next w = Ok (tt, w') ∧ held w' ds F' (λ _, []) T' ∧ dl_sorted w' T' ∧
    F' d = merged_fifo (time_before tn tr) req next (F d) ∧ (∀ d', d' ≠ d → F' d' = F d') ∧
    inorder (T' d) = filter (λ y, y ≠ next) (inorder (T d)) ∧
    fifo_times (elevator_data w') !! req = Some (if time_before tn tr then tn else tr) ∧
    rqs w' = rqs w ∧ queue w' = queue w ∧ hash w' = hash w ∧ same_counters (elevator_data w) (elevator_data w').
Proof. apply merged_requests_ok. Qed.

(** The request 4 arrived later than 1, at sector 48 to its 80. *)
Definition older_sample : dworld :=
  set_elevator_data (set_fifo_times (<[Rq 1 := 1100]> (fifo_times (elevator_data deadline_sample)))
    (elevator_data deadline_sample)) deadline_sample.
Lemma deadline_merge_inherits_deadline_witness : ∃ w' F' T',
  deadline_merged_requests (Rq 4) (Rq 1) older_sample = Ok (tt, w') ∧ held w' [] F' (λ _, []) T' ∧
  F' READ = [Rq 4; Rq 3] ∧ fifo_times (elevator_data w') !! Rq 4 = Some 1100.
Proof.
  destruct (deadline_merge_inherits_deadline older_sample [] (both [Rq 1; Rq 3; Rq 4] [Rq 2]) (both sample_reads sample_writes)
    READ (Rq 4) (Rq 1) 1125 1100) as (w' & F' & T' & E & Hh & _ & HF & _ & _ & Ht & _).
  - apply held_test_sound. vm_compute. reflexivity.
  - apply sorted_test_sound. vm_compute. reflexivity.
  - by left.
  - apply (bool_decide_eq_true_1 _). vm_compute. reflexivity.
  - apply (bool_decide_eq_true_1 _). vm_compute. reflexivity.
  - discriminate.
  - vm_compute. reflexivity.
  - vm_compute. reflexivity.
  - exists w', F', T'. split; [exact E|]. split; [exact Hh|]. split; [exact HF|exact Ht].
Defined.

(** ** Batches of one request *)

(** With [fifo_batch] 1 a dispatch still prefers the next request in sector order
    to the oldest one: the request 4 is served before 1, which arrived first. *)
Example fifo_batch_one_not_arrival_order :
  let w := set_elevator_data (set_fifo_batch 1 (elevator_data sweep_sample)) sweep_sample in
  deadline_rep w [Rq 3; Rq 1; Rq 4; Rq 2] ∧
  ∃ w', dispatch_times 2 0 w = Ok (tt, w') ∧ dispatch_rep w' [Rq 3; Rq 4].
Proof.
  intros w. split.
  - exists (both [Rq 3; Rq 1; Rq 4] [Rq 2]), (both sample_reads sample_writes). split_and!; [| |done].
    + apply held_rep with (ds := []), held_test_sound. vm_compute. reflexivity.
    + apply sorted_test_sound. vm_compute. reflexivity.
  - exists (run_to (dispatch_times 2 0) w). split; [vm_compute; reflexivity|].
    apply (bool_decide_eq_true_1 _). vm_compute. reflexivity.
Qed.
