(* ===== verification/DeadlineSysfs.v ===== *)
(** * The tunables of the deadline scheduler in sysfs ([block/deadline-iosched.c])

    The attributes under [/sys/block/<disk>/queue/iosched]: [read_expire],
    [write_expire], [writes_starved], [front_merges] and [fifo_batch], with the
    dispatch through [elv_attr_show] and [elv_attr_store] of [elevator.c].  Text
    is a list of bytes, as in [Sysfs]. *)

From S2P Require Import Prelude KList Request Elevator Settings Sysfs Deadline.

Local Open Scope Z_scope.
Implicit Types (dd : deadline_data) (page : list Z).

Definition INT_MIN : Z := - 2 ^ 31.

Definition jiffies_to_msecs (j : Z) : Z := u32 (u64 (MSEC_PER_SEC / HZ * j)).

(** The result and the rest of the text. *)
Definition simple_strtol (cp : list Z) (base : Z) : Z * list Z :=
  if char_at cp 0 =? 45 then
    let '(v, rest) := simple_strtoul (drop 1 cp) base in (s64 (u64 (- v)), rest)
  else let '(v, rest) := simple_strtoul cp base in (s64 v, rest).

(** [sprintf(page, "%d\n", var)] *)
Definition deadline_var_show (var : Z) : list Z :=
  (if var <? 0 then [45] else []) ++ digits 20 (Z.abs var) [] ++ [10].
(** The number, an [int], and the return value. *)
Definition deadline_var_store page (count : Z) : Z * Z := (s32 (fst (simple_strtol page 10)), count).

Definition SHOW_FUNCTION (__VAR : deadline_data → Z) (__CONV : bool) dd : list Z :=
  let __data := __VAR dd in
  let __data := if __CONV then s32 (jiffies_to_msecs (u64 __data)) else __data in
  deadline_var_show __data.

Definition deadline_read_expire_show := SHOW_FUNCTION (λ dd, at_dir READ (fifo_expire dd)) true.
Definition deadline_write_expire_show := SHOW_FUNCTION (λ dd, at_dir WRITE (fifo_expire dd)) true.
Definition deadline_writes_starved_show := SHOW_FUNCTION writes_starved false.
Definition deadline_front_merges_show := SHOW_FUNCTION front_merges false.
Definition deadline_fifo_batch_show := SHOW_FUNCTION fifo_batch false.

Definition STORE_FUNCTION (__PTR : Z → deadline_data → deadline_data) (MIN MAX : Z) (__CONV : bool)
    dd page (count : Z) : Z * deadline_data :=
  let '(__data, ret) := deadline_var_store page count in
  let __data := if __data <? MIN then MIN else if __data >? MAX then MAX else __data in
  (s32 ret, __PTR (if __CONV then s32 (msecs_to_jiffies (u32 __data)) else __data) dd).

Definition deadline_read_expire_store :=
  STORE_FUNCTION (λ v dd, set_fifo_expire (set_at_dir READ v (fifo_expire dd)) dd) 0 INT_MAX true.
Definition deadline_write_expire_store :=
  STORE_FUNCTION (λ v dd, set_fifo_expire (set_at_dir WRITE v (fifo_expire dd)) dd) 0 INT_MAX true.
Definition deadline_writes_starved_store := STORE_FUNCTION set_writes_starved INT_MIN INT_MAX false.
Definition deadline_front_merges_store := STORE_FUNCTION set_front_merges 0 1 false.
Definition deadline_fifo_batch_store := STORE_FUNCTION set_fifo_batch 0 INT_MAX false.

Record elv_fs_entry (D : Type) := ElvFsEntry {
  elv_attr_name : string;
  elv_show : option (D → list Z);
  elv_store : option (D → list Z → Z → Z * D)
}.
Arguments ElvFsEntry {D} _ _ _.
Arguments elv_attr_name {D} _.
Arguments elv_show {D} _.
Arguments elv_store {D} _.

Definition deadline_attrs : list (elv_fs_entry deadline_data) :=
  [ ElvFsEntry "read_expire" (Some deadline_read_expire_show) (Some deadline_read_expire_store);
    ElvFsEntry "write_expire" (Some deadline_write_expire_show) (Some deadline_write_expire_store);
    ElvFsEntry "writes_starved" (Some deadline_writes_starved_show) (Some deadline_writes_starved_store);
    ElvFsEntry "front_merges" (Some deadline_front_merges_show) (Some deadline_front_merges_store);
    ElvFsEntry "fifo_batch" (Some deadline_fifo_batch_show) (Some deadline_fifo_batch_store) ].

(** [ops]: whether the elevator still has its operations ([e->ops]).  An error
    code, or the text shown. *)
Definition elv_attr_show {D} (ops : bool) (entry : elv_fs_entry D) (e : D) : Z + list Z :=
  match elv_show entry with
  | None => inl (- EIO)
  | Some f => if ops then inr (f e) else inl (- ENOENT)
  end.
Definition elv_attr_store {D} (ops : bool) (entry : elv_fs_entry D) (e : D) page (length : Z) : Z * D :=
  match elv_store entry with
  | None => (- EIO, e)
  | Some f => if ops then f e page length else (- ENOENT, e)
  end.

(** ** Parsing inverts printing *)
Lemma strtol_show v : INT_MIN ≤ v ≤ INT_MAX → simple_strtol (deadline_var_show v) 10 = (v, [10]).
Proof.
  unfold INT_MIN, INT_MAX. intros Hv. unfold simple_strtol, deadline_var_show.
  assert (simple_strtoul (digits 20 (Z.abs v) [] ++ [10]) 10 = (Z.abs v, [10])) as E by (apply (strtoul_show (Z.abs v) []); lia).
  destruct (Z.ltb_spec v 0) as [Hn|Hn].
  - change (char_at _ 0 =? 45) with true. cbv iota. change (drop 1 ([45] ++ ?l)) with l. rewrite E.
    f_equal. rewrite Z.abs_neq, Z.opp_involutive by lia. unfold s64, u64. rewrite Zplus_mod_idemp_l, Z.mod_small; lia.
  - rewrite app_nil_l. destruct (Z.eqb_spec (char_at (digits 20 (Z.abs v) [] ++ [10]) 0) 45) as [Hc|_].
    + exfalso. destruct (digits 20 (Z.abs v) [] ++ [10]) as [|c l]; [done|]. cbn in Hc. subst c. by injection E.
    + rewrite E, s64_id by lia. f_equal. lia.
Qed.

Lemma deadline_var_store_show v count : INT_MIN ≤ v ≤ INT_MAX → deadline_var_store (deadline_var_show v) count = (v, count).
Proof.
  intros Hv. unfold deadline_var_store. rewrite (strtol_show v Hv). simpl. f_equal.
  apply s32_id. unfold INT_MIN, INT_MAX in *. lia.
Qed.

(** ** The settings *)

(** The ranges the [store] methods leave: expiry times of at most [2^29] ticks. *)
Record settings_ok dd : Prop := {
  so_read : 0 ≤ at_dir READ (fifo_expire dd) ≤ 2 ^ 29;
  so_write : 0 ≤ at_dir WRITE (fifo_expire dd) ≤ 2 ^ 29;
  so_starved : INT_MIN ≤ writes_starved dd ≤ INT_MAX;
  so_front : 0 ≤ front_merges dd ≤ 1;
  so_batch : 0 ≤ fifo_batch dd ≤ INT_MAX
}.

Lemma clamp_range MIN MAX x : MIN ≤ MAX →
  MIN ≤ (if x <? MIN then MIN else if x >? MAX then MAX else x) ≤ MAX.
Proof. intros. destruct (Z.ltb_spec x MIN); [lia|]. destruct (Z.gtb_spec x MAX); lia. Qed.
Lemma clamp_id MIN MAX x : MIN ≤ x ≤ MAX → (if x <? MIN then MIN else if x >? MAX then MAX else x) = x.
Proof. intros. destruct (Z.ltb_spec x MIN); [lia|]. destruct (Z.gtb_spec x MAX); lia. Qed.

Lemma msecs_to_jiffies_int m : 0 ≤ m ≤ INT_MAX → s32 (msecs_to_jiffies (u32 m)) = (m + 3) / 4 ∧ 0 ≤ (m + 3) / 4 ≤ 2 ^ 29.
Proof.
  unfold INT_MAX. intros Hm. rewrite u32_id by lia. unfold msecs_to_jiffies.
  assert (s32 m = m) as -> by (apply s32_id; lia).
  destruct (Z.ltb_spec m 0); [lia|]. change (MSEC_PER_SEC / HZ) with 4. replace (m + 4 - 1) with (m + 3) by lia.
  assert (0 ≤ (m + 3) / 4 ≤ 2 ^ 29) by (split; [apply Z.div_pos; lia|apply Z.lt_succ_r, Z.div_lt_upper_bound; lia]).
  rewrite s32_id; lia.
Qed.
Lemma jiffies_to_msecs_int j : 0 ≤ j < 2 ^ 29 → s32 (jiffies_to_msecs (u64 j)) = 4 * j.
Proof.
  intros Hj. unfold jiffies_to_msecs. change (MSEC_PER_SEC / HZ) with 4. rewrite (u64_id j), u64_id, u32_id by lia.
  rewrite s32_id; lia.
Qed.

(** Reading a tunable and writing the text back changes nothing, and is
    accepted, as long as the expiry times are less than [2^29] ticks. *)
Theorem deadline_attrs_roundtrip dd i entry count : settings_ok dd →
  at_dir READ (fifo_expire dd) < 2 ^ 29 → at_dir WRITE (fifo_expire dd) < 2 ^ 29 → 0 ≤ count ≤ INT_MAX →
  deadline_attrs !! i = Some entry →
  ∃ text, elv_attr_show true entry dd = inr text ∧ elv_attr_store true entry dd text count = (count, dd).
Proof.
  intros [Hr Hw Hs Hf Hb] Hr' Hw' Hc. revert i entry. apply Forall_lookup. unfold INT_MIN, INT_MAX in *.
  assert (s32 count = count) as Ec by (apply s32_id; lia).
  assert (∀ j, 0 ≤ j < 2 ^ 29 → s32 (msecs_to_jiffies (u32 (4 * j))) = j) as Hj.
  { intros j Hj. destruct (msecs_to_jiffies_int (4 * j)) as [-> _]; [unfold INT_MAX; lia|].
    rewrite Z.add_comm, Z.mul_comm, Z.div_add by done. done. }
  repeat constructor; (eexists; split; [reflexivity|]); cbn -[deadline_var_store deadline_var_show at_dir set_at_dir];
    unfold deadline_read_expire_store, deadline_write_expire_store, deadline_writes_starved_store, deadline_front_merges_store,
      deadline_fifo_batch_store, deadline_read_expire_show, deadline_write_expire_show, deadline_writes_starved_show,
      deadline_front_merges_show, deadline_fifo_batch_show, STORE_FUNCTION, SHOW_FUNCTION;
    rewrite ?jiffies_to_msecs_int, deadline_var_store_show, clamp_id by (unfold INT_MIN, INT_MAX; lia);
    rewrite ?Hj by lia; rewrite Ec; f_equal; by destruct dd as [? ? ? ? ? ? []].
Qed.

(** What a [store] method may change. *)
Definition same_requests dd dd' : Prop :=
  sort_list dd' = sort_list dd ∧ rb_nodes dd' = rb_nodes dd ∧ dd_next_rq dd' = dd_next_rq dd ∧ batching dd' = batching dd ∧
  last_sector dd' = last_sector dd ∧ starved dd' = starved dd ∧ fifo_times dd' = fifo_times dd.

Lemma store_value page count MIN MAX : MIN ≤ MAX → ∃ v, MIN ≤ v ≤ MAX ∧
  ∀ PTR CONV dd, STORE_FUNCTION PTR MIN MAX CONV dd page count =
    (s32 count, PTR (if CONV then s32 (msecs_to_jiffies (u32 v)) else v) dd).
Proof. intros Hm. eexists. split; [apply (clamp_range MIN MAX (fst (deadline_var_store page count)) Hm)|]. intros. reflexivity. Qed.

(** Whatever text is written to a tunable, the settings stay in their ranges and
    the requests held are not touched. *)
Theorem deadline_store_safe dd page count i entry : settings_ok dd → deadline_attrs !! i = Some entry →
  ∃ dd', elv_attr_store true entry dd page count = (s32 count, dd') ∧ settings_ok dd' ∧ same_requests dd dd'.
Proof.
  intros [Hr Hw Hs Hf Hb]. revert i entry. apply Forall_lookup. unfold deadline_attrs.
  destruct (store_value page count 0 INT_MAX) as (v & Hv & E); [done|].
  destruct (store_value page count INT_MIN INT_MAX) as (v2 & Hv2 & E2); [done|].
  destruct (store_value page count 0 1) as (v3 & Hv3 & E3); [done|].
  destruct (msecs_to_jiffies_int v Hv) as [Ej Hj].
  repeat constructor; cbn [elv_attr_store elv_store];
    unfold deadline_read_expire_store, deadline_write_expire_store, deadline_writes_starved_store, deadline_front_merges_store,
      deadline_fifo_batch_store; rewrite ?E, ?E2, ?E3, ?Ej; (eexists; split; [reflexivity|]);
    (split; [split; assumption|by split_and!]).
Qed.

(** A new queue has its settings in range. *)
Lemma init_settings_ok h dd h' : deadline_init_queue true h = Ok (Some dd, h') → settings_ok dd.
Proof.
  unfold deadline_init_queue. simpl negb. cbv iota. intros (? & ? & _ & E)%st_bind_inv. apply st_bind_inv in E as (? & ? & _ & E).
  apply st_bind_inv in E as (? & ? & _ & E). apply st_bind_inv in E as (? & ? & _ & E). injection E as <- _. by split.
Qed.

(** ** Where the tunables mislead *)

(** [2147483647], which [read_expire] accepts, is shown as [-2147483648]; written
    back, that is 0. *)
Theorem read_expire_wraps dd : ∃ dd' dd'',
  deadline_read_expire_store dd [50; 49; 52; 55; 52; 56; 51; 54; 52; 55] 10 = (10, dd') ∧
  deadline_read_expire_show dd' = [45; 50; 49; 52; 55; 52; 56; 51; 54; 52; 56; 10] ∧
  deadline_read_expire_store dd' (deadline_read_expire_show dd') 12 = (12, dd'') ∧ at_dir READ (fifo_expire dd'') = 0.
Proof. eexists _, _. do 3 (split; [vm_compute; reflexivity|]). vm_compute. reflexivity. Qed.

(** A negative [writes_starved], which its [store] method accepts, lets reads pass
    writes for more than [2^31] batches. *)
Theorem negative_writes_starved dd v : INT_MIN ≤ v < 0 → ∃ dd',
  deadline_writes_starved_store dd (deadline_var_show v) 4 = (4, dd') ∧ writes_starved dd' = v ∧
  ∀ n, 0 ≤ n < 2 ^ 31 → (n >=? u32 (writes_starved dd')) = false.
Proof.
  unfold INT_MIN. intros Hv. unfold deadline_writes_starved_store, STORE_FUNCTION.
  rewrite deadline_var_store_show, clamp_id by (unfold INT_MIN, INT_MAX; lia). eexists. split; [reflexivity|]. split; [done|].
  intros n Hn. change (writes_starved _) with v. assert (u32 v = v + 2 ^ 32) as ->.
  { unfold u32. rewrite <-(Z.mod_add v 1 (2 ^ 32)) by lia. rewrite Z.mod_small; lia. }
  rewrite Z.geb_leb. apply Z.leb_gt. lia.
Qed.
