(* ===== verification/Slob.v ===== *)
(** * The SLOB allocator ([mm/slob.c])

    Memory is a heap of 16-bit cells ([SLOB_UNIT] is 2 bytes, [PAGE_SIZE] is
    4096, so [slobidx_t] is [s16]).  Addresses are counted in units: the byte
    address of unit [a] is [2 * a], and page [n] is the units [2048 n] to
    [2048 n + 2047].  [struct slob_page]s are kept in a table by page number,
    their [list] members in a heap of list nodes.  The page allocator is a
    parameter, a function from flags and order to a page; the configuration is
    without NUMA, so the [node] arguments are dropped.

    The proofs give a page the mathematical view of its free list, a list of
    disjoint blocks in address order, and show what allocation and freeing do
    to it. *)

From S2P Require Import Prelude KList.

Local Open Scope Z_scope.

(** ** Data *)
Definition PAGE_SIZE : Z := 4096.
Definition SLOB_UNIT : Z := 2.
Definition SLOB_UNITS (size : Z) : Z := (size + SLOB_UNIT - 1) / SLOB_UNIT.
(** Computed in [size_t]. *)
Definition UNSLOB_UNITS (size : Z) : Z := u64 (SLOB_UNIT * (size - SLOB_UNIT + 1)).

Record slob_page := SlobPage {
  units : Z;
  free : Z;
  PageSlab : bool;
  PageSlobFree : bool;
  private : Z
}.

(** Addresses of list nodes: the three list heads and the member [list] of each
    page. *)
Inductive saddr :=
| free_slob_small
| free_slob_medium
| free_slob_large
| sp_list (sp : Z).

#[global] Instance saddr_eq_dec : EqDecision saddr.
Proof. solve_decision. Defined.
#[global] Instance saddr_countable : Countable saddr.
Proof.
  refine (inj_countable'
    (λ a, match a with free_slob_small => inl 0%nat | free_slob_medium => inl 1%nat
                     | free_slob_large => inl 2%nat | sp_list sp => inr sp end)
    (λ s, match s with inl 0%nat => free_slob_small | inl 1%nat => free_slob_medium
                     | inl _ => free_slob_large | inr sp => sp_list sp end) _).
  by intros [].
Defined.

(** What the allocator hands back to the page allocator. *)
Inductive release := FreePages (b order : Z) | PutPage (sp : Z).

Record slob := Slob {
  mem : gmap Z Z;
  pages : gmap Z slob_page;
  slists : gmap saddr (list_head saddr);
  pages_alloc : Z;
  released : list release
}.

Definition set_mem (v : gmap Z Z) (s : slob) : slob :=
  Slob v (pages s) (slists s) (pages_alloc s) (released s).
Definition set_pages (v : gmap Z slob_page) (s : slob) : slob :=
  Slob (mem s) v (slists s) (pages_alloc s) (released s).
Definition set_slists (v : gmap saddr (list_head saddr)) (s : slob) : slob :=
  Slob (mem s) (pages s) v (pages_alloc s) (released s).
Definition set_pages_alloc (v : Z) (s : slob) : slob :=
  Slob (mem s) (pages s) (slists s) v (released s).
Definition set_released (v : list release) (s : slob) : slob :=
  Slob (mem s) (pages s) (slists s) (pages_alloc s) v.

Definition set_units (v : Z) (p : slob_page) : slob_page :=
  SlobPage v (free p) (PageSlab p) (PageSlobFree p) (private p).
Definition set_free (v : Z) (p : slob_page) : slob_page :=
  SlobPage (units p) v (PageSlab p) (PageSlobFree p) (private p).
Definition set_PageSlab (v : bool) (p : slob_page) : slob_page :=
  SlobPage (units p) (free p) v (PageSlobFree p) (private p).
Definition set_PageSlobFree (v : bool) (p : slob_page) : slob_page :=
  SlobPage (units p) (free p) (PageSlab p) v (private p).
Definition set_private (v : Z) (p : slob_page) : slob_page :=
  SlobPage (units p) (free p) (PageSlab p) (PageSlobFree p) v.

(** Loads and stores of [s->units], and accesses to [struct slob_page]. *)
Definition load (a : Z) : ST slob Z := λ s,
  match mem s !! a with Some v => Ok (v, s) | None => Err OOPS end.
Definition store (a v : Z) : ST slob unit := λ s,
  match mem s !! a with
  | Some _ => Ok (tt, set_mem (<[a := s16 v]> (mem s)) s)
  | None => Err OOPS
  end.
Definition sp_get (sp : Z) : ST slob slob_page := λ s,
  match pages s !! sp with Some p => Ok (p, s) | None => Err OOPS end.
Definition sp_upd (sp : Z) (f : slob_page → slob_page) : ST slob unit := λ s,
  match pages s !! sp with
  | Some p => Ok (tt, set_pages (<[sp := f p]> (pages s)) s)
  | None => Err OOPS
  end.
Definition on_slists {X} (m : ST (gmap saddr (list_head saddr)) X) : ST slob X :=
  zoom slists set_slists m.

(** [addr & PAGE_MASK] for the address of unit [a], in units. *)
Definition page_base (a : Z) : Z := a / SLOB_UNITS PAGE_SIZE * SLOB_UNITS PAGE_SIZE.
(** [slob_page(addr)], [virt_to_page]: the page number. *)
Definition virt_to_page (a : Z) : Z := a / SLOB_UNITS PAGE_SIZE.

(** [ALIGN((unsigned long)cur, align)] as a [slob_t] pointer. *)
Definition ALIGN (x a : Z) : Z := u64 (Z.land (x + (a - 1)) (Z.lnot (a - 1))).
Definition align_slob (cur align : Z) : Z := ALIGN (2 * cur) align / 2.

(** ** Free blocks *)
Definition set_slob (s size next : Z) : ST slob unit :=
  let offset := s16 (next - page_base s) in
  if 1 <? size then
    store s size;;
    store (s + 1) offset
  else store s (- offset).

Definition slob_units (s : Z) : ST slob Z :=
  u ← load s;
  if 0 <? u then mret u else mret 1.

Definition slob_next (s : Z) : ST slob Z :=
  u ← load s;
  next ← (if u <? 0 then mret (s16 (- u)) else load (s + 1));
  mret (page_base s + next).

Definition slob_last (s : Z) : ST slob bool :=
  n ← slob_next s;
  mret (n mod SLOB_UNITS PAGE_SIZE =? 0).

(** ** Page flags and lists *)
Definition set_slob_page_free (sp : Z) (slob_list : saddr) : ST slob unit :=
  on_slists (list_add (Ptr (sp_list sp)) (Ptr slob_list));;
  sp_upd sp (set_PageSlobFree true).

Definition clear_slob_page_free (sp : Z) : ST slob unit :=
  on_slists (list_del (Ptr (sp_list sp)));;
  sp_upd sp (set_PageSlobFree false).

(** ** Searching and carving *)

(** [struct best_block_slob] *)
Record best_block_slob := BestBlock {
  object_size : Z;
  block_size : Z;
  b_prev : option Z;
  b_cur : option Z;
  b_next : option Z;
  b_page : option Z
}.

(** The loop of [find_best_fit_block]. *)
Fixpoint find_best_loop (fuel : nat) (sp units align : Z) (prev : option Z) (cur : Z)
    (best : best_block_slob) : ST slob best_block_slob :=
  match fuel with
  | O => raise HANG
  | S fuel =>
    avail ← slob_units cur;
    let delta := if align =? 0 then 0 else align_slob cur align - cur in
    best' ←
      (if avail >=? units + delta then
         next ← slob_next cur;
         if avail =? units + delta then
           mret (BestBlock units avail prev (Some cur) (Some next) (Some sp))
         else if avail - (units + delta) <? block_size best - object_size best then
           mret (BestBlock units avail prev (Some cur) (Some next) (Some sp))
         else mret best
       else mret best);
    last ← slob_last cur;
    if (last : bool) then mret best' else
    n ← slob_next cur;
    find_best_loop fuel sp units align (Some cur) n best'
  end.

(** A page has at most [SLOB_UNITS PAGE_SIZE] free blocks. *)
Definition slob_fuel : nat := Z.to_nat (SLOB_UNITS PAGE_SIZE).

Definition find_best_fit_block (sp : Z) (best : best_block_slob) (size align : Z)
    : ST slob best_block_slob :=
  p ← sp_get sp;
  find_best_loop slob_fuel sp (SLOB_UNITS size) align None (free p) best.

(** Make the block before a position (or the page, at the front) point to [e]. *)
Definition relink (sp : Z) (prev : option Z) (e : Z) : ST slob unit :=
  match prev with
  | Some prev => pu ← slob_units prev; set_slob prev pu e
  | None => sp_upd sp (set_free e)
  end.

(** Taking [units] units from the front of the block [cur], whose successor is
    [next], off the free list: unlink it or leave the rest. *)
Definition unlink_front (sp : Z) (prev : option Z) (cur avail units next : Z) : ST slob unit :=
  if avail =? units then relink sp prev next
  else relink sp prev (cur + units);; set_slob (cur + units) (avail - units) next.

(** Taking [units] units out of the free block [cur] of [avail] units, [delta]
    units into the block: the statements [slob_page_alloc] and [slob_alloc]
    share.  The result is the address of the allocated block. *)
Definition slob_carve (sp : Z) (prev : option Z) (cur avail delta aligned units : Z)
    : ST slob Z :=
  '(prev, cur, avail) ←
    (if negb (delta =? 0) then
       next ← slob_next cur;
       set_slob aligned (avail - delta) next;;
       set_slob cur delta aligned;;
       avail' ← slob_units aligned;
       mret (Some cur, aligned, avail')
     else mret (prev, cur, avail));
  next ← slob_next cur;
  unlink_front sp prev cur avail units next;;
  sp_upd sp (λ p, set_units (s16 (Slob.units p - units)) p);;
  p ← sp_get sp;
  when (Slob.units p =? 0) (clear_slob_page_free sp);;
  mret cur.

(** The loop of [slob_page_alloc]: first fit. *)
Fixpoint page_alloc_loop (fuel : nat) (sp units align : Z) (prev : option Z) (cur : Z)
    : ST slob (option Z) :=
  match fuel with
  | O => raise HANG
  | S fuel =>
    avail ← slob_units cur;
    let aligned := align_slob cur align in
    let delta := if align =? 0 then 0 else aligned - cur in
    if avail >=? units + delta then
      b ← slob_carve sp prev cur avail delta aligned units;
      mret (Some b)
    else
      last ← slob_last cur;
      if (last : bool) then mret None else
      n ← slob_next cur;
      page_alloc_loop fuel sp units align (Some cur) n
  end.

Definition slob_page_alloc (sp size align : Z) : ST slob (option Z) :=
  p ← sp_get sp;
  page_alloc_loop slob_fuel sp (SLOB_UNITS size) align None (free p).

(** ** Allocation *)
Definition GFP_ZERO : Z := 0x8000.
Definition GFP_COMP : Z := 0x4000.

(** [memset(b, 0, size)] on the bytes of the cells. *)
Fixpoint clear_cells (n : nat) (a : Z) : ST slob unit :=
  match n with
  | O => mret tt
  | S n => store a 0;; clear_cells n (a + 1)
  end.
Definition memset_zero (b size : Z) : ST slob unit :=
  clear_cells (Z.to_nat (size / 2)) b;;
  when (Z.odd size)
    (v ← load (b + size / 2); store (b + size / 2) (Z.land v 0xff00)).

(** Setting up a page: the statements of [slob_alloc] between [slob_new_pages]
    and [slob_page_alloc]. *)
Definition setup_page (sp b : Z) : ST slob unit :=
  sp_upd sp (set_PageSlab true);;
  sp_upd sp (set_units (s16 (SLOB_UNITS PAGE_SIZE)));;
  sp_upd sp (set_free b);;
  on_slists (INIT_LIST_HEAD (Ptr (sp_list sp)));;
  set_slob b (s16 (SLOB_UNITS PAGE_SIZE)) (b + SLOB_UNITS PAGE_SIZE);;
  set_slob_page_free sp free_slob_small.

Section alloc.
(** [alloc_pages(gfp, order)]: the number of the first page, or [NULL]. *)
Variable alloc_pages : Z → Z → option Z.

Definition slob_new_pages (gfp order : Z) : ST slob (option Z) :=
  match alloc_pages gfp order with
  | None => mret None
  | Some page =>
    modify (λ s, set_pages_alloc (u32 (pages_alloc s + 1)) s);;
    mret (Some (page * SLOB_UNITS PAGE_SIZE))
  end.

(** The search of [slob_alloc] over the pages of a list.  The loop visits a
    snapshot of the list: [find_best_fit_block] does not change it. *)
Fixpoint search_pages (size align : Z) (sps : list Z) (best : best_block_slob)
    : ST slob best_block_slob :=
  match sps with
  | [] => mret best
  | sp :: sps =>
    p ← sp_get sp;
    if units p <? SLOB_UNITS size then search_pages size align sps best else
    best' ← find_best_fit_block sp best size align;
    search_pages size align sps best'
  end.

(** The pages [list_for_each_entry] visits. *)
Definition page_entries (slob_list : saddr) : ST slob (list Z) :=
  '(_, sps) ← on_slists (list_for_each (Ptr slob_list)
     (λ pos acc, match pos with
                 | Ptr (sp_list sp) => Ok (Continue (acc ++ [sp]))
                 | _ => Err OOPS
                 end) []);
  mret sps.

Definition slob_alloc_new (size gfp align : Z) : ST slob (option Z) :=
  b ← slob_new_pages (Z.ldiff gfp GFP_ZERO) 0;
  match b with
  | None => mret None
  | Some b =>
    let sp := virt_to_page b in
    setup_page sp b;;
    b ← slob_page_alloc sp size align;
    bug_on (bool_decide (b = None));;
    mret b
  end.

Definition slob_alloc (size gfp align : Z) : ST slob (option Z) :=
  let best := BestBlock (SLOB_UNITS size) (s16 (PAGE_SIZE + 1)) None None None None in
  sps ← page_entries free_slob_small;
  best ← search_pages size align sps best;
  b ← match b_cur best with
      | Some cur =>
        sp ← lift (deref (b_page best));
        let aligned := align_slob cur align in
        let delta := if align =? 0 then 0 else aligned - cur in
        b ← slob_carve sp (b_prev best) cur (block_size best) delta aligned (SLOB_UNITS size);
        mret (Some b)
      | None => slob_alloc_new size gfp align
      end;
  match b with
  | None => mret None
  | Some a => when (tst gfp GFP_ZERO) (memset_zero a size);; mret b
  end.
End alloc.

(** ** Freeing *)

(** [free_slob_page] resets fields of [struct page] that nothing here reads. *)
Definition slob_free_pages (b order : Z) : ST slob unit :=
  modify (λ s, set_released (FreePages b order :: released s) s).

(** The search for the blocks around [b]. *)
Fixpoint free_loop (fuel : nat) (b prev next : Z) : ST slob (Z * Z) :=
  match fuel with
  | O => raise HANG
  | S fuel =>
    if b >? next then n ← slob_next next; free_loop fuel b next n
    else mret (prev, next)
  end.

(** Reinsertion into a partially free page, after [sp->units += units]. *)
Definition slob_reinsert (sp b units : Z) : ST slob unit :=
  p ← sp_get sp;
  if b <? free p then
    units' ←
      (if b + units =? free p then
         u ← slob_units (free p);
         n ← slob_next (free p);
         sp_upd sp (set_free n);;
         mret (s16 (units + u))
       else mret units);
    p ← sp_get sp;
    set_slob b units' (free p);;
    sp_upd sp (set_free b)
  else
    next ← slob_next (free p);
    '(prev, next) ← free_loop slob_fuel b (free p) next;
    last ← slob_last prev;
    (if negb last && (b + units =? next) then
       u ← slob_units next;
       n ← slob_next next;
       set_slob b (s16 (units + u)) n
     else set_slob b units next);;
    pu ← slob_units prev;
    if prev + pu =? b then
      bu ← slob_units b;
      n ← slob_next b;
      set_slob prev (s16 (bu + pu)) n
    else set_slob prev pu b.

(** [void *]: [block == NULL], the pointer to nothing, or an address in units. *)
Inductive voidp := NULL | ZERO_SIZE_PTR | Addr (a : Z).

Definition slob_free (block : voidp) (size : Z) : ST slob unit :=
  match block with
  | NULL | ZERO_SIZE_PTR => mret tt
  | Addr b =>
    bug_on (size =? 0);;
    let sp := virt_to_page b in
    let units := s16 (SLOB_UNITS size) in
    p ← sp_get sp;
    if Slob.units p + units =? SLOB_UNITS PAGE_SIZE then
      when (PageSlobFree p) (clear_slob_page_free sp);;
      sp_upd sp (set_PageSlab false);;
      modify (λ s, set_pages_alloc (u32 (pages_alloc s - 1)) s);;
      slob_free_pages b 0
    else if negb (PageSlobFree p) then
      sp_upd sp (set_units units);;
      sp_upd sp (set_free b);;
      set_slob b units (page_base (b + SLOB_UNITS PAGE_SIZE));;
      set_slob_page_free sp free_slob_small
    else
      sp_upd sp (λ p, set_units (s16 (Slob.units p + units)) p);;
      slob_reinsert sp b units
  end.

(** ** The kmalloc front end *)

(** [max(ARCH_KMALLOC_MINALIGN, ARCH_SLAB_MINALIGN)] on a 64-bit machine, in
    bytes. *)
Definition kmalloc_align : Z := 8.

(** [get_order]: halve until nothing is left. *)
Fixpoint order_loop (fuel : nat) (size order : Z) : Z :=
  match fuel with
  | O => order
  | S fuel =>
    let size := Z.shiftr size 1 in
    let order := order + 1 in
    if size =? 0 then order else order_loop fuel size order
  end.
Definition get_order (size : Z) : Z := order_loop 64 (Z.shiftr (u64 (size - 1)) 11) (-1).

(** A 32-bit integer kept in two cells, little endian. *)
Definition load_int (a : Z) : ST slob Z :=
  lo ← load a;
  hi ← load (a + 1);
  mret (u16 lo + 65536 * u16 hi).
Definition store_int (a v : Z) : ST slob unit :=
  store a v;;
  store (a + 1) (Z.shiftr v 16).

Definition __kmalloc_node (alloc_pages : Z → Z → option Z) (size gfp : Z) : ST slob voidp :=
  if size <? PAGE_SIZE - kmalloc_align then
    if size =? 0 then mret ZERO_SIZE_PTR else
    m ← slob_alloc alloc_pages (size + kmalloc_align) gfp kmalloc_align;
    match m with
    | None => mret NULL
    | Some m =>
      store_int m (u32 size);;
      mret (Addr (m + kmalloc_align / SLOB_UNIT))
    end
  else
    ret ← slob_new_pages alloc_pages (Z.lor gfp GFP_COMP) (get_order size);
    match ret with
    | None => mret NULL
    | Some a =>
      sp_upd (virt_to_page a) (set_private size);;
      mret (Addr a)
    end.

Definition kfree (block : voidp) : ST slob unit :=
  match block with
  | NULL | ZERO_SIZE_PTR => mret tt
  | Addr a =>
    let sp := virt_to_page a in
    p ← sp_get sp;
    if PageSlab p then
      let m := a - kmalloc_align / SLOB_UNIT in
      size ← load_int m;
      slob_free (Addr m) (size + kmalloc_align)
    else modify (λ s, set_released (PutPage sp :: released s) s)
  end.

Definition ksize (block : voidp) : ST slob Z :=
  match block with
  | NULL => raise BUG
  | ZERO_SIZE_PTR => mret 0
  | Addr a =>
    p ← sp_get (virt_to_page a);
    if PageSlab p then
      size ← load_int (a - kmalloc_align / SLOB_UNIT);
      mret (SLOB_UNITS size * SLOB_UNIT)
    else mret (private p)
  end.

(** ** The statistics system calls *)
Definition sys_get_slob_amt_claimed : ST slob Z :=
  s ← get;
  mret (u32 (pages_alloc s * PAGE_SIZE)).

Fixpoint sum_free (sps : list Z) (acc : Z) : ST slob Z :=
  match sps with
  | [] => mret acc
  | sp :: sps => p ← sp_get sp; sum_free sps (u32 (acc + UNSLOB_UNITS (units p)))
  end.

Definition sys_get_slob_amt_free : ST slob Z :=
  l1 ← page_entries free_slob_small;
  n ← sum_free l1 0;
  l2 ← page_entries free_slob_medium;
  n ← sum_free l2 n;
  l3 ← page_entries free_slob_large;
  sum_free l3 n.

(** ** The view of a page *)

(** Blocks are pairs of an address and a size in units.  The header of block
    [(s, n)] of the page at [B] encodes its size and the address [nx] of the
    next block (the end of the page for the last one). *)
Definition hdr (m : gmap Z Z) (B s n nx : Z) : Prop :=
  if 1 <? n then m !! s = Some n ∧ m !! (s + 1) = Some (nx - B)
  else m !! s = Some (- (nx - B)).

(** Where the blocks [bs] start, if a block or end [e] follows them. *)
Definition next_to (bs : list (Z * Z)) (e : Z) : Z :=
  match bs with [] => e | (s, _) :: _ => s end.

Fixpoint flist (m : gmap Z Z) (B : Z) (bs : list (Z * Z)) (e : Z) : Prop :=
  match bs with
  | [] => True
  | (s, n) :: bs => hdr m B s n (next_to bs e) ∧ flist m B bs e
  end.

(** The blocks lie between [lo] and [hi] in address order, not empty, and at
    least [g] units apart. *)
Fixpoint blocks_wf (g lo hi : Z) (bs : list (Z * Z)) : Prop :=
  match bs with
  | [] => True
  | (s, n) :: bs => lo ≤ s ∧ 1 ≤ n ∧ s + n ≤ hi ∧ blocks_wf g (s + n + g) hi bs
  end.

Definition free_units (bs : list (Z * Z)) : Z := foldr (λ b acc, b.2 + acc) 0 bs.
Arguments free_units : simpl never.

(** Unit [a] belongs to one of the blocks. *)
Fixpoint in_blocks (a : Z) (bs : list (Z * Z)) : Prop :=
  match bs with [] => False | (s, n) :: bs => s ≤ a < s + n ∨ in_blocks a bs end.

#[global] Instance hdr_dec m B s n nx : Decision (hdr m B s n nx).
Proof. unfold hdr. destruct (1 <? n); apply _. Defined.
#[global] Instance flist_dec m B bs e : Decision (flist m B bs e).
Proof. induction bs as [|[s n] bs IH]; simpl; apply _. Defined.
#[global] Instance blocks_wf_dec g lo hi bs : Decision (blocks_wf g lo hi bs).
Proof. revert lo. induction bs as [|[s n] bs IH]; intros lo; simpl; apply _. Defined.
#[global] Instance in_blocks_dec a bs : Decision (in_blocks a bs).
Proof. induction bs as [|[s n] bs IH]; simpl; apply _. Defined.

(** A block of [k] units at [s], none when [k] is 0. *)
Definition frag (s k : Z) : list (Z * Z) := if k =? 0 then [] else [(s, k)].

(** The block before a position of the list. *)
Definition prev_of (bs : list (Z * Z)) : option Z := fst <$> last bs.

(** The page at [sp] has the free blocks [bs]. *)
Record page_view (st : slob) (sp : Z) (bs : list (Z * Z)) (p : slob_page) : Prop := {
  pv_page : pages st !! sp = Some p;
  pv_ram : ∀ a, 2048 * sp ≤ a < 2048 * sp + 2048 → is_Some (mem st !! a);
  pv_list : flist (mem st) (2048 * sp) bs (2048 * sp + 2048);
  pv_wf : blocks_wf 1 (2048 * sp) (2048 * sp + 2048) bs;
  pv_free : free p = next_to bs (2048 * sp + 2048);
  pv_units : units p = free_units bs
}.

(** Memory may differ only where [P] says so. *)
Definition same_but (m m' : gmap Z Z) (P : Z → Prop) : Prop :=
  (∀ a, is_Some (m !! a) ↔ is_Some (m' !! a)) ∧ (∀ a, ¬ P a → m' !! a = m !! a).

Lemma same_but_refl m P : same_but m m P.
Proof. by split. Qed.
Lemma same_but_trans m1 m2 m3 (P Q R : Z → Prop) :
  same_but m1 m2 P → same_but m2 m3 Q → (∀ a, P a → R a) → (∀ a, Q a → R a) → same_but m1 m3 R.
Proof.
  intros [D1 E1] [D2 E2] HP HQ. split; [intros a; by rewrite D1|].
  intros a Ha. rewrite E2, E1; naive_solver.
Qed.

Lemma page_base_in B a : B mod 2048 = 0 → B ≤ a < B + 2048 → page_base a = B.
Proof.
  intros HB Ha. unfold page_base. change (SLOB_UNITS PAGE_SIZE) with 2048.
  pose proof (Z.div_mod B 2048 ltac:(lia)). pose proof (Z.div_mod a 2048 ltac:(lia)).
  pose proof (Z.mod_pos_bound a 2048 ltac:(lia)). nia.
Qed.

Section headers.
Context (B : Z) (HB : B mod 2048 = 0).
Implicit Types (st : slob) (m : gmap Z Z).

Lemma slob_units_ok st s n nx :
  hdr (mem st) B s n nx → 1 ≤ n → B < nx → slob_units s st = Ok (n, st).
Proof.
  unfold hdr, slob_units, load, mbind, st_bind. intros Hh Hn Hnx.
  destruct (Z.ltb_spec 1 n) as [?|?]; [destruct Hh as [-> _]|rewrite Hh].
  - by destruct (Z.ltb_spec 0 n); [|lia].
  - destruct (Z.ltb_spec 0 (- (nx - B))); [lia|]. replace n with 1 by lia. done.
Qed.

Lemma slob_next_ok st s n nx :
  hdr (mem st) B s n nx → B ≤ s < B + 2048 → B < nx ≤ B + 2048 →
  slob_next s st = Ok (nx, st).
Proof.
  unfold hdr, slob_next, load, mbind, st_bind. intros Hh Hs Hnx.
  rewrite (page_base_in B s) by done.
  destruct (Z.ltb_spec 1 n) as [?|?].
  - destruct Hh as [-> Hn']. destruct (Z.ltb_spec n 0); [lia|]. rewrite Hn'.
    unfold mret, st_ret. do 2 f_equal. lia.
  - rewrite Hh. destruct (Z.ltb_spec (- (nx - B)) 0); [|lia].
    unfold mret, st_ret. rewrite s16_id by lia. do 2 f_equal. lia.
Qed.

Lemma slob_last_ok st s n nx :
  hdr (mem st) B s n nx → B ≤ s < B + 2048 → B < nx ≤ B + 2048 →
  slob_last s st = Ok (nx =? B + 2048, st).
Proof.
  intros Hh Hs Hnx. unfold slob_last. st_step (slob_next_ok _ _ _ _ Hh Hs Hnx).
  unfold mret, st_ret. do 2 f_equal. change (SLOB_UNITS PAGE_SIZE) with 2048.
  apply Z.eqb_eq in HB. destruct (Z.eqb_spec nx (B + 2048)) as [->|Hne].
  - apply Z.eqb_eq in HB. apply Z.eqb_eq. by rewrite Z.add_mod, HB.
  - apply Z.eqb_eq in HB. apply Z.eqb_neq. intros Hm.
    pose proof (Z.div_mod nx 2048 ltac:(lia)). pose proof (Z.div_mod B 2048 ltac:(lia)). nia.
Qed.

Lemma store_ok st a v :
  is_Some (mem st !! a) → - 2 ^ 15 ≤ v < 2 ^ 15 →
  store a v st = Ok (tt, set_mem (<[a := v]> (mem st)) st).
Proof. intros [x Hx] Hv. unfold store. by rewrite Hx, s16_id. Qed.

(** Writing a header changes cells of its block only. *)
Lemma set_slob_ok st s n nx :
  (∀ a, s ≤ a < s + n → is_Some (mem st !! a)) → 1 ≤ n ≤ 2048 →
  B ≤ s < B + 2048 → B < nx ≤ B + 2048 →
  ∃ m', set_slob s n nx st = Ok (tt, set_mem m' st) ∧ hdr m' B s n nx ∧
    same_but (mem st) m' (λ a, s ≤ a < s + n).
Proof.
  intros Hram Hn Hs Hnx. unfold set_slob. rewrite (page_base_in B s) by done.
  rewrite (s16_id (nx - B)) by lia. unfold hdr. destruct (Z.ltb_spec 1 n) as [?|?].
  - exists (<[s + 1 := nx - B]> (<[s := n]> (mem st))). split_and!.
    + rewrite (st_bind_ok _ _ _ tt _ (store_ok st s n (Hram s ltac:(lia)) ltac:(lia))).
      rewrite store_ok; [done| |lia]. simpl. rewrite lookup_insert_ne by lia. apply Hram. lia.
    + rewrite lookup_insert_ne, lookup_insert_eq by lia. done.
    + by rewrite lookup_insert_eq.
    + split; [|intros a Ha; by rewrite !lookup_insert_ne by lia].
      intros a. rewrite !lookup_insert_is_Some'. split; [naive_solver|].
      intros [<-|[<-|?]]; [apply Hram; lia|apply Hram; lia|done].
  - exists (<[s := - (nx - B)]> (mem st)). split_and!.
    + apply store_ok; [apply Hram|]; lia.
    + by rewrite lookup_insert_eq.
    + split; [|intros a Ha; by rewrite !lookup_insert_ne by lia].
      intros a. rewrite lookup_insert_is_Some'. split; [naive_solver|].
      intros [<-|?]; [apply Hram; lia|done].
Qed.
End headers.

(** *** Lists of blocks *)
Lemma hdr_same m m' (P : Z → Prop) B s n nx :
  hdr m B s n nx → 1 ≤ n → same_but m m' P → (∀ a, s ≤ a < s + n → ¬ P a) → hdr m' B s n nx.
Proof.
  unfold hdr. intros Hh Hn [_ E] HP. destruct (Z.ltb_spec 1 n).
  - rewrite !E by (apply HP; lia). done.
  - rewrite E by (apply HP; lia). done.
Qed.

Lemma next_to_app l1 l2 e : next_to (l1 ++ l2) e = next_to l1 (next_to l2 e).
Proof. by destruct l1 as [|[]]. Qed.

Lemma flist_app m B l1 l2 e :
  flist m B (l1 ++ l2) e ↔ flist m B l1 (next_to l2 e) ∧ flist m B l2 e.
Proof.
  induction l1 as [|[s n] l1 IH]; simpl; [tauto|]. rewrite next_to_app, IH. tauto.
Qed.

Lemma in_blocks_app a l1 l2 : in_blocks a (l1 ++ l2) ↔ in_blocks a l1 ∨ in_blocks a l2.
Proof. induction l1 as [|[s n] l1 IH]; simpl; [tauto|]. rewrite IH. tauto. Qed.

Lemma free_units_app l1 l2 : free_units (l1 ++ l2) = free_units l1 + free_units l2.
Proof.
  induction l1 as [|b l1 IH]; [done|].
  change (b.2 + free_units (l1 ++ l2) = b.2 + free_units l1 + free_units l2). lia.
Qed.
Lemma free_units_nil : free_units [] = 0.
Proof. done. Qed.
Lemma free_units_cons s n bs : free_units ((s, n) :: bs) = n + free_units bs.
Proof. done. Qed.
Lemma free_units_frag s k : free_units (frag s k) = k.
Proof. unfold frag. destruct (Z.eqb_spec k 0) as [->|?]; [done|]. unfold free_units. simpl. lia. Qed.

(** The lowest address a block after [bs] can have. *)
Definition after (g lo : Z) (bs : list (Z * Z)) : Z :=
  match last bs with Some (s, n) => s + n + g | None => lo end.

Lemma after_cons g lo s n bs : after g lo ((s, n) :: bs) = after g (s + n + g) bs.
Proof. unfold after. rewrite last_cons. by destruct (last bs) as [[]|]. Qed.

Lemma blocks_wf_app g lo hi l1 l2 :
  blocks_wf g lo hi (l1 ++ l2) ↔ blocks_wf g lo hi l1 ∧ blocks_wf g (after g lo l1) hi l2.
Proof.
  revert lo. induction l1 as [|[s n] l1 IH]; intros lo; [simpl; tauto|].
  rewrite after_cons. simpl. rewrite IH. tauto.
Qed.

Lemma blocks_wf_weaken g g' lo lo' hi bs :
  g' ≤ g → lo' ≤ lo → blocks_wf g lo hi bs → blocks_wf g' lo' hi bs.
Proof.
  revert lo lo'. induction bs as [|[s n] bs IH]; intros lo lo' Hg Hlo; simpl; [done|].
  intros (? & ? & ? & ?). split_and!; try lia. by eapply IH; [..|eassumption]; lia.
Qed.

Lemma in_blocks_range g lo hi bs a :
  0 ≤ g → blocks_wf g lo hi bs → in_blocks a bs → lo ≤ a < hi.
Proof.
  intros Hg. revert lo. induction bs as [|[s n] bs IH]; intros lo; simpl; [done|].
  intros (? & ? & ? & Hw) [?|Ha]; [lia|]. specialize (IH _ Hw Ha). lia.
Qed.

Lemma after_ge g lo hi bs : 0 ≤ g → blocks_wf g lo hi bs → lo ≤ after g lo bs.
Proof.
  intros Hg. revert lo. induction bs as [|[s n] bs IH]; intros lo Hw; [done|].
  rewrite after_cons. destruct Hw as (? & ? & ? & Hw). specialize (IH _ Hw). lia.
Qed.

Lemma after_gt lo hi bs : bs ≠ [] → blocks_wf 0 lo hi bs → lo < after 0 lo bs.
Proof.
  destruct bs as [|[s n] bs]; [done|]. intros _ (? & ? & ? & Hw). rewrite after_cons.
  pose proof (after_ge 0 _ _ _ ltac:(lia) Hw). lia.
Qed.

Lemma in_blocks_after lo hi bs a :
  blocks_wf 0 lo hi bs → in_blocks a bs → a < after 0 lo bs.
Proof.
  intros Hw Ha. revert lo Hw. induction bs as [|[s n] bs IH]; intros lo; simpl; [done|].
  intros (? & ? & ? & Hw). rewrite after_cons. destruct Ha as [?|Ha]; [|by apply IH].
  pose proof (after_ge 0 _ _ _ ltac:(lia) Hw). lia.
Qed.

Lemma next_to_range g lo hi bs :
  0 ≤ g → blocks_wf g lo hi bs → lo < hi → lo ≤ next_to bs hi ≤ hi.
Proof. destruct bs as [|[s n] bs]; simpl; lia. Qed.

Lemma flist_same m m' (P : Z → Prop) B g lo hi bs e :
  flist m B bs e → blocks_wf g lo hi bs → same_but m m' P →
  (∀ a, in_blocks a bs → ¬ P a) → flist m' B bs e.
Proof.
  revert lo. induction bs as [|[s n] bs IH]; intros lo; simpl; [done|].
  intros [Hh Hf] (? & ? & ? & Hw) Hs HP. split.
  - eapply hdr_same; [done|lia|done|]. intros a ?. apply HP. by left.
  - eapply IH; [done..|]. intros a ?. apply HP. by right.
Qed.

Lemma free_units_bound g lo hi bs :
  0 ≤ g → lo ≤ hi → blocks_wf g lo hi bs → 0 ≤ free_units bs ≤ hi - lo.
Proof.
  intros Hg. revert lo. induction bs as [|[s n] bs IH]; intros lo Hlo; [unfold free_units; simpl; lia|].
  intros (? & ? & ? & Hw). rewrite free_units_cons.
  destruct bs as [|[s' n'] bs]; [unfold free_units; simpl; lia|].
  assert (s + n + g ≤ hi) by (simpl in Hw; lia).
  destruct (IH (s + n + g)); [done..|]. lia.
Qed.

(** *** Carving a block *)

Section carve.
Context (sp : Z).
Abbreviation B := (2048 * sp).
Implicit Types (st : slob) (m : gmap Z Z).

Lemma base_mod : B mod 2048 = 0.
Proof. rewrite Z.mul_comm. by apply Z.mod_mul. Qed.

Lemma prev_of_snoc l s n : prev_of (l ++ [(s, n)]) = Some s.
Proof. unfold prev_of. by rewrite last_snoc. Qed.

Lemma relink_ok st l1 e e' p :
  pages st !! sp = Some p → (∀ a, B ≤ a < B + 2048 → is_Some (mem st !! a)) →
  flist (mem st) B l1 e → blocks_wf 0 B (B + 2048) l1 → free p = next_to l1 e →
  l1 = [] ∨ (B < e ≤ B + 2048 ∧ B < e' ≤ B + 2048) →
  ∃ m', relink sp (prev_of l1) e' st =
      Ok (tt, set_mem m' (set_pages (<[sp := set_free (next_to l1 e') p]> (pages st)) st)) ∧
    flist m' B l1 e' ∧ same_but (mem st) m' (λ a, in_blocks a l1).
Proof.
  intros Hp Hram Hf Hw Hfree He. destruct l1 as [|[s n] l _] using rev_ind.
  { exists (mem st). split_and!; [|done|by apply same_but_refl].
    unfold relink, sp_upd. simpl. rewrite Hp. by destruct st. }
  assert (set_free (next_to (l ++ [(s, n)]) e') p = p) as ->.
  { rewrite next_to_app in *. destruct p; simpl in *. by destruct l as [|[]]; simpl in *; subst. }
  rewrite (insert_id (pages st)) by done.
  apply blocks_wf_app in Hw as [Hw1 Hw2]. destruct Hw2 as (Hs1 & Hn & Hs2 & _).
  apply flist_app in Hf as [Hf1 [Hh _]]. simpl in Hf1, Hh.
  pose proof (after_ge 0 _ _ _ ltac:(lia) Hw1) as Hafter.
  destruct He as [E|[He He']]; [by destruct l|].
  rewrite prev_of_snoc. unfold relink.
  st_step (slob_units_ok B st s n e Hh Hn ltac:(lia)).
  destruct (set_slob_ok B base_mod st s n e') as (m' & E & Hh' & Hsame); [|lia..|].
  { intros a Ha. apply Hram. lia. }
  exists m'. split_and!; [by rewrite E; destruct st|..].
  - apply flist_app. split; [|by split].
    eapply flist_same; [exact Hf1|exact Hw1|exact Hsame|].
    intros a Ha ?. pose proof (in_blocks_after _ _ _ _ Hw1 Ha). lia.
  - split; [apply Hsame|]. intros a Ha. apply Hsame. intros ?. apply Ha.
    apply in_blocks_app. right. by left.
Qed.

Lemma frag_next s k e : next_to (frag s k) e = if k =? 0 then e else s.
Proof. unfold frag. by destruct (k =? 0). Qed.

Lemma unlink_front_ok st l1 c k l2 u p :
  pages st !! sp = Some p → (∀ a, B ≤ a < B + 2048 → is_Some (mem st !! a)) →
  flist (mem st) B (l1 ++ (c, k) :: l2) (B + 2048) →
  blocks_wf 0 B (B + 2048) (l1 ++ (c, k) :: l2) →
  free p = next_to (l1 ++ (c, k) :: l2) (B + 2048) → 1 ≤ u ≤ k →
  let l' := l1 ++ frag (c + u) (k - u) ++ l2 in
  ∃ m', unlink_front sp (prev_of l1) c k u (next_to l2 (B + 2048)) st =
      Ok (tt, set_mem m' (set_pages (<[sp := set_free (next_to l' (B + 2048)) p]> (pages st)) st)) ∧
    flist m' B l' (B + 2048) ∧
    same_but (mem st) m' (λ a, in_blocks a (l1 ++ (c, k) :: l2)).
Proof.
  intros Hp Hram Hf Hw Hfree Hu l'. apply blocks_wf_app in Hw as [Hw1 (Hs1 & Hk & Hs2 & Hw2)].
  apply flist_app in Hf as [Hf1 [Hh Hf2]]. simpl in Hf1.
  pose proof (after_ge 0 _ _ _ ltac:(lia) Hw1).
  assert (B < next_to l2 (B + 2048) ≤ B + 2048) as Hnx.
  { destruct l2 as [|[s2 n2] l2]; simpl in *; lia. }
  rewrite next_to_app in Hfree. simpl in Hfree.
  assert (∀ e', B < e' ≤ B + 2048 → l1 = [] ∨ (B < c ≤ B + 2048 ∧ B < e' ≤ B + 2048)) as Hre.
  { intros e' ?. destruct (decide (l1 = [])) as [?|Hne]; [by left|right].
    pose proof (after_gt _ _ _ Hne Hw1). lia. }
  assert (∀ a, in_blocks a l2 → c + k ≤ a) as Hl2.
  { intros a Ha. pose proof (in_blocks_range 0 _ _ _ _ ltac:(lia) Hw2 Ha). lia. }
  unfold unlink_front. subst l'. rewrite !next_to_app, frag_next. unfold frag.
  destruct (Z.eqb_spec k u) as [Hku|Hku]; destruct (Z.eqb_spec (k - u) 0) as [?|?]; try lia; simpl.
  - destruct (relink_ok st l1 c (next_to l2 (B + 2048)) p) as (m' & E & Hf' & Hsame); [done..|auto|].
    exists m'. split_and!; [done| |].
    + apply flist_app. split; [done|]. eapply flist_same; [done..|].
      intros a Ha Ha'. specialize (Hl2 a Ha). pose proof (in_blocks_after _ _ _ _ Hw1 Ha'). lia.
    + split; [apply Hsame|]. intros a Ha. apply Hsame. intros ?. apply Ha, in_blocks_app. by left.
  - destruct (relink_ok st l1 c (c + u) p) as (m1 & E1 & Hf1' & Hsame1); [done..|apply Hre; lia|].
    st_step E1.
    destruct (set_slob_ok B base_mod (set_mem m1 (set_pages (<[sp := set_free (next_to l1 (c + u)) p]>
      (pages st)) st)) (c + u) (k - u) (next_to l2 (B + 2048))) as (m2 & E2 & Hh2 & Hsame2); [|lia..|].
    { intros a Ha. simpl. apply Hsame1, Hram. lia. }
    exists m2. simpl in *. split_and!.
    + rewrite E2. by destruct st.
    + apply flist_app. simpl. split_and!; [|done|].
      * eapply flist_same; [exact Hf1'|exact Hw1|exact Hsame2|]. intros a Ha ?.
        pose proof (in_blocks_after _ _ _ _ Hw1 Ha). lia.
      * eapply flist_same; [|exact Hw2|exact Hsame2|].
        -- eapply flist_same; [done|done|exact Hsame1|]. intros a Ha Ha'.
           specialize (Hl2 a Ha). pose proof (in_blocks_after _ _ _ _ Hw1 Ha'). lia.
        -- intros a Ha ?. specialize (Hl2 a Ha). lia.
    + eapply same_but_trans; [exact Hsame1|exact Hsame2|..]; intros a Ha; apply in_blocks_app;
        [by left|right; left; simpl in Ha; lia].
Qed.

(** Splitting the head of a block off, so that the rest is aligned. *)
Lemma split_head_ok st l1 s n l2 delta :
  (∀ a, B ≤ a < B + 2048 → is_Some (mem st !! a)) →
  flist (mem st) B (l1 ++ (s, n) :: l2) (B + 2048) →
  blocks_wf 0 B (B + 2048) (l1 ++ (s, n) :: l2) → 0 < delta < n →
  ∃ m', (next ← slob_next s; set_slob (s + delta) (n - delta) next;; set_slob s delta (s + delta)) st
      = Ok (tt, set_mem m' st) ∧
    flist m' B ((l1 ++ [(s, delta)]) ++ (s + delta, n - delta) :: l2) (B + 2048) ∧
    blocks_wf 0 B (B + 2048) ((l1 ++ [(s, delta)]) ++ (s + delta, n - delta) :: l2) ∧
    same_but (mem st) m' (λ a, s ≤ a < s + n).
Proof.
  intros Hram Hf Hw Hd. apply blocks_wf_app in Hw as [Hw1 (Hs1 & Hk & Hs2 & Hw2)].
  apply flist_app in Hf as [Hf1 [Hh Hf2]]. simpl in Hf1.
  pose proof (after_ge 0 _ _ _ ltac:(lia) Hw1).
  assert (B < next_to l2 (B + 2048) ≤ B + 2048) as Hnx.
  { destruct l2 as [|[s2 n2] l2]; simpl in *; lia. }
  assert (∀ a, in_blocks a l1 → a < s) as Hl1.
  { intros a Ha. pose proof (in_blocks_after _ _ _ _ Hw1 Ha). lia. }
  assert (∀ a, in_blocks a l2 → s + n ≤ a) as Hl2.
  { intros a Ha. pose proof (in_blocks_range 0 _ _ _ _ ltac:(lia) Hw2 Ha). lia. }
  st_step (slob_next_ok B base_mod st s n _ Hh ltac:(lia) Hnx).
  destruct (set_slob_ok B base_mod st (s + delta) (n - delta) (next_to l2 (B + 2048)))
    as (m1 & E1 & Hh1 & Hsame1); [|lia..|]. { intros a Ha. apply Hram. lia. }
  st_step E1.
  destruct (set_slob_ok B base_mod (set_mem m1 st) s delta (s + delta))
    as (m2 & E2 & Hh2 & Hsame2); [|lia..|]. { intros a Ha. simpl. apply Hsame1, Hram. lia. }
  assert (same_but (mem st) m2 (λ a, s ≤ a < s + n)) as Hsame.
  { eapply same_but_trans; [exact Hsame1|exact Hsame2|..]; intros a Ha; simpl in *; lia. }
  exists m2. rewrite E2. split_and!; [by destruct st| | |done].
  - rewrite <-app_assoc. apply flist_app. simpl. split_and!.
    + eapply flist_same; [exact Hf1|exact Hw1|exact Hsame|]. intros a Ha ?. specialize (Hl1 a Ha). lia.
    + done.
    + eapply hdr_same; [exact Hh1|lia|exact Hsame2|]. simpl. intros a ??. lia.
    + eapply flist_same; [exact Hf2|exact Hw2|exact Hsame|]. intros a Ha ?. specialize (Hl2 a Ha). lia.
  - rewrite <-app_assoc. apply blocks_wf_app. split; [done|]. simpl. split_and!; try lia.
    by eapply blocks_wf_weaken; [..|exact Hw2]; lia.
Qed.

(** The pages of the list keep their nodes apart from the list head. *)
Definition slob_list (st : slob) (sps : list Z) : Prop :=
  is_list (slists st) free_slob_small (sp_list <$> sps).

Lemma clear_slob_page_free_ok st k1 k2 p :
  slob_list st (k1 ++ sp :: k2) → pages st !! sp = Some p →
  ∃ h', clear_slob_page_free sp st =
      Ok (tt, set_slists h' (set_pages (<[sp := set_PageSlobFree false p]> (pages st)) st)) ∧
    is_list h' free_slob_small (sp_list <$> k1 ++ k2) ∧
    (∀ a, mapped (slists st) a ↔ mapped h' a).
Proof.
  unfold slob_list. rewrite fmap_app, fmap_cons. intros Hl Hp.
  destruct (list_del_spec _ _ _ _ _ Hl) as (h' & E & [Hl' _] & Hf).
  exists h'. unfold clear_slob_page_free, on_slists.
  rewrite (st_bind_ok _ _ st tt (set_slists h' st)) by (by apply zoom_ok).
  unfold sp_upd. simpl. rewrite Hp. rewrite fmap_app. split_and!; [done|done|apply Hf].
Qed.

(** The state after an operation on the free list of the page [sp]: only the
    page, its nodes and memory accepted by [P] change. *)
Record page_step (st st' : slob) (P : Z → Prop) : Prop := {
  step_mem : same_but (mem st) (mem st') P;
  step_pages : ∀ q, q ≠ sp → pages st' !! q = pages st !! q;
  step_count : pages_alloc st' = pages_alloc st;
  step_released : released st' = released st;
  step_nodes : ∀ a, mapped (slists st) a ↔ mapped (slists st') a
}.

Lemma take_front_ok st l1 c k l2 u p k1 k2 :
  pages st !! sp = Some p → (∀ a, B ≤ a < B + 2048 → is_Some (mem st !! a)) →
  flist (mem st) B (l1 ++ (c, k) :: l2) (B + 2048) →
  blocks_wf 0 B (B + 2048) (l1 ++ (c, k) :: l2) →
  free p = next_to (l1 ++ (c, k) :: l2) (B + 2048) → 1 ≤ u ≤ k →
  units p = free_units (l1 ++ (c, k) :: l2) → slob_list st (k1 ++ sp :: k2) →
  let l' := l1 ++ frag (c + u) (k - u) ++ l2 in
  ∃ st' p', (next ← slob_next c; unlink_front sp (prev_of l1) c k u next;;
             sp_upd sp (λ p, set_units (s16 (units p - u)) p);; p ← sp_get sp;
             when (units p =? 0) (clear_slob_page_free sp);; mret c) st = Ok (c, st') ∧
    pages st' !! sp = Some p' ∧ flist (mem st') B l' (B + 2048) ∧
    free p' = next_to l' (B + 2048) ∧ units p' = free_units l' ∧ PageSlab p' = PageSlab p ∧
    page_step st st' (λ a, in_blocks a (l1 ++ (c, k) :: l2)) ∧
    if free_units l' =? 0 then PageSlobFree p' = false ∧ slob_list st' (k1 ++ k2)
    else PageSlobFree p' = PageSlobFree p ∧ slob_list st' (k1 ++ sp :: k2).
Proof.
  intros Hp Hram Hf Hw Hfree Hu Hun Hl l'.
  pose proof (free_units_bound 0 B (B + 2048) _ ltac:(lia) ltac:(lia) Hw) as Hb.
  destruct (unlink_front_ok st l1 c k l2 u p) as (m' & E & Hf' & Hsame); [done..|]. fold l' in E, Hf'.
  assert (hdr (mem st) B c k (next_to l2 (B + 2048)) ∧ B ≤ c < B + 2048 ∧
    B < next_to l2 (B + 2048) ≤ B + 2048 ∧ k ≤ 2048) as (Hh & Hc & Hnx & Hk).
  { apply blocks_wf_app in Hw as [Hw1 (Hs1 & Hk & Hs2 & Hw2)].
    pose proof (after_ge 0 _ _ _ ltac:(lia) Hw1). apply flist_app in Hf as [_ [Hh _]].
    split_and!; [done|lia|lia|..|lia]; destruct l2 as [|[s2 n2] l2]; simpl in *; lia. }
  st_step (slob_next_ok B base_mod st c k _ Hh Hc Hnx). st_step E.
  assert (units p - u = free_units l') as Ed.
  { rewrite Hun. subst l'. rewrite !free_units_app, free_units_frag, free_units_cons. lia. }
  set (p1 := set_free _ p) in *. set (st1 := set_mem m' _).
  assert (sp_upd sp (λ p, set_units (s16 (units p - u)) p) st1 = Ok (tt, set_pages
    (<[sp := set_units (free_units l') p1]> (pages st1)) st1)) as Eu.
  { unfold sp_upd. simpl. rewrite lookup_insert_eq. do 5 f_equal.
    change (s16 (units p - u) = free_units l'). rewrite s16_id; [done|]. rewrite Hun. lia. }
  st_step Eu. set (p2 := set_units _ p1). set (st2 := set_pages _ st1).
  assert (pages st2 !! sp = Some p2) as Hp2 by apply lookup_insert_eq.
  assert (sp_get sp st2 = Ok (p2, st2)) as Eg by (unfold sp_get; by rewrite Hp2).
  st_step Eg. change (units p2) with (free_units l').
  assert (∀ q, q ≠ sp → pages st2 !! q = pages st !! q) as Hq.
  { intros q ?. simpl. by rewrite !lookup_insert_ne by done. }
  unfold when. destruct (free_units l' =? 0).
  - destruct (clear_slob_page_free_ok st2 k1 k2 p2) as (h' & Ec & Hl' & Hm); [done..|].
    st_step Ec. eexists _, (set_PageSlobFree false p2). split; [reflexivity|]. split_and!; try done.
    + simpl. by rewrite lookup_insert_eq.
    + split; try done. intros q ?. simpl. by rewrite !lookup_insert_ne by done.
  - eexists st2, p2. split; [reflexivity|]. by split_and!.
Qed.

Lemma blocks_wf_carve lo hi l1 s n l2 delta u :
  0 ≤ delta → 1 ≤ u → u + delta ≤ n → blocks_wf 1 lo hi (l1 ++ (s, n) :: l2) →
  blocks_wf 1 lo hi (l1 ++ frag s delta ++ frag (s + delta + u) (n - delta - u) ++ l2).
Proof.
  intros Hd Hu Hn. rewrite (blocks_wf_app _ _ _ l1), (blocks_wf_app _ _ _ l1).
  intros [Hw1 (Hs & ? & Hh & Hw2)]. split; [done|].
  revert Hs. generalize (after 1 lo l1). intros lo' Hs.
  assert (∀ x, x ≤ s + n + 1 → blocks_wf 1 x hi l2).
  { intros x ?. eapply blocks_wf_weaken; [..|exact Hw2]; lia. }
  unfold frag. destruct (Z.eqb_spec delta 0), (Z.eqb_spec (n - delta - u) 0); simpl;
    repeat match goal with |- _ ∧ _ => split end; auto with lia.
Qed.

Lemma slob_carve_ok st l1 s n l2 delta u p k1 k2 :
  page_view st sp (l1 ++ (s, n) :: l2) p → slob_list st (k1 ++ sp :: k2) →
  0 ≤ delta → 1 ≤ u → u + delta ≤ n →
  let bs' := l1 ++ frag s delta ++ frag (s + delta + u) (n - delta - u) ++ l2 in
  ∃ st' p', slob_carve sp (prev_of l1) s n delta (s + delta) u st = Ok (s + delta, st') ∧
    page_view st' sp bs' p' ∧ PageSlab p' = PageSlab p ∧
    page_step st st' (λ a, in_blocks a (l1 ++ (s, n) :: l2)) ∧
    if free_units bs' =? 0 then PageSlobFree p' = false ∧ slob_list st' (k1 ++ k2)
    else PageSlobFree p' = PageSlobFree p ∧ slob_list st' (k1 ++ sp :: k2).
Proof.
  intros [Hp Hram Hf Hw Hfree Hun] Hl Hd Hu Hn bs'.
  pose proof (blocks_wf_weaken 1 0 B B _ _ ltac:(lia) ltac:(lia) Hw) as Hw0.
  pose proof (blocks_wf_carve _ _ _ _ _ _ delta u Hd Hu Hn Hw) as Hw'. fold bs' in Hw'.
  unfold slob_carve. destruct (Z.eqb_spec delta 0) as [->|Hne]; simpl.
  - rewrite (st_bind_ok _ _ st (prev_of l1, s, n) st eq_refl).
    destruct (take_front_ok st l1 s n l2 u p k1 k2) as (st' & p' & E & Hp' & Hf' & Hfr & Hun' & HS & Hst & Hc);
      [done..|lia|done|done|].
    assert (l1 ++ frag (s + u) (n - u) ++ l2 = bs') as Ebs.
    { subst bs'. unfold frag at 2. simpl. do 3 f_equal; lia. }
    rewrite Ebs in *. exists st', p'. replace (s + 0) with s by lia. split_and!; try done.
    split; try done. intros a Ha. by apply Hst, Hram.
  - destruct (split_head_ok st l1 s n l2 delta) as (m1 & E1 & Hf1 & Hw1 & Hsame1); [done..|lia|].
    set (st1 := set_mem m1 st) in *.
    assert (slob_units (s + delta) st1 = Ok (n - delta, st1)) as Eu.
    { apply flist_app in Hf1 as [_ [Hh _]]. apply blocks_wf_app in Hw1 as [_ (? & ? & ? & ?)].
      eapply slob_units_ok; [exact Hh|lia|]. destruct l2 as [|[s2 n2] l2]; simpl in *; [lia|].
      apply blocks_wf_app in Hw0 as [Hw0 (? & ? & ? & ?)].
      pose proof (after_ge 0 _ _ _ ltac:(lia) Hw0). lia. }
    rewrite (st_bind_ok _ _ st (Some s, s + delta, n - delta) st1).
    2: { revert E1. unfold mbind, st_bind. destruct (slob_next s st) as [[x sx]|]; [|done].
         destruct (set_slob (s + delta) (n - delta) x sx) as [[[] sy]|]; [|done].
         intros E1. rewrite E1. by rewrite Eu. }
    destruct (take_front_ok st1 (l1 ++ [(s, delta)]) (s + delta) (n - delta) l2 u p k1 k2)
      as (st' & p' & E & Hp' & Hf' & Hfr & Hun' & HS & Hst & Hc); try done.
    { intros a Ha. by apply Hsame1, Hram. }
    { rewrite Hfree, !next_to_app. done. }
    { lia. }
    { rewrite Hun, !free_units_app, !free_units_cons. unfold free_units at 4. simpl. lia. }
    assert ((l1 ++ [(s, delta)]) ++ frag (s + delta + u) (n - delta - u) ++ l2 = bs') as Ebs.
    { subst bs'. unfold frag at 2. destruct (Z.eqb_spec delta 0); [done|]. by rewrite <-app_assoc. }
    rewrite prev_of_snoc in E. rewrite Ebs in *. exists st', p'. split_and!; try done.
    + split; try done. intros a Ha. by apply Hst, Hsame1, Hram.
    + destruct Hst as [Hst1 ? ? ? ?]. split; try done.
      eapply same_but_trans; [exact Hsame1|exact Hst1|..].
      * intros a Ha. apply in_blocks_app. right. by left.
      * intros a Ha. simpl. rewrite !in_blocks_app in *. simpl in *. naive_solver lia.
Qed.
End carve.
