(* ===== verification/SlobAlloc.v ===== *)
(** * Allocation in SLOB: best fit, and what it does to the free lists

    The scan of one page and of all pages as a fold over their free blocks,
    what the block it settles on satisfies, and the effect of [slob_alloc] on
    the free lists and on memory. *)

From S2P Require Import Prelude KList Slob.

Local Open Scope Z_scope.

(** ** Alignment *)

(** The alignments the callers use: none, or a power of two of at most a page. *)
Definition align_ok (align : Z) : Prop := align = 0 ∨ ∃ k, 1 ≤ k ≤ 12 ∧ align = 2 ^ k.

(** Units between a block and the first aligned unit in or after it. *)
Definition delta_of (cur align : Z) : Z :=
  if align =? 0 then 0 else align_slob cur align - cur.

(** Addresses far enough from the end of the address space. *)
Definition addr_ok (a : Z) : Prop := 0 ≤ a < 2 ^ 62.

Lemma ALIGN_pow2 x k :
  0 ≤ k → 0 ≤ x → x + 2 ^ k < 2 ^ 64 → ALIGN x (2 ^ k) = (x + (2 ^ k - 1)) / 2 ^ k * 2 ^ k.
Proof.
  intros Hk Hx Hb. unfold ALIGN.
  replace (2 ^ k - 1) with (Z.ones k) by (rewrite Z.ones_equiv; lia).
  rewrite <-Z.ldiff_land, Z.ldiff_ones_r, Z.shiftl_mul_pow2, Z.shiftr_div_pow2 by done.
  apply u64_id. rewrite Z.ones_equiv. pose proof (Z.pow_pos_nonneg 2 k ltac:(lia) Hk).
  pose proof (Z.mul_div_le (x + Z.pred (2 ^ k)) (2 ^ k) ltac:(lia)).
  pose proof (Z.div_pos (x + Z.pred (2 ^ k)) (2 ^ k) ltac:(lia) ltac:(lia)). nia.
Qed.

Lemma delta_of_ok cur align :
  align_ok align → addr_ok cur →
  0 ≤ delta_of cur align ∧ (align ≠ 0 → 2 * (cur + delta_of cur align) mod align = 0) ∧
  (2 * cur mod align = 0 → delta_of cur align = 0).
Proof.
  intros Ha Hc. unfold delta_of. destruct (Z.eqb_spec align 0) as [->|Hne]; [done|].
  destruct Ha as [?|(k & Hk & ->)]; [done|].
  pose proof (Z.pow_le_mono_r 2 k 12 ltac:(lia) ltac:(lia)) as Hle.
  pose proof (Z.pow_le_mono_r 2 1 k ltac:(lia) ltac:(lia)) as Hge.
  unfold addr_ok in Hc. unfold align_slob. rewrite ALIGN_pow2 by lia.
  assert (2 ^ k = 2 * 2 ^ (k - 1)) as Ek.
  { rewrite <-Z.pow_succ_r by lia. f_equal. lia. }
  set (h := 2 ^ (k - 1)) in *. set (q := (2 * cur + (2 ^ k - 1)) / 2 ^ k).
  assert (q * 2 ^ k / 2 = q * h) as ->.
  { rewrite Ek. replace (q * (2 * h)) with (q * h * 2) by lia. by apply Z.div_mul. }
  assert (2 ^ k * q ≤ 2 * cur + (2 ^ k - 1) < 2 ^ k * q + 2 ^ k) as Hq.
  { pose proof (Z.mul_div_le (2 * cur + (2 ^ k - 1)) (2 ^ k) ltac:(lia)).
    pose proof (Z.mul_succ_div_gt (2 * cur + (2 ^ k - 1)) (2 ^ k) ltac:(lia)). fold q in H, H0. nia. }
  split_and!.
  - nia.
  - intros _. replace (2 * (cur + (q * h - cur))) with (q * 2 ^ k) by nia. by apply Z.mod_mul.
  - intros Hm. apply Z.mod_divide in Hm; [|lia]. destruct Hm as [z Hz].
    assert (q = z) by nia. nia.
Qed.

(** ** The scan *)
Definition better (sp u : Z) (prev : option Z) (s n next : Z) : best_block_slob :=
  BestBlock u n prev (Some s) (Some next) (Some sp).

(** The loop body on the block [(s, n)]. *)
Definition consider (sp u align : Z) (prev : option Z) (s n next : Z)
    (best : best_block_slob) : best_block_slob :=
  if n >=? u + delta_of s align then
    if n =? u + delta_of s align then better sp u prev s n next
    else if n - (u + delta_of s align) <? block_size best - object_size best
         then better sp u prev s n next else best
  else best.

Fixpoint consider_all (sp u align : Z) (prev : option Z) (bs : list (Z * Z)) (e : Z)
    (best : best_block_slob) : best_block_slob :=
  match bs with
  | [] => best
  | (s, n) :: bs =>
    consider_all sp u align (Some s) bs e (consider sp u align prev s n (next_to bs e) best)
  end.

Lemma blocks_length g lo hi bs : 0 ≤ g → lo ≤ hi → blocks_wf g lo hi bs → Z.of_nat (length bs) ≤ hi - lo.
Proof.
  intros Hg. revert lo. induction bs as [|[s n] bs IH]; intros lo Hlo Hw; [simpl; lia|].
  destruct Hw as (? & ? & ? & Hw). cbn [length]. destruct bs as [|[s' n'] bs']; [simpl; lia|].
  assert (s + n + g ≤ hi) by (simpl in Hw; lia). specialize (IH (s + n + g) ltac:(lia) Hw). lia.
Qed.

Section scan.
Context (sp : Z).
Abbreviation B := (2048 * sp).

Lemma block_facts st l1 s n l2 :
  flist (mem st) B (l1 ++ (s, n) :: l2) (B + 2048) →
  blocks_wf 1 B (B + 2048) (l1 ++ (s, n) :: l2) →
  slob_units s st = Ok (n, st) ∧ slob_next s st = Ok (next_to l2 (B + 2048), st) ∧
  slob_last s st = Ok (bool_decide (l2 = []), st) ∧ B ≤ s < B + 2048.
Proof.
  intros Hf Hw. apply flist_app in Hf as [_ [Hh _]].
  apply blocks_wf_app in Hw as [Hw1 (Hs1 & Hn & Hs2 & Hw2)].
  pose proof (after_ge 1 _ _ _ ltac:(lia) Hw1).
  assert (B < next_to l2 (B + 2048) ≤ B + 2048 ∧ (next_to l2 (B + 2048) = B + 2048 ↔ l2 = [])).
  { destruct l2 as [|[s2 n2] l2]; simpl in *; [split; [lia|done]|]. split; [lia|].
    split; [lia|done]. }
  split_and!; [apply (slob_units_ok B _ _ _ _ Hh); lia|apply (slob_next_ok B (base_mod sp) _ _ _ _ Hh); lia| |lia|lia].
  rewrite (slob_last_ok B (base_mod sp) _ _ _ _ Hh) by lia. do 2 f_equal.
  destruct (Z.eqb_spec (next_to l2 (B + 2048)) (B + 2048)); symmetry;
    [apply bool_decide_eq_true|apply bool_decide_eq_false]; tauto.
Qed.

Lemma find_best_loop_ok st l1 bs u align best fuel :
  flist (mem st) B (l1 ++ bs) (B + 2048) → blocks_wf 1 B (B + 2048) (l1 ++ bs) →
  bs ≠ [] → (length bs ≤ fuel)%nat →
  find_best_loop fuel sp u align (prev_of l1) (next_to bs (B + 2048)) best st =
    Ok (consider_all sp u align (prev_of l1) bs (B + 2048) best, st).
Proof.
  revert l1 bs best. induction fuel as [|fuel IH]; intros l1 [|[s n] bs] best Hf Hw Hne Hlen;
    simpl in Hlen; try done; [lia|].
  destruct (block_facts st l1 s n bs Hf Hw) as (Eu & En & El & _).
  cbn [find_best_loop next_to]. st_step Eu. fold (delta_of s align).
  rewrite (st_bind_ok _ _ st (consider sp u align (prev_of l1) s n (next_to bs (B + 2048)) best) st).
  2: { unfold consider, better. destruct (n >=? u + delta_of s align); [|done]. st_step En.
       destruct (n =? u + delta_of s align); [done|]. by destruct (_ <? _). }
  st_step El. cbn [consider_all]. destruct bs as [|[s2 n2] bs]; [done|].
  rewrite bool_decide_false by done. st_step En.
  rewrite <-(prev_of_snoc l1 s n). apply (IH (l1 ++ [(s, n)]));
    [by rewrite <-app_assoc|by rewrite <-app_assoc|done|simpl in *; lia].
Qed.

Lemma find_best_fit_block_ok st bs p size align best :
  page_view st sp bs p → bs ≠ [] →
  find_best_fit_block sp best size align st =
    Ok (consider_all sp (SLOB_UNITS size) align None bs (B + 2048) best, st).
Proof.
  intros [Hp Hram Hf Hw Hfree Hun] Hne. unfold find_best_fit_block.
  assert (sp_get sp st = Ok (p, st)) as E by (unfold sp_get; by rewrite Hp).
  st_step E. rewrite Hfree. apply (find_best_loop_ok st []); [done..|].
  pose proof (blocks_length 1 B (B + 2048) bs ltac:(lia) ltac:(lia) Hw).
  change slob_fuel with 2048%nat. lia.
Qed.
End scan.

(** *** What the scan settles on *)

(** A visited block: its page, the block before it, its address and size. *)
Definition visit : Type := Z * option Z * Z * Z.
Definition v_start (v : visit) : Z := v.1.2.
Definition v_size (v : visit) : Z := v.2.

Fixpoint visits (sp : Z) (prev : option Z) (bs : list (Z * Z)) : list visit :=
  match bs with
  | [] => []
  | (s, n) :: bs => (sp, prev, s, n) :: visits sp (Some s) bs
  end.

Definition fits (u align : Z) (v : visit) : Prop := u + delta_of (v_start v) align ≤ v_size v.

#[global] Instance fits_dec u align v : Decision (fits u align v).
Proof. unfold fits. apply _. Defined.

Definition best_init (u : Z) : best_block_slob := BestBlock u 4097 None None None None.

(** After visiting [seen]: a block that fits has been settled on exactly when
    there is one; and if alignment costs nothing, it is a smallest one. *)
Record best_inv (u align : Z) (seen : list visit) (best : best_block_slob) : Prop := {
  best_none : b_cur best = None → best = best_init u ∧ ∀ v, v ∈ seen → ¬ fits u align v;
  best_some : ∀ s, b_cur best = Some s → object_size best = u ∧
    ∃ sp, b_page best = Some sp ∧ (sp, b_prev best, s, block_size best) ∈ seen ∧
      fits u align (sp, b_prev best, s, block_size best);
  best_least : (∀ v, v ∈ seen → fits u align v → delta_of (v_start v) align = 0) →
    ∀ v, v ∈ seen → fits u align v → block_size best ≤ v_size v
}.

Lemma best_inv_init u align : best_inv u align [] (best_init u).
Proof.
  split; [|done|by intros _ ? ?%elem_of_nil]. intros _. split; [done|]. by intros ? ?%elem_of_nil.
Qed.

Lemma consider_inv u align seen sp prev s n next best :
  1 ≤ n ≤ 2048 → 0 ≤ delta_of s align → best_inv u align seen best →
  best_inv u align (seen ++ [(sp, prev, s, n)]) (consider sp u align prev s n next best).
Proof.
  intros Hn Hdel [H1 H2 H3]. unfold consider.
  assert (∀ v, v ∈ seen ++ [(sp, prev, s, n)] ↔ v ∈ seen ∨ v = (sp, prev, s, n)) as Hin.
  { intros v. rewrite elem_of_app, list_elem_of_singleton. done. }
  assert (fits u align (sp, prev, s, n) ↔ u + delta_of s align ≤ n) as Hfit by done.
  assert (∀ b, b = better sp u prev s n next → fits u align (sp, prev, s, n) →
    ((∀ v, v ∈ seen → fits u align v → delta_of (v_start v) align = 0) → delta_of s align = 0 →
     ∀ v, v ∈ seen → fits u align v → n ≤ v_size v) →
    best_inv u align (seen ++ [(sp, prev, s, n)]) b) as Hbetter.
  { intros b -> Hf Hl. split; [done| |].
    - intros s' [= <-]. split; [done|]. exists sp. split_and!; [done|apply Hin; by right|done].
    - intros Hd v [Hv| ->]%Hin Hfv; [|done]. apply Hl; [|apply (Hd (sp, prev, s, n)); [apply Hin; by right|done]|done..].
      intros v' Hv'. apply Hd, Hin. by left. }
  assert (¬ fits u align (sp, prev, s, n) ∨ (b_cur best ≠ None ∧ (delta_of s align = 0 → block_size best ≤ n)) →
    best_inv u align (seen ++ [(sp, prev, s, n)]) best) as Hkeep.
  { intros Hor. split.
    - intros Hc. destruct (H1 Hc) as [-> Hno]. split; [done|].
      intros v [Hv| ->]%Hin; [by apply Hno|]. by destruct Hor as [?|[? _]].
    - intros s' Hs'. destruct (H2 s' Hs') as (? & sp' & ? & ? & ?). split; [done|]. exists sp'.
      split_and!; [done|apply Hin; by left|done].
    - intros Hd v [Hv| ->]%Hin Hfv.
      + apply H3; [|done|done]. intros v' ?. apply Hd, Hin. by left.
      + destruct Hor as [?|[_ Hle]]; [done|]. apply Hle, (Hd (sp, prev, s, n)); [apply Hin; by right|done]. }
  assert (object_size best = u) as Eo.
  { destruct (b_cur best) as [s'|] eqn:Ec; [by destruct (H2 s' eq_refl)|]. by destruct (H1 eq_refl) as [-> _]. }
  rewrite Z.geb_leb. destruct (Z.leb_spec (u + delta_of s align) n) as [Hf|Hf]; [|apply Hkeep; left; rewrite Hfit; lia].
  destruct (Z.eqb_spec n (u + delta_of s align)) as [Ex|Hx].
  { apply Hbetter; [done|by apply Hfit|]. intros Hd Hz v Hv Hfv. unfold fits in Hfv. specialize (Hd v Hv Hfv). lia. }
  destruct (Z.ltb_spec (n - (u + delta_of s align)) (block_size best - object_size best)) as [Hlt|Hge].
  - apply Hbetter; [done|by apply Hfit|]. intros Hd Hz v Hv Hfv. specialize (H3 Hd v Hv Hfv). lia.
  - apply Hkeep. right. split; [|lia]. intros Hc. destruct (H1 Hc) as [-> _]. simpl in *. lia.
Qed.

Lemma consider_all_inv u align sp lo bs e seen prev best :
  (∀ a, 2048 * sp ≤ a < 2048 * sp + 2048 → 0 ≤ delta_of a align) → 2048 * sp ≤ lo →
  blocks_wf 1 lo (2048 * sp + 2048) bs → best_inv u align seen best →
  best_inv u align (seen ++ visits sp prev bs) (consider_all sp u align prev bs e best).
Proof.
  intros Hdel. revert lo seen prev best. induction bs as [|[s n] bs IH]; intros lo seen prev best Hlo Hw Hi;
    simpl; [by rewrite app_nil_r|].
  destruct Hw as (? & ? & ? & Hw). rewrite cons_middle, app_assoc.
  apply (IH (s + n + 1)); [lia|done|]. apply consider_inv; [lia|apply Hdel; lia|done].
Qed.

(** ** The allocator's state *)

(** The partially free pages, in list order, with their free blocks. *)
Record slob_rep (st : slob) (fs : list (Z * list (Z * Z))) : Prop := {
  rep_list : slob_list st fs.*1;
  rep_pages : ∀ sp bs, (sp, bs) ∈ fs → bs ≠ [] ∧ 0 ≤ sp < 2 ^ 50 ∧
    ∃ p, page_view st sp bs p ∧ PageSlab p = true ∧ PageSlobFree p = true
}.

(** The blocks a search visits. *)
Definition all_visits (fs : list (Z * list (Z * Z))) : list visit :=
  concat ((λ f, visits f.1 None f.2) <$> fs).

Lemma visits_elem sp prev bs v :
  v ∈ visits sp prev bs → ∃ l1 n l2, bs = l1 ++ (v_start v, n) :: l2 ∧ v_size v = n ∧
    v = (sp, match prev_of l1 with Some s => Some s | None => prev end, v_start v, n).
Proof.
  revert prev. induction bs as [|[s n] bs IH]; intros prev; simpl; [by intros ?%elem_of_nil|].
  intros [->|Hv]%elem_of_cons.
  - by exists [], n, bs.
  - destruct (IH _ Hv) as (l1 & n' & l2 & -> & ? & Ev). exists ((s, n) :: l1), n', l2.
    split_and!; [done..|]. rewrite Ev at 1. unfold prev_of. rewrite last_cons.
    by destruct (last l1) as [[]|].
Qed.

Lemma free_units_elem g lo hi bs l1 s n l2 :
  0 ≤ g → lo ≤ hi → blocks_wf g lo hi bs → bs = l1 ++ (s, n) :: l2 → n ≤ free_units bs.
Proof.
  intros Hg Hlo Hw ->. rewrite free_units_app, free_units_cons.
  apply blocks_wf_app in Hw as [Hw1 (? & ? & ? & Hw2)].
  pose proof (free_units_bound g _ _ _ Hg Hlo Hw1).
  destruct l2 as [|[s2 n2] l2]; [unfold free_units at 2; simpl; lia|].
  assert (s + n + g ≤ hi) as Hle by (simpl in Hw2; lia).
  pose proof (free_units_bound g _ _ _ Hg Hle Hw2). lia.
Qed.

Lemma page_addr sp a : 0 ≤ sp < 2 ^ 50 → 2048 * sp ≤ a < 2048 * sp + 2048 → addr_ok a.
Proof. unfold addr_ok. lia. Qed.

Lemma search_pages_ok st size align fs seen best :
  align_ok align → (∀ sp bs, (sp, bs) ∈ fs → bs ≠ [] ∧ 0 ≤ sp < 2 ^ 50 ∧ ∃ p, page_view st sp bs p) →
  best_inv (SLOB_UNITS size) align seen best →
  ∃ best', search_pages size align fs.*1 best st = Ok (best', st) ∧
    best_inv (SLOB_UNITS size) align (seen ++ all_visits fs) best'.
Proof.
  intros Hal. revert seen best. induction fs as [|[sp bs] fs IH]; intros seen best Hfs Hi.
  { exists best. by rewrite app_nil_r. }
  destruct (Hfs sp bs) as (Hne & Hsp & p & Hv); [by left|].
  assert (sp_get sp st = Ok (p, st)) as E by (unfold sp_get; by rewrite (pv_page _ _ _ _ Hv)).
  cbn [fmap list_fmap search_pages fst]. st_step E.
  unfold all_visits. cbn [fmap list_fmap concat fst snd]. rewrite app_assoc.
  fold (all_visits fs).
  assert (∀ a, 2048 * sp ≤ a < 2048 * sp + 2048 → 0 ≤ delta_of a align) as Hdel.
  { intros a Ha. apply delta_of_ok; [done|]. by eapply page_addr. }
  destruct (Z.ltb_spec (units p) (SLOB_UNITS size)) as [Hlt|Hge].
  - apply IH; [intros; apply Hfs; by right|]. destruct Hi as [H1 H2 H3].
    assert (∀ v, v ∈ visits sp None bs → ¬ fits (SLOB_UNITS size) align v) as Hno.
    { intros v Hv' Hf. destruct (visits_elem _ _ _ _ Hv') as (l1 & n & l2 & Eb & En & _).
      pose proof (free_units_elem 1 (2048 * sp) (2048 * sp + 2048) bs l1 _ n l2 ltac:(lia) ltac:(lia)
        (pv_wf _ _ _ _ Hv) Eb). rewrite <-(pv_units _ _ _ _ Hv) in H.
      unfold fits in Hf.
      assert (0 ≤ delta_of (v_start v) align); [|lia]. apply Hdel.
      pose proof (pv_wf _ _ _ _ Hv) as Hw. rewrite Eb in Hw.
      apply blocks_wf_app in Hw as [Hw1 (? & ? & ? & _)].
      pose proof (after_ge 1 _ _ _ ltac:(lia) Hw1). lia. }
    split.
    + intros Hc. destruct (H1 Hc) as [-> Hn]. split; [done|].
      intros v [?|?]%elem_of_app; [by apply Hn|by apply Hno].
    + intros s Hs. destruct (H2 s Hs) as (? & sp' & ? & ? & ?). split; [done|]. exists sp'.
      split_and!; [done|lelem|done].
    + intros Hd v [?|?]%elem_of_app Hfv; [|by destruct (Hno v)].
      apply H3; [|done|done]. intros v' ?. apply Hd. lelem.
  - st_step (find_best_fit_block_ok sp st bs p size align best Hv Hne).
    apply IH; [intros; apply Hfs; by right|].
    eapply consider_all_inv; [done| |exact (pv_wf _ _ _ _ Hv)|done]. lia.
Qed.

Lemma page_entries_list st hd sps :
  is_list (slists st) hd (sp_list <$> sps) → page_entries hd st = Ok (sps, st).
Proof.
  intros Hl. unfold page_entries.
  assert (∀ acc l, walk hd (λ pos acc, match pos with
            | Ptr (sp_list sp) => Ok (Continue (acc ++ [sp])) | _ => Err OOPS end) (sp_list <$> l) acc
          = Ok (Ptr hd, acc ++ l)) as W.
  { intros acc l. revert acc. induction l as [|x l IH]; intros acc; simpl; [by rewrite app_nil_r|].
    rewrite IH, <-app_assoc. done. }
  rewrite (st_bind_ok _ _ st (Ptr hd, sps) st); [done|].
  unfold on_slists. erewrite zoom_ok; [|rewrite (list_for_each_spec _ _ _ _ _ Hl), W; reflexivity].
  by destruct st.
Qed.

Lemma page_entries_ok st sps : slob_list st sps → page_entries free_slob_small st = Ok (sps, st).
Proof. apply page_entries_list. Qed.

(** *** Zeroing *)
Lemma clear_cells_ok st n a :
  (∀ x, a ≤ x < a + Z.of_nat n → is_Some (mem st !! x)) →
  ∃ m', clear_cells n a st = Ok (tt, set_mem m' st) ∧
    same_but (mem st) m' (λ x, a ≤ x < a + Z.of_nat n) ∧
    (∀ x, a ≤ x < a + Z.of_nat n → m' !! x = Some 0).
Proof.
  revert st a. induction n as [|n IH]; intros st a Hram.
  { exists (mem st). split_and!; [by destruct st|apply same_but_refl|lia]. }
  cbn [clear_cells]. rewrite (st_bind_ok _ _ _ _ _ (store_ok st a 0 (Hram a ltac:(lia)) ltac:(lia))).
  destruct (IH (set_mem (<[a := 0]> (mem st)) st) (a + 1)) as (m' & E & [Hd Hs] & Hz).
  { intros x Hx. simpl. rewrite lookup_insert_ne by lia. apply Hram. lia. }
  exists m'. rewrite E. simpl in *. split_and!; [by destruct st| |].
  - split.
    + intros x. rewrite <-Hd, lookup_insert_is_Some'. split; [naive_solver|].
      intros [<-|?]; [apply Hram; lia|done].
    + intros x Hx. rewrite Hs, lookup_insert_ne by lia. done.
  - intros x Hx. destruct (decide (x = a)) as [->|]; [|apply Hz; lia].
    rewrite Hs, lookup_insert_eq by lia. done.
Qed.

Lemma SLOB_UNITS_spec size : SLOB_UNITS size = size / 2 + (if Z.odd size then 1 else 0).
Proof.
  unfold SLOB_UNITS, SLOB_UNIT. replace (size + 2 - 1) with (size + 1) by lia.
  pose proof (Z.div_mod size 2 ltac:(lia)) as H. rewrite Zmod_odd in H.
  pose proof (Z.div_mod (size + 1) 2 ltac:(lia)) as H'.
  pose proof (Z.mod_pos_bound (size + 1) 2 ltac:(lia)). destruct (Z.odd size); lia.
Qed.

Lemma memset_zero_ok st b size :
  0 ≤ size → (∀ x, b ≤ x < b + SLOB_UNITS size → is_Some (mem st !! x)) →
  ∃ m', memset_zero b size st = Ok (tt, set_mem m' st) ∧
    same_but (mem st) m' (λ x, b ≤ x < b + SLOB_UNITS size) ∧
    (∀ x, b ≤ x < b + size / 2 → m' !! x = Some 0).
Proof.
  intros Hsz Hram. rewrite SLOB_UNITS_spec in *.
  pose proof (Z.div_pos size 2 Hsz ltac:(lia)) as Hpos.
  destruct (clear_cells_ok st (Z.to_nat (size / 2)) b) as (m1 & E1 & Hs1 & Hz1).
  { intros x Hx. apply Hram. destruct (Z.odd size); lia. }
  unfold memset_zero. st_step E1. rewrite Z2Nat.id in Hs1, Hz1 by done.
  unfold when. destruct (Z.odd size).
  - destruct (Hram (b + size / 2)) as [v Hv]; [lia|].
    assert (m1 !! (b + size / 2) = Some v) as Hv1 by (destruct Hs1 as [_ ->]; [done|lia]).
    rewrite (st_bind_ok _ _ _ v (set_mem m1 st)) by (unfold load; simpl; by rewrite Hv1).
    unfold store. simpl. rewrite Hv1.
    exists (<[b + size / 2 := s16 (Z.land v 0xff00)]> m1). split; [by destruct st|]. split.
    + eapply same_but_trans; [exact Hs1| |intros x; simpl; lia|intros x Hx; exact Hx].
      split; [|intros x Hx; rewrite lookup_insert_ne; [done|lia]].
      intros x. rewrite lookup_insert_is_Some'. split; [naive_solver|]. intros [<-|?]; [eauto|done].
    + intros x Hx. rewrite lookup_insert_ne by lia. by apply Hz1.
  - exists m1. split_and!; [by destruct st| |done]. by rewrite Z.add_0_r.
Qed.

(** *** Steps on one page leave the others alone *)
Lemma page_view_other sp st st' (P : Z → Prop) q bs p :
  page_step sp st st' P → (∀ a, P a → 2048 * sp ≤ a < 2048 * sp + 2048) → q ≠ sp →
  page_view st q bs p → page_view st' q bs p.
Proof.
  intros [Hm Hp _ _ _] HP Hq [H1 H2 H3 H4 H5 H6].
  assert (∀ a, 2048 * q ≤ a < 2048 * q + 2048 → ¬ P a) as Hout.
  { intros a Ha Ha'%HP. lia. }
  split; try done.
  - by rewrite Hp.
  - intros a Ha. by apply Hm, H2.
  - eapply flist_same; [done|exact H4|done|]. intros a Ha. apply Hout.
    apply (in_blocks_range 1 _ _ bs); [lia|done|done].
Qed.

(** Cells outside the free blocks do not matter to a page. *)
Lemma page_view_mem sp st m' bs p (P : Z → Prop) :
  page_view st sp bs p → same_but (mem st) m' P → (∀ a, P a → ¬ in_blocks a bs) →
  page_view (set_mem m' st) sp bs p.
Proof.
  intros [H1 H2 H3 H4 H5 H6] Hs HP. split; try done.
  - intros a Ha. by apply Hs, H2.
  - eapply flist_same; [done|exact H4|done|]. naive_solver.
Qed.

Definition keep_page (sp : Z) (bs : list (Z * Z)) : list (Z * list (Z * Z)) :=
  if free_units bs =? 0 then [] else [(sp, bs)].

Lemma rep_fresh st f1 sp bs f2 q qs :
  slob_rep st (f1 ++ (sp, bs) :: f2) → (q, qs) ∈ f1 ++ f2 → q ≠ sp.
Proof.
  intros [[Hnd _] _] Hq ->. rewrite fmap_app, fmap_cons in Hnd. simpl in Hnd.
  apply NoDup_cons in Hnd as [_ Hnd]. apply NoDup_fmap_1, NoDup_middle in Hnd as [Hnin _].
  apply Hnin. rewrite <-fmap_app. by apply (list_elem_of_fmap_2 fst _ (sp, qs)).
Qed.

(** A page the search list does not hold has no free units. *)
Definition full_page (st : slob) (sp : Z) : Prop :=
  ∃ p, pages st !! sp = Some p ∧ PageSlab p = true ∧ PageSlobFree p = false ∧ units p = 0.

Lemma slob_rep_step st st' sp f1 bs f2 p' bs' (P : Z → Prop) :
  slob_rep st (f1 ++ (sp, bs) :: f2) → page_step sp st st' P →
  (∀ a, P a → 2048 * sp ≤ a < 2048 * sp + 2048) →
  page_view st' sp bs' p' → PageSlab p' = true →
  (if free_units bs' =? 0 then PageSlobFree p' = false ∧ slob_list st' (f1.*1 ++ f2.*1)
   else PageSlobFree p' = true ∧ slob_list st' (f1.*1 ++ sp :: f2.*1)) →
  slob_rep st' (f1 ++ keep_page sp bs' ++ f2).
Proof.
  intros Hrep Hst HP Hv HS Hc. pose proof Hrep as [Hl Hp].
  assert (∀ q qs, (q, qs) ∈ f1 ++ f2 → qs ≠ [] ∧ 0 ≤ q < 2 ^ 50 ∧
    ∃ p, page_view st' q qs p ∧ PageSlab p = true ∧ PageSlobFree p = true) as Hoth.
  { intros q qs Hq. destruct (Hp q qs) as (? & ? & p & Hpv & ? & ?); [lelem|].
    split_and!; [done|lia|lia|]. exists p. split_and!; [|done..].
    eapply page_view_other; [done|done| |done]. by eapply rep_fresh. }
  unfold keep_page. split.
  - rewrite !fmap_app. by destruct (free_units bs' =? 0); destruct Hc as [_ Hc].
  - intros q qs Hq. destruct (Z.eqb_spec (free_units bs') 0) as [E|E]; [by apply Hoth|].
    apply elem_of_app in Hq as [Hq|[[= -> ->]|Hq]%elem_of_cons]; [apply Hoth; lelem| |apply Hoth; lelem].
    split_and!; [by intros -> |..]; [apply (Hp sp bs); lelem..|].
    exists p'. split_and!; [done..|apply Hc].
Qed.

Lemma slob_rep_mem st m' fs (P : Z → Prop) :
  slob_rep st fs → same_but (mem st) m' P →
  (∀ a sp bs, P a → (sp, bs) ∈ fs → ¬ in_blocks a bs) → slob_rep (set_mem m' st) fs.
Proof.
  intros [Hl Hp] Hs HP. split; [done|]. intros sp bs Hin.
  destruct (Hp sp bs Hin) as (? & ? & p & Hv & ? & ?). split_and!; [done|lia|lia|].
  exists p. split_and!; [|done..]. eapply page_view_mem; [done|done|]. intros a Ha. by eapply HP.
Qed.

(** The counters are not part of the representation. *)
Lemma page_view_counters st sp bs p n r :
  page_view st sp bs p → page_view (set_pages_alloc n (set_released r st)) sp bs p.
Proof. by intros [? ? ? ? ? ?]. Qed.
Lemma slob_rep_counters st fs n r :
  slob_rep st fs → slob_rep (set_pages_alloc n (set_released r st)) fs.
Proof.
  intros [Hl Hp]. split; [done|]. intros sp bs Hin.
  destruct (Hp sp bs Hin) as (? & ? & p & Hv & ? & ?). split_and!; [done|lia|lia|].
  exists p. split_and!; [by apply page_view_counters|done..].
Qed.

(** The units of the allocated block are in none of the remaining blocks. *)
Lemma carve_disjoint lo hi l1 s n l2 d u a :
  blocks_wf 1 lo hi (l1 ++ (s, n) :: l2) → 0 ≤ d → 1 ≤ u → u + d ≤ n → s + d ≤ a < s + d + u →
  ¬ in_blocks a (l1 ++ frag s d ++ frag (s + d + u) (n - d - u) ++ l2).
Proof.
  intros Hw Hd Hu Hn Ha. rewrite !in_blocks_app.
  apply (blocks_wf_weaken 1 0 lo lo) in Hw; [|lia..].
  apply blocks_wf_app in Hw as [Hw1 (Hs & ? & ? & Hw2)]. intros [Hi|[Hi|[Hi|Hi]]].
  - pose proof (in_blocks_after _ _ _ _ Hw1 Hi). lia.
  - unfold frag in Hi. destruct (d =? 0); simpl in Hi; [done|lia].
  - unfold frag in Hi. destruct (n - d - u =? 0); simpl in Hi; [done|lia].
  - pose proof (in_blocks_range 0 _ _ _ _ ltac:(lia) Hw2 Hi). lia.
Qed.

Lemma all_visits_elem fs v :
  v ∈ all_visits fs → ∃ f1 sp l1 n l2 f2, fs = f1 ++ (sp, l1 ++ (v_start v, n) :: l2) :: f2 ∧
    v = (sp, prev_of l1, v_start v, n).
Proof.
  unfold all_visits. intros Hv. apply list_elem_of_In, in_concat in Hv as (vs & Hvs & Hv).
  apply list_elem_of_In, list_elem_of_fmap in Hvs as ([sp bs] & -> & Hin).
  apply list_elem_of_split in Hin as (f1 & f2 & ->). simpl in Hv.
  apply list_elem_of_In, visits_elem in Hv as (l1 & n & l2 & -> & En & Ev).
  exists f1, sp, l1, n, l2, f2. split; [done|]. rewrite Ev at 1. by destruct (prev_of l1).
Qed.

Lemma SLOB_UNITS_pos size : 1 ≤ size → 1 ≤ SLOB_UNITS size.
Proof. intros ?. unfold SLOB_UNITS, SLOB_UNIT. apply Z.div_le_lower_bound; lia. Qed.

(** The search settles on a block that fits, a smallest one if alignment costs
    nothing. *)
Lemma slob_search_found st fs size align :
  let u := SLOB_UNITS size in
  slob_rep st fs → align_ok align → (∃ v, v ∈ all_visits fs ∧ fits u align v) →
  ∃ best f1 sp l1 s n l2 f2,
    search_pages size align fs.*1 (best_init u) st = Ok (best, st) ∧
    b_cur best = Some s ∧ b_page best = Some sp ∧ b_prev best = prev_of l1 ∧ block_size best = n ∧
    fs = f1 ++ (sp, l1 ++ (s, n) :: l2) :: f2 ∧ 0 ≤ delta_of s align ∧ u + delta_of s align ≤ n ∧
    ((∀ v, v ∈ all_visits fs → fits u align v → delta_of (v_start v) align = 0) →
     ∀ v, v ∈ all_visits fs → fits u align v → n ≤ v_size v).
Proof.
  intros u Hrep Hal (v0 & Hv0 & Hf0). pose proof Hrep as [Hl Hp].
  destruct (search_pages_ok st size align fs [] (best_init u)) as (best & Es & [Hb1 Hb2 Hb3]);
    [done| |apply best_inv_init|].
  { intros sp bs Hin. destruct (Hp sp bs Hin) as (? & ? & p & ? & _). eauto. }
  destruct (b_cur best) as [s|] eqn:Ec; [|by destruct (Hb1 eq_refl) as [_ Hno]; destruct (Hno v0)].
  destruct (Hb2 s eq_refl) as (Eo & sp & Epg & Hin & Hfit). simpl in Hin.
  destruct (all_visits_elem _ _ Hin) as (f1 & sp' & l1 & n & l2 & f2 & Efs & Ev).
  unfold v_start in Efs, Ev. simpl in Efs, Ev. injection Ev as <- Eprev En.
  exists best, f1, sp, l1, s, n, l2, f2.
  destruct (Hp sp (l1 ++ (s, n) :: l2)) as (_ & Hspr & p & Hv & _); [rewrite Efs; lelem|].
  destruct (block_facts sp st l1 s n l2 (pv_list _ _ _ _ Hv) (pv_wf _ _ _ _ Hv)) as (_ & _ & _ & Hsr).
  destruct (delta_of_ok s align Hal (page_addr _ _ Hspr Hsr)) as (Hd & _ & _).
  unfold fits in Hfit. unfold v_start, v_size in Hfit. simpl in Hfit.
  split_and!; try done; [lia|]. by rewrite <-En.
Qed.

(** The tail of [slob_alloc]: zero the block if asked to. *)
Lemma zero_block_ok st fs b size gfp :
  1 ≤ size → slob_rep st fs →
  (∀ x, b ≤ x < b + SLOB_UNITS size → is_Some (mem st !! x)) →
  (∀ x sp bs, b ≤ x < b + SLOB_UNITS size → (sp, bs) ∈ fs → ¬ in_blocks x bs) →
  ∃ st', (when (tst gfp GFP_ZERO) (memset_zero b size);; mret (Some b)) st = Ok (Some b, st') ∧
    slob_rep st' fs ∧ same_but (mem st) (mem st') (λ x, b ≤ x < b + SLOB_UNITS size) ∧
    (tst gfp GFP_ZERO = true → ∀ x, b ≤ x < b + size / 2 → mem st' !! x = Some 0) ∧
    pages st' = pages st ∧ slists st' = slists st ∧
    pages_alloc st' = pages_alloc st ∧ released st' = released st.
Proof.
  intros Hsz Hrep Hram Hdis. unfold when. destruct (tst gfp GFP_ZERO).
  - destruct (memset_zero_ok st b size) as (m' & E & Hs & Hz); [lia|done|].
    st_step E. exists (set_mem m' st). split_and!; try done.
    eapply slob_rep_mem; [done|done|]. intros a sp bs Ha. by apply Hdis.
  - exists st. split_and!; try done; by apply same_but_refl.
Qed.

Lemma carve_unique st f1 sp bs f2 bs' qs :
  slob_rep st (f1 ++ (sp, bs) :: f2) → (sp, qs) ∈ f1 ++ keep_page sp bs' ++ f2 → qs = bs'.
Proof.
  intros Hrep Hq. destruct (decide ((sp, qs) ∈ f1 ++ f2)) as [Hin|Hnin].
  - by destruct (rep_fresh _ _ _ _ _ _ _ Hrep Hin).
  - unfold keep_page in Hq. destruct (free_units bs' =? 0); [lelem|].
    assert ((sp, qs) = (sp, bs')) as [= ->]; [lelem|done].
Qed.

(** *** A fresh page *)

(** A page of the page allocator, not used by SLOB. *)
Record fresh_page (st : slob) (fs : list (Z * list (Z * Z))) (sp : Z) : Prop := {
  fresh_notin : sp ∉ fs.*1;
  fresh_range : 0 ≤ sp < 2 ^ 50;
  fresh_page_struct : is_Some (pages st !! sp);
  fresh_node : mapped (slists st) (sp_list sp);
  fresh_ram : ∀ a, 2048 * sp ≤ a < 2048 * sp + 2048 → is_Some (mem st !! a)
}.

Lemma sp_upd_ok st sp f p : pages st !! sp = Some p →
  sp_upd sp f st = Ok (tt, set_pages (<[sp := f p]> (pages st)) st).
Proof. intros Hp. unfold sp_upd. by rewrite Hp. Qed.

(** Pages other than [sp] keep their views when only [sp] changes. *)
Lemma slob_rep_cons st st' fs sp bs p :
  slob_rep st fs → sp ∉ fs.*1 → page_step sp st st' (λ a, 2048 * sp ≤ a < 2048 * sp + 2048) →
  page_view st' sp bs p → bs ≠ [] → 0 ≤ sp < 2 ^ 50 → PageSlab p = true → PageSlobFree p = true →
  slob_list st' (sp :: fs.*1) → slob_rep st' ((sp, bs) :: fs).
Proof.
  intros [Hl Hp] Hnin Hst Hv Hne Hr HS HF Hl'. split; [done|].
  intros q qs [[= -> ->]|Hq]%elem_of_cons; [by eauto 10|].
  destruct (Hp q qs Hq) as (? & ? & pq & Hvq & ? & ?). split_and!; [done|lia|lia|]. exists pq.
  split_and!; [|done..]. eapply page_view_other; [exact Hst|done| |done].
  intros ->. apply Hnin. by apply (list_elem_of_fmap_2 fst _ (sp, qs)).
Qed.

Lemma setup_page_ok st fs sp :
  slob_rep st fs → fresh_page st fs sp →
  ∃ st' p, setup_page sp (2048 * sp) st = Ok (tt, st') ∧
    slob_rep st' ((sp, [(2048 * sp, 2048)]) :: fs) ∧ page_view st' sp [(2048 * sp, 2048)] p ∧
    PageSlab p = true ∧ PageSlobFree p = true ∧
    page_step sp st st' (λ a, 2048 * sp ≤ a < 2048 * sp + 2048).
Proof.
  intros Hrep [Hnin Hr [p Hpg] Hnode Hram]. pose proof Hrep as [Hl Hp]. unfold setup_page.
  change (s16 (SLOB_UNITS PAGE_SIZE)) with 2048. change (SLOB_UNITS PAGE_SIZE) with 2048.
  st_step (sp_upd_ok _ _ _ _ Hpg). do 2 (erewrite st_bind_ok; [|apply sp_upd_ok, lookup_insert_eq]).
  set (p1 := set_free _ _). set (st1 := set_pages _ _).
  assert (pages st1 !! sp = Some p1) as Hp1 by apply lookup_insert_eq.
  destruct (INIT_LIST_HEAD_spec (slists st) _ Hnode) as (h1 & E1 & _ & Hf1).
  rewrite (st_bind_ok _ _ st1 tt (set_slists h1 st1)) by (by apply zoom_ok).
  destruct (set_slob_ok (2048 * sp) (base_mod sp) (set_slists h1 st1) (2048 * sp) 2048 (2048 * sp + 2048))
    as (m' & Es & Hh & Hsame); [done|lia..|]. st_step Es.
  assert (sp_list sp ∉ free_slob_small :: (sp_list <$> fs.*1)) as Hnin'.
  { apply not_elem_of_cons. split; [done|]. by intros (? & [= <-] & ?)%list_elem_of_fmap. }
  destruct (list_add_spec h1 free_slob_small [] (sp_list <$> fs.*1) (sp_list sp)) as (h2 & E2 & Hl2 & Hf2).
  { eapply frame_is_list; [exact Hf1|exact Hl|]. by intros y Hy ->%list_elem_of_singleton. }
  { done. }
  { by apply Hf1. }
  unfold set_slob_page_free. rewrite (st_bind_ok _ _ _ tt
    (set_slists h2 (set_mem m' (set_slists h1 st1)))) by (by apply zoom_ok).
  rewrite (sp_upd_ok _ _ _ p1) by done. set (st' := set_pages _ _).
  assert (page_step sp st st' (λ a, 2048 * sp ≤ a < 2048 * sp + 2048)) as Hst.
  { split; [done|intros q ?; simpl; by rewrite !lookup_insert_ne|done|done|].
    intros a. simpl. destruct Hf1 as [-> _]. apply Hf2. }
  assert (page_view st' sp [(2048 * sp, 2048)] (set_PageSlobFree true p1)) as Hv.
  { split; [simpl; by rewrite lookup_insert_eq|intros a Ha; by apply Hst, Hram|done|simpl; lia|done|done]. }
  exists st', (set_PageSlobFree true p1). split_and!; try done.
  by eapply slob_rep_cons.
Qed.

Section alloc_spec.
Variable alloc_pages : Z → Z → option Z.

(** Allocation from a page of the list. *)
Lemma slob_alloc_found st fs size gfp align :
  let u := SLOB_UNITS size in
  slob_rep st fs → 1 ≤ size ≤ 4096 → align_ok align →
  (∃ v, v ∈ all_visits fs ∧ fits u align v) →
  ∃ f1 sp l1 s n l2 f2 st', let d := delta_of s align in
    fs = f1 ++ (sp, l1 ++ (s, n) :: l2) :: f2 ∧ 0 ≤ d ∧ u + d ≤ n ∧
    ((∀ v, v ∈ all_visits fs → fits u align v → delta_of (v_start v) align = 0) →
     ∀ v, v ∈ all_visits fs → fits u align v → n ≤ v_size v) ∧
    slob_alloc alloc_pages size gfp align st = Ok (Some (s + d), st') ∧
    slob_rep st' (f1 ++ keep_page sp (l1 ++ frag s d ++ frag (s + d + u) (n - d - u) ++ l2) ++ f2) ∧
    (∀ a, (∀ q qs, (q, qs) ∈ fs → ¬ in_blocks a qs) → mem st' !! a = mem st !! a) ∧
    (tst gfp GFP_ZERO = true → ∀ x, s + d ≤ x < s + d + size / 2 → mem st' !! x = Some 0) ∧
    (∀ q, q ≠ sp → pages st' !! q = pages st !! q) ∧
    (free_units (l1 ++ frag s d ++ frag (s + d + u) (n - d - u) ++ l2) = 0 → full_page st' sp) ∧
    (∀ a, mapped (slists st) a ↔ mapped (slists st') a) ∧ (∀ a, is_Some (mem st !! a) ↔ is_Some (mem st' !! a)) ∧
    pages_alloc st' = pages_alloc st ∧ released st' = released st.
Proof.
  intros u Hrep Hsz Hal Hex. pose proof Hrep as [Hl Hp].
  destruct (slob_search_found st fs size align Hrep Hal Hex)
    as (best & f1 & sp & l1 & s & n & l2 & f2 & Es & Ec & Epg & Epr & En & Efs & Hd & Hun & Hbest).
  exists f1, sp, l1, s, n, l2, f2. set (d := delta_of s align) in *. fold u in Hun, Hbest.
  pose proof (SLOB_UNITS_pos size ltac:(lia)) as Hu. fold u in Hu.
  destruct (Hp sp (l1 ++ (s, n) :: l2)) as (_ & Hspr & p & Hv & HS & HF); [rewrite Efs; lelem|].
  pose proof Hl as Hl'. rewrite Efs, fmap_app, fmap_cons in Hl'. simpl in Hl'.
  destruct (slob_carve_ok sp st l1 s n l2 d u p f1.*1 f2.*1) as (st1 & p1 & Ecv & Hv1 & HS1 & Hst & Hc);
    [done..|]. set (bs' := l1 ++ frag s d ++ frag (s + d + u) (n - d - u) ++ l2) in *.
  assert (∀ a, in_blocks a (l1 ++ (s, n) :: l2) → 2048 * sp ≤ a < 2048 * sp + 2048) as HP.
  { intros a Ha. by apply (in_blocks_range 1 _ _ _ _ ltac:(lia) (pv_wf _ _ _ _ Hv)). }
  assert (∀ a, s + d ≤ a < s + d + u → in_blocks a (l1 ++ (s, n) :: l2)) as Hblk.
  { intros a Ha. apply in_blocks_app. right. left. lia. }
  assert (slob_rep st1 (f1 ++ keep_page sp bs' ++ f2)) as Hrep1.
  { eapply slob_rep_step; [by rewrite <-Efs|exact Hst|exact HP|exact Hv1|congruence|].
    rewrite HF in Hc. exact Hc. }
  destruct (zero_block_ok st1 (f1 ++ keep_page sp bs' ++ f2) (s + d) size gfp)
    as (st2 & Ez & Hrep2 & Hsame & Hzero & Epg2 & Esl2 & Epa & Erel); [lia|done|..].
  { intros x Hx. apply (step_mem _ _ _ _ Hst), (pv_ram _ _ _ _ Hv), HP, Hblk, Hx. }
  { intros x q qs Hx Hq Hin. destruct (rep_pages _ _ Hrep1 q qs Hq) as (_ & _ & pq & Hvq & _).
    pose proof (in_blocks_range 1 _ _ _ _ ltac:(lia) (pv_wf _ _ _ _ Hvq) Hin).
    pose proof (HP x (Hblk x Hx)). assert (q = sp) as -> by lia.
    rewrite Efs in Hrep. rewrite (carve_unique _ _ _ _ _ bs' qs Hrep Hq) in Hin. revert Hin.
    by apply (carve_disjoint _ _ _ _ _ _ _ _ _ (pv_wf _ _ _ _ Hv)). }
  exists st2. split_and!; [done|done|done|done| |done| |done|..].
  - unfold slob_alloc. st_step (page_entries_ok _ _ Hl).
    change (s16 (PAGE_SIZE + 1)) with 4097. fold (best_init u). st_step Es.
    rewrite (st_bind_ok _ _ st (Some (s + d)) st1); [exact Ez|].
    rewrite Ec, Epg, (st_bind_ok _ _ st sp st eq_refl), Epr, En. fold (delta_of s align). fold d. fold u.
    rewrite (st_bind_ok _ _ st (s + d) st1); [done|]. rewrite <-Ecv. unfold d, delta_of.
    destruct (align =? 0); [done|]. f_equal. lia.
  - intros a Ha. assert (¬ in_blocks a (l1 ++ (s, n) :: l2)) as Hna.
    { apply (Ha sp). rewrite Efs. lelem. }
    destruct Hsame as [_ ->]; [|intros ?; by apply Hna, Hblk]. by apply (step_mem _ _ _ _ Hst).
  - rewrite Epg2. apply Hst.
  - intros Hz. fold bs' in Hz. rewrite (proj2 (Z.eqb_eq _ _) Hz) in Hc. exists p1. rewrite Epg2.
    split_and!; [apply (pv_page _ _ _ _ Hv1)|congruence|apply Hc|by rewrite (pv_units _ _ _ _ Hv1)].
  - rewrite Esl2. apply Hst.
  - intros a. rewrite (proj1 (step_mem _ _ _ _ Hst)). apply Hsame.
  - rewrite Epa. apply Hst.
  - rewrite Erel. apply Hst.
Qed.

Lemma search_none st fs size align :
  slob_rep st fs → align_ok align → (∀ v, v ∈ all_visits fs → ¬ fits (SLOB_UNITS size) align v) →
  search_pages size align fs.*1 (best_init (SLOB_UNITS size)) st = Ok (best_init (SLOB_UNITS size), st).
Proof.
  intros [Hl Hp] Hal Hno.
  destruct (search_pages_ok st size align fs [] (best_init (SLOB_UNITS size)))
    as (best & Es & [Hb1 Hb2 _]); [done| |apply best_inv_init|].
  { intros sp bs Hin. destruct (Hp sp bs Hin) as (? & ? & p & ? & _). eauto. }
  destruct (b_cur best) as [s|] eqn:Ec.
  - destruct (Hb2 s eq_refl) as (_ & sp & _ & Hin & Hfit). by destruct (Hno _ Hin).
  - destruct (Hb1 eq_refl) as [-> _]. done.
Qed.

(** First fit within one page. *)
Lemma page_alloc_loop_ok sp st l1 k1 s n k2 u align fuel :
  flist (mem st) (2048 * sp) (l1 ++ k1 ++ (s, n) :: k2) (2048 * sp + 2048) →
  blocks_wf 1 (2048 * sp) (2048 * sp + 2048) (l1 ++ k1 ++ (s, n) :: k2) →
  (∀ s' n', (s', n') ∈ k1 → n' < u + delta_of s' align) → u + delta_of s align ≤ n →
  (length k1 < fuel)%nat →
  page_alloc_loop fuel sp u align (prev_of l1) (next_to (k1 ++ (s, n) :: k2) (2048 * sp + 2048)) st =
    (b ← slob_carve sp (prev_of (l1 ++ k1)) s n (delta_of s align) (align_slob s align) u;
     mret (Some b)) st.
Proof.
  revert l1 fuel. induction k1 as [|[s1 n1] k1 IH]; intros l1 [|fuel] Hf Hw Hno Hfit Hlen;
    simpl in Hlen; try lia.
  - destruct (block_facts sp st l1 s n k2 Hf Hw) as (Eu & _). simpl. st_step Eu.
    fold (delta_of s align). rewrite Z.geb_leb, (proj2 (Z.leb_le _ _) Hfit). by rewrite app_nil_r.
  - destruct (block_facts sp st l1 s1 n1 (k1 ++ (s, n) :: k2) Hf Hw) as (Eu & En & El & _).
    simpl. st_step Eu. fold (delta_of s1 align).
    specialize (Hno s1 n1 ltac:(by left)) as Hlt. rewrite Z.geb_leb, (proj2 (Z.leb_gt _ _) Hlt).
    st_step El. rewrite bool_decide_false by (by destruct k1). st_step En.
    rewrite <-(prev_of_snoc l1 s1 n1). rewrite (cons_middle (s1, n1) l1 k1), app_assoc.
    apply (IH (l1 ++ [(s1, n1)])); [by rewrite <-app_assoc..| |done|lia].
    intros s' n' ?. apply Hno. by right.
Qed.

(** No page has room and the page allocator has none: nothing changes. *)
Lemma slob_alloc_oom st fs size gfp align :
  slob_rep st fs → align_ok align → (∀ v, v ∈ all_visits fs → ¬ fits (SLOB_UNITS size) align v) →
  alloc_pages (Z.ldiff gfp GFP_ZERO) 0 = None →
  slob_alloc alloc_pages size gfp align st = Ok (None, st).
Proof.
  intros Hrep Hal Hno Ha. unfold slob_alloc. st_step (page_entries_ok _ _ (rep_list _ _ Hrep)).
  change (s16 (PAGE_SIZE + 1)) with 4097. fold (best_init (SLOB_UNITS size)).
  st_step (search_none _ _ _ _ Hrep Hal Hno). simpl. unfold slob_alloc_new, slob_new_pages.
  by rewrite Ha.
Qed.

Lemma units_bound size : 1 ≤ size ≤ 4096 → 1 ≤ SLOB_UNITS size ≤ 2048.
Proof.
  intros ?. split; [apply SLOB_UNITS_pos; lia|]. unfold SLOB_UNITS, SLOB_UNIT.
  change 2048 with (4097 / 2). apply Z.div_le_mono; lia.
Qed.

Lemma delta_of_page sp align : align_ok align → 0 ≤ sp < 2 ^ 50 → delta_of (2048 * sp) align = 0.
Proof.
  intros Hal Hr. destruct (Z.eqb_spec align 0) as [->|Hne]; [done|].
  apply delta_of_ok; [done|unfold addr_ok; lia|].
  destruct Hal as [?|(k & Hk & ->)]; [done|].
  replace (2 * (2048 * sp)) with (sp * 2 ^ (12 - k) * 2 ^ k).
  - apply Z.mod_mul. lia.
  - rewrite <-Z.mul_assoc, <-Z.pow_add_r by lia. replace (12 - k + k) with 12 by lia. lia.
Qed.

Lemma slob_alloc_new_ok st fs size gfp align sp :
  let u := SLOB_UNITS size in
  slob_rep st fs → 1 ≤ size ≤ 4096 → align_ok align →
  alloc_pages (Z.ldiff gfp GFP_ZERO) 0 = Some sp → fresh_page st fs sp →
  ∃ st', slob_alloc_new alloc_pages size gfp align st = Ok (Some (2048 * sp), st') ∧
    slob_rep st' (keep_page sp (frag (2048 * sp + u) (2048 - u)) ++ fs) ∧
    same_but (mem st) (mem st') (λ a, 2048 * sp ≤ a < 2048 * sp + 2048) ∧
    (∀ q, q ≠ sp → pages st' !! q = pages st !! q) ∧ (u = 2048 → full_page st' sp) ∧
    (∀ a, mapped (slists st) a ↔ mapped (slists st') a) ∧ (∀ a, is_Some (mem st !! a) ↔ is_Some (mem st' !! a)) ∧
    pages_alloc st' = u32 (pages_alloc st + 1) ∧ released st' = released st.
Proof.
  intros u Hrep Hsz Hal Ha Hfr. pose proof (units_bound size Hsz) as Hu. fold u in Hu.
  pose proof (fresh_range _ _ _ Hfr) as Hr. pose proof (delta_of_page sp align Hal Hr) as Hd.
  unfold slob_alloc_new, slob_new_pages. rewrite Ha.
  set (st0 := set_pages_alloc (u32 (pages_alloc st + 1)) st).
  rewrite (st_bind_ok _ _ st (Some (sp * SLOB_UNITS PAGE_SIZE)) st0) by done.
  change (SLOB_UNITS PAGE_SIZE) with 2048. rewrite (Z.mul_comm sp).
  replace (virt_to_page (2048 * sp)) with sp
    by (unfold virt_to_page; change (SLOB_UNITS PAGE_SIZE) with 2048; rewrite Z.mul_comm; symmetry; by apply Z.div_mul).
  destruct (setup_page_ok st0 fs sp) as (st1 & p1 & E1 & Hrep1 & Hv1 & HS1 & HF1 & Hst1);
    [apply (slob_rep_counters _ _ (u32 (pages_alloc st + 1)) (released st)) in Hrep; by destruct st
    |by destruct Hfr|]. st_step E1.
  destruct (slob_carve_ok sp st1 [] (2048 * sp) 2048 [] 0 u p1 [] fs.*1)
    as (st2 & p2 & Ecv & Hv2 & HS2 & Hst2 & Hc); [done|apply (rep_list _ _ Hrep1)|lia..|].
  assert (slob_page_alloc sp size align st1 = Ok (Some (2048 * sp), st2)) as Epg.
  { unfold slob_page_alloc. rewrite (st_bind_ok _ _ st1 p1 st1)
      by (unfold sp_get; by rewrite (pv_page _ _ _ _ Hv1)).
    rewrite (pv_free _ _ _ _ Hv1).
    etransitivity; [apply (page_alloc_loop_ok sp st1 [] [] (2048 * sp) 2048 [] u align slob_fuel)|];
      [apply (pv_list _ _ _ _ Hv1)|apply (pv_wf _ _ _ _ Hv1)|by intros ?? ?%elem_of_nil|lia
      |change slob_fuel with 2048%nat; simpl; lia|].
    rewrite Hd. rewrite (st_bind_ok _ _ st1 (2048 * sp + 0) st2) by (rewrite <-Ecv; done).
    by rewrite Z.add_0_r. }
  st_step Epg. exists st2. split; [done|].
  assert (∀ a, in_blocks a [(2048 * sp, 2048)] → 2048 * sp ≤ a < 2048 * sp + 2048) as HP.
  { intros a [?|[]]. lia. }
  split_and!.
  - rewrite HF1 in Hc. eapply (slob_rep_step st1 st2 sp [] _ fs p2 _ _ Hrep1 Hst2 HP) in Hv2; [|congruence|done].
    simpl in Hv2. unfold frag at 1 in Hv2. simpl in Hv2. rewrite app_nil_r, !Z.add_0_r, Z.sub_0_r in Hv2. done.
  - eapply same_but_trans; [apply Hst1|apply Hst2|done|done].
  - intros q ?. by rewrite (step_pages _ _ _ _ Hst2), (step_pages _ _ _ _ Hst1).
  - intros E. assert (free_units ([] ++ frag (2048 * sp) 0 ++ frag (2048 * sp + 0 + u) (2048 - 0 - u) ++ []) = 0)
      as Hz by (rewrite !free_units_app, !free_units_frag; unfold free_units; simpl; lia).
    rewrite (proj2 (Z.eqb_eq _ _) Hz) in Hc. exists p2.
    split_and!; [apply (pv_page _ _ _ _ Hv2)|congruence|apply Hc|by rewrite (pv_units _ _ _ _ Hv2)].
  - intros a. rewrite <-(step_nodes _ _ _ _ Hst2). apply Hst1.
  - intros a. rewrite <-(proj1 (step_mem _ _ _ _ Hst2)). apply Hst1.
  - by rewrite (step_count _ _ _ _ Hst2), (step_count _ _ _ _ Hst1).
  - by rewrite (step_released _ _ _ _ Hst2), (step_released _ _ _ _ Hst1).
Qed.

(** Allocation from a fresh page: its first units. *)
Lemma slob_alloc_fresh st fs size gfp align sp :
  let u := SLOB_UNITS size in
  slob_rep st fs → 1 ≤ size ≤ 4096 → align_ok align →
  (∀ v, v ∈ all_visits fs → ¬ fits u align v) →
  alloc_pages (Z.ldiff gfp GFP_ZERO) 0 = Some sp → fresh_page st fs sp →
  ∃ st', slob_alloc alloc_pages size gfp align st = Ok (Some (2048 * sp), st') ∧
    slob_rep st' (keep_page sp (frag (2048 * sp + u) (2048 - u)) ++ fs) ∧
    (∀ a, ¬ (2048 * sp ≤ a < 2048 * sp + 2048) → mem st' !! a = mem st !! a) ∧
    (tst gfp GFP_ZERO = true → ∀ x, 2048 * sp ≤ x < 2048 * sp + size / 2 → mem st' !! x = Some 0) ∧
    (∀ q, q ≠ sp → pages st' !! q = pages st !! q) ∧ (u = 2048 → full_page st' sp) ∧
    (∀ a, mapped (slists st) a ↔ mapped (slists st') a) ∧ (∀ a, is_Some (mem st !! a) ↔ is_Some (mem st' !! a)) ∧
    pages_alloc st' = u32 (pages_alloc st + 1) ∧ released st' = released st.
Proof.
  intros u Hrep Hsz Hal Hno Ha Hfr. pose proof (units_bound size Hsz). unfold slob_alloc.
  st_step (page_entries_ok _ _ (rep_list _ _ Hrep)).
  change (s16 (PAGE_SIZE + 1)) with 4097. fold u. fold (best_init u).
  st_step (search_none _ _ _ _ Hrep Hal Hno). cbn [b_cur best_init].
  destruct (slob_alloc_new_ok st fs size gfp align sp) as (st1 & E1 & Hrep1 & Hsame1 & Hq1 & Hfull1 & Hn1 & Hr1 & Epa1 & Erel1);
    [done..|]. fold u in Hrep1, Hfull1. st_step E1.
  destruct (zero_block_ok st1 _ (2048 * sp) size gfp ltac:(lia) Hrep1)
    as (st2 & Ez & Hrep2 & Hsame & Hzero & Epg2 & Esl2 & Epa & Erel).
  { intros x Hx. apply Hsame1, (fresh_ram _ _ _ Hfr). lia. }
  { intros x q qs Hx Hq Hin. destruct (rep_pages _ _ Hrep1 q qs Hq) as (_ & _ & pq & Hvq & _).
    pose proof (in_blocks_range 1 _ _ _ _ ltac:(lia) (pv_wf _ _ _ _ Hvq) Hin).
    assert (q = sp) as -> by lia.
    apply elem_of_app in Hq as [Hq|Hq].
    - unfold keep_page, frag in Hq. destruct (2048 - u =? 0); [by apply elem_of_nil in Hq|].
      destruct (_ =? 0); [by apply elem_of_nil in Hq|]. apply list_elem_of_singleton in Hq as [= ->].
      simpl in Hin. lia.
    - apply (fresh_notin _ _ _ Hfr). by apply (list_elem_of_fmap_2 fst _ (sp, qs)). }
  exists st2. unfold full_page. rewrite Epg2, Esl2. split_and!; [done|done| |done|done|done|done| |congruence|congruence].
  - intros a Hna. destruct Hsame as [_ ->]; [|lia]. by apply Hsame1.
  - intros a. rewrite Hr1. apply Hsame.
Qed.
End alloc_spec.
