(* ===== verification/SlobFree.v ===== *)
(** * Freeing in SLOB

    [slob_free] puts a block back in address order and merges it with its
    neighbours.  The file states this on the view of a page ([insert_block]),
    shows that no cell outside free blocks is touched, that allocation and
    freeing preserve the allocator's invariant, and that freeing undoes
    allocation. *)

From S2P Require Import Prelude KList Slob SlobAlloc.

Local Open Scope Z_scope.

(** The block [(b, u)] joined with the block that follows it. *)
Definition join_next (b u : Z) (l2 : list (Z * Z)) : Z * list (Z * Z) :=
  match l2 with
  | (s, n) :: r => if b + u =? s then (u + n, r) else (u, l2)
  | [] => (u, [])
  end.

(** Inserting the block between [l1] and [l2], joined with its neighbours. *)
Definition insert_block (l1 : list (Z * Z)) (b u : Z) (l2 : list (Z * Z)) : list (Z * Z) :=
  let '(u', l2') := join_next b u l2 in
  match last l1 with
  | Some (p, k) => if p + k =? b then removelast l1 ++ (p, k + u') :: l2' else l1 ++ (b, u') :: l2'
  | None => (b, u') :: l2'
  end.

(** The block lies between [l1] and [l2]. *)
Definition between (B : Z) (l1 : list (Z * Z)) (b u : Z) (l2 : list (Z * Z)) : Prop :=
  after 0 B l1 ≤ b ∧ b + u ≤ next_to l2 (B + 2048).

Lemma join_next_ok B hi b u l2 lo :
  blocks_wf 1 lo hi l2 → b + u ≤ next_to l2 hi → 1 ≤ u → hi = B + 2048 → b < hi →
  let '(u', l2') := join_next b u l2 in
  1 ≤ u ∧ u ≤ u' ∧ b + u' ≤ hi ∧ blocks_wf 1 (b + u' + 1) hi l2' ∧
  free_units l2 + u = u' + free_units l2' ∧
  (∀ a, b ≤ a < b + u' ∨ in_blocks a l2' ↔ b ≤ a < b + u ∨ in_blocks a l2).
Proof.
  intros Hw Hb Hu -> Hlt. unfold join_next. destruct l2 as [|[s n] r]; simpl in *.
  - split_and!; try done; lia.
  - destruct Hw as (? & ? & ? & Hw). destruct (Z.eqb_spec (b + u) s) as [E|E].
    + rewrite free_units_cons. split_and!; try lia.
      * by replace (b + (u + n) + 1) with (s + n + 1) by lia.
      * intros a. destruct (decide (in_blocks a r)); [tauto|]. intuition lia.
    + rewrite free_units_cons. split_and!; try lia; [|done]. simpl. split_and!; try lia. done.
Qed.

(** The merged list is well formed, and holds the old free units and the block. *)
Lemma insert_block_ok B l1 b u l2 :
  blocks_wf 1 B (B + 2048) (l1 ++ l2) → between B l1 b u l2 → B ≤ b → 1 ≤ u →
  blocks_wf 1 B (B + 2048) (insert_block l1 b u l2) ∧
  free_units (insert_block l1 b u l2) = free_units (l1 ++ l2) + u ∧
  (∀ a, in_blocks a (insert_block l1 b u l2) ↔ b ≤ a < b + u ∨ in_blocks a (l1 ++ l2)).
Proof.
  intros Hw [Hb1 Hb2] Hb Hu. apply blocks_wf_app in Hw as [Hw1 Hw2].
  assert (b < B + 2048) as Hlt.
  { destruct l2 as [|[s n] r]; simpl in *; lia. }
  pose proof (join_next_ok B _ b u l2 _ Hw2 Hb2 Hu eq_refl Hlt) as Hj. unfold insert_block.
  destruct (join_next b u l2) as [u' l2']. destruct Hj as (_ & Hu' & Hhi & Hw' & Hfu & Hin).
  rewrite free_units_app. setoid_rewrite in_blocks_app.
  destruct l1 as [|[p k] l _] using rev_ind; simpl.
  { rewrite free_units_cons, free_units_nil. split_and!; try done; [lia..|].
    intros a. rewrite Hin. tauto. }
  rewrite last_snoc. unfold after in Hb1. rewrite last_snoc in Hb1.
  destruct (Z.eqb_spec (p + k) b) as [E|E].
  - rewrite removelast_last. apply blocks_wf_app in Hw1 as [Hw1 (Hp & Hk & Hpk & _)]. split_and!.
    + apply blocks_wf_app. split; [done|]. simpl. split_and!; try lia.
      by replace (p + (k + u') + 1) with (b + u' + 1) by lia.
    + rewrite !free_units_app, !free_units_cons, free_units_nil. lia.
    + intros a. specialize (Hin a). rewrite !in_blocks_app. simpl.
      assert (p ≤ a < p + (k + u') ↔ p ≤ a < p + k ∨ b ≤ a < b + u') as -> by lia. tauto.
  - split_and!.
    + apply blocks_wf_app. split; [done|]. rewrite after_cons || unfold after. rewrite last_snoc.
      simpl. split_and!; try lia. done.
    + rewrite !free_units_app, !free_units_cons, free_units_nil. lia.
    + intros a. specialize (Hin a). rewrite !in_blocks_app. simpl. tauto.
Qed.

(** Accesses to memory do not look at the pages. *)
Lemma set_slob_pages s n nx st m' v :
  set_slob s n nx st = Ok (tt, set_mem m' st) →
  set_slob s n nx (set_pages v st) = Ok (tt, set_mem m' (set_pages v st)).
Proof.
  unfold set_slob, store, mbind, st_bind. intros E. destruct (1 <? n).
  - destruct (mem st !! s) eqn:E1; simpl in *; [|done]. rewrite E1. simpl.
    destruct (_ !! (s + 1)); [|done]. by injection E as <-.
  - destruct (mem st !! s) eqn:E1; simpl in *; [|done]. rewrite E1. by injection E as <-.
Qed.

Section reinsert.
Context (sp : Z).
Abbreviation B := (2048 * sp).
Implicit Types (st : slob).

(** The search stops between [l1] and [l2]. *)
Lemma free_loop_ok st m1 q j m2 l2 b fuel :
  flist (mem st) B (m1 ++ (q, j) :: m2 ++ l2) (B + 2048) →
  blocks_wf 1 B (B + 2048) (m1 ++ (q, j) :: m2 ++ l2) →
  (∀ s n, (s, n) ∈ m2 → s < b) → b ≤ next_to l2 (B + 2048) → (length m2 < fuel)%nat →
  ∃ p, prev_of ((q, j) :: m2) = Some p ∧
    free_loop fuel b q (next_to (m2 ++ l2) (B + 2048)) st = Ok ((p, next_to l2 (B + 2048)), st).
Proof.
  revert m1 q j fuel. induction m2 as [|[s n] m2 IH]; intros m1 q j [|fuel] Hf Hw Hlt Hge Hlen;
    simpl in Hlen; try lia.
  - exists q. split; [done|]. cbn [free_loop app]. rewrite Z.gtb_ltb.
    by rewrite (proj2 (Z.ltb_ge _ _) Hge).
  - cbn [free_loop app next_to]. specialize (Hlt s n ltac:(by left)) as Hs.
    rewrite Z.gtb_ltb, (proj2 (Z.ltb_lt _ _) Hs).
    assert (m1 ++ (q, j) :: ((s, n) :: m2) ++ l2 = (m1 ++ [(q, j)]) ++ (s, n) :: m2 ++ l2) as Eapp
      by (by rewrite <-app_assoc). rewrite Eapp in Hf, Hw.
    destruct (block_facts sp st (m1 ++ [(q, j)]) s n (m2 ++ l2) Hf Hw) as (_ & En & _ & _).
    st_step En. destruct (IH (m1 ++ [(q, j)]) s n fuel) as (p & Ep & E); [done..| |done|lia|].
    { intros s' n' ?. eapply Hlt. by right. }
    exists p. split; [|done]. rewrite <-Ep. unfold prev_of.
    rewrite (last_cons (q, j)), last_cons. by destruct (last m2).
Qed.

(** The facts about the free list with a gap for the block that the writes of
    [slob_reinsert] rely on. *)
Record gap_ok st (l1 : list (Z * Z)) (b u : Z) (l2 : list (Z * Z)) : Prop := {
  gap_ram : ∀ a, B ≤ a < B + 2048 → is_Some (mem st !! a);
  gap_list : flist (mem st) B (l1 ++ l2) (B + 2048);
  gap_wf : blocks_wf 1 B (B + 2048) (l1 ++ l2);
  gap_between : between B l1 b u l2;
  gap_base : B ≤ b;
  gap_units : 1 ≤ u
}.

Lemma gap_arith st l1 b u l2 :
  gap_ok st l1 b u l2 →
  b < B + 2048 ∧ B < next_to l2 (B + 2048) ≤ B + 2048 ∧ u ≤ 2048 ∧
  blocks_wf 1 B (B + 2048) l1 ∧ blocks_wf 1 (b + u) (B + 2048) l2 ∧ after 0 B l1 ≤ b.
Proof.
  intros [_ _ Hw [Hb1 Hb2] Hb Hu]. apply blocks_wf_app in Hw as [Hw1 Hw2].
  assert (next_to l2 (B + 2048) ≤ B + 2048).
  { destruct l2 as [|[s n] r]; simpl in *; lia. }
  split_and!; try lia; try done. destruct l2 as [|[s n] r]; simpl in *; [done|]. naive_solver lia.
Qed.

(** Writing the block, joined with its successor. *)
Lemma put_block st l1 b u l2 :
  gap_ok st l1 b u l2 → let '(u', l2') := join_next b u l2 in
  ∃ m', set_slob b u' (next_to l2' (B + 2048)) st = Ok (tt, set_mem m' st) ∧
    flist m' B ((b, u') :: l2') (B + 2048) ∧ flist m' B l1 (next_to l2 (B + 2048)) ∧
    blocks_wf 1 b (B + 2048) ((b, u') :: l2') ∧
    same_but (mem st) m' (λ a, b ≤ a < b + u').
Proof.
  intros Hg. destruct (gap_arith _ _ _ _ _ Hg) as (Hlt & Hnx & Hu2 & Hw1 & Hw2 & Haf).
  destruct Hg as [Hram Hf Hw [Hb1 Hb2] Hb Hu]. apply flist_app in Hf as [Hf1 Hf2].
  pose proof (join_next_ok B _ b u l2 _ Hw2 Hb2 Hu eq_refl Hlt) as Hj.
  assert (∀ u' l2', join_next b u l2 = (u', l2') → flist (mem st) B l2' (B + 2048)) as Hfl.
  { unfold join_next. intros u' l2'. destruct l2 as [|[s n] r]; [by intros [= <- <-]|].
    destruct (_ =? _); intros [= <- <-]; [by destruct Hf2|done]. }
  destruct (join_next b u l2) as [u' l2']. specialize (Hfl _ _ eq_refl).
  destruct Hj as (_ & Hu' & Hhi & Hw' & Hfu & Hin).
  assert (B < next_to l2' (B + 2048) ≤ B + 2048) as Hnx'.
  { destruct l2' as [|[s n] r]; simpl in *; lia. }
  destruct (set_slob_ok B (base_mod sp) st b u' (next_to l2' (B + 2048))) as (m' & E & Hh & Hsame);
    [intros a Ha; apply Hram; lia|lia..|].
  exists m'. split_and!; [done| | |simpl; split_and!; try lia; done|done].
  - split; [done|]. eapply flist_same; [done|exact Hw'|done|].
    intros a Ha ?. pose proof (in_blocks_range 1 _ _ _ _ ltac:(lia) Hw' Ha). lia.
  - eapply flist_same; [done|exact Hw1|done|]. intros a Ha ?.
    apply (blocks_wf_weaken 1 0 B B) in Hw1; [|lia..].
    pose proof (in_blocks_after _ _ _ _ Hw1 Ha). lia.
Qed.

Lemma sp_get_ok st p : pages st !! sp = Some p → sp_get sp st = Ok (p, st).
Proof. intros Hp. unfold sp_get. by rewrite Hp. Qed.

(** Reinsertion in front of all free blocks. *)
Lemma reinsert_front st b u s n l2 p :
  gap_ok st [] b u ((s, n) :: l2) → pages st !! sp = Some p → free p = s →
  let bs' := insert_block [] b u ((s, n) :: l2) in
  ∃ m', slob_reinsert sp b u st =
      Ok (tt, set_mem m' (set_pages (<[sp := set_free (next_to bs' (B + 2048)) p]> (pages st)) st)) ∧
    flist m' B bs' (B + 2048) ∧ same_but (mem st) m' (λ a, in_blocks a bs').
Proof.
  intros Hg Hp Hfree. pose proof (put_block _ _ _ _ _ Hg) as Hput.
  destruct (gap_arith _ _ _ _ _ Hg) as (Hlt & Hnx & Hu2 & Hw1 & Hw2 & Haf).
  destruct Hg as [Hram Hf Hw [Hb1 Hb2] Hb Hu]. simpl in Hb2.
  destruct (block_facts sp st [] s n l2 Hf Hw) as (Eu & En & _ & Hs).
  unfold slob_reinsert. st_step (sp_get_ok _ _ Hp). rewrite Hfree.
  rewrite (proj2 (Z.ltb_lt b s)) by lia. unfold insert_block, join_next in *. simpl in Hw2.
  destruct (Z.eqb_spec (b + u) s) as [E|E].
  - destruct Hput as (m' & Es & Hf' & _ & _ & Hsame).
    rewrite (st_bind_ok _ _ st (u + n) (set_pages (<[sp := set_free (next_to l2 (B + 2048)) p]> (pages st)) st)).
    2: { st_step Eu. st_step En. st_step (sp_upd_ok _ _ _ _ Hp). rewrite s16_id by lia. done. }
    set (st1 := set_pages _ st). rewrite (st_bind_ok _ _ st1 (set_free (next_to l2 (B + 2048)) p) st1)
      by (apply sp_get_ok; simpl; by rewrite lookup_insert_eq).
    assert (set_slob b (u + n) (next_to l2 (B + 2048)) st1 = Ok (tt, set_mem m' st1)) as Es1
      by (by apply set_slob_pages).
    st_step Es1. exists m'. simpl in Hf'. split_and!; [|done|].
    + rewrite (sp_upd_ok _ _ _ (set_free (next_to l2 (B + 2048)) p)) by (simpl; by rewrite lookup_insert_eq).
      simpl. rewrite insert_insert_eq. done.
    + split; [apply Hsame|]. intros a Ha. apply Hsame. simpl in Ha. tauto.
  - destruct Hput as (m' & Es & Hf' & _ & _ & Hsame).
    rewrite (st_bind_ok _ _ st u st eq_refl). st_step (sp_get_ok _ _ Hp). rewrite Hfree.
    simpl in Es. st_step Es. exists m'. split_and!; [|done|].
    + by rewrite (sp_upd_ok _ _ _ p).
    + split; [apply Hsame|]. intros a Ha. apply Hsame. simpl in Ha. tauto.
Qed.

(** The block before the gap, once the freed block has been written. *)
Definition close_gap (prev b : Z) : ST slob unit :=
  pu ← slob_units prev;
  if prev + pu =? b then
    bu ← slob_units b;
    n ← slob_next b;
    set_slob prev (s16 (bu + pu)) n
  else set_slob prev pu b.

Lemma close_gap_ok st l1 q k b u l2 e :
  (∀ a, B ≤ a < B + 2048 → is_Some (mem st !! a)) →
  flist (mem st) B ((b, u) :: l2) (B + 2048) → flist (mem st) B (l1 ++ [(q, k)]) e →
  blocks_wf 1 b (B + 2048) ((b, u) :: l2) → blocks_wf 1 B (B + 2048) (l1 ++ [(q, k)]) →
  q + k ≤ b → B < e →
  let bs' := if q + k =? b then l1 ++ (q, k + u) :: l2 else (l1 ++ [(q, k)]) ++ (b, u) :: l2 in
  ∃ m', close_gap q b st = Ok (tt, set_mem m' st) ∧ flist m' B bs' (B + 2048) ∧
    same_but (mem st) m' (λ a, in_blocks a bs').
Proof.
  intros Hram [Hhb Hf2] Hf1 (_ & Hu & Hub & Hw2) Hw1 Hqb He bs'.
  apply flist_app in Hf1 as [Hf1 [Hhq _]]. simpl in Hf1, Hhq.
  apply blocks_wf_app in Hw1 as [Hw1 (Hq & Hk & Hqk & _)].
  pose proof (after_ge 1 _ _ _ ltac:(lia) Hw1) as Haf.
  assert (∀ a, in_blocks a l1 → a < q) as Hl1.
  { intros a Ha. apply (blocks_wf_weaken 1 0 B B) in Hw1 as Hw0; [|lia..].
    pose proof (in_blocks_after _ _ _ _ Hw0 Ha). unfold after in *. destruct (last l1) as [[]|]; lia. }
  assert (∀ a, in_blocks a l2 → b + u < a) as Hl2.
  { intros a Ha. pose proof (in_blocks_range 1 _ _ _ _ ltac:(lia) Hw2 Ha). lia. }
  assert (B < next_to l2 (B + 2048) ≤ B + 2048) as Hnx.
  { destruct l2 as [|[s n] r]; simpl in *; lia. }
  unfold close_gap. st_step (slob_units_ok B st q k e Hhq Hk He). subst bs'.
  destruct (Z.eqb_spec (q + k) b) as [E|E].
  - st_step (slob_units_ok B st b u _ Hhb Hu ltac:(lia)).
    st_step (slob_next_ok B (base_mod sp) st b u _ Hhb ltac:(lia) Hnx).
    rewrite s16_id by lia. replace (u + k) with (k + u) by lia.
    destruct (set_slob_ok B (base_mod sp) st q (k + u) (next_to l2 (B + 2048))) as (m' & Es & Hh & Hsame);
      [intros a Ha; apply Hram; lia|lia..|].
    exists m'. split_and!; [done| |].
    + apply flist_app. simpl. split_and!; [|done|].
      * eapply flist_same; [done|exact Hw1|done|]. intros a Ha ?. specialize (Hl1 a Ha). lia.
      * eapply flist_same; [done|exact Hw2|done|]. intros a Ha ?. specialize (Hl2 a Ha). lia.
    + split; [apply Hsame|]. intros a Ha. apply Hsame. intros ?. apply Ha, in_blocks_app. right. by left.
  - destruct (set_slob_ok B (base_mod sp) st q k b) as (m' & Es & Hh & Hsame);
      [intros a Ha; apply Hram; lia|lia..|].
    exists m'. split_and!; [done| |].
    + rewrite <-app_assoc. apply flist_app. simpl. split_and!; [|done| |].
      * eapply flist_same; [done|exact Hw1|done|]. intros a Ha ?. specialize (Hl1 a Ha). lia.
      * eapply hdr_same; [done|lia|done|]. intros a ??. lia.
      * eapply flist_same; [done|exact Hw2|done|]. intros a Ha ?. specialize (Hl2 a Ha). lia.
    + split; [apply Hsame|]. intros a Ha. apply Hsame. intros ?. apply Ha. rewrite !in_blocks_app.
      left. right. by left.
Qed.

(** Reinsertion behind the block [(q, k)]. *)
Lemma reinsert_middle st b u l1 q k l2 p :
  gap_ok st (l1 ++ [(q, k)]) b u l2 → pages st !! sp = Some p →
  free p = next_to (l1 ++ [(q, k)]) (B + 2048) →
  let bs' := insert_block (l1 ++ [(q, k)]) b u l2 in
  ∃ m', slob_reinsert sp b u st = Ok (tt, set_mem m' st) ∧
    flist m' B bs' (B + 2048) ∧ same_but (mem st) m' (λ a, in_blocks a bs') ∧
    next_to bs' (B + 2048) = free p.
Proof.
  intros Hg Hp Hfree. pose proof (put_block _ _ _ _ _ Hg) as Hput.
  destruct (gap_arith _ _ _ _ _ Hg) as (Hlt & Hnx & Hu2 & Hw1 & Hw2 & Haf).
  pose proof Hg as [Hram Hf Hw [Hb1 Hb2] Hb Hu].
  assert (∀ s n, (s, n) ∈ l1 ++ [(q, k)] → s < b) as Hbelow.
  { intros s n (k1 & k2 & E)%list_elem_of_split. clear -E Hw1 Haf. rewrite E in Hw1, Haf.
    apply (blocks_wf_weaken 1 0 B B) in Hw1; [|lia..].
    apply blocks_wf_app in Hw1 as [Hw1 (? & ? & ? & Hw2)].
    pose proof (after_ge 0 _ _ _ ltac:(lia) Hw2). unfold after in Haf, H2. rewrite last_app_cons in Haf.
    rewrite last_cons in Haf. destruct (last k2) as [[]|]; lia. }
  destruct (l1 ++ [(q, k)]) as [|[f fn] m2] eqn:El; [by destruct l1|].
  assert (f < b) as Hfb by (eapply Hbelow; by left). pose proof Hfree as Hfree0. simpl in Hfree.
  unfold slob_reinsert. st_step (sp_get_ok _ _ Hp). rewrite Hfree.
  rewrite (proj2 (Z.ltb_ge b f)) by lia.
  destruct (block_facts sp st [] f fn (m2 ++ l2) Hf Hw) as (_ & En & _ & _). st_step En.
  destruct (free_loop_ok st [] f fn m2 l2 b slob_fuel) as (p' & Ep & Eloop); [done..| |lia| |].
  { intros s n ?. eapply Hbelow. by right. }
  { pose proof (blocks_length 1 B (B + 2048) _ ltac:(lia) ltac:(lia) Hw1) as Hlen. simpl in Hlen.
    change slob_fuel with 2048%nat. lia. }
  assert (p' = q) as -> by (rewrite <-El, prev_of_snoc in Ep; by injection Ep).
  st_step Eloop. cbv beta iota.
  rewrite <-El in *. pose proof Hf as Hf'. pose proof Hw as Hw'. rewrite <-app_assoc in Hf', Hw'.
  destruct (block_facts sp st l1 q k l2 Hf' Hw') as (_ & _ & Elast & _). st_step Elast.
  assert (q + k ≤ b) as Hqk by (unfold after in Haf; rewrite last_snoc in Haf; lia).
  assert (∀ u' l2', join_next b u l2 = (u', l2') →
    (if negb (bool_decide (l2 = [])) && (b + u =? next_to l2 (B + 2048)) then
       u0 ← slob_units (next_to l2 (B + 2048)); n ← slob_next (next_to l2 (B + 2048));
       set_slob b (s16 (u + u0)) n
     else set_slob b u (next_to l2 (B + 2048))) st = set_slob b u' (next_to l2' (B + 2048)) st) as Ejoin.
  { unfold join_next. intros u' l2'. destruct l2 as [|[s n] r]; [by intros [= <- <-]|]. simpl.
    destruct (b + u =? s); intros [= <- <-]; [|done].
    destruct (block_facts sp st (l1 ++ [(q, k)]) s n r Hf Hw) as (Eu & En' & _ & ?).
    st_step Eu. st_step En'. simpl in Hw2. by rewrite s16_id by lia. }
  assert (1 ≤ k) as Hk by (by apply blocks_wf_app in Hw1 as [_ (_ & ? & _)]).
  unfold insert_block. rewrite last_snoc, removelast_last.
  destruct (join_next b u l2) as [u' l2']. destruct Hput as (m1 & Es & Hf2' & Hf1' & Hw2' & Hsame1).
  rewrite (st_bind_ok _ _ st tt (set_mem m1 st)) by (by rewrite (Ejoin u' l2')).
  destruct (close_gap_ok (set_mem m1 st) l1 q k b u' l2' (next_to l2 (B + 2048)))
    as (m2' & Ec & Hf2 & Hsame2); [|done..|lia|].
  { intros a Ha. by apply Hsame1, Hram. }
  exists m2'. split_and!; [by unfold close_gap in Ec; rewrite Ec; destruct st|done| |].
  - eapply same_but_trans; [exact Hsame1|exact Hsame2| |done].
    intros a Ha. simpl in Ha. destruct (Z.eqb_spec (q + k) b); rewrite !in_blocks_app; simpl; [|by auto].
    right. left. lia.
  - rewrite <-Hfree, Hfree0. destruct (q + k =? b); by rewrite !next_to_app.
Qed.
End reinsert.

(** A block disjoint from the free blocks has a place between two of them. *)
Lemma blocks_split lo hi bs b u :
  blocks_wf 1 lo hi bs → lo ≤ b → 1 ≤ u → b + u ≤ hi →
  (∀ a, b ≤ a < b + u → ¬ in_blocks a bs) →
  ∃ l1 l2, bs = l1 ++ l2 ∧ after 0 lo l1 ≤ b ∧ b + u ≤ next_to l2 hi.
Proof.
  revert lo. induction bs as [|[s n] bs IH]; intros lo Hw Hlo Hu Hhi Hd.
  { by exists [], []. }
  destruct Hw as (? & ? & ? & Hw). destruct (Z.lt_ge_cases s b) as [Hs|Hs].
  - assert (s + n ≤ b) as Hsn.
    { destruct (Z.lt_ge_cases b (s + n)) as [?|?]; [|done]. exfalso. apply (Hd b); [lia|]. left. lia. }
    destruct (IH (s + n)) as (l1 & l2 & -> & Ha & Hb); [|done|done|done| |].
    { eapply blocks_wf_weaken; [..|exact Hw]; lia. }
    { intros a Ha ?. apply (Hd a Ha). by right. }
    exists ((s, n) :: l1), l2. split_and!; [done| |done]. rewrite after_cons.
    replace (s + n + 0) with (s + n) by lia. done.
  - exists [], ((s, n) :: bs). split_and!; [done|done|]. simpl.
    destruct (Z.lt_ge_cases s (b + u)) as [?|?]; [|done]. exfalso. apply (Hd s); [lia|]. left. lia.
Qed.

(** ** The invariant *)
Record slob_wf (st : slob) (fs : list (Z * list (Z * Z))) : Prop := {
  wf_rep : slob_rep st fs;
  wf_partial : ∀ sp bs, (sp, bs) ∈ fs → free_units bs < 2048;
  wf_other : ∀ sp p, pages st !! sp = Some p → sp ∉ fs.*1 →
    PageSlobFree p = false ∧ (PageSlab p = true → units p = 0)
}.

(** [u] units at [b] are allocated: they lie in a page of SLOB and in none of
    its free blocks. *)
Record allocated (st : slob) (fs : list (Z * list (Z * Z))) (b u : Z) (p : slob_page) : Prop := {
  al_page : pages st !! virt_to_page b = Some p;
  al_slab : PageSlab p = true;
  al_range : 0 ≤ virt_to_page b < 2 ^ 50;
  al_size : 1 ≤ u ∧ b + u ≤ 2048 * virt_to_page b + 2048;
  al_ram : ∀ a, 2048 * virt_to_page b ≤ a < 2048 * virt_to_page b + 2048 → is_Some (mem st !! a);
  al_node : mapped (slists st) (sp_list (virt_to_page b));
  al_disjoint : ∀ bs a, (virt_to_page b, bs) ∈ fs → b ≤ a < b + u → ¬ in_blocks a bs
}.

Lemma virt_to_page_base b : 2048 * virt_to_page b ≤ b.
Proof.
  unfold virt_to_page. change (SLOB_UNITS PAGE_SIZE) with 2048. apply Z.mul_div_le. lia.
Qed.

Lemma page_base_end b : page_base (b + 2048) = 2048 * virt_to_page b + 2048.
Proof.
  unfold page_base, virt_to_page. change (SLOB_UNITS PAGE_SIZE) with 2048.
  replace (b + 2048) with (b + 1 * 2048) by lia. rewrite Z.div_add by lia. lia.
Qed.

Lemma slob_rep_remove st st' sp f1 bs f2 :
  slob_rep st (f1 ++ (sp, bs) :: f2) → page_step sp st st' (λ _, False) →
  slob_list st' (f1.*1 ++ f2.*1) → slob_rep st' (f1 ++ f2).
Proof.
  intros Hrep Hst Hl. split; [by rewrite fmap_app|]. intros q qs Hq.
  destruct (rep_pages _ _ Hrep q qs) as (? & ? & pq & Hv & ? & ?); [lelem|].
  split_and!; [done|lia|lia|]. exists pq. split_and!; [|done..].
  eapply page_view_other; [exact Hst|done| |done]. by eapply rep_fresh.
Qed.

(** No page but [sp] is changed, and nothing is unmapped. *)
Definition kept_pages (sp : Z) (st st' : slob) : Prop :=
  (∀ q, q ≠ sp → pages st' !! q = pages st !! q) ∧
  (∀ a, mapped (slists st) a ↔ mapped (slists st') a) ∧
  (∀ a, is_Some (mem st !! a) ↔ is_Some (mem st' !! a)).

Section free_spec.
Context (st : slob) (fs : list (Z * list (Z * Z))) (b size : Z) (p : slob_page).
Let u := SLOB_UNITS size.
Let sp := virt_to_page b.
Hypotheses (Hwf : slob_wf st fs) (Hsz : 1 ≤ size ≤ 4096) (Hal : allocated st fs b u p).

Lemma slob_free_full :
  sp ∉ fs.*1 → u < 2048 →
  ∃ st', slob_free (Addr b) size st = Ok (tt, st') ∧ slob_wf st' ((sp, [(b, u)]) :: fs) ∧
    (∀ a, ¬ (b ≤ a < b + u) → mem st' !! a = mem st !! a) ∧
    pages_alloc st' = pages_alloc st ∧ released st' = released st ∧ kept_pages sp st st'.
Proof.
  intros Hnin Hlt. destruct Hwf as [Hrep Hpart Hoth]. destruct Hal as [Hp HS Hr [Hu1 Hu2] Hram Hnode _].
  pose proof (virt_to_page_base b) as Hb. fold sp in Hp, Hr, Hu2, Hram, Hnode, Hb.
  destruct (Hoth sp p Hp Hnin) as [HF Hun]. specialize (Hun HS).
  unfold slob_free. rewrite (proj2 (Z.eqb_neq size 0)) by lia. rewrite (st_bind_ok _ _ st tt st eq_refl).
  fold u. fold sp. rewrite (st_bind_ok _ _ st p st) by (unfold sp_get; by rewrite Hp).
  rewrite Hun, (s16_id u) by lia. change (SLOB_UNITS PAGE_SIZE) with 2048.
  rewrite (proj2 (Z.eqb_neq (0 + u) 2048)) by lia. rewrite HF. cbn [negb].
  st_step (sp_upd_ok _ _ _ _ Hp). erewrite st_bind_ok; [|apply sp_upd_ok, lookup_insert_eq].
  set (p1 := set_free _ _). set (st1 := set_pages _ _). rewrite page_base_end. fold sp.
  destruct (set_slob_ok (2048 * sp) (base_mod sp) st1 b u (2048 * sp + 2048)) as (m' & Es & Hh & Hsame);
    [intros a Ha; apply Hram; lia|lia..|]. st_step Es.
  assert (sp_list sp ∉ free_slob_small :: (sp_list <$> fs.*1)) as Hnin'.
  { apply not_elem_of_cons. split; [done|]. by intros (? & [= <-] & ?)%list_elem_of_fmap. }
  destruct (list_add_spec (slists st) free_slob_small [] (sp_list <$> fs.*1) (sp_list sp))
    as (h2 & E2 & Hl2 & Hf2); [apply (rep_list _ _ Hrep)|done|done|].
  unfold set_slob_page_free. rewrite (st_bind_ok _ _ _ tt (set_slists h2 (set_mem m' st1)))
    by (by apply zoom_ok).
  rewrite (sp_upd_ok _ _ _ p1) by (simpl; by rewrite lookup_insert_eq). set (st' := set_pages _ _).
  assert (∀ q, q ≠ sp → pages st' !! q = pages st !! q) as Hq.
  { intros q ?. simpl. by rewrite !lookup_insert_ne. }
  exists st'. split_and!; [done| |intros a Ha; by apply Hsame|done|done|split; [done|split; [apply Hf2|apply Hsame]]]. split.
  - eapply (slob_rep_cons st st' fs sp _ (set_PageSlobFree true p1)); [done|done| | |done|done|done|done|done].
    + split; [|done|done|done|apply Hf2].
      split; [apply Hsame|]. intros a Ha. apply Hsame. intros ?. apply Ha. lia.
    + split; [simpl; by rewrite lookup_insert_eq|intros a Ha; by apply Hsame, Hram|done|simpl; lia|done|].
      simpl. rewrite free_units_cons, free_units_nil. lia.
  - intros q qs [[= -> ->]|?]%elem_of_cons; [|by eapply Hpart].
    rewrite free_units_cons, free_units_nil. lia.
  - intros q pq Hpq Hqn. apply not_elem_of_cons in Hqn as [? ?]. rewrite Hq in Hpq by done.
    by apply (Hoth q pq).
Qed.

Lemma same_page p0 : pages st !! sp = Some p0 → p0 = p.
Proof. intros E. pose proof (al_page _ _ _ _ _ Hal) as E'. fold sp in E'. congruence. Qed.

(** The prefix of [slob_free] up to the first test. *)
Lemma slob_free_start (K : slob_page → ST slob unit) :
  (bug_on (size =? 0);; (p ← sp_get sp; K p)) st = K p st.
Proof.
  rewrite (proj2 (Z.eqb_neq size 0)) by lia. rewrite (st_bind_ok _ _ st tt st eq_refl).
  rewrite (st_bind_ok _ _ st p st); [done|]. apply sp_get_ok, (al_page _ _ _ _ _ Hal).
Qed.

(** A page of the search list whose last allocated units are freed goes back to
    the page allocator. *)
Lemma slob_free_release f1 bs f2 :
  fs = f1 ++ (sp, bs) :: f2 → free_units bs + u = 2048 →
  ∃ st', slob_free (Addr b) size st = Ok (tt, st') ∧ slob_wf st' (f1 ++ f2) ∧ mem st' = mem st ∧
    pages_alloc st' = u32 (pages_alloc st - 1) ∧ released st' = FreePages b 0 :: released st ∧
    kept_pages sp st st'.
Proof.
  intros Efs Eu. pose proof Hwf as [Hrep Hpart Hoth].
  destruct (rep_pages _ _ Hrep sp bs) as (Hne & Hr & p0 & Hv & HS & HF); [rewrite Efs; lelem|].
  assert (p0 = p) as -> by (eapply same_page; by apply (pv_page _ _ _ _ Hv)).
  pose proof (free_units_bound 1 (2048 * sp) (2048 * sp + 2048) bs ltac:(lia) ltac:(lia) (pv_wf _ _ _ _ Hv)).
  pose proof (al_size _ _ _ _ _ Hal).
  unfold slob_free. fold u. fold sp. rewrite slob_free_start.
  rewrite (pv_units _ _ _ _ Hv), (s16_id u) by lia. change (SLOB_UNITS PAGE_SIZE) with 2048.
  rewrite (proj2 (Z.eqb_eq (free_units bs + u) 2048)) by done. rewrite HF. unfold when.
  pose proof (rep_list _ _ Hrep) as Hl. rewrite Efs, fmap_app, fmap_cons in Hl. simpl in Hl.
  destruct (clear_slob_page_free_ok sp st f1.*1 f2.*1 p) as (h' & Ec & Hl' & Hm);
    [done|apply (pv_page _ _ _ _ Hv)|].
  st_step Ec. erewrite st_bind_ok; [|apply sp_upd_ok; simpl; apply lookup_insert_eq].
  set (st1 := set_pages _ _).
  exists (set_released (FreePages b 0 :: released st) (set_pages_alloc (u32 (pages_alloc st - 1)) st1)).
  assert (∀ q, q ≠ sp → pages st1 !! q = pages st !! q) as Hq.
  { intros q ?. simpl. by rewrite !lookup_insert_ne. }
  split_and!; try done. split.
  - apply (slob_rep_counters st1 _ (u32 (pages_alloc st - 1)) (FreePages b 0 :: released st)).
    rewrite Efs in Hrep.
    eapply slob_rep_remove; [exact Hrep| |done]. by split.
  - intros q qs ?. apply (Hpart q). rewrite Efs. lelem.
  - intros q pq Hpq Hqn. destruct (decide (q = sp)) as [->|Hqs].
    + simpl in Hpq. rewrite lookup_insert_eq in Hpq. by injection Hpq as <-.
    + change (pages st1 !! q = Some pq) in Hpq. rewrite Hq in Hpq by done. apply (Hoth q pq Hpq).
      rewrite Efs, fmap_app, fmap_cons. rewrite fmap_app in Hqn. simpl. lelem.
Qed.

(** Otherwise the block joins the free blocks of its page. *)
Lemma slob_free_partial f1 bs f2 :
  fs = f1 ++ (sp, bs) :: f2 → free_units bs + u < 2048 →
  ∃ st' l1 l2, bs = l1 ++ l2 ∧ between (2048 * sp) l1 b u l2 ∧
    slob_free (Addr b) size st = Ok (tt, st') ∧ slob_wf st' (f1 ++ (sp, insert_block l1 b u l2) :: f2) ∧
    (∀ a, ¬ (b ≤ a < b + u) → ¬ in_blocks a bs → mem st' !! a = mem st !! a) ∧
    pages_alloc st' = pages_alloc st ∧ released st' = released st ∧ kept_pages sp st st'.
Proof.
  intros Efs Eu. pose proof Hwf as [Hrep Hpart Hoth].
  destruct (rep_pages _ _ Hrep sp bs) as (Hne & Hr & p0 & Hv & HS & HF); [rewrite Efs; lelem|].
  assert (p0 = p) as -> by (eapply same_page; by apply (pv_page _ _ _ _ Hv)).
  pose proof Hv as [Hp Hram Hf Hw Hfree Hun].
  pose proof (free_units_bound 1 (2048 * sp) (2048 * sp + 2048) bs ltac:(lia) ltac:(lia) Hw).
  destruct (al_size _ _ _ _ _ Hal) as [Hu1 Hu2]. pose proof (virt_to_page_base b) as Hb. fold sp in Hu2, Hb.
  destruct (blocks_split (2048 * sp) (2048 * sp + 2048) bs b u) as (l1 & l2 & -> & Haf & Hnx); [done..| |].
  { intros a Ha. eapply (al_disjoint _ _ _ _ _ Hal); [|done]. fold sp. rewrite Efs. lelem. }
  destruct (insert_block_ok (2048 * sp) l1 b u l2 Hw (conj Haf Hnx) Hb Hu1) as (Hw' & Hfu & Hin).
  set (bs' := insert_block l1 b u l2) in *.
  set (p1 := set_units (free_units bs') p). set (st1 := set_pages (<[sp := p1]> (pages st)) st).
  assert (∃ m', slob_reinsert sp b u st1 =
      Ok (tt, set_mem m' (set_pages (<[sp := set_free (next_to bs' (2048 * sp + 2048)) p1]> (pages st)) st)) ∧
    flist m' (2048 * sp) bs' (2048 * sp + 2048) ∧ same_but (mem st) m' (λ a, in_blocks a bs'))
    as (m' & Er & Hf' & Hsame).
  { assert (gap_ok sp st1 l1 b u l2) as Hg by (split; done).
    assert (pages st1 !! sp = Some p1) as Hp1 by apply lookup_insert_eq.
    destruct l1 as [|[q k] l1 _] using rev_ind.
    - destruct l2 as [|[s n] l2]; [done|].
      destruct (reinsert_front sp st1 b u s n l2 p1 Hg Hp1) as (m' & E & ? & ?); [done|].
      exists m'. split_and!; [|done..]. rewrite E. simpl. by rewrite insert_insert_eq.
    - destruct (reinsert_middle sp st1 b u l1 q k l2 p1 Hg Hp1) as (m' & E & ? & ? & En).
      { change (free p1) with (free p). rewrite Hfree, !next_to_app. by destruct l1 as [|[]]. }
      exists m'. split_and!; [|done..]. rewrite E. fold bs' in En. rewrite En. done. }
  set (p' := set_free _ p1) in Er. set (st' := set_mem m' _) in Er.
  assert (∀ q, q ≠ sp → pages st' !! q = pages st !! q) as Hq.
  { intros q ?. simpl. by rewrite lookup_insert_ne. }
  assert (pages st' !! sp = Some p') as Hp' by apply lookup_insert_eq.
  exists st', l1, l2. split; [done|]. split; [done|].
  split; [|split; [|split; [|split; [done|split; [done|split; [done|split; [done|apply Hsame]]]]]]].
  - unfold slob_free. fold u. fold sp. rewrite slob_free_start, Hun, (s16_id u) by lia.
    change (SLOB_UNITS PAGE_SIZE) with 2048.
    rewrite (proj2 (Z.eqb_neq (free_units (l1 ++ l2) + u) 2048)) by lia. rewrite HF. cbn [negb].
    rewrite (st_bind_ok _ _ st tt st1); [done|]. rewrite (sp_upd_ok _ _ _ _ Hp), Hun.
    rewrite s16_id by lia. by rewrite <-Hfu.
  - split.
    + assert (page_view st' sp bs' p') as Hv'.
      { split; try done. intros a Ha. by apply Hsame, Hram. }
      assert (keep_page sp bs' = [(sp, bs')]) as Ek.
      { unfold keep_page. rewrite (proj2 (Z.eqb_neq (free_units bs') 0)); [done|lia]. }
      fold bs'. replace (f1 ++ (sp, bs') :: f2) with (f1 ++ keep_page sp bs' ++ f2) by (by rewrite Ek).
      rewrite Efs in Hrep. eapply (slob_rep_step st st' sp f1 _ f2 p' bs' _ Hrep);
        [split; try done; exact Hsame| |done|done|].
      * intros a Ha. by apply (in_blocks_range 1 _ _ _ _ ltac:(lia) Hw').
      * rewrite (proj2 (Z.eqb_neq (free_units bs') 0)) by lia. split; [done|].
        pose proof (rep_list _ _ Hrep) as Hl. by rewrite fmap_app, fmap_cons in Hl.
    + intros q qs Hqs. apply elem_of_app in Hqs as [?|[[= -> ->]|?]%elem_of_cons].
      * apply (Hpart q). rewrite Efs. lelem.
      * fold bs'. lia.
      * apply (Hpart q). rewrite Efs. lelem.
    + intros q pq Hpq Hqn. destruct (decide (q = sp)) as [->|Hqs].
      { destruct Hqn. rewrite fmap_app, fmap_cons. simpl. lelem. }
      rewrite Hq in Hpq by done. apply (Hoth q pq Hpq).
      rewrite Efs, fmap_app, fmap_cons. rewrite fmap_app, fmap_cons in Hqn. done.
  - intros a Ha1 Ha2. apply Hsame. rewrite Hin. tauto.
Qed.
End free_spec.

(** Freeing the only block of a page that had no free units. *)
Lemma slob_free_whole st fs b size p :
  slob_wf st fs → 1 ≤ size ≤ 4096 → allocated st fs b (SLOB_UNITS size) p →
  virt_to_page b ∉ fs.*1 → SLOB_UNITS size = 2048 →
  ∃ st', slob_free (Addr b) size st = Ok (tt, st') ∧ slob_wf st' fs ∧ mem st' = mem st ∧
    pages_alloc st' = u32 (pages_alloc st - 1) ∧ released st' = FreePages b 0 :: released st ∧
    kept_pages (virt_to_page b) st st'.
Proof.
  intros [Hrep Hpart Hoth] Hsz Hal Hnin Hu. pose proof (al_page _ _ _ _ _ Hal) as Hp.
  destruct (Hoth _ p Hp Hnin) as [HF Hun]. specialize (Hun (al_slab _ _ _ _ _ Hal)).
  unfold slob_free. rewrite (slob_free_start st fs b size p Hsz Hal), Hun, Hu.
  change (0 + s16 2048 =? SLOB_UNITS PAGE_SIZE) with true. cbv iota. rewrite HF.
  rewrite (st_bind_ok _ _ st tt st eq_refl). erewrite st_bind_ok; [|by apply sp_upd_ok].
  set (st1 := set_pages _ _).
  exists (set_released (FreePages b 0 :: released st) (set_pages_alloc (u32 (pages_alloc st - 1)) st1)).
  assert (∀ q, q ≠ virt_to_page b → pages st1 !! q = pages st !! q) as Hq.
  { intros q ?. simpl. by rewrite !lookup_insert_ne. }
  split_and!; try done. split; [|done|].
  - apply (slob_rep_counters st1 _ (u32 (pages_alloc st - 1)) (FreePages b 0 :: released st)).
    split; [apply Hrep|]. intros q qs Hqs.
    destruct (rep_pages _ _ Hrep q qs Hqs) as (? & ? & pq & Hv & ? & ?). split_and!; [done|lia|lia|].
    exists pq. split_and!; [|done..]. destruct Hv. split; try done. rewrite Hq; [done|].
    intros ->. apply Hnin. by apply (list_elem_of_fmap_2 fst _ (virt_to_page b, qs)).
  - intros q pq Hpq Hqn. destruct (decide (q = virt_to_page b)) as [->|Hqs].
    + simpl in Hpq. rewrite lookup_insert_eq in Hpq. by injection Hpq as <-.
    + apply (Hoth q pq); [|done]. by rewrite <-Hq.
Qed.

(** Unit [a] is free in page [sp]. *)
Definition free_in (fs : list (Z * list (Z * Z))) (sp a : Z) : Prop :=
  ∃ bs, (sp, bs) ∈ fs ∧ in_blocks a bs.

Lemma virt_to_page_in sp b : 2048 * sp ≤ b < 2048 * sp + 2048 → virt_to_page b = sp.
Proof.
  intros ?. unfold virt_to_page. change (SLOB_UNITS PAGE_SIZE) with 2048.
  symmetry. apply (Z.div_unique_pos b 2048 sp (b - 2048 * sp)); lia.
Qed.

(** A page in the list has no free blocks after the list lost it. *)
Lemma keep_page_entry st f1 sp bs f2 bs' q qs :
  slob_rep st (f1 ++ (sp, bs) :: f2) → (q, qs) ∈ f1 ++ keep_page sp bs' ++ f2 →
  (q, qs) ∈ f1 ++ f2 ∨ (q = sp ∧ qs = bs').
Proof.
  intros Hrep Hq. destruct (decide (q = sp)) as [->|Hne].
  - right. split; [done|]. by eapply carve_unique.
  - left. unfold keep_page in Hq. destruct (free_units bs' =? 0); [lelem|].
    apply elem_of_app in Hq as [?|[[= -> ->]|?]%elem_of_cons]; [lelem|done|lelem].
Qed.

(** The state after taking a block out of a page of the list. *)
Lemma found_wf st st' fs f1 sp l1 s n l2 f2 d u p0 :
  slob_wf st fs → fs = f1 ++ (sp, l1 ++ (s, n) :: l2) :: f2 → 0 ≤ d → 1 ≤ u → u + d ≤ n →
  let bs' := l1 ++ frag s d ++ frag (s + d + u) (n - d - u) ++ l2 in
  page_view st sp (l1 ++ (s, n) :: l2) p0 → 0 ≤ sp < 2 ^ 50 →
  slob_rep st' (f1 ++ keep_page sp bs' ++ f2) →
  (∀ q, q ≠ sp → pages st' !! q = pages st !! q) → (free_units bs' = 0 → full_page st' sp) →
  (∀ a, mapped (slists st) a ↔ mapped (slists st') a) →
  (∀ a, is_Some (mem st !! a) ↔ is_Some (mem st' !! a)) →
  slob_wf st' (f1 ++ keep_page sp bs' ++ f2) ∧
  ∃ p, allocated st' (f1 ++ keep_page sp bs' ++ f2) (s + d) u p.
Proof.
  intros [Hrep Hpart Hoth] Efs Hd Hu Hn bs' Hv Hr Hrep' Hq Hfull Hnode Hram.
  assert (∃ p, pages st' !! sp = Some p ∧ PageSlab p = true ∧
    (sp ∉ (f1 ++ keep_page sp bs' ++ f2).*1 → PageSlobFree p = false ∧ units p = 0))
    as (p & Hp & HS & Hpf).
  { destruct (Z.eqb_spec (free_units bs') 0) as [Ez|Ez].
    - destruct (Hfull Ez) as (p & ? & ? & ? & ?). by exists p.
    - destruct (rep_pages _ _ Hrep' sp bs') as (_ & _ & p & Hv' & ? & _).
      { unfold keep_page. rewrite (proj2 (Z.eqb_neq _ _) Ez). lelem. }
      exists p. split_and!; [apply (pv_page _ _ _ _ Hv')|done|]. intros Hni. destruct Hni.
      unfold keep_page. rewrite (proj2 (Z.eqb_neq _ _) Ez), !fmap_app. simpl. lelem. }
  pose proof (pv_wf _ _ _ _ Hv) as Hw.
  destruct (block_facts sp st l1 s n l2 (pv_list _ _ _ _ Hv) Hw) as (_ & _ & _ & Hs).
  assert (s + n ≤ 2048 * sp + 2048) as Hsn by (by apply blocks_wf_app in Hw as [_ (_ & _ & ? & _)]).
  assert (virt_to_page (s + d) = sp) as Esp by (apply virt_to_page_in; lia).
  rewrite Efs in Hrep. split; [split; [done|..]|].
  - intros q qs Hqs. destruct (keep_page_entry _ _ _ _ _ _ _ _ Hrep Hqs) as [?|[-> ->]].
    + apply (Hpart q). rewrite Efs. lelem.
    + specialize (Hpart sp (l1 ++ (s, n) :: l2) ltac:(rewrite Efs; lelem)).
      subst bs'. rewrite !free_units_app, ?free_units_cons, !free_units_frag in *. lia.
  - intros q pq Hpq Hqn. destruct (decide (q = sp)) as [->|Hqs]; [naive_solver|].
    rewrite Hq in Hpq by done. apply (Hoth q pq Hpq). rewrite Efs.
    rewrite !fmap_app, fmap_cons in *. simpl. lelem.
  - exists p. split; rewrite ?Esp; try done; [lia| | |].
    + intros a Ha. by apply Hram, (pv_ram _ _ _ _ Hv).
    + apply Hnode, (is_list_mapped _ _ _ (rep_list _ _ Hrep)). right.
      rewrite fmap_app, fmap_cons, fmap_app, fmap_cons. simpl. lelem.
    + intros bs a Hbs Ha. destruct (keep_page_entry _ _ _ _ _ _ _ _ Hrep Hbs) as [Hin|[_ ->]].
      * by destruct (rep_fresh _ _ _ _ _ _ _ Hrep Hin).
      * by apply (carve_disjoint _ _ _ _ _ _ _ _ _ Hw).
Qed.

(** The state after setting up a fresh page. *)
Lemma fresh_wf st st' fs sp u :
  slob_wf st fs → fresh_page st fs sp → 1 ≤ u ≤ 2048 →
  let bs' := frag (2048 * sp + u) (2048 - u) in
  slob_rep st' (keep_page sp bs' ++ fs) →
  (∀ q, q ≠ sp → pages st' !! q = pages st !! q) → (u = 2048 → full_page st' sp) →
  (∀ a, mapped (slists st) a ↔ mapped (slists st') a) →
  (∀ a, is_Some (mem st !! a) ↔ is_Some (mem st' !! a)) →
  slob_wf st' (keep_page sp bs' ++ fs) ∧ ∃ p, allocated st' (keep_page sp bs' ++ fs) (2048 * sp) u p.
Proof.
  intros [Hrep Hpart Hoth] [Hnin Hr _ Hnd Hrm] Hu bs' Hrep' Hq Hfull Hnode Hram.
  assert (virt_to_page (2048 * sp) = sp) as Esp by (apply virt_to_page_in; lia).
  assert (free_units bs' = 2048 - u) as Efu by apply free_units_frag.
  assert (∀ q qs, (q, qs) ∈ keep_page sp bs' ++ fs →
    (q, qs) ∈ fs ∨ (q = sp ∧ qs = [(2048 * sp + u, 2048 - u)] ∧ u ≠ 2048)) as Hent.
  { intros q qs. unfold keep_page. rewrite Efu. unfold bs', frag.
    destruct (Z.eqb_spec (2048 - u) 0); [by left|].
    intros [[= -> ->]|?]%elem_of_cons; [right; split_and!; [done..|lia]|by left]. }
  assert (∃ p, pages st' !! sp = Some p ∧ PageSlab p = true ∧
    (sp ∉ (keep_page sp bs' ++ fs).*1 → PageSlobFree p = false ∧ units p = 0)) as (p & Hp & HS & Hpf).
  { destruct (Z.eqb_spec (free_units bs') 0) as [Ez|Ez].
    - destruct (Hfull ltac:(lia)) as (p & ? & ? & ? & ?). by exists p.
    - assert (keep_page sp bs' = [(sp, bs')]) as Ek by (unfold keep_page; by rewrite (proj2 (Z.eqb_neq _ _) Ez)).
      rewrite Ek in *. destruct (rep_pages _ _ Hrep' sp bs') as (_ & _ & p & Hv' & ? & _); [by left|].
      exists p. split_and!; [apply (pv_page _ _ _ _ Hv')|done|]. intros Hni. destruct Hni. by left. }
  split; [split; [done|..]|].
  - intros q qs [?|(-> & -> & ?)]%Hent; [by eapply Hpart|]. rewrite free_units_cons, free_units_nil. lia.
  - intros q pq Hpq Hqn. destruct (decide (q = sp)) as [->|Hqs]; [naive_solver|].
    rewrite Hq in Hpq by done. apply (Hoth q pq Hpq). rewrite fmap_app in Hqn. lelem.
  - exists p. split; rewrite ?Esp; try done; [lia| | |].
    + intros a Ha. by apply Hram, Hrm.
    + by apply Hnode.
    + intros bs a [Hin|(_ & -> & ?)]%Hent Ha; [|simpl; lia].
      destruct Hnin. by apply (list_elem_of_fmap_2 fst _ (sp, bs)).
Qed.

(** Separated blocks in address order are determined by the units they hold. *)
Lemma blocks_ext lo hi bs bs' :
  blocks_wf 1 lo hi bs → blocks_wf 1 lo hi bs' →
  (∀ a, in_blocks a bs ↔ in_blocks a bs') → bs = bs'.
Proof.
  revert lo bs'. induction bs as [|[s n] bs IH]; intros lo [|[s' n'] bs'] Hw Hw' Heq; [done|..].
  { destruct Hw' as (? & ? & ? & _). destruct (proj2 (Heq s')). left. lia. }
  { destruct Hw as (? & ? & ? & _). destruct (proj1 (Heq s)). left. lia. }
  destruct Hw as (? & ? & ? & Hw), Hw' as (? & ? & ? & Hw').
  assert (∀ a, in_blocks a bs → s + n + 1 ≤ a) as Hr.
  { intros a Ha. apply (in_blocks_range 1 _ _ _ _ ltac:(lia) Hw Ha). }
  assert (∀ a, in_blocks a bs' → s' + n' + 1 ≤ a) as Hr'.
  { intros a Ha. apply (in_blocks_range 1 _ _ _ _ ltac:(lia) Hw' Ha). }
  simpl in Heq.
  assert (s = s') as <-.
  { apply Z.le_antisymm.
    - destruct (proj2 (Heq s')) as [?|Hx]; [left; lia|lia|specialize (Hr _ Hx); lia].
    - destruct (proj1 (Heq s)) as [?|Hx]; [left; lia|lia|specialize (Hr' _ Hx); lia]. }
  assert (n = n') as <-.
  { destruct (Z.lt_trichotomy n n') as [Hlt|[?|Hlt]]; [|done|].
    - destruct (proj2 (Heq (s + n))) as [?|Hx]; [left; lia|lia|specialize (Hr _ Hx); lia].
    - destruct (proj1 (Heq (s + n'))) as [?|Hx]; [left; lia|lia|specialize (Hr' _ Hx); lia]. }
  f_equal. apply (IH (s + n + 1)); [done..|]. intros a. specialize (Heq a).
  split; intros Ha; [specialize (Hr a Ha)|specialize (Hr' a Ha)]; destruct Heq as [H1' H2'].
  - destruct H1' as [?|?]; [by right|lia|done].
  - destruct H2' as [?|?]; [by right|lia|done].
Qed.

(** Taking a block out and putting it back gives the same blocks. *)
Lemma carve_in_blocks lo hi l1 s n l2 d u a :
  blocks_wf 1 lo hi (l1 ++ (s, n) :: l2) → 0 ≤ d → 1 ≤ u → u + d ≤ n →
  s + d ≤ a < s + d + u ∨ in_blocks a (l1 ++ frag s d ++ frag (s + d + u) (n - d - u) ++ l2) ↔
  in_blocks a (l1 ++ (s, n) :: l2).
Proof.
  intros Hw Hd Hu Hn. rewrite !in_blocks_app. simpl.
  assert (in_blocks a (frag s d) ↔ s ≤ a < s + d) as ->.
  { unfold frag. destruct (Z.eqb_spec d 0); simpl; [lia|]. intuition lia. }
  assert (in_blocks a (frag (s + d + u) (n - d - u)) ↔ s + d + u ≤ a < s + n) as ->.
  { unfold frag. destruct (Z.eqb_spec (n - d - u) 0); simpl; [lia|]. intuition lia. }
  assert (s ≤ a < s + n ↔ s ≤ a < s + d ∨ s + d ≤ a < s + d + u ∨ s + d + u ≤ a < s + n) as -> by lia.
  tauto.
Qed.

Lemma free_in_middle st f1 sp bs f2 a :
  slob_rep st (f1 ++ (sp, bs) :: f2) → free_in (f1 ++ (sp, bs) :: f2) sp a ↔ in_blocks a bs.
Proof.
  intros Hrep. split; [|intros ?; exists bs; split; [lelem|done]].
  intros (qs & Hq & Ha). destruct (decide ((sp, qs) ∈ f1 ++ f2)) as [Hin|Hnin].
  - by destruct (rep_fresh _ _ _ _ _ _ _ Hrep Hin).
  - assert ((sp, qs) = (sp, bs)) as [= ->]; [lelem|done].
Qed.

Lemma free_in_other f1 sp bs f2 q a :
  q ≠ sp → free_in (f1 ++ (sp, bs) :: f2) q a ↔ free_in (f1 ++ f2) q a.
Proof.
  intros Hq. unfold free_in. split; intros (qs & Hin & Ha); exists qs; (split; [|done]); [|lelem].
  apply elem_of_app in Hin as [?|[[= -> _]|?]%elem_of_cons]; [lelem|done|lelem].
Qed.

(** The free units of a page and an allocated block fit the page. *)
Lemma allocated_units st fs b u p bs :
  slob_rep st fs → allocated st fs b u p → (virt_to_page b, bs) ∈ fs → free_units bs + u ≤ 2048.
Proof.
  intros Hrep Hal Hin. destruct (rep_pages _ _ Hrep _ _ Hin) as (_ & _ & p0 & Hv & _).
  destruct Hal as [_ _ Hr [Hu1 Hu2] _ _ Hd]. pose proof (virt_to_page_base b) as Hb.
  destruct (blocks_split _ _ bs b u (pv_wf _ _ _ _ Hv)) as (l1 & l2 & -> & Haf & Hnx); [done..| |].
  { intros a. by apply Hd. }
  destruct (insert_block_ok _ l1 b u l2 (pv_wf _ _ _ _ Hv) (conj Haf Hnx) Hb Hu1) as (Hw & Hfu & _).
  pose proof (free_units_bound 1 (2048 * virt_to_page b) (2048 * virt_to_page b + 2048) _
    ltac:(lia) ltac:(lia) Hw). lia.
Qed.

Lemma free_units_zero g lo hi bs : 0 ≤ g → lo ≤ hi → blocks_wf g lo hi bs → free_units bs = 0 → bs = [].
Proof.
  intros Hg Hlo Hw Hz. destruct bs as [|[s n] bs]; [done|]. exfalso.
  pose proof (free_units_elem g lo hi ((s, n) :: bs) [] s n bs Hg Hlo Hw eq_refl).
  destruct Hw as (? & ? & _). lia.
Qed.

(** Blocks with as many units as there is room leave none out. *)
Lemma full_blocks lo hi bs a : lo ≤ hi → blocks_wf 1 lo hi bs → free_units bs = hi - lo →
  lo ≤ a < hi → in_blocks a bs.
Proof.
  intros Hlo Hw Hf Ha. destruct bs as [|[s n] bs]; [rewrite free_units_nil in Hf; lia|].
  rewrite free_units_cons in Hf. destruct Hw as (? & ? & ? & Hw).
  destruct bs as [|[s' n'] bs]; [rewrite free_units_nil in Hf; left; lia|]. exfalso.
  pose proof Hw as (? & ? & ? & _).
  pose proof (free_units_bound 1 (s + n + 1) hi ((s', n') :: bs) ltac:(lia) ltac:(lia) Hw). lia.
Qed.

(** The free units after the free blocks of one page became [bs']. *)
Lemma free_in_keep st f1 sp bs f2 bs' q a :
  slob_rep st (f1 ++ (sp, bs) :: f2) → blocks_wf 1 (2048 * sp) (2048 * sp + 2048) bs' →
  free_in (f1 ++ keep_page sp bs' ++ f2) q a ↔
    (q = sp ∧ in_blocks a bs') ∨ (q ≠ sp ∧ free_in (f1 ++ (sp, bs) :: f2) q a).
Proof.
  intros Hrep Hw. destruct (decide (q = sp)) as [->|Hne].
  - unfold keep_page. destruct (Z.eqb_spec (free_units bs') 0) as [Ez|Ez].
    + rewrite (free_units_zero 1 (2048 * sp) (2048 * sp + 2048) bs' ltac:(lia) ltac:(lia) Hw Ez). simpl. split; [|naive_solver].
      intros (qs & Hin & _). by destruct (rep_fresh _ _ _ _ _ _ _ Hrep Hin).
    + split; [|intros [[_ Ha]|[? _]]; [exists bs'; split; [lelem|done]|done]].
      intros (qs & Hin & Ha). left. split; [done|].
      destruct (decide ((sp, qs) ∈ f1 ++ f2)) as [Hi|Hi]; [by destruct (rep_fresh _ _ _ _ _ _ _ Hrep Hi)|].
      assert ((sp, qs) = (sp, bs')) as [= ->]; [lelem|done].
  - rewrite (free_in_other f1 sp bs f2 q a Hne).
    assert (free_in (f1 ++ keep_page sp bs' ++ f2) q a ↔ free_in (f1 ++ f2) q a) as ->; [|naive_solver].
    unfold keep_page. destruct (_ =? 0); [done|]. by apply free_in_other.
Qed.

(** A page is full of free units but for an allocated block. *)
Lemma page_all_free st fs b u p bs a :
  slob_rep st fs → allocated st fs b u p → (virt_to_page b, bs) ∈ fs → free_units bs + u = 2048 →
  2048 * virt_to_page b ≤ a < 2048 * virt_to_page b + 2048 → in_blocks a bs ∨ b ≤ a < b + u.
Proof.
  intros Hrep Hal Hin Hf Ha. destruct (rep_pages _ _ Hrep _ _ Hin) as (_ & _ & p0 & Hv & _).
  destruct Hal as [_ _ Hr [Hu1 Hu2] _ _ Hd]. pose proof (virt_to_page_base b) as Hb.
  destruct (blocks_split _ _ bs b u (pv_wf _ _ _ _ Hv)) as (l1 & l2 & -> & Haf & Hnx); [done..| |].
  { intros x. by apply Hd. }
  destruct (insert_block_ok _ l1 b u l2 (pv_wf _ _ _ _ Hv) (conj Haf Hnx) Hb Hu1) as (Hw & Hfu & Hi).
  apply or_comm, (Hi a), (full_blocks (2048 * virt_to_page b) (2048 * virt_to_page b + 2048)); [lia|done|lia|done].
Qed.

(** ** Theorems *)

(** The cases of an allocation together. *)
Lemma slob_alloc_total alloc_pages st fs size gfp align :
  slob_wf st fs → 1 ≤ size ≤ 4096 → align_ok align →
  (∀ sp, alloc_pages (Z.ldiff gfp GFP_ZERO) 0 = Some sp → fresh_page st fs sp) →
  ∃ o st', slob_alloc alloc_pages size gfp align st = Ok (o, st') ∧
    match o with
    | None => st' = st ∧ alloc_pages (Z.ldiff gfp GFP_ZERO) 0 = None ∧
        ∀ v, v ∈ all_visits fs → ¬ fits (SLOB_UNITS size) align v
    | Some b => (align ≠ 0 → 2 * b mod align = 0) ∧
        ∃ fs' p, slob_wf st' fs' ∧ allocated st' fs' b (SLOB_UNITS size) p ∧
        kept_pages (virt_to_page b) st st' ∧
        (∀ a, b ≤ a < b + SLOB_UNITS size →
           free_in fs (virt_to_page b) a ∨ alloc_pages (Z.ldiff gfp GFP_ZERO) 0 = Some (virt_to_page b)) ∧
        (∀ q a, free_in fs' q a → free_in fs q a ∨ alloc_pages (Z.ldiff gfp GFP_ZERO) 0 = Some q) ∧
        (∀ q a, free_in fs q a → free_in fs' q a ∨ b ≤ a < b + SLOB_UNITS size) ∧
        ∀ a, (∀ sp, ¬ free_in fs sp a) →
          (∀ sp, alloc_pages (Z.ldiff gfp GFP_ZERO) 0 = Some sp → ¬ (2048 * sp ≤ a < 2048 * sp + 2048)) →
          mem st' !! a = mem st !! a
    end.
Proof.
  intros Hwf Hsz Hal Hfresh. pose proof (wf_rep _ _ Hwf) as Hrep. pose proof (units_bound size Hsz) as Hu.
  destruct (decide (Exists (fits (SLOB_UNITS size) align) (all_visits fs))) as [Hex|Hno].
  - apply Exists_exists in Hex.
    destruct (slob_alloc_found alloc_pages st fs size gfp align Hrep Hsz Hal Hex)
      as (f1 & sp & l1 & s & n & l2 & f2 & st' & Efs & Hd & Hn & _ & E & Hrep' & Hmem & _ & Hq & Hfull & Hnode & Hram & _).
    destruct (rep_pages _ _ Hrep sp (l1 ++ (s, n) :: l2)) as (_ & Hr & p0 & Hv & _); [rewrite Efs; lelem|].
    destruct (found_wf st st' fs f1 sp l1 s n l2 f2 (delta_of s align) (SLOB_UNITS size) p0)
      as (Hwf' & p & Hall); [done|done|done|lia|done..|].
    eexists _, st'. split; [exact E|]. cbv iota. split.
    + destruct (block_facts sp st l1 s n l2 (pv_list _ _ _ _ Hv) (pv_wf _ _ _ _ Hv)) as (_ & _ & _ & Hs).
      apply delta_of_ok; [done|]. by eapply page_addr.
    + destruct (block_facts sp st l1 s n l2 (pv_list _ _ _ _ Hv) (pv_wf _ _ _ _ Hv)) as (_ & _ & _ & Hs).
      assert (s + n ≤ 2048 * sp + 2048) as Hsn
        by (pose proof (pv_wf _ _ _ _ Hv) as Hw; by apply blocks_wf_app in Hw as [_ (_ & _ & ? & _)]).
      assert (virt_to_page (s + delta_of s align) = sp) as Esp by (apply virt_to_page_in; lia).
      pose proof (blocks_wf_carve _ _ _ _ _ _ (delta_of s align) (SLOB_UNITS size) Hd ltac:(lia) Hn
        (pv_wf _ _ _ _ Hv)) as Hwc.
      pose proof (λ a, carve_in_blocks _ _ _ _ _ _ (delta_of s align) (SLOB_UNITS size) a
        (pv_wf _ _ _ _ Hv) Hd ltac:(lia) Hn) as Hinb.
      rewrite Efs in Hrep. pose proof (λ q a, free_in_keep st f1 sp _ f2 _ q a Hrep Hwc) as Hk.
      pose proof (λ a, free_in_middle st f1 sp _ f2 a Hrep) as Hmid.
      eexists _, p. split; [exact Hwf'|]. split; [exact Hall|]. rewrite Esp. split; [done|].
      rewrite Efs. split_and!.
      * intros a Ha. left. apply Hmid, Hinb. by left.
      * intros q a [[-> Ha]|[_ Ha]]%Hk; left; [apply Hmid, Hinb; by right|done].
      * intros q a Ha. destruct (decide (q = sp)) as [->|Hne]; [|left; apply Hk; by right].
        apply Hmid, Hinb in Ha as [Ha|Ha]; [by right|left; apply Hk; by left].
      * intros a Ha _. apply Hmem. intros q qs Hin Hb. apply (Ha q). exists qs. by rewrite <-Efs.
  - assert (∀ v, v ∈ all_visits fs → ¬ fits (SLOB_UNITS size) align v) as Hno'.
    { intros v Hv Hf. apply Hno, Exists_exists. eauto. }
    destruct (alloc_pages (Z.ldiff gfp GFP_ZERO) 0) as [sp|] eqn:Ea.
    + specialize (Hfresh sp eq_refl).
      destruct (slob_alloc_fresh alloc_pages st fs size gfp align sp)
        as (st' & E & Hrep' & Hmem & _ & Hq & Hfull & Hnode & Hram & _); [done..|].
      destruct (fresh_wf st st' fs sp (SLOB_UNITS size)) as (Hwf' & p & Hall); [done..|].
      eexists _, st'. split; [exact E|]. cbv iota. split.
      * pose proof (fresh_range _ _ _ Hfresh) as Hr.
        destruct (delta_of_ok (2048 * sp) align) as (_ & Hm & _); [done|unfold addr_ok; lia|].
        rewrite delta_of_page, Z.add_0_r in Hm by done. exact Hm.
      * assert (virt_to_page (2048 * sp) = sp) as Esp
          by (apply virt_to_page_in; pose proof (fresh_range _ _ _ Hfresh); lia).
        eexists _, p. split; [exact Hwf'|]. split; [exact Hall|]. rewrite Esp. split; [done|]. split_and!.
        -- intros a _. by right.
        -- intros q a (qs & [Hin|Hin]%elem_of_app & Ha); [right|left; by exists qs].
           unfold keep_page in Hin. destruct (_ =? 0); [by apply elem_of_nil in Hin|].
           by apply list_elem_of_singleton in Hin as [= -> _].
        -- intros q a (qs & Hin & Ha). left. exists qs. split; [lelem|done].
        -- intros a _ Ha. by apply Hmem, Ha.
    + exists None, st. split; [by eapply slob_alloc_oom|done].
Qed.

(** C11: allocation is safe.  From a well-formed state, for every size up to a
    page and every alignment the callers use, [slob_alloc] terminates without a
    fault.  It returns [NULL], without changing anything, only if no free block
    fits and there is no new page; otherwise it returns an aligned block of the
    size asked for that no free list holds, the state stays well formed, and no
    memory outside the free blocks and the new page is written. *)
Theorem slob_alloc_safe alloc_pages st fs size gfp align :
  slob_wf st fs → 1 ≤ size ≤ 4096 → align_ok align →
  (∀ sp, alloc_pages (Z.ldiff gfp GFP_ZERO) 0 = Some sp → fresh_page st fs sp) →
  ∃ o st', slob_alloc alloc_pages size gfp align st = Ok (o, st') ∧
    match o with
    | None => st' = st ∧ alloc_pages (Z.ldiff gfp GFP_ZERO) 0 = None ∧
        ∀ v, v ∈ all_visits fs → ¬ fits (SLOB_UNITS size) align v
    | Some b => (align ≠ 0 → 2 * b mod align = 0) ∧
        ∃ fs' p, slob_wf st' fs' ∧ allocated st' fs' b (SLOB_UNITS size) p ∧
        (∀ a, b ≤ a < b + SLOB_UNITS size →
           free_in fs (virt_to_page b) a ∨ alloc_pages (Z.ldiff gfp GFP_ZERO) 0 = Some (virt_to_page b)) ∧
        (∀ q a, free_in fs' q a → free_in fs q a ∨ alloc_pages (Z.ldiff gfp GFP_ZERO) 0 = Some q) ∧
        (∀ q a, free_in fs q a → free_in fs' q a ∨ b ≤ a < b + SLOB_UNITS size) ∧
        ∀ a, (∀ sp, ¬ free_in fs sp a) →
          (∀ sp, alloc_pages (Z.ldiff gfp GFP_ZERO) 0 = Some sp → ¬ (2048 * sp ≤ a < 2048 * sp + 2048)) →
          mem st' !! a = mem st !! a
    end.
Proof.
  intros Hwf Hsz Hal Hf. destruct (slob_alloc_total alloc_pages st fs size gfp align Hwf Hsz Hal Hf)
    as (o & st' & E & H). exists o, st'. split; [done|]. destruct o; naive_solver.
Qed.

(** The cells of page 5. *)
Definition ram5 : gmap Z Z := gset_to_gmap 0 (list_to_set (seqZ 10240 2048)).

Lemma ram5_some a : 10240 ≤ a < 12288 → is_Some (ram5 !! a).
Proof.
  intros Ha. exists 0. apply lookup_gset_to_gmap_Some. split; [|done].
  apply elem_of_list_to_set, elem_of_seqZ. lia.
Qed.
#[global] Opaque ram5.

(** A memory of one page, number 5, not yet used. *)
Definition sample_slob : slob :=
  {| mem := ram5;
     pages := {[ 5 := SlobPage 0 0 false false 0 ]};
     slists := ring_heap free_slob_small [] ∪ ring_heap (sp_list 5) [];
     pages_alloc := 0; released := [] |}.

Lemma sample_slob_wf : slob_wf sample_slob [].
Proof.
  split; [split| |].
  - apply (bool_decide_unpack _). vm_compute. exact I.
  - by intros ?? ?%elem_of_nil.
  - by intros ?? ?%elem_of_nil.
  - intros sp p Hp _. simpl in Hp. apply lookup_singleton_Some in Hp as [_ <-]. done.
Qed.

Lemma sample_slob_fresh : fresh_page sample_slob [] 5.
Proof.
  split; [by apply not_elem_of_nil|lia|eexists; reflexivity| |].
  - apply (bool_decide_unpack _). vm_compute. exact I.
  - intros a Ha. apply ram5_some. lia.
Qed.

Lemma slob_alloc_safe_witness :
  ∃ o st', slob_alloc (λ _ _, Some 5) 100 0 8 sample_slob = Ok (o, st') ∧
    match o with
    | None => False
    | Some b => 2 * b mod 8 = 0 ∧ (∃ fs' p, slob_wf st' fs' ∧ allocated st' fs' b 50 p) ∧ virt_to_page b = 5
    end.
Proof.
  destruct (slob_alloc_safe (λ _ _, Some 5) sample_slob [] 100 0 8) as (o & st' & E & H).
  - apply sample_slob_wf.
  - lia.
  - right. by exists 3.
  - intros sp [= <-]. apply sample_slob_fresh.
  - exists o, st'. split; [exact E|]. clear E. destruct o as [b|]; [|destruct H as (_ & H & _); discriminate H].
    destruct H as (Hal & fs' & p & Hwf & Ha & Ht & _). split; [apply Hal; discriminate|].
    split; [exists fs', p; split; [exact Hwf|exact Ha]|].
    destruct (Ht b) as [(bs & []%elem_of_nil & _)|Hp].
    + change (SLOB_UNITS 100) with 50. lia.
    + injection Hp as Hp. symmetry. exact Hp.
Defined.

(** The cases of freeing together. *)
Lemma slob_free_total st fs b size p :
  let u := SLOB_UNITS size in
  let sp := virt_to_page b in
  slob_wf st fs → 1 ≤ size ≤ 4096 → allocated st fs b u p →
  ∃ st' fs', slob_free (Addr b) size st = Ok (tt, st') ∧ slob_wf st' fs' ∧
    (∀ a, ¬ (b ≤ a < b + u) → ¬ free_in fs sp a → mem st' !! a = mem st !! a) ∧
    ((released st' = FreePages b 0 :: released st ∧ sp ∉ fs'.*1 ∧
        ∀ a, 2048 * sp ≤ a < 2048 * sp + 2048 → free_in fs sp a ∨ b ≤ a < b + u) ∨
     (released st' = released st ∧ ∀ a, free_in fs' sp a ↔ free_in fs sp a ∨ b ≤ a < b + u)) ∧
    (∀ q a, q ≠ sp → free_in fs' q a ↔ free_in fs q a) ∧
    kept_pages sp st st'.
Proof.
  intros u sp Hwf Hsz Hal. pose proof (units_bound size Hsz) as Hu. fold u in Hu.
  destruct (decide (sp ∈ fs.*1)) as [Hin|Hnin].
  - apply list_elem_of_fmap in Hin as ([sp' bs] & Esp & Hin). simpl in Esp. subst sp'.
    pose proof (wf_rep _ _ Hwf) as Hrep.
    pose proof (allocated_units _ _ _ _ _ _ Hrep Hal Hin) as Hle. fold u in Hle.
    apply list_elem_of_split in Hin as (f1 & f2 & Efs). rewrite Efs in Hrep.
    destruct (Z.eq_dec (free_units bs + u) 2048) as [Ef|Ef].
    + destruct (slob_free_release st fs b size p Hwf Hsz Hal f1 bs f2 Efs Ef)
        as (st' & E & Hwf' & Em & _ & Er & Hkp). exists st', (f1 ++ f2). split_and!; [done|done|by rewrite Em| | |done].
      * left. split; [done|]. split.
        { intros ([q qs] & Eq & Hq)%list_elem_of_fmap. simpl in Eq. subst q.
          by destruct (rep_fresh _ _ _ _ _ sp qs Hrep). }
        intros a Ha. rewrite Efs, (free_in_middle st) by done. apply (page_all_free st fs b u p bs); [apply (wf_rep _ _ Hwf)|done|fold sp; rewrite Efs; lelem|done|done].
      * intros q a Hq. rewrite Efs. symmetry. by apply free_in_other.
    + destruct (slob_free_partial st fs b size p Hwf Hsz Hal f1 bs f2 Efs ltac:(fold u; lia))
        as (st' & l1 & l2 & Ebs & Hbt & E & Hwf' & Hm & _ & Er & Hkp).
      destruct (al_size _ _ _ _ _ Hal) as [Hu1 _]. pose proof (virt_to_page_base b) as Hb.
      destruct (rep_pages _ _ Hrep sp bs) as (_ & _ & p0 & Hv & _); [lelem|]. rewrite Ebs in Hv.
      destruct (insert_block_ok _ l1 b u l2 (pv_wf _ _ _ _ Hv) Hbt Hb Hu1) as (_ & _ & Hin).
      exists st', (f1 ++ (sp, insert_block l1 b u l2) :: f2). split_and!; [done|done| | | |done].
      * intros a Ha1 Ha2. apply Hm; [done|]. intros Ha. apply Ha2. rewrite Efs.
        by apply (free_in_middle st).
      * right. split; [done|]. intros a. rewrite (free_in_middle st'), Efs, (free_in_middle st);
          [|done|apply (wf_rep _ _ Hwf')]. rewrite Hin, Ebs. tauto.
      * intros q a Hq. rewrite Efs, !free_in_other; done.
  - assert (∀ a, ¬ free_in fs sp a) as Hnone.
    { intros a (qs & Hqs & _). apply Hnin. by apply (list_elem_of_fmap_2 fst _ (sp, qs)). }
    destruct (Z.eq_dec u 2048) as [Eu|Eu].
    + destruct (slob_free_whole st fs b size p) as (st' & E & Hwf' & Em & _ & Er & Hkp); [done..|].
      exists st', fs. split_and!; [done|done|by rewrite Em| |done|done]. left. split_and!; [done..|].
      intros a Ha. right. pose proof (al_size _ _ _ _ _ Hal). pose proof (virt_to_page_base b). subst sp. lia.
    + destruct (slob_free_full st fs b size p Hwf Hsz Hal Hnin ltac:(fold u; lia))
        as (st' & E & Hwf' & Hm & _ & Er & Hkp). fold sp u in Hwf', Hm.
      exists st', ((sp, [(b, u)]) :: fs). split_and!; [done|done|intros; by apply Hm| | |done].
      * right. split; [done|]. intros a.
        rewrite (free_in_middle st' [] sp [(b, u)] fs) by apply (wf_rep _ _ Hwf').
        simpl. specialize (Hnone a). tauto.
      * intros q a Hq. by apply (free_in_other []).
Qed.

(** C12: freeing is safe.  Freeing an allocated block terminates without a fault
    and keeps the state well formed.  Either the page has become entirely free
    and is handed back to the page allocator, or the free units of the page are
    the old ones and those of the block.  Other pages keep their free units, and
    no memory outside the block and the free blocks of its page is written. *)
Theorem slob_free_safe st fs b size p :
  let u := SLOB_UNITS size in
  let sp := virt_to_page b in
  slob_wf st fs → 1 ≤ size ≤ 4096 → allocated st fs b u p →
  ∃ st' fs', slob_free (Addr b) size st = Ok (tt, st') ∧ slob_wf st' fs' ∧
    (∀ a, ¬ (b ≤ a < b + u) → ¬ free_in fs sp a → mem st' !! a = mem st !! a) ∧
    ((released st' = FreePages b 0 :: released st ∧ sp ∉ fs'.*1 ∧
        ∀ a, 2048 * sp ≤ a < 2048 * sp + 2048 → free_in fs sp a ∨ b ≤ a < b + u) ∨
     (released st' = released st ∧ ∀ a, free_in fs' sp a ↔ free_in fs sp a ∨ b ≤ a < b + u)) ∧
    (∀ q a, q ≠ sp → free_in fs' q a ↔ free_in fs q a).
Proof.
  intros u sp Hwf Hsz Hal. destruct (slob_free_total st fs b size p Hwf Hsz Hal)
    as (st' & fs' & ? & ? & ? & ? & ? & _). by exists st', fs'.
Qed.

Lemma slob_free_safe_witness :
  ∃ st b p st' fs', slob_alloc (λ _ _, Some 5) 100 0 8 sample_slob = Ok (Some b, st) ∧
    allocated st [(5, [(10290, 1998)])] b 50 p ∧
    slob_free (Addr b) 100 st = Ok (tt, st') ∧ slob_wf st' fs'.
Proof.
  destruct (slob_alloc_fresh (λ _ _, Some 5) sample_slob [] 100 0 8 5)
    as (st & E & Hrep & _ & _ & Hq & Hfull & Hnode & Hram & _);
    [apply sample_slob_wf|lia|right; by exists 3|by intros ? ?%elem_of_nil|done|apply sample_slob_fresh|].
  destruct (fresh_wf sample_slob st [] 5 50) as (Hwf & p & Hall);
    [apply sample_slob_wf|apply sample_slob_fresh|lia|done..|].
  destruct (slob_free_safe st [(5, [(10290, 1998)])] 10240 100 p) as (st' & fs' & E' & Hwf' & _);
    [exact Hwf|lia|exact Hall|].
  exists st, 10240, p, st', fs'. by split_and!.
Defined.

(** best fit.  When alignment costs nothing in any free block, [slob_alloc]
    takes the block from a smallest free block, over all pages, that is large
    enough. *)
Theorem slob_alloc_best_fit alloc_pages st fs size gfp align :
  let u := SLOB_UNITS size in
  slob_wf st fs → 1 ≤ size ≤ 4096 → align_ok align →
  (∀ sp bs s n, (sp, bs) ∈ fs → (s, n) ∈ bs → delta_of s align = 0) →
  (∃ sp bs s n, (sp, bs) ∈ fs ∧ (s, n) ∈ bs ∧ u ≤ n) →
  ∃ sp bs s n st', (sp, bs) ∈ fs ∧ (s, n) ∈ bs ∧ u ≤ n ∧
    slob_alloc alloc_pages size gfp align st = Ok (Some s, st') ∧
    ∀ sp' bs' s' n', (sp', bs') ∈ fs → (s', n') ∈ bs' → u ≤ n' → n ≤ n'.
Proof.
  intros u Hwf Hsz Hal Hz (sp0 & bs0 & s0 & n0 & Hin0 & Hb0 & Hn0).
  pose proof (wf_rep _ _ Hwf) as Hrep.
  assert (∀ sp bs s n, (sp, bs) ∈ fs → (s, n) ∈ bs → ∃ pr, (sp, pr, s, n) ∈ all_visits fs) as Hvis.
  { intros sp bs s n Hin Hb.
    assert (∀ pr, ∃ pr', (sp, pr', s, n) ∈ visits sp pr bs) as Hv.
    { clear -Hb. induction bs as [|[s1 n1] bs IH]; intros pr; [by apply elem_of_nil in Hb|].
      apply elem_of_cons in Hb as [[= -> ->]|Hb]; [exists pr; by left|].
      destruct (IH Hb (Some s1)) as [pr' ?]. exists pr'. by right. }
    destruct (Hv None) as [pr ?]. exists pr. apply list_elem_of_In, in_concat.
    exists (visits sp None bs). split; [|by apply list_elem_of_In].
    apply list_elem_of_In. by apply (list_elem_of_fmap_2 (λ f, visits f.1 None f.2) _ (sp, bs)). }
  assert (∀ v, v ∈ all_visits fs → delta_of (v_start v) align = 0) as Hz'.
  { intros v (f1 & sp & l1 & n & l2 & f2 & Efs & _)%all_visits_elem.
    apply (Hz sp (l1 ++ (v_start v, n) :: l2) _ n); [rewrite Efs|]; lelem. }
  destruct (slob_alloc_found alloc_pages st fs size gfp align Hrep Hsz Hal)
    as (f1 & sp & l1 & s & n & l2 & f2 & st' & Efs & _ & Hn & Hbest & E & _).
  { destruct (Hvis _ _ _ _ Hin0 Hb0) as [pr Hv]. exists (sp0, pr, s0, n0). split; [done|].
    unfold fits. rewrite (Hz' _ Hv). unfold v_size. simpl. fold u. lia. }
  assert (delta_of s align = 0) as Ed by (apply (Hz sp (l1 ++ (s, n) :: l2) s n); [rewrite Efs|]; lelem).
  rewrite Ed in *. exists sp, (l1 ++ (s, n) :: l2), s, n, st'. fold u in Hn, Hbest.
  split_and!; [rewrite Efs; lelem|lelem|lia|by rewrite Z.add_0_r in E|].
  intros sp' bs' s' n' Hin' Hb' Hn'. destruct (Hvis _ _ _ _ Hin' Hb') as [pr Hv].
  apply (Hbest (λ v Hv _, Hz' v Hv) _ Hv). unfold fits. rewrite (Hz' _ Hv). unfold v_size. simpl. lia.
Qed.

(** The state of page 5 with the free blocks [bs], everything else allocated. *)
Definition page5 (bs : list (Z * Z)) (m : list (Z * Z)) : slob :=
  {| mem := list_to_map m ∪ ram5;
     pages := {[ 5 := SlobPage (free_units bs) (next_to bs 12288) true true 0 ]};
     slists := ring_heap free_slob_small [sp_list 5] ∪ ring_heap free_slob_medium []
                 ∪ ring_heap free_slob_large [];
     pages_alloc := 1; released := [] |}.

Lemma flist_mono m m' B bs e : m ⊆ m' → flist m B bs e → flist m' B bs e.
Proof.
  intros Hm. induction bs as [|[s n] bs IH]; [done|]. intros [Hh Hf]. split; [|by apply IH].
  unfold hdr in *. destruct (1 <? n).
  - destruct Hh as [H1 H2]. split; [by apply (lookup_weaken _ _ _ _ H1)|by apply (lookup_weaken _ _ _ _ H2)].
  - by apply (lookup_weaken _ _ _ _ Hh).
Qed.

(** The free list of page 5 only has to be checked in the cells [m]. *)
Lemma page5_wf bs m :
  bool_decide (flist (list_to_map m) 10240 bs 12288) = true →
  bool_decide (blocks_wf 1 10240 12288 bs) = true → bs ≠ [] → free_units bs < 2048 →
  slob_wf (page5 bs m) [(5, bs)].
Proof.
  intros Hf%bool_decide_eq_true Hw%bool_decide_eq_true Hne Hlt. split; [split| |].
  - apply (bool_decide_unpack _). vm_compute. exact I.
  - intros sp qs [= -> ->]%list_elem_of_singleton. split_and!; [done|lia|lia|].
    exists (SlobPage (free_units bs) (next_to bs 12288) true true 0).
    split_and!; [|reflexivity..]. split; [reflexivity| | |exact Hw|done|done].
    + intros a Ha. apply lookup_union_is_Some. right. apply ram5_some. lia.
    + eapply flist_mono; [|exact Hf]. apply map_union_subseteq_l.
  - intros sp qs [= -> ->]%list_elem_of_singleton. done.
  - intros sp p Hp Hn. simpl in Hp. apply lookup_singleton_Some in Hp as [<- _].
    destruct Hn. by left.
Qed.

Definition two_blocks : list (Z * Z) := [(10244, 100); (10400, 60)].
Definition two_blocks_mem : list (Z * Z) := [(10244, 100); (10245, 160); (10400, 60); (10401, 2048)].

Lemma slob_alloc_best_fit_witness :
  ∃ sp bs s n st', (sp, bs) ∈ [(5, two_blocks)] ∧ (s, n) ∈ bs ∧ 50 ≤ n ∧
    slob_alloc (λ _ _, None) 100 0 8 (page5 two_blocks two_blocks_mem) = Ok (Some s, st') ∧
    ∀ sp' bs' s' n', (sp', bs') ∈ [(5, two_blocks)] → (s', n') ∈ bs' → 50 ≤ n' → n ≤ n'.
Proof.
  apply (slob_alloc_best_fit (λ _ _, None) (page5 two_blocks two_blocks_mem) [(5, two_blocks)] 100 0 8).
  - apply page5_wf; [vm_compute; reflexivity|vm_compute; reflexivity|discriminate|vm_compute; reflexivity].
  - lia.
  - right. by exists 3.
  - intros sp bs s n [= -> ->]%list_elem_of_singleton.
    intros [[= -> ->]|[= -> ->]%list_elem_of_singleton]%elem_of_cons; vm_compute; reflexivity.
  - exists 5, two_blocks, 10400, 60. split_and!; [by left|right; by left|vm_compute; discriminate].
Defined.

(** with alignment, the comparison of [find_best_fit_block] does not find the
    best fit.  A free block that fits exactly once its head is split off for
    alignment is passed over for a later block that leaves two units, because
    the size recorded for the first includes the units lost to alignment. *)
Theorem best_fit_passes_over_exact_fit :
  let bs := [(10241, 53); (10300, 52)] in
  let st := page5 bs [(10241, 53); (10242, 60); (10300, 52); (10301, 2048)] in
  slob_wf st [(5, bs)] ∧ SLOB_UNITS 100 + delta_of 10241 8 = 53 ∧
  SLOB_UNITS 100 + delta_of 10300 8 = 50 ∧
  ∃ best, find_best_fit_block 5 (best_init (SLOB_UNITS 100)) 100 8 st = Ok (best, st) ∧
    b_cur best = Some 10300.
Proof.
  intros bs st.
  assert (slob_wf st [(5, bs)]) as Hwf
    by (apply page5_wf; [vm_compute; reflexivity|vm_compute; reflexivity|discriminate|vm_compute; reflexivity]).
  split; [exact Hwf|]. split; [vm_compute; reflexivity|]. split; [vm_compute; reflexivity|].
  destruct (rep_pages _ _ (wf_rep _ _ Hwf) 5 bs) as (Hne & _ & p & Hv & _); [by left|].
  eexists. split; [by apply (find_best_fit_block_ok 5 st bs p)|]. vm_compute. reflexivity.
Qed.

(** *** Freeing undoes allocation *)
(** freeing undoes allocation.  After allocating a block from a partially
    free page and freeing it again, the free lists hold exactly the same blocks
    as before (a page that had become full returns to the front of the list),
    and nothing was handed back to the page allocator. *)
Theorem slob_alloc_free alloc_pages st fs size gfp align :
  slob_wf st fs → 1 ≤ size ≤ 4096 → align_ok align →
  (∃ v, v ∈ all_visits fs ∧ fits (SLOB_UNITS size) align v) →
  ∃ b st1 st2 fs2, slob_alloc alloc_pages size gfp align st = Ok (Some b, st1) ∧
    slob_free (Addr b) size st1 = Ok (tt, st2) ∧ slob_wf st2 fs2 ∧ fs2 ≡ₚ fs ∧
    released st2 = released st ∧ pages_alloc st2 = pages_alloc st.
Proof.
  intros Hwf Hsz Hal Hex. pose proof (wf_rep _ _ Hwf) as Hrep.
  destruct (slob_alloc_found alloc_pages st fs size gfp align Hrep Hsz Hal Hex)
    as (f1 & sp & l1 & s & n & l2 & f2 & st1 & Efs & Hd & Hn & _ & E & Hrep1 & Hmem & _ & Hq & Hfull
        & Hnode & Hram & Epa & Erel).
  pose proof (units_bound size Hsz) as Hu.
  destruct (rep_pages _ _ Hrep sp (l1 ++ (s, n) :: l2)) as (_ & Hr & p0 & Hv & _); [rewrite Efs; lelem|].
  pose proof (pv_wf _ _ _ _ Hv) as Hw.
  destruct (found_wf st st1 fs f1 sp l1 s n l2 f2 (delta_of s align) (SLOB_UNITS size) p0)
    as (Hwf1 & p & Hall); [done|done|done|lia|done..|].
  set (d := delta_of s align) in *. set (u := SLOB_UNITS size) in *.
  pose proof (blocks_wf_carve _ _ _ _ _ _ d u Hd ltac:(lia) Hn Hw) as Hwc.
  assert (free_units (l1 ++ frag s d ++ frag (s + d + u) (n - d - u) ++ l2) + u
          = free_units (l1 ++ (s, n) :: l2)) as Efu.
  { rewrite !free_units_app, free_units_cons, !free_units_frag. lia. }
  pose proof (wf_partial _ _ Hwf sp (l1 ++ (s, n) :: l2) ltac:(rewrite Efs; lelem)) as Hpart.
  pose proof (λ a, carve_in_blocks _ _ _ _ _ _ d u a Hw Hd ltac:(lia) Hn) as Hinb.
  set (bs' := l1 ++ frag s d ++ frag (s + d + u) (n - d - u) ++ l2) in *.
  destruct (block_facts sp st l1 s n l2 (pv_list _ _ _ _ Hv) Hw) as (_ & _ & _ & Hs).
  assert (s + n ≤ 2048 * sp + 2048) as Hsn by (by apply blocks_wf_app in Hw as [_ (_ & _ & ? & _)]).
  assert (virt_to_page (s + d) = sp) as Esp by (apply virt_to_page_in; lia).
  exists (s + d), st1. unfold keep_page in Hwf1, Hall. destruct (Z.eqb_spec (free_units bs') 0) as [Ez|Ez].
  - destruct (slob_free_full st1 (f1 ++ f2) (s + d) size p Hwf1 Hsz Hall) as (st2 & E2 & Hwf2 & _ & Epa2 & Erel2 & _).
    { rewrite Esp, fmap_app. intros [Hi|Hi]%elem_of_app; apply list_elem_of_fmap in Hi as ([q qs] & Eq & Hin);
        simpl in Eq; subst q; rewrite Efs in Hrep; destruct (rep_fresh _ _ _ _ _ sp qs Hrep); try done; lelem. }
    { fold u. lia. }
    exists st2, ((sp, [(s + d, u)]) :: f1 ++ f2). rewrite Esp in Hwf2. split_and!; [done..| |congruence|congruence].
    assert ([(s + d, u)] = l1 ++ (s, n) :: l2) as ->; [|by rewrite Efs, Permutation_middle].
    apply (blocks_ext (2048 * sp) (2048 * sp + 2048)); [simpl; lia|done|].
    intros a. rewrite <-Hinb, (free_units_zero 1 (2048 * sp) (2048 * sp + 2048) bs' ltac:(lia) ltac:(lia) Hwc Ez). simpl. tauto.
  - destruct (slob_free_partial st1 (f1 ++ [(sp, bs')] ++ f2) (s + d) size p Hwf1 Hsz Hall f1 bs' f2)
      as (st2 & k1 & k2 & Ebs & Hbt & E2 & Hwf2 & _ & Epa2 & Erel2 & _); [by rewrite Esp|fold u; lia|].
    rewrite Esp in Hbt, Hwf2. fold u in Hbt, Hwf2. rewrite Ebs in Hwc.
    destruct (insert_block_ok _ k1 (s + d) u k2 Hwc Hbt ltac:(lia) ltac:(lia)) as (Hwi & _ & Hini).
    exists st2, (f1 ++ (sp, insert_block k1 (s + d) u k2) :: f2). split_and!; [done..| |congruence|congruence].
    rewrite (blocks_ext _ _ _ _ Hwi Hw); [by rewrite Efs|]. intros a. rewrite Hini, <-Hinb, Ebs. done.
Qed.

Lemma slob_alloc_free_witness :
  ∃ b st1 st2 fs2, slob_alloc (λ _ _, None) 100 0 8 (page5 two_blocks two_blocks_mem) = Ok (Some b, st1) ∧
    slob_free (Addr b) 100 st1 = Ok (tt, st2) ∧ slob_wf st2 fs2 ∧ fs2 ≡ₚ [(5, two_blocks)] ∧
    released st2 = [] ∧ pages_alloc st2 = 1.
Proof.
  apply (slob_alloc_free (λ _ _, None) (page5 two_blocks two_blocks_mem) [(5, two_blocks)] 100 0 8).
  - apply page5_wf; [vm_compute; reflexivity|vm_compute; reflexivity|discriminate|vm_compute; reflexivity].
  - lia.
  - right. by exists 3.
  - exists (5, None, 10244, 100). split; [by left|]. apply (bool_decide_unpack _). vm_compute. exact I.
Defined.

(** *** The statistics *)
(** [sys_get_slob_amt_free] does not return the number of free bytes.  For
    each partially free page it counts two bytes less than the page has free,
    because [UNSLOB_UNITS] is not the inverse of [SLOB_UNITS]. *)
Theorem amt_free_undercounts st fs :
  slob_wf st fs → is_list (slists st) free_slob_medium [] → is_list (slists st) free_slob_large [] →
  sys_get_slob_amt_free st =
    Ok (u32 (2 * foldr Z.add 0 (free_units <$> fs.*2) - 2 * Z.of_nat (length fs)), st).
Proof.
  intros Hwf Hm Hl. pose proof (wf_rep _ _ Hwf) as Hrep. unfold sys_get_slob_amt_free.
  rewrite (st_bind_ok _ _ _ _ _ (page_entries_ok _ _ (rep_list _ _ Hrep))).
  assert (∀ fs' acc, (∀ sp bs, (sp, bs) ∈ fs' → (sp, bs) ∈ fs) →
    sum_free fs'.*1 (u32 acc) st =
      Ok (u32 (acc + (2 * foldr Z.add 0 (free_units <$> fs'.*2) - 2 * Z.of_nat (length fs'))), st)) as Hsum.
  { intros fs'. induction fs' as [|[sp bs] fs' IH]; intros acc Hsub.
    { simpl. by rewrite Z.add_0_r. }
    destruct (rep_pages _ _ Hrep sp bs) as (Hne & _ & p & Hv & _); [apply Hsub; by left|].
    cbn [fmap list_fmap fst snd sum_free foldr length].
    rewrite (st_bind_ok _ _ st p st) by (apply sp_get_ok, (pv_page _ _ _ _ Hv)).
    pose proof (pv_wf _ _ _ _ Hv) as Hw.
    pose proof (free_units_bound 1 (2048 * sp) (2048 * sp + 2048) bs ltac:(lia) ltac:(lia) Hw).
    assert (free_units bs ≠ 0) by (intros Ez; by apply Hne, (free_units_zero 1 (2048 * sp) (2048 * sp + 2048) bs ltac:(lia) ltac:(lia) Hw)).
    rewrite (pv_units _ _ _ _ Hv). unfold UNSLOB_UNITS, SLOB_UNIT. rewrite u64_id by lia.
    replace (u32 (u32 acc + 2 * (free_units bs - 2 + 1))) with (u32 (acc + 2 * (free_units bs - 1)))
      by (unfold u32; rewrite Zplus_mod_idemp_l; f_equal; lia).
    rewrite IH by (intros; apply Hsub; by right). do 3 f_equal. lia. }
  change 0 with (u32 0) at 1. rewrite (st_bind_ok _ _ _ _ _ (Hsum fs 0 (λ _ _ H, H))).
  rewrite (st_bind_ok _ _ _ _ _ (page_entries_list st free_slob_medium [] Hm)).
  rewrite (st_bind_ok _ _ _ _ _ (eq_refl : sum_free [] _ st = Ok (_, st))).
  rewrite (st_bind_ok _ _ _ _ _ (page_entries_list st free_slob_large [] Hl)). done.
Qed.

Lemma amt_free_undercounts_witness :
  sys_get_slob_amt_free (page5 two_blocks two_blocks_mem)
    = Ok (u32 (2 * (160 + 0) - 2 * 1), page5 two_blocks two_blocks_mem).
Proof.
  apply (amt_free_undercounts (page5 two_blocks two_blocks_mem) [(5, two_blocks)]).
  - apply page5_wf; [vm_compute; reflexivity|vm_compute; reflexivity|discriminate|vm_compute; reflexivity].
  - apply (bool_decide_unpack _). vm_compute. exact I.
  - apply (bool_decide_unpack _). vm_compute. exact I.
Defined.

(** *** kmalloc and kfree *)
Lemma u16_s16 x : u16 (s16 x) = u16 x.
Proof.
  unfold u16, s16. rewrite Zminus_mod, Zmod_mod, <-Zminus_mod. f_equal. lia.
Qed.

Lemma store_int_ok st a v :
  is_Some (mem st !! a) → is_Some (mem st !! (a + 1)) → 0 ≤ v < 2 ^ 32 →
  ∃ m', store_int a v st = Ok (tt, set_mem m' st) ∧ same_but (mem st) m' (λ x, a ≤ x < a + 2) ∧
    load_int a (set_mem m' st) = Ok (v, set_mem m' st).
Proof.
  intros [x Hx] [y Hy] Hv.
  exists (<[a + 1 := s16 (Z.shiftr v 16)]> (<[a := s16 v]> (mem st))). split_and!.
  - unfold store_int. rewrite (st_bind_ok _ _ st tt (set_mem (<[a := s16 v]> (mem st)) st))
      by (unfold store; by rewrite Hx).
    unfold store. simpl. by rewrite lookup_insert_ne, Hy by lia.
  - split; [|intros z Hz; by rewrite !lookup_insert_ne by lia].
    intros z. rewrite !lookup_insert_is_Some'. naive_solver.
  - unfold load_int. set (st' := set_mem _ st).
    rewrite (st_bind_ok _ _ st' (s16 v) st')
      by (unfold load; simpl; by rewrite lookup_insert_ne, lookup_insert_eq by lia).
    rewrite (st_bind_ok _ _ st' (s16 (Z.shiftr v 16)) st') by (unfold load; simpl; by rewrite lookup_insert_eq).
    unfold mret, st_ret. do 2 f_equal. rewrite !u16_s16, Z.shiftr_div_pow2 by lia. unfold u16.
    rewrite (Z.mod_small (v / 2 ^ 16)).
    + pose proof (Z.div_mod v (2 ^ 16) ltac:(lia)). lia.
    + split; [apply Z.div_pos; lia|]. apply Z.div_lt_upper_bound; lia.
Qed.

(** The owner of a block may write to it. *)
Lemma allocated_write st fs b u p m' :
  slob_wf st fs → allocated st fs b u p → same_but (mem st) m' (λ a, b ≤ a < b + u) →
  slob_wf (set_mem m' st) fs ∧ allocated (set_mem m' st) fs b u p.
Proof.
  intros [Hrep Hpart Hoth] Hal Hs. split; [split; [|done|done]|].
  - eapply slob_rep_mem; [done|exact Hs|]. intros a sp bs Ha Hin Hb.
    destruct (rep_pages _ _ Hrep sp bs Hin) as (_ & _ & p0 & Hv & _).
    pose proof (in_blocks_range 1 _ _ _ _ ltac:(lia) (pv_wf _ _ _ _ Hv) Hb) as Hr.
    destruct (al_size _ _ _ _ _ Hal) as [_ Hu]. pose proof (virt_to_page_base b). simpl in Ha.
    assert (sp = virt_to_page b) as -> by lia. by apply (al_disjoint _ _ _ _ _ Hal bs a).
  - destruct Hal. split; try done. intros a Ha. apply Hs. auto.
Qed.

(** The units [b .. b + u - 1] of [sp] went back: the page has become entirely free
    and was handed back to the page allocator, or its free units are the old ones
    and those of the block.  Other pages keep their free units. *)
Definition gave_back (st : slob) (fs : list (Z * list (Z * Z))) (b u : Z) (st' : slob) (fs' : list (Z * list (Z * Z))) : Prop :=
  let sp := virt_to_page b in
  ((released st' = FreePages b 0 :: released st ∧ sp ∉ fs'.*1 ∧
      ∀ a, 2048 * sp ≤ a < 2048 * sp + 2048 → free_in fs sp a ∨ b ≤ a < b + u) ∨
   (released st' = released st ∧ ∀ a, free_in fs' sp a ↔ free_in fs sp a ∨ b ≤ a < b + u)) ∧
  (∀ q a, q ≠ sp → free_in fs' q a ↔ free_in fs q a).

(** C24: kmalloc and kfree fit together.  A small request from a well-formed state
    is refused, without a change, only if there is no page to be had.  Otherwise it
    returns an aligned block whose [ksize] is the size asked for rounded up to whole
    units, and which lies, with its header, in units that were free before or in a
    new page and are no longer free; and [kfree] makes exactly these units free
    again, or hands their page back if that leaves it entirely free. *)
Theorem kmalloc_kfree alloc_pages st fs size gfp :
  slob_wf st fs → 1 ≤ size < 4088 →
  (∀ sp, alloc_pages (Z.ldiff gfp GFP_ZERO) 0 = Some sp → fresh_page st fs sp) →
  ∃ r st1, __kmalloc_node alloc_pages size gfp st = Ok (r, st1) ∧
    match r with
    | NULL => st1 = st ∧ alloc_pages (Z.ldiff gfp GFP_ZERO) 0 = None
    | ZERO_SIZE_PTR => False
    | Addr a =>
      let m := a - 4 in let u := SLOB_UNITS (size + 8) in
      2 * a mod 8 = 0 ∧ 4 + SLOB_UNITS size ≤ u ∧ ksize (Addr a) st1 = Ok (2 * SLOB_UNITS size, st1) ∧
      ∃ fs1 p, slob_wf st1 fs1 ∧ allocated st1 fs1 m u p ∧
        (∀ x, m ≤ x < m + u →
           free_in fs (virt_to_page m) x ∨ alloc_pages (Z.ldiff gfp GFP_ZERO) 0 = Some (virt_to_page m)) ∧
        (∀ q x, free_in fs q x → free_in fs1 q x ∨ m ≤ x < m + u) ∧
        ∃ st2 fs2, kfree (Addr a) st1 = Ok (tt, st2) ∧ slob_wf st2 fs2 ∧ gave_back st1 fs1 m u st2 fs2
    end.
Proof.
  intros Hwf Hsz Hfresh. unfold __kmalloc_node. change kmalloc_align with 8.
  rewrite (proj2 (Z.ltb_lt size (PAGE_SIZE - 8))) by (change (PAGE_SIZE - 8) with 4088; lia).
  rewrite (proj2 (Z.eqb_neq size 0)) by lia.
  destruct (slob_alloc_total alloc_pages st fs (size + 8) gfp 8) as ([m|] & st1 & E & Hcase);
    [done|lia|right; by exists 3|done| |].
  2: { destruct Hcase as (-> & Hnone & _). exists NULL, st. st_step E. done. }
  destruct Hcase as (Hmod & fs1 & p & Hwf1 & Hall & _ & Hfrom & _ & Hkeep & _).
  assert (5 ≤ SLOB_UNITS (size + 8)) as H5.
  { unfold SLOB_UNITS, SLOB_UNIT. apply Z.div_le_lower_bound; lia. }
  destruct (al_size _ _ _ _ _ Hall) as [Hu1 Hu2]. pose proof (virt_to_page_base m) as Hb.
  destruct (store_int_ok st1 m (u32 size)) as (m' & Es & Hsame & Hload);
    [apply (al_ram _ _ _ _ _ Hall); lia|apply (al_ram _ _ _ _ _ Hall); lia|apply u32_range|].
  rewrite u32_id in Hload by lia.
  destruct (allocated_write st1 fs1 m (SLOB_UNITS (size + 8)) p m') as [Hwf2 Hall2]; [done|done| |].
  { split; [apply Hsame|]. intros a Ha. apply Hsame. lia. }
  assert (virt_to_page (m + 4) = virt_to_page m) as Epg by (apply virt_to_page_in; lia).
  assert (sp_get (virt_to_page m) (set_mem m' st1) = Ok (p, set_mem m' st1)) as Eget
    by (apply sp_get_ok, (al_page _ _ _ _ _ Hall2)).
  exists (Addr (m + 4)), (set_mem m' st1). st_step E. st_step Es. split; [done|]. cbv zeta.
  replace (m + 4 - 4) with m by lia.
  split; [rewrite Z.mul_add_distr_l, Z.add_mod, (Hmod ltac:(lia)) by lia; reflexivity|].
  split; [unfold SLOB_UNITS, SLOB_UNIT; replace (size + 8 + 2 - 1) with (size + 2 - 1 + 4 * 2) by lia;
          rewrite Z.div_add by lia; lia|].
  unfold ksize, kfree. change (kmalloc_align / SLOB_UNIT) with 4. rewrite Epg.
  replace (m + 4 - 4) with m by lia. rewrite !(st_bind_ok _ _ _ _ _ Eget), (al_slab _ _ _ _ _ Hall2).
  rewrite !(st_bind_ok _ _ _ _ _ Hload). split; [unfold mret, st_ret; do 2 f_equal; unfold SLOB_UNIT; lia|].
  exists fs1, p. split_and!; try done.
  destruct (slob_free_total (set_mem m' st1) fs1 m (size + 8) p) as (st2 & fs2 & E2 & Hwf3 & _ & Hback & Hoth & _);
    [done|lia|done|]. change kmalloc_align with 8. exists st2, fs2. by split_and!.
Qed.

Lemma kmalloc_kfree_witness :
  ∃ r st1, __kmalloc_node (λ _ _, Some 5) 100 0 sample_slob = Ok (r, st1) ∧
    match r with
    | NULL => st1 = sample_slob ∧ Some 5 = None
    | ZERO_SIZE_PTR => False
    | Addr a =>
      let m := a - 4 in let u := SLOB_UNITS 108 in
      2 * a mod 8 = 0 ∧ 4 + SLOB_UNITS 100 ≤ u ∧ ksize (Addr a) st1 = Ok (2 * SLOB_UNITS 100, st1) ∧
      ∃ fs1 p, slob_wf st1 fs1 ∧ allocated st1 fs1 m u p ∧
        (∀ x, m ≤ x < m + u → free_in [] (virt_to_page m) x ∨ Some 5 = Some (virt_to_page m)) ∧
        (∀ q x, free_in [] q x → free_in fs1 q x ∨ m ≤ x < m + u) ∧
        ∃ st2 fs2, kfree (Addr a) st1 = Ok (tt, st2) ∧ slob_wf st2 fs2 ∧ gave_back st1 fs1 m u st2 fs2
    end.
Proof.
  apply (kmalloc_kfree (λ _ _, Some 5) sample_slob [] 100 0).
  - apply sample_slob_wf.
  - lia.
  - intros sp [= <-]. apply sample_slob_fresh.
Defined.
