(* ===== verification/SlobCache.v ===== *)
(** * The slab caches of SLOB ([mm/slob.c])

    [struct kmem_cache] and the functions on it: a cache is no more than the
    size, alignment and constructor of its objects, which come from [slob_alloc].
    The fields of a [struct kmem_cache] are kept in a table by its address.  The
    objects of a [SLAB_DESTROY_BY_RCU] cache end in a footer, and freeing one
    only registers the footer with RCU; [rcu_callbacks] holds the footers (byte
    addresses) registered and not yet called back, the oldest first.  What
    [call_rcu] stores in the head of the footer is not modelled. *)

From S2P Require Import Prelude KList Slob SlobAlloc SlobFree.

Local Open Scope Z_scope.

Definition SLAB_HWCACHE_ALIGN : Z := 0x2000.
Definition SLAB_PANIC : Z := 0x40000.
Definition SLAB_DESTROY_BY_RCU : Z := 0x80000.
Definition GFP_KERNEL : Z := 0xd0.
(** [L1_CACHE_BYTES] and [ARCH_SLAB_MINALIGN] of a 64-bit x86 machine. *)
Definition SLOB_ALIGN : Z := 64.
Definition ARCH_SLAB_MINALIGN : Z := 8.
Definition sizeof_kmem_cache : Z := 32.
(** [struct slob_rcu]: a head of two pointers, and [size] at offset 16. *)
Definition sizeof_slob_rcu : Z := 24.
Definition sizeof_rcu_head : Z := 16.

Record kmem_cache := KmemCache {
  cache_size : Z;
  cache_align : Z;
  cache_flags : Z;
  cache_name : string;
  ctor : option (voidp → ST slob unit)
}.

Record slab := Slab {
  slob_state : slob;
  caches : gmap Z kmem_cache;
  rcu_callbacks : list Z
}.

Definition on_slob {X} (m : ST slob X) : ST slab X :=
  zoom slob_state (λ st s, Slab st (caches s) (rcu_callbacks s)) m.
Definition cache_get (c : Z) : ST slab kmem_cache :=
  s ← get; lift (deref (caches s !! c)).

(** ** Bytes of the 16-bit cells *)
Definition byte_of (x v : Z) : Z := if Z.even x then u16 v mod 256 else u16 v / 256.
Definition with_byte (x v w : Z) : Z :=
  if Z.even x then u16 v / 256 * 256 + w mod 256 else w mod 256 * 256 + u16 v mod 256.
Definition load_byte (x : Z) : ST slob Z := v ← load (x / 2); mret (byte_of x v).
Definition store_byte (x w : Z) : ST slob unit := v ← load (x / 2); store (x / 2) (with_byte x v w).

Fixpoint store_bytes (x : Z) (ws : list Z) : ST slob unit :=
  match ws with
  | [] => mret tt
  | w :: ws => store_byte x w;; store_bytes (x + 1) ws
  end.

(** An [int] at the byte address [x], little endian. *)
Definition store_u32 (x v : Z) : ST slob unit :=
  store_bytes x [v; Z.shiftr v 8; Z.shiftr v 16; Z.shiftr v 24].
Definition load_u32 (x : Z) : ST slob Z :=
  b0 ← load_byte x;
  b1 ← load_byte (x + 1);
  b2 ← load_byte (x + 2);
  b3 ← load_byte (x + 3);
  mret (b0 + 256 * (b1 + 256 * (b2 + 256 * b3))).

(** ** Caches *)
Section caches.
Variable alloc_pages : Z → Z → option Z.

(** [panic] is [BUG]. *)
Definition kmem_cache_create (name : string) (size align flags : Z)
    (f : option (voidp → ST slob unit)) : ST slab (option Z) :=
  c ← on_slob (slob_alloc alloc_pages sizeof_kmem_cache GFP_KERNEL 8);
  match c with
  | None => if tst flags SLAB_PANIC then raise BUG else mret None
  | Some c =>
    let sz := u32 size in
    let sz := if tst flags SLAB_DESTROY_BY_RCU then u32 (sz + sizeof_slob_rcu) else sz in
    let al := if tst flags SLAB_HWCACHE_ALIGN then SLOB_ALIGN else 0 in
    let al := if al <? ARCH_SLAB_MINALIGN then ARCH_SLAB_MINALIGN else al in
    let al := if al <? align then u32 align else al in
    modify (λ s, Slab (slob_state s) (<[c := KmemCache sz al flags name f]> (caches s)) (rcu_callbacks s));;
    mret (Some c)
  end.

Definition kmem_cache_alloc_node (c flags : Z) : ST slab voidp :=
  k ← cache_get c;
  b ← (if cache_size k <? PAGE_SIZE
       then on_slob (slob_alloc alloc_pages (cache_size k) flags (cache_align k))
       else on_slob (slob_new_pages alloc_pages flags (get_order (cache_size k))));
  let b := match b with Some b => Addr b | None => NULL end in
  match ctor k with
  | Some f => on_slob (f b);; mret b
  | None => mret b
  end.
End caches.

(** [int size], compared with an [unsigned long]. *)
Definition __kmem_cache_free (b size : Z) : ST slob unit :=
  if u64 (s32 size) <? PAGE_SIZE then slob_free (Addr b) size
  else slob_free_pages b (get_order (u64 (s32 size))).

(** [head]: the byte address of the footer. *)
Definition kmem_rcu_free (head : Z) : ST slob unit :=
  size ← load_u32 (head + sizeof_rcu_head);
  __kmem_cache_free ((head - (s32 size - sizeof_slob_rcu)) / SLOB_UNIT) (s32 size).

Definition kmem_cache_free (c b : Z) : ST slab unit :=
  k ← cache_get c;
  if tst (cache_flags k) SLAB_DESTROY_BY_RCU then
    let head := SLOB_UNIT * b + (cache_size k - sizeof_slob_rcu) in
    on_slob (store_bytes head (replicate (Z.to_nat sizeof_rcu_head) 0));;
    on_slob (store_u32 (head + sizeof_rcu_head) (cache_size k));;
    modify (λ s, Slab (slob_state s) (caches s) (rcu_callbacks s ++ [head]))
  else on_slob (__kmem_cache_free b (cache_size k)).

(** The end of a grace period for the oldest callback. *)
Definition rcu_callback : ST slab unit :=
  s ← get;
  match rcu_callbacks s with
  | [] => mret tt
  | head :: cbs => put (Slab (slob_state s) (caches s) cbs);; on_slob (kmem_rcu_free head)
  end.

(** [rcu_barrier]: wait until all callbacks have run. *)
Fixpoint run_callbacks (n : nat) : ST slab unit :=
  match n with O => mret tt | S n => rcu_callback;; run_callbacks n end.
Definition rcu_barrier : ST slab unit :=
  s ← get; run_callbacks (length (rcu_callbacks s)).

Definition kmem_cache_destroy (c : Z) : ST slab unit :=
  k ← cache_get c;
  when (tst (cache_flags k) SLAB_DESTROY_BY_RCU) rcu_barrier;;
  on_slob (slob_free (Addr c) sizeof_kmem_cache);;
  modify (λ s, Slab (slob_state s) (delete c (caches s)) (rcu_callbacks s)).

Definition kmem_cache_size (c : Z) : ST slab Z := k ← cache_get c; mret (cache_size k).
Definition kmem_cache_name (c : Z) : ST slab string := k ← cache_get c; mret (cache_name k).
Definition kmem_cache_shrink (c : Z) : Z := 0.
Definition kmem_ptr_validate (c b : Z) : Z := 0.

(** ** Bytes *)

Definition byte_at (m : gmap Z Z) (x : Z) : option Z := byte_of x <$> m !! (x / 2).

Lemma even_div x : x = 2 * (x / 2) + (if Z.even x then 0 else 1).
Proof.
  pose proof (Z.div_mod x 2 ltac:(lia)). rewrite Zmod_even in H. destruct (Z.even x); lia.
Qed.

Lemma with_byte_range x v w : 0 ≤ with_byte x v w < 2 ^ 16.
Proof.
  unfold with_byte, u16. pose proof (Z.mod_pos_bound v (2 ^ 16)). pose proof (Z.mod_pos_bound w 256).
  pose proof (Z.mod_pos_bound (v mod 2 ^ 16) 256). pose proof (Z.div_lt_upper_bound (v mod 2 ^ 16) 256 256).
  pose proof (Z.div_pos (v mod 2 ^ 16) 256). destruct (Z.even x); lia.
Qed.

(** Storing one byte of a cell gives that byte and keeps the other. *)
Lemma byte_of_with x y v w : y / 2 = x / 2 →
  byte_of y (s16 (with_byte x v w)) = if bool_decide (y = x) then w mod 256 else byte_of y v.
Proof.
  intros Exy. unfold byte_of. rewrite !u16_s16. pose proof (with_byte_range x v w) as Hr.
  set (W := with_byte x v w) in *. replace (u16 W) with W by (symmetry; by apply Z.mod_small).
  subst W. unfold with_byte. pose proof (Z.mod_pos_bound w 256). pose proof (Z.mod_pos_bound (u16 v) 256).
  pose proof (even_div x). pose proof (even_div y).
  destruct (Z.even x) eqn:Ex, (Z.even y) eqn:Ey.
  - rewrite bool_decide_eq_true_2 by lia. by rewrite Z.add_comm, Z.mod_add, Z.mod_mod by lia.
  - rewrite bool_decide_eq_false_2 by lia.
    rewrite Z.div_add_l, (Z.div_small (w mod 256)) by lia. lia.
  - rewrite bool_decide_eq_false_2 by lia. by rewrite Z.add_comm, Z.mod_add, Z.mod_mod by lia.
  - rewrite bool_decide_eq_true_2 by lia. rewrite Z.div_add_l, (Z.div_small (u16 v mod 256)) by lia. lia.
Qed.

Lemma store_byte_ok st x w : is_Some (mem st !! (x / 2)) →
  ∃ m', store_byte x w st = Ok (tt, set_mem m' st) ∧ same_but (mem st) m' (λ a, a = x / 2) ∧
    ∀ y, byte_at m' y = if bool_decide (y = x) then Some (w mod 256) else byte_at (mem st) y.
Proof.
  intros [v Hv]. exists (<[x / 2 := s16 (with_byte x v w)]> (mem st)). split_and!.
  - unfold store_byte. rewrite (st_bind_ok _ _ st v st) by (unfold load; by rewrite Hv).
    unfold store. by rewrite Hv.
  - split; [|intros a Ha; by rewrite lookup_insert_ne].
    intros a. rewrite lookup_insert_is_Some'. naive_solver.
  - intros y. unfold byte_at. destruct (decide (y / 2 = x / 2)) as [E|E].
    + rewrite E, lookup_insert_eq, Hv. simpl. rewrite byte_of_with by done. by case_bool_decide.
    + rewrite lookup_insert_ne by done. by rewrite bool_decide_eq_false_2 by (by intros ->).
Qed.

(** The cells that hold the [n] bytes from [x] on. *)
Definition cells (x n a : Z) : Prop := x ≤ 2 * a + 1 ∧ 2 * a < x + n.

Lemma store_bytes_ok ws x st : (∀ a, cells x (Z.of_nat (length ws)) a → is_Some (mem st !! a)) →
  ∃ m', store_bytes x ws st = Ok (tt, set_mem m' st) ∧
    same_but (mem st) m' (cells x (Z.of_nat (length ws))) ∧
    ∀ y, byte_at m' y =
      if bool_decide (x ≤ y < x + Z.of_nat (length ws))
      then (λ w, w mod 256) <$> ws !! Z.to_nat (y - x) else byte_at (mem st) y.
Proof.
  revert x st. induction ws as [|w ws IH]; intros x st Hm.
  { exists (mem st). split; [by destruct st|]. split; [apply same_but_refl|].
    intros y. by rewrite bool_decide_eq_false_2 by (simpl; lia). }
  rewrite length_cons, Nat2Z.inj_succ in *. pose proof (even_div x) as Hx.
  destruct (store_byte_ok st x w) as (m1 & E1 & [D1 S1] & B1).
  { apply Hm. unfold cells. destruct (Z.even x); lia. }
  destruct (IH (x + 1) (set_mem m1 st)) as (m2 & E2 & S2 & B2).
  { intros a Ha. apply D1, Hm. unfold cells in *. lia. }
  exists m2. split; [|split].
  - simpl store_bytes. by rewrite (st_bind_ok _ _ _ _ _ E1), E2.
  - eapply (same_but_trans _ m1 _ (λ a, a = x / 2)); [split; [exact D1|exact S1]|exact S2| |]; unfold cells; intros a Ha.
    + subst a. destruct (Z.even x); lia.
    + lia.
  - intros y. rewrite B2. simpl mem. rewrite B1. destruct (decide (y = x)) as [->|Hne].
    + rewrite !bool_decide_eq_false_2, !bool_decide_eq_true_2 by lia. by rewrite Z.sub_diag.
    + rewrite (bool_decide_eq_false_2 (y = x)) by done. case_bool_decide.
      * rewrite bool_decide_eq_true_2 by lia.
        replace (Z.to_nat (y - x)) with (S (Z.to_nat (y - (x + 1)))) by lia. done.
      * by rewrite bool_decide_eq_false_2 by lia.
Qed.

Lemma load_byte_ok st x v : byte_at (mem st) x = Some v → load_byte x st = Ok (v, st).
Proof.
  unfold byte_at, load_byte. intros (c & Hc & ->)%fmap_Some.
  rewrite (st_bind_ok _ _ st c st) by (unfold load; by rewrite Hc). done.
Qed.

Lemma load_u32_ok st x v : 0 ≤ v < 2 ^ 32 →
  (∀ i, 0 ≤ i < 4 → byte_at (mem st) (x + i) = Some (Z.shiftr v (8 * i) mod 256)) →
  load_u32 x st = Ok (v, st).
Proof.
  intros Hv Hb. unfold load_u32.
  assert (Hbyte : ∀ i, 0 ≤ i < 4 → load_byte (x + i) st = Ok (Z.shiftr v (8 * i) mod 256, st))
    by (intros i Hi; by apply load_byte_ok, Hb).
  replace x with (x + 0) at 1 by lia.
  rewrite (st_bind_ok _ _ _ _ _ (Hbyte 0 ltac:(lia))), (st_bind_ok _ _ _ _ _ (Hbyte 1 ltac:(lia))).
  rewrite (st_bind_ok _ _ _ _ _ (Hbyte 2 ltac:(lia))), (st_bind_ok _ _ _ _ _ (Hbyte 3 ltac:(lia))).
  unfold mret, st_ret. do 2 f_equal. rewrite !Z.shiftr_div_pow2 by lia.
  change (8 * 0) with 0. change (8 * 1) with 8. change (8 * 2) with 16. change (8 * 3) with 24.
  change (2 ^ 0) with 1. change (2 ^ 8) with 256. change (2 ^ 16) with (256 * 256).
  change (2 ^ 24) with (256 * (256 * 256)). rewrite Z.div_1_r, <-!Z.div_div by lia.
  pose proof (Z.div_mod v 256 ltac:(lia)). pose proof (Z.div_mod (v / 256) 256 ltac:(lia)).
  pose proof (Z.div_mod (v / 256 / 256) 256 ltac:(lia)).
  rewrite (Z.mod_small (v / 256 / 256 / 256)); [lia|].
  split; [repeat apply Z.div_pos; lia|]. repeat (apply Z.div_lt_upper_bound; [lia|]). lia.
Qed.

(** ** Objects of caches *)

Lemma on_slob_ok {X} (m : ST slob X) s x st :
  m (slob_state s) = Ok (x, st) → on_slob m s = Ok (x, Slab st (caches s) (rcu_callbacks s)).
Proof. intros E. unfold on_slob. by rewrite (zoom_ok _ _ _ _ _ _ E). Qed.

Lemma cache_get_ok c k s : caches s !! c = Some k → cache_get c s = Ok (k, s).
Proof.
  intros Hk. unfold cache_get. erewrite st_bind_ok by reflexivity. unfold lift. by rewrite Hk.
Qed.

Lemma cache_free_small b size : 0 ≤ size < 4096 → __kmem_cache_free b size = slob_free (Addr b) size.
Proof.
  intros Hs. unfold __kmem_cache_free. rewrite s32_id, u64_id by lia.
  destruct (Z.ltb_spec size PAGE_SIZE); [done|]. change PAGE_SIZE with 4096 in *. lia.
Qed.

(** The footer of an object of [size] bytes at [b]. *)
Definition footer (b size : Z) : Z := 2 * b + (size - 24).

Lemma footer_cells b size a : 24 ≤ size → cells (footer b size) 20 a → b ≤ a < b + SLOB_UNITS size.
Proof.
  unfold cells, footer, SLOB_UNITS, SLOB_UNIT. intros Hs [H1 H2].
  pose proof (Z.div_mod (size + 2 - 1) 2 ltac:(lia)).
  pose proof (Z.mod_pos_bound (size + 2 - 1) 2 ltac:(lia)). lia.
Qed.

(** Writing the footer changes no byte of the object in front of it. *)
Lemma footer_write_ok st fs b size p : slob_wf st fs → 24 ≤ size < 4096 →
  allocated st fs b (SLOB_UNITS size) p →
  ∃ m1 m2, store_bytes (footer b size) (replicate 16 0) st = Ok (tt, set_mem m1 st) ∧
    store_u32 (footer b size + 16) size (set_mem m1 st) = Ok (tt, set_mem m2 st) ∧
    slob_wf (set_mem m2 st) fs ∧ allocated (set_mem m2 st) fs b (SLOB_UNITS size) p ∧
    same_but (mem st) m2 (cells (footer b size) 20) ∧
    (∀ x, x < footer b size → byte_at m2 x = byte_at (mem st) x) ∧
    (∀ i, 0 ≤ i < 4 → byte_at m2 (footer b size + 16 + i) = Some (Z.shiftr size (8 * i) mod 256)).
Proof.
  intros Hwf Hs Hal. set (h := footer b size).
  assert (Hram : ∀ a, cells h 20 a → is_Some (mem st !! a)).
  { intros a Ha%footer_cells; [|lia]. apply (al_ram _ _ _ _ _ Hal).
    destruct (al_size _ _ _ _ _ Hal). pose proof (virt_to_page_base b). lia. }
  destruct (store_bytes_ok (replicate 16 0) h st) as (m1 & E1 & [D1 S1] & B1).
  { intros a Ha. apply Hram. unfold cells in *. simpl in Ha. lia. }
  destruct (store_bytes_ok [size; Z.shiftr size 8; Z.shiftr size 16; Z.shiftr size 24] (h + 16) (set_mem m1 st))
    as (m2 & E2 & S2 & B2).
  { intros a Ha. apply D1, Hram. unfold cells in *. simpl in Ha. lia. }
  assert (Hsame : same_but (mem st) m2 (cells h 20)).
  { eapply same_but_trans; [split; [exact D1|exact S1]|exact S2| |];
      unfold cells; simpl; intros a Ha; lia. }
  destruct (allocated_write st fs b (SLOB_UNITS size) p m2 Hwf Hal) as [Hwf' Hal'].
  { split; [apply Hsame|]. intros a Ha. apply Hsame. intros Hc%footer_cells; [done|lia]. }
  exists m1, m2. split_and!; [done|done|done|done|done| |].
  - intros x Hx. rewrite B2, bool_decide_eq_false_2 by lia. simpl mem.
    by rewrite B1, bool_decide_eq_false_2 by lia.
  - intros i Hi. rewrite B2, bool_decide_eq_true_2 by (simpl; lia).
    replace (h + 16 + i - (h + 16)) with i by lia.
    assert (i = 0 ∨ i = 1 ∨ i = 2 ∨ i = 3) as [->|[->|[->| ->]]] by lia; [|done..].
    simpl. by rewrite Z.shiftr_0_r.
Qed.

(** The callback frees the object its footer ends. *)
Lemma rcu_free_ok st fs b size p : slob_wf st fs → 24 ≤ size < 4096 →
  allocated st fs b (SLOB_UNITS size) p →
  (∀ i, 0 ≤ i < 4 → byte_at (mem st) (footer b size + 16 + i) = Some (Z.shiftr size (8 * i) mod 256)) →
  kmem_rcu_free (footer b size) st = slob_free (Addr b) size st.
Proof.
  intros Hwf Hs Hal Hb. unfold kmem_rcu_free. change sizeof_rcu_head with 16.
  rewrite (st_bind_ok _ _ _ _ _ (load_u32_ok st _ size ltac:(lia) Hb)). rewrite s32_id by lia.
  rewrite cache_free_small by lia. f_equal. unfold footer, sizeof_slob_rcu, SLOB_UNIT.
  replace (2 * b + (size - 24) - (size - 24)) with (b * 2) by lia. by rewrite Z.div_mul.
Qed.

(** C27: Freeing an object of a [SLAB_DESTROY_BY_RCU] cache leaves it allocated,
    with all its bytes, and writes only the footer behind it.  Once the grace
    period is over, in whatever well-formed state the allocator is by then, the
    callback gives exactly the memory of the object back. *)
Theorem rcu_free_delayed st fs cs cbs c k b p :
  slob_wf st fs → cs !! c = Some k → tst (cache_flags k) SLAB_DESTROY_BY_RCU = true →
  sizeof_slob_rcu ≤ cache_size k < PAGE_SIZE → allocated st fs b (SLOB_UNITS (cache_size k)) p →
  let head := footer b (cache_size k) in
  ∃ st', kmem_cache_free c b (Slab st cs cbs) = Ok (tt, Slab st' cs (cbs ++ [head])) ∧
    slob_wf st' fs ∧ allocated st' fs b (SLOB_UNITS (cache_size k)) p ∧
    (∀ x, x < head → byte_at (mem st') x = byte_at (mem st) x) ∧
    (∀ a, ¬ (b ≤ a < b + SLOB_UNITS (cache_size k)) → mem st' !! a = mem st !! a) ∧
    ∀ st2 fs2 p2, slob_wf st2 fs2 → allocated st2 fs2 b (SLOB_UNITS (cache_size k)) p2 →
      (∀ x, head + 16 ≤ x < head + 20 → byte_at (mem st2) x = byte_at (mem st') x) →
      ∃ st3 fs3, rcu_callback (Slab st2 cs (head :: cbs)) = Ok (tt, Slab st3 cs cbs) ∧ slob_wf st3 fs3 ∧
        ((released st3 = FreePages b 0 :: released st2 ∧ virt_to_page b ∉ fs3.*1 ∧
            ∀ a, 2048 * virt_to_page b ≤ a < 2048 * virt_to_page b + 2048 →
              free_in fs2 (virt_to_page b) a ∨ b ≤ a < b + SLOB_UNITS (cache_size k)) ∨
         (released st3 = released st2 ∧
          ∀ a, free_in fs3 (virt_to_page b) a ↔
            free_in fs2 (virt_to_page b) a ∨ b ≤ a < b + SLOB_UNITS (cache_size k))) ∧
        (∀ q a, q ≠ virt_to_page b → free_in fs3 q a ↔ free_in fs2 q a).
Proof.
  intros Hwf Hk Hf Hs Hal head. change sizeof_slob_rcu with 24 in Hs. change PAGE_SIZE with 4096 in Hs.
  destruct (footer_write_ok st fs b (cache_size k) p) as (m1 & m2 & E1 & E2 & Hwf' & Hal' & Hsame & Hkeep & Hft);
    [done..|]. fold head in E1, E2, Hsame, Hkeep, Hft.
  exists (set_mem m2 st). split; [|split; [done|split; [done|split; [done|split]]]].
  - unfold kmem_cache_free. rewrite (st_bind_ok _ _ _ _ _ (cache_get_ok c k (Slab st cs cbs) Hk)), Hf.
    rewrite (st_bind_ok _ _ _ _ _ (on_slob_ok _ (Slab st cs cbs) _ _ E1)).
    by rewrite (st_bind_ok _ _ _ _ _ (on_slob_ok _ (Slab (set_mem m1 st) cs cbs) _ _ E2)).
  - intros a Ha. apply Hsame. intros Hc%footer_cells; [done|lia].
  - intros st2 fs2 p2 Hwf2 Hal2 Hx.
    destruct (slob_free_total st2 fs2 b (cache_size k) p2 Hwf2 ltac:(lia) Hal2)
      as (st3 & fs3 & E3 & Hwf3 & _ & Hrel & Hoth & _).
    exists st3, fs3. split_and!; [|done..]. unfold rcu_callback. erewrite st_bind_ok by reflexivity.
    cbn [rcu_callbacks]. erewrite st_bind_ok by reflexivity.
    apply (on_slob_ok _ (Slab st2 cs cbs)). cbn [slob_state]. unfold head.
    rewrite (rcu_free_ok st2 fs2 b (cache_size k) p2); [done..|].
    intros i Hi. fold head. rewrite Hx by lia. by apply Hft.
Qed.

(** A cache of 76-byte objects with their footers, and one object. *)
Definition rcu_cache : kmem_cache := KmemCache 100 8 SLAB_DESTROY_BY_RCU "rcu" None.

Lemma rcu_free_delayed_witness :
  ∃ st p st', slob_alloc (λ _ _, Some 5) 100 0 8 sample_slob = Ok (Some 10240, st) ∧
    kmem_cache_free 7 10240 (Slab st {[ 7 := rcu_cache ]} []) =
      Ok (tt, Slab st' {[ 7 := rcu_cache ]} [20556]) ∧
    allocated st' [(5, [(10290, 1998)])] 10240 50 p ∧
    ∃ st3, rcu_callback (Slab st' {[ 7 := rcu_cache ]} [20556]) = Ok (tt, Slab st3 {[ 7 := rcu_cache ]} []).
Proof.
  destruct (slob_alloc_fresh (λ _ _, Some 5) sample_slob [] 100 0 8 5)
    as (st & E & Hrep & _ & _ & Hq & Hfull & Hnode & Hram & _);
    [apply sample_slob_wf|lia|right; by exists 3|by intros ? ?%elem_of_nil|reflexivity|apply sample_slob_fresh|].
  exists st.
  destruct (fresh_wf sample_slob st [] 5 50) as (Hwf & p & Hall);
    [apply sample_slob_wf|apply sample_slob_fresh|lia|exact Hrep|exact Hq|exact Hfull|exact Hnode|exact Hram|].
  destruct (rcu_free_delayed st [(5, [(10290, 1998)])] {[ 7 := rcu_cache ]} [] 7 rcu_cache 10240 p)
    as (st' & E' & Hwf' & Hall' & _ & _ & Hcb).
  - exact Hwf.
  - apply lookup_singleton_eq.
  - reflexivity.
  - split; [discriminate|reflexivity].
  - exact Hall.
  - exists p, st'. split; [exact E|]. clear E. split; [exact E'|]. split; [exact Hall'|].
    destruct (Hcb st' [(5, [(10290, 1998)])] p Hwf' Hall') as (st3 & fs3 & E3 & _); [intros; reflexivity|].
    exists st3. exact E3.
Defined.

(** An allocation that fails runs the constructor of the cache all the same, on
    [NULL]. *)
Lemma ctor_runs_on_null alloc_pages st fs cs cbs c k f flags :
  slob_wf st fs → cs !! c = Some k → ctor k = Some f → 1 ≤ cache_size k < PAGE_SIZE →
  align_ok (cache_align k) → alloc_pages (Z.ldiff flags GFP_ZERO) 0 = None →
  (∀ v, v ∈ all_visits fs → ¬ fits (SLOB_UNITS (cache_size k)) (cache_align k) v) →
  kmem_cache_alloc_node alloc_pages c flags (Slab st cs cbs) =
    (on_slob (f NULL);; mret NULL) (Slab st cs cbs).
Proof.
  intros Hwf Hk Hf Hs Hal Ho Hno. change PAGE_SIZE with 4096 in Hs. unfold kmem_cache_alloc_node.
  rewrite (st_bind_ok _ _ _ _ _ (cache_get_ok c k (Slab st cs cbs) Hk)).
  destruct (Z.ltb_spec (cache_size k) PAGE_SIZE) as [_|Hge]; [|change PAGE_SIZE with 4096 in Hge; lia].
  pose proof (slob_alloc_oom alloc_pages st fs (cache_size k) flags (cache_align k)
    (wf_rep _ _ Hwf) ltac:(done) ltac:(done) ltac:(done)) as E.
  rewrite (st_bind_ok _ _ _ _ _ (on_slob_ok _ (Slab st cs cbs) _ _ E)). by rewrite Hf.
Qed.
