(* ===== verification/SlobClient.v ===== *)
(** * Clients of SLOB

    A client allocates and frees blocks and writes to those it holds, in any
    order.  The file shows that this is safe: no operation faults, the blocks held
    at the same time do not overlap, and the contents of a block change only
    when the client writes to it. *)

From S2P Require Import Prelude KList Slob SlobAlloc SlobFree.

Local Open Scope Z_scope.

(** An operation; an allocation comes with what the page allocator answers, a
    block is named by its position among those held. *)
Inductive client_op :=
| CAlloc (alloc_pages : Z → Z → option Z) (size gfp align : Z)
| CFree (i : nat)
| CWrite (i : nat) (off v : Z).

(** The allocator and the blocks held: address and size in bytes. *)
Definition client : Type := slob * list (Z * Z).

Definition client_step (o : client_op) (c : client) : res client :=
  let '(st, L) := c in
  match o with
  | CAlloc alloc_pages size gfp align =>
    '(b, st) ← slob_alloc alloc_pages size gfp align st;
    Ok (st, match b with Some b => (b, size) :: L | None => L end)
  | CFree i =>
    match L !! i with
    | Some (b, size) => '(_, st) ← slob_free (Addr b) size st; Ok (st, delete i L)
    | None => Ok c
    end
  | CWrite i off v =>
    match L !! i with
    | Some (b, size) => '(_, st) ← store (b + off) v st; Ok (st, L)
    | None => Ok c
    end
  end.

(** A page the page allocator may hand out: SLOB does not use it. *)
Record spare_page (st : slob) (sp : Z) : Prop := {
  spare_range : 0 ≤ sp < 2 ^ 50;
  spare_page_struct : ∃ p, pages st !! sp = Some p ∧ PageSlab p = false;
  spare_node : mapped (slists st) (sp_list sp);
  spare_ram : ∀ a, 2048 * sp ≤ a < 2048 * sp + 2048 → is_Some (mem st !! a)
}.

(** Sizes and alignments the callers of [slob_alloc] use; writes stay within a
    block. *)
Definition client_legal (o : client_op) (c : client) : Prop :=
  match o with
  | CAlloc alloc_pages size gfp align =>
    1 ≤ size ≤ 4096 ∧ align_ok align ∧
    ∀ sp, alloc_pages (Z.ldiff gfp GFP_ZERO) 0 = Some sp → spare_page (fst c) sp
  | CFree i => True
  | CWrite i off v => ∀ b size, snd c !! i = Some (b, size) → 0 ≤ off < SLOB_UNITS size
  end.

Inductive client_reaches (c0 : client) : client → Prop :=
| reaches_start : client_reaches c0 c0
| reaches_step c o c' : client_reaches c0 c → client_legal o c → client_step o c = Ok c' →
    client_reaches c0 c'.

(** Two blocks share no unit. *)
Definition disjoint_blocks (x y : Z * Z) : Prop :=
  x.1 + SLOB_UNITS x.2 ≤ y.1 ∨ y.1 + SLOB_UNITS y.2 ≤ x.1.

Record client_ok (c : client) : Prop := {
  ok_wf : ∃ fs, slob_wf (fst c) fs ∧
    ∀ b size, (b, size) ∈ snd c → 1 ≤ size ≤ 4096 ∧ ∃ p, allocated (fst c) fs b (SLOB_UNITS size) p;
  ok_apart : ∀ i j x y, i ≠ j → snd c !! i = Some x → snd c !! j = Some y → disjoint_blocks x y
}.

(** What an operation may change in the block held at position [j]. *)
Definition op_writes (o : client_op) (j : nat) (b a : Z) : Prop :=
  match o with
  | CAlloc _ _ _ _ => False
  | CFree i => j = i
  | CWrite i off v => j = i ∧ a = b + off
  end.

(** ** Lemmas *)

Lemma spare_fresh st fs sp : slob_wf st fs → spare_page st sp → fresh_page st fs sp.
Proof.
  intros Hwf [Hr (p & Hp & Hs) Hn Hm]. split; [|done|by eexists|done|done].
  intros ([q bs] & Eq & Hin)%list_elem_of_fmap. simpl in Eq. subst q.
  destruct (rep_pages _ _ (wf_rep _ _ Hwf) sp bs Hin) as (_ & _ & p' & Hv & HS & _).
  pose proof (pv_page _ _ _ _ Hv). congruence.
Qed.

Lemma free_in_page st fs q a : slob_rep st fs → free_in fs q a → virt_to_page a = q.
Proof.
  intros Hrep (bs & Hin & Ha). destruct (rep_pages _ _ Hrep q bs Hin) as (_ & _ & p & Hv & _).
  apply virt_to_page_in. by apply (in_blocks_range 1 _ _ _ _ ltac:(lia) (pv_wf _ _ _ _ Hv) Ha).
Qed.

Lemma allocated_in_page st fs b u p a : allocated st fs b u p → b ≤ a < b + u →
  virt_to_page a = virt_to_page b.
Proof.
  intros Hal Ha. apply virt_to_page_in. pose proof (virt_to_page_base b).
  pose proof (al_size _ _ _ _ _ Hal). lia.
Qed.

Lemma allocated_not_free st fs b u p a q : slob_rep st fs → allocated st fs b u p →
  b ≤ a < b + u → ¬ free_in fs q a.
Proof.
  intros Hrep Hal Ha Hf. pose proof (free_in_page _ _ _ _ Hrep Hf) as Eq.
  rewrite (allocated_in_page _ _ _ _ _ _ Hal Ha) in Eq. subst q. destruct Hf as (bs & Hin & Hb).
  by apply (al_disjoint _ _ _ _ _ Hal bs a).
Qed.

(** A block stays allocated if its page stays a page of SLOB and none of its
    units becomes free. *)
Lemma allocated_kept st st' fs fs' sp b u p : allocated st fs b u p → kept_pages sp st st' →
  (virt_to_page b = sp → ∃ p', pages st' !! sp = Some p' ∧ PageSlab p' = true) →
  (∀ a q, b ≤ a < b + u → ¬ free_in fs' q a) → ∃ p', allocated st' fs' b u p'.
Proof.
  intros [Hp Hs Hr Hu Hm Hn Hd] (Hq & Hn' & Hm') Hsp Hf.
  assert (∃ p', pages st' !! virt_to_page b = Some p' ∧ PageSlab p' = true) as (p' & Hp' & Hs').
  { destruct (decide (virt_to_page b = sp)) as [E|E]; [rewrite E; auto|]. exists p. by rewrite Hq. }
  exists p'. split; [done|done|done|done|intros a Ha; by apply Hm', Hm|by apply Hn'|].
  intros bs a Hin Ha Hb. apply (Hf a (virt_to_page b) Ha). by exists bs.
Qed.

Lemma units_apart x y : 1 ≤ SLOB_UNITS x.2 → 1 ≤ SLOB_UNITS y.2 →
  (∀ a, x.1 ≤ a < x.1 + SLOB_UNITS x.2 → ¬ y.1 ≤ a < y.1 + SLOB_UNITS y.2) → disjoint_blocks x y.
Proof. intros Hx Hy Ha. unfold disjoint_blocks. pose proof (Ha x.1). pose proof (Ha y.1). lia. Qed.

Lemma slab_of_free st fs sp a : slob_rep st fs → free_in fs sp a →
  ∃ p, pages st !! sp = Some p ∧ PageSlab p = true.
Proof.
  intros Hrep (bs & Hin & _). destruct (rep_pages _ _ Hrep sp bs Hin) as (_ & _ & p & Hv & HS & _).
  exists p. by split; [apply (pv_page _ _ _ _ Hv)|].
Qed.

Lemma elem_of_delete_list {A} (L : list A) i x : x ∈ delete i L → ∃ j, j ≠ i ∧ L !! j = Some x.
Proof.
  intros [j Hj]%list_elem_of_lookup. destruct (decide (j < i)%nat).
  - rewrite list_lookup_delete_lt in Hj by done. exists j. by split; [lia|].
  - rewrite list_lookup_delete_ge in Hj by lia. exists (S j). by split; [lia|].
Qed.

Lemma lookup_delete_inj {A} (L : list A) i j k x y : j ≠ k →
  delete i L !! j = Some x → delete i L !! k = Some y →
  ∃ j' k', j' ≠ k' ∧ L !! j' = Some x ∧ L !! k' = Some y.
Proof.
  intros Hjk Hj Hk. exists (if decide (j < i)%nat then j else S j), (if decide (k < i)%nat then k else S k).
  split_and!.
  - destruct (decide (j < i)%nat), (decide (k < i)%nat); lia.
  - case_decide; [by rewrite list_lookup_delete_lt in Hj|by rewrite list_lookup_delete_ge in Hj by lia].
  - case_decide; [by rewrite list_lookup_delete_lt in Hk|by rewrite list_lookup_delete_ge in Hk by lia].
Qed.

(** ** One operation *)

(** The outcome of an operation: it returns, the state stays sound, and blocks
    it is not applied to keep their contents. *)
Definition step_safe (o : client_op) (c : client) : Prop :=
  ∃ c', client_step o c = Ok c' ∧ client_ok c' ∧
    ∀ j b size a, snd c !! j = Some (b, size) → b ≤ a < b + SLOB_UNITS size →
      ¬ op_writes o j b a → mem (fst c') !! a = mem (fst c) !! a.

Section steps.
Context (st : slob) (fs : list (Z * list (Z * Z))) (L : list (Z * Z)).
Hypotheses (Hwf : slob_wf st fs)
  (HL : ∀ b size, (b, size) ∈ L → 1 ≤ size ≤ 4096 ∧ ∃ p, allocated st fs b (SLOB_UNITS size) p)
  (Hap : ∀ i j x y, i ≠ j → L !! i = Some x → L !! j = Some y → disjoint_blocks x y).

(** A page handed out by the page allocator holds no block. *)
Lemma spare_holds_none sp b size a : spare_page st sp → (b, size) ∈ L →
  b ≤ a < b + SLOB_UNITS size → virt_to_page a ≠ sp.
Proof.
  intros [_ (p & Hp & Hs) _ _] Hin Ha <-. destruct (HL b size Hin) as (_ & p' & Hal).
  rewrite (allocated_in_page _ _ _ _ _ _ Hal Ha) in Hp.
  pose proof (al_page _ _ _ _ _ Hal). pose proof (al_slab _ _ _ _ _ Hal). congruence.
Qed.

Lemma alloc_step_safe alloc_pages size gfp align :
  client_legal (CAlloc alloc_pages size gfp align) (st, L) →
  step_safe (CAlloc alloc_pages size gfp align) (st, L).
Proof.
  intros (Hsz & Hal & Hsp). pose proof (wf_rep _ _ Hwf) as Hrep.
  destruct (slob_alloc_total alloc_pages st fs size gfp align Hwf Hsz Hal) as ([b|] & st' & E & Hc).
  { intros sp ?. by apply spare_fresh, Hsp. }
  2: { destruct Hc as (-> & _). exists (st, L). unfold client_step. rewrite E. split; [done|].
       split; [|done]. split; [by exists fs|done]. }
  destruct Hc as (_ & fs' & p & Hwf' & Hnew & Hkp & Htaken & Hfree & _ & Hmem).
  assert (Hold : ∀ b2 s2 a, (b2, s2) ∈ L → b2 ≤ a < b2 + SLOB_UNITS s2 →
    (∀ q, ¬ free_in fs q a) ∧ ∀ sp, alloc_pages (Z.ldiff gfp GFP_ZERO) 0 = Some sp → virt_to_page a ≠ sp).
  { intros b2 s2 a Hin Ha. destruct (HL b2 s2 Hin) as (_ & p2 & Hal2). split.
    - intros q. by apply (allocated_not_free st fs b2 (SLOB_UNITS s2) p2).
    - intros sp Hq. by apply (spare_holds_none sp b2 s2 a); [apply Hsp|..]. }
  assert (Hdis : ∀ y, y ∈ L → disjoint_blocks (b, size) y).
  { intros [b2 s2] Hin. destruct (HL b2 s2 Hin) as (Hs2 & p2 & Hal2).
    apply units_apart; simpl; [apply (units_bound size Hsz)|apply (units_bound s2 Hs2)|].
    intros a Ha Ha2. destruct (Hold b2 s2 a Hin Ha2) as [Hnf Hnp].
    destruct (Htaken a Ha) as [Hf|Hf]; [by apply (Hnf (virt_to_page b))|].
    apply (Hnp _ Hf). by apply (allocated_in_page _ _ _ _ _ _ Hnew). }
  exists (st', (b, size) :: L). unfold client_step. rewrite E. split; [done|]. split; [split; simpl|].
  - exists fs'. split; [done|]. intros b2 s2 [[= -> ->]|Hin]%elem_of_cons; [by split; [|exists p]|].
    destruct (HL b2 s2 Hin) as (Hs2 & p2 & Hal2). split; [done|].
    apply (allocated_kept st st' fs fs' (virt_to_page b) b2 _ p2 Hal2 Hkp).
    + intros _. exists p. split; [apply (al_page _ _ _ _ _ Hnew)|apply (al_slab _ _ _ _ _ Hnew)].
    + intros a q Ha Hf. destruct (Hold b2 s2 a Hin Ha) as [Hnf Hnp].
      destruct (Hfree q a Hf) as [?|Hq]; [by apply (Hnf q)|].
      by apply (Hnp q Hq), (free_in_page _ _ _ _ (wf_rep _ _ Hwf') Hf).
  - intros [|i] [|j] x y Hij Hx Hy; simpl in *; [done|..].
    + injection Hx as <-. by apply Hdis, (list_elem_of_lookup_2 _ j).
    + injection Hy as <-. destruct (Hdis x); [by apply (list_elem_of_lookup_2 _ i)|by right|by left].
    + apply (Hap i j); [congruence|done|done].
  - intros j b2 s2 a Hj Ha _. simpl in *. apply list_elem_of_lookup_2 in Hj.
    destruct (Hold b2 s2 a Hj Ha) as [Hnf Hnp]. apply Hmem; [done|].
    intros sp Hq Hr. by apply (Hnp sp Hq), virt_to_page_in.
Qed.

Lemma free_step_safe i : step_safe (CFree i) (st, L).
Proof.
  unfold step_safe, client_step. destruct (L !! i) as [[b size]|] eqn:Hi.
  2: { exists (st, L). split; [done|]. split; [|done]. split; [by exists fs|done]. }
  destruct (HL b size (list_elem_of_lookup_2 _ _ _ Hi)) as (Hsz & p & Hal).
  destruct (slob_free_total st fs b size p Hwf Hsz Hal) as (st' & fs' & E & Hwf' & Hmem & Hrel & Hoth & Hkp).
  pose proof (wf_rep _ _ Hwf) as Hrep. pose proof (units_bound size Hsz) as Hu.
  assert (Hold : ∀ j b2 s2 a, j ≠ i → L !! j = Some (b2, s2) → b2 ≤ a < b2 + SLOB_UNITS s2 →
    (∀ q, ¬ free_in fs q a) ∧ ¬ (b ≤ a < b + SLOB_UNITS size)).
  { intros j b2 s2 a Hne Hj Ha. destruct (HL b2 s2 (list_elem_of_lookup_2 _ _ _ Hj)) as (_ & p2 & Hal2).
    split; [intros q; by apply (allocated_not_free st fs b2 (SLOB_UNITS s2) p2)|].
    pose proof (Hap j i _ _ Hne Hj Hi) as Hxy. unfold disjoint_blocks in Hxy. simpl in Hxy. lia. }
  assert (Hnot : ∀ j b2 s2 a q, j ≠ i → L !! j = Some (b2, s2) → b2 ≤ a < b2 + SLOB_UNITS s2 →
    ¬ free_in fs' q a).
  { intros j b2 s2 a q Hne Hj Ha Hf. destruct (Hold j b2 s2 a Hne Hj Ha) as [Hnf Hnb].
    destruct (decide (q = virt_to_page b)) as [->|Hq]; [|by apply (Hnf q), Hoth].
    destruct Hrel as [(_ & Hni & _)|[_ Hiff]]; [|by apply Hiff in Hf as [?%Hnf|?]].
    destruct Hf as (bs & Hin & _). apply Hni. by apply (list_elem_of_fmap_2 fst _ (_, bs)). }
  exists (st', delete i L). rewrite E. split; [done|]. split; [split; simpl|].
  - exists fs'. split; [done|]. intros b2 s2 (j & Hne & Hj)%elem_of_delete_list.
    destruct (HL b2 s2 (list_elem_of_lookup_2 _ _ _ Hj)) as (Hs2 & p2 & Hal2). split; [done|].
    apply (allocated_kept st st' fs fs' (virt_to_page b) b2 _ p2 Hal2 Hkp); [|by eauto].
    intros Eb. pose proof (units_bound s2 Hs2).
    destruct (Hold j b2 s2 b2 Hne Hj ltac:(lia)) as [Hnf Hnb].
    destruct Hrel as [(_ & _ & Hall)|[_ Hiff]].
    + destruct (Hall b2) as [Hf|?]; [|by destruct (Hnf _ Hf)|done].
      rewrite <-Eb. pose proof (virt_to_page_base b2). pose proof (al_size _ _ _ _ _ Hal2). lia.
    + apply (slab_of_free st' fs' _ b (wf_rep _ _ Hwf')), Hiff. right. lia.
  - intros j k x y Hjk Hj Hk. destruct (lookup_delete_inj L i j k x y Hjk Hj Hk) as (j' & k' & ? & ? & ?).
    by apply (Hap j' k').
  - intros j b2 s2 a Hj Ha Hw. simpl in *. destruct (Hold j b2 s2 a Hw Hj Ha) as [Hnf Hnb].
    by apply Hmem.
Qed.

Lemma write_step_safe i off v : client_legal (CWrite i off v) (st, L) →
  step_safe (CWrite i off v) (st, L).
Proof.
  intros Hleg. unfold step_safe, client_step, client_legal in *. simpl in Hleg.
  destruct (L !! i) as [[b size]|] eqn:Hi.
  2: { exists (st, L). split; [done|]. split; [|done]. split; [by exists fs|done]. }
  specialize (Hleg b size eq_refl).
  destruct (HL b size (list_elem_of_lookup_2 _ _ _ Hi)) as (Hsz & p & Hal).
  assert (is_Some (mem st !! (b + off))) as [w Hw].
  { apply (al_ram _ _ _ _ _ Hal). pose proof (virt_to_page_base b). pose proof (al_size _ _ _ _ _ Hal). lia. }
  set (m' := <[b + off := s16 v]> (mem st)).
  assert (Hsame : same_but (mem st) m' (λ a, b ≤ a < b + SLOB_UNITS size)).
  { split; [|intros a Ha; subst m'; rewrite lookup_insert_ne; [done|lia]].
    intros a. subst m'. rewrite lookup_insert_is_Some'. naive_solver. }
  exists (set_mem m' st, L). unfold store. rewrite Hw. split; [done|]. split; [split; simpl|].
  - exists fs. destruct (allocated_write st fs b _ p m' Hwf Hal Hsame) as [Hwf' _]. split; [done|].
    intros b2 s2 Hin. destruct (HL b2 s2 Hin) as (Hs2 & p2 & []). split; [done|]. exists p2.
    split; try done. intros a Ha. apply Hsame. auto.
  - done.
  - intros j b2 s2 a Hj Ha Hnw. simpl in *. subst m'. apply lookup_insert_ne. intros <-.
    destruct (decide (j = i)) as [->|Hne]; [apply Hnw; by rewrite Hi in Hj; injection Hj as <- <-|].
    pose proof (Hap j i _ _ Hne Hj Hi) as Hxy. unfold disjoint_blocks in Hxy. simpl in Hxy. lia.
Qed.
End steps.

Lemma client_step_safe o c : client_ok c → client_legal o c → step_safe o c.
Proof.
  destruct c as [st L]. intros [(fs & Hwf & HL) Hap] Hleg. destruct o as [ap size gfp align|i|i off v].
  - by apply (alloc_step_safe st fs L Hwf HL Hap).
  - by apply (free_step_safe st fs L Hwf HL Hap).
  - by apply (write_step_safe st fs L Hwf HL Hap).
Qed.

Lemma client_reaches_ok c0 c : client_ok c0 → client_reaches c0 c → client_ok c.
Proof.
  intros H0. induction 1 as [|c o c' _ IH Hleg E]; [done|].
  destruct (client_step_safe o c IH Hleg) as (c2 & E2 & H2 & _). congruence.
Qed.

(** C5: Whatever a client does that starts with no block and keeps to legal
    calls, the blocks it holds lie in memory of SLOB, on no free list, and do not
    overlap; the next operation does not fault either, and leaves the contents
    of every block alone that it is not applied to. *)
Theorem slob_client_safe st0 fs0 c : slob_wf st0 fs0 → client_reaches (st0, []) c →
  (∃ fs, slob_wf (fst c) fs ∧
     ∀ b size, (b, size) ∈ snd c → ∃ p, allocated (fst c) fs b (SLOB_UNITS size) p) ∧
  (∀ i j x y, i ≠ j → snd c !! i = Some x → snd c !! j = Some y → disjoint_blocks x y) ∧
  ∀ o, client_legal o c → ∃ c', client_step o c = Ok c' ∧
    ∀ j b size a, snd c !! j = Some (b, size) → b ≤ a < b + SLOB_UNITS size →
      ¬ op_writes o j b a → mem (fst c') !! a = mem (fst c) !! a.
Proof.
  intros Hwf Hr. assert (Hok : client_ok c).
  { apply (client_reaches_ok (st0, [])); [|done]. split; [|done]. exists fs0. split; [done|].
    by intros ?? ?%elem_of_nil. }
  pose proof Hok as [(fs & Hf & HL) Hap]. split; [exists fs; naive_solver|]. split; [done|].
  intros o Hleg. destruct (client_step_safe o c Hok Hleg) as (c' & E & _ & Hm). by exists c'.
Qed.

Lemma sample_slob_spare : spare_page sample_slob 5.
Proof.
  destruct sample_slob_fresh as [_ Hr _ Hn Hm]. split; [exact Hr| |exact Hn|exact Hm].
  exists (SlobPage 0 0 false false 0). split; reflexivity.
Qed.

Lemma slob_client_safe_witness :
  ∃ st, client_reaches (sample_slob, []) (st, [(10240, 100)]) ∧
    ∃ c', client_step (CWrite 0 3 7) (st, [(10240, 100)]) = Ok c'.
Proof.
  destruct (slob_alloc_fresh (λ _ _, Some 5) sample_slob [] 100 0 8 5) as (st & E & _);
    [apply sample_slob_wf|lia|right; by exists 3|by intros ? ?%elem_of_nil|reflexivity|apply sample_slob_fresh|].
  assert (Hr : client_reaches (sample_slob, []) (st, [(10240, 100)])).
  { apply (reaches_step _ (sample_slob, []) (CAlloc (λ _ _, Some 5) 100 0 8)); [apply reaches_start| |].
    - clear E. split; [lia|]. split; [right; by exists 3|]. intros sp [= <-]. apply sample_slob_spare.
    - unfold client_step. rewrite E. reflexivity. }
  clear E. exists st. split; [exact Hr|].
  destruct (slob_client_safe sample_slob [] (st, [(10240, 100)])) as (_ & _ & Hstep).
  - apply sample_slob_wf.
  - exact Hr.
  - destruct (Hstep (CWrite 0 3 7)) as (c' & E' & _); [|exists c'; exact E'].
    intros b size [= <- <-]. change (SLOB_UNITS 100) with 50. lia.
Defined.
